(* ===== verification/_CoqProject ===== *)
-Q . S2P
Prelude.v
Values.v
Models.v
Transitions.v
Policy.v
Safety.v
StateStore.v
Freshness.v
Registry.v
Digests.v
ApprovalStore.v
PlanService.v
Coordination.v
DynamicSafety.v
Admission.v
Preflight.v
Intents.v
PlanRecords.v
HouseholdQueue.v
Ports.v
Coroutines.v
ControlTakeover.v
ControlTakeoverRuns.v
ControlTakeoverSafety.v
ControlTakeoverHistory.v
ControlTakeoverGroup.v
Runtime.v
Executor.v
LampExecution.v
ExecutionSteps.v
ExecutionTrace.v
ExecutionSafety.v
ExecutionGates.v
ExecutionOrder.v
ExecutionOutcomes.v
ExecutionReadback.v
ExecutionConfirm.v
Projection.v
Zones.v
Recurrence.v
ScheduleRecords.v
BundleRecords.v
Scheduler.v
LampSchedule.v
SchedulerSafety.v
SchedulerOutcomes.v
CommitService.v
CommitRecovery.v
LampCommit.v
CommitSteps.v
CommitOutcomes.v
RecoveryOutcomes.v
Authority.v
Management.v
AuthoritySafety.v
ManagementSafety.v
Binary64.v
Modbus.v
ModbusAdapter.v
ModbusSafety.v
Automation.v
LocalAutomation.v
LocalAutomationSafety.v
Preferences.v
PreferenceStore.v
PreferenceSafety.v
Discovery.v
Refreshing.v
RefreshSafety.v
