(* ===== verification/Prelude.v ===== *)
(** * DomoAI: a verification library of the runtime core

    DomoAI (src/src/domoai/) turns the wish of a person or an agent into writes
    on physical devices.  A caller submits a plan of commands; the runtime binds
    it to its deployment, validates every command against the live inventory,
    asks the policy engine, obtains a human approval where the policy asks for
    one, admits the plan for execution behind the household's lease, and
    rechecks everything a write rests on immediately before it.  Readings come
    in through adapters and are kept, versioned and marked for freshness in the
    state store.  This library models that decision core as executable
    functions on explicit states and proves what it promises.

    ** The parts and how they correspond

    - [Prelude.v]: record update, the [result] and [stm] monads (a value or a
      raised exception, without and with a state that survives it),
      insertion-ordered dictionaries [odict], list and string lemmas, the hint
      databases and the tactics [destruct_ands] and [ok_inv].
    - [Values.v]: [bool | int | float | str] with Python's comparisons (an [int]
      is unbounded, a [float] is binary64 through [SpecFloat]) and JSON.
    - [Models.v]: domain/models.py and domain/errors.py, the records and every
      validator the core relies on, exceptions as the type [exn].
    - [Transitions.v]: domain/transitions.py, the tables of the plan and
      availability state machines and their guards.
    - [Policy.v]: runtime/risk_classifier.py, config/policy_loader.py and
      application/policy_engine.py ([evaluate] = [PolicyEngine.evaluate]).
    - [Safety.v]: runtime/safety_kernel.py ([new_kernel], [check]).
    - [StateStore.v]: runtime/state_store.py.  The copy-on-write candidate is
      [StateCandidate]; each mutation plans a candidate and commits it through
      [commit_candidate], whose argument [PersistOutcome] says what the bound
      writer did (persisted, failed, interrupted after the write).
      [run_mutation] and [store_history] are the mutations and their histories.
    - [Freshness.v]: runtime/freshness.py.
    - [Registry.v]: runtime/source_models.py and runtime/registry.py; the whole
      discovery step is [apply_discovery] (= [DeviceRegistry.apply_snapshot]).
    - [Digests.v]: runtime/executable_fingerprint.py and the payloads that are
      hashed elsewhere; the rendering of JSON, SHA-256 and ISO dates are the
      class [Canonical].
    - [ApprovalStore.v]: runtime/approval_store.py, the ledger of human
      approvals; [run_ledger] and [ledger_history] are its histories.
    - [PlanService.v]: application/plan_service.py and
      application/capability_assurance.py; it uses the registry, the state
      store, the policy engine, the digests and the approval grants.
    - [Coordination.v]: domain/coordination.py and application/coordination.py,
      the leases of a household and the fencing guard.
    - [DynamicSafety.v]: application/dynamic_safety.py with the bindings of
      domain/energy.py; it reads the state store.
    - [Admission.v]: application/execution_admission.py; it uses the fencing
      guard, the approval ledger and the bundle records.
    - [Preflight.v]: the preflight, the preconditions and the postconditions of
      application/executor.py.
    - [Intents.v]: the ledger of physical intents, persistence/coordination.py
      with the records of domain/coordination.py; its interface to the
      executor is the class [PhysicalIntentPort].
    - [PlanRecords.v]: [PlanRepository] of persistence/repositories.py with
      persistence/contract_compatibility.py; its interface to the executor is
      the class [PlanRecordPort].
    - [HouseholdQueue.v]: application/household_queue.py, the queues of physical
      work; [queue_step] is one block under the lock, [reachable] any order of
      them, and lanes ([lane_after]) are what the queues promise.
    - [Ports.v]: the contracts of the ports of an execution.
    - [Coroutines.v]: asynchronous methods as trees of requests, alone ([run])
      or interleaved at their awaits ([pool_step]), with their program logics:
      [wp] under a rely condition ([run_sound], [pool_sound]), [wph] and [does]
      over the history of a method, its own steps and the answers it got
      ([does_sound]), what never happens ([avoids]) or stays so ([stays]), and
      the order of what happened ([in_order], [preceded]).
    - [ControlTakeover.v]: runtime/control_takeover.py, the coordinator of a
      latched device, the adapter of a charger and the group, as coroutines;
      [ControlTakeoverRuns.v] runs a home battery by scripts,
      [ControlTakeoverSafety.v] has the theorems for any interleaving of calls,
      [ControlTakeoverHistory.v] for calls one after the other,
      [ControlTakeoverGroup.v] for several devices.
    - [Runtime.v]: the world an execution runs in.  At every [await] the others
      may change the shared state as the class [Environment] says, which also
      gives the answers of adapters, databases, queue and takeover port;
      [World] holds the shared state, the locals of one execution and its
      trace.
    - [Executor.v]: application/executor.py, one execution of a plan from its
      admission to its settlement ([execute_impl], [execute_owned]).
    - [LampExecution.v]: one concrete execution, for the witnesses.
    - [ExecutionSteps.v], [ExecutionTrace.v]: the proof principles of the
      executor: what every primitive step keeps ([Steps]), executions as
      primitive steps around one run of the plan and a command as primitive
      steps around one dispatch ([around]), and the shape of the trace.
    - [ExecutionSafety.v], [ExecutionGates.v], [ExecutionOrder.v],
      [ExecutionOutcomes.v], [ExecutionReadback.v], [ExecutionConfirm.v]: the
      theorems about executions.

    - [Projection.v]: application/execution_projection.py and the digest of an
      execution's outcomes.
    - [Zones.v]: the zoneinfo of the standard library, the clock of a zone with
      its gaps and repeated hours.
    - [Recurrence.v]: application/recurrence.py.
    - [ScheduleRecords.v], [BundleRecords.v]: the tables of scheduled plans,
      recurring schedules and bundle commits in persistence/repositories.py.
    - [Scheduler.v]: application/scheduler.py, the sweeps over these tables as
      coroutines that yield at the executor, the admission, the runners and
      twice at every call of a repository ([db]): the deployment runs them on
      the thread of persistence/serialized.py; [LampSchedule.v] is one home for the examples and witnesses,
      [SchedulerSafety.v] and [SchedulerOutcomes.v] have the theorems.
    - [CommitService.v]: application/bundle_commit.py, [BundleCommitService] as
      coroutines that yield at every call of a repository ([ask_storage]) and
      while the executor runs a member ([ask_member]).
    - [CommitRecovery.v]: [BundleRecoveryService] of the same file and
      application/recovery.py.
    - [LampCommit.v]: one bundle of one home, for the examples and witnesses.
    - [CommitSteps.v]: what happened in a commit, step by step ([executions],
      [quiet]); [CommitOutcomes.v] and
      [RecoveryOutcomes.v] have the theorems.

    - [Authority.v]: application/authority.py, the roles and scopes of a caller
      ([authorize], [bind_plan]), with the guards of mcp/auth.py and
      mcp/domotics_server.py that ask it; [AuthoritySafety.v] has the theorems.
    - [Management.v]: the middleware in front of every handler of the management
      interface ([protected], [authenticated] of management/api.py), with
      management/auth.py and management/rate_limit.py; [ManagementSafety.v] has
      the theorem.
    - [Binary64.v]: doubles on which rounding does nothing, and the bits of a C
      float.
    - [Modbus.v]: adapters/modbus/config.py, codec.py and mapper.py;
      [ModbusAdapter.v]: adapters/modbus/adapter.py as coroutines over the
      transport; [ModbusSafety.v] has the theorems.
    - [Automation.v]: domain/automation.py and the repository of automation rules
      in persistence/repositories.py with its claims of events, and the theorem
      about them; [LocalAutomation.v]: application/local_automation.py, from an
      event or the time to the execution of a rule; [LocalAutomationSafety.v]
      has its theorems.
    - [Preferences.v]: domain/household_preferences.py; [PreferenceStore.v]:
      persistence/household_preferences.py, the four tables of preferences,
      history, receipts and generations; [PreferenceSafety.v] has the theorems.
    - [Discovery.v]: application/discovery_service.py; [Refreshing.v]:
      application/state_refresher.py and application/event_consumer.py, the tasks
      that keep the state store fresh; [RefreshSafety.v] has the theorems.  The
      orders in which Python iterates over its sets are the class [SetOrder]
      with the law that they permute them.

    The executor's takeover port and its work queue are answers of the
    [Environment]; [ControlTakeover.v] and [HouseholdQueue.v] are the components
    that give them.  The scheduler asks the executor by a request, [ask_execute],
    the commit by [ask_member], local automation by [ask_run]; scheduler and
    commit read and write the tables of [ScheduleRecords.v] and
    [BundleRecords.v].  The refresher runs the methods of the discovery service
    on its part of the state, which holds the registry and the state store.

    Time is an argument: [now] is the reading of the injected clock, an instant
    in microseconds; identifiers that the code draws at random are arguments
    too.  Asynchronous methods that hold a lock are single steps; the executor
    yields at each of its other awaits.

    ** What the theorems show

    - Plans.  A plan that validation makes executable has every command cleared
      by device, capability, value, unit, route, feedback, actuator binding and
      policy ([executable_plan_cleared]); its evidence is short-lived
      ([validity_bounded]); the value check is exact ([validate_value_exact]);
      execution is refused unless all evidence holds
      ([assert_executable_exact]); a READY plan, and an approved one, executes
      exactly as long as nothing it rests on changes ([ready_plan_executes],
      [approved_plan_executes]).  The guarded transitions form a finite life
      cycle through the gates ([execution_only_through_gates],
      [plan_lifecycle_terminates]).
    - Policy and limits.  ALLOW is reached for safe commands only, a decision is
      only ever hardened, the matching policy of highest priority decides, and
      the merged limits refuse whatever one of them refuses ([allow_only_safe],
      [evaluate_refines_choice], [choose_policy_highest_priority],
      [kernel_enforces_all_limits]).
    - State.  An unchanged version is an unchanged reading over any history;
      durable mutations are atomic under write failure and cancellation; stream
      cursors advance in order and a gap quarantines the stream until it is
      resynchronised; merging of sources and freshness fail safe.
    - Registry.  Routing is unambiguous, losing a source disables its routes,
      new devices get ids nobody claims, reconciliation removes exactly what
      disappeared, merging of capabilities is sound.
    - Consent.  A grant is bound and short-lived, used once, exclusive under a
      reservation; an assertion cannot be replayed; evidence is accepted only if
      it equals a consumed grant; and a consumed grant carries through to
      execution ([consumed_grant_approves]).
    - Executions, for every [Environment].  Every write passed its gates since
      the write before ([write_gated]); with the ledger of intents no
      idempotency key is written twice, each write having claimed its key by a
      step of the shared ledger since the write before; with the plan repository
      no plan is executed twice ([key_written_once], [plan_executed_once]), both
      proved against the interfaces; the writes follow the plan
      ([writes_follow_plan]); every command is reported and the plan settled
      with the report ([execution_reported]); a confirmed success was accepted
      and then observed ([confirmed_success_observed]); an exception after a
      write marks the plan unknown, unless that call fails, and asks for the
      release of control ([failure_cleans_up]); the readback ends ([readback_terminates]); the
      preflight is all or nothing ([preflight_all_or_nothing]).
    - Durable claims.  Over any history of calls, with others between the
      transactions of one call, an intent is acquired once and a plan is
      claimed once, a settlement comes to an answer, and the record of a plan
      keeps its identity ([intent_acquired_once], [plan_claimed_once],
      [settle_comes_to_an_answer], [plan_record_keeps_identity]).
    - Execution rights.  A lease is exclusive until it ends, a takeover fences
      its predecessor off, admission needs the lease, a bundle member needs its
      unused capability and confirmed predecessors, a capability is used once,
      and the dynamic guards admit exactly what fresh evidence supports.

    - Queues.  The queues refine one first-in-first-out lane per household,
      within their limits and without losing or repeating work, and drain
      ([queue_refines_lanes], [queue_fifo], [queue_bounded], [queue_drains]).
    - Control of devices.  Under any interleaving control is only asked for
      when nothing holds or may hold the device, and a lease is released only
      on a live reading at rest ([takeover_gated], [released_after_reading],
      [still_owned_live], [only_stops_sent]); one call after the other, a device
      has one lease at most and it is given back ([single_lease],
      [lease_given_back]); a plan takes all its devices or none
      ([takeover_all_or_nothing]); a charger's lease rests on a live reading
      ([ev_lease_needs_reading]).  Two acquisitions at once, a renewal that meets
      a failed stop and a cancelled group break what the comments promise
      ([two_leases_at_once], [unknown_lease_revived],
      [cancelled_takeover_stays_held]).

    - Schedules.  A sweep executes a plan only when it is due and, read since
      the execution before and in this order, its row was pending with the same
      evidence and its predecessors were confirmed ([due_execution_gated]), an
      occurrence only when the authority stored with its schedule, if any, was
      alive ([occurrence_execution_gated]); a schedule that was handled moves on
      to its next occurrence or is ended ([recurring_moves_on]); that occurrence
      is the right one ([next_occurrence_first]); rows and bundle members are
      decided once ([scheduled_plan_decided_once],
      [bundle_member_settled_once]).  The edges:
      [found_again_in_fold], [skipped_across_midnight],
      [cancelled_schedule_executed], [cancelled_while_executing],
      [cancelled_after_its_check],
      [failed_member_confirmed], [missed_chain_partially_committed].

    - Bundles.  A commit executes members only of a request that holds, after
      its plans were executable and then its approvals consumed, in order and each after the ones before were
      confirmed ([bundle_execution_gated]); the status it answers says what
      happened ([bundle_commit_truthful]).  A recovery executes nothing and
      takes every status from what the tables say ([recovery_from_evidence]),
      the status of the bundle from those of its members
      ([recovery_status_exact]), and consumes or gives back the approvals.  The edges: [completed_before_its_evening],
      [unknown_member_called_failed], [running_plan_called_unknown].

    - Callers.  A plan bound to a principal can do nothing the principal cannot
      ([bound_plan_never_broadens]), a call on a stored plan needs the caller's
      own authority ([existing_plan_guarded]); the middleware of the management
      interface hands a request on only as its route, its principal, its origin
      and the limiter allow, to change anything with an explicit authority
      ([management_gated]).  The edges: [malformed_claim_widens],
      [declared_consent_bound], [capability_scope_differs],
      [resident_unauthenticated].
    - Modbus.  What was decoded is encoded to the same registers
      ([decoded_value_written_back]); a command is one write of its own point,
      within its registers ([command_written_once]).  The edge:
      [tenths_not_written_back].
    - Local automation.  A rule is executed only through its gates, after the
      event was claimed for it ([automation_execution_gated]); claims of a rule
      are for different events and a cooldown apart ([claims_spaced]); the report
      of an event says what ran ([automation_report_truthful]).  The edges:
      [superseded_rule_executed], [event_claimed_again],
      [disabled_reported_as_cooldown], [fired_twice_in_fold], [skipped_in_gap].
    - Preferences.  The tables stay well formed ([preferences_well_formed]), a
      mutation moves the head by one or changes nothing ([mutation_serialised]),
      a repeated request is answered and not applied again
      ([request_applied_once]), and what was erased does not come back
      ([erasure_final]).
    - Refreshes and events.  A lost source is closed in registry and store and
      what it showed is resolved again ([lost_source_closed]); a source with an
      event stream is not polled ([event_sources_never_polled]); a refresh never
      raises ([refresh_comes_back]).  The edges: [first_capability_dropped],
      [failed_refresh_unmarked], [consumer_taken_down].

    Every theorem with hypotheses is applied at a concrete input in the lemma
    of the same name with [_witness].

    ** Bounds and fuel

    The only recursion that is not structural is the search for a free suffix
    of a device id, [Registry.next_suffix]; it gets one unit of fuel more than
    there are claimed ids, and [next_suffix_fresh] shows by the pigeonhole
    principle that it then ends on a free one.  Two loops of the code are
    followed with fuel: the compare-and-swap of [Intents.settle] with
    [settle_fuel] = 3 passes, enough because a second pass needs another status
    and two statuses admit one ([settle_loop_fuel]); and the polls of a
    readback with [env_fuel], enough once it covers the settle timeout
    ([readback_terminates]).  [next_occurrence] searches eight days, which
    [next_occurrence_first] proves to be enough; [run_loop] takes the number of
    its rounds.  Python integers are [Z], floats are binary64 with correct
    rounding; [timedelta_seconds] rounds a float to microseconds as the
    interpreter does and raises outside its range.

    ** What is not modelled

    - The audit log, metrics and rendering for logs: output only.
    - The approval ledger with a durable grant repository, delivery preparation
      and consent revocation: [ApprovalStore.v] is the in-process ledger.
    - Naive datetimes: an instant is aware by its type, so the validators'
      rejection of naive ones has no counterpart; [fromisoformat] is a
      parameter that tells whether a text carries a zone.
    - Raw adapter entities that violate the adapters' types: an entity is the
      record of the entries the code reads.
    - The task bookkeeping of [PlanExecutor.execute] and [close]: a request to
      cancel is a flag the environment may set at any await.
    - The other repositories of persistence/repositories.py, and the queue of
      the thread a deployment runs them on (persistence/serialized.py): a call
      is an await at which others act, then one step on the tables, and for the
      scheduler another await for the answer; either await may fail.
    - The other adapters, connections, onboarding, household consent, the tools
      of the MCP server and the handlers of the management interface, the
      optimizer (a third-party solver), laboratory and administration tools. *)

From Stdlib Require Export ZArith Lia List String Ascii.
From stdpp Require Export base option list strings gmap sorting pretty.

#[global] Open Scope string_scope.
#[global] Open Scope list_scope.
#[global] Open Scope Z_scope.

(** ** Record update

    [r <| f := v |>] is Python's [dataclasses.replace] / pydantic
    [model_copy(update={...})]: a record gives its eta expansion once, as an
    instance of [Eta], and the setter of each projection is found by the hint. *)

Class Eta (R : Type) := eta : R -> R.
Class Update {R E : Type} (p : R -> E) := update : (E -> E) -> R -> R.
Definition set_field {R E : Type} (p : R -> E) {u : Update p} (v : E) (r : R) : R :=
  @update _ _ p u (fun _ => v) r.
Arguments set_field {R E} p {u} v r /.
Arguments update {R E} p {Update} _ _ /.

Ltac build_update :=
  lazymatch goal with
  | |- @Update ?R ?E ?p =>
      let i := constr:(_ : Eta R) in
      exact (fun (f : E -> E) (r : R) =>
               ltac:(let body := eval hnf in (i r) in
                     lazymatch body with
                     | context C [p r] => let t := context C [f (p r)] in exact t
                     end))
  end.
#[global] Hint Extern 0 (Update _) => build_update : typeclass_instances.

Declare Scope record_scope.
#[global] Open Scope record_scope.
Notation "r <| p := v |>" := (set_field p v r)
  (at level 1, left associativity, p at level 10, v at level 200, format "r  <| p  :=  v |>") : record_scope.

(** ** Results: a value or a raised exception *)

Inductive result (E A : Type) : Type :=
  | Ok (a : A)
  | Err (e : E).
Arguments Ok {E A} a.
Arguments Err {E A} e.

#[global] Instance result_ret E : MRet (result E) := fun A => @Ok E A.
#[global] Instance result_bind E : MBind (result E) := fun A B f m =>
  match m with Ok a => f a | Err e => Err e end.
#[global] Instance result_fmap E : FMap (result E) := fun A B f m =>
  match m with Ok a => Ok (f a) | Err e => Err e end.

Definition is_ok {E A} (r : result E A) : bool := match r with Ok _ => true | Err _ => false end.

(** [if b: raise e] *)
Definition raise_if {E} (b : bool) (e : E) : result E unit := if b then Err e else Ok tt.

Lemma result_bind_ok {E A B} (m : result E A) (f : A -> result E B) b :
  (m ≫= f) = Ok b <-> exists a, m = Ok a /\ f a = Ok b.
Proof.
  destruct m as [a|e]; simpl.
  - split; [eauto|]. intros (a' & Ha & ?). by injection Ha as ->.
  - split; [done|]. by intros (? & ? & _).
Qed.

Lemma raise_if_ok {E} b (e : E) u : raise_if b e = Ok u <-> b = false.
Proof. destruct b, u; simpl; split; congruence. Qed.

Lemma bind_unit_ok {E} (m : result E unit) (f : unit -> result E unit) :
  (m ≫= f) = Ok tt <-> m = Ok tt /\ f tt = Ok tt.
Proof. rewrite result_bind_ok. split; [by intros ([] & ? & ?)|eauto]. Qed.

(** [for x in l: f(x)], stopping at the first exception *)
Fixpoint result_iter {E A} (f : A -> result E unit) (l : list A) : result E unit :=
  match l with
  | [] => Ok tt
  | x :: l => f x ≫= fun _ => result_iter f l
  end.

Lemma result_iter_ok {E A} (f : A -> result E unit) l u :
  result_iter f l = Ok u <-> Forall (fun x => f x = Ok tt) l.
Proof.
  destruct u. induction l as [|x l IH]; simpl; [naive_solver|].
  rewrite result_bind_ok, Forall_cons, <- IH.
  split; [intros ([] & ? & ?); done | intros [? ?]; exists tt; done].
Qed.

Fixpoint result_map {E A B} (f : A -> result E B) (l : list A) : result E (list B) :=
  match l with
  | [] => Ok []
  | x :: l => f x ≫= fun y => result_map f l ≫= fun ys => Ok (y :: ys)
  end.

Lemma result_map_ok {E A B} (f : A -> result E B) l l' :
  result_map f l = Ok l' <-> Forall2 (fun x y => f x = Ok y) l l'.
Proof.
  revert l'. induction l as [|x l IH]; intros l'; simpl.
  - split; [intros [= <-]; constructor | inversion 1; done].
  - rewrite result_bind_ok. setoid_rewrite result_bind_ok. setoid_rewrite IH.
    split.
    + intros (y & ? & ys & ? & [= <-]). by constructor.
    + inversion 1; subst. eauto 6.
Qed.

Lemma result_map_elem_r {E A B} (f : A -> result E B) l l' y :
  result_map f l = Ok l' -> y ∈ l' -> exists x, x ∈ l /\ f x = Ok y.
Proof.
  rewrite result_map_ok. induction 1 as [|x z l l' Hx _ IH]; [set_solver|].
  rewrite elem_of_cons. intros [->|Hy]; [exists x; set_solver|].
  destruct (IH Hy) as (x' & ? & ?). exists x'. set_solver.
Qed.

Lemma result_map_elem_l {E A B} (f : A -> result E B) l l' x :
  result_map f l = Ok l' -> x ∈ l -> exists y, y ∈ l' /\ f x = Ok y.
Proof.
  rewrite result_map_ok. induction 1 as [|z y l l' Hz _ IH]; [set_solver|].
  rewrite elem_of_cons. intros [->|Hx]; [exists y; set_solver|].
  destruct (IH Hx) as (y' & ? & ?). exists y'. set_solver.
Qed.

(** ** Stateful computations that may raise; the state survives the exception *)

Definition stm (S E A : Type) : Type := S -> result E A * S.

#[global] Instance stm_ret S E : MRet (stm S E) := fun A a s => (Ok a, s).
#[global] Instance stm_bind S E : MBind (stm S E) := fun A B f m s =>
  match m s with
  | (Ok a, s') => f a s'
  | (Err e, s') => (Err e, s')
  end.

Definition get_st {S E} : stm S E S := fun s => (Ok s, s).
Definition put_st {S E} (s : S) : stm S E unit := fun _ => (Ok tt, s).
Definition modify {S E} (f : S -> S) : stm S E unit := fun s => (Ok tt, f s).
Definition raise {S E A} (e : E) : stm S E A := fun s => (Err e, s).
Definition lift {S E A} (r : result E A) : stm S E A := fun s => (r, s).
(** [try: m except e: h(e)] *)
Definition try_catch {S E A} (m : stm S E A) (h : E -> stm S E A) : stm S E A := fun s =>
  match m s with
  | (Ok a, s') => (Ok a, s')
  | (Err e, s') => h e s'
  end.

Lemma stm_bind_ok {S E A B} (m : stm S E A) (f : A -> stm S E B) s b s' :
  (m ≫= f) s = (Ok b, s') <-> exists a s1, m s = (Ok a, s1) /\ f a s1 = (Ok b, s').
Proof.
  unfold mbind, stm_bind. destruct (m s) as [[a|e] s1].
  - split; [eauto|]. intros (a' & s2 & Ha & ?). by injection Ha as -> ->.
  - split; [done|]. by intros (? & ? & ? & _).
Qed.

Lemma stm_bind_get {S E A} (f : S -> stm S E A) s : (get_st ≫= f) s = f s s.
Proof. done. Qed.

Lemma stm_bind_lift {S E A B} (r : result E A) (f : A -> stm S E B) s :
  (lift r ≫= f) s = match r with Ok a => f a s | Err e => (Err e, s) end.
Proof. by destruct r. Qed.

Lemma lift_ok {S E A} (r : result E A) (s : S) a s' :
  lift r s = (Ok a, s') <-> r = Ok a /\ s' = s.
Proof. unfold lift. split; [by intros [= -> ->] | by intros [-> ->]]. Qed.

(** ** Insertion-ordered dictionaries

    A Python [dict] iterates in insertion order and keeps a key's position when
    its value is overwritten; where the order of iteration is observable the
    model uses [odict], elsewhere [gmap]. *)

Definition odict (K V : Type) : Type := list (K * V).

Section odict.
Context {K V : Type} {EqK : EqDecision K}.
Implicit Types (d : odict K V) (k : K) (v : V).

Fixpoint od_get k d : option V :=
  match d with
  | [] => None
  | (k', v) :: d => if decide (k = k') then Some v else od_get k d
  end.

Fixpoint od_set k v d : odict K V :=
  match d with
  | [] => [(k, v)]
  | (k', v') :: d => if decide (k = k') then (k', v) :: d else (k', v') :: od_set k v d
  end.

Definition od_del k d : odict K V := List.filter (fun kv => bool_decide (k <> fst kv)) d.
Definition od_mem k d : bool := match od_get k d with Some _ => true | None => false end.
Definition od_keys d : list K := map fst d.
Definition od_values d : list V := map snd d.

Lemma od_get_set d k v k' :
  od_get k' (od_set k v d) = if decide (k' = k) then Some v else od_get k' d.
Proof.
  induction d as [|[k1 v1] d IH]; simpl; [done|].
  repeat case_decide; simpl; repeat case_decide; congruence.
Qed.

Lemma od_get_set_eq d k v : od_get k (od_set k v d) = Some v.
Proof. rewrite od_get_set. by case_decide. Qed.

Lemma od_get_set_ne d k v k' : k' <> k -> od_get k' (od_set k v d) = od_get k' d.
Proof. intros ?. rewrite od_get_set. by case_decide. Qed.

Lemma od_get_del d k k' :
  od_get k' (od_del k d) = if decide (k' = k) then None else od_get k' d.
Proof.
  unfold od_del. induction d as [|[k1 v1] d IH]; simpl; [by case_decide|].
  case_bool_decide; simpl; repeat case_decide; congruence.
Qed.

Lemma od_get_filter d k (P : K -> bool) :
  od_get k (List.filter (fun kv => P (fst kv)) d) = if P k then od_get k d else None.
Proof.
  induction d as [|[k1 v1] d IH]; simpl; [by destruct (P k)|].
  destruct (P k1) eqn:E; simpl; repeat case_decide; subst; rewrite ?E in *; congruence.
Qed.

Lemma od_get_elem d k v : od_get k d = Some v -> (k, v) ∈ d.
Proof.
  induction d as [|[k1 v1] d IH]; simpl; [done|].
  case_decide; intros Hg; simplify_eq; set_solver.
Qed.

Lemma od_get_elem_value d k v : od_get k d = Some v -> v ∈ od_values d.
Proof.
  intros H%od_get_elem. unfold od_values. apply (list_elem_of_fmap_2' snd _ _ _ H). done.
Qed.

Lemma od_elem_get d k v : NoDup (od_keys d) -> (k, v) ∈ d -> od_get k d = Some v.
Proof.
  unfold od_keys. induction d as [|[k1 v1] d IH]; simpl; [set_solver|].
  intros [Hk Hnd]%NoDup_cons. rewrite elem_of_cons. intros [?|Hin]; simplify_eq.
  - by case_decide.
  - case_decide as Hc; [subst|by apply IH].
    exfalso. apply Hk. apply list_elem_of_fmap. exists (k1, v). done.
Qed.

Lemma od_keys_set d k v :
  od_keys (od_set k v d) = if decide (k ∈ od_keys d) then od_keys d else od_keys d ++ [k].
Proof.
  unfold od_keys. induction d as [|[k1 v1] d IH]; [done|].
  simpl od_set. simpl (map fst ((k1, v1) :: d)).
  destruct (decide (k = k1)) as [->|Hne]; simpl map.
  - destruct (decide (k1 ∈ k1 :: map fst d)); [done|set_solver].
  - rewrite IH.
    destruct (decide (k ∈ map fst d)), (decide (k ∈ k1 :: map fst d)); set_solver.
Qed.

Lemma od_keys_set_NoDup d k v : NoDup (od_keys d) -> NoDup (od_keys (od_set k v d)).
Proof.
  intros H. rewrite od_keys_set. case_decide; [done|].
  apply NoDup_app. split; [done|]. split; [set_solver|].
  apply NoDup_singleton.
Qed.
End odict.

#[global] Typeclasses Opaque odict.
#[global] Arguments od_del {K V EqK} k d : simpl never.

(** ** Lists *)

(** [next((x for x in l if p(x)), None)] *)
Abbreviation find_first := List.find.

(** [max(l, key=f)]: the first of the elements with the greatest key *)
Fixpoint max_by {A} (key : A -> Z) (best : A) (l : list A) : A :=
  match l with
  | [] => best
  | x :: l => max_by key (if key best <? key x then x else best) l
  end.

Lemma max_by_elem {A} (key : A -> Z) best l : max_by key best l ∈ best :: l.
Proof.
  revert best. induction l as [|x l IH]; intros best; simpl; [set_solver|].
  specialize (IH (if key best <? key x then x else best)).
  destruct (key best <? key x); set_solver.
Qed.

Lemma max_by_ge {A} (key : A -> Z) best l x : x ∈ best :: l -> key x <= key (max_by key best l).
Proof.
  revert best x. induction l as [|y l IH]; intros best x; simpl.
  - rewrite list_elem_of_singleton. intros ->. lia.
  - intros Hx. set (b := if key best <? key y then y else best).
    assert (key best <= key b /\ key y <= key b) as [? ?].
    { subst b. destruct (Z.ltb_spec (key best) (key y)); lia. }
    assert (key b <= key (max_by key b l)) by (apply IH; set_solver).
    apply elem_of_cons in Hx as [->|[->|?]%elem_of_cons]; [lia|lia|].
    apply IH. set_solver.
Qed.

(** [list(dict.fromkeys(l))]: first occurrences, in order *)
Fixpoint dedup_acc {A} `{EqDecision A} (seen l : list A) : list A :=
  match l with
  | [] => []
  | x :: l => if decide (x ∈ seen) then dedup_acc seen l else x :: dedup_acc (x :: seen) l
  end.
Definition dedup {A} `{EqDecision A} (l : list A) : list A := dedup_acc [] l.

Lemma elem_of_dedup_acc {A} `{EqDecision A} (seen l : list A) x :
  x ∈ dedup_acc seen l <-> x ∈ l /\ x ∉ seen.
Proof.
  revert seen. induction l as [|y l IH]; intros seen; simpl; [set_solver|].
  case_decide.
  - rewrite IH. set_solver.
  - rewrite !elem_of_cons, IH. destruct (decide (x = y)); set_solver.
Qed.

Lemma elem_of_dedup {A} `{EqDecision A} (l : list A) x : x ∈ dedup l <-> x ∈ l.
Proof. unfold dedup. rewrite elem_of_dedup_acc. set_solver. Qed.

Lemma NoDup_dedup_acc {A} `{EqDecision A} (seen l : list A) : NoDup (dedup_acc seen l).
Proof.
  revert seen. induction l as [|y l IH]; intros seen; simpl; [constructor|].
  case_decide; [done|]. constructor; [|done]. rewrite elem_of_dedup_acc. set_solver.
Qed.

Lemma NoDup_dedup {A} `{EqDecision A} (l : list A) : NoDup (dedup l).
Proof. apply NoDup_dedup_acc. Qed.

(** [len(set(l)) == len(l)] *)
Definition unique {A} `{EqDecision A} (l : list A) : bool := bool_decide (NoDup l).

Lemma find_first_some {A} (p : A -> bool) l x :
  find_first p l = Some x -> x ∈ l /\ p x = true.
Proof. intros [H1 H2]%List.find_some. by rewrite list_elem_of_In. Qed.

(** The first hit of a stronger test is the first hit of the weaker one, when
    that one passes the stronger test. *)
Lemma find_first_strengthen {A} (p q : A -> bool) l x :
  find_first p l = Some x -> q x = true ->
  find_first (fun y => p y && q y) l = Some x.
Proof.
  induction l as [|y l IH]; simpl; [done|].
  destruct (p y) eqn:E; simpl; [|done]. intros [= <-] ->. done.
Qed.

Definition opt_bool {A} (o : option A) : bool := match o with Some _ => true | None => false end.

(** [sorted(l, key=...)]: a stable sort by a total preorder on the elements *)
Section isort.
Context {A : Type} (leb : A -> A -> bool).

Fixpoint insert_sorted (x : A) (l : list A) : list A :=
  match l with
  | [] => [x]
  | y :: l => if leb x y then x :: y :: l else y :: insert_sorted x l
  end.
Fixpoint isort (l : list A) : list A :=
  match l with [] => [] | x :: l => insert_sorted x (isort l) end.

Lemma insert_sorted_perm x l : insert_sorted x l ≡ₚ x :: l.
Proof.
  induction l as [|y l IH]; simpl; [done|]. destruct (leb x y); [done|].
  rewrite IH. apply perm_swap.
Qed.

Lemma isort_perm l : isort l ≡ₚ l.
Proof. induction l as [|x l IH]; simpl; [done|]. by rewrite insert_sorted_perm, IH. Qed.

Lemma elem_of_isort l x : x ∈ isort l <-> x ∈ l.
Proof. by rewrite isort_perm. Qed.

Context (leb_total : forall x y, leb x y = true \/ leb y x = true).
Context (leb_trans : forall x y z, leb x y = true -> leb y z = true -> leb x z = true).

Lemma insert_sorted_sorted x l :
  StronglySorted (fun a b => leb a b = true) l ->
  StronglySorted (fun a b => leb a b = true) (insert_sorted x l).
Proof.
  induction 1 as [|y l Hl IH Hy]; simpl; [repeat constructor|].
  destruct (leb x y) eqn:E; constructor; try done.
  - by constructor.
  - constructor; [done|]. eapply Forall_impl; [exact Hy|]. simpl. eauto.
  - rewrite insert_sorted_perm. constructor; [|done].
    destruct (leb_total x y); congruence.
Qed.

Lemma isort_sorted l : StronglySorted (fun a b => leb a b = true) (isort l).
Proof. induction l; simpl; [constructor|]. by apply insert_sorted_sorted. Qed.
End isort.

(** [t in s] on strings *)
Definition substring_of (t s : string) : bool :=
  match String.index 0 t s with Some _ => true | None => false end.

(** *** The two halves around the first ["::"] of a string *)

Lemma substring_all t n : (String.length t <= n)%nat -> String.substring 0 n t = t.
Proof.
  revert n. induction t as [|a t IH]; intros n Hn; destruct n; simpl in *; try done; try lia.
  rewrite IH; [done|lia].
Qed.

Lemma string_length_app a b :
  String.length (a +:+ b) = (String.length a + String.length b)%nat.
Proof. induction a as [|x a IH]; simpl; [done|]. by rewrite <- IH. Qed.

Lemma substring_app_l d t : String.substring 0 (String.length d) (d +:+ t) = d.
Proof. induction d as [|a d IH]; simpl; [by destruct t|]. by rewrite IH. Qed.

Lemma substring_app_r d t n m :
  String.substring (String.length d + n) m (d +:+ t) = String.substring n m t.
Proof. induction d as [|a d IH]; simpl; [done|]. apply IH. Qed.

Definition colon_free (s : string) : Prop := ":"%char ∉ String.list_ascii_of_string s.

Lemma prefix_colon a t : a <> ":"%char -> String.prefix "::" (String a t) = false.
Proof. destruct a as [[] [] [] [] [] [] [] []]; intros H; first [done | by destruct H]. Qed.

Lemma index_colons d t : colon_free d -> String.index 0 "::" (d +:+ "::" +:+ t) = Some (String.length d).
Proof.
  unfold colon_free. induction d as [|a d IH]; simpl String.list_ascii_of_string.
  - intros _. destruct t; done.
  - intros [Ha Hd]%not_elem_of_cons. specialize (IH Hd).
    change (String.index 0 "::" (String a (d +:+ "::" +:+ t)) = Some (S (String.length d))).
    unfold String.index; fold String.index. 
    rewrite prefix_colon by done. by rewrite IH.
Qed.

(** *** Order *)

Lemma string_leb_total (a b : string) : String.leb a b = true \/ String.leb b a = true.
Proof. destruct (String.leb_total a b) as [H|H]; auto. Qed.

Lemma string_leb_trans (a b c : string) :
  String.leb a b = true -> String.leb b c = true -> String.leb a c = true.
Proof.
  unfold String.leb. revert b c. induction a as [|x a IH]; intros [|y b] [|z c]; simpl; try done.
  unfold Ascii.compare.
  destruct (N.compare_spec (Ascii.N_of_ascii x) (Ascii.N_of_ascii y)) as [E1|E1|E1];
  destruct (N.compare_spec (Ascii.N_of_ascii y) (Ascii.N_of_ascii z)) as [E2|E2|E2];
  destruct (N.compare_spec (Ascii.N_of_ascii x) (Ascii.N_of_ascii z)) as [E3|E3|E3];
    try done; try lia; apply IH.
Qed.

(** ** Tables whose rows only advance

    A durable table under any sequence of calls: no row disappears and each row
    moves along a preorder. *)

Section evolves.
Context {K V : Type} `{Countable K} (R : V -> V -> Prop) `{!PreOrder R}.
Implicit Types t : gmap K V.

Definition evolves t t' : Prop :=
  forall k v, t !! k = Some v -> exists v', t' !! k = Some v' /\ R v v'.

#[global] Instance evolves_preorder : PreOrder evolves.
Proof using Type*.
  split; [intros t k v ?; by exists v|].
  intros t1 t2 t3 H1 H2 k v (v2 & Hk & Hle)%H1.
  destruct (H2 _ _ Hk) as (v3 & ? & ?). exists v3. split; [done|]. by etransitivity.
Qed.

Lemma evolves_insert t k v v' : t !! k = Some v -> R v v' -> evolves t (<[k := v']> t).
Proof using Type*.
  intros Hk Hle k' v1 H1. destruct (decide (k = k')) as [<-|Hne].
  - exists v'. rewrite lookup_insert_eq. split; [done|]. congruence.
  - exists v1. by rewrite lookup_insert_ne.
Qed.

Lemma evolves_new t k v : t !! k = None -> evolves t (<[k := v]> t).
Proof using Type*. intros Hk k' v1 H1. exists v1. by rewrite lookup_insert_ne by congruence. Qed.

Lemma evolves_is_some t t' k : evolves t t' -> is_Some (t !! k) -> is_Some (t' !! k).
Proof. intros He [v Hk]. destruct (He _ _ Hk) as (v' & -> & _). done. Qed.
End evolves.

(** ** Tactics and hint databases *)

Create HintDb domo.
#[export] Hint Rewrite @od_get_set_eq @od_get_set @od_get_del @result_bind_ok @stm_bind_ok
  @raise_if_ok @lift_ok @result_iter_ok : domo.
#[export] Hint Resolve od_keys_set_NoDup NoDup_dedup max_by_elem max_by_ge : domo.

Ltac destruct_ands :=
  repeat match goal with
  | H : _ /\ _ |- _ => destruct H
  | H : exists _, _ |- _ => destruct H
  | H : (_ && _)%bool = true |- _ => apply andb_true_iff in H
  | H : (_ || _)%bool = false |- _ => apply orb_false_iff in H
  | H : negb _ = true |- _ => apply negb_true_iff in H
  | H : negb _ = false |- _ => apply negb_false_iff in H
  | H : bool_decide _ = true |- _ => apply bool_decide_eq_true in H
  | H : bool_decide _ = false |- _ => apply bool_decide_eq_false in H
  | u : unit |- _ => destruct u
  end.

(** Run the steps of a state in the goal as far as they go. *)
Ltac run_stm :=
  unfold mbind, stm_bind, get_st, put_st, modify, raise, lift, mret, stm_ret; cbn beta iota.

(** Invert a chain of monadic steps that ended in [Ok]. *)
Ltac ok_inv :=
  repeat match goal with
  | H : @mbind (result _) _ _ _ _ _ = Ok _ |- _ => apply result_bind_ok in H
  | H : @mbind (stm _ _) _ _ _ _ _ _ = (Ok _, _) |- _ => apply stm_bind_ok in H
  | H : raise_if _ _ = Ok _ |- _ => apply raise_if_ok in H
  | H : lift _ _ = (Ok _, _) |- _ => apply lift_ok in H
  | H : get_st _ = (Ok _, _) |- _ => unfold get_st in H; injection H as ? ?
  | H : put_st _ _ = (Ok _, _) |- _ => unfold put_st in H; injection H as ? ?
  | H : modify _ _ = (Ok _, _) |- _ => unfold modify in H; injection H as ? ?
  | H : @mret (stm _ _) _ _ _ _ = (Ok _, _) |- _ =>
      unfold mret, stm_ret in H; injection H as ? ?
  | H : mret _ = Ok _ |- _ => injection H as ?
  | H : Ok _ = Ok _ |- _ => injection H as ?
  | H : Err _ = Ok _ |- _ => discriminate H
  | H : raise _ _ = (Ok _, _) |- _ => discriminate H
  | H : _ /\ _ |- _ => destruct H
  | H : exists _, _ |- _ => destruct H
  | H : unit |- _ => destruct H
  end.
