(* ===== verification/Values.v ===== *)
(** * Python values of the runtime: numbers, scalars, JSON

    [ScalarValue = bool | int | float | str] of domain/models.py with Python's
    own comparison rules: an [int] is unbounded, a [float] is an IEEE binary64
    value ([spec_float]), the two compare by their exact mathematical value, and
    a [bool] is the integer 0 or 1.  Float arithmetic is the correctly rounded
    arithmetic of the Standard Library's [SpecFloat]. *)

From Stdlib Require Import SpecFloat.
From S2P Require Import Prelude.

(** ** binary64 *)

Abbreviation f64 := spec_float.
Definition prec : Z := 53.
Definition emax : Z := 1024.

#[global] Instance f64_eq_dec : EqDecision f64.
Proof. solve_decision. Defined.

Definition f64_add : f64 -> f64 -> f64 := SFadd prec emax.
Definition f64_sub : f64 -> f64 -> f64 := SFsub prec emax.
Definition f64_mul : f64 -> f64 -> f64 := SFmul prec emax.
Definition f64_div : f64 -> f64 -> f64 := SFdiv prec emax.
Definition f64_abs : f64 -> f64 := SFabs.
Definition f64_isfinite (x : f64) : bool :=
  match x with S754_zero _ | S754_finite _ _ _ => true | _ => false end.
Definition f64_of_Z (z : Z) : f64 := binary_normalize prec emax z 0 false.

(** ** int | float *)

Inductive num : Type :=
  | NInt (z : Z)
  | NFloat (f : f64).

#[global] Instance num_eq_dec : EqDecision num.
Proof. solve_decision. Defined.

(** The mathematical value of a number, as [m * 2 ^ e]. *)
Inductive ext : Type := ENan | ENegInf | EPosInf | EDyadic (m e : Z).

Definition ext_of (n : num) : ext :=
  match n with
  | NInt z => EDyadic z 0
  | NFloat (S754_zero _) => EDyadic 0 0
  | NFloat (S754_infinity s) => if s then ENegInf else EPosInf
  | NFloat S754_nan => ENan
  | NFloat (S754_finite s m e) => EDyadic (if s then Zneg m else Zpos m) e
  end.

Definition dyadic_compare (m1 e1 m2 e2 : Z) : comparison :=
  let e := Z.min e1 e2 in
  Z.compare (m1 * 2 ^ (e1 - e)) (m2 * 2 ^ (e2 - e)).

(** [None] when one side is a NaN: every ordering test is then false. *)
Definition num_compare (a b : num) : option comparison :=
  match ext_of a, ext_of b with
  | ENan, _ | _, ENan => None
  | ENegInf, ENegInf | EPosInf, EPosInf => Some Eq
  | ENegInf, _ | _, EPosInf => Some Lt
  | EPosInf, _ | _, ENegInf => Some Gt
  | EDyadic m1 e1, EDyadic m2 e2 => Some (dyadic_compare m1 e1 m2 e2)
  end.

Definition num_lt (a b : num) : bool :=
  match num_compare a b with Some Lt => true | _ => false end.
Definition num_gt (a b : num) : bool := num_lt b a.
Definition num_le (a b : num) : bool :=
  match num_compare a b with Some Lt | Some Eq => true | _ => false end.
Definition num_eq (a b : num) : bool :=
  match num_compare a b with Some Eq => true | _ => false end.

(** [max(a, b)] and [min(a, b)]: the first argument wins unless the second one
    compares strictly beyond it. *)
Definition num_max (a b : num) : num := if num_gt b a then b else a.
Definition num_min (a b : num) : num := if num_lt b a then b else a.

(** [float(x)]: [None] is the [OverflowError] of an [int] too large. *)
Definition to_float (n : num) : option f64 :=
  match n with
  | NFloat f => Some f
  | NInt z => let f := f64_of_Z z in if f64_isfinite f then Some f else None
  end.

(** [math.isfinite(float(x))], for an [x] that converts *)
Definition num_isfinite (n : num) : bool :=
  match to_float n with Some f => f64_isfinite f | None => false end.

(** [round(x)] of a finite float: the nearest integer, ties to even. *)
Definition f64_round (x : f64) : Z :=
  match x with
  | S754_finite s m e =>
      let v := if s then Zneg m else Zpos m in
      if 0 <=? e then v * 2 ^ e
      else
        let d := 2 ^ (- e) in
        let q := v / d in
        let r := v mod d in
        match Z.compare (2 * r) d with
        | Lt => q
        | Gt => q + 1
        | Eq => if Z.even q then q else q + 1
        end
  | _ => 0
  end.

(** [math.isclose(a, b, rel_tol=0.0, abs_tol=tol)] *)
Definition isclose_abs (a b tol : f64) : bool :=
  if num_eq (NFloat a) (NFloat b) then true
  else if negb (f64_isfinite a && f64_isfinite b) then false
  else
    let diff := f64_abs (f64_sub b a) in
    num_le (NFloat diff) (NFloat (f64_abs (f64_mul (S754_zero false) b)))
    || num_le (NFloat diff) (NFloat (f64_abs (f64_mul (S754_zero false) a)))
    || num_le (NFloat diff) (NFloat tol).

(** The double [1e-9]. *)
Definition f64_1e_9 : f64 := S754_finite false 4835703278458517 (-82).

(** *** Order lemmas *)

Lemma dyadic_compare_common m1 e1 m2 e2 e :
  e <= e1 -> e <= e2 ->
  dyadic_compare m1 e1 m2 e2 = Z.compare (m1 * 2 ^ (e1 - e)) (m2 * 2 ^ (e2 - e)).
Proof.
  intros H1 H2. unfold dyadic_compare. set (k := Z.min e1 e2).
  assert (Hk : e <= k /\ k <= e1 /\ k <= e2) by lia. clearbody k.
  assert (Hp : 0 < 2 ^ (k - e)) by (apply Z.pow_pos_nonneg; lia).
  replace (e1 - e) with ((e1 - k) + (k - e)) by lia.
  replace (e2 - e) with ((e2 - k) + (k - e)) by lia.
  rewrite !Z.pow_add_r by lia. rewrite !Z.mul_assoc.
  by rewrite <- Zmult_compare_compat_r by lia.
Qed.

Lemma dyadic_lt_trans m1 e1 m2 e2 m3 e3 :
  dyadic_compare m1 e1 m2 e2 = Lt -> dyadic_compare m2 e2 m3 e3 = Lt ->
  dyadic_compare m1 e1 m3 e3 = Lt.
Proof.
  set (e := Z.min e1 (Z.min e2 e3)).
  rewrite !(dyadic_compare_common _ _ _ _ e) by lia. rewrite !Z.compare_lt_iff. lia.
Qed.

Lemma num_lt_trans a b c : num_lt a b = true -> num_lt b c = true -> num_lt a c = true.
Proof.
  unfold num_lt, num_compare.
  destruct (ext_of a) as [| | |m1 e1], (ext_of b) as [| | |m2 e2], (ext_of c) as [| | |m3 e3];
    try done.
  destruct (dyadic_compare m1 e1 m2 e2) eqn:E1; try done.
  destruct (dyadic_compare m2 e2 m3 e3) eqn:E2; try done.
  by rewrite (dyadic_lt_trans _ _ _ _ _ _ E1 E2).
Qed.

Lemma num_lt_int a b : num_lt (NInt a) (NInt b) = (a <? b).
Proof.
  unfold num_lt, num_compare, dyadic_compare. simpl. rewrite !Z.mul_1_r.
  unfold Z.ltb. by destruct (a ?= b).
Qed.

Lemma num_lt_irrefl a : num_lt a a = false.
Proof.
  unfold num_lt, num_compare. destruct (ext_of a) as [| | |m e]; try done.
  unfold dyadic_compare. by rewrite Z.compare_refl.
Qed.

(** A value not below [max(d, c)] is not below [d]. *)
Lemma num_max_stricter d c v : num_lt v (num_max d c) = false -> num_lt v d = false.
Proof.
  unfold num_max, num_gt. destruct (num_lt d c) eqn:E; [|done].
  intros Hc. destruct (num_lt v d) eqn:Hd; [|done].
  by rewrite (num_lt_trans _ _ _ Hd E) in Hc.
Qed.

Lemma num_min_stricter d c v : num_gt v (num_min d c) = false -> num_gt v d = false.
Proof.
  unfold num_min, num_gt. destruct (num_lt c d) eqn:E; [|done].
  intros Hc. destruct (num_lt d v) eqn:Hd; [|done].
  by rewrite (num_lt_trans _ _ _ E Hd) in Hc.
Qed.

(** ** ScalarValue *)

Inductive scalar : Type :=
  | SBool (b : bool)
  | SNum (n : num)
  | SStr (s : string).

#[global] Instance scalar_eq_dec : EqDecision scalar.
Proof. solve_decision. Defined.

(** [isinstance(v, (int, float)) and not isinstance(v, bool)] *)
Definition numeric (v : scalar) : option num := match v with SNum n => Some n | _ => None end.

(** [isinstance(v, (int, float))]: a [bool] is an [int]. *)
Definition as_number (v : scalar) : option num :=
  match v with SNum n => Some n | SBool b => Some (NInt (if b then 1 else 0)) | SStr _ => None end.

(** [a == b] *)
Definition scalar_eqb (a b : scalar) : bool :=
  match a, b with
  | SStr s, SStr t => String.eqb s t
  | _, _ => match as_number a, as_number b with
            | Some x, Some y => num_eq x y
            | _, _ => false
            end
  end.

Definition opt_scalar_eqb (a b : option scalar) : bool :=
  match a, b with
  | Some x, Some y => scalar_eqb x y
  | None, None => true
  | _, _ => false
  end.

(** Not a NaN (the pydantic models only admit finite floats). *)
Definition scalar_finite (v : scalar) : bool :=
  match v with SNum (NFloat f) => f64_isfinite f | _ => true end.

Lemma num_eq_refl n : ext_of n <> ENan -> num_eq n n = true.
Proof.
  unfold num_eq, num_compare. destruct (ext_of n) as [| | |m e]; try done.
  intros _. unfold dyadic_compare. by rewrite Z.compare_refl.
Qed.

Lemma scalar_eqb_refl v : scalar_finite v = true -> scalar_eqb v v = true.
Proof.
  destruct v as [b|[z|f]|s]; simpl; intros Hf.
  - by destruct b.
  - by apply num_eq_refl.
  - apply num_eq_refl. by destruct f.
  - apply String.eqb_refl.
Qed.

Lemma dyadic_eq_trans m1 e1 m2 e2 m3 e3 :
  dyadic_compare m1 e1 m2 e2 = Eq -> dyadic_compare m2 e2 m3 e3 = Eq ->
  dyadic_compare m1 e1 m3 e3 = Eq.
Proof.
  set (e := Z.min e1 (Z.min e2 e3)).
  rewrite !(dyadic_compare_common _ _ _ _ e) by lia. rewrite !Z.compare_eq_iff. lia.
Qed.

Lemma num_eq_trans a b c : num_eq a b = true -> num_eq b c = true -> num_eq a c = true.
Proof.
  unfold num_eq, num_compare.
  destruct (ext_of a) as [| | |m1 e1], (ext_of b) as [| | |m2 e2], (ext_of c) as [| | |m3 e3];
    try done.
  destruct (dyadic_compare m1 e1 m2 e2) eqn:E1; try done.
  destruct (dyadic_compare m2 e2 m3 e3) eqn:E2; try done.
  by rewrite (dyadic_eq_trans _ _ _ _ _ _ E1 E2).
Qed.

Lemma scalar_eqb_trans a b c :
  scalar_eqb a b = true -> scalar_eqb b c = true -> scalar_eqb a c = true.
Proof.
  destruct a as [?|?|?], b as [?|?|?], c as [?|?|?]; simpl; try done; try apply num_eq_trans.
  intros ->%String.eqb_eq ->%String.eqb_eq. apply String.eqb_refl.
Qed.

Lemma opt_scalar_eqb_trans a b c :
  opt_scalar_eqb a b = true -> opt_scalar_eqb b c = true -> opt_scalar_eqb a c = true.
Proof. destruct a, b, c; simpl; try done. apply scalar_eqb_trans. Qed.

(** ** JSON-like [Any] values *)

Inductive json : Type :=
  | JNull
  | JBool (b : bool)
  | JNum (n : num)
  | JStr (s : string)
  | JList (l : list json)
  | JObj (l : list (string * json)).

#[global] Instance json_eq_dec : EqDecision json.
Proof.
  refine (fix go (x y : json) : Decision (x = y) :=
    match x, y with
    | JNull, JNull => left eq_refl
    | JBool a, JBool b => cast_if (decide (a = b))
    | JNum a, JNum b => cast_if (decide (a = b))
    | JStr a, JStr b => cast_if (decide (a = b))
    | JList a, JList b => cast_if (@list_eq_dec json go a b)
    | JObj a, JObj b =>
        cast_if (@list_eq_dec (string * json) (@prod_eq_dec string _ json go) a b)
    | _, _ => right _
    end); abstract congruence.
Defined.

Definition json_of_scalar (v : scalar) : json :=
  match v with SBool b => JBool b | SNum n => JNum n | SStr s => JStr s end.
Definition json_of_opt {A} (f : A -> json) (o : option A) : json :=
  match o with Some x => f x | None => JNull end.

(** [a == expected] for a scalar or [None] on the left *)
Definition scalar_json_eqb (a : option scalar) (e : json) : bool :=
  match a, e with
  | None, JNull => true
  | Some x, JBool b => scalar_eqb x (SBool b)
  | Some x, JNum n => scalar_eqb x (SNum n)
  | Some x, JStr s => scalar_eqb x (SStr s)
  | _, _ => false
  end.

(** ** f-strings

    A message is kept as the f-string's parts: [Lit] text and the interpolated
    values, before Python formats them. *)
Inductive fpart : Type := Lit (s : string) | Val (v : json).
Definition message : Type := list fpart.
Definition msg (s : string) : message := [Lit s].

#[global] Instance fpart_eq_dec : EqDecision fpart.
Proof. solve_decision. Defined.
