(* ===== verification/Models.v ===== *)
(** * Canonical data model (domain/models.py, domain/errors.py, domain/transitions.py)

    The pydantic models the runtime core passes around, their validators, and
    the plan and availability state machines.  A [datetime] is a timezone-aware
    instant counted in microseconds, so the validators' rejection of naive
    datetimes holds by typing; everything else a validator tests is a
    [validate_*] function that raises the source's [ValueError]. *)

From S2P Require Import Prelude.
From S2P Require Import Values.

Abbreviation datetime := Z.
Abbreviation timedelta := Z.
Definition seconds (n : Z) : timedelta := n * 1000000.
Definition minutes (n : Z) : timedelta := seconds (60 * n).
Definition hours (n : Z) : timedelta := minutes (60 * n).

(** ** Errors *)

Inductive ErrorCode : Type :=
  | INVALID_TRANSITION | INVALID_CAPABILITY | DEVICE_NOT_FOUND | UNSUPPORTED_COMMAND
  | VALUE_OUT_OF_RANGE | DUPLICATE_COMMAND | STALE_PLAN | APPROVAL_REQUIRED
  | APPROVAL_ASSERTION_REQUIRED | APPROVAL_ASSERTION_INVALID | APPROVAL_ASSERTION_REPLAYED
  | APPROVAL_ASSERTION_EXPIRED | OPERATOR_AUTHENTICATION_FAILED | POLICY_DENIED
  | CONFIRMATION_REQUIRED | ADAPTER_UNAVAILABLE | ROUTE_AMBIGUOUS | ROUTE_NOT_FOUND
  | SOURCE_UNAVAILABLE | DELIVERY_FENCE_UNAVAILABLE | EXECUTION_FAILED | VALIDATION_ERROR
  | PRECONDITION_FAILED | NOT_YET_DUE | SAFETY_LIMIT_EXCEEDED
  | POST_WRITE_RECONCILIATION_FAILED | PLAN_IDENTITY_CONFLICT
  | RESCHEDULE_REQUIRES_REVALIDATION | BUNDLE_MEMBER_RESCHEDULE_FORBIDDEN
  | BUNDLE_MEMBER_EXECUTION_FORBIDDEN | BUNDLE_MEMBER_CANCEL_FORBIDDEN
  | SCHEDULE_EVIDENCE_MISMATCH | INVALID_COMMAND_VALUE | CONTROL_TAKEOVER_FAILED
  | ACTUATOR_AUTHORIZATION_REQUIRED | INSUFFICIENT_SCOPE | AGGREGATE_CAPABILITY_INVALID
  | FENCING_VIOLATION | PREFERENCE_CONFLICT | IDEMPOTENCY_CONFLICT | RESOLUTION_REQUIRED
  | HISTORY_UNAVAILABLE | UNSUPPORTED_BINDING | INVALID_PREFERENCE | STALE_CURSOR
  | CONSENT_REVOKED | CONSENT_CONFLICT | HUMAN_CONFIRMATION_UNAVAILABLE.

#[global] Instance ErrorCode_eq_dec : EqDecision ErrorCode.
Proof. solve_decision. Defined.

Record ErrorDetail := mkErrorDetail {
  er_code : ErrorCode;
  er_message : message;
  er_field : option string;
  er_device_id : option string;
  er_capability : option string;
  er_retryable : bool;
  er_details : list (string * json)
}.

#[global] Instance ErrorDetail_eta : Eta ErrorDetail := fun r =>
  mkErrorDetail (er_code r) (er_message r) (er_field r) (er_device_id r) (er_capability r)
    (er_retryable r) (er_details r).
#[global] Instance ErrorDetail_eq_dec : EqDecision ErrorDetail.
Proof. solve_decision. Defined.

(** The exceptions the modelled code raises. *)
Inductive exn : Type :=
  | DomainError (d : ErrorDetail)
  | ValueError (m : string)
  | TypeError
  | KeyError
  | OverflowError
  | ZeroDivisionError
  | AssertionError
  | LeaseUnavailable (owner : string)
  | FencingViolation (reason : string)
  | PersistenceError
  | IndexError
  | RuntimeError (m : string)
  | IntegrityError  (* of the database: a key is there already *)
  | CancelledError
  | OSError (m : string)  (* ConnectionError and TimeoutError are OSErrors *)
  | QueueClosed
  | QueueOverloaded
  | ReadbackPersistenceError
  | ControlLeaseExpired
  | PhysicalIntentUnknown
  | PhysicalIntentConflict
  | OutOfFuel.  (* not the program's: a bounded loop of the model was cut off *)

#[global] Instance exn_eq_dec : EqDecision exn.
Proof. solve_decision. Defined.

(** [float(x)] *)
Definition py_float (n : num) : result exn f64 :=
  match to_float n with Some f => Ok f | None => Err OverflowError end.

Lemma py_float_ok n f : py_float n = Ok f <-> to_float n = Some f.
Proof. unfold py_float. destruct (to_float n); split; congruence. Qed.

Definition error_detail (c : ErrorCode) (m : message) : ErrorDetail :=
  mkErrorDetail c m None None None false [].
Definition domain_error (c : ErrorCode) (m : string) : exn := DomainError (error_detail c (msg m)).
Definition exn_code (e : exn) : option ErrorCode :=
  match e with DomainError d => Some (er_code d) | _ => None end.

(** ** Enumerations *)

Inductive AvailabilityMode := MODE_LOCAL | MODE_REMOTE.
Inductive CommissioningRequirement := NOT_REQUIRED | RECOMMENDED | REQUIRED.
Inductive PrincipalRole := ROLE_VIEWER | ROLE_PLANNER | ROLE_OPERATOR | ROLE_OWNER | ROLE_SERVICE.
Inductive DeviceType :=
  | LIGHT | SWITCH | COVER | CLIMATE | SENSOR | ENERGY | EV_CHARGER | UNSUPPORTED.
Inductive AvailabilityStatus := AV_UNKNOWN | AV_AVAILABLE | AV_STALE | AV_UNAVAILABLE.
Inductive StateStatus := CURRENT | STALE | UNAVAILABLE | INVALID.
Inductive SourceOrderingPolicy := ORDERED | UNORDERED.
Inductive CapabilityKind := BOOLEAN | INTEGER | NUMBER | ENUM | TEXT | TIMESTAMP.
Inductive RiskClass := SAFE | CONFIRM | RESTRICTED.
Inductive PolicyAction := PA_ALLOW | PA_DENY | PA_CONFIRM.
Inductive PlanStatus :=
  | PS_DRAFT | PS_VALIDATED | PS_REQUIRES_CONFIRMATION | PS_READY | PS_APPROVED | PS_EXECUTING
  | PS_COMPLETED | PS_PARTIALLY_FAILED | PS_FAILED | PS_CANCELLED | PS_UNKNOWN.
Inductive ValidationStatus := VS_VALID | VS_INVALID | VS_STALE | VS_REQUIRES_CONFIRMATION.
Inductive DependencyKind := ASSUMPTION | PRECONDITION | PREDECESSOR_OUTCOME.
Inductive ExecutionStatus :=
  | ES_ACCEPTED | ES_REJECTED | ES_UNAVAILABLE | ES_FAILED | ES_CANCELLED
  | ES_CONFIRMED_SUCCESS | ES_UNKNOWN.
Inductive BundleCommitStatus :=
  | BC_COMMITTING | BC_COMPLETED | BC_SCHEDULED | BC_PARTIALLY_COMMITTED | BC_FAILED
  | BC_UNKNOWN | BC_MISSED.
Inductive BundleMemberCommitStatus :=
  | BM_PENDING | BM_EXECUTED | BM_SCHEDULED | BM_FAILED | BM_UNKNOWN | BM_MISSED
  | BM_DEPENDENCY_FAILED.
Inductive Verification := VERIFY_EQUALS | VERIFY_TOGGLE_TRANSITION | VERIFY_MOTION_STOPPED
  | VERIFY_UNCONFIRMED.

#[global] Instance AvailabilityMode_eq_dec : EqDecision AvailabilityMode.
Proof. solve_decision. Defined.
#[global] Instance CommissioningRequirement_eq_dec : EqDecision CommissioningRequirement.
Proof. solve_decision. Defined.
#[global] Instance PrincipalRole_eq_dec : EqDecision PrincipalRole.
Proof. solve_decision. Defined.
#[global] Instance DeviceType_eq_dec : EqDecision DeviceType.
Proof. solve_decision. Defined.
#[global] Instance AvailabilityStatus_eq_dec : EqDecision AvailabilityStatus.
Proof. solve_decision. Defined.
#[global] Instance StateStatus_eq_dec : EqDecision StateStatus.
Proof. solve_decision. Defined.
#[global] Instance SourceOrderingPolicy_eq_dec : EqDecision SourceOrderingPolicy.
Proof. solve_decision. Defined.
#[global] Instance CapabilityKind_eq_dec : EqDecision CapabilityKind.
Proof. solve_decision. Defined.
#[global] Instance RiskClass_eq_dec : EqDecision RiskClass.
Proof. solve_decision. Defined.
#[global] Instance PolicyAction_eq_dec : EqDecision PolicyAction.
Proof. solve_decision. Defined.
#[global] Instance PlanStatus_eq_dec : EqDecision PlanStatus.
Proof. solve_decision. Defined.
#[global] Instance ValidationStatus_eq_dec : EqDecision ValidationStatus.
Proof. solve_decision. Defined.
#[global] Instance DependencyKind_eq_dec : EqDecision DependencyKind.
Proof. solve_decision. Defined.
#[global] Instance ExecutionStatus_eq_dec : EqDecision ExecutionStatus.
Proof. solve_decision. Defined.
#[global] Instance BundleCommitStatus_eq_dec : EqDecision BundleCommitStatus.
Proof. solve_decision. Defined.
#[global] Instance BundleMemberCommitStatus_eq_dec : EqDecision BundleMemberCommitStatus.
Proof. solve_decision. Defined.
#[global] Instance Verification_eq_dec : EqDecision Verification.
Proof. solve_decision. Defined.

(** The [StrEnum] values that reach a digest, a policy context or an error. *)
Definition DeviceType_value (t : DeviceType) : string :=
  match t with
  | LIGHT => "light" | SWITCH => "switch" | COVER => "cover" | CLIMATE => "climate"
  | SENSOR => "sensor" | ENERGY => "energy" | EV_CHARGER => "ev_charger"
  | UNSUPPORTED => "unsupported"
  end.
Definition AvailabilityStatus_value (s : AvailabilityStatus) : string :=
  match s with
  | AV_UNKNOWN => "unknown" | AV_AVAILABLE => "available" | AV_STALE => "stale"
  | AV_UNAVAILABLE => "unavailable"
  end.
Definition StateStatus_value (s : StateStatus) : string :=
  match s with
  | CURRENT => "current" | STALE => "stale" | UNAVAILABLE => "unavailable" | INVALID => "invalid"
  end.
Definition CapabilityKind_value (k : CapabilityKind) : string :=
  match k with
  | BOOLEAN => "boolean" | INTEGER => "integer" | NUMBER => "number" | ENUM => "enum"
  | TEXT => "text" | TIMESTAMP => "timestamp"
  end.
Definition RiskClass_value (r : RiskClass) : string :=
  match r with SAFE => "safe" | CONFIRM => "confirm" | RESTRICTED => "restricted" end.
Definition PolicyAction_value (a : PolicyAction) : string :=
  match a with PA_ALLOW => "allow" | PA_DENY => "deny" | PA_CONFIRM => "confirm" end.
Definition PlanStatus_value (s : PlanStatus) : string :=
  match s with
  | PS_DRAFT => "draft" | PS_VALIDATED => "validated"
  | PS_REQUIRES_CONFIRMATION => "requires_confirmation" | PS_READY => "ready"
  | PS_APPROVED => "approved" | PS_EXECUTING => "executing" | PS_COMPLETED => "completed"
  | PS_PARTIALLY_FAILED => "partially_failed" | PS_FAILED => "failed"
  | PS_CANCELLED => "cancelled" | PS_UNKNOWN => "unknown"
  end.
Definition DependencyKind_value (k : DependencyKind) : string :=
  match k with
  | ASSUMPTION => "assumption" | PRECONDITION => "precondition"
  | PREDECESSOR_OUTCOME => "predecessor_outcome"
  end.
Definition Verification_value (v : Verification) : string :=
  match v with
  | VERIFY_EQUALS => "equals" | VERIFY_TOGGLE_TRANSITION => "toggle_transition"
  | VERIFY_MOTION_STOPPED => "motion_stopped" | VERIFY_UNCONFIRMED => "unconfirmed"
  end.
Definition AvailabilityMode_value (m : AvailabilityMode) : string :=
  match m with MODE_LOCAL => "local" | MODE_REMOTE => "remote" end.
Definition CommissioningRequirement_value (r : CommissioningRequirement) : string :=
  match r with
  | NOT_REQUIRED => "not_required" | RECOMMENDED => "recommended" | REQUIRED => "required"
  end.
Definition PrincipalRole_value (r : PrincipalRole) : string :=
  match r with
  | ROLE_VIEWER => "viewer" | ROLE_PLANNER => "planner" | ROLE_OPERATOR => "operator"
  | ROLE_OWNER => "owner" | ROLE_SERVICE => "service"
  end.

(** ** Text *)

(** [str.strip()] leaves nothing (the ASCII white space of [str.isspace]). *)
Definition is_space (c : ascii) : bool :=
  let n := Ascii.nat_of_ascii c in
  bool_decide (n = 32%nat) || (Nat.leb 9 n && Nat.leb n 13) || (Nat.leb 28 n && Nat.leb n 31).
Definition is_blank (s : string) : bool := forallb is_space (String.list_ascii_of_string s).
Definition is_empty (s : string) : bool := String.eqb s "".

(** [^[a-z0-9][a-z0-9_.-]*$] *)
Definition is_lower_alnum (c : ascii) : bool :=
  let n := Ascii.nat_of_ascii c in
  (Nat.leb 97 n && Nat.leb n 122) || (Nat.leb 48 n && Nat.leb n 57).
Definition is_id_char (c : ascii) : bool :=
  is_lower_alnum c || Ascii.eqb c "_" || Ascii.eqb c "." || Ascii.eqb c "-".
Definition canonical_id_pattern (s : string) : bool :=
  match String.list_ascii_of_string s with
  | [] => false
  | c :: l => is_lower_alnum c && forallb is_id_char l
  end.

(** ** Records *)

Record CapabilityGuarantees := mkCapabilityGuarantees {
  g_resolution : option num;
  g_tolerance : option num;
  g_expected_latency_ms : option Z;
  g_readback_required : bool;
  g_reversible : bool;
  g_confirmation_required : bool;
  g_availability_modes : list AvailabilityMode;
  g_commissioning_required : CommissioningRequirement
}.
#[global] Instance CapabilityGuarantees_eq_dec : EqDecision CapabilityGuarantees.
Proof. solve_decision. Defined.
Definition default_guarantees : CapabilityGuarantees :=
  mkCapabilityGuarantees None None None false true false [MODE_LOCAL] NOT_REQUIRED.

Record AuthorityContext := mkAuthorityContext {
  au_tenant_id : string;
  au_household_id : string;
  au_household_ids : list string;
  au_principal_id : string;
  au_roles : list PrincipalRole;
  au_area_ids : list string;
  au_device_ids : list string;
  au_capabilities : list string;
  au_operations : list string
}.
#[global] Instance AuthorityContext_eta : Eta AuthorityContext := fun r =>
  mkAuthorityContext (au_tenant_id r) (au_household_id r) (au_household_ids r) (au_principal_id r) (au_roles r)
    (au_area_ids r) (au_device_ids r) (au_capabilities r) (au_operations r).
#[global] Instance AuthorityContext_eq_dec : EqDecision AuthorityContext.
Proof. solve_decision. Defined.
Definition default_authority : AuthorityContext :=
  mkAuthorityContext "default" "default" ["default"] "system" [ROLE_SERVICE] [] [] [] [].

Record SourceCursor := mkSourceCursor {
  cu_source_id : string;
  cu_stream_id : string;
  cu_epoch : string;
  cu_sequence : Z;
  cu_resync : bool
}.
#[global] Instance SourceCursor_eq_dec : EqDecision SourceCursor.
Proof. solve_decision. Defined.

Record SourceRef := mkSourceRef {
  sr_adapter_id : string;
  sr_external_id : string;
  sr_source_device_id : option string;
  sr_external_type : option string;
  sr_metadata_digest : option string
}.
#[global] Instance SourceRef_eq_dec : EqDecision SourceRef.
Proof. solve_decision. Defined.

Record Capability := mkCapability {
  cap_name : string;
  cap_kind : CapabilityKind;
  cap_unit : option string;
  cap_readable : bool;
  cap_writable : bool;
  cap_minimum : option num;
  cap_maximum : option num;
  cap_enum_values : list string;
  cap_commands : list string;
  cap_constraints : list (string * json);
  cap_guarantees : CapabilityGuarantees
}.
#[global] Instance Capability_eta : Eta Capability := fun r =>
  mkCapability (cap_name r) (cap_kind r) (cap_unit r) (cap_readable r) (cap_writable r)
    (cap_minimum r) (cap_maximum r) (cap_enum_values r) (cap_commands r) (cap_constraints r)
    (cap_guarantees r).
#[global] Instance Capability_eq_dec : EqDecision Capability.
Proof. solve_decision. Defined.

Record Device := mkDevice {
  dev_id : string;
  dev_schema_version : string;
  dev_type : DeviceType;
  dev_name : string;
  dev_area_id : option string;
  dev_manufacturer : option string;
  dev_model : option string;
  dev_protocol : string;
  dev_capabilities : list Capability;
  dev_availability : AvailabilityStatus;
  dev_source_refs : list SourceRef;
  dev_identity_keys : list string;
  dev_connections : list string;
  dev_last_seen_at : option datetime
}.
#[global] Instance Device_eta : Eta Device := fun r =>
  mkDevice (dev_id r) (dev_schema_version r) (dev_type r) (dev_name r) (dev_area_id r)
    (dev_manufacturer r) (dev_model r) (dev_protocol r) (dev_capabilities r)
    (dev_availability r) (dev_source_refs r) (dev_identity_keys r) (dev_connections r)
    (dev_last_seen_at r).
#[global] Instance Device_eq_dec : EqDecision Device.
Proof. solve_decision. Defined.

Record StateSnapshot := mkStateSnapshot {
  ss_authority : AuthorityContext;
  ss_device_id : string;
  ss_capability : string;
  ss_value : option scalar;
  ss_unit : option string;
  ss_observed_at : datetime;
  ss_received_at : datetime;
  ss_status : StateStatus;
  ss_source_ref : SourceRef;
  ss_source_cursor : option SourceCursor
}.
#[global] Instance StateSnapshot_eta : Eta StateSnapshot := fun r =>
  mkStateSnapshot (ss_authority r) (ss_device_id r) (ss_capability r) (ss_value r) (ss_unit r)
    (ss_observed_at r) (ss_received_at r) (ss_status r) (ss_source_ref r) (ss_source_cursor r).
#[global] Instance StateSnapshot_eq_dec : EqDecision StateSnapshot.
Proof. solve_decision. Defined.

Record ExecutionWindow := mkExecutionWindow {
  ew_intended_at : datetime;
  ew_not_before : datetime;
  ew_not_after : datetime;
  ew_timezone : string;
  ew_revision : Z
}.
#[global] Instance ExecutionWindow_eq_dec : EqDecision ExecutionWindow.
Proof. solve_decision. Defined.

Record Precondition := mkPrecondition {
  pre_device_id : string;
  pre_capability : string;
  pre_expected : option scalar;
  pre_allow_stale : bool
}.
#[global] Instance Precondition_eq_dec : EqDecision Precondition.
Proof. solve_decision. Defined.

Record SafetyLimit := mkSafetyLimit {
  sl_device_type : DeviceType;
  sl_capability : string;
  sl_minimum : option num;
  sl_maximum : option num
}.

Record CommandPostcondition := mkCommandPostcondition {
  post_capability : string;
  post_expected : option scalar;
  post_verification : Verification;
  post_tolerance : option f64;
  post_settle_timeout_seconds : option f64;
  post_poll_interval_seconds : f64;
  post_reconcile_capabilities : list string
}.
#[global] Instance CommandPostcondition_eq_dec : EqDecision CommandPostcondition.
Proof. solve_decision. Defined.

Record Command := mkCommand {
  cmd_id : string;
  cmd_device_id : string;
  cmd_command : string;
  cmd_value : option scalar;
  cmd_unit : option string;
  cmd_preconditions : list Precondition;
  cmd_risk_class : RiskClass;
  cmd_idempotency_key : string;
  cmd_intent : option string;
  cmd_postconditions : list CommandPostcondition
}.
#[global] Instance Command_eta : Eta Command := fun r =>
  mkCommand (cmd_id r) (cmd_device_id r) (cmd_command r) (cmd_value r) (cmd_unit r)
    (cmd_preconditions r) (cmd_risk_class r) (cmd_idempotency_key r) (cmd_intent r)
    (cmd_postconditions r).
#[global] Instance Command_eq_dec : EqDecision Command.
Proof. solve_decision. Defined.

Record PlanDependencies := mkPlanDependencies {
  dep_inventory_revision : string;
  dep_policy_revision : string;
  dep_state_versions : gmap string Z;
  dep_dependency_kinds : gmap string DependencyKind;
  dep_capability_fingerprints : gmap string string
}.
#[global] Instance PlanDependencies_eq_dec : EqDecision PlanDependencies.
Proof. solve_decision. Defined.

Record ValidationResult := mkValidationResult {
  vr_status : ValidationStatus;
  vr_validated_at : datetime;
  vr_runtime_revision : string;
  vr_errors : list ErrorDetail;
  vr_digest : string;
  vr_valid_until : option datetime;
  vr_dependencies : option PlanDependencies
}.
#[global] Instance ValidationResult_eq_dec : EqDecision ValidationResult.
Proof. solve_decision. Defined.

Record Policy := mkPolicy {
  pol_id : string;
  pol_target : list (string * json);
  pol_action : PolicyAction;
  pol_conditions : list (string * json);
  pol_priority : Z;
  pol_enabled : bool;
  pol_allows_stale : bool
}.
#[global] Instance Policy_eq_dec : EqDecision Policy.
Proof. solve_decision. Defined.

Record PolicyDecision := mkPolicyDecision {
  pd_policy_id : option string;
  pd_action : PolicyAction;
  pd_reason : string;
  pd_allows_stale : bool
}.
#[global] Instance PolicyDecision_eq_dec : EqDecision PolicyDecision.
Proof. solve_decision. Defined.

Record Approval := mkApproval {
  ap_authority : AuthorityContext;
  ap_status : string;
  ap_approved_by : string;
  ap_approved_at : datetime;
  ap_approval_id : option string;
  ap_validation_digest : string;
  ap_scope : string;
  ap_authentication_context : option string;
  ap_session_id : option string;
  ap_bundle_digest : option string;
  ap_recurrence_digest : option string;
  ap_validation_valid_until : option datetime;
  ap_expires_at : option datetime;
  ap_window_digest : option string;
  ap_schedule_revision : Z
}.
#[global] Instance Approval_eta : Eta Approval := fun r =>
  mkApproval (ap_authority r) (ap_status r) (ap_approved_by r) (ap_approved_at r)
    (ap_approval_id r) (ap_validation_digest r) (ap_scope r) (ap_authentication_context r)
    (ap_session_id r) (ap_bundle_digest r) (ap_recurrence_digest r)
    (ap_validation_valid_until r) (ap_expires_at r) (ap_window_digest r)
    (ap_schedule_revision r).
#[global] Instance Approval_eq_dec : EqDecision Approval.
Proof. solve_decision. Defined.

Record ExecutionOutcome := mkExecutionOutcome {
  eo_authority : AuthorityContext;
  eo_plan_id : string;
  eo_command_id : string;
  eo_execution_attempt_id : string;
  eo_adapter_request_id : option string;
  eo_status : ExecutionStatus;
  eo_adapter_ref : option SourceRef;
  eo_before_state : option StateSnapshot;
  eo_after_state : option StateSnapshot;
  eo_error : option ErrorDetail;
  eo_completed_at : datetime
}.
#[global] Instance ExecutionOutcome_eq_dec : EqDecision ExecutionOutcome.
Proof. solve_decision. Defined.

Record PlanExecutionLease := mkPlanExecutionLease {
  pel_deployment_id : string;
  pel_owner_id : string;
  pel_lease_id : string;
  pel_fencing_epoch : Z;
  pel_expires_at : datetime
}.
#[global] Instance PlanExecutionLease_eq_dec : EqDecision PlanExecutionLease.
Proof. solve_decision. Defined.

(** [pl_execute_tz] is the zone name [execute_at.tzinfo] reports (its [key], or
    [tzname()]): an instant alone does not carry it. *)
Record Plan := mkPlan {
  pl_authority : AuthorityContext;
  pl_id : string;
  pl_schema_version : string;
  pl_created_at : datetime;
  pl_expires_at : option datetime;
  pl_execute_at : option datetime;
  pl_execute_tz : option string;
  pl_execution_window : option ExecutionWindow;
  pl_schedule_revision : Z;
  pl_commands : list Command;
  pl_status : PlanStatus;
  pl_deployment_id : option string;
  pl_execution_lease : option PlanExecutionLease;
  pl_definition_digest : option string;
  pl_validation : option ValidationResult;
  pl_policy_decisions : list PolicyDecision;
  pl_approval : option Approval;
  pl_execution : option (list ExecutionOutcome);
  pl_agent_request_id : option string
}.
#[global] Instance Plan_eta : Eta Plan := fun r =>
  mkPlan (pl_authority r) (pl_id r) (pl_schema_version r) (pl_created_at r) (pl_expires_at r)
    (pl_execute_at r) (pl_execute_tz r) (pl_execution_window r) (pl_schedule_revision r)
    (pl_commands r) (pl_status r) (pl_deployment_id r) (pl_execution_lease r)
    (pl_definition_digest r) (pl_validation r) (pl_policy_decisions r) (pl_approval r)
    (pl_execution r) (pl_agent_request_id r).

Record ExecutionDependencyEvidence := mkExecutionDependencyEvidence {
  ede_bundle_id : string;
  ede_member_plan_id : string;
  ede_predecessor_plan_id : string;
  ede_predecessor_command_ids : list string;
  ede_status : ExecutionStatus;
  ede_state_versions : list (string * Z);
  ede_captured_at : datetime;
  ede_outcome_digest : string;
  ede_evidence_digest : string
}.

(** [bm_evidence] is [details["dependency_evidence"]], the only entry of
    [details] the runtime reads back. *)
Record BundleMemberCommit := mkBundleMemberCommit {
  bm_plan_id : string;
  bm_validation_digest : string;
  bm_execute_at : option datetime;
  bm_status : BundleMemberCommitStatus;
  bm_execution_status : option ExecutionStatus;
  bm_scheduled : bool;
  bm_error_code : option string;
  bm_evidence : option ExecutionDependencyEvidence;
  bm_predecessor_plan_id : option string;
  bm_predecessor_plan_ids : list string;
  bm_predecessor_outcome_digest : option string
}.
#[global] Instance BundleMemberCommit_eta : Eta BundleMemberCommit := fun r =>
  mkBundleMemberCommit (bm_plan_id r) (bm_validation_digest r) (bm_execute_at r) (bm_status r)
    (bm_execution_status r) (bm_scheduled r) (bm_error_code r) (bm_evidence r)
    (bm_predecessor_plan_id r) (bm_predecessor_plan_ids r) (bm_predecessor_outcome_digest r).

(** An [ErrorDetail] whose code is none of [ErrorCode]. *)
Record CommitFailure := mkCommitFailure {
  cf_code : string;
  cf_message : message;
  cf_retryable : bool
}.

Record BundleCommit := mkBundleCommit {
  bc_authority : AuthorityContext;
  bc_id : string;
  bc_bundle_digest : string;
  bc_scenario_id : string;
  bc_status : BundleCommitStatus;
  bc_approval_reservation_id : option string;
  bc_members : list BundleMemberCommit;
  bc_created_at : datetime;
  bc_updated_at : datetime;
  bc_failure : option CommitFailure
}.

Record AggregateExecutionCapability := mkAggregateExecutionCapability {
  aec_authority : AuthorityContext;
  aec_bundle_id : string;
  aec_member_plan_id : string;
  aec_bundle_digest : string;
  aec_nonce : string;
  aec_expires_at : datetime
}.
#[global] Instance AggregateExecutionCapability_eq_dec : EqDecision AggregateExecutionCapability.
Proof. solve_decision. Defined.

(** ** Validators *)

Definition opt_num_nonfinite (o : option num) : bool :=
  match o with Some (NFloat f) => negb (f64_isfinite f) | _ => false end.

(** The [gt=0] / [ge=0] field constraints, then [validate_values]. *)
Definition validate_guarantees (g : CapabilityGuarantees) : result exn unit :=
  raise_if (match g_resolution g with Some n => negb (num_gt n (NInt 0)) | None => false end)
    (ValueError "resolution must be positive") ≫= fun _ =>
  raise_if (match g_tolerance g with Some n => negb (num_le (NInt 0) n) | None => false end)
    (ValueError "tolerance must not be negative") ≫= fun _ =>
  raise_if (match g_expected_latency_ms g with Some z => z <? 0 | None => false end)
    (ValueError "expected_latency_ms must not be negative") ≫= fun _ =>
  raise_if (bool_decide (g_availability_modes g = []) ||
            Nat.ltb 2 (List.length (g_availability_modes g)))
    (ValueError "availability_modes must have one or two entries") ≫= fun _ =>
  raise_if (opt_num_nonfinite (g_resolution g))
    (ValueError "resolution must be a finite number") ≫= fun _ =>
  raise_if (opt_num_nonfinite (g_tolerance g))
    (ValueError "tolerance must be a finite number") ≫= fun _ =>
  raise_if (negb (unique (g_availability_modes g)))
    (ValueError "availability_modes must contain unique values").

Definition validate_authority (a : AuthorityContext) : result exn unit :=
  raise_if (negb (bool_decide (au_household_id a ∈ au_household_ids a)))
    (ValueError "household_id must be included in household_ids") ≫= fun _ =>
  result_iter (fun '(name, l) =>
      raise_if (negb (unique l)) (ValueError (name +:+ " must contain unique values")) ≫= fun _ =>
      raise_if (existsb is_blank l) (ValueError (name +:+ " must not contain blank values")))
    [("household_ids", au_household_ids a);
     ("roles", map PrincipalRole_value (au_roles a));
     ("area_ids", au_area_ids a);
     ("device_ids", au_device_ids a);
     ("capabilities", au_capabilities a);
     ("operations", au_operations a)].

(** [d.get(key)] of a [dict] given by its entries (absent and [None] coincide). *)
Definition json_get (k : string) (d : list (string * json)) : option json :=
  match od_get k d with Some JNull => None | o => o end.

Definition numeric_kind (k : CapabilityKind) : bool :=
  bool_decide (k = INTEGER) || bool_decide (k = NUMBER).

(** [isinstance(step, (int, float))], not a [bool], finite and positive *)
Definition step_ok (j : json) : bool :=
  match j with
  | JNum n => num_isfinite n && num_gt n (NInt 0)
  | _ => false
  end.

Definition validate_capability (c : Capability) : result exn unit :=
  raise_if (match cap_minimum c, cap_maximum c with
            | Some lo, Some hi => num_gt lo hi | _, _ => false end)
    (ValueError "minimum must be less than or equal to maximum") ≫= fun _ =>
  raise_if (negb (numeric_kind (cap_kind c)) &&
            (opt_bool (cap_minimum c) || opt_bool (cap_maximum c)))
    (ValueError "numeric bounds are only valid for integer or number capabilities") ≫= fun _ =>
  raise_if (bool_decide (cap_kind c = ENUM) && bool_decide (cap_enum_values c = []))
    (ValueError "enum capabilities require enum_values") ≫= fun _ =>
  match json_get "step" (cap_constraints c) with
  | None => Ok tt
  | Some step =>
      raise_if (negb (numeric_kind (cap_kind c)))
        (ValueError "step is only valid for numeric capabilities") ≫= fun _ =>
      (* [math.isfinite(float(step))] overflows on an [int] beyond binary64 *)
      raise_if (match step with JNum n => negb (opt_bool (to_float n)) | _ => false end)
        OverflowError ≫= fun _ =>
      raise_if (negb (step_ok step)) (ValueError "step must be a finite positive number")
  end ≫= fun _ =>
  raise_if (opt_bool (g_resolution (cap_guarantees c)) && negb (numeric_kind (cap_kind c)))
    (ValueError "resolution is only valid for numeric capabilities") ≫= fun _ =>
  raise_if (opt_bool (g_tolerance (cap_guarantees c)) && negb (numeric_kind (cap_kind c)))
    (ValueError "tolerance is only valid for numeric capabilities") ≫= fun _ =>
  raise_if (g_readback_required (cap_guarantees c) && negb (cap_readable c))
    (ValueError "readback guarantee requires a readable capability") ≫= fun _ =>
  raise_if (g_confirmation_required (cap_guarantees c) && negb (cap_writable c))
    (ValueError "confirmation guarantee requires a writable capability").

Definition ref_key (r : SourceRef) : string * string := (sr_adapter_id r, sr_external_id r).

Definition validate_device (d : Device) : result exn unit :=
  raise_if (negb (canonical_id_pattern (dev_id d)))
    (ValueError "id does not match the canonical pattern") ≫= fun _ =>
  raise_if (bool_decide (dev_source_refs d = []))
    (ValueError "source_refs must not be empty") ≫= fun _ =>
  raise_if (negb (unique (map ref_key (dev_source_refs d))))
    (ValueError "source_refs must be unique").

Definition validate_snapshot (s : StateSnapshot) : result exn unit :=
  raise_if (ss_received_at s <? ss_observed_at s)
    (ValueError "received_at must be greater than or equal to observed_at") ≫= fun _ =>
  raise_if (match ss_value s with Some v => negb (scalar_finite v) | None => false end)
    (ValueError "value must be finite") ≫= fun _ =>
  raise_if (bool_decide (ss_status s = CURRENT) && bool_decide (ss_value s = None))
    (ValueError "current state requires a value") ≫= fun _ =>
  raise_if ((bool_decide (ss_status s = INVALID) || bool_decide (ss_status s = UNAVAILABLE))
            && opt_bool (ss_value s))
    (ValueError "state must not carry a value") ≫= fun _ =>
  raise_if (match ss_source_cursor s with
            | Some c => negb (String.eqb (cu_source_id c) (sr_adapter_id (ss_source_ref s)))
            | None => false end)
    (ValueError "source_cursor.source_id must match source_ref.adapter_id").

Definition validate_window (w : ExecutionWindow) : result exn unit :=
  raise_if ((ew_intended_at w <? ew_not_before w) || (ew_not_after w <? ew_intended_at w))
    (ValueError "execution window must satisfy not_before <= intended_at <= not_after").

Definition validate_safety_limit (l : SafetyLimit) : result exn unit :=
  raise_if (negb (opt_bool (sl_minimum l)) && negb (opt_bool (sl_maximum l)))
    (ValueError "safety limit must set minimum, maximum, or both") ≫= fun _ =>
  raise_if (match sl_minimum l, sl_maximum l with
            | Some lo, Some hi => num_gt lo hi | _, _ => false end)
    (ValueError "minimum must not exceed maximum").

(** [Field(ge=lo, le=hi)] *)
Definition within (lo hi : Z) (f : f64) : bool :=
  num_le (NInt lo) (NFloat f) && num_le (NFloat f) (NInt hi).

(** The field bounds, then [validate_tolerance], [validate_settling] and
    [validate_reconciliation]. *)
Definition validate_postcondition (p : CommandPostcondition) : result exn unit :=
  raise_if (match post_tolerance p with Some t => negb (num_le (NInt 0) (NFloat t)) | None => false end)
    (ValueError "tolerance must not be negative") ≫= fun _ =>
  raise_if (match post_settle_timeout_seconds p with
            | Some t => negb (within 0 120 t) | None => false end)
    (ValueError "settle_timeout_seconds must be in 0..120") ≫= fun _ =>
  raise_if (negb (num_gt (NFloat (post_poll_interval_seconds p)) (NInt 0) &&
                  num_le (NFloat (post_poll_interval_seconds p)) (NInt 10)))
    (ValueError "poll_interval_seconds must be in 0..10") ≫= fun _ =>
  raise_if (Nat.ltb 4 (List.length (post_reconcile_capabilities p)))
    (ValueError "at most four reconcile capabilities") ≫= fun _ =>
  raise_if (bool_decide (post_verification p = VERIFY_EQUALS) && negb (opt_bool (post_expected p)))
    (ValueError "equals verification requires an expected value") ≫= fun _ =>
  raise_if (bool_decide (post_verification p = VERIFY_TOGGLE_TRANSITION)
            && opt_bool (post_expected p))
    (ValueError "toggle_transition verification derives its expected value") ≫= fun _ =>
  raise_if (bool_decide (post_verification p = VERIFY_UNCONFIRMED) && opt_bool (post_expected p))
    (ValueError "unconfirmed verification must not declare an expected value") ≫= fun _ =>
  match post_tolerance p with
  | None => Ok tt
  | Some tol =>
      match post_expected p ≫= numeric with
      | None => Err (ValueError "tolerance is only valid for numeric expected values")
      | Some e =>
          match to_float e with
          | None => Err OverflowError
          | Some f => raise_if (negb (f64_isfinite f) || negb (f64_isfinite tol))
                        (ValueError "postcondition numeric values must be finite")
          end
      end
  end ≫= fun _ =>
  raise_if (negb (f64_isfinite (post_poll_interval_seconds p)))
    (ValueError "poll interval must be finite") ≫= fun _ =>
  match post_settle_timeout_seconds p with
  | None => Ok tt
  | Some t =>
      raise_if (negb (f64_isfinite t)) (ValueError "settle timeout must be finite") ≫= fun _ =>
      raise_if (num_gt (NFloat t) (NInt 0) &&
                num_gt (NFloat (post_poll_interval_seconds p)) (NFloat t))
        (ValueError "poll interval must not exceed settle timeout")
  end ≫= fun _ =>
  raise_if (existsb is_blank (post_reconcile_capabilities p))
    (ValueError "reconcile capabilities must be non-empty") ≫= fun _ =>
  raise_if (negb (unique (post_reconcile_capabilities p)))
    (ValueError "reconcile capabilities must be unique").

(** [a <= b] for an optional instant; [None] never triggers the test. *)
Definition opt_le (a : option datetime) (b : datetime) : bool :=
  match a with Some x => x <=? b | None => false end.

Definition validate_approval (a : Approval) : result exn unit :=
  raise_if (opt_le (ap_validation_valid_until a) (ap_approved_at a))
    (ValueError "approval validation evidence must outlive approval time") ≫= fun _ =>
  raise_if (opt_le (ap_expires_at a) (ap_approved_at a))
    (ValueError "approval expires_at must follow approved_at") ≫= fun _ =>
  raise_if (match ap_expires_at a, ap_validation_valid_until a with
            | Some e, Some v => v <? e | _, _ => false end)
    (ValueError "approval lifetime must not outlive validation evidence").

Definition expected_schema_version (deployment : option string)
    (lease : option PlanExecutionLease) : string :=
  if opt_bool deployment || opt_bool lease then "v2" else "v1".

Definition validate_plan (p : Plan) : result exn unit :=
  raise_if (negb (String.eqb (pl_schema_version p)
                    (expected_schema_version (pl_deployment_id p) (pl_execution_lease p))))
    (ValueError "plan schema_version does not match its contract shape") ≫= fun _ =>
  match pl_execution_window p with
  | None => Ok tt
  | Some w =>
      raise_if (negb (opt_bool (pl_execute_at p)))
        (ValueError "execution_window requires execute_at") ≫= fun _ =>
      raise_if (negb (bool_decide (pl_execute_at p = Some (ew_intended_at w))))
        (ValueError "execution_window intended_at must match execute_at") ≫= fun _ =>
      raise_if (negb (pl_schedule_revision p =? ew_revision w))
        (ValueError "schedule_revision must match execution_window revision")
  end ≫= fun _ =>
  match pl_execution_lease p, pl_deployment_id p with
  | Some l, Some d =>
      raise_if (negb (String.eqb (pel_deployment_id l) d))
        (ValueError "execution_lease deployment must match plan deployment")
  | _, _ => Ok tt
  end.

(** [BundleMemberCommit.validate_execute_at] rewrites [predecessor_plan_ids]. *)
Definition validate_member (m : BundleMemberCommit) : result exn BundleMemberCommit :=
  let ids := dedup (bm_predecessor_plan_ids m) in
  let normalized :=
    match bm_predecessor_plan_id m with
    | Some p => if bool_decide (p ∈ ids) then ids else p :: ids
    | None => ids
    end in
  raise_if (existsb is_blank normalized)
    (ValueError "predecessor plan IDs must be non-empty") ≫= fun _ =>
  raise_if (opt_bool (bm_predecessor_outcome_digest m) && bool_decide (normalized = []))
    (ValueError "predecessor outcome digest requires predecessor plan") ≫= fun _ =>
  Ok (m <| bm_predecessor_plan_ids := normalized |>).
