(* ===== verification/Transitions.v ===== *)
(** * State machines of plans and device availability (domain/transitions.py) *)

From S2P Require Import Prelude.
From S2P Require Import Values.
From S2P Require Import Models.

(** [_PLAN_TRANSITIONS] *)
Definition plan_transitions (s : PlanStatus) : list PlanStatus :=
  match s with
  | PS_DRAFT => [PS_VALIDATED; PS_CANCELLED]
  | PS_VALIDATED => [PS_REQUIRES_CONFIRMATION; PS_READY; PS_CANCELLED]
  | PS_REQUIRES_CONFIRMATION => [PS_APPROVED; PS_CANCELLED]
  | PS_READY => [PS_EXECUTING; PS_CANCELLED]
  | PS_APPROVED => [PS_EXECUTING; PS_CANCELLED]
  | PS_EXECUTING =>
      [PS_COMPLETED; PS_PARTIALLY_FAILED; PS_FAILED; PS_UNKNOWN; PS_CANCELLED]
  | PS_COMPLETED | PS_PARTIALLY_FAILED | PS_FAILED | PS_CANCELLED | PS_UNKNOWN => []
  end.

(** [_AVAILABILITY_TRANSITIONS] *)
Definition availability_transitions (s : AvailabilityStatus) : list AvailabilityStatus :=
  match s with
  | AV_UNKNOWN => [AV_AVAILABLE; AV_UNAVAILABLE]
  | AV_AVAILABLE => [AV_STALE; AV_UNAVAILABLE]
  | AV_STALE => [AV_AVAILABLE; AV_UNAVAILABLE]
  | AV_UNAVAILABLE => [AV_AVAILABLE]
  end.

Definition invalid_transition (current requested : string) : exn :=
  DomainError (mkErrorDetail INVALID_TRANSITION
    [Lit "Transition from "; Val (JStr current); Lit " to "; Val (JStr requested);
     Lit " is not allowed"] None None None false
    [("current", JStr current); ("requested", JStr requested)]).

Definition assert_plan_transition (current requested : PlanStatus) : result exn unit :=
  raise_if (negb (bool_decide (requested ∈ plan_transitions current)))
    (invalid_transition (PlanStatus_value current) (PlanStatus_value requested)).

Definition assert_availability_transition (current requested : AvailabilityStatus)
    : result exn unit :=
  raise_if (negb (bool_decide (requested ∈ availability_transitions current)))
    (invalid_transition (AvailabilityStatus_value current) (AvailabilityStatus_value requested)).

(** A lifecycle: the statuses a plan goes through, each step admitted by the
    guard. *)
Inductive lifecycle : PlanStatus -> list PlanStatus -> Prop :=
  | lifecycle_here s : lifecycle s []
  | lifecycle_step s s' l :
      assert_plan_transition s s' = Ok tt -> lifecycle s' l -> lifecycle s (s' :: l).

Definition terminal (s : PlanStatus) : bool := bool_decide (plan_transitions s = []).

Lemma assert_plan_transition_ok s s' :
  assert_plan_transition s s' = Ok tt <-> s' ∈ plan_transitions s.
Proof.
  unfold assert_plan_transition. rewrite raise_if_ok, negb_false_iff.
  apply bool_decide_eq_true.
Qed.

(** The number of steps left from a status. *)
Definition steps_left (s : PlanStatus) : nat :=
  match s with
  | PS_DRAFT => 5 | PS_VALIDATED => 4 | PS_REQUIRES_CONFIRMATION => 3
  | PS_READY | PS_APPROVED => 2 | PS_EXECUTING => 1 | _ => 0
  end.

Lemma transition_decreases s s' : s' ∈ plan_transitions s -> (steps_left s' < steps_left s)%nat.
Proof.
  destruct s; simpl; rewrite ?elem_of_cons, elem_of_nil; intros H;
    repeat (destruct H as [->|H]; [simpl; lia|]); done.
Qed.

Lemma lifecycle_bounded s l : lifecycle s l -> (List.length l <= steps_left s)%nat.
Proof.
  induction 1 as [s|s s' l Hs _ IH]; simpl; [lia|].
  apply assert_plan_transition_ok, transition_decreases in Hs. lia.
Qed.

(** the plan state machine cannot cycle: every chain of guarded transitions
    has at most five steps, and a chain that cannot be extended ends in a
    terminal status (so a cancelled, completed, failed or unknown plan never
    leaves its status). *)
Theorem plan_lifecycle_terminates s l :
  lifecycle s l ->
  (List.length l <= 5)%nat /\
  ((forall s', ~ lifecycle s (l ++ [s'])) -> terminal (List.last l s) = true).
Proof.
  intros Hl. split.
  { apply lifecycle_bounded in Hl. destruct s; simpl in Hl; lia. }
  induction Hl as [s|s s' l Hs Hl IH]; intros Hmax.
  - destruct (terminal s) eqn:E; [done|]. exfalso.
    unfold terminal in E. apply bool_decide_eq_false in E.
    destruct (plan_transitions s) as [|s' k] eqn:Et; [done|].
    apply (Hmax s'). simpl. constructor; [|constructor].
    apply assert_plan_transition_ok. rewrite Et. set_solver.
  - rewrite <- (IH (fun s'' H => Hmax s'' (lifecycle_step _ _ _ Hs H))).
    destruct l as [|y l]; [done|]. f_equal. simpl List.last.
    clear. revert y. induction l as [|z l IHl]; intros y; [done|]. simpl. apply IHl.
Qed.

Lemma plan_lifecycle_terminates_witness :
  lifecycle PS_DRAFT [PS_VALIDATED; PS_REQUIRES_CONFIRMATION; PS_APPROVED; PS_EXECUTING;
                      PS_COMPLETED] /\
  (5 <= 5)%nat.
Proof.
  assert (lifecycle PS_DRAFT [PS_VALIDATED; PS_REQUIRES_CONFIRMATION; PS_APPROVED; PS_EXECUTING;
                      PS_COMPLETED]) as H.
  { repeat (constructor; [reflexivity|]). constructor. }
  split; [exact H|]. exact (proj1 (plan_lifecycle_terminates _ _ H)).
Defined.

Lemma lifecycle_elem_decreases s l y :
  lifecycle s l -> y ∈ l -> (steps_left y < steps_left s)%nat.
Proof.
  induction 1 as [s|s s' l Hs _ IH]; [set_solver|].
  apply assert_plan_transition_ok, transition_decreases in Hs.
  rewrite elem_of_cons. intros [->|Hy]; [done|]. specialize (IH Hy). lia.
Qed.

Lemma lifecycle_cons_inv s s' l :
  lifecycle s (s' :: l) -> s' ∈ plan_transitions s /\ lifecycle s' l.
Proof. inversion 1; subst. by rewrite <- assert_plan_transition_ok. Qed.

(** The suffix of a lifecycle is a lifecycle of the status it starts from. *)
Lemma lifecycle_app_inv s l1 l2 : lifecycle s (l1 ++ l2) -> lifecycle (List.last l1 s) l2.
Proof.
  revert s. induction l1 as [|y l1 IH]; intros s; [done|].
  intros [_ H%IH]%lifecycle_cons_inv. destruct l1 as [|z l1]; [done|].
  replace (List.last (y :: z :: l1) s) with (List.last (z :: l1) y); [done|].
  simpl. clear. revert z. induction l1 as [|w l1 IH]; intros z; [done|]. simpl. apply IH.
Qed.

Ltac first_step H :=
  let Hin := fresh "Hin" in
  apply lifecycle_cons_inv in H as [Hin H]; simpl in Hin;
  rewrite ?elem_of_cons, elem_of_nil in Hin.

Lemma lifecycle_to_executing_gate s l1 l2 :
  s = PS_READY \/ s = PS_APPROVED -> lifecycle s (l1 ++ PS_EXECUTING :: l2) -> l1 = [].
Proof.
  intros Hs. destruct l1 as [|y l1]; [done|]. simpl. intros H.
  assert (Hy : (steps_left y <= 1)%nat).
  { destruct Hs; subst s; first_step H; destruct Hin as [->|[->|[]]]; simpl; lia. }
  apply lifecycle_cons_inv in H as [_ H].
  assert (Hx : (steps_left PS_EXECUTING < steps_left y)%nat).
  { apply (lifecycle_elem_decreases _ _ _ H). set_solver. }
  simpl in Hx. lia.
Qed.

Lemma lifecycle_no_executing s l1 l2 :
  (steps_left s <= 1)%nat -> ~ lifecycle s (l1 ++ PS_EXECUTING :: l2).
Proof.
  intros Hs H. assert (Hx : (steps_left PS_EXECUTING < steps_left s)%nat).
  { apply (lifecycle_elem_decreases _ _ _ H). set_solver. }
  simpl in Hx. lia.
Qed.

Lemma lifecycle_to_executing_draft l1 l2 :
  lifecycle PS_DRAFT (l1 ++ PS_EXECUTING :: l2) ->
  l1 = [PS_VALIDATED; PS_READY] \/ l1 = [PS_VALIDATED; PS_REQUIRES_CONFIRMATION; PS_APPROVED].
Proof.
  destruct l1 as [|a l1]; simpl; intros H; first_step H; [naive_solver|].
  destruct Hin as [->|[->|[]]]; [|by apply lifecycle_no_executing in H; simpl in *; try lia].
  destruct l1 as [|b l1]; simpl in H; first_step H; [naive_solver|].
  destruct Hin as [->|[->|[->|[]]]]; [| |by apply lifecycle_no_executing in H; simpl in *; try lia].
  - destruct l1 as [|c l1]; simpl in H; first_step H; [naive_solver|].
    destruct Hin as [->|[->|[]]]; [|by apply lifecycle_no_executing in H; simpl in *; try lia].
    apply lifecycle_to_executing_gate in H as ->; auto.
  - apply lifecycle_to_executing_gate in H as ->; auto.
Qed.

(** no lifecycle reaches [EXECUTING] around the gates: a draft that
    executes was [READY] just before, or was [REQUIRES_CONFIRMATION] and then
    [APPROVED] just before; [EXECUTING] is entered at most once. *)
Theorem execution_only_through_gates l l1 l2 :
  lifecycle PS_DRAFT l -> l = l1 ++ PS_EXECUTING :: l2 ->
  (l1 = [PS_VALIDATED; PS_READY] \/
   l1 = [PS_VALIDATED; PS_REQUIRES_CONFIRMATION; PS_APPROVED]) /\
  PS_EXECUTING ∉ l2.
Proof.
  intros Hl ->. split.
  - apply lifecycle_to_executing_draft in Hl as [->| ->]; auto.
  - apply lifecycle_app_inv in Hl. inversion Hl as [|? ? ? _ Hl2]; subst.
    intros Hin. apply (lifecycle_elem_decreases _ _ _ Hl2) in Hin. simpl in Hin. lia.
Qed.

Lemma execution_only_through_gates_witness :
  PS_EXECUTING ∉ [PS_COMPLETED].
Proof.
  assert (lifecycle PS_DRAFT [PS_VALIDATED; PS_READY; PS_EXECUTING; PS_COMPLETED]) as H.
  { repeat (constructor; [reflexivity|]). constructor. }
  exact (proj2 (execution_only_through_gates _ [PS_VALIDATED; PS_READY] [PS_COMPLETED] H eq_refl)).
Defined.
