(* ===== verification/Policy.v ===== *)
(** * Risk classification and policy evaluation

    runtime/risk_classifier.py, config/policy_loader.py and
    application/policy_engine.py: the server classifies every command itself,
    an operator override may only harden the class, the first matching policy
    decides, and an [ALLOW] never bypasses the confirmation gate of a command
    that is not [SAFE]. *)

From S2P Require Import Prelude.
From S2P Require Import Values.
From S2P Require Import Models.

(** ** runtime/risk_classifier.py *)

(** [_SAFE_COMMANDS], [_CONFIRM_COMMANDS], [_RESTRICTED_COMMANDS] *)
Definition safe_commands (t : DeviceType) : list string :=
  match t with
  | LIGHT => ["turn_on"; "turn_off"; "toggle"; "set_brightness"]
  | SWITCH => ["turn_on"; "turn_off"; "toggle"]
  | _ => []
  end.
Definition confirm_commands (t : DeviceType) : list string :=
  match t with COVER => ["open"; "close"; "set_position"; "stop"] | _ => [] end.
Definition restricted_commands (t : DeviceType) : list string :=
  match t with SENSOR => ["*"] | ENERGY => ["*"] | _ => [] end.

Record RiskOverride := mkRiskOverride {
  ro_device_id : option string;
  ro_area_id : option string;
  ro_risk_class : RiskClass;
  ro_privileged_exception : bool
}.

(** [_RISK_ORDER] of the engine, [rank] of the classifier *)
Definition risk_rank (r : RiskClass) : Z :=
  match r with SAFE => 0 | CONFIRM => 1 | RESTRICTED => 2 end.

Definition classify_climate_temperature (d : Device) (capability : string) (c : Command)
    : RiskClass :=
  match cmd_value c ≫= numeric with
  | None => CONFIRM
  | Some value =>
      match find_first (fun cap => String.eqb (cap_name cap) capability) (dev_capabilities d) with
      | None => CONFIRM
      | Some target =>
          match cap_minimum target, cap_maximum target with
          | Some lo, Some hi => if num_le lo value && num_le value hi then SAFE else CONFIRM
          | _, _ => CONFIRM
          end
      end
  end.

Definition classify_default (d : Device) (capability : string) (c : Command) : RiskClass :=
  let t := dev_type d in
  if bool_decide (t = UNSUPPORTED) then RESTRICTED
  else if bool_decide (cmd_command c ∈ safe_commands t) then SAFE
  else if bool_decide (cmd_command c ∈ confirm_commands t) then CONFIRM
  else if bool_decide ("*" ∈ restricted_commands t) then RESTRICTED
  else if bool_decide (t = CLIMATE) && String.eqb (cmd_command c) "set_temperature"
  then classify_climate_temperature d capability c
  else if bool_decide (t = EV_CHARGER) then CONFIRM
  else RESTRICTED.

Definition effective_override (default : RiskClass) (o : RiskOverride) : RiskClass :=
  if ro_privileged_exception o then ro_risk_class o
  else if risk_rank default <=? risk_rank (ro_risk_class o) then ro_risk_class o
  else default.

Definition device_override (d : Device) (o : RiskOverride) : bool :=
  match ro_device_id o with Some i => String.eqb i (dev_id d) | None => false end.
Definition area_override (d : Device) (o : RiskOverride) : bool :=
  match ro_area_id o with Some a => bool_decide (Some a = dev_area_id d) | None => false end.

Definition classify (overrides : list RiskOverride) (d : Device) (capability : string)
    (c : Command) : RiskClass :=
  let default := classify_default d capability c in
  match find_first (device_override d) overrides with
  | Some o => effective_override default o
  | None =>
      match find_first (area_override d) overrides with
      | Some o => effective_override default o
      | None => default
      end
  end.

(** ** config/policy_loader.py *)

(** [key=lambda policy: (-policy.priority, policy.id)] *)
Definition policy_leb (p q : Policy) : bool :=
  if pol_priority p =? pol_priority q then String.leb (pol_id p) (pol_id q)
  else pol_priority q <? pol_priority p.

Definition load_policies (raw : list Policy) : list Policy :=
  isort policy_leb (List.filter pol_enabled raw).

(** The [context] mapping of [choose_policy]. *)
Definition context : Type := list (string * option scalar).
Definition ctx_get (ctx : context) (k : string) : option scalar :=
  match od_get k ctx with Some v => v | None => None end.

Definition target_matches (target : list (string * json)) (ctx : context) : bool :=
  forallb (fun '(k, e) => bool_decide (e = JNull) || scalar_json_eqb (ctx_get ctx k) e) target.

(** [actual < expected] for a number on the left *)
Definition lt_json (a : num) (e : json) : result exn bool :=
  match e with
  | JNum n => Ok (num_lt a n)
  | JBool b => Ok (num_lt a (NInt (if b then 1 else 0)))
  | _ => Err TypeError
  end.
Definition gt_json (a : num) (e : json) : result exn bool :=
  match e with
  | JNum n => Ok (num_gt a n)
  | JBool b => Ok (num_gt a (NInt (if b then 1 else 0)))
  | _ => Err TypeError
  end.
(** [actual in expected] *)
Definition in_json (a : option scalar) (e : json) : result exn bool :=
  match e with
  | JList l => Ok (existsb (scalar_json_eqb a) l)
  | JObj l => Ok (existsb (fun '(k, _) => scalar_json_eqb a (JStr k)) l)
  | JStr s => match a with Some (SStr t) => Ok (substring_of t s) | _ => Err TypeError end
  | _ => Err TypeError
  end.

(** One entry of [_matches_conditions]: does it hold? *)
Definition condition_holds (ctx : context) (k : string) (e : json) : result exn bool :=
  if bool_decide (k ∈ ["min_value"; "value_min"]) then
    match ctx_get ctx "value" ≫= as_number with
    | None => Ok false
    | Some a => negb <$> lt_json a e
    end
  else if bool_decide (k ∈ ["max_value"; "value_max"]) then
    match ctx_get ctx "value" ≫= as_number with
    | None => Ok false
    | Some a => negb <$> gt_json a e
    end
  else if bool_decide (k ∈ ["value_in"; "allowed_values"]) then
    in_json (ctx_get ctx "value") e
  else Ok (scalar_json_eqb (ctx_get ctx k) e).

Fixpoint conditions_match (conditions : list (string * json)) (ctx : context)
    : result exn bool :=
  match conditions with
  | [] => Ok true
  | (k, e) :: rest =>
      condition_holds ctx k e ≫= fun b : bool =>
      if b then conditions_match rest ctx else Ok false
  end.

Definition policy_matches (p : Policy) (ctx : context) : result exn bool :=
  if target_matches (pol_target p) ctx then conditions_match (pol_conditions p) ctx else Ok false.

Definition decision_of (p : Policy) : PolicyDecision :=
  mkPolicyDecision (Some (pol_id p)) (pol_action p) ("Matched policy " +:+ pol_id p)
    (pol_allows_stale p).
Definition default_decision : PolicyDecision :=
  mkPolicyDecision None PA_ALLOW "No matching policy; default allow applies" false.

Fixpoint choose_policy (policies : list Policy) (ctx : context) : result exn PolicyDecision :=
  match policies with
  | [] => Ok default_decision
  | p :: rest =>
      policy_matches p ctx ≫= fun b : bool =>
      if b then Ok (decision_of p) else choose_policy rest ctx
  end.

(** ** application/policy_engine.py *)

Record PolicyEngine := mkPolicyEngine {
  pe_policies : list Policy;
  pe_overrides : list RiskOverride
}.

Definition effective_risk (e : PolicyEngine) (c : Command) (d : Device) (capability : string)
    : RiskClass :=
  let classified := classify (pe_overrides e) d capability c in
  if risk_rank (cmd_risk_class c) <=? risk_rank classified then classified else cmd_risk_class c.

Definition policy_context (c : Command) (d : Device) (capability : string) (r : RiskClass)
    : context :=
  [("device_id", Some (SStr (dev_id d))); ("area_id", SStr <$> dev_area_id d);
   ("capability", Some (SStr capability)); ("command", Some (SStr (cmd_command c)));
   ("value", cmd_value c); ("risk_class", Some (SStr (RiskClass_value r)))].

Definition evaluate (e : PolicyEngine) (c : Command) (d : Device) (capability : string)
    : result exn PolicyDecision :=
  let r := effective_risk e c d capability in
  choose_policy (pe_policies e) (policy_context c d capability r) ≫= fun decision =>
  if bool_decide (pd_action decision = PA_ALLOW) && negb (bool_decide (r = SAFE)) then
    Ok (mkPolicyDecision (pd_policy_id decision) PA_CONFIRM
          ("Risk class " +:+ RiskClass_value r +:+ " requires explicit operator confirmation")
          (pd_allows_stale decision))
  else Ok decision.

(** ** Properties *)

Lemma risk_rank_nonneg r : 0 <= risk_rank r.
Proof. destruct r; simpl; lia. Qed.

Lemma risk_rank_safe r : risk_rank r <= 0 -> r = SAFE.
Proof. destruct r; simpl; intros; [done|lia|lia]. Qed.

Lemma effective_override_hardens default o :
  ro_privileged_exception o = false ->
  risk_rank default <= risk_rank (effective_override default o).
Proof.
  unfold effective_override. intros ->.
  destruct (Z.leb_spec (risk_rank default) (risk_rank (ro_risk_class o))); lia.
Qed.

Lemma classify_hardens overrides d cap c :
  Forall (fun o => ro_privileged_exception o = false) overrides ->
  risk_rank (classify_default d cap c) <= risk_rank (classify overrides d cap c).
Proof.
  rewrite Forall_forall. intros Hp. unfold classify.
  destruct (find_first (device_override d) overrides) as [o|] eqn:E1.
  { apply find_first_some in E1 as [Hin _]. by apply effective_override_hardens, Hp. }
  destruct (find_first (area_override d) overrides) as [o|] eqn:E2; [|lia].
  apply find_first_some in E2 as [Hin _]. by apply effective_override_hardens, Hp.
Qed.

Lemma effective_risk_ge e c d cap :
  risk_rank (cmd_risk_class c) <= risk_rank (effective_risk e c d cap) /\
  risk_rank (classify (pe_overrides e) d cap c) <= risk_rank (effective_risk e c d cap).
Proof.
  unfold effective_risk.
  destruct (Z.leb_spec (risk_rank (cmd_risk_class c)) (risk_rank (classify (pe_overrides e) d cap c)));
    lia.
Qed.

(** What [_classify_default] calls safe, in words. *)
Inductive safe_by_default (d : Device) (cap : string) (c : Command) : Prop :=
  | safe_light : dev_type d = LIGHT ->
      cmd_command c ∈ ["turn_on"; "turn_off"; "toggle"; "set_brightness"] ->
      safe_by_default d cap c
  | safe_switch : dev_type d = SWITCH -> cmd_command c ∈ ["turn_on"; "turn_off"; "toggle"] ->
      safe_by_default d cap c
  | safe_temperature v target lo hi : dev_type d = CLIMATE ->
      cmd_command c = "set_temperature" -> cmd_value c = Some (SNum v) ->
      target ∈ dev_capabilities d -> cap_name target = cap ->
      cap_minimum target = Some lo -> cap_maximum target = Some hi ->
      num_le lo v = true -> num_le v hi = true ->
      safe_by_default d cap c.

Lemma classify_climate_safe d cap c :
  dev_type d = CLIMATE -> cmd_command c = "set_temperature" ->
  classify_climate_temperature d cap c = SAFE -> safe_by_default d cap c.
Proof.
  unfold classify_climate_temperature. intros Ht Hc.
  destruct (cmd_value c) as [[b|v|s]|] eqn:Ev; simpl; try done.
  destruct (find_first _ _) as [t|] eqn:Ef; [|done].
  apply find_first_some in Ef as [Hin Hn%String.eqb_eq].
  destruct (cap_minimum t) as [lo|] eqn:El, (cap_maximum t) as [hi|] eqn:Eh; try done.
  destruct (num_le lo v && num_le v hi) eqn:Eb; [|done].
  apply andb_true_iff in Eb as [? ?]. intros _. by eapply safe_temperature.
Qed.

Lemma classify_default_safe d cap c :
  classify_default d cap c = SAFE -> safe_by_default d cap c.
Proof.
  unfold classify_default. case_bool_decide as H1; [done|].
  case_bool_decide as H2.
  { intros _. destruct (dev_type d) eqn:Et; simpl in H2; try (by apply elem_of_nil in H2).
    - by apply safe_light.
    - by apply safe_switch. }
  case_bool_decide; [done|]. case_bool_decide; [done|].
  destruct (bool_decide (dev_type d = CLIMATE) && String.eqb (cmd_command c) "set_temperature") eqn:E.
  - destruct_ands. intros Hs. apply classify_climate_safe; [done| |done]. by apply String.eqb_eq.
  - clear E. case_bool_decide; done.
Qed.

(** a decision [ALLOW] is only ever reached for a command both sides call
    safe: the caller's label is [SAFE], the server's own classification is
    [SAFE], and (with no privileged override configured) the command is one of
    the safe commands of the default table or a set-point inside the declared
    range.  No policy and no caller label can turn any other command into an
    unattended write. *)
Theorem allow_only_safe e c d cap decision :
  evaluate e c d cap = Ok decision ->
  pd_action decision = PA_ALLOW ->
  cmd_risk_class c = SAFE /\
  classify (pe_overrides e) d cap c = SAFE /\
  (Forall (fun o => ro_privileged_exception o = false) (pe_overrides e) ->
   safe_by_default d cap c).
Proof.
  unfold evaluate. intros (d0 & _ & Hd)%result_bind_ok Ha.
  assert (effective_risk e c d cap = SAFE) as Hs.
  { destruct (decide (effective_risk e c d cap = SAFE)) as [|Hn]; [done|exfalso].
    rewrite (bool_decide_eq_false_2 _ Hn), andb_true_r in Hd.
    destruct (decide (pd_action d0 = PA_ALLOW)) as [E|E].
    - rewrite (bool_decide_eq_true_2 _ E) in Hd. injection Hd as <-. done.
    - rewrite (bool_decide_eq_false_2 _ E) in Hd. injection Hd as <-. done. }
  destruct (effective_risk_ge e c d cap) as [H1 H2]. rewrite Hs in H1, H2. simpl in H1, H2.
  split; [by apply risk_rank_safe|]. split; [by apply risk_rank_safe|].
  intros Hp. apply classify_default_safe, risk_rank_safe.
  pose proof (classify_hardens _ d cap c Hp). lia.
Qed.

(** No hidden downgrade: whenever the effective risk is not [SAFE] the
    decision is [CONFIRM] or [DENY], a matched [DENY] stays a [DENY], and the
    staleness permission is the matched policy's own. *)
Theorem evaluate_refines_choice e c d cap chosen decision :
  choose_policy (pe_policies e) (policy_context c d cap (effective_risk e c d cap)) = Ok chosen ->
  evaluate e c d cap = Ok decision ->
  pd_policy_id decision = pd_policy_id chosen /\
  pd_allows_stale decision = pd_allows_stale chosen /\
  (pd_action decision = PA_DENY <-> pd_action chosen = PA_DENY) /\
  (effective_risk e c d cap <> SAFE -> pd_action decision <> PA_ALLOW) /\
  (effective_risk e c d cap = SAFE -> decision = chosen).
Proof.
  unfold evaluate. intros ->. simpl.
  repeat case_bool_decide; simpl; intros [= <-]; simpl; repeat split; try congruence.
Qed.

Lemma policy_leb_total p q : policy_leb p q = true \/ policy_leb q p = true.
Proof.
  unfold policy_leb. rewrite (Z.eqb_sym (pol_priority q)).
  destruct (Z.eqb_spec (pol_priority p) (pol_priority q)); [apply string_leb_total|].
  rewrite !Z.ltb_lt. lia.
Qed.

Lemma policy_leb_trans p q r :
  policy_leb p q = true -> policy_leb q r = true -> policy_leb p r = true.
Proof.
  unfold policy_leb.
  destruct (Z.eqb_spec (pol_priority p) (pol_priority q)),
    (Z.eqb_spec (pol_priority q) (pol_priority r)),
    (Z.eqb_spec (pol_priority p) (pol_priority r)); rewrite ?Z.ltb_lt; try lia.
  apply string_leb_trans.
Qed.

Lemma choose_policy_first policies ctx decision :
  choose_policy policies ctx = Ok decision ->
  (exists l1 p l2, policies = l1 ++ p :: l2 /\ policy_matches p ctx = Ok true /\
     decision = decision_of p /\ Forall (fun q => policy_matches q ctx = Ok false) l1) \/
  (decision = default_decision /\ Forall (fun q => policy_matches q ctx = Ok false) policies).
Proof.
  induction policies as [|p l IH]; simpl; [intros [= <-]; right; by split; [|constructor]|].
  intros (b & Hp & H)%result_bind_ok. destruct b.
  - injection H as <-. left. exists [], p, l. repeat split; [done|constructor].
  - destruct (IH H) as [(l1 & q & l2 & -> & Hq & Hd & Hl)|[Hd Hl]].
    + left. exists (p :: l1), q, l2. repeat split; try done. by constructor.
    + right. split; [done|]. by constructor.
Qed.

(** policy selection over a loaded policy file: the decision is that of an
    enabled policy that matches and has the highest priority among the enabled
    policies that match (the least id breaking ties); without a match the
    default decision is returned and then no enabled policy matches.  Disabled
    policies never decide. *)
Theorem choose_policy_highest_priority raw ctx decision :
  choose_policy (load_policies raw) ctx = Ok decision ->
  (exists p, p ∈ raw /\ pol_enabled p = true /\ policy_matches p ctx = Ok true /\
     decision = decision_of p /\
     (forall q, q ∈ raw -> pol_enabled q = true -> policy_matches q ctx = Ok true ->
        pol_priority q < pol_priority p \/
        (pol_priority q = pol_priority p /\ String.leb (pol_id p) (pol_id q) = true))) \/
  (decision = default_decision /\
   forall q, q ∈ raw -> pol_enabled q = true -> policy_matches q ctx = Ok false).
Proof.
  assert (Hload : forall q, q ∈ load_policies raw <-> q ∈ raw /\ pol_enabled q = true).
  { intros q. unfold load_policies. rewrite elem_of_isort, !list_elem_of_In, filter_In. done. }
  pose proof (isort_sorted policy_leb policy_leb_total policy_leb_trans
    (List.filter pol_enabled raw)) as Hs. fold (load_policies raw) in Hs.
  intros [(l1 & p & l2 & El & Hp & Hd & Hl1)|[Hd Hl]]%choose_policy_first.
  - left. exists p. rewrite El in Hload, Hs.
    destruct (proj1 (Hload p)) as [Hin Hen]; [set_solver|]. repeat split; try done.
    intros q Hq Hqe Hqm. rewrite Forall_forall in Hl1.
    assert (q ∈ l1 ++ p :: l2) as Hq' by (by apply Hload).
    apply elem_of_app in Hq' as [Hq1|Hq2]; [by rewrite Hl1 in Hqm|].
    assert (policy_leb p q = true) as Hle.
    { apply elem_of_cons in Hq2 as [->|Hq2].
      - destruct (policy_leb_total p p); done.
      - apply StronglySorted_app_1_r in Hs. inversion Hs as [|? ? _ Hall]; subst.
        rewrite Forall_forall in Hall. by apply Hall. }
    unfold policy_leb in Hle.
    destruct (Z.eqb_spec (pol_priority p) (pol_priority q)); [auto|].
    apply Z.ltb_lt in Hle. auto.
  - right. split; [done|]. intros q Hq Hqe. rewrite Forall_forall in Hl. apply Hl. by apply Hload.
Qed.

(** *** Witnesses: a light, a cover, a two-policy file *)

Definition example_ref : SourceRef := mkSourceRef "ha" "light.desk" None None None.
Definition example_light : Device :=
  mkDevice "desk" "v1" LIGHT "Desk" (Some "office") None None "ha" [] AV_AVAILABLE
    [example_ref] [] [] None.
Definition example_command (name : string) : Command :=
  mkCommand "c1" "desk" name None None [] SAFE "k1" None [].
Definition example_policies : list Policy :=
  [mkPolicy "low" [] PA_DENY [] 1 true false;
   mkPolicy "off" [] PA_DENY [] 9 false false;
   mkPolicy "high" [("device_id", JStr "desk")] PA_ALLOW [] 5 true true].
Definition example_engine : PolicyEngine := mkPolicyEngine (load_policies example_policies) [].

Lemma allow_only_safe_witness :
  cmd_risk_class (example_command "turn_on") = SAFE /\
  safe_by_default example_light "power" (example_command "turn_on").
Proof.
  destruct (allow_only_safe example_engine (example_command "turn_on") example_light "power"
              (mkPolicyDecision (Some "high") PA_ALLOW "Matched policy high" true)
              ltac:(vm_compute; reflexivity) eq_refl) as (H1 & _ & H3).
  split; [exact H1|]. apply H3. constructor.
Defined.

Lemma evaluate_refines_choice_witness :
  effective_risk example_engine (example_command "open") example_light "power" = RESTRICTED /\
  PA_CONFIRM <> PA_ALLOW.
Proof.
  destruct (evaluate_refines_choice example_engine (example_command "open") example_light "power"
    (mkPolicyDecision (Some "high") PA_ALLOW "Matched policy high" true)
    (mkPolicyDecision (Some "high") PA_CONFIRM
       "Risk class restricted requires explicit operator confirmation" true)
    ltac:(vm_compute; reflexivity) ltac:(vm_compute; reflexivity)) as (_ & _ & _ & H & _).
  split; [reflexivity|]. apply H. discriminate.
Defined.

Lemma choose_policy_highest_priority_witness :
  exists p, p ∈ example_policies /\ pol_id p = "high".
Proof.
  destruct (choose_policy_highest_priority example_policies [("device_id", Some (SStr "desk"))]
    (mkPolicyDecision (Some "high") PA_ALLOW "Matched policy high" true)
    ltac:(vm_compute; reflexivity)) as [(p & Hp & _ & _ & Hd & _)|[Hd _]].
  - exists p. split; [exact Hp|]. injection Hd as Hd. congruence.
  - discriminate Hd.
Defined.
