(* ===== verification/Safety.v ===== *)
(** * Hard physical limits (runtime/safety_kernel.py)

    The kernel merges the deployment's limits into the built-in ones, keeping
    the stricter bound of each, and refuses a numeric value outside. *)

From S2P Require Import Prelude.
From S2P Require Import Values.
From S2P Require Import Models.

(** [_DEFAULT_LIMITS] *)
Definition default_limits : list SafetyLimit :=
  [mkSafetyLimit LIGHT "brightness" (Some (NInt 0)) (Some (NInt 100));
   mkSafetyLimit COVER "position" (Some (NInt 0)) (Some (NInt 100));
   mkSafetyLimit ENERGY "battery_soc" (Some (NInt 0)) (Some (NInt 100))].

Definition limit_key (l : SafetyLimit) : DeviceType * string :=
  (sl_device_type l, sl_capability l).

(** [SafetyKernel._limits] *)
Definition SafetyKernel : Type := odict (DeviceType * string) SafetyLimit.

Definition stricter_minimum (default configured : option num) : option num :=
  match default, configured with
  | None, _ => configured
  | _, None => default
  | Some d, Some c => Some (num_max d c)
  end.
Definition stricter_maximum (default configured : option num) : option num :=
  match default, configured with
  | None, _ => configured
  | _, None => default
  | Some d, Some c => Some (num_min d c)
  end.

(** One iteration of the constructor's loop; building the merged [SafetyLimit]
    runs its validator. *)
Definition add_limit (limits : SafetyKernel) (l : SafetyLimit) : result exn SafetyKernel :=
  match od_get (limit_key l) limits with
  | None => Ok (od_set (limit_key l) l limits)
  | Some d =>
      let merged := mkSafetyLimit (sl_device_type l) (sl_capability l)
                      (stricter_minimum (sl_minimum d) (sl_minimum l))
                      (stricter_maximum (sl_maximum d) (sl_maximum l)) in
      validate_safety_limit merged ≫= fun _ =>
      Ok (od_set (limit_key l) merged limits)
  end.

Fixpoint add_limits (limits : SafetyKernel) (l : list SafetyLimit) : result exn SafetyKernel :=
  match l with
  | [] => Ok limits
  | x :: l => add_limit limits x ≫= fun limits' => add_limits limits' l
  end.

(** The constructor's first dictionary comprehension. *)
Definition default_kernel : SafetyKernel :=
  fold_left (fun d l => od_set (limit_key l) l d) default_limits [].

Definition new_kernel (limits : list SafetyLimit) : result exn SafetyKernel :=
  add_limits default_kernel limits.

Definition limit_error (capability : string) (m : message) : ErrorDetail :=
  mkErrorDetail SAFETY_LIMIT_EXCEEDED m None None (Some capability) false [].

Definition check (kernel : SafetyKernel) (t : DeviceType) (capability : string)
    (value : option scalar) : option ErrorDetail :=
  match od_get (t, capability) kernel with
  | None => None
  | Some limit =>
      match value ≫= numeric with
      | None => None
      | Some v =>
          let below := match sl_minimum limit with Some m => num_lt v m | None => false end in
          let above := match sl_maximum limit with Some m => num_gt v m | None => false end in
          if below then
            Some (limit_error capability
              [Lit "Value "; Val (JNum v); Lit " is below the hard safety minimum ";
               Val (json_of_opt JNum (sl_minimum limit))])
          else if above then
            Some (limit_error capability
              [Lit "Value "; Val (JNum v); Lit " exceeds the hard safety maximum ";
               Val (json_of_opt JNum (sl_maximum limit))])
          else None
      end
  end.

(** ** Properties *)

(** A limit [l] is at least as strict as [d]: it refuses every value [d] does. *)
Definition refuses (l : SafetyLimit) (v : num) : bool :=
  match sl_minimum l with Some m => num_lt v m | None => false end ||
  match sl_maximum l with Some m => num_gt v m | None => false end.

Lemma check_refuses kernel t cap v l :
  od_get (t, cap) kernel = Some l ->
  check kernel t cap (Some (SNum v)) = None <-> refuses l v = false.
Proof.
  unfold check, refuses. intros ->. simpl.
  destruct (match sl_minimum l with Some m => num_lt v m | None => false end),
    (match sl_maximum l with Some m => num_gt v m | None => false end); simpl; done.
Qed.

(** No bound of the limit is a NaN. *)
Definition not_nan (n : num) : bool :=
  match ext_of n with ENan => false | _ => true end.
Definition nan_free (l : SafetyLimit) : bool :=
  match sl_minimum l with Some m => not_nan m | None => true end &&
  match sl_maximum l with Some m => not_nan m | None => true end.

Lemma num_lt_cotrans a b v :
  not_nan a = true -> num_lt a b = false -> num_lt v b = true -> num_lt v a = true.
Proof.
  unfold not_nan, num_lt, num_compare. intros Ha.
  destruct (ext_of v) as [| | |m1 e1], (ext_of a) as [| | |m2 e2], (ext_of b) as [| | |m3 e3];
    try done.
  set (e := Z.min e1 (Z.min e2 e3)).
  rewrite !(dyadic_compare_common _ _ _ _ e) by lia.
  repeat case_match; rewrite ?Z.compare_eq_iff, ?Z.compare_lt_iff, ?Z.compare_gt_iff in *;
    try done; lia.
Qed.

Lemma num_gt_cotrans a b v :
  not_nan a = true -> num_lt b a = false -> num_lt b v = true -> num_lt a v = true.
Proof.
  unfold not_nan, num_lt, num_compare. intros Ha.
  destruct (ext_of v) as [| | |m1 e1], (ext_of a) as [| | |m2 e2], (ext_of b) as [| | |m3 e3];
    try done.
  set (e := Z.min e1 (Z.min e2 e3)).
  rewrite !(dyadic_compare_common _ _ _ _ e) by lia.
  repeat case_match; rewrite ?Z.compare_eq_iff, ?Z.compare_lt_iff, ?Z.compare_gt_iff in *;
    try done; lia.
Qed.

Lemma num_max_stricter_r d c v :
  not_nan d = true -> num_lt v (num_max d c) = false -> num_lt v c = false.
Proof.
  unfold num_max, num_gt. intros Hd. destruct (num_lt d c) eqn:E; [done|]. intros Hv.
  destruct (num_lt v c) eqn:Ec; [|done]. by rewrite (num_lt_cotrans _ _ _ Hd E Ec) in Hv.
Qed.

Lemma num_min_stricter_r d c v :
  not_nan d = true -> num_gt v (num_min d c) = false -> num_gt v c = false.
Proof.
  unfold num_min, num_gt. intros Hd. destruct (num_lt c d) eqn:E; [done|]. intros Hv.
  destruct (num_lt c v) eqn:Ec; [|done]. by rewrite (num_gt_cotrans _ _ _ Hd E Ec) in Hv.
Qed.

Definition merge_limit (d c : SafetyLimit) : SafetyLimit :=
  mkSafetyLimit (sl_device_type c) (sl_capability c)
    (stricter_minimum (sl_minimum d) (sl_minimum c))
    (stricter_maximum (sl_maximum d) (sl_maximum c)).

Lemma merged_refuses_default d c v :
  refuses (merge_limit d c) v = false -> refuses d v = false.
Proof.
  unfold refuses, merge_limit; simpl. intros [Hlo Hhi]%orb_false_iff. apply orb_false_iff.
  destruct (sl_minimum d), (sl_minimum c), (sl_maximum d), (sl_maximum c); simpl in *;
    eauto using num_max_stricter, num_min_stricter.
Qed.

Lemma merged_refuses_configured d c v :
  nan_free d = true -> refuses (merge_limit d c) v = false -> refuses c v = false.
Proof.
  unfold nan_free, refuses, merge_limit; simpl. intros [Hn1 Hn2]%andb_true_iff.
  intros [Hlo Hhi]%orb_false_iff. apply orb_false_iff.
  destruct (sl_minimum d), (sl_minimum c), (sl_maximum d), (sl_maximum c); simpl in *;
    eauto using num_max_stricter_r, num_min_stricter_r.
Qed.

Lemma merged_nan_free d c :
  nan_free d = true -> nan_free c = true -> nan_free (merge_limit d c) = true.
Proof.
  unfold nan_free, merge_limit; simpl. rewrite !andb_true_iff. intros [? ?] [? ?].
  destruct (sl_minimum d), (sl_minimum c), (sl_maximum d), (sl_maximum c); simpl;
    unfold num_max, num_min; repeat case_match; auto.
Qed.

(** The kernel refuses everything the limit [l] refuses. *)
Definition enforces (k : SafetyKernel) (l : SafetyLimit) : Prop :=
  exists m, od_get (limit_key l) k = Some m /\ forall v, refuses m v = false -> refuses l v = false.
Definition kernel_nan_free (k : SafetyKernel) : Prop :=
  forall key m, od_get key k = Some m -> nan_free m = true.

Lemma add_limit_cases k x k' :
  add_limit k x = Ok k' ->
  exists m, k' = od_set (limit_key x) m k /\
    ((od_get (limit_key x) k = None /\ m = x) \/
     (exists d, od_get (limit_key x) k = Some d /\ m = merge_limit d x)).
Proof.
  unfold add_limit. destruct (od_get (limit_key x) k) as [d|] eqn:E.
  - intros (u & _ & [= <-])%result_bind_ok. exists (merge_limit d x). eauto.
  - intros [= <-]. exists x. eauto.
Qed.

Lemma add_limit_enforces k x k' l : add_limit k x = Ok k' -> enforces k l -> enforces k' l.
Proof.
  intros (m & -> & Hm)%add_limit_cases (ml & Hl & Hr). unfold enforces.
  rewrite od_get_set. case_decide as Hk; [|eauto]. rewrite Hk in Hl.
  destruct Hm as [[Hn _]|(d & Hd & ->)]; [congruence|].
  exists (merge_limit d x). split; [done|]. intros v Hv%merged_refuses_default.
  apply Hr. congruence.
Qed.

Lemma add_limit_new k x k' :
  add_limit k x = Ok k' -> kernel_nan_free k -> enforces k' x.
Proof.
  intros (m & -> & Hm)%add_limit_cases Hn. unfold enforces. rewrite od_get_set_eq.
  exists m. split; [done|]. intros v Hv.
  destruct Hm as [[_ ->]|(d & Hd & ->)]; [done|].
  eapply merged_refuses_configured; [|done]. by eapply Hn.
Qed.

Lemma add_limit_nan_free k x k' :
  add_limit k x = Ok k' -> nan_free x = true -> kernel_nan_free k -> kernel_nan_free k'.
Proof.
  intros (m & -> & Hm)%add_limit_cases Hx Hn key m'. rewrite od_get_set.
  case_decide; [|by apply Hn]. intros [= <-].
  destruct Hm as [[_ ->]|(d & Hd & ->)]; [done|]. apply merged_nan_free; [by eapply Hn|done].
Qed.

Lemma add_limits_enforces k l k' x : add_limits k l = Ok k' -> enforces k x -> enforces k' x.
Proof.
  revert k. induction l as [|y l IH]; simpl; intros k; [by intros [= <-]|].
  intros (k1 & H1 & H2)%result_bind_ok Hk. eapply IH; [done|]. by eapply add_limit_enforces.
Qed.

Lemma add_limits_new k l k' x :
  add_limits k l = Ok k' -> kernel_nan_free k -> Forall (fun y => nan_free y = true) l ->
  x ∈ l -> enforces k' x.
Proof.
  revert k. induction l as [|y l IH]; simpl; intros k; [set_solver|].
  intros (k1 & H1 & H2)%result_bind_ok Hk [Hy Hl]%Forall_cons [->|Hx]%elem_of_cons.
  - eapply add_limits_enforces; [done|]. by eapply add_limit_new.
  - eapply IH; try done. by eapply add_limit_nan_free.
Qed.

Lemma enforces_check k l v :
  enforces k l -> check k (sl_device_type l) (sl_capability l) (Some (SNum v)) = None ->
  refuses l v = false.
Proof.
  intros (m & Hm & Hr) Hc. apply Hr. by eapply check_refuses.
Qed.

(** Whatever limits a deployment configures, a numeric value the kernel
    lets through respects every built-in bound (configuration can tighten the
    defaults, never widen them) and every configured limit, provided no
    configured bound is a NaN. *)
Theorem kernel_enforces_all_limits limits k t capability v :
  new_kernel limits = Ok k ->
  check k t capability (Some (SNum v)) = None ->
  (forall l, l ∈ default_limits -> limit_key l = (t, capability) -> refuses l v = false) /\
  (Forall (fun l => nan_free l = true) limits ->
   forall l, l ∈ limits -> limit_key l = (t, capability) -> refuses l v = false).
Proof.
  unfold new_kernel. intros Hk Hc.
  assert (Hkey : forall l, limit_key l = (t, capability) -> enforces k l -> refuses l v = false).
  { intros l [= <- <-] He. by apply (enforces_check k). }
  split; intros; apply Hkey; try done.
  - eapply add_limits_enforces; [done|].
    unfold default_limits in *.
    repeat match goal with H : l ∈ _ |- _ =>
      first [apply elem_of_cons in H as [->|H] | by apply elem_of_nil in H] end;
      eexists; (split; [vm_compute; reflexivity|done]).
  - eapply add_limits_new; try done. intros key m Hm%od_get_elem. vm_compute in Hm.
    repeat first [apply elem_of_cons in Hm as [[= -> ->]|Hm]; [done|] | by apply elem_of_nil in Hm].
Qed.

Lemma kernel_enforces_all_limits_witness :
  num_lt (NInt 40) (NInt 20) = false /\
  refuses (mkSafetyLimit LIGHT "brightness" (Some (NInt 0)) (Some (NInt 100))) (NInt 40) = false.
Proof.
  destruct (kernel_enforces_all_limits
    [mkSafetyLimit LIGHT "brightness" (Some (NInt 20)) (Some (NInt 500))]
    [((LIGHT, "brightness"),
        mkSafetyLimit LIGHT "brightness" (Some (NInt 20)) (Some (NInt 100)));
     ((COVER, "position"), mkSafetyLimit COVER "position" (Some (NInt 0)) (Some (NInt 100)));
     ((ENERGY, "battery_soc"),
        mkSafetyLimit ENERGY "battery_soc" (Some (NInt 0)) (Some (NInt 100)))]
    LIGHT "brightness" (NInt 40) ltac:(vm_compute; reflexivity) ltac:(vm_compute; reflexivity))
    as [H1 _].
  split; [reflexivity|]. apply H1; [unfold default_limits; set_solver|reflexivity].
Defined.
