(* ===== verification/StateStore.v ===== *)
(** * Freshness-aware state store (runtime/state_store.py)

    The store keeps, per (device, capability), the snapshot the runtime
    answers with, the observation of every source behind it, and a version that
    plans pin.  Every mutation builds a candidate copy, persists it and only
    then installs it; [PersistOutcome] is what the bound writer and the event
    loop did with that write.  [now] is the reading of the injected clock and
    [stale_after] the configured freshness bound. *)

From S2P Require Import Prelude.
From S2P Require Import Values.
From S2P Require Import Models.

(** (device_id, capability), or (source_id, stream_id) for a stream *)
Abbreviation key := (string * string)%type.
(** (device_id, capability, adapter_id, external_id) *)
Abbreviation source_key := (key * key)%type.

Record StateStoreMetadata := mkMetadata {
  md_inventory_revision : Z;
  md_version_counter : Z;
  md_state_versions : gmap key Z;
  md_inventory_fingerprint : option string;
  md_source_cursors : gmap key SourceCursor;
  md_source_ordering_policies : gmap key SourceOrderingPolicy;
  md_resync_required : gmap key string
}.

(** [_StateCandidate]: the fields of the store a mutation may change. *)
Record StateCandidate := mkCandidate {
  sc_snapshots : odict key StateSnapshot;
  sc_source_snapshots : odict source_key StateSnapshot;
  sc_inventory_revision : Z;
  sc_inventory_fingerprint : option string;
  sc_state_versions : gmap key Z;
  sc_version_counter : Z;
  sc_startup_reconfirmation : gmap key (option scalar * StateStatus);
  sc_source_cursors : gmap key SourceCursor;
  sc_source_ordering_policies : gmap key SourceOrderingPolicy;
  sc_resync_required : gmap key string
}.
#[global] Instance StateCandidate_eta : Eta StateCandidate := fun r =>
  mkCandidate (sc_snapshots r) (sc_source_snapshots r) (sc_inventory_revision r)
    (sc_inventory_fingerprint r) (sc_state_versions r) (sc_version_counter r)
    (sc_startup_reconfirmation r) (sc_source_cursors r) (sc_source_ordering_policies r)
    (sc_resync_required r).

(** [StateStore]; [st_data] holds the fields [_candidate] copies and
    [_install_candidate] assigns back. *)
Record StateStore := mkStore {
  st_data : StateCandidate;
  st_durability_status : string;
  st_persistence_bound : bool;
  st_pending_metadata_before : option (Z * option string)
}.
#[global] Instance StateStore_eta : Eta StateStore := fun r =>
  mkStore (st_data r) (st_durability_status r) (st_persistence_bound r)
    (st_pending_metadata_before r).

Definition empty_candidate : StateCandidate := mkCandidate [] [] 0 None ∅ 0 ∅ ∅ ∅ ∅.
Definition empty_store : StateStore := mkStore empty_candidate "committed" false None.

Definition snap_key (s : StateSnapshot) : key := (ss_device_id s, ss_capability s).
Definition snap_source_key (s : StateSnapshot) : source_key :=
  (snap_key s, ref_key (ss_source_ref s)).
Definition cursor_stream (c : SourceCursor) : key := (cu_source_id c, cu_stream_id c).

(** ** Metadata *)

Definition state_version (s : StateStore) (device capability : string) : Z :=
  default 0 (sc_state_versions (st_data s) !! (device, capability)).

(** [f"rev-{self._revision}"] *)
Definition runtime_revision (s : StateStore) : string :=
  "rev-" +:+ pretty (sc_inventory_revision (st_data s)).

Definition remember_metadata_before_mutation (s : StateStore) : StateStore :=
  match st_pending_metadata_before s with
  | Some _ => s
  | None => s <| st_pending_metadata_before :=
      Some (sc_inventory_revision (st_data s), sc_inventory_fingerprint (st_data s)) |>
  end.

Definition begin_revision (s : StateStore) : StateStore :=
  let s := remember_metadata_before_mutation s in
  s <| st_data := (st_data s) <| sc_inventory_revision := sc_inventory_revision (st_data s) + 1 |> |>.

Definition record_inventory_fingerprint (fingerprint : string) (s : StateStore) : StateStore :=
  let s := remember_metadata_before_mutation s in
  s <| st_data := (st_data s) <| sc_inventory_fingerprint := Some fingerprint |> |>.

Definition confirm_metadata_persisted (s : StateStore) : StateStore :=
  s <| st_pending_metadata_before := None |>.

Definition rollback_metadata_mutation (s : StateStore) : StateStore :=
  match st_pending_metadata_before s with
  | None => s
  | Some (revision, fingerprint) =>
      s <| st_data := (st_data s) <| sc_inventory_revision := revision |>
                                  <| sc_inventory_fingerprint := fingerprint |> |>
        <| st_pending_metadata_before := None |>
  end.

(** [_metadata_for] and [export_metadata] *)
Definition metadata_for (c : StateCandidate) : StateStoreMetadata :=
  mkMetadata (sc_inventory_revision c) (sc_version_counter c) (sc_state_versions c)
    (sc_inventory_fingerprint c) (sc_source_cursors c) (sc_source_ordering_policies c)
    (sc_resync_required c).
Definition export_metadata (s : StateStore) : StateStoreMetadata := metadata_for (st_data s).

(** [max(m.values(), default=0)] *)
Definition max_version (m : gmap key Z) : Z :=
  match map_to_list m with
  | [] => 0
  | (_, v) :: l => fold_left (fun acc kv => Z.max acc (snd kv)) l v
  end.

Definition restore_metadata (m : StateStoreMetadata) (s : StateStore) : StateStore :=
  s <| st_data := (st_data s)
    <| sc_inventory_revision := Z.max 0 (md_inventory_revision m) |>
    <| sc_version_counter :=
         Z.max (md_version_counter m) (max_version (md_state_versions m)) |>
    <| sc_state_versions := filter (fun '(_, v) => 0 <= v) (md_state_versions m) |>
    <| sc_inventory_fingerprint := md_inventory_fingerprint m |>
    <| sc_source_cursors := md_source_cursors m |>
    <| sc_source_ordering_policies := md_source_ordering_policies m |>
    <| sc_resync_required := md_resync_required m |> |>.

(** One pass of [load_persisted]: the last known state comes back stale. *)
Definition load_one (c : StateCandidate) (snapshot : StateSnapshot) : StateCandidate :=
  let stale := snapshot <| ss_status := STALE |> in
  let k := snap_key stale in
  let c := c <| sc_source_snapshots := od_set (snap_source_key stale) stale (sc_source_snapshots c) |> in
  let c :=
    match sc_state_versions c !! k with
    | Some _ => c
    | None =>
        let n := sc_version_counter c + 1 in
        c <| sc_version_counter := n |> <| sc_state_versions := <[k := n]> (sc_state_versions c) |>
    end in
  c <| sc_startup_reconfirmation :=
         <[k := (ss_value snapshot, ss_status snapshot)]> (sc_startup_reconfirmation c) |>
    <| sc_snapshots := od_set k stale (sc_snapshots c) |>.

Definition load_persisted (snapshots : list StateSnapshot) (s : StateStore) : StateStore :=
  s <| st_data := fold_left load_one snapshots (st_data s) |>.

(** ** Committing a candidate *)

(** What happened to the durable write: it committed; it committed while the
    caller was being cancelled; it failed. *)
Inductive PersistOutcome := Persisted | Interrupted | PersistFailed.
#[global] Instance PersistOutcome_eq_dec : EqDecision PersistOutcome.
Proof. solve_decision. Defined.

(** [_commit_candidate] and [_commit_delete_candidate].  Without a bound writer
    there is no write to fail. *)
Definition commit_candidate (io : PersistOutcome) (c : StateCandidate) : stm StateStore exn unit :=
  fun s =>
    if bool_decide (io = PersistFailed) && st_persistence_bound s then
      (Err PersistenceError, rollback_metadata_mutation (s <| st_durability_status := "degraded" |>))
    else
      let s' := s <| st_data := c |> <| st_pending_metadata_before := None |>
                  <| st_durability_status := "committed" |> in
      match io with
      | Interrupted => (Err CancelledError, s')
      | _ => (Ok tt, s')
      end.

(** ** Resolving several sources *)

Definition is_current (s : StateSnapshot) : bool := bool_decide (ss_status s = CURRENT).
Definition is_invalid (s : StateSnapshot) : bool := bool_decide (ss_status s = INVALID).

(** [max(l, key=lambda item: item.received_at)] *)
Definition latest (l : list StateSnapshot) : option StateSnapshot :=
  match l with [] => None | x :: l => Some (max_by ss_received_at x l) end.

Definition invalidate (s : StateSnapshot) : StateSnapshot :=
  s <| ss_value := None |> <| ss_status := INVALID |>.

(** The observations of [k].  [source_snapshots or self._source_snapshots] picks
    [own] for an empty argument. *)
Definition observations_of (own sources : odict source_key StateSnapshot) (k : key)
    : list StateSnapshot :=
  map snd (List.filter (fun '(sk, _) => bool_decide (fst sk = k))
             (match sources with [] => own | _ => sources end)).

(** [repr] of two scalars is equal exactly when they are the same value of the
    same type. *)
Definition resolve_sources (own sources : odict source_key StateSnapshot) (k : key)
    : result exn StateSnapshot :=
  let observations := observations_of own sources k in
  match observations with
  | [] => Err KeyError
  | first :: others =>
      match latest (List.filter is_invalid observations) with
      | Some worst => Ok worst
      | None =>
          let current := List.filter is_current observations in
          match latest current with
          | Some newest =>
              if Nat.leb 2 (List.length current) &&
                 Nat.ltb 1 (List.length (dedup (map ss_value current)))
              then Ok (invalidate newest)
              else Ok newest
          | None => Ok (max_by ss_received_at first others)
          end
      end
  end.

(** ** Saving observations *)

Definition normalize_snapshot (s : StateSnapshot) : result exn StateSnapshot :=
  let s' := match ss_status s with
            | INVALID | UNAVAILABLE => s <| ss_value := None |>
            | _ => s
            end in
  validate_snapshot s' ≫= fun _ => Ok s'.

Definition unordered_stream_id : string := "unordered".

(** The first loop of [_save_many_unlocked]: the cursor of each stream in the
    batch, and the ordering policy of the sources without one. *)
Fixpoint group_batch (batch : list StateSnapshot)
    (policies : gmap key SourceOrderingPolicy) (cursors : odict key SourceCursor)
    : result exn (gmap key SourceOrderingPolicy * odict key SourceCursor) :=
  match batch with
  | [] => Ok (policies, cursors)
  | s :: batch =>
      match ss_source_cursor s with
      | None =>
          group_batch batch
            (<[(sr_adapter_id (ss_source_ref s), unordered_stream_id) := UNORDERED]> policies)
            cursors
      | Some c =>
          raise_if
            (match od_get (cursor_stream c) cursors with
             | Some p => negb (String.eqb (cu_epoch p) (cu_epoch c)) ||
                         negb (cu_sequence p =? cu_sequence c)
             | None => false
             end)
            (ValueError "a state batch must use one cursor per source stream") ≫= fun _ =>
          group_batch batch policies (od_set (cursor_stream c) c cursors)
      end
  end.

Inductive CursorDecision := CD_ACCEPT | CD_IGNORE | CD_REJECT.
#[global] Instance CursorDecision_eq_dec : EqDecision CursorDecision.
Proof. solve_decision. Defined.

Definition ordered_cursor_decision (stream : key) (cursor : SourceCursor)
    (source_cursors : gmap key SourceCursor) (resync_required : gmap key string)
    : CursorDecision :=
  if opt_bool (resync_required !! stream) && negb (cu_resync cursor) then CD_IGNORE
  else if cu_resync cursor then CD_ACCEPT
  else
    match source_cursors !! stream with
    | None => CD_ACCEPT
    | Some previous =>
        if negb (String.eqb (cu_epoch cursor) (cu_epoch previous)) then CD_REJECT
        else if cu_sequence cursor <=? cu_sequence previous then CD_IGNORE
        else if negb (cu_sequence cursor =? cu_sequence previous + 1) then CD_REJECT
        else CD_ACCEPT
    end.

(** The snapshot was published under a cursor of this stream. *)
Definition on_stream (stream : key) (s : StateSnapshot) : bool :=
  match ss_source_cursor s with
  | Some c => bool_decide (cursor_stream c = stream)
  | None => false
  end.

(** A fresh version for [k]. *)
Definition bump_version (k : key) (c : StateCandidate) : StateCandidate :=
  let n := sc_version_counter c + 1 in
  c <| sc_version_counter := n |> <| sc_state_versions := <[k := n]> (sc_state_versions c) |>.

(** One pass of the second loop of [_mark_stream_resync_required]. *)
Definition invalidate_key (c : StateCandidate) (k : key) : StateCandidate :=
  match od_get k (sc_snapshots c) with
  | None => c
  | Some current => bump_version k (c <| sc_snapshots := od_set k (invalidate current) (sc_snapshots c) |>)
  end.

Definition update_sources (p : source_key -> StateSnapshot -> bool)
    (f : StateSnapshot -> StateSnapshot) (d : odict source_key StateSnapshot)
    : odict source_key StateSnapshot :=
  map (fun '(sk, s) => (sk, if p sk s then f s else s)) d.

(** The keys of the sources [p] selects, each once. *)
Definition source_keys_of (p : source_key -> StateSnapshot -> bool)
    (d : odict source_key StateSnapshot) : list key :=
  dedup (map (fun '(sk, _) => fst sk) (List.filter (fun '(sk, s) => p sk s) d)).

Section StateStore.
(** Python iterates a [set] of keys in an unspecified order. *)
Context (set_order : list key -> list key).

Definition mark_stream_resync_required (c : StateCandidate) (stream : key) (reason : string)
    : StateCandidate :=
  let hit := fun (_ : source_key) s => on_stream stream s in
  let affected := source_keys_of hit (sc_source_snapshots c) in
  let c := c <| sc_resync_required := <[stream := reason]> (sc_resync_required c) |>
             <| sc_source_snapshots := update_sources hit invalidate (sc_source_snapshots c) |> in
  fold_left invalidate_key (set_order affected) c.

(** The decision loop: the candidate, the streams still accepted, and whether
    some cursor was rejected. *)
Definition decide_stream (acc : StateCandidate * list key * bool) (entry : key * SourceCursor)
    : StateCandidate * list key * bool :=
  let '(c, grouped, rejected) := acc in
  let '(stream, cursor) := entry in
  match ordered_cursor_decision stream cursor (sc_source_cursors c) (sc_resync_required c) with
  | CD_REJECT =>
      let reason :=
        match sc_source_cursors c !! stream with
        | Some p => if negb (String.eqb (cu_epoch p) (cu_epoch cursor)) then "epoch_changed"
                    else "sequence_gap"
        | None => "sequence_gap"
        end in
      (mark_stream_resync_required c stream reason, grouped, true)
  | CD_IGNORE => (c, List.filter (fun k => negb (bool_decide (k = stream))) grouped, rejected)
  | CD_ACCEPT =>
      (c <| sc_source_ordering_policies :=
              <[stream := ORDERED]> (sc_source_ordering_policies c) |>, grouped, rejected)
  end.

Definition is_older_unordered_observation (s : StateSnapshot) (c : StateCandidate) : bool :=
  match od_get (snap_source_key s) (sc_source_snapshots c) with
  | None => false
  | Some previous =>
      if negb (is_current s) then ss_received_at s <? ss_received_at previous
      else (ss_received_at s <? ss_received_at previous) ||
           ((ss_received_at s =? ss_received_at previous) &&
            (ss_observed_at s <? ss_observed_at previous))
  end.

Definition accepted (grouped : list key) (c : StateCandidate) (s : StateSnapshot) : bool :=
  match ss_source_cursor s with
  | Some cu => bool_decide (cursor_stream cu ∈ grouped)
  | None => negb (is_older_unordered_observation s c)
  end.

(** Advance the cursors of the accepted streams. *)
Definition advance_cursor (grouped : list key) (c : StateCandidate) (entry : key * SourceCursor)
    : StateCandidate :=
  let '(stream, cursor) := entry in
  if bool_decide (stream ∈ grouped) then
    let c := c <| sc_source_cursors := <[stream := cursor]> (sc_source_cursors c) |> in
    if cu_resync cursor
    then c <| sc_resync_required := delete stream (sc_resync_required c) |> else c
  else c.

(** [(a.value, a.status) == (v, st)] *)
Definition same_visible (a : StateSnapshot) (v : option scalar * StateStatus) : bool :=
  opt_scalar_eqb (ss_value a) (fst v) && bool_decide (ss_status a = snd v).

(** One pass of the apply loop. *)
Definition apply_snapshot (own : odict source_key StateSnapshot) (c : StateCandidate)
    (s : StateSnapshot) : result exn StateCandidate :=
  let k := snap_key s in
  let previous := od_get k (sc_snapshots c) in
  let c := c <| sc_source_snapshots := od_set (snap_source_key s) s (sc_source_snapshots c) |> in
  resolve_sources own (sc_source_snapshots c) k ≫= fun resolved =>
  let changed :=
    match sc_startup_reconfirmation c !! k with
    | Some startup => negb (same_visible resolved startup)
    | None =>
        match previous with
        | None => true
        | Some p => negb (same_visible resolved (ss_value p, ss_status p))
        end
    end in
  let c := c <| sc_startup_reconfirmation := delete k (sc_startup_reconfirmation c) |> in
  let c := if changed then bump_version k c else c in
  Ok (c <| sc_snapshots := od_set k resolved (sc_snapshots c) |>).

Fixpoint apply_all (own : odict source_key StateSnapshot) (c : StateCandidate)
    (l : list StateSnapshot) : result exn StateCandidate :=
  match l with
  | [] => Ok c
  | s :: l => apply_snapshot own c s ≫= fun c => apply_all own c l
  end.

(** What a batch makes of the candidate: nothing to commit, or a candidate to
    commit. *)
Definition plan_batch (c : StateCandidate) (batch : list StateSnapshot)
    : result exn (option StateCandidate) :=
  result_map normalize_snapshot batch ≫= fun normalized =>
  if bool_decide (normalized = []) then Ok (Some c)
  else
    group_batch normalized (sc_source_ordering_policies c) [] ≫= fun '(policies, cursors) =>
    let c1 := c <| sc_source_ordering_policies := policies |> in
    let '(c2, grouped, rejected) :=
      fold_left decide_stream cursors (c1, od_keys cursors, false) in
    if rejected then Ok (Some c2)
    else
      let todo := List.filter (accepted grouped c2) normalized in
      if bool_decide (todo = []) then Ok None
      else
        let c3 := fold_left (advance_cursor grouped) cursors c2 in
        Some <$> apply_all (sc_source_snapshots c) c3 todo.

Definition save_many (io : PersistOutcome) (batch : list StateSnapshot)
    : stm StateStore exn unit :=
  s ← get_st;
  r ← lift (plan_batch (st_data s) batch);
  match r with
  | None => mret tt
  | Some c => commit_candidate io c
  end.

Definition save (io : PersistOutcome) (s : StateSnapshot) : stm StateStore exn unit :=
  save_many io [s].

(** ** Removing state *)

Definition drop_key (c : StateCandidate) (k : key) : StateCandidate :=
  c <| sc_snapshots := od_del k (sc_snapshots c) |>
    <| sc_state_versions := delete k (sc_state_versions c) |>
    <| sc_startup_reconfirmation := delete k (sc_startup_reconfirmation c) |>.

Definition delete_device (io : PersistOutcome) (device : string) : stm StateStore exn unit :=
  s ← get_st;
  let c := st_data s in
  let keys := List.filter (fun k => String.eqb (fst k) device) (od_keys (sc_snapshots c)) in
  let c := fold_left drop_key keys c in
  commit_candidate io
    (c <| sc_source_snapshots :=
         List.filter (fun '(sk, _) => negb (String.eqb (fst (fst sk)) device))
           (sc_source_snapshots c) |>).

Definition delete_capability (io : PersistOutcome) (device capability : string)
    : stm StateStore exn bool :=
  s ← get_st;
  let c := st_data s in
  let k := (device, capability) in
  let existed := od_mem k (sc_snapshots c) ||
    existsb (fun '(sk, _) => bool_decide (fst sk = k)) (sc_source_snapshots c) in
  if negb existed then mret false
  else
    let c := drop_key c k in
    commit_candidate io
      (c <| sc_source_snapshots :=
           List.filter (fun '(sk, _) => negb (bool_decide (fst sk = k)))
             (sc_source_snapshots c) |>) ≫= fun _ => mret true.

(** [prune_capabilities]; the [i]-th removal meets the outcome [io i]. *)
Fixpoint prune_loop (io : nat -> PersistOutcome) (device : string) (removed : list string)
    : stm StateStore exn unit :=
  match removed with
  | [] => mret tt
  | capability :: rest =>
      delete_capability (io O) device capability ≫= fun _ =>
      prune_loop (fun i => io (S i)) device rest
  end.
Definition prune_capabilities (io : nat -> PersistOutcome) (device : string)
    (capabilities : list string) : stm StateStore exn (list string) :=
  s ← get_st;
  let removed :=
    map snd (List.filter
      (fun k => String.eqb (fst k) device && negb (bool_decide (snd k ∈ capabilities)))
      (od_keys (sc_snapshots (st_data s)))) in
  prune_loop io device removed ≫= fun _ => mret removed.

Definition in_household (household : string) (s : StateSnapshot) : bool :=
  let h := au_household_id (ss_authority s) in
  String.eqb household "default" || String.eqb h household || String.eqb h "default".

Definition forget_household (household : string) : stm StateStore exn Z :=
  s ← get_st;
  let c := st_data s in
  let keys := map fst (List.filter (fun '(_, x) => in_household household x) (sc_snapshots c)) in
  let source_keys :=
    map fst (List.filter (fun '(_, x) => in_household household x) (sc_source_snapshots c)) in
  let c' := fold_left drop_key keys c in
  let c' := c' <| sc_source_snapshots :=
              fold_left (fun d sk => od_del sk d) source_keys (sc_source_snapshots c') |> in
  let c' := if bool_decide (keys = []) && bool_decide (source_keys = []) then c'
            else c' <| sc_inventory_revision := sc_inventory_revision c' + 1 |> in
  put_st (s <| st_data := c' <| sc_source_cursors := ∅ |> <| sc_source_ordering_policies := ∅ |>
                             <| sc_resync_required := ∅ |> <| sc_inventory_fingerprint := None |> |>)
  ≫= fun _ => mret (Z.of_nat (List.length keys)).

(** ** Reading *)

(** [get] and [peek] *)
Definition get (s : StateStore) (device capability : string) : option StateSnapshot :=
  od_get (device, capability) (sc_snapshots (st_data s)).
Definition all (s : StateStore) : list StateSnapshot := od_values (sc_snapshots (st_data s)).

Definition effective_status (stale_after : timedelta) (now : datetime) (s : StateSnapshot)
    : StateStatus :=
  if negb (is_current s) then ss_status s
  else if (now <? ss_observed_at s) || (now <? ss_received_at s) then INVALID
  else if stale_after <? now - ss_received_at s then STALE
  else CURRENT.

Definition effective_snapshot (stale_after : timedelta) (now : datetime) (s : StateSnapshot)
    : StateSnapshot :=
  let status := effective_status stale_after now s in
  if bool_decide (status = INVALID) && is_current s then
    s <| ss_status := status |> <| ss_value := None |>
  else if bool_decide (status = ss_status s) then s
  else s <| ss_status := status |>.

Record FreshnessReport := mkFreshnessReport {
  fr_status : string;
  fr_max_age : option timedelta;
  fr_stale_after : timedelta;
  fr_required_count : Z;
  fr_optional_count : Z;
  fr_reason_codes : list string
}.

Definition freshness_report (stale_after : timedelta) (now : datetime)
    (optional_sources : list key) (s : StateStore) : FreshnessReport :=
  let projected := map (effective_snapshot stale_after now) (all s) in
  let is_optional := fun x => bool_decide (ref_key (ss_source_ref x) ∈ optional_sources) in
  let required := List.filter (fun x => negb (is_optional x)) projected in
  let optional := List.filter is_optional projected in
  let has := fun st l => existsb (fun x => bool_decide (ss_status x = st)) l in
  let status :=
    if bool_decide (required = []) then "unknown"
    else if has INVALID required || has UNAVAILABLE required then "degraded"
    else if has STALE required then "stale"
    else "current" in
  let reasons :=
    (if has INVALID required then ["state_invalid"] else []) ++
    (if has UNAVAILABLE required then ["state_unavailable"] else []) ++
    (if has STALE required then ["state_stale"] else []) ++
    (if has INVALID optional then ["optional_state_invalid"] else []) ++
    (if has UNAVAILABLE optional then ["optional_state_unavailable"] else []) ++
    (if has STALE optional then ["optional_state_stale"] else []) in
  let ages := map (fun x => Z.max 0 (now - ss_received_at x)) required in
  mkFreshnessReport status
    (match ages with [] => None | a :: l => Some (fold_left Z.max l a) end)
    stale_after (Z.of_nat (List.length required)) (Z.of_nat (List.length optional)) reasons.

Definition max_state_age (now : datetime) (s : StateStore) : option timedelta :=
  match map (fun x => now - ss_received_at x) (all s) with
  | [] => None
  | a :: l => Some (Z.max 0 (fold_left Z.max l a))
  end.

(** ** Ageing and source loss *)

(** One pass of [mark_stale]. *)
Definition stale_one (stale_after : timedelta) (now : datetime)
    (acc : StateCandidate * list StateSnapshot) (entry : key * StateSnapshot)
    : StateCandidate * list StateSnapshot :=
  let '(c, out) := acc in
  let '(k, s) := entry in
  if is_current s && bool_decide (effective_status stale_after now s = STALE) then
    let updated := s <| ss_status := STALE |> in
    let c := bump_version k (c <| sc_snapshots := od_set k updated (sc_snapshots c) |>) in
    (c <| sc_source_snapshots :=
           update_sources (fun sk x => bool_decide (fst sk = k) &&
                                       bool_decide (ss_source_ref x = ss_source_ref s))
             (fun _ => updated) (sc_source_snapshots c) |>, out ++ [updated])
  else acc.

Definition mark_stale (stale_after : timedelta) (now : datetime) (io : PersistOutcome)
    : stm StateStore exn (list StateSnapshot) :=
  s ← get_st;
  let c := st_data s in
  let '(c', out) := fold_left (stale_one stale_after now) (sc_snapshots c) (c, []) in
  commit_candidate io c' ≫= fun _ => mret out.

Definition source_owned (adapter : string) (external : option string) (sk : source_key)
    (s : StateSnapshot) : bool :=
  String.eqb (fst (snd sk)) adapter &&
  match external with Some e => String.eqb (snd (snd sk)) e | None => true end &&
  negb (bool_decide (ss_status s = UNAVAILABLE)).

Definition unavailable (s : StateSnapshot) : StateSnapshot :=
  s <| ss_status := UNAVAILABLE |> <| ss_value := None |>.

Fixpoint resolve_keys (own : odict source_key StateSnapshot) (c : StateCandidate)
    (keys : list key) (out : list StateSnapshot)
    : result exn (StateCandidate * list StateSnapshot) :=
  match keys with
  | [] => Ok (c, out)
  | k :: keys =>
      resolve_sources own (sc_source_snapshots c) k ≫= fun resolved =>
      let c := bump_version k (c <| sc_snapshots := od_set k resolved (sc_snapshots c) |>) in
      resolve_keys own c keys (out ++ [resolved])
  end.

Definition mark_source_unavailable (adapter : string) (external : option string)
    (io : PersistOutcome) : stm StateStore exn (list StateSnapshot) :=
  s ← get_st;
  let c := st_data s in
  let affected := source_keys_of (source_owned adapter external) (sc_source_snapshots c) in
  let c1 := c <| sc_source_snapshots :=
              update_sources (source_owned adapter external) unavailable
                (sc_source_snapshots c) |> in
  r ← lift (resolve_keys (sc_source_snapshots c) c1 (set_order affected) []);
  commit_candidate io (fst r) ≫= fun _ => mret (snd r).

Definition stale_all_one (acc : StateCandidate * list StateSnapshot)
    (entry : key * StateSnapshot) : StateCandidate * list StateSnapshot :=
  let '(c, out) := acc in
  let '(k, s) := entry in
  if is_current s then
    let updated := s <| ss_status := STALE |> in
    let c := c <| sc_snapshots := od_set k updated (sc_snapshots c) |>
               <| sc_source_snapshots :=
                    update_sources (fun sk x => bool_decide (fst sk = k) && is_current x)
                      (fun x => x <| ss_status := STALE |>) (sc_source_snapshots c) |> in
    (bump_version k c, out ++ [updated])
  else acc.

Definition mark_all_stale (io : PersistOutcome) : stm StateStore exn (list StateSnapshot) :=
  s ← get_st;
  let c := st_data s in
  let '(c', out) := fold_left stale_all_one (sc_snapshots c) (c, []) in
  commit_candidate io c' ≫= fun _ => mret out.

(** [persist_metadata] *)
Definition persist_metadata (io : PersistOutcome) : stm StateStore exn unit := fun s =>
  if st_persistence_bound s then
    match io with
    | PersistFailed =>
        (Err PersistenceError,
         rollback_metadata_mutation (s <| st_durability_status := "degraded" |>))
    | _ =>
        let s' := (confirm_metadata_persisted s) <| st_durability_status := "committed" |> in
        match io with Interrupted => (Err CancelledError, s') | _ => (Ok tt, s') end
    end
  else (Ok tt, s).

(** ** One mutation of the store

    Every public coroutine that changes state, with its arguments. *)
Inductive mutation :=
  | M_save_many (batch : list StateSnapshot)
  | M_delete_device (device : string)
  | M_delete_capability (device capability : string)
  | M_mark_stale (stale_after : timedelta) (now : datetime)
  | M_mark_source_unavailable (adapter : string) (external : option string)
  | M_mark_all_stale
  | M_persist_metadata
  | M_forget_household (household : string)
  | M_begin_revision
  | M_record_inventory_fingerprint (fingerprint : string).

Definition run_mutation (m : mutation) (io : PersistOutcome) : stm StateStore exn unit :=
  match m with
  | M_save_many batch => save_many io batch
  | M_delete_device device => delete_device io device
  | M_delete_capability device capability =>
      delete_capability io device capability ≫= fun _ => mret tt
  | M_mark_stale stale_after now => mark_stale stale_after now io ≫= fun _ => mret tt
  | M_mark_source_unavailable adapter external =>
      mark_source_unavailable adapter external io ≫= fun _ => mret tt
  | M_mark_all_stale => mark_all_stale io ≫= fun _ => mret tt
  | M_persist_metadata => persist_metadata io
  | M_forget_household household => forget_household household ≫= fun _ => mret tt
  | M_begin_revision => modify begin_revision
  | M_record_inventory_fingerprint fingerprint =>
      modify (record_inventory_fingerprint fingerprint)
  end.

(** ** Versions detect changes *)

Definition version_of (c : StateCandidate) (k : key) : Z := default 0 (sc_state_versions c !! k).
Definition visible (c : StateCandidate) (k : key) : option StateSnapshot :=
  od_get k (sc_snapshots c).

(** The well-formed candidates: no version exceeds the counter, and every key
    with a snapshot or a pending reconfirmation has a version. *)
Record candidate_ok (c : StateCandidate) : Prop := {
  ok_counter : 0 <= sc_version_counter c;
  ok_bounded : forall k v, sc_state_versions c !! k = Some v -> 0 < v <= sc_version_counter c;
  ok_visible : forall k, is_Some (visible c k) -> is_Some (sc_state_versions c !! k);
  ok_startup : forall k, is_Some (sc_startup_reconfirmation c !! k) ->
                 is_Some (sc_state_versions c !! k)
}.

(** The value and status an observer reads are the same, by Python's [==]. *)
Definition same_reading (a b : option StateSnapshot) : Prop :=
  a = b \/
  match a, b with
  | Some x, Some y => same_visible y (ss_value x, ss_status x) = true
  | _, _ => False
  end.

Lemma same_reading_trans a b c : same_reading a b -> same_reading b c -> same_reading a c.
Proof.
  intros [->|H1]; [done|]. intros [->|H2]; [by right|]. right.
  destruct a, b, c; try done. unfold same_visible in *; simpl in *. destruct_ands.
  apply andb_true_iff. split; [by eapply opt_scalar_eqb_trans|].
  apply bool_decide_eq_true. congruence.
Qed.

(** [c] was reached from [c0] without losing a change of [k]: the version is
    the old one and the reading too, or the version is new, or [k] is gone. *)
Definition tracks (k : key) (c0 c : StateCandidate) : Prop :=
  sc_version_counter c0 <= sc_version_counter c /\ candidate_ok c /\
  sc_startup_reconfirmation c !! k = None /\
  ((version_of c k = version_of c0 k /\ same_reading (visible c0 k) (visible c k)) \/
   sc_version_counter c0 < version_of c k \/
   (sc_state_versions c !! k = None /\ visible c k = None)).

Lemma tracks_refl k c :
  candidate_ok c -> sc_startup_reconfirmation c !! k = None -> tracks k c c.
Proof.
  intros. split; [lia|]. split; [done|]. split; [done|]. left. split; [done|by left].
Qed.

Lemma candidate_ok_ext c c' :
  candidate_ok c -> sc_snapshots c' = sc_snapshots c ->
  sc_state_versions c' = sc_state_versions c -> sc_version_counter c' = sc_version_counter c ->
  sc_startup_reconfirmation c' = sc_startup_reconfirmation c -> candidate_ok c'.
Proof. intros [H0 H1 H2 H3] E1 E2 E3 E4. split; unfold visible; rewrite ?E1, ?E2, ?E3, ?E4; done. Qed.

Lemma tracks_ext k c0 c c' :
  tracks k c0 c -> sc_snapshots c' = sc_snapshots c ->
  sc_state_versions c' = sc_state_versions c -> sc_version_counter c' = sc_version_counter c ->
  sc_startup_reconfirmation c' = sc_startup_reconfirmation c -> tracks k c0 c'.
Proof.
  intros (H1 & H2 & H3 & H4) E1 E2 E3 E4.
  split; [lia|]. split; [by eapply candidate_ok_ext|]. unfold version_of, visible in *.
  by rewrite E1, E2, E4.
Qed.

(** A snapshot replaced under a fresh version. *)
Lemma tracks_bump k c0 c k' v :
  tracks k c0 c -> tracks k c0 (bump_version k' (c <| sc_snapshots := od_set k' v (sc_snapshots c) |>)).
Proof.
  intros (H1 & [H0 Hb Hv Hs] & H3 & H4).
  unfold tracks, bump_version, version_of, visible in *; simpl in *.
  split; [lia|]. split; [split; unfold visible; simpl; [lia|..]|].
  - intros k1 v1. rewrite lookup_insert. case_decide; [intros [= <-]; lia|].
    intros ?%Hb. lia.
  - intros k1. rewrite od_get_set, lookup_insert. repeat case_decide; subst; try done; eauto.
  - intros k1 ?%Hs. rewrite lookup_insert. case_decide; [eauto|done].
  - split; [done|]. rewrite lookup_insert, od_get_set.
    destruct (decide (k = k')) as [->|Hne].
    + rewrite decide_True by done. simpl. right. left. lia.
    + rewrite decide_False by congruence. done.
Qed.

(** A snapshot replaced by one that reads the same. *)
Lemma tracks_same k c0 c k' v p :
  tracks k c0 c -> visible c k' = Some p -> same_visible v (ss_value p, ss_status p) = true ->
  tracks k c0 (c <| sc_snapshots := od_set k' v (sc_snapshots c) |>).
Proof.
  intros (H1 & [H0 Hb Hv Hs] & H3 & H4) Hp Hsame.
  unfold tracks, version_of, visible in *; simpl.
  split; [done|]. split; [split; try done; unfold visible; simpl|].
  { intros k1. rewrite od_get_set. case_decide; subst; eauto. }
  split; [done|]. rewrite od_get_set.
  destruct (decide (k = k')) as [->|Hne]; [|done].
  destruct H4 as [[H4 H5]|[H4|[H4 H5]]]; [left|by right; left|congruence].
  split; [done|]. eapply same_reading_trans; [done|]. rewrite Hp. by right.
Qed.

(** Another key reconfirmed after startup under its old version. *)
Lemma tracks_reconfirm k c0 c k' v :
  tracks k c0 c -> k' <> k -> is_Some (sc_state_versions c !! k') ->
  tracks k c0 (c <| sc_startup_reconfirmation := delete k' (sc_startup_reconfirmation c) |>
                 <| sc_snapshots := od_set k' v (sc_snapshots c) |>).
Proof.
  intros (H1 & [H0 Hb Hv Hs] & H3 & H4) Hk Hp.
  unfold tracks, version_of, visible in *; simpl.
  split; [done|]. split; [split; unfold visible; simpl; try done|].
  - intros k1. rewrite od_get_set. case_decide; subst; eauto.
  - intros k1. rewrite lookup_delete_is_Some. intros [_ ?]; eauto.
  - by rewrite lookup_delete_ne, od_get_set_ne by done.
Qed.

Lemma tracks_forget_startup k c0 c k' :
  tracks k c0 c ->
  tracks k c0 (c <| sc_startup_reconfirmation := delete k' (sc_startup_reconfirmation c) |>).
Proof.
  intros (H1 & [H0 Hb Hv Hs] & H3 & H4). split; [done|]. split; [split; try done; simpl|].
  - intros k1. rewrite lookup_delete_is_Some. intros [_ ?]; eauto.
  - split; [|done]. simpl. rewrite lookup_delete. by case_decide.
Qed.

Lemma tracks_drop k c0 c k' : tracks k c0 c -> tracks k c0 (drop_key c k').
Proof.
  intros (H1 & [H0 Hb Hv Hs] & H3 & H4).
  unfold tracks, drop_key, version_of, visible in *; simpl.
  split; [done|]. split; [split; unfold visible; simpl; [lia|..]|].
  - intros k1 v1. rewrite lookup_delete_Some. intros [_ ?]; eauto.
  - intros k1. rewrite od_get_del. case_decide; [by intros [? ?]|].
    rewrite lookup_delete_ne by done. apply Hv.
  - intros k1. rewrite !lookup_delete_is_Some. naive_solver.
  - split; [rewrite lookup_delete; by case_decide|]. rewrite od_get_del.
    destruct (decide (k = k')) as [->|Hne].
    + right. right. by rewrite lookup_delete_eq.
    + by rewrite lookup_delete_ne.
Qed.

Ltac by_ext := eapply tracks_ext; [eassumption|reflexivity..].

Lemma tracks_fold {A} (f : StateCandidate -> A -> StateCandidate) k c0 l c :
  (forall c x, tracks k c0 c -> tracks k c0 (f c x)) ->
  tracks k c0 c -> tracks k c0 (fold_left f l c).
Proof. intros Hf. revert c. induction l; simpl; auto. Qed.

Lemma tracks_invalidate_key k c0 c x : tracks k c0 c -> tracks k c0 (invalidate_key c x).
Proof. intros H. unfold invalidate_key. case_match; [by apply tracks_bump|done]. Qed.

Lemma tracks_mark_stream_resync_required k c0 c stream reason :
  tracks k c0 c -> tracks k c0 (mark_stream_resync_required c stream reason).
Proof.
  intros H. apply tracks_fold; [intros; by apply tracks_invalidate_key|by_ext].
Qed.

Lemma tracks_decide_stream k c0 acc entry :
  tracks k c0 (fst (fst acc)) -> tracks k c0 (fst (fst (decide_stream acc entry))).
Proof.
  destruct acc as [[c g] r], entry as [stream cursor]. simpl. intros H.
  destruct (ordered_cursor_decision _ _ _ _); simpl; [by_ext|done|].
  by apply tracks_mark_stream_resync_required.
Qed.

Lemma tracks_decide_streams k c0 l acc :
  tracks k c0 (fst (fst acc)) -> tracks k c0 (fst (fst (fold_left decide_stream l acc))).
Proof. revert acc. induction l; simpl; auto using tracks_decide_stream. Qed.

Lemma tracks_advance_cursor g k c0 c entry :
  tracks k c0 c -> tracks k c0 (advance_cursor g c entry).
Proof.
  destruct entry as [stream cursor]. unfold advance_cursor. intros H.
  case_bool_decide; [|done]. destruct (cu_resync cursor); by_ext.
Qed.

Lemma tracks_apply_snapshot own k c0 c s c' :
  tracks k c0 c -> apply_snapshot own c s = Ok c' -> tracks k c0 c'.
Proof.
  intros H. unfold apply_snapshot. set (c1 := c <| sc_source_snapshots := _ |>).
  assert (H1 : tracks k c0 c1) by by_ext.
  change (sc_startup_reconfirmation c) with (sc_startup_reconfirmation c1).
  change (sc_snapshots c) with (sc_snapshots c1). clearbody c1. clear H c.
  intros (r & _ & [= <-])%result_bind_ok. set (k' := snap_key s).
  pose proof (tracks_forget_startup _ _ _ k' H1) as H2.
  destruct (sc_startup_reconfirmation c1 !! k') as [st|] eqn:Est.
  - destruct (same_visible r st); simpl negb.
    + apply (tracks_reconfirm k c0 c1 k' r H1).
      * intros ->. destruct H1 as (_ & _ & H1 & _). congruence.
      * destruct H1 as (_ & Hok & _). apply (ok_startup _ Hok). eauto.
    + by apply (tracks_bump _ _ _ k' r H2).
  - destruct (od_get k' (sc_snapshots c1)) as [p|] eqn:Ep.
    + destruct (same_visible r (ss_value p, ss_status p)) eqn:Es; simpl negb.
      * by apply (tracks_same _ _ _ k' r p H2).
      * by apply (tracks_bump _ _ _ k' r H2).
    + by apply (tracks_bump _ _ _ k' r H2).
Qed.

Lemma tracks_apply_all own k c0 l c c' :
  tracks k c0 c -> apply_all own c l = Ok c' -> tracks k c0 c'.
Proof.
  revert c. induction l as [|s l IH]; simpl; intros c H; [by intros [= <-]|].
  intros (c1 & H1 & H2)%result_bind_ok. eauto using tracks_apply_snapshot.
Qed.

Lemma tracks_plan_batch k c0 c batch c' :
  tracks k c0 c -> plan_batch c batch = Ok (Some c') -> tracks k c0 c'.
Proof.
  intros H. unfold plan_batch. intros (n & _ & Hp)%result_bind_ok.
  case_bool_decide; [by injection Hp as <-|].
  apply result_bind_ok in Hp as ([policies cursors] & _ & Hp).
  destruct (fold_left decide_stream cursors _) as [[c2 grouped] rejected] eqn:Ef.
  assert (H2 : tracks k c0 c2).
  { change c2 with (fst (fst (c2, grouped, rejected))). rewrite <- Ef.
    apply tracks_decide_streams. by_ext. }
  destruct rejected; [by injection Hp as <-|]. case_bool_decide; [done|].
  destruct (apply_all _ _ _) as [c3|] eqn:Ea; [|done]. injection Hp as <-.
  eapply tracks_apply_all; [|done]. apply tracks_fold; [|done].
  intros. by apply tracks_advance_cursor.
Qed.

Lemma tracks_resolve_keys own k c0 keys c out r :
  tracks k c0 c -> resolve_keys own c keys out = Ok r -> tracks k c0 (fst r).
Proof.
  revert c out. induction keys as [|k' keys IH]; simpl; intros c out H; [by intros [= <-]|].
  intros (x & _ & Hr)%result_bind_ok. eapply IH; [|done]. by apply tracks_bump.
Qed.

Lemma tracks_stale_one stale_after now k c0 acc entry :
  tracks k c0 (fst acc) -> tracks k c0 (fst (stale_one stale_after now acc entry)).
Proof.
  destruct acc as [c out], entry as [k' s]. simpl. intros H. case_match; [|done].
  simpl. eapply tracks_ext; [by apply (tracks_bump k c0 c k')|reflexivity..].
Qed.

Lemma tracks_stale_all_one k c0 acc entry :
  tracks k c0 (fst acc) -> tracks k c0 (fst (stale_all_one acc entry)).
Proof.
  destruct acc as [c out], entry as [k' s]. simpl. intros H. case_match; [|done].
  simpl. eapply tracks_ext; [by apply (tracks_bump k c0 c k')|reflexivity..].
Qed.

Lemma tracks_fold_acc {A B} (f : StateCandidate * B -> A -> StateCandidate * B) k c0 l acc :
  (forall acc x, tracks k c0 (fst acc) -> tracks k c0 (fst (f acc x))) ->
  tracks k c0 (fst acc) -> tracks k c0 (fst (fold_left f l acc)).
Proof. intros Hf. revert acc. induction l; simpl; auto. Qed.

(** The metadata fields do not matter. *)
Lemma tracks_rollback k c0 s :
  tracks k c0 (st_data s) -> tracks k c0 (st_data (rollback_metadata_mutation s)).
Proof. intros H. unfold rollback_metadata_mutation. repeat case_match; try done; by_ext. Qed.

Lemma tracks_commit k c0 io c s :
  tracks k c0 (st_data s) -> tracks k c0 c ->
  tracks k c0 (st_data (snd (commit_candidate io c s))).
Proof.
  intros Hs Hc. unfold commit_candidate. case_match; simpl.
  - by apply tracks_rollback.
  - by destruct io.
Qed.

(** What [commit_candidate] does, followed by a step that keeps the store. *)
Lemma commit_then {A} io c s (a : A) :
  snd ((commit_candidate io c ≫= fun _ => mret a) s) = snd (commit_candidate io c s).
Proof. unfold mbind, stm_bind. by destruct (commit_candidate io c s) as [[[]|] ?]. Qed.

Lemma fmap_unit {A} (m : stm StateStore exn A) s :
  snd ((m ≫= fun _ => mret tt) s) = snd (m s).
Proof. unfold mbind, stm_bind. by destruct (m s) as [[]]. Qed.

Lemma tracks_mutation m io k c0 s :
  tracks k c0 (st_data s) -> tracks k c0 (st_data (snd (run_mutation m io s))).
Proof.
  intros H. destruct m; unfold run_mutation; rewrite ?fmap_unit.
  - unfold save_many, mbind, stm_bind, get_st, lift; simpl.
    destruct (plan_batch _ _) as [[c|]|] eqn:E; try done.
    apply tracks_commit; [done|]. by eapply tracks_plan_batch.
  - unfold delete_device, mbind, stm_bind, get_st; simpl.
    apply tracks_commit; [done|].
    eapply tracks_ext; [apply (tracks_fold drop_key k c0); [|exact H]|reflexivity..].
    intros. by apply tracks_drop.
  - unfold delete_capability. unfold mbind at 1. unfold stm_bind, get_st. simpl.
    case_match; [done|]. rewrite commit_then.
    apply tracks_commit; [done|].
    eapply tracks_ext; [by apply (tracks_drop k c0 _ (device, capability) H)|reflexivity..].
  - unfold mark_stale. unfold mbind at 1. unfold stm_bind, get_st. simpl.
    destruct (fold_left _ _ _) as [c' out] eqn:E. rewrite commit_then.
    apply tracks_commit; [done|]. change c' with (fst (c', out)). rewrite <- E.
    apply tracks_fold_acc; [|done]. intros. by apply tracks_stale_one.
  - unfold mark_source_unavailable. unfold mbind at 1. unfold stm_bind, get_st. simpl.
    unfold mbind at 1. unfold stm_bind, lift.
    destruct (resolve_keys _ _ _ _) as [r|] eqn:E; [|done]. rewrite commit_then.
    apply tracks_commit; [done|]. eapply tracks_resolve_keys; [|exact E]. by_ext.
  - unfold mark_all_stale. unfold mbind at 1. unfold stm_bind, get_st. simpl.
    destruct (fold_left _ _ _) as [c' out] eqn:E. rewrite commit_then.
    apply tracks_commit; [done|]. change c' with (fst (c', out)). rewrite <- E.
    apply tracks_fold_acc; [|done]. intros. by apply tracks_stale_all_one.
  - unfold persist_metadata. case_match; [|done]. destruct io; simpl; try done.
    by apply tracks_rollback.
  - unfold forget_household, mbind, stm_bind, get_st, put_st. simpl.
    set (keys := map fst _).
    pose proof (tracks_fold drop_key k c0 keys (st_data s) (fun _ _ => tracks_drop k c0 _ _) H).
    case_match; by_ext.
  - unfold modify, begin_revision, remember_metadata_before_mutation. simpl.
    destruct (st_pending_metadata_before s); by_ext.
  - unfold modify, record_inventory_fingerprint, remember_metadata_before_mutation. simpl.
    destruct (st_pending_metadata_before s); by_ext.
Qed.

(** A history of the store: mutations with the fate of their writes. *)
Inductive store_history : StateStore -> StateStore -> Prop :=
  | history_nil s : store_history s s
  | history_step s m io s' :
      store_history (snd (run_mutation m io s)) s' -> store_history s s'.

Lemma tracks_history k c0 s s' :
  store_history s s' -> tracks k c0 (st_data s) -> tracks k c0 (st_data s').
Proof. induction 1; auto using tracks_mutation. Qed.

Lemma version_of_bounded c k : candidate_ok c -> version_of c k <= sc_version_counter c.
Proof.
  intros [H0 Hb _ _]. unfold version_of. destruct (sc_state_versions c !! k) eqn:E; simpl; [|lia].
  apply Hb in E. lia.
Qed.

Lemma version_of_missing c k : candidate_ok c -> version_of c k = 0 -> visible c k = None.
Proof.
  intros [H0 Hb Hv _]. unfold version_of. destruct (sc_state_versions c !! k) as [v|] eqn:E; simpl.
  - apply Hb in E. lia.
  - intros _. destruct (visible c k) eqn:Ev; [|done].
    destruct (Hv k); [by rewrite Ev|congruence].
Qed.

(** C10: a version pins a reading.  Over any history of saves, deletions,
    ageing and source losses, with any of the writes failing or interrupted,
    a key whose version is what it was shows the value and status it showed:
    so a plan that compares versions notices every change of the state it was
    validated against (also a value that went away and came back, since the
    counter never runs backwards).  Keys still waiting for their first
    observation after a restart are excluded. *)
Theorem version_pins_reading s s' device capability :
  candidate_ok (st_data s) ->
  sc_startup_reconfirmation (st_data s) !! (device, capability) = None ->
  store_history s s' ->
  candidate_ok (st_data s') /\
  sc_version_counter (st_data s) <= sc_version_counter (st_data s') /\
  (state_version s' device capability = state_version s device capability ->
   same_reading (get s device capability) (get s' device capability)).
Proof.
  intros Hok Hst Hh. pose proof (tracks_refl _ _ Hok Hst) as Ht.
  apply (tracks_history _ _ _ _ Hh) in Ht as (H1 & H2 & _ & H3).
  split; [done|]. split; [done|]. unfold state_version, get.
  fold (version_of (st_data s) (device, capability)).
  fold (version_of (st_data s') (device, capability)).
  fold (visible (st_data s) (device, capability)).
  fold (visible (st_data s') (device, capability)). intros Heq.
  destruct H3 as [[_ H3]|[H3|[H3 H4]]]; [done| |].
  - pose proof (version_of_bounded _ (device, capability) Hok). lia.
  - rewrite H4. left. apply version_of_missing; [done|]. rewrite <- Heq.
    unfold version_of. by rewrite H3.
Qed.

(** ** Every durable mutation is a plan and one commit *)

(** The candidate a mutation hands to [_commit_candidate], if any. *)
Definition mutation_plan (m : mutation) (s : StateStore) : result exn (option StateCandidate) :=
  let c := st_data s in
  match m with
  | M_save_many batch => plan_batch c batch
  | M_delete_device device =>
      let keys := List.filter (fun k => String.eqb (fst k) device) (od_keys (sc_snapshots c)) in
      let c := fold_left drop_key keys c in
      Ok (Some (c <| sc_source_snapshots :=
                       List.filter (fun '(sk, _) => negb (String.eqb (fst (fst sk)) device))
                         (sc_source_snapshots c) |>))
  | M_delete_capability device capability =>
      let k := (device, capability) in
      if od_mem k (sc_snapshots c) ||
         existsb (fun '(sk, _) => bool_decide (fst sk = k)) (sc_source_snapshots c)
      then
        let c := drop_key c k in
        Ok (Some (c <| sc_source_snapshots :=
                         List.filter (fun '(sk, _) => negb (bool_decide (fst sk = k)))
                           (sc_source_snapshots c) |>))
      else Ok None
  | M_mark_stale stale_after now =>
      Ok (Some (fst (fold_left (stale_one stale_after now) (sc_snapshots c) (c, []))))
  | M_mark_source_unavailable adapter external =>
      let affected := source_keys_of (source_owned adapter external) (sc_source_snapshots c) in
      let c1 := c <| sc_source_snapshots :=
                  update_sources (source_owned adapter external) unavailable
                    (sc_source_snapshots c) |> in
      (fun r => Some (fst r)) <$>
        resolve_keys (sc_source_snapshots c) c1 (set_order affected) []
  | M_mark_all_stale => Ok (Some (fst (fold_left stale_all_one (sc_snapshots c) (c, []))))
  | M_persist_metadata => Ok (if st_persistence_bound s then Some c else None)
  | _ => Ok None
  end.

(** The mutations that go through [_commit_candidate] (or its two twins). *)
Definition durable (m : mutation) : bool :=
  match m with
  | M_forget_household _ | M_begin_revision | M_record_inventory_fingerprint _ => false
  | _ => true
  end.

Lemma commit_then_unit {A} io c s (a : A) :
  ((commit_candidate io c ≫= fun _ => mret a) ≫= fun _ => mret tt) s = commit_candidate io c s.
Proof. unfold mbind, stm_bind, mret, stm_ret. by destruct (commit_candidate io c s) as [[[]|] ?]. Qed.

Lemma run_mutation_plan m io s :
  durable m = true ->
  run_mutation m io s =
    match mutation_plan m s with
    | Err e => (Err e, s)
    | Ok None => (Ok tt, s)
    | Ok (Some c) => commit_candidate io c s
    end.
Proof.
  destruct m; simpl; try done; intros _.
  - unfold save_many. rewrite stm_bind_get. unfold mbind, stm_bind, lift.
    by destruct (plan_batch _ _) as [[c|]|].
  - unfold mbind at 1. unfold stm_bind at 1. unfold delete_capability.
    rewrite stm_bind_get. simpl. destruct (_ || _); simpl; [|done].
    apply (commit_then_unit io _ s true).
  - unfold mbind at 1. unfold stm_bind at 1. unfold mark_stale.
    rewrite stm_bind_get. destruct (fold_left _ _ _) as [c' out].
    apply (commit_then_unit io _ s out).
  - unfold mbind at 1. unfold stm_bind at 1. unfold mark_source_unavailable.
    rewrite stm_bind_get. unfold mbind at 2. unfold stm_bind at 1. unfold lift.
    destruct (resolve_keys _ _ _ _) as [r|]; [|done]. apply (commit_then_unit io _ s (snd r)).
  - unfold mbind at 1. unfold stm_bind at 1. unfold mark_all_stale.
    rewrite stm_bind_get. destruct (fold_left _ _ _) as [c' out].
    apply (commit_then_unit io _ s out).
  - unfold persist_metadata, commit_candidate. destruct (st_persistence_bound s) eqn:E; [|done].
    destruct io; simpl; destruct s; simpl in *; by subst.
Qed.

(** What a failed write leaves: the readings, versions, cursors and pending
    resynchronisations of before; only the inventory metadata may move, back
    to what was last persisted. *)
Definition untouched (s s' : StateStore) : Prop :=
  let c := st_data s in let c' := st_data s' in
  sc_snapshots c' = sc_snapshots c /\ sc_source_snapshots c' = sc_source_snapshots c /\
  sc_state_versions c' = sc_state_versions c /\ sc_version_counter c' = sc_version_counter c /\
  sc_startup_reconfirmation c' = sc_startup_reconfirmation c /\
  sc_source_cursors c' = sc_source_cursors c /\
  sc_source_ordering_policies c' = sc_source_ordering_policies c /\
  sc_resync_required c' = sc_resync_required c.

(** C12: durable mutations are atomic.  With a bound writer: a mutation that
    raises before its write leaves the store untouched; a failed write raises
    [PersistenceError], publishes nothing and marks the store degraded; a
    cancellation that arrives while the write commits still installs exactly
    the state an undisturbed run installs, and only then is raised. *)
Theorem durable_mutation_atomic m s :
  durable m = true -> st_persistence_bound s = true ->
  let '(r, s1) := run_mutation m Persisted s in
  let '(ri, si) := run_mutation m Interrupted s in
  let '(rf, sf) := run_mutation m PersistFailed s in
  (is_ok r = false -> s1 = s) /\
  (si = s1 /\ (ri = r \/ (r = Ok tt /\ ri = Err CancelledError))) /\
  (untouched s sf /\
   ((rf = r /\ s1 = s /\ sf = s) \/
    (r = Ok tt /\ rf = Err PersistenceError /\ st_durability_status sf = "degraded"))).
Proof.
  intros Hm Hb. rewrite !run_mutation_plan by done.
  destruct (mutation_plan m s) as [[c|]|e].
  - unfold commit_candidate. rewrite Hb. simpl. split; [done|]. split; [auto|].
    split.
    { unfold untouched, rollback_metadata_mutation. simpl. by repeat case_match. }
    right. split; [done|]. split; [done|].
    unfold rollback_metadata_mutation. by repeat case_match.
  - split; [done|]. split; [auto|]. split; [done|auto].
  - split; [done|]. split; [auto|]. split; [done|auto].
Qed.

(** ** Cursors advance one step at a time *)

Lemma normalize_snapshot_cursor s s' :
  normalize_snapshot s = Ok s' ->
  ss_source_cursor s' = ss_source_cursor s /\ snap_key s' = snap_key s /\
  ss_source_ref s' = ss_source_ref s.
Proof.
  unfold normalize_snapshot. intros (u & _ & [= <-])%result_bind_ok.
  by destruct (ss_status s).
Qed.

(** The streams of a batch are those of its snapshots, each once. *)
Lemma group_batch_cursors batch policies cursors policies' cursors' :
  group_batch batch policies cursors = Ok (policies', cursors') ->
  NoDup (od_keys cursors) ->
  NoDup (od_keys cursors') /\
  (forall stream cu, (stream, cu) ∈ (cursors' : list (key * SourceCursor)) ->
     (stream, cu) ∈ (cursors : list (key * SourceCursor)) \/
     exists s, s ∈ batch /\ ss_source_cursor s = Some cu /\ stream = cursor_stream cu).
Proof.
  revert policies cursors. induction batch as [|s batch IH]; simpl; intros policies cursors.
  { intros [= <- <-] Hnd. split; [done|]. by left. }
  destruct (ss_source_cursor s) as [cu|] eqn:Ec.
  - intros (u & _ & Hg)%result_bind_ok Hnd.
    destruct (IH _ _ Hg (od_keys_set_NoDup _ _ _ Hnd)) as [H1 H2]. split; [done|].
    intros stream cu' [Hin|(x & Hx & ? & ?)]%H2; [|right; exists x; set_solver].
    apply (od_elem_get _ _ _ (od_keys_set_NoDup _ _ _ Hnd)) in Hin.
    rewrite od_get_set in Hin. destruct (decide (stream = cursor_stream cu)) as [->|].
    + right. exists s. injection Hin as <-. split; [set_solver|done].
    + left. by apply od_get_elem.
  - intros Hg Hnd. destruct (IH _ _ Hg Hnd) as [H1 H2]. split; [done|].
    intros stream cu [?|(x & ? & ? & ?)]%H2; [by left|right; exists x; set_solver].
Qed.

(** The cursor of a batch's snapshot is the cursor of its stream. *)
Lemma group_batch_covers batch policies cursors policies' cursors' :
  group_batch batch policies cursors = Ok (policies', cursors') ->
  (forall s cu, s ∈ batch -> ss_source_cursor s = Some cu ->
     exists cu', od_get (cursor_stream cu) cursors' = Some cu' /\
       cu_epoch cu' = cu_epoch cu /\ cu_sequence cu' = cu_sequence cu) /\
  (forall stream cu, od_get stream cursors = Some cu ->
     exists cu', od_get stream cursors' = Some cu' /\
       cu_epoch cu' = cu_epoch cu /\ cu_sequence cu' = cu_sequence cu).
Proof.
  revert policies cursors. induction batch as [|s batch IH]; simpl; intros policies cursors.
  { intros [= <- <-]. split; [set_solver|eauto]. }
  destruct (ss_source_cursor s) as [cu|] eqn:Ec.
  - intros (u & Hu & Hg)%result_bind_ok. apply raise_if_ok in Hu.
    destruct (IH _ _ Hg) as [H1 H2]. split.
    + intros x cu' [->|Hx]%elem_of_cons Hc; [|by eapply H1].
      rewrite Ec in Hc. injection Hc as <-. apply H2. by rewrite od_get_set_eq.
    + intros stream cu0 H0. destruct (decide (stream = cursor_stream cu)) as [->|Hne].
      * rewrite H0 in Hu. apply orb_false_iff in Hu as [He Hs].
        apply negb_false_iff in He, Hs. apply String.eqb_eq in He. apply Z.eqb_eq in Hs.
        destruct (H2 (cursor_stream cu) cu) as (cu' & ? & ? & ?); [by rewrite od_get_set_eq|].
        exists cu'. split; [done|split; congruence].
      * apply H2. by rewrite od_get_set_ne.
  - intros Hg. destruct (IH _ _ Hg) as [H1 H2]. split; [|done].
    intros x cu [->|Hx]%elem_of_cons Hc; [congruence|by eapply H1].
Qed.

Lemma fold_invalidate_key_cursors l c :
  sc_source_cursors (fold_left invalidate_key l c) = sc_source_cursors c /\
  sc_resync_required (fold_left invalidate_key l c) = sc_resync_required c /\
  sc_source_snapshots (fold_left invalidate_key l c) = sc_source_snapshots c.
Proof.
  revert c. induction l as [|x l IH]; intros c; [done|]. simpl.
  destruct (IH (invalidate_key c x)) as (-> & -> & ->). unfold invalidate_key. by case_match.
Qed.

Lemma decide_stream_cursors acc entry :
  sc_source_cursors (fst (fst (decide_stream acc entry))) = sc_source_cursors (fst (fst acc)).
Proof.
  destruct acc as [[c g] r], entry as [stream cu]. simpl.
  destruct (ordered_cursor_decision _ _ _ _); simpl; try done.
  unfold mark_stream_resync_required. by rewrite (proj1 (fold_invalidate_key_cursors _ _)).
Qed.

Lemma decide_streams_cursors l acc :
  sc_source_cursors (fst (fst (fold_left decide_stream l acc))) = sc_source_cursors (fst (fst acc)).
Proof.
  revert acc. induction l as [|x l IH]; intros acc; [done|]. simpl.
  by rewrite IH, decide_stream_cursors.
Qed.

Lemma decide_streams_rejected l c g :
  snd (fold_left decide_stream l (c, g, true)) = true.
Proof.
  revert c g. induction l as [|[stream cu] l IH]; intros c g; [done|]. simpl.
  destruct (ordered_cursor_decision _ _ _ _); apply IH.
Qed.

(** Without a rejection the loop only drops ignored streams and records
    ordering policies. *)
Lemma decide_streams_accepted l c g c' g' :
  fold_left decide_stream l (c, g, false) = (c', g', false) ->
  sc_source_cursors c' = sc_source_cursors c /\ sc_resync_required c' = sc_resync_required c /\
  sc_snapshots c' = sc_snapshots c /\ sc_source_snapshots c' = sc_source_snapshots c /\
  (forall stream, stream ∈ g' -> stream ∈ g) /\
  (forall stream cu, (stream, cu) ∈ l ->
     ordered_cursor_decision stream cu (sc_source_cursors c) (sc_resync_required c) <> CD_REJECT /\
     (stream ∈ g' ->
      ordered_cursor_decision stream cu (sc_source_cursors c) (sc_resync_required c) = CD_ACCEPT)).
Proof.
  revert c g. induction l as [|[stream cu] l IH]; intros c g; simpl.
  { intros [= <- <-]. repeat split; try done; set_solver. }
  destruct (ordered_cursor_decision stream cu _ _) eqn:Ed.
  - intros (H1 & H2 & H3 & H4 & H5 & H6)%IH. simpl in *.
    split; [done|]. split; [done|]. split; [done|]. split; [done|]. split; [done|].
    intros st cu' [[= -> ->]|Hin]%elem_of_cons; [by rewrite Ed|by apply H6].
  - intros (H1 & H2 & H3 & H4 & H5 & H6)%IH.
    assert (Hg : forall st, st ∈ g' -> st ∈ g /\ st <> stream).
    { intros st Hst%H5. rewrite list_elem_of_In, filter_In, <- list_elem_of_In in Hst.
      destruct_ands. done. }
    split; [done|]. split; [done|]. split; [done|]. split; [done|].
    split; [intros st Hst; by apply Hg|].
    intros st cu' [[= -> ->]|Hin]%elem_of_cons; [|by apply H6].
    rewrite Ed. split; [done|]. by intros [_ ?]%Hg.
  - intros Hf. pose proof (decide_streams_rejected l (mark_stream_resync_required c stream
      match sc_source_cursors c !! stream with
      | Some p => if negb (String.eqb (cu_epoch p) (cu_epoch cu)) then "epoch_changed"
                  else "sequence_gap"
      | None => "sequence_gap"
      end) g) as Hr. rewrite Hf in Hr. done.
Qed.

Lemma advance_cursors_lookup grouped l c stream :
  let c' := fold_left (advance_cursor grouped) l c in
  sc_source_cursors c' !! stream = sc_source_cursors c !! stream \/
  exists cu, (stream, cu) ∈ l /\ stream ∈ grouped /\ sc_source_cursors c' !! stream = Some cu.
Proof.
  revert c. induction l as [|[st cu] l IH]; intros c; [by left|]. simpl.
  destruct (IH (advance_cursor grouped c (st, cu))) as [H|(cu' & ? & ? & ?)];
    [|right; exists cu'; set_solver].
  unfold advance_cursor in *. destruct (decide (st ∈ grouped)) as [Hst|Hst].
  2: { rewrite bool_decide_eq_false_2 in H by done. rewrite bool_decide_eq_false_2 by done. by left. }
  rewrite bool_decide_eq_true_2 in H by done. rewrite bool_decide_eq_true_2 by done.
  assert (Hl : sc_source_cursors
     (if cu_resync cu
      then (c <| sc_source_cursors := <[st:=cu]> (sc_source_cursors c) |>)
             <| sc_resync_required := delete st (sc_resync_required c) |>
      else c <| sc_source_cursors := <[st:=cu]> (sc_source_cursors c) |>) !! stream
     = if decide (st = stream) then Some cu else sc_source_cursors c !! stream).
  { destruct (cu_resync cu); simpl; by rewrite lookup_insert. }
  simpl in *. rewrite Hl in H. destruct (decide (st = stream)) as [->|]; [|by left].
  right. exists cu. split; [set_solver|done].
Qed.

Lemma apply_all_cursors own c l c' :
  apply_all own c l = Ok c' ->
  sc_source_cursors c' = sc_source_cursors c /\ sc_resync_required c' = sc_resync_required c.
Proof.
  revert c. induction l as [|s l IH]; simpl; intros c; [by intros [= <-]|].
  intros (c1 & H1 & H2)%result_bind_ok. apply IH in H2 as [-> ->].
  unfold apply_snapshot in H1. apply result_bind_ok in H1 as (r & _ & [= <-]).
  by destruct (match _ with Some _ => _ | None => _ end).
Qed.

(** The cursor that replaces [old] continues it, unless it resynchronises. *)
Definition continues (old : option SourceCursor) (cu : SourceCursor) : Prop :=
  match old with
  | None => True
  | Some p => cu_epoch cu = cu_epoch p /\ cu_sequence cu = cu_sequence p + 1
  end.

Lemma ordered_cursor_decision_accept stream cu cursors resync :
  ordered_cursor_decision stream cu cursors resync = CD_ACCEPT ->
  cu_resync cu = true \/ (resync !! stream = None /\ continues (cursors !! stream) cu).
Proof.
  unfold ordered_cursor_decision, continues.
  destruct (resync !! stream), (cu_resync cu); simpl; try (by left); try done.
  intros H. right. split; [done|]. destruct (cursors !! stream) as [p|]; [|done].
  destruct (String.eqb_spec (cu_epoch cu) (cu_epoch p)); simpl in *; [|done].
  destruct (cu_sequence cu <=? cu_sequence p); [done|].
  destruct (Z.eqb_spec (cu_sequence cu) (cu_sequence p + 1)); done.
Qed.

Lemma plan_batch_cursors c batch c' stream :
  plan_batch c batch = Ok (Some c') ->
  sc_source_cursors c' !! stream = sc_source_cursors c !! stream \/
  exists s cu, s ∈ batch /\ ss_source_cursor s = Some cu /\ cursor_stream cu = stream /\
    sc_source_cursors c' !! stream = Some cu /\
    (cu_resync cu = true \/
     (sc_resync_required c !! stream = None /\ continues (sc_source_cursors c !! stream) cu)).
Proof.
  unfold plan_batch. intros (n & Hn & Hp)%result_bind_ok.
  case_bool_decide; [injection Hp as <-; by left|].
  apply result_bind_ok in Hp as ([policies cursors] & Hg & Hp).
  destruct (fold_left decide_stream cursors _) as [[c2 grouped] rejected] eqn:Ef.
  destruct rejected.
  { injection Hp as <-. left. change c2 with (fst (fst (c2, grouped, true))).
    by rewrite <- Ef, decide_streams_cursors. }
  case_bool_decide; [done|].
  destruct (apply_all _ _ _) as [c3|] eqn:Ea; [|done]. injection Hp as <-.
  apply apply_all_cursors in Ea as [-> _].
  apply decide_streams_accepted in Ef as (E1 & E2 & _ & _ & _ & Hd). simpl in E1, E2, Hd.
  destruct (advance_cursors_lookup grouped cursors c2 stream) as [->|(cu & Hin & Hst & ->)];
    [left; by rewrite E1|].
  right. destruct (group_batch_cursors _ _ _ _ _ Hg) as [_ Hb]; [constructor|].
  destruct (Hb _ _ Hin) as [?%elem_of_nil|(s & Hs & Hc & ->)]; [done|].
  apply (result_map_elem_r _ _ _ _ Hn) in Hs as (s0 & Hs0 & Hnorm).
  apply normalize_snapshot_cursor in Hnorm as [Hnorm _].
  exists s0, cu. split; [done|]. split; [congruence|]. split; [done|]. split; [done|].
  apply ordered_cursor_decision_accept. by apply (Hd _ _ Hin).
Qed.

Lemma commit_data io c s :
  st_data (snd (commit_candidate io c s)) = c \/
  untouched s (snd (commit_candidate io c s)).
Proof.
  unfold commit_candidate. case_match; [right|left; by destruct io].
  unfold untouched, rollback_metadata_mutation. simpl. by repeat case_match.
Qed.

(** source cursors never run backwards and never skip.  Whatever a save
    does to the recorded cursor of a stream, the new cursor is one a snapshot
    of the batch was published under, and unless the source declares a
    resynchronisation it belongs to the recorded epoch, is exactly the next
    sequence number, and the stream was not waiting for a resynchronisation:
    replays, reordered batches and gaps never move a cursor. *)
Theorem cursors_advance_in_order io batch s s' r stream :
  save_many io batch s = (r, s') ->
  sc_source_cursors (st_data s') !! stream = sc_source_cursors (st_data s) !! stream \/
  exists x cu, x ∈ batch /\ ss_source_cursor x = Some cu /\ cursor_stream cu = stream /\
    sc_source_cursors (st_data s') !! stream = Some cu /\
    (cu_resync cu = true \/
     (sc_resync_required (st_data s) !! stream = None /\
      continues (sc_source_cursors (st_data s) !! stream) cu)).
Proof.
  change (save_many io batch s) with (run_mutation (M_save_many batch) io s).
  rewrite run_mutation_plan by done. simpl.
  destruct (plan_batch _ _) as [[c|]|] eqn:E; try (intros [= <- <-]; by left).
  intros Hc. replace s' with (snd (commit_candidate io c s)) by by rewrite Hc.
  destruct (commit_data io c s) as [->|Hu]; [by apply plan_batch_cursors|].
  destruct Hu as (_ & _ & _ & _ & _ & -> & _). by left.
Qed.

(** ** Several sources of one key *)

Lemma elem_of_observations own sources k x :
  sources <> [] ->
  x ∈ observations_of own sources k <->
  exists sk, (sk, x) ∈ (sources : list (source_key * StateSnapshot)) /\ fst sk = k.
Proof.
  intros Hne. unfold observations_of. destruct sources as [|e l]; [done|]. clear Hne.
  generalize (e :: l). intros d. rewrite list_elem_of_fmap. split.
  - intros ([sk y] & -> & Hin). rewrite list_elem_of_In, filter_In, <- list_elem_of_In in Hin.
    destruct Hin as [? ?%bool_decide_eq_true]. eauto.
  - intros (sk & Hin & <-). exists (sk, x). split; [done|].
    rewrite list_elem_of_In, filter_In, <- list_elem_of_In. split; [done|].
    by apply bool_decide_eq_true.
Qed.

Lemma elem_of_list_filter {A} (p : A -> bool) l x :
  x ∈ List.filter p l <-> x ∈ l /\ p x = true.
Proof. by rewrite !list_elem_of_In, filter_In. Qed.

Lemma latest_some l x :
  latest l = Some x -> x ∈ l /\ forall y, y ∈ l -> ss_received_at y <= ss_received_at x.
Proof.
  unfold latest. destruct l as [|z l]; [done|]. intros [= <-].
  split; [apply max_by_elem|]. intros y Hy. by apply max_by_ge.
Qed.

Lemma latest_none l : latest l = None -> l = [].
Proof. by destruct l. Qed.

Lemma dedup_one {A} `{EqDecision A} (l : list A) x y :
  Nat.ltb 1 (List.length (dedup l)) = false -> x ∈ l -> y ∈ l -> x = y.
Proof.
  intros Hl. rewrite <- (elem_of_dedup l x), <- (elem_of_dedup l y).
  destruct (dedup l) as [|a [|b d]]; simpl in *; set_solver.
Qed.

Lemma elem_of_invalid obs x :
  x ∈ List.filter is_invalid obs <-> x ∈ obs /\ ss_status x = INVALID.
Proof. rewrite elem_of_list_filter. unfold is_invalid. by rewrite bool_decide_eq_true. Qed.

Lemma elem_of_current obs x :
  x ∈ List.filter is_current obs <-> x ∈ obs /\ ss_status x = CURRENT.
Proof. rewrite elem_of_list_filter. unfold is_current. by rewrite bool_decide_eq_true. Qed.

(** Two current sources report different values. *)
Definition disagree (obs : list StateSnapshot) : Prop :=
  exists x y, x ∈ obs /\ y ∈ obs /\ ss_status x = CURRENT /\ ss_status y = CURRENT /\
    ss_value x <> ss_value y.

Lemma disagree_test obs :
  Nat.leb 2 (List.length (List.filter is_current obs)) &&
  Nat.ltb 1 (List.length (dedup (map ss_value (List.filter is_current obs)))) = true <->
  disagree obs.
Proof.
  split.
  - intros [_ Ed]%andb_true_iff.
    pose proof (NoDup_dedup (map ss_value (List.filter is_current obs))) as Hnd.
    assert (Hel : forall v, v ∈ dedup (map ss_value (List.filter is_current obs)) ->
      exists x, x ∈ obs /\ ss_status x = CURRENT /\ ss_value x = v).
    { intros v. rewrite elem_of_dedup, list_elem_of_fmap.
      intros (x & -> & [? ?]%elem_of_current). eauto. }
    destruct (dedup _) as [|a [|b d]]; try done.
    destruct (Hel a) as (x & ? & ? & <-); [set_solver|].
    destruct (Hel b) as (y & ? & ? & <-); [set_solver|].
    exists x, y. repeat (split; [done|]). inversion Hnd; set_solver.
  - intros (x & y & Hx & Hy & Sx & Sy & Hne).
    assert (Hx' : x ∈ List.filter is_current obs) by (by apply elem_of_current).
    assert (Hy' : y ∈ List.filter is_current obs) by (by apply elem_of_current).
    apply andb_true_iff. split.
    + destruct (List.filter is_current obs) as [|a [|b d]]; [set_solver| |done].
      apply list_elem_of_singleton in Hx', Hy'. congruence.
    + apply not_false_iff_true. intros Ed. apply Hne.
      by apply (dedup_one _ _ _ Ed); apply (list_elem_of_fmap_2 ss_value).
Qed.

(** merging several sources fails safe.  The merged reading is [CURRENT]
    exactly when some source is [CURRENT], none is [INVALID] and all the
    current ones report the same value; it is then the most recent of them.
    An [INVALID] source, or two current sources that disagree, make the
    merged reading [INVALID]. *)
Theorem resolve_sources_fail_safe own sources k r :
  resolve_sources own sources k = Ok r ->
  let obs := observations_of own sources k in
  (ss_status r = CURRENT <->
     (exists x, x ∈ obs /\ ss_status x = CURRENT) /\
     (forall x, x ∈ obs -> ss_status x <> INVALID) /\ ~ disagree obs) /\
  (ss_status r = CURRENT -> r ∈ obs /\
     forall x, x ∈ obs -> ss_status x = CURRENT -> ss_received_at x <= ss_received_at r) /\
  ((exists x, x ∈ obs /\ ss_status x = INVALID) \/ disagree obs -> ss_status r = INVALID).
Proof.
  unfold resolve_sources.
  set (obs := observations_of own sources k). clearbody obs. intros Hr. cbv zeta.
  destruct obs as [|first others] eqn:Eo; [done|].
  pose proof (max_by_elem ss_received_at first others) as Hm. rewrite <- Eo in *. clear Eo.
  destruct (latest (List.filter is_invalid obs)) as [worst|] eqn:Ew.
  { injection Hr as ->. apply latest_some in Ew as [[Hw1 Hw2]%elem_of_invalid _].
    rewrite Hw2. split; [|done]. split; [done|]. intros (_ & Hno & _). by apply Hno in Hw1. }
  assert (Hno : forall x, x ∈ obs -> ss_status x <> INVALID).
  { intros x Hx Hi. apply latest_none in Ew. apply (not_elem_of_nil x). rewrite <- Ew.
    by apply elem_of_invalid. }
  destruct (latest (List.filter is_current obs)) as [newest|] eqn:En.
  - apply latest_some in En as [[Hn1 Hn2]%elem_of_current Hn3].
    destruct (_ && _) eqn:Ed.
    + apply disagree_test in Ed. injection Hr as <-. split; [|done].
      split; [done|]. by intros (_ & _ & []).
    + injection Hr as <-.
      assert (Hag : ~ disagree obs) by (rewrite <- disagree_test; congruence).
      split; [split; [|done]; intros _; eauto|]. split.
      * intros _. split; [done|]. intros x Hx Sx. apply Hn3. by apply elem_of_current.
      * intros [(x & Hx & Hi)|Hd]; [by apply Hno in Hx|done].
  - injection Hr as <-.
    assert (Hc0 : forall x, x ∈ obs -> ss_status x <> CURRENT).
    { intros x Hx Hi. apply latest_none in En. apply (not_elem_of_nil x). rewrite <- En.
      by apply elem_of_current. }
    apply Hc0 in Hm. split; [split; [done|]|split; [done|]].
    + intros ((x & Hx & Sx) & _). by apply Hc0 in Hx.
    + intros [(x & Hx & Hi)|(x & y & Hx & _ & Sx & _)]; [by apply Hno in Hx|by apply Hc0 in Hx].
Qed.

(** ** Effective freshness *)

(** [now] is within the freshness bound of the snapshot. *)
Definition fresh_at (stale_after : timedelta) (now : datetime) (s : StateSnapshot) : Prop :=
  ss_status s = CURRENT /\ ss_observed_at s <= now /\ ss_received_at s <= now /\
  now - ss_received_at s <= stale_after.

Lemma effective_status_current stale_after now s :
  effective_status stale_after now s = CURRENT <-> fresh_at stale_after now s.
Proof.
  unfold effective_status, fresh_at, is_current. case_bool_decide as E; simpl; [|naive_solver].
  destruct (Z.ltb_spec now (ss_observed_at s)), (Z.ltb_spec now (ss_received_at s)),
    (Z.ltb_spec stale_after (now - ss_received_at s)); simpl; naive_solver lia.
Qed.

Lemma effective_snapshot_status stale_after now s :
  ss_status (effective_snapshot stale_after now s) = effective_status stale_after now s.
Proof. unfold effective_snapshot. repeat case_match; destruct_ands; done. Qed.

Lemma effective_snapshot_ref stale_after now s :
  ss_source_ref (effective_snapshot stale_after now s) = ss_source_ref s.
Proof. unfold effective_snapshot. by repeat case_match. Qed.

Lemma existsb_status st l :
  existsb (fun x => bool_decide (ss_status x = st)) l = false <->
  forall x, x ∈ l -> ss_status x <> st.
Proof.
  rewrite <- not_true_iff_false, existsb_exists. setoid_rewrite <- list_elem_of_In.
  setoid_rewrite bool_decide_eq_true. naive_solver.
Qed.

(** the freshness report never overstates.  The runtime reports
    [current] exactly when some required reading exists and every required
    reading is [CURRENT], not from the future (neither its observation nor
    its arrival), and arrived at most the configured bound ago. *)
Theorem freshness_report_current stale_after now optional_sources s :
  fr_status (freshness_report stale_after now optional_sources s) = "current" <->
  (exists x, x ∈ all s /\ ref_key (ss_source_ref x) ∉ optional_sources) /\
  (forall x, x ∈ all s -> ref_key (ss_source_ref x) ∉ optional_sources ->
     fresh_at stale_after now x).
Proof.
  unfold freshness_report. simpl. set (required := List.filter _ _).
  assert (Hreq : forall y, y ∈ required <-> exists x, x ∈ all s /\
    ref_key (ss_source_ref x) ∉ optional_sources /\ y = effective_snapshot stale_after now x).
  { intros y. unfold required. rewrite elem_of_list_filter, list_elem_of_fmap. split.
    - intros [(x & -> & Hx) Ho]. destruct_ands. rewrite effective_snapshot_ref in Ho. eauto.
    - intros (x & Hx & Ho & ->). split; [eauto|]. apply negb_true_iff, bool_decide_eq_false.
      by rewrite effective_snapshot_ref. }
  assert (Hall : (forall x, x ∈ all s -> ref_key (ss_source_ref x) ∉ optional_sources ->
     fresh_at stale_after now x) <-> (forall y, y ∈ required -> ss_status y = CURRENT)).
  { setoid_rewrite <- effective_status_current. split.
    - intros H y (x & Hx & Ho & ->)%Hreq. rewrite effective_snapshot_status. auto.
    - intros H x Hx Ho. rewrite <- effective_snapshot_status. apply H, Hreq. eauto. }
  rewrite Hall. clear Hall. transitivity (required <> [] /\
    forall y, y ∈ required -> ss_status y = CURRENT).
  - clear Hreq. case_bool_decide as Hn; [naive_solver|].
    destruct (existsb _ required) eqn:E1; simpl.
    { split; [done|]. intros [_ H]. apply not_false_iff_true in E1. exfalso. apply E1.
      apply existsb_status. intros x Hx. by rewrite (H x Hx). }
    destruct (existsb (fun x => bool_decide (ss_status x = UNAVAILABLE)) required) eqn:E2.
    { split; [done|]. intros [_ H]. apply not_false_iff_true in E2. exfalso. apply E2.
      apply existsb_status. intros x Hx. by rewrite (H x Hx). }
    destruct (existsb (fun x => bool_decide (ss_status x = STALE)) required) eqn:E3.
    { split; [done|]. intros [_ H]. apply not_false_iff_true in E3. exfalso. apply E3.
      apply existsb_status. intros x Hx. by rewrite (H x Hx). }
    rewrite existsb_status in E1, E2, E3. split; [|done]. intros _. split; [done|].
    intros y Hy. specialize (E1 y Hy). specialize (E2 y Hy). specialize (E3 y Hy).
    by destruct (ss_status y).
  - split; intros [H1 H2]; (split; [|done]).
    + destruct required as [|y l]; [done|]. destruct (proj1 (Hreq y)) as (x & ? & ? & _); [set_solver|].
      eauto.
    + destruct H1 as (x & Hx & Ho). intros E. apply (not_elem_of_nil (effective_snapshot stale_after now x)).
      rewrite <- E. apply Hreq. eauto.
Qed.

(** ** Quarantine after a gap *)

Context (set_order_perm : forall l, set_order l ≡ₚ l).

(** A stream that missed something: nothing it published counts as current. *)
Record quarantined (c : StateCandidate) (stream : key) : Prop := {
  q_resync : is_Some (sc_resync_required c !! stream);
  q_sources : forall sk x, (sk, x) ∈ (sc_source_snapshots c : list (source_key * StateSnapshot)) ->
    on_stream stream x = true -> ss_status x = INVALID /\ ss_value x = None;
  q_visible : forall sk x v,
    (sk, x) ∈ (sc_source_snapshots c : list (source_key * StateSnapshot)) ->
    on_stream stream x = true -> visible c (fst sk) = Some v ->
    ss_status v = INVALID /\ ss_value v = None
}.

Lemma invalidate_key_visible c k k' :
  visible (invalidate_key c k) k' =
    if decide (k' = k) then invalidate <$> visible c k' else visible c k'.
Proof.
  unfold invalidate_key, visible. destruct (od_get k (sc_snapshots c)) eqn:E; simpl.
  - rewrite od_get_set. case_decide; [subst; by rewrite E|done].
  - case_decide; [subst; by rewrite E|done].
Qed.

Lemma fold_invalidate_key_visible l c k' v :
  visible (fold_left invalidate_key l c) k' = Some v ->
  (visible c k' = Some v /\ k' ∉ l) \/ (ss_status v = INVALID /\ ss_value v = None).
Proof.
  revert c. induction l as [|k l IH]; intros c; simpl; [left; split; [done|set_solver]|].
  intros [[H1 H2]|H]%IH; [|by right]. rewrite invalidate_key_visible in H1.
  case_decide; [|left; set_solver]. right. destruct (visible c k') as [w|]; [|done].
  by injection H1 as <-.
Qed.

Lemma elem_of_update_sources p f d sk x :
  (sk, x) ∈ (update_sources p f d : list (source_key * StateSnapshot)) <->
  exists y, (sk, y) ∈ (d : list (source_key * StateSnapshot)) /\ x = if p sk y then f y else y.
Proof.
  unfold update_sources. rewrite list_elem_of_fmap. split.
  - intros ([sk' y] & [= -> ->] & ?). eauto.
  - intros (y & ? & ->). by exists (sk, y).
Qed.

Lemma elem_of_source_keys_of p d k :
  k ∈ source_keys_of p d <->
  exists sk x, (sk, x) ∈ (d : list (source_key * StateSnapshot)) /\ p sk x = true /\ fst sk = k.
Proof.
  unfold source_keys_of. rewrite elem_of_dedup, list_elem_of_fmap. split.
  - intros ([sk x] & -> & Hin). rewrite list_elem_of_In, filter_In, <- list_elem_of_In in Hin.
    destruct Hin. eauto.
  - intros (sk & x & ? & ? & <-). exists (sk, x). split; [done|].
    by rewrite list_elem_of_In, filter_In, <- list_elem_of_In.
Qed.

Lemma on_stream_invalidate stream x : on_stream stream (invalidate x) = on_stream stream x.
Proof. done. Qed.

Lemma mark_stream_quarantines c stream reason :
  quarantined (mark_stream_resync_required c stream reason) stream.
Proof.
  unfold mark_stream_resync_required. set (c1 := c <| sc_resync_required := _ |> <| _ := _ |>).
  set (keys := source_keys_of _ _).
  destruct (fold_invalidate_key_cursors (set_order keys) c1) as (_ & E2 & E3).
  assert (Hinv : forall sk x, (sk, x) ∈ (sc_source_snapshots c1 : list (source_key * StateSnapshot)) ->
    on_stream stream x = true -> fst sk ∈ keys /\ ss_status x = INVALID /\ ss_value x = None).
  { intros sk x (y & Hy & ->)%elem_of_update_sources. destruct (on_stream stream y) eqn:Ey; [|congruence].
    intros _. split; [|done]. apply elem_of_source_keys_of. eauto. }
  split; rewrite ?E2, ?E3.
  - unfold c1; simpl. rewrite lookup_insert_eq. eauto.
  - intros sk x Hx Ho. apply (Hinv _ _ Hx Ho).
  - intros sk x v Hx Ho [[_ Hk]|Hv]%fold_invalidate_key_visible; [|done].
    exfalso. apply Hk. rewrite set_order_perm. apply (Hinv _ _ Hx Ho).
Qed.

Lemma mark_stream_keeps_quarantine c st stream reason :
  quarantined c st -> quarantined (mark_stream_resync_required c stream reason) st.
Proof.
  intros [H1 H2 H3]. unfold mark_stream_resync_required.
  set (c1 := c <| sc_resync_required := _ |> <| _ := _ |>). set (keys := source_keys_of _ _).
  destruct (fold_invalidate_key_cursors (set_order keys) c1) as (_ & E2 & E3).
  split; rewrite ?E2, ?E3.
  - unfold c1; simpl. rewrite lookup_insert. case_decide; [eauto|done].
  - intros sk x (y & Hy & ->)%elem_of_update_sources. destruct (on_stream stream y); [done|].
    by apply (H2 sk y).
  - intros sk x v (y & Hy & ->)%elem_of_update_sources Ho
      [[Hv _]|Hv]%fold_invalidate_key_visible; [|done].
    apply (H3 sk y); [done| |done]. by destruct (on_stream stream y).
Qed.

Lemma decide_stream_keeps_quarantine st acc entry :
  quarantined (fst (fst acc)) st -> quarantined (fst (fst (decide_stream acc entry))) st.
Proof.
  destruct acc as [[c g] r], entry as [stream cu]. simpl. intros H.
  destruct (ordered_cursor_decision _ _ _ _); simpl.
  - destruct H as [H1 H2 H3]. split; [exact H1|exact H2|exact H3].
  - done.
  - by apply mark_stream_keeps_quarantine.
Qed.

Lemma decide_stream_other st acc entry :
  quarantined (fst (fst (decide_stream acc entry))) st \/
  sc_resync_required (fst (fst (decide_stream acc entry))) !! st =
    sc_resync_required (fst (fst acc)) !! st.
Proof.
  destruct acc as [[c g] r], entry as [stream cu]. simpl.
  destruct (ordered_cursor_decision _ _ _ _); simpl; try by right.
  destruct (decide (st = stream)) as [->|Hne]; [left; apply mark_stream_quarantines|right].
  unfold mark_stream_resync_required.
  rewrite (proj1 (proj2 (fold_invalidate_key_cursors _ _))). simpl. by rewrite lookup_insert_ne.
Qed.

Lemma decide_streams_quarantined st l acc :
  quarantined (fst (fst acc)) st -> quarantined (fst (fst (fold_left decide_stream l acc))) st.
Proof. revert acc. induction l; simpl; auto using decide_stream_keeps_quarantine. Qed.

Lemma decide_streams_reject st cu l acc :
  (st, cu) ∈ l ->
  sc_resync_required (fst (fst acc)) !! st = None ->
  ordered_cursor_decision st cu (sc_source_cursors (fst (fst acc)))
    (sc_resync_required (fst (fst acc))) = CD_REJECT ->
  quarantined (fst (fst (fold_left decide_stream l acc))) st /\
  snd (fold_left decide_stream l acc) = true.
Proof.
  revert acc. induction l as [|[st' cu'] l IH]; intros acc Hin Hn Hd; [set_solver|].
  apply elem_of_cons in Hin as [[= <- <-]|Hin]; simpl.
  - destruct acc as [[c g] r]; simpl in *. rewrite Hd. split.
    + apply decide_streams_quarantined, mark_stream_quarantines.
    + apply decide_streams_rejected.
  - destruct (decide_stream_other st acc (st', cu')) as [Hq|Hs].
    + destruct (decide (sc_resync_required (fst (fst (decide_stream acc (st', cu')))) !! st = None))
        as [E|E]; [destruct (q_resync _ _ Hq); congruence|].
      split; [by apply decide_streams_quarantined|].
      destruct acc as [[c g] r]; simpl in *.
      destruct (ordered_cursor_decision st' cu' _ _); simpl in *; try congruence.
      apply decide_streams_rejected.
    + assert (Hc : ordered_cursor_decision st cu
        (sc_source_cursors (fst (fst (decide_stream acc (st', cu')))))
        (sc_resync_required (fst (fst (decide_stream acc (st', cu'))))) = CD_REJECT).
      { revert Hd. unfold ordered_cursor_decision. by rewrite decide_stream_cursors, Hs. }
      apply IH; [done|congruence|done].
Qed.

(** [cu] cannot follow the recorded cursor [p]: another epoch, or a sequence
    number beyond the next one. *)
Definition gap (p cu : SourceCursor) : Prop :=
  cu_epoch cu <> cu_epoch p \/ cu_sequence p + 1 < cu_sequence cu.

Lemma gap_rejected stream cu cu' cursors resync p :
  cursors !! stream = Some p -> resync !! stream = None -> cu_resync cu' = false ->
  cu_epoch cu' = cu_epoch cu -> cu_sequence cu' = cu_sequence cu -> gap p cu ->
  ordered_cursor_decision stream cu' cursors resync = CD_REJECT.
Proof.
  unfold ordered_cursor_decision, gap. intros -> -> -> -> ->. simpl.
  destruct (String.eqb_spec (cu_epoch cu) (cu_epoch p)); simpl; [|done].
  intros [?|?]; [done|].
  destruct (Z.leb_spec (cu_sequence cu) (cu_sequence p)); [lia|].
  destruct (Z.eqb_spec (cu_sequence cu) (cu_sequence p + 1)); [lia|done].
Qed.

Lemma plan_batch_gap c batch c' x cu p :
  plan_batch c batch = Ok c' -> x ∈ batch -> ss_source_cursor x = Some cu ->
  (forall y cu', y ∈ batch -> ss_source_cursor y = Some cu' ->
     cursor_stream cu' = cursor_stream cu -> cu_resync cu' = false) ->
  sc_source_cursors c !! cursor_stream cu = Some p ->
  sc_resync_required c !! cursor_stream cu = None -> gap p cu ->
  exists c2, c' = Some c2 /\ quarantined c2 (cursor_stream cu) /\
    sc_source_cursors c2 = sc_source_cursors c.
Proof.
  unfold plan_batch. intros (n & Hn & Hp)%result_bind_ok Hx Hc Hall Hcur Hres Hgap.
  destruct (result_map_elem_l _ _ _ _ Hn Hx) as (y & Hy & Hny).
  apply normalize_snapshot_cursor in Hny as [Hny _]. rewrite Hc in Hny.
  case_bool_decide as Hnil; [subst; set_solver|]. clear Hnil.
  apply result_bind_ok in Hp as ([policies cursors] & Hg & Hp).
  destruct (group_batch_covers _ _ _ _ _ Hg) as [Hcov _].
  destruct (Hcov y cu Hy Hny) as (cu' & Hget & He & Hs).
  destruct (group_batch_cursors _ _ _ _ _ Hg) as [_ Hb]; [constructor|].
  assert (cu_resync cu' = false /\ cursor_stream cu' = cursor_stream cu) as [Hr Hst].
  { destruct (Hb _ _ (od_get_elem _ _ _ Hget)) as [?%elem_of_nil|(z & Hz & Hzc & Est)]; [done|].
    apply (result_map_elem_r _ _ _ _ Hn) in Hz as (z0 & Hz0 & Hnz).
    apply normalize_snapshot_cursor in Hnz as [Hnz _].
    split; [apply (Hall z0); congruence|done]. }
  set (c1 := c <| sc_source_ordering_policies := policies |>) in *.
  destruct (decide_streams_reject (cursor_stream cu) cu' cursors (c1, od_keys cursors, false))
    as [Hq Hrej]; [by apply od_get_elem|done|by eapply gap_rejected|].
  pose proof (decide_streams_cursors cursors (c1, od_keys cursors, false)) as Hcs.
  destruct (fold_left decide_stream cursors _) as [[c2 g] r]. simpl in *. subst r.
  injection Hp as <-. eauto.
Qed.

(** A gap quarantines its stream.  When a save carries a cursor that
    cannot follow the recorded one (another epoch, or a skipped sequence
    number) and no resynchronisation, and the save commits, then no cursor
    has moved, the stream is marked as waiting for a resynchronisation, and
    every source observation published on it, and every reading of a key one
    of those observations belongs to, is [INVALID] without a value. *)
Theorem sequence_gap_quarantines batch s s' x cu p :
  save_many Persisted batch s = (Ok tt, s') ->
  x ∈ batch -> ss_source_cursor x = Some cu ->
  (forall y cu', y ∈ batch -> ss_source_cursor y = Some cu' ->
     cursor_stream cu' = cursor_stream cu -> cu_resync cu' = false) ->
  sc_source_cursors (st_data s) !! cursor_stream cu = Some p ->
  sc_resync_required (st_data s) !! cursor_stream cu = None -> gap p cu ->
  quarantined (st_data s') (cursor_stream cu) /\
  sc_source_cursors (st_data s') = sc_source_cursors (st_data s).
Proof.
  change (save_many Persisted batch s) with (run_mutation (M_save_many batch) Persisted s).
  rewrite run_mutation_plan by done. simpl.
  destruct (plan_batch _ _) as [oc|] eqn:E; [|done].
  intros Hr Hx Hc Hall Hcur Hres Hgap.
  destruct (plan_batch_gap _ _ _ _ _ _ E Hx Hc Hall Hcur Hres Hgap) as (c2 & -> & Hq & Hcs).
  unfold commit_candidate in Hr. simpl in Hr. injection Hr as <-. done.
Qed.

(** a quarantined stream stays silent.  While a stream waits for a
    resynchronisation, a save of observations it published without one is
    dropped as a whole: whatever their epoch and sequence numbers, the store
    is exactly what it was. *)
Theorem quarantined_stream_ignored io batch s stream :
  batch <> [] ->
  is_Some (sc_resync_required (st_data s) !! stream) ->
  (forall x, x ∈ batch -> exists cu, ss_source_cursor x = Some cu /\
     cursor_stream cu = stream /\ cu_resync cu = false) ->
  snd (save_many io batch s) = s.
Proof.
  clear set_order_perm. intros Hne [why Hq] Hall.
  change (save_many io batch s) with (run_mutation (M_save_many batch) io s).
  rewrite run_mutation_plan by done. simpl. unfold plan_batch.
  destruct (result_map normalize_snapshot batch) as [n|] eqn:Hn; [|done]. simpl.
  assert (Hall' : forall x, x ∈ n -> exists cu, ss_source_cursor x = Some cu /\
     cursor_stream cu = stream /\ cu_resync cu = false).
  { intros x (y & Hy & Hny)%(result_map_elem_r _ _ _ _ Hn).
    apply normalize_snapshot_cursor in Hny as [-> _]. by apply Hall. }
  rewrite bool_decide_eq_false_2.
  2: { intros ->. destruct batch as [|x batch]; [done|].
       destruct (result_map_elem_l _ _ _ x Hn) as (? & ? & _); set_solver. }
  destruct (group_batch _ _ _) as [[policies cursors]|] eqn:Hg; [|done]. simpl.
  destruct (group_batch_cursors _ _ _ _ _ Hg) as [_ Hb]; [constructor|].
  assert (Hign : forall st cu, (st, cu) ∈ (cursors : list (key * SourceCursor)) ->
    st = stream /\ cu_resync cu = false).
  { intros st cu [?%elem_of_nil|(x & Hx & Hc & ->)]%Hb; [done|].
    destruct (Hall' _ Hx) as (cu' & ? & ? & ?). split; congruence. }
  set (c1 := (st_data s) <| sc_source_ordering_policies := policies |>).
  assert (Hfold : forall l g, (forall st cu, (st, cu) ∈ l -> st = stream /\ cu_resync cu = false) ->
    exists g', fold_left decide_stream l (c1, g, false) = (c1, g', false) /\
      (forall st, st ∈ g' -> st ∈ g /\ st ∉ od_keys l)).
  { induction l as [|[st cu] l IH]; intros g Hl.
    - exists g. split; [done|]. unfold od_keys. set_solver.
    - destruct (Hl st cu) as [-> Hr]; [set_solver|].
      destruct (IH (List.filter (fun k => negb (bool_decide (k = stream))) g)) as (g' & Hf & Hg').
      { intros. apply Hl. set_solver. }
      exists g'. simpl. unfold ordered_cursor_decision. simpl. rewrite Hq, Hr. simpl.
      split; [done|]. intros st [H1 H2]%Hg'.
      rewrite list_elem_of_In, filter_In, <- list_elem_of_In in H1. destruct_ands.
      split; [done|]. unfold od_keys in *. set_solver. }
  destruct (Hfold cursors (od_keys cursors) Hign) as (g' & Hf & Hg').
  change (fold_left decide_stream cursors _) with
    (fold_left decide_stream cursors (c1, od_keys cursors, false)).
  rewrite Hf.
  rewrite bool_decide_eq_true_2; [done|].
  destruct (List.filter _ n) as [|x l] eqn:Ef; [done|]. exfalso.
  assert (Hx : x ∈ List.filter (accepted g' c1) n) by (rewrite Ef; set_solver).
  rewrite list_elem_of_In, filter_In, <- list_elem_of_In in Hx. destruct Hx as [Hx Hacc].
  destruct (Hall' _ Hx) as (cu & Hc & Hst & _). unfold accepted in Hacc. rewrite Hc in Hacc.
  apply bool_decide_eq_true in Hacc. apply Hg' in Hacc. tauto.
Qed.

(** ** Source loss *)

Lemma resolve_keys_spec own keys c out c' out' :
  resolve_keys own c keys out = Ok (c', out') ->
  sc_source_snapshots c' = sc_source_snapshots c /\
  sc_version_counter c <= sc_version_counter c' /\
  (forall k, k ∉ keys -> visible c' k = visible c k /\ version_of c' k = version_of c k) /\
  (forall k, k ∈ keys ->
     exists r, resolve_sources own (sc_source_snapshots c) k = Ok r /\ visible c' k = Some r /\
       r ∈ out' /\ sc_version_counter c < version_of c' k) /\
  (forall r, r ∈ out -> r ∈ out').
Proof.
  revert c out. induction keys as [|k keys IH]; simpl; intros c out.
  { intros [= <- <-]. repeat split; try done; set_solver. }
  intros (r & Hr & Hk)%result_bind_ok.
  set (c1 := bump_version k (c <| sc_snapshots := od_set k r (sc_snapshots c) |>)).
  change (resolve_keys own c1 keys (out ++ [r]) = Ok (c', out')) in Hk.
  assert (Hv : forall k', visible c1 k' = if decide (k' = k) then Some r else visible c k').
  { intros k'. unfold c1, visible. simpl. by rewrite od_get_set. }
  assert (Hn : forall k', version_of c1 k' =
    if decide (k = k') then sc_version_counter c + 1 else version_of c k').
  { intros k'. unfold c1, version_of. simpl. rewrite lookup_insert. by case_decide. }
  assert (Hc1 : sc_version_counter c1 = sc_version_counter c + 1) by done.
  apply IH in Hk as (E1 & E2 & E3 & E4 & E5).
  rewrite Hc1 in E2. split; [by rewrite E1|]. split; [etransitivity; [|exact E2]; lia|]. split; [|split].
  - intros k' Hk'. destruct (E3 k') as [-> ->]; [set_solver|].
    rewrite Hv, Hn, !decide_False by set_solver. done.
  - intros k' Hk'. destruct (decide (k' ∈ keys)) as [Hin|Hnin].
    + destruct (E4 k' Hin) as (r' & ? & ? & ? & ?). exists r'.
      split; [done|]. split; [done|]. split; [done|]. lia.
    + assert (k' = k) as -> by set_solver.
      destruct (E3 k Hnin) as [E6 E7]. exists r. rewrite E6, E7, Hv, Hn, !decide_True by done.
      split; [done|]. split; [done|]. split; [apply E5; set_solver|lia].
  - intros r' Hr'. apply E5. set_solver.
Qed.

(** [k] had a live source of the lost adapter (or of the lost external id). *)
Definition loses (adapter : string) (external : option string) (c : StateCandidate) (k : key)
    : Prop :=
  exists sk x, (sk, x) ∈ (sc_source_snapshots c : list (source_key * StateSnapshot)) /\
    fst sk = k /\ source_owned adapter external sk x = true.

Lemma after_loss_sources adapter external own c k x :
  loses adapter external c k ->
  x ∈ observations_of own
        (update_sources (source_owned adapter external) unavailable (sc_source_snapshots c)) k <->
  exists sk y, (sk, y) ∈ (sc_source_snapshots c : list (source_key * StateSnapshot)) /\
    fst sk = k /\ x = (if source_owned adapter external sk y then unavailable y else y).
Proof.
  intros (sk0 & y0 & H0 & _). rewrite elem_of_observations.
  - setoid_rewrite elem_of_update_sources. naive_solver.
  - unfold update_sources. destruct (sc_source_snapshots c); [set_solver|done].
Qed.

Lemma resolve_sources_elem own sources k r :
  resolve_sources own sources k = Ok r ->
  exists x, x ∈ observations_of own sources k /\ (r = x \/ r = invalidate x).
Proof.
  unfold resolve_sources. destruct (observations_of own sources k) as [|f o] eqn:Eo; [done|].
  pose proof (max_by_elem ss_received_at f o) as Hm. rewrite <- Eo in *.
  destruct (latest (List.filter is_invalid _)) as [w|] eqn:Ew.
  { intros [= ->]. apply latest_some in Ew as [[? _]%elem_of_invalid _]. eauto. }
  destruct (latest (List.filter is_current _)) as [n|] eqn:En.
  - apply latest_some in En as [[? _]%elem_of_current _].
    case_match; intros [= <-]; eauto.
  - intros [= <-]. eauto.
Qed.

Lemma resolve_sources_all_unavailable own sources k r :
  resolve_sources own sources k = Ok r ->
  (forall x, x ∈ observations_of own sources k -> ss_status x = UNAVAILABLE) ->
  ss_status r = UNAVAILABLE.
Proof.
  unfold resolve_sources. destruct (observations_of own sources k) as [|f o] eqn:Eo; [done|].
  pose proof (max_by_elem ss_received_at f o) as Hm. rewrite <- Eo in *. intros Hr Hall.
  destruct (latest (List.filter is_invalid _)) as [w|] eqn:Ew.
  { apply latest_some in Ew as [[? ?]%elem_of_invalid _]. specialize (Hall w). intuition congruence. }
  destruct (latest (List.filter is_current _)) as [n|] eqn:En.
  { apply latest_some in En as [[? ?]%elem_of_current _]. specialize (Hall n). intuition congruence. }
  injection Hr as <-. by apply Hall.
Qed.

(** losing a source.  When [mark_source_unavailable] commits, every key
    that had a live observation of the lost source gets a fresh version and a
    reading that is returned to the caller; a [CURRENT] reading after the loss
    is an observation of another source, and a key served by the lost source
    alone reads [UNAVAILABLE].  No other key changes its reading or version. *)
Theorem source_loss_never_current adapter external io s s' out :
  mark_source_unavailable adapter external io s = (Ok out, s') ->
  (forall k, loses adapter external (st_data s) k ->
     exists v, visible (st_data s') k = Some v /\ v ∈ out /\
       sc_version_counter (st_data s) < version_of (st_data s') k /\
       (ss_status v = CURRENT -> exists sk,
          (sk, v) ∈ (sc_source_snapshots (st_data s) : list (source_key * StateSnapshot)) /\
          fst sk = k /\ source_owned adapter external sk v = false) /\
       ((forall sk x, (sk, x) ∈ (sc_source_snapshots (st_data s) : list (source_key * StateSnapshot)) ->
           fst sk = k -> source_owned adapter external sk x = true) ->
        ss_status v = UNAVAILABLE)) /\
  (forall k, ~ loses adapter external (st_data s) k ->
     visible (st_data s') k = visible (st_data s) k /\
     version_of (st_data s') k = version_of (st_data s) k).
Proof.
  unfold mark_source_unavailable. rewrite stm_bind_get. set (c := st_data s).
  intros ([c' out'] & s1 & Hr & Hc)%stm_bind_ok. apply lift_ok in Hr as [Hr ->].
  apply stm_bind_ok in Hc as (u & s2 & Hc & [= <- <-]). simpl in Hc.
  assert (st_data s2 = c') as ->.
  { unfold commit_candidate in Hc. destruct (_ && _); [done|]. by destruct io; injection Hc as _ <-. }
  apply resolve_keys_spec in Hr as (_ & _ & E3 & E4 & _). simpl in E3, E4.
  assert (Hk : forall k, k ∈ set_order (source_keys_of (source_owned adapter external)
    (sc_source_snapshots c)) <-> loses adapter external c k).
  { intros k. rewrite set_order_perm, elem_of_source_keys_of. unfold loses. naive_solver. }
  split.
  - intros k Hl. destruct (E4 k (proj2 (Hk k) Hl)) as (v & Hv & Hvis & Hout & Hver).
    exists v. repeat (split; [done|]). split.
    + intros Hcur. destruct (resolve_sources_elem _ _ _ _ Hv) as (x & Hx & [->| ->]); [|done].
      apply after_loss_sources in Hx as (sk & y & Hin & Hfst & ->); [|done].
      destruct (source_owned adapter external sk y) eqn:Eo; [done|]. eauto.
    + intros Hall. apply (resolve_sources_all_unavailable _ _ _ _ Hv). intros x Hx.
      apply after_loss_sources in Hx as (sk & y & Hin & Hfst & ->); [|done].
      by rewrite (Hall sk y).
  - intros k Hl. apply E3. by rewrite Hk.
Qed.
End StateStore.

(** ** Witnesses: a lamp seen through one adapter *)

Definition example_snapshot (v : bool) (st : StateStatus) (at_ : datetime) (seq : Z)
    : StateSnapshot :=
  mkStateSnapshot default_authority "desk" "power" (Some (SBool v)) None at_ at_ st
    (mkSourceRef "ha" "light.desk" None None None) (Some (mkSourceCursor "ha" "events" "e1" seq false)).
Definition example_key : key := ("desk", "power").
Definition example_stream : key := ("ha", "events").

(** The store after the observation number 7. *)
Definition example_store : StateStore :=
  Eval vm_compute in
    snd (save_many id Persisted [example_snapshot true CURRENT 10 7]
      (empty_store <| st_persistence_bound := true |>)).
(** The store after a gap: observation 9 came instead of 8. *)
Definition example_gap_store : StateStore :=
  Eval vm_compute in snd (save_many id Persisted [example_snapshot false CURRENT 20 9] example_store).

Lemma empty_store_ok : candidate_ok empty_candidate.
Proof. by split; [|intros ???|intros ? []..]. Qed.

Lemma version_pins_reading_witness :
  state_version empty_store "desk" "power" = 0 /\
  0 <= sc_version_counter (st_data example_store).
Proof.
  split; [reflexivity|].
  exact (proj1 (proj2 (version_pins_reading id (empty_store <| st_persistence_bound := true |>)
    example_store "desk" "power" empty_store_ok eq_refl
    (history_step id _ (M_save_many [example_snapshot true CURRENT 10 7]) Persisted _
       (history_nil id _))))).
Defined.

Lemma durable_mutation_atomic_witness :
  untouched example_store
    (snd (run_mutation id (M_save_many [example_snapshot false CURRENT 20 8]) PersistFailed example_store)).
Proof.
  pose proof (durable_mutation_atomic id (M_save_many [example_snapshot false CURRENT 20 8])
    example_store eq_refl eq_refl) as H.
  destruct (run_mutation id _ Persisted example_store) as [r s1].
  destruct (run_mutation id _ Interrupted example_store) as [ri si].
  destruct (run_mutation id _ PersistFailed example_store) as [rf sf].
  exact (proj1 (proj2 (proj2 H))).
Defined.

Lemma cursors_advance_in_order_witness :
  sc_source_cursors (st_data example_gap_store) !! example_stream =
    sc_source_cursors (st_data example_store) !! example_stream \/
  exists cu, sc_source_cursors (st_data example_gap_store) !! example_stream = Some cu.
Proof.
  destruct (cursors_advance_in_order id Persisted [example_snapshot false CURRENT 20 9]
    example_store example_gap_store (Ok tt) example_stream eq_refl) as [H|(x & cu & _ & _ & _ & H & _)].
  - left. exact H.
  - right. exists cu. exact H.
Defined.

Lemma sequence_gap_quarantines_witness : quarantined (st_data example_gap_store) example_stream.
Proof.
  refine (proj1 (sequence_gap_quarantines id ltac:(reflexivity)
    [example_snapshot false CURRENT 20 9] example_store example_gap_store
    (example_snapshot false CURRENT 20 9) (mkSourceCursor "ha" "events" "e1" 9 false)
    (mkSourceCursor "ha" "events" "e1" 7 false) eq_refl _ eq_refl _ eq_refl eq_refl _)).
  - constructor.
  - intros y cu Hy Hc _. apply list_elem_of_singleton in Hy. subst y. injection Hc as <-. reflexivity.
  - right. reflexivity.
Defined.

Lemma quarantined_stream_ignored_witness :
  snd (save_many id Persisted [example_snapshot true CURRENT 30 8] example_gap_store)
    = example_gap_store.
Proof.
  apply (quarantined_stream_ignored id Persisted [example_snapshot true CURRENT 30 8]
    example_gap_store example_stream).
  - discriminate.
  - eexists. reflexivity.
  - intros x Hx. apply list_elem_of_singleton in Hx. subst x. eexists. repeat split.
Defined.

Lemma resolve_sources_fail_safe_witness :
  example_snapshot true CURRENT 10 7 ∈
    observations_of [] (sc_source_snapshots (st_data example_store)) example_key.
Proof.
  exact (proj1 (proj1 (proj2 (resolve_sources_fail_safe []
    (sc_source_snapshots (st_data example_store)) example_key
    (example_snapshot true CURRENT 10 7) eq_refl)) eq_refl)).
Defined.

Lemma source_loss_never_current_witness :
  exists v, visible (st_data (snd (mark_source_unavailable id "ha" None Persisted example_store)))
    example_key = Some v.
Proof.
  destruct (proj1 (source_loss_never_current id ltac:(reflexivity) "ha" None Persisted example_store
    (snd (mark_source_unavailable id "ha" None Persisted example_store)) _ eq_refl) example_key)
    as (v & Hv & _).
  - exists (example_key, ("ha", "light.desk")), (example_snapshot true CURRENT 10 7).
    split; [constructor|]. split; reflexivity.
  - exists v. exact Hv.
Defined.
