(* ===== verification/Freshness.v ===== *)
(** * Freshness of physical preconditions (runtime/freshness.py)

    The one place that decides whether a snapshot is good enough evidence for a
    command's precondition.  [now] is the reading of the injected clock; an age
    is kept in microseconds, the resolution of [timedelta]. *)

From S2P Require Import Prelude.
From S2P Require Import Values.
From S2P Require Import Models.
From S2P Require Import StateStore.

Record FreshnessDecision := mkFreshnessDecision {
  fd_satisfied : bool;
  fd_reason_code : string;
  fd_snapshot : option StateSnapshot;
  fd_stale_exception : bool;
  fd_age : option timedelta;
  fd_source_revision : option Z
}.

(** [FreshnessEvaluator.__init__] *)
Definition new_evaluator (max_age : timedelta) : result exn timedelta :=
  raise_if (max_age <=? 0) (ValueError "freshness max_age must be positive") ≫= fun _ =>
  Ok max_age.

Definition default_max_age : timedelta := minutes 5.

Definition stale_allowed (p : Precondition) (d : option PolicyDecision) : bool :=
  pre_allow_stale p &&
  match d with
  | Some d => pd_allows_stale d &&
              bool_decide (PolicyAction_value (pd_action d) ∈ ["allow"; "confirm"])
  | None => false
  end.

(** [FreshnessEvaluator.evaluate] *)
Definition evaluate_freshness (max_age : timedelta) (now : datetime)
    (snapshot : option StateSnapshot) (p : Precondition) (policy_decision : option PolicyDecision)
    (source_revision : option Z) : FreshnessDecision :=
  match snapshot with
  | None => mkFreshnessDecision false "evidence_missing" None false None source_revision
  | Some s =>
      let age := now - ss_received_at s in
      let decide_ ok reason stale :=
        mkFreshnessDecision ok reason (Some s) stale (Some age) source_revision in
      if bool_decide (ss_status s = UNAVAILABLE) then decide_ false "evidence_unavailable" false
      else if bool_decide (ss_status s = INVALID) then decide_ false "evidence_invalid" false
      else if (age <? 0) || (now <? ss_observed_at s) then decide_ false "future_observation" false
      else if negb (opt_scalar_eqb (ss_value s) (pre_expected p)) then
        decide_ false "value_mismatch" false
      else if bool_decide (ss_status s = CURRENT) then
        if max_age <? age then decide_ false "current_evidence_expired" false
        else decide_ true "current_evidence" false
      else if bool_decide (ss_status s = STALE) && stale_allowed p policy_decision then
        decide_ true "stale_evidence_explicitly_allowed" true
      else decide_ false "stale_evidence_not_allowed" false
  end.

(** ** Properties *)

(** Preconditions fail closed.  A precondition is satisfied exactly when
    there is a snapshot whose value equals the expected one, from neither the
    future nor a failed source, and it is either [CURRENT] and arrived at most
    the configured bound ago, or [STALE] under the double permission of the
    command (its [allow_stale]) and of a non-denying policy (its
    [allows_stale]); the decision is flagged as an exception exactly in the
    second case. *)
Theorem freshness_fails_closed max_age now snapshot p d rev :
  let decision := evaluate_freshness max_age now snapshot p d rev in
  (fd_satisfied decision = true <->
   exists s, snapshot = Some s /\ opt_scalar_eqb (ss_value s) (pre_expected p) = true /\
     ss_received_at s <= now /\ ss_observed_at s <= now /\
     ((ss_status s = CURRENT /\ now - ss_received_at s <= max_age) \/
      (ss_status s = STALE /\ pre_allow_stale p = true /\
       exists q, d = Some q /\ pd_allows_stale q = true /\ pd_action q <> PA_DENY))) /\
  (fd_stale_exception decision = true <->
   fd_satisfied decision = true /\ exists s, snapshot = Some s /\ ss_status s = STALE) /\
  fd_snapshot decision = snapshot.
Proof.
  assert (Hst : stale_allowed p d = true <-> pre_allow_stale p = true /\
       exists q, d = Some q /\ pd_allows_stale q = true /\ pd_action q <> PA_DENY).
  { unfold stale_allowed. rewrite andb_true_iff. destruct d as [q|]; [|naive_solver].
    assert (bool_decide (PolicyAction_value (pd_action q) ∈ ["allow"; "confirm"]) =
      negb (bool_decide (pd_action q = PA_DENY))) as -> by by destruct (pd_action q).
    rewrite andb_true_iff, negb_true_iff, bool_decide_eq_false. naive_solver. }
  unfold evaluate_freshness. destruct snapshot as [s|]; simpl;
    [|by repeat split; try done; intros (? & ? & _) || intros (_ & ? & ? & _)].
  assert (Hs : forall P, (exists s', Some s = Some s' /\ P s') <-> P s).
  { intros P. split; [by intros (? & [= <-] & ?)|eauto]. }
  rewrite !Hs, <- Hst. clear Hs Hst.
  destruct (Z.ltb_spec (now - ss_received_at s) 0), (Z.ltb_spec now (ss_observed_at s)),
    (opt_scalar_eqb (ss_value s) (pre_expected p)), (ss_status s),
    (Z.ltb_spec max_age (now - ss_received_at s)), (stale_allowed p d); simpl;
    (split; [|split; [|done]]); split; intros Hx; destruct_ands; try done; try lia;
    try (split; [done|]; split; [lia|]; split; [lia|]; by (left; split; [done|lia]) || by right);
    repeat match goal with H : _ \/ _ |- _ => destruct H | H : _ /\ _ |- _ => destruct H end;
    try done; lia.
Qed.
