(* ===== verification/Registry.v ===== *)
(** * Device registry and capability routing (runtime/source_models.py, runtime/registry.py)

    The registry merges what the sources report into canonical devices, keeps
    for every (device, capability) the routes through which it can be reached,
    and resolves a command to the one available route, or to a reason.

    A raw source entity is a Python [dict]; [SourceEntity] lists the entries the
    code reads, at the types the adapters emit ([None] for an absent entry). *)

From S2P Require Import Prelude.
From S2P Require Import Values.
From S2P Require Import Models.
From S2P Require Import StateStore.

(** ** Text helpers (ASCII) *)

Definition map_string (f : ascii -> ascii) (s : string) : string :=
  String.string_of_list_ascii (map f (String.list_ascii_of_string s)).
Definition is_upper (c : ascii) : bool :=
  let n := Ascii.nat_of_ascii c in Nat.leb 65 n && Nat.leb n 90.
Definition is_lower (c : ascii) : bool :=
  let n := Ascii.nat_of_ascii c in Nat.leb 97 n && Nat.leb n 122.
Definition to_lower (c : ascii) : ascii :=
  if is_upper c then Ascii.ascii_of_nat (Ascii.nat_of_ascii c + 32) else c.
Definition to_upper (c : ascii) : ascii :=
  if is_lower c then Ascii.ascii_of_nat (Ascii.nat_of_ascii c - 32) else c.

(** [s.strip(chars)] for the characters [p] selects *)
Fixpoint drop_while (p : ascii -> bool) (l : list ascii) : list ascii :=
  match l with
  | [] => []
  | c :: l' => if p c then drop_while p l' else l
  end.
Definition strip (p : ascii -> bool) (s : string) : string :=
  String.string_of_list_ascii
    (rev (drop_while p (rev (drop_while p (String.list_ascii_of_string s))))).

(** [a or b] on optional strings: an empty string is false *)
Definition or_else (a : option string) (b : string) : string :=
  match a with Some s => if is_empty s then b else s | None => b end.
Definition truthy (a : option string) : bool :=
  match a with Some s => negb (is_empty s) | None => false end.

(** [re.sub(r"[^a-z0-9]+", "-", ...)] *)
Fixpoint squeeze (dash : bool) (l : list ascii) : list ascii :=
  match l with
  | [] => []
  | c :: l =>
      if is_lower_alnum c then c :: squeeze false l
      else if dash then squeeze true l else "-"%char :: squeeze true l
  end.

Definition slug (value : string) : string :=
  let normalized :=
    strip (fun c => Ascii.eqb c "-")
      (String.string_of_list_ascii
        (squeeze false (String.list_ascii_of_string (map_string to_lower value)))) in
  if is_empty normalized then "device" else normalized.

(** [str.title()] *)
Fixpoint title_chars (in_word : bool) (l : list ascii) : list ascii :=
  match l with
  | [] => []
  | c :: l =>
      if is_upper c || is_lower c
      then (if in_word then to_lower c else to_upper c) :: title_chars true l
      else c :: title_chars false l
  end.
Definition area_title (area_id : string) : string :=
  String.string_of_list_ascii (title_chars false (String.list_ascii_of_string
    (map_string (fun c => if Ascii.eqb c "_" then " "%char else c) area_id))).

(** ** runtime/source_models.py *)

Record SourceEntity := mkSourceEntity {
  en_entity_id : option string;
  en_source_device_id : option string;
  en_device_id : option string;
  en_parent_source_device_id : option (option string);
  en_parent_device_id : option string;
  en_identity_keys : option (list string);
  en_connections : option (list string);
  en_canonical_id : option string;
  en_local_canonical_id : option string;
  en_area_id : option string;
  en_name : option string;
  en_domain : option string;
  en_semantic_type : option string;
  en_manufacturer : option string;
  en_model : option string;
  en_available : option json;
  en_capabilities : list Capability;
  en_source_adapter_id : option string;
  en_underscore_adapter_id : option string;
  en_adapter_id : option string
}.

Definition key_values (value : option (list string)) (field_name : string)
    : result exn (list string) :=
  match value with
  | None => Ok []
  | Some l =>
      let values := map (strip is_space) l in
      raise_if (existsb is_empty values)
        (ValueError (field_name +:+ " cannot contain empty values")) ≫= fun _ =>
      raise_if (negb (unique values))
        (ValueError (field_name +:+ " must not contain duplicates")) ≫= fun _ =>
      Ok values
  end.

Definition canonical_id (value : option string) : result exn (option string) :=
  match value with
  | None => Ok None
  | Some v =>
      let candidate := strip is_space v in
      raise_if (is_empty candidate || negb (canonical_id_pattern candidate))
        (ValueError "canonical_id must use the canonical lowercase identifier format") ≫= fun _ =>
      Ok (Some candidate)
  end.

Definition legacy_local_canonical_id (e : SourceEntity) (entity_id : string) : string :=
  or_else (en_area_id e) "unassigned" +:+ "." +:+ slug (or_else (en_name e) entity_id).

Record SourceIdentity := mkSourceIdentity {
  id_adapter_id : string;
  id_source_device_id : string;
  id_source_entity_id : string;
  id_identity_keys : list string;
  id_connections : list string;
  id_parent_source_device_id : option string;
  id_explicit_canonical_id : option string;
  id_local_canonical_id : string
}.

(** [SourceIdentity.from_entity]; [entity_id] keeps its unstripped text in the
    fallbacks, as in the source. *)
Definition from_entity (e : SourceEntity) (adapter_id : string) : result exn SourceIdentity :=
  let raw_entity_id := default "" (en_entity_id e) in
  let source_entity_id := strip is_space raw_entity_id in
  raise_if (is_empty source_entity_id) (ValueError "source entity requires entity_id") ≫= fun _ =>
  let source_device_id :=
    strip is_space (or_else (en_source_device_id e) (or_else (en_device_id e) source_entity_id)) in
  raise_if (is_empty source_device_id)
    (ValueError "source entity requires a source device identity") ≫= fun _ =>
  let parent := match en_parent_source_device_id e with
                | Some p => p
                | None => en_parent_device_id e
                end in
  let parent_id := strip is_space <$> parent in
  raise_if (bool_decide (parent_id = Some ""))
    (ValueError "parent device identity cannot be empty") ≫= fun _ =>
  key_values (en_identity_keys e) "identity_keys" ≫= fun keys =>
  key_values (en_connections e) "connections" ≫= fun connections =>
  canonical_id (en_canonical_id e) ≫= fun explicit =>
  Ok (mkSourceIdentity adapter_id source_device_id source_entity_id keys connections parent_id
        explicit (or_else (en_local_canonical_id e) (legacy_local_canonical_id e raw_entity_id))).

Definition join_sorted (l : list string) : string := String.concat "|" (isort String.leb l).

Definition identity_key (i : SourceIdentity) : string :=
  match id_explicit_canonical_id i with
  | Some c => "canonical:" +:+ c
  | None =>
      if bool_decide (id_identity_keys i <> []) then
        "source-identity:" +:+ id_adapter_id i +:+ ":" +:+ join_sorted (id_identity_keys i)
      else if bool_decide (id_connections i <> []) then
        "source-connection:" +:+ id_adapter_id i +:+ ":" +:+ join_sorted (id_connections i)
      else "source:" +:+ id_adapter_id i +:+ ":" +:+ id_source_device_id i
  end.

Record CapabilityRoute := mkCapabilityRoute {
  rt_canonical_device_id : string;
  rt_capability : string;
  rt_source_ref : SourceRef;
  rt_source_device_id : string;
  rt_local_canonical_id : string;
  rt_commands : list string;
  rt_available : bool;
  rt_readable : bool;
  rt_writable : bool
}.
#[global] Instance CapabilityRoute_eta : Eta CapabilityRoute := fun r =>
  mkCapabilityRoute (rt_canonical_device_id r) (rt_capability r) (rt_source_ref r)
    (rt_source_device_id r) (rt_local_canonical_id r) (rt_commands r) (rt_available r)
    (rt_readable r) (rt_writable r).

Record RouteResolution := mkRouteResolution {
  rr_route : option CapabilityRoute;
  rr_reason : option string;
  rr_candidates : list CapabilityRoute
}.

Definition capabilities_from_entity (e : SourceEntity) : result exn (list Capability) :=
  result_iter validate_capability (en_capabilities e) ≫= fun _ => Ok (en_capabilities e).

(** ** runtime/registry.py: state *)

Record Area := mkArea { area_id : string; area_name : string }.

Record DeviceRegistry := mkDeviceRegistry {
  rg_devices : odict string Device;
  rg_areas : odict string Area;
  rg_source_device_ids : odict key string;
  rg_source_entity_ids : odict key string;
  rg_identity_to_canonical : odict string string;
  rg_routes : odict key (list CapabilityRoute);
  rg_parent_source_devices : odict key string;
  rg_diagnostics : list (list (string * json))
}.
#[global] Instance DeviceRegistry_eta : Eta DeviceRegistry := fun r =>
  mkDeviceRegistry (rg_devices r) (rg_areas r) (rg_source_device_ids r) (rg_source_entity_ids r)
    (rg_identity_to_canonical r) (rg_routes r) (rg_parent_source_devices r) (rg_diagnostics r).

Definition empty_registry : DeviceRegistry := mkDeviceRegistry [] [] [] [] [] [] [] [].

(** [_devices.get(device_id)] ([get] of the source) *)
Definition get_device (r : DeviceRegistry) (id : string) : option Device :=
  od_get id (rg_devices r).
Definition set_device (d : Device) (r : DeviceRegistry) : DeviceRegistry :=
  r <| rg_devices := od_set (dev_id d) d (rg_devices r) |>.

Definition devices (r : DeviceRegistry) : list Device :=
  map snd (isort (fun a b => String.leb (fst a) (fst b)) (rg_devices r)).
Definition areas (r : DeviceRegistry) : list Area :=
  map snd (isort (fun a b => String.leb (fst a) (fst b)) (rg_areas r)).

Definition drain_diagnostics (r : DeviceRegistry) : list (list (string * json)) * DeviceRegistry :=
  (rg_diagnostics r, r <| rg_diagnostics := [] |>).

Definition canonical_id_for_source (r : DeviceRegistry) (adapter external : string)
    : option string := od_get (adapter, external) (rg_source_entity_ids r).
Definition parent_source_device_for (r : DeviceRegistry) (adapter source_device : string)
    : option string := od_get (adapter, source_device) (rg_parent_source_devices r).

(** ** Persisted inventory *)

Definition load_ref (d : Device) (r : DeviceRegistry) (ref : SourceRef) : DeviceRegistry :=
  let r := r <| rg_source_entity_ids :=
                  od_set (ref_key ref) (dev_id d) (rg_source_entity_ids r) |> in
  let r :=
    if truthy (sr_source_device_id ref) then
      let sd := default "" (sr_source_device_id ref) in
      r <| rg_source_device_ids :=
             od_set (sr_adapter_id ref, sd) (dev_id d) (rg_source_device_ids r) |>
        <| rg_identity_to_canonical :=
             od_set ("source:" +:+ sr_adapter_id ref +:+ ":" +:+ sd) (dev_id d)
               (rg_identity_to_canonical r) |>
    else r in
  let r :=
    if bool_decide (dev_identity_keys d <> []) then
      r <| rg_identity_to_canonical :=
             od_set ("source-identity:" +:+ sr_adapter_id ref +:+ ":" +:+
                     join_sorted (dev_identity_keys d)) (dev_id d) (rg_identity_to_canonical r) |>
    else r in
  if bool_decide (dev_connections d <> []) then
    r <| rg_identity_to_canonical :=
           od_set ("source-connection:" +:+ sr_adapter_id ref +:+ ":" +:+
                   join_sorted (dev_connections d)) (dev_id d) (rg_identity_to_canonical r) |>
  else r.

(** [DeviceRegistry.load_persisted] *)
Definition load_devices (l : list Device) (r : DeviceRegistry) : DeviceRegistry :=
  fold_left (fun r d => fold_left (load_ref d) (dev_source_refs d) (set_device d r)) l r.

(** ** Routes *)

Definition routes_for (r : DeviceRegistry) (device capability : string) : list CapabilityRoute :=
  default [] (od_get (device, capability) (rg_routes r)).

(** All routes of a device, whatever their capability. *)
Definition device_routes (id : string) (routes : odict key (list CapabilityRoute))
    : list CapabilityRoute :=
  flat_map (fun '(k, l) => if String.eqb (fst k) id then l else []) routes.

(** [capability.writable and command in capability.commands] *)
Definition writes (command : string) (c : Capability) : bool :=
  cap_writable c && bool_decide (command ∈ cap_commands c).

Definition resolve_command_route (r : DeviceRegistry) (device command : string)
    : RouteResolution :=
  match get_device r device with
  | None => mkRouteResolution None (Some "device_not_found") []
  | Some d =>
      match find_first (writes command) (dev_capabilities d) with
      | None => mkRouteResolution None (Some "unsupported_command") []
      | Some c =>
          let candidates :=
            List.filter (fun rt => bool_decide (command ∈ rt_commands rt))
              (routes_for r device (cap_name c)) in
          match candidates with
          | [rt] =>
              if negb (rt_available rt)
              then mkRouteResolution None (Some "source_unavailable") candidates
              else mkRouteResolution (Some rt) None candidates
          | [] => mkRouteResolution None (Some "route_not_found") []
          | _ => mkRouteResolution None (Some "ambiguous_route") candidates
          end
      end
  end.

Definition refresh_device_availability (id : string) (r : DeviceRegistry) : DeviceRegistry :=
  match get_device r id with
  | None => r
  | Some d =>
      match device_routes id (rg_routes r) with
      | [] => r
      | routes =>
          let availability :=
            if existsb rt_available routes then AV_AVAILABLE else AV_UNAVAILABLE in
          if bool_decide (dev_availability d = availability) then r
          else r <| rg_devices := od_set id (d <| dev_availability := availability |>)
                                    (rg_devices r) |>
      end
  end.

(** The route belongs to the adapter (and to the external id, if one is given). *)
Definition route_of_source (adapter : string) (external : option string) (rt : CapabilityRoute)
    : bool :=
  String.eqb (sr_adapter_id (rt_source_ref rt)) adapter &&
  match external with Some e => String.eqb (sr_external_id (rt_source_ref rt)) e | None => true end.

(** One iteration of [_mark_source_availability]. *)
Definition mark_routes (adapter : string) (external : option string) (available : bool)
    (acc : DeviceRegistry * bool) (entry : key * list CapabilityRoute) : DeviceRegistry * bool :=
  let '(r, changed) := acc in
  let '(k, routes) := entry in
  let updated :=
    map (fun rt => if route_of_source adapter external rt
                   then rt <| rt_available := available |> else rt) routes in
  let differs :=
    existsb (fun '(a, b) => negb (Bool.eqb (rt_available a) (rt_available b)))
      (combine routes updated) in
  (refresh_device_availability (fst k) (r <| rg_routes := od_set k updated (rg_routes r) |>),
   changed || differs).

Definition mark_source_availability (adapter : string) (external : option string)
    (available : bool) (r : DeviceRegistry) : bool * DeviceRegistry :=
  let '(r, changed) :=
    fold_left (mark_routes adapter external available) (rg_routes r) (r, false) in
  (changed, r).

(** ** Removing what a source no longer reports *)

Definition remove_routes (p : SourceRef -> bool) (id : string)
    (routes : odict key (list CapabilityRoute)) : odict key (list CapabilityRoute) :=
  flat_map (fun '(k, l) =>
    if String.eqb (fst k) id then
      match List.filter (fun rt => negb (p (rt_source_ref rt))) l with
      | [] => []
      | remaining => [(k, remaining)]
      end
    else [(k, l)]) routes.

(** The routes and entity ids of the stale sources go. *)
Definition purge_sources (id : string) (stale_keys : list key) (r : DeviceRegistry)
    : DeviceRegistry :=
  r <| rg_routes :=
         remove_routes (fun ref => bool_decide (ref_key ref ∈ stale_keys)) id (rg_routes r) |>
    <| rg_source_entity_ids :=
         List.filter (fun '(k, _) => negb (bool_decide (k ∈ stale_keys)))
           (rg_source_entity_ids r) |>.

Definition remove_source_refs (id : string) (stale : list SourceRef) (r : DeviceRegistry)
    : DeviceRegistry :=
  let stale_keys := map ref_key stale in
  let r := purge_sources id stale_keys r in
  match get_device r id with
  | None => r
  | Some d =>
      match List.filter (fun ref => negb (bool_decide (ref_key ref ∈ stale_keys)))
              (dev_source_refs d) with
      | [] =>
          r <| rg_devices := od_del id (rg_devices r) |>
            <| rg_source_device_ids :=
                 List.filter (fun '(_, v) => negb (String.eqb v id)) (rg_source_device_ids r) |>
      | remaining =>
          refresh_device_availability id
            (r <| rg_devices := od_set id (d <| dev_source_refs := remaining |>) (rg_devices r) |>)
      end
  end.

(** An entry of [snapshot.unsupported_sources]. *)
Record UnsupportedSource := mkUnsupportedSource {
  us_adapter_id : option string;
  us_source_adapter_id : option string;
  us_failure : bool
}.

(** One device of [_reconcile]; [seen] lists the entities each adapter reported. *)
Definition reconcile_device (seen : odict string (list string)) (authoritative : list string)
    (known : option (list string)) (r : DeviceRegistry) (id : string) : DeviceRegistry :=
  match get_device r id with
  | None => r
  | Some d =>
      let stale_refs :=
        List.filter (fun ref =>
          match known with
          | Some k => negb (bool_decide (sr_adapter_id ref ∈ k))
          | None => false
          end ||
          (bool_decide (sr_adapter_id ref ∈ authoritative) &&
           negb (bool_decide (sr_external_id ref ∈ default [] (od_get (sr_adapter_id ref) seen)))))
          (dev_source_refs d) in
      if bool_decide (stale_refs = []) then r else remove_source_refs id stale_refs r
  end.

Definition reconcile (seen : odict string (list string)) (unsupported : list UnsupportedSource)
    (default_adapter : string) (configured : option (list string)) (r : DeviceRegistry)
    : DeviceRegistry :=
  let failed :=
    map (fun u => or_else (us_adapter_id u) (or_else (us_source_adapter_id u) default_adapter))
      (List.filter us_failure unsupported) in
  let authoritative :=
    List.filter (fun a => negb (bool_decide (a ∈ failed))) (od_keys seen) in
  if bool_decide (authoritative = []) then r
  else
    let known := (fun c => c ++ failed) <$> configured in
    fold_left (reconcile_device seen authoritative known) (od_keys (rg_devices r)) r.

(** ** Canonical identities *)

(** [while f"{base}-{suffix}" in claimed_ids: suffix += 1]; [fuel] bounds the
    number of iterations. *)
Fixpoint next_suffix (fuel : nat) (claimed : list string) (base : string) (suffix : Z) : Z :=
  match fuel with
  | O => suffix
  | S fuel =>
      if bool_decide (base +:+ "-" +:+ pretty suffix ∈ claimed)
      then next_suffix fuel claimed base (suffix + 1) else suffix
  end.

(** Every id taken by a device, or by another identity. *)
Definition claimed_ids (r : DeviceRegistry) (ikey : string) : list string :=
  od_keys (rg_devices r) ++
  map snd (List.filter (fun '(k, _) => negb (String.eqb k ikey)) (rg_identity_to_canonical r)).

Definition canonical_id_for (i : SourceIdentity) (r : DeviceRegistry) : string * DeviceRegistry :=
  let ikey := identity_key i in
  let claim id := (id, r <| rg_identity_to_canonical :=
                             od_set ikey id (rg_identity_to_canonical r) |>) in
  match od_get (id_adapter_id i, id_source_entity_id i) (rg_source_entity_ids r) with
  | Some persisted => claim persisted
  | None =>
      match od_get ikey (rg_identity_to_canonical r) with
      | Some existing => (existing, r)
      | None =>
          match id_explicit_canonical_id i with
          | Some explicit => claim (if is_empty explicit then id_local_canonical_id i else explicit)
          | None =>
              let base := id_local_canonical_id i in
              let claimed := claimed_ids r ikey in
              if bool_decide (base ∈ claimed) then
                claim (base +:+ "-" +:+
                       pretty (next_suffix (S (List.length claimed)) claimed base 2))
              else claim base
          end
      end
  end.

(** ** Merging capabilities *)

(** Python's [==] on JSON values: numbers by value, dictionaries by key. *)
Fixpoint py_json_eqb (a b : json) {struct a} : bool :=
  match a, b with
  | JNull, JNull => true
  | JStr s, JStr t => String.eqb s t
  | JBool x, JBool y => Bool.eqb x y
  | JNum n, JNum m => num_eq n m
  | JNum n, JBool y => num_eq n (NInt (if y then 1 else 0))
  | JBool x, JNum m => num_eq (NInt (if x then 1 else 0)) m
  | JList l, JList k =>
      (fix go l k := match l, k with
       | [], [] => true
       | x :: l, y :: k => py_json_eqb x y && go l k
       | _, _ => false
       end) l k
  | JObj l, JObj k =>
      Nat.eqb (List.length l) (List.length k) &&
      (fix go l := match l with
       | [] => true
       | (f, x) :: l =>
           match od_get f k with Some y => py_json_eqb x y | None => false end && go l
       end) l
  | _, _ => false
  end.

Definition opt_num_eqb (a b : option num) : bool :=
  match a, b with
  | Some x, Some y => num_eq x y
  | None, None => true
  | _, _ => false
  end.

Definition guarantees_eqb (g h : CapabilityGuarantees) : bool :=
  opt_num_eqb (g_resolution g) (g_resolution h) && opt_num_eqb (g_tolerance g) (g_tolerance h) &&
  bool_decide (g_expected_latency_ms g = g_expected_latency_ms h) &&
  Bool.eqb (g_readback_required g) (g_readback_required h) &&
  Bool.eqb (g_reversible g) (g_reversible h) &&
  Bool.eqb (g_confirmation_required g) (g_confirmation_required h) &&
  bool_decide (g_availability_modes g = g_availability_modes h) &&
  bool_decide (g_commissioning_required g = g_commissioning_required h).

(** [previous == capability] *)
Definition capability_eqb (a b : Capability) : bool :=
  String.eqb (cap_name a) (cap_name b) && bool_decide (cap_kind a = cap_kind b) &&
  bool_decide (cap_unit a = cap_unit b) && Bool.eqb (cap_readable a) (cap_readable b) &&
  Bool.eqb (cap_writable a) (cap_writable b) && opt_num_eqb (cap_minimum a) (cap_minimum b) &&
  opt_num_eqb (cap_maximum a) (cap_maximum b) &&
  bool_decide (cap_enum_values a = cap_enum_values b) &&
  bool_decide (cap_commands a = cap_commands b) &&
  py_json_eqb (JObj (cap_constraints a)) (JObj (cap_constraints b)) &&
  guarantees_eqb (cap_guarantees a) (cap_guarantees b).

(** Both bounds are given and differ. *)
Definition bounds_conflict (a b : option num) : bool :=
  match a, b with Some x, Some y => negb (num_eq x y) | _, _ => false end.

Definition same_set (l k : list string) : bool :=
  forallb (fun x => bool_decide (x ∈ k)) l && forallb (fun x => bool_decide (x ∈ l)) k.

Definition constraints_conflict (l k : list (string * json)) : bool :=
  existsb (fun '(f, x) =>
    match od_get f k with Some y => negb (py_json_eqb x y) | None => false end) l.

Definition first_some {A} (a b : option A) : option A :=
  match a with Some _ => a | None => b end.

(** [{**left, **right}] *)
Definition dict_merge (l k : list (string * json)) : list (string * json) :=
  fold_left (fun d '(f, x) => od_set f x d) k l.

Definition combine_capabilities (l r : Capability) : option Capability :=
  if negb (bool_decide (cap_kind l = cap_kind r)) || negb (bool_decide (cap_unit l = cap_unit r))
  then None
  else if bounds_conflict (cap_minimum l) (cap_minimum r) ||
          bounds_conflict (cap_maximum l) (cap_maximum r) then None
  else if bool_decide (cap_enum_values l <> []) && bool_decide (cap_enum_values r <> []) &&
          negb (same_set (cap_enum_values l) (cap_enum_values r)) then None
  else if constraints_conflict (cap_constraints l) (cap_constraints r) then None
  else Some (l <| cap_readable := cap_readable l || cap_readable r |>
               <| cap_writable := cap_writable l || cap_writable r |>
               <| cap_minimum := first_some (cap_minimum l) (cap_minimum r) |>
               <| cap_maximum := first_some (cap_maximum l) (cap_maximum r) |>
               <| cap_enum_values := dedup (cap_enum_values l ++ cap_enum_values r) |>
               <| cap_commands := dedup (cap_commands l ++ cap_commands r) |>
               <| cap_constraints := dict_merge (cap_constraints l) (cap_constraints r) |>).

Definition diagnose (d : list (string * json)) (r : DeviceRegistry) : DeviceRegistry :=
  r <| rg_diagnostics := rg_diagnostics r ++ [d] |>.

(** One iteration of [_merge_capabilities]. *)
Definition merge_capability (id : string) (acc : odict string Capability * DeviceRegistry)
    (c : Capability) : odict string Capability * DeviceRegistry :=
  let '(merged, r) := acc in
  match od_get (cap_name c) merged with
  | None => (od_set (cap_name c) c merged, r)
  | Some previous =>
      if capability_eqb previous c then (od_set (cap_name c) c merged, r)
      else
        match combine_capabilities previous c with
        | None =>
            (merged, diagnose [("kind", JStr "capability_metadata_conflict");
                               ("device_id", JStr id); ("capability", JStr (cap_name c));
                               ("reason", JStr "source contributions disagree on capability metadata")] r)
        | Some combined => (od_set (cap_name c) combined merged, r)
        end
  end.

Definition merge_capabilities (existing : option Device) (capabilities : list Capability)
    (id : string) (r : DeviceRegistry) : list Capability * DeviceRegistry :=
  let start := fold_left (fun d c => od_set (cap_name c) c d)
                 (match existing with Some d => dev_capabilities d | None => [] end) [] in
  let '(merged, r) := fold_left (merge_capability id) capabilities (start, r) in
  (map snd (isort (fun a b => String.leb (fst a) (fst b)) merged), r).

Fixpoint replace_ref (ref : SourceRef) (refs : list SourceRef) : list SourceRef :=
  match refs with
  | [] => [ref]
  | x :: refs => if bool_decide (ref_key x = ref_key ref) then ref :: refs
                 else x :: replace_ref ref refs
  end.
Definition merge_source_refs (existing : option Device) (ref : SourceRef) : list SourceRef :=
  replace_ref ref (match existing with Some d => dev_source_refs d | None => [] end).

(** ** One source entity *)

Definition remove_source_capabilities (id : string) (ref : SourceRef) (r : DeviceRegistry)
    : DeviceRegistry :=
  let routes :=
    remove_routes (fun x => bool_decide (ref_key x = ref_key ref)) id (rg_routes r) in
  let r := r <| rg_routes := routes |> in
  match get_device r id with
  | None => r
  | Some d =>
      let route_capabilities :=
        map (fun '(k, _) => snd k)
          (List.filter (fun '(k, l) => String.eqb (fst k) id && bool_decide (l <> [])) routes) in
      r <| rg_devices := od_set id
             (d <| dev_capabilities :=
                List.filter (fun c => bool_decide (cap_name c ∈ route_capabilities))
                  (dev_capabilities d) |>) (rg_devices r) |>
  end.

Definition device_type_of (s : string) : option DeviceType :=
  find_first (fun t => String.eqb (DeviceType_value t) s)
    [LIGHT; SWITCH; COVER; CLIMATE; SENSOR; ENERGY; EV_CHARGER; UNSUPPORTED].

(** The first route of the same source is replaced in place, else appended. *)
Fixpoint place_route (rt : CapabilityRoute) (l : list CapabilityRoute) : list CapabilityRoute :=
  match l with
  | [] => [rt]
  | x :: l => if bool_decide (ref_key (rt_source_ref x) = ref_key (rt_source_ref rt))
              then rt :: l else x :: place_route rt l
  end.

Definition add_route (id : string) (ref : SourceRef) (i : SourceIdentity) (available : bool)
    (r : DeviceRegistry) (c : Capability) : DeviceRegistry :=
  let rt := mkCapabilityRoute id (cap_name c) ref (id_source_device_id i) (id_local_canonical_id i)
              (cap_commands c) available (cap_readable c) (cap_writable c) in
  r <| rg_routes := od_set (id, cap_name c) (place_route rt (routes_for r id (cap_name c)))
                      (rg_routes r) |>.

Definition opt_or {A} (d : option Device) (f : Device -> option A) (b : option A) : option A :=
  match d with Some x => first_some (f x) b | None => b end.

(** The [Device] a source contribution produces. *)
Definition build_device (e : SourceEntity) (id : string) (existing : option Device)
    (same_source available : bool) (semantic_type : DeviceType) (capabilities : list Capability)
    (source_refs : list SourceRef) (i : SourceIdentity) : Device :=
  let own_area := if truthy (en_area_id e) then en_area_id e else None in
  let protocols := dedup (map sr_adapter_id source_refs) in
  mkDevice id "v1" semantic_type
    (match existing with Some d => dev_name d | None => or_else (en_name e) id end)
    (if same_source then own_area else opt_or existing dev_area_id own_area)
    (opt_or existing dev_manufacturer (en_manufacturer e))
    (opt_or existing dev_model (en_model e))
    (match protocols with [p] => p | _ => "composite" end)
    capabilities
    (if available || match existing with
                     | Some d => bool_decide (dev_availability d = AV_AVAILABLE)
                     | None => false
                     end then AV_AVAILABLE else AV_UNAVAILABLE)
    source_refs
    (dedup (match existing with Some d => dev_identity_keys d | None => [] end ++ id_identity_keys i))
    (dedup (match existing with Some d => dev_connections d | None => [] end ++ id_connections i))
    None.

Definition upsert_entity (e : SourceEntity) (adapter_id : string)
    : stm DeviceRegistry exn string :=
  i ← lift (from_entity e adapter_id);
  r0 ← get_st;
  let '(id, r1) := canonical_id_for i r0 in
  put_st r1 ≫= fun _ =>
  capabilities ← lift (capabilities_from_entity e);
  available ← lift (match en_available e with
                    | None => Ok true
                    | Some (JBool b) => Ok b
                    | Some _ => Err TypeError
                    end);
  let ref := mkSourceRef adapter_id (id_source_entity_id i) (Some (id_source_device_id i))
               (Some (or_else (en_domain e) "unknown")) None in
  let same_source :=
    match get_device r1 id with
    | Some d => existsb (fun x => bool_decide (ref_key x = ref_key ref)) (dev_source_refs d)
    | None => false
    end in
  let r2 := if same_source then remove_source_capabilities id ref r1 else r1 in
  let existing := get_device r2 id in
  let '(merged, r3) := merge_capabilities existing capabilities id r2 in
  put_st r3 ≫= fun _ =>
  let refs := merge_source_refs existing ref in
  semantic ← lift (match device_type_of (default "unsupported" (en_semantic_type e)) with
                   | Some t => Ok t
                   | None => Err (ValueError "not a valid DeviceType")
                   end);
  let conflict := match existing with
                  | Some d => negb (bool_decide (dev_type d = semantic)) && negb same_source
                  | None => false
                  end in
  let r4 := if conflict then
      diagnose [("kind", JStr "canonical_type_conflict"); ("device_id", JStr id);
                ("reason", JStr "source contributions disagree on semantic type")] r3
    else r3 in
  put_st r4 ≫= fun _ =>
  let t := if conflict then match existing with Some d => dev_type d | None => semantic end
           else semantic in
  let d := build_device e id existing same_source available t merged refs i in
  lift (validate_device d) ≫= fun _ =>
  let r5 := set_device d r4
      <| rg_source_device_ids :=
           od_set (adapter_id, id_source_device_id i) id (rg_source_device_ids r4) |>
      <| rg_source_entity_ids :=
           od_set (adapter_id, id_source_entity_id i) id (rg_source_entity_ids r4) |> in
  let r6 := match id_parent_source_device_id i with
            | Some p => r5 <| rg_parent_source_devices :=
                od_set (adapter_id, id_source_device_id i) p (rg_parent_source_devices r5) |>
            | None => r5
            end in
  let r7 := fold_left (add_route id ref i available) capabilities r6 in
  put_st (refresh_device_availability id r7) ≫= fun _ =>
  mret (id_source_entity_id i).

(** ** A discovery snapshot *)

Record AdapterSnapshot := mkAdapterSnapshot {
  as_areas : list (string * option string);
  as_source_entities : list SourceEntity;
  as_unsupported_sources : list UnsupportedSource
}.

Definition add_seen (adapter entity : string) (seen : odict string (list string))
    : odict string (list string) :=
  od_set adapter (entity :: default [] (od_get adapter seen)) seen.

(** The entity loop: an entity rejected with a [TypeError] or a [ValueError]
    leaves a diagnostic, any other exception ends the loop. *)
Fixpoint apply_entities (adapter_id : string) (l : list SourceEntity)
    (seen : odict string (list string)) : stm DeviceRegistry exn (odict string (list string)) :=
  match l with
  | [] => mret seen
  | e :: l => fun r =>
      let effective :=
        or_else (en_source_adapter_id e)
          (or_else (en_underscore_adapter_id e) (or_else (en_adapter_id e) adapter_id)) in
      let seen := od_set effective (default [] (od_get effective seen)) seen in
      let rejected r reason :=
        diagnose [("kind", JStr "source_entity_rejected"); ("adapter_id", JStr effective);
                  ("entity_id", JStr (default "" (en_entity_id e))); ("reason", JStr (String.substring 0 200 reason))] r in
      match upsert_entity e effective r with
      | (Ok entity_id, r) => apply_entities adapter_id l (add_seen effective entity_id seen) r
      | (Err (ValueError m), r) => apply_entities adapter_id l seen (rejected r m)
      | (Err TypeError, r) =>
          apply_entities adapter_id l seen (rejected r "entity availability must be a boolean")
      | (Err err, r) => (Err err, r)
      end
  end.

(** [DeviceRegistry.apply_snapshot] *)
Definition apply_discovery (snapshot : AdapterSnapshot) (adapter_id : string)
    (configured : option (list string)) : stm DeviceRegistry exn (list Device * list Area) :=
  modify (fun r => r <| rg_areas :=
    fold_left (fun d '(id, name) => od_set id (mkArea id (or_else name (area_title id))) d)
      (as_areas snapshot) (rg_areas r) |>) ≫= fun _ =>
  seen ← apply_entities adapter_id (as_source_entities snapshot) [];
  modify (reconcile seen (as_unsupported_sources snapshot) adapter_id configured) ≫= fun _ =>
  r ← get_st;
  mret (devices r, areas r).

(** ** Properties *)

Lemma elem_of_filter_list {A} (p : A -> bool) l x : x ∈ List.filter p l <-> x ∈ l /\ p x = true.
Proof. by rewrite !list_elem_of_In, filter_In. Qed.

(** command routing is unambiguous.  A route is returned exactly when the
    device is known, the first writable capability that lists the command has
    one single route that carries it, and that route is available; the answer
    is that route.  Without a route there is a reason, so the caller never
    mistakes an unresolved command for a resolved one. *)
Theorem resolve_command_route_unique r device command rt :
  rr_route (resolve_command_route r device command) = Some rt <->
  exists d c, get_device r device = Some d /\
    find_first (writes command) (dev_capabilities d) = Some c /\
    List.filter (fun x => bool_decide (command ∈ rt_commands x)) (routes_for r device (cap_name c))
      = [rt] /\
    rt_available rt = true /\
    rr_reason (resolve_command_route r device command) = None.
Proof.
  unfold resolve_command_route. split.
  - destruct (get_device r device) as [d|]; [|done].
    destruct (find_first _ _) as [c|] eqn:Ec; [|done].
    destruct (List.filter _ _) as [|x [|y l]] eqn:El; try done.
    destruct (rt_available x) eqn:Ea; [|done]. simpl. intros [= <-]. eauto 10.
  - intros (d & c & -> & -> & -> & -> & _). done.
Qed.

(** *** Availability *)

(** A device with routes is [AVAILABLE] exactly when one of them is. *)
Definition registry_consistent (r : DeviceRegistry) : Prop :=
  forall id d, get_device r id = Some d -> device_routes id (rg_routes r) <> [] ->
    dev_availability d =
      if existsb rt_available (device_routes id (rg_routes r)) then AV_AVAILABLE else AV_UNAVAILABLE.

Lemma device_routes_cons id k l routes :
  device_routes id ((k, l) :: routes) =
    (if String.eqb (fst k) id then l else []) ++ device_routes id routes.
Proof. done. Qed.

Lemma device_routes_set_other id k l routes :
  fst k <> id -> device_routes id (od_set k l routes) = device_routes id routes.
Proof.
  intros Hk. assert (String.eqb (fst k) id = false) as E by by apply String.eqb_neq.
  induction routes as [|[k' l'] routes IH]; simpl od_set.
  - rewrite device_routes_cons, E. done.
  - case_decide as Hd; [subst k'|]; rewrite !device_routes_cons; [by rewrite E|].
    by rewrite IH.
Qed.

Lemma get_device_set_routes r routes id :
  get_device (r <| rg_routes := routes |>) id = get_device r id.
Proof. done. Qed.

Lemma refresh_routes id r : rg_routes (refresh_device_availability id r) = rg_routes r.
Proof. unfold refresh_device_availability. by repeat case_match. Qed.

Lemma refresh_get_other id r id' :
  id' <> id -> get_device (refresh_device_availability id r) id' = get_device r id'.
Proof.
  intros Hne. unfold refresh_device_availability. repeat case_match; try done.
  all: unfold get_device; simpl; rewrite od_get_set; by rewrite decide_False.
Qed.

(** The refreshed device differs at most in its availability. *)
Lemma refresh_get id r :
  get_device (refresh_device_availability id r) id =
    match device_routes id (rg_routes r) with
    | [] => get_device r id
    | l => (fun d => d <| dev_availability :=
              if existsb rt_available l then AV_AVAILABLE else AV_UNAVAILABLE |>) <$> get_device r id
    end.
Proof.
  unfold refresh_device_availability. destruct (get_device r id) as [d|] eqn:Ed.
  2: { by destruct (device_routes id (rg_routes r)). }
  destruct (device_routes id (rg_routes r)) as [|x l] eqn:El; [done|].
  set (a := if existsb rt_available (x :: l) then AV_AVAILABLE else AV_UNAVAILABLE).
  clearbody a. case_bool_decide as Ea.
  - rewrite Ed. simpl. rewrite <- Ea. by destruct d.
  - unfold get_device. simpl. by rewrite od_get_set_eq.
Qed.

Lemma refresh_consistent id r :
  (forall id' d, id' <> id -> get_device r id' = Some d -> device_routes id' (rg_routes r) <> [] ->
    dev_availability d =
      if existsb rt_available (device_routes id' (rg_routes r)) then AV_AVAILABLE else AV_UNAVAILABLE) ->
  registry_consistent (refresh_device_availability id r).
Proof.
  intros H id' d Hd Hr. rewrite refresh_routes in *. destruct (decide (id' = id)) as [->|Hne].
  - rewrite refresh_get in Hd. destruct (device_routes id (rg_routes r)); [done|].
    destruct (get_device r id); [|done]. by injection Hd as <-.
  - rewrite refresh_get_other in Hd by done. by apply H.
Qed.

Lemma mark_routes_consistent adapter external available acc entry :
  registry_consistent (fst acc) ->
  registry_consistent (fst (mark_routes adapter external available acc entry)).
Proof.
  destruct acc as [r changed], entry as [k l]. simpl. intros H.
  apply refresh_consistent. intros id d Hne Hd Hr. simpl in Hr |- *.
  rewrite device_routes_set_other in * by congruence. by apply H.
Qed.

Lemma mark_routes_get adapter external available acc entry :
  rg_routes (fst (mark_routes adapter external available acc entry)) =
    od_set (fst entry) (map (fun rt => if route_of_source adapter external rt
      then rt <| rt_available := available |> else rt) (snd entry)) (rg_routes (fst acc)).
Proof. destruct acc as [r changed], entry as [k l]. simpl. by rewrite refresh_routes. Qed.

(** Every route of the source that is filed under an already marked key has
    the new availability. *)
Lemma mark_fold adapter external available l acc :
  (forall k routes, od_get k (rg_routes (fst acc)) = Some routes ->
     (exists routes', (k, routes') ∈ (l : list (key * list CapabilityRoute))) \/
     Forall (fun rt => route_of_source adapter external rt = true -> rt_available rt = available) routes) ->
  let r := fst (fold_left (mark_routes adapter external available) l acc) in
  forall k routes, od_get k (rg_routes r) = Some routes ->
    Forall (fun rt => route_of_source adapter external rt = true -> rt_available rt = available) routes.
Proof.
  revert acc. induction l as [|[k0 l0] l IH]; intros acc H; simpl.
  - intros k routes Hk. destruct (H k routes Hk) as [(? & ?%elem_of_nil)|?]; done.
  - apply IH. intros k routes. rewrite mark_routes_get, od_get_set. case_decide as Hk.
    + intros [= <-]. right. rewrite Forall_map. apply Forall_true. intros rt.
      simpl. destruct (route_of_source adapter external rt) eqn:E; [done|congruence].
    + intros Hg. destruct (H _ _ Hg) as [(routes' & Hin)|?]; [left|by right].
      apply elem_of_cons in Hin as [[= ? ?]|?]; [done|eauto].
Qed.

Lemma mark_fold_consistent adapter external available l acc :
  registry_consistent (fst acc) ->
  registry_consistent (fst (fold_left (mark_routes adapter external available) l acc)).
Proof.
  revert acc. induction l as [|x l IH]; intros acc H; cbn [fold_left]; [done|].
  apply IH, mark_routes_consistent, H.
Qed.

(** losing a source disables its routes.  After
    [mark_source_unavailable] no command of any device resolves to a route of
    the lost adapter (or of the lost external id), whatever was registered; and
    device availability stays in step with the routes. *)
Theorem source_loss_disables_routes adapter external r :
  let r' := snd (mark_source_availability adapter external false r) in
  (forall device command rt,
     rr_route (resolve_command_route r' device command) = Some rt ->
     route_of_source adapter external rt = false) /\
  (registry_consistent r -> registry_consistent r').
Proof.
  unfold mark_source_availability.
  pose proof (mark_fold adapter external false (rg_routes r) (r, false)) as Hf.
  pose proof (mark_fold_consistent adapter external false (rg_routes r) (r, false)) as Hc.
  destruct (fold_left _ _ _) as [r' changed]. simpl in *. split; [|done].
  intros device command rt Hrt. destruct (route_of_source adapter external rt) eqn:E; [|done].
  exfalso. revert Hrt. unfold resolve_command_route.
  destruct (get_device r' device) as [d|]; [|done].
  destruct (find_first _ _) as [c|]; [|done].
  destruct (List.filter _ _) as [|x [|y l]] eqn:El; try done.
  destruct (rt_available x) eqn:Ea; [|done]. intros [= ->].
  assert (Hin : rt ∈ routes_for r' device (cap_name c)).
  { assert (rt ∈ [rt]) as Hx by set_solver. rewrite <- El in Hx.
    by apply elem_of_filter_list in Hx as [? _]. }
  unfold routes_for in Hin. destruct (od_get _ (rg_routes r')) as [routes|] eqn:Eg; [|set_solver].
  simpl in Hin. apply Hf in Eg.
  - rewrite Forall_forall in Eg. specialize (Eg rt Hin E). congruence.
  - intros k routes' Hk. left. exists routes'. by apply od_get_elem.
Qed.

(** *** Canonical ids *)

Definition suffixed (base : string) (n : Z) : string := base +:+ "-" +:+ pretty n.

#[global] Instance suffixed_inj base : Inj (=) (=) (suffixed base).
Proof.
  intros n m H. unfold suffixed in H.
  apply (inj (String.append base)), (inj (String.append "-")) in H. by apply (inj pretty) in H.
Qed.

Lemma next_suffix_spec fuel claimed base n :
  suffixed base (next_suffix fuel claimed base n) ∉ claimed \/
  Forall (fun i => suffixed base i ∈ claimed) (seqZ n (Z.of_nat fuel)).
Proof.
  revert n. induction fuel as [|fuel IH]; intros n; [by right|]. simpl.
  case_bool_decide as Hin; [|by left]. destruct (IH (n + 1)) as [|H]; [by left|right].
  rewrite seqZ_cons by lia. constructor; [done|].
  by replace (Z.pred (Z.of_nat (S fuel))) with (Z.of_nat fuel) by lia.
Qed.

Lemma next_suffix_fresh claimed base n :
  suffixed base (next_suffix (S (List.length claimed)) claimed base n) ∉ claimed.
Proof.
  destruct (next_suffix_spec (S (List.length claimed)) claimed base n) as [|H]; [done|exfalso].
  assert (Hsub : map (suffixed base) (seqZ n (Z.of_nat (S (List.length claimed)))) ⊆+ claimed).
  { apply NoDup_submseteq.
    - apply NoDup_fmap_2; [apply _|]. apply NoDup_seqZ.
    - intros x (i & -> & Hi)%list_elem_of_fmap. rewrite Forall_forall in H. by apply H. }
  apply submseteq_length in Hsub. rewrite length_map, length_seqZ in Hsub. lia.
Qed.

Lemma od_get_keys {V} (d : odict string V) k v : od_get k d = Some v -> k ∈ od_keys d.
Proof. intros H%od_get_elem. apply list_elem_of_fmap. by exists (k, v). Qed.

(** a new source never takes over a known device.  For an entity without a
    declared canonical id, whose source and identity the registry does not know
    yet, the allocated id (the local name, or the first free numbered variant;
    the search always ends) is no device's id and no other identity's id, and it
    is remembered for this identity alone. *)
Theorem new_canonical_id_fresh i r id r' :
  canonical_id_for i r = (id, r') ->
  od_get (id_adapter_id i, id_source_entity_id i) (rg_source_entity_ids r) = None ->
  od_get (identity_key i) (rg_identity_to_canonical r) = None ->
  id_explicit_canonical_id i = None ->
  get_device r id = None /\
  (forall k, od_get k (rg_identity_to_canonical r) <> Some id) /\
  (forall k, od_get k (rg_identity_to_canonical r') = Some id <-> k = identity_key i) /\
  (id = id_local_canonical_id i \/ exists n, id = suffixed (id_local_canonical_id i) n).
Proof.
  unfold canonical_id_for. intros H E1 E2 E3. rewrite E1, E2, E3 in H.
  assert (Hfresh : id ∉ claimed_ids r (identity_key i) /\
    (id = id_local_canonical_id i \/ exists n, id = suffixed (id_local_canonical_id i) n) /\
    r' = r <| rg_identity_to_canonical :=
                od_set (identity_key i) id (rg_identity_to_canonical r) |>).
  { case_bool_decide; injection H as <- <-; [|by auto].
    split; [apply next_suffix_fresh|]. split; [right; by eexists|done]. }
  clear H. destruct Hfresh as (Hf & Hid & ->). unfold claimed_ids in Hf.
  rewrite not_elem_of_app in Hf. destruct Hf as [Hd Hi].
  assert (Hnone : forall k, od_get k (rg_identity_to_canonical r) <> Some id).
  { intros k Hk. destruct (decide (k = identity_key i)) as [->|Hne]; [congruence|].
    apply Hi, list_elem_of_fmap. exists (k, id). split; [done|].
    apply elem_of_filter_list. split; [by apply od_get_elem|].
    apply negb_true_iff. by apply String.eqb_neq. }
  split.
  { destruct (get_device r id) eqn:Eg; [|done]. by apply od_get_keys in Eg. }
  split; [done|]. split; [|done].
  intros k. simpl. rewrite od_get_set. case_decide; [done|]. split; [by intros ?%Hnone|done].
Qed.

(** *** Reconciliation *)

Definition stale_ref (seen : odict string (list string)) (authoritative : list string)
    (known : option (list string)) (ref : SourceRef) : bool :=
  match known with
  | Some k => negb (bool_decide (sr_adapter_id ref ∈ k))
  | None => false
  end ||
  (bool_decide (sr_adapter_id ref ∈ authoritative) &&
   negb (bool_decide (sr_external_id ref ∈ default [] (od_get (sr_adapter_id ref) seen)))).

Lemma remove_source_refs_get_other id stale r id' :
  id' <> id -> get_device (remove_source_refs id stale r) id' = get_device r id'.
Proof.
  intros Hne. unfold remove_source_refs. cbv zeta.
  change (get_device r id') with (get_device (purge_sources id (map ref_key stale) r) id').
  generalize (purge_sources id (map ref_key stale) r) as r1. intros r1.
  destruct (get_device r1 id) as [d|]; [|done].
  destruct (List.filter _ (dev_source_refs d)) as [|x l].
  - unfold get_device. simpl. rewrite od_get_del. by rewrite decide_False.
  - rewrite refresh_get_other by done. unfold get_device. simpl. rewrite od_get_set.
    by rewrite decide_False.
Qed.

Lemma remove_source_refs_get id stale r d :
  get_device (remove_source_refs id stale r) id = Some d ->
  exists d0, get_device r id = Some d0 /\
    forall ref, ref ∈ dev_source_refs d -> ref ∈ dev_source_refs d0 /\ ref ∉ stale.
Proof.
  unfold remove_source_refs. cbv zeta.
  change (get_device r id) with (get_device (purge_sources id (map ref_key stale) r) id).
  generalize (purge_sources id (map ref_key stale) r) as r1. intros r1.
  destruct (get_device r1 id) as [d0|] eqn:E0; [|congruence].
  destruct (List.filter _ (dev_source_refs d0)) as [|x l] eqn:El.
  - unfold get_device. simpl. rewrite od_get_del. by rewrite decide_True.
  - rewrite refresh_get. unfold get_device at 1. unfold get_device at 1. simpl.
    rewrite od_get_set_eq. intros Hd. exists d0. split; [done|].
    assert (dev_source_refs d = x :: l) as ->
      by by (destruct (device_routes id (rg_routes _)); injection Hd as <-).
    rewrite <- El. intros ref [Href Hs]%elem_of_filter_list. split; [done|].
    apply negb_true_iff, bool_decide_eq_false in Hs. intros Hin. apply Hs.
    apply list_elem_of_fmap. eauto.
Qed.

Lemma reconcile_device_get_other seen authoritative known r id id' :
  id' <> id -> get_device (reconcile_device seen authoritative known r id) id' = get_device r id'.
Proof.
  intros Hne. unfold reconcile_device. destruct (get_device r id); [|done].
  case_bool_decide; [done|]. by apply remove_source_refs_get_other.
Qed.

Lemma reconcile_device_get seen authoritative known r id d :
  get_device (reconcile_device seen authoritative known r id) id = Some d ->
  forall ref, ref ∈ dev_source_refs d -> stale_ref seen authoritative known ref = false.
Proof.
  unfold reconcile_device. destruct (get_device r id) as [d0|] eqn:E0; [|congruence].
  set (stale := List.filter _ _).
  assert (Hs : forall ref, ref ∈ dev_source_refs d0 -> ref ∉ stale ->
    stale_ref seen authoritative known ref = false).
  { intros ref Hin Hn. destruct (stale_ref _ _ _ ref) eqn:E; [|done]. exfalso. apply Hn.
    by apply elem_of_filter_list. }
  case_bool_decide as Hnil.
  - rewrite E0. intros [= <-] ref Hin. apply Hs; [done|]. rewrite Hnil. set_solver.
  - intros Hg ref Hin. destruct (remove_source_refs_get _ _ _ _ Hg) as (d1 & E1 & Hd1).
    rewrite E0 in E1. injection E1 as <-. apply Hs; by apply Hd1.
Qed.

Lemma reconcile_fold seen authoritative known ids r id d :
  let r' := fold_left (reconcile_device seen authoritative known) ids r in
  get_device r' id = Some d ->
  (id ∈ ids -> forall ref, ref ∈ dev_source_refs d -> stale_ref seen authoritative known ref = false)
  /\ (id ∉ ids -> get_device r id = Some d).
Proof.
  revert r. induction ids as [|i ids IH] using rev_ind; intros r; simpl; [set_solver|].
  rewrite fold_left_app. simpl. destruct (decide (id = i)) as [->|Hne]; intros Hg.
  - split; [|set_solver]. intros _. by eapply reconcile_device_get.
  - rewrite reconcile_device_get_other in Hg by done. apply IH in Hg as [H1 H2].
    split; intros Hin; [apply H1|apply H2]; set_solver.
Qed.

Lemma reconcile_fold_keys seen authoritative known ids r id d :
  get_device (fold_left (reconcile_device seen authoritative known) ids r) id = Some d ->
  is_Some (get_device r id).
Proof.
  revert r. induction ids as [|i ids IH]; intros r; simpl; [by eexists|].
  intros H%IH. destruct (decide (id = i)) as [->|Hne].
  - unfold reconcile_device in H. destruct (get_device r i) eqn:E; [by eexists|]. by rewrite E in H.
  - by rewrite reconcile_device_get_other in H.
Qed.

(** discovery removes what disappeared.  After a reconciliation in which at
    least one adapter answered, no device keeps a source reference of an adapter
    that answered without reporting that entity, nor of an adapter that is
    neither configured nor failing. *)
Theorem reconcile_drops_disappeared seen unsupported default_adapter configured r id d ref :
  let failed := map (fun u => or_else (us_adapter_id u) (or_else (us_source_adapter_id u) default_adapter))
                  (List.filter us_failure unsupported) in
  let r' := reconcile seen unsupported default_adapter configured r in
  (exists a, a ∈ od_keys seen /\ a ∉ failed) ->
  get_device r' id = Some d -> ref ∈ dev_source_refs d ->
  (sr_adapter_id ref ∈ od_keys seen -> sr_adapter_id ref ∉ failed ->
     sr_external_id ref ∈ default [] (od_get (sr_adapter_id ref) seen)) /\
  (forall c, configured = Some c -> sr_adapter_id ref ∈ c ++ failed).
Proof.
  cbv zeta. unfold reconcile. set (failed := map _ _). set (auth := List.filter _ _).
  intros (a & Ha & Hf) Hg Href.
  assert (Hauth : forall x, x ∈ auth <-> x ∈ od_keys seen /\ x ∉ failed).
  { intros x. unfold auth. rewrite elem_of_filter_list, negb_true_iff, bool_decide_eq_false. done. }
  rewrite bool_decide_eq_false_2 in Hg.
  2: { intros E. apply (not_elem_of_nil a). rewrite <- E. by apply Hauth. }
  destruct (reconcile_fold_keys _ _ _ _ _ _ _ Hg) as [d0 Hd0].
  apply reconcile_fold in Hg as [Hg _]. specialize (Hg (od_get_keys _ _ _ Hd0) ref Href).
  unfold stale_ref in Hg. apply orb_false_iff in Hg as [H1 H2]. split.
  - intros Hs Hnf. rewrite bool_decide_eq_true_2 in H2 by by apply Hauth.
    by apply negb_false_iff, bool_decide_eq_true in H2.
  - intros c ->. simpl in H1. by apply negb_false_iff, bool_decide_eq_true in H1.
Qed.

(** *** Merged capabilities *)

(** merging two contributions to one capability hides no conflict and loses
    no surface: a merge exists only when kind, unit, given bounds, enumerations
    and shared constraints agree; the result then reads and writes what either
    contribution did, accepts the commands of both and no others, and is
    bounded wherever one contribution was. *)
Theorem combine_capabilities_sound l r c :
  combine_capabilities l r = Some c ->
  cap_kind l = cap_kind r /\ cap_unit l = cap_unit r /\
  cap_readable c = (cap_readable l || cap_readable r) /\
  cap_writable c = (cap_writable l || cap_writable r) /\
  (forall x, x ∈ cap_commands c <-> x ∈ cap_commands l \/ x ∈ cap_commands r) /\
  (forall x, cap_minimum l = Some x -> cap_minimum c = Some x /\
     forall y, cap_minimum r = Some y -> num_eq x y = true) /\
  (forall y, cap_minimum r = Some y -> is_Some (cap_minimum c)) /\
  (forall x, cap_maximum l = Some x -> cap_maximum c = Some x /\
     forall y, cap_maximum r = Some y -> num_eq x y = true) /\
  (forall y, cap_maximum r = Some y -> is_Some (cap_maximum c)) /\
  (cap_enum_values l <> [] -> forall x, x ∈ cap_enum_values c <-> x ∈ cap_enum_values l).
Proof.
  unfold combine_capabilities, bounds_conflict. intros H.
  repeat match type of H with (if ?b then _ else _) = _ => destruct b eqn:?; [done|] end.
  destruct_ands. injection H as <-. simpl.
  repeat match goal with |- _ /\ _ => split end; try done.
  - intros x. by rewrite elem_of_dedup, elem_of_app.
  - intros x E. rewrite E in *. split; [done|]. intros y E'. rewrite E' in *. by destruct_ands.
  - intros y E. rewrite E. destruct (cap_minimum l); simpl; eauto.
  - intros x E. rewrite E in *. split; [done|]. intros y E'. rewrite E' in *. by destruct_ands.
  - intros y E. rewrite E. destruct (cap_maximum l); simpl; eauto.
  - intros Hl x. rewrite elem_of_dedup, elem_of_app.
    split; [|by left]. intros [?|Hx]; [done|].
    match goal with Hc : context [same_set] |- _ => revert Hc end.
    rewrite (bool_decide_eq_true_2 _ Hl), bool_decide_eq_true_2
      by (intros E; rewrite E in Hx; set_solver).
    simpl. unfold same_set. rewrite negb_false_iff, andb_true_iff, !forallb_forall.
    intros [_ Hc]. specialize (Hc x). rewrite bool_decide_eq_true in Hc.
    apply Hc. by apply list_elem_of_In.
Qed.

(** *** Witnesses: a lamp two adapters see *)

Definition example_capability : Capability :=
  mkCapability "power" BOOLEAN None true true None None [] ["turn_on"; "turn_off"] []
    default_guarantees.
Definition example_entity (entity : string) : SourceEntity :=
  mkSourceEntity (Some entity) None None None None None None None None (Some "office")
    (Some "Desk Lamp") (Some "light") (Some "light") None None None [example_capability]
    None None None.

Definition example_registry : DeviceRegistry :=
  Eval vm_compute in
    snd (apply_discovery (mkAdapterSnapshot [] [example_entity "light.desk"] []) "ha" None
           empty_registry).

(** The slug, the registered id and the resolved route of the example. *)
Example example_slug : slug "Desk  Lamp!" = "desk-lamp".
Proof. reflexivity. Qed.
Example example_ids : od_keys (rg_devices example_registry) = ["office.desk-lamp"].
Proof. reflexivity. Qed.
Example example_resolves :
  opt_bool (rr_route (resolve_command_route example_registry "office.desk-lamp" "turn_on")) = true.
Proof. reflexivity. Qed.

Lemma source_loss_disables_routes_witness :
  registry_consistent (snd (mark_source_availability "ha" None false example_registry)).
Proof.
  apply (source_loss_disables_routes "ha" None example_registry).
  intros id d Hd _. vm_compute in Hd.
  destruct (decide (id = "office.desk-lamp")) as [->|Hne].
  - injection Hd as <-. reflexivity.
  - exfalso. revert Hd. by case_match.
Defined.

(** A second entity with the same friendly name gets an id of its own. *)
Definition example_identity : SourceIdentity :=
  mkSourceIdentity "hue" "bulb-7" "7" [] [] None None "office.desk-lamp".

Lemma new_canonical_id_fresh_witness :
  fst (canonical_id_for example_identity example_registry) = "office.desk-lamp-2" /\
  get_device example_registry "office.desk-lamp-2" = None.
Proof.
  split; [reflexivity|].
  exact (proj1 (new_canonical_id_fresh example_identity example_registry "office.desk-lamp-2"
    (snd (canonical_id_for example_identity example_registry)) eq_refl eq_refl eq_refl eq_refl)).
Defined.

Lemma reconcile_drops_disappeared_witness :
  "light.desk" ∈ default [] (od_get "ha" [("ha", ["light.desk"])]).
Proof.
  edestruct (reconcile_drops_disappeared [("ha", ["light.desk"])] [] "ha" None example_registry
    "office.desk-lamp") as [H _].
  - exists "ha". split; [constructor|]. apply not_elem_of_nil.
  - reflexivity.
  - apply list_elem_of_here.
  - apply H; [apply list_elem_of_here|apply not_elem_of_nil].
Defined.

Definition example_toggle : Capability := example_capability <| cap_commands := ["toggle"] |>.
Definition example_combined : Capability :=
  Eval vm_compute in
    default example_capability (combine_capabilities example_capability example_toggle).

Lemma combine_capabilities_sound_witness :
  "toggle" ∈ cap_commands example_combined.
Proof.
  destruct (combine_capabilities_sound example_capability example_toggle example_combined eq_refl)
    as (_ & _ & _ & _ & H & _).
  apply H. right. apply list_elem_of_here.
Defined.

(** One entity with a step no float can hold makes the whole snapshot fail: the
    overflow is not among the errors that reject a single entity. *)
Definition example_huge_step : Capability :=
  mkCapability "level" INTEGER None true true None None [] ["set_level"]
    [("step", JNum (NInt (2 ^ 1100)))] default_guarantees.
Definition example_huge_entity : SourceEntity :=
  mkSourceEntity (Some "sensor.odd") None None None None None None None None None (Some "Odd")
    (Some "sensor") (Some "sensor") None None None [example_huge_step] None None None.
Example huge_step_aborts_discovery :
  fst (apply_discovery (mkAdapterSnapshot [] [example_entity "light.desk"; example_huge_entity] []) "ha"
         None empty_registry) = Err OverflowError.
Proof. vm_compute. reflexivity. Qed.
