(* ===== verification/Digests.v ===== *)
(** * Canonical payloads and digests

    runtime/executable_fingerprint.py, [ExecutionWindow.canonical_payload], the
    [delivery_*] helpers of runtime/approval_store.py and the [model_dump]s the
    plan digests hash.  [json.dumps(sort_keys=True, separators=(",", ":"))], the
    hexadecimal SHA-256 and the ISO rendering of an instant are the parameters
    of the class [Canonical]; an object is the list of its entries. *)

From S2P Require Import Prelude.
From S2P Require Import Values.
From S2P Require Import Models.
From S2P Require Import Registry.
From S2P Require Import Policy.

Class Canonical := {
  dumps_ascii : json -> string;
  dumps_utf8 : json -> string;
  sha256_hex : string -> string;
  utc_isoformat : datetime -> string;
  isoformat : datetime -> option string -> string
}.

Section Digests.
Context `{CJ : Canonical}.

Definition digest_ascii (payload : json) : string := "sha256:" +:+ sha256_hex (dumps_ascii payload).
Definition digest_utf8 (payload : json) : string := "sha256:" +:+ sha256_hex (dumps_utf8 payload).

Definition json_strings (l : list string) : json := JList (map JStr l).
Definition json_opt_str (o : option string) : json := json_of_opt JStr o.
Definition json_int (z : Z) : json := JNum (NInt z).

(** ** [model_dump(mode="json")] *)

Definition authority_dump (a : AuthorityContext) : json :=
  JObj [("tenant_id", JStr (au_tenant_id a)); ("household_id", JStr (au_household_id a));
        ("household_ids", json_strings (au_household_ids a));
        ("principal_id", JStr (au_principal_id a));
        ("roles", json_strings (map PrincipalRole_value (au_roles a)));
        ("area_ids", json_strings (au_area_ids a)); ("device_ids", json_strings (au_device_ids a));
        ("capabilities", json_strings (au_capabilities a));
        ("operations", json_strings (au_operations a))].

Definition precondition_dump (p : Precondition) : json :=
  JObj [("device_id", JStr (pre_device_id p)); ("capability", JStr (pre_capability p));
        ("expected", json_of_opt json_of_scalar (pre_expected p));
        ("allow_stale", JBool (pre_allow_stale p))].

Definition json_f64 (f : f64) : json := JNum (NFloat f).

Definition postcondition_dump (p : CommandPostcondition) : json :=
  JObj [("capability", JStr (post_capability p));
        ("expected", json_of_opt json_of_scalar (post_expected p));
        ("verification", JStr (Verification_value (post_verification p)));
        ("tolerance", json_of_opt json_f64 (post_tolerance p));
        ("settle_timeout_seconds", json_of_opt json_f64 (post_settle_timeout_seconds p));
        ("poll_interval_seconds", json_f64 (post_poll_interval_seconds p));
        ("reconcile_capabilities", json_strings (post_reconcile_capabilities p))].

Definition command_dump (c : Command) : json :=
  JObj [("id", JStr (cmd_id c)); ("device_id", JStr (cmd_device_id c));
        ("command", JStr (cmd_command c)); ("value", json_of_opt json_of_scalar (cmd_value c));
        ("unit", json_opt_str (cmd_unit c));
        ("preconditions", JList (map precondition_dump (cmd_preconditions c)));
        ("risk_class", JStr (RiskClass_value (cmd_risk_class c)));
        ("idempotency_key", JStr (cmd_idempotency_key c)); ("intent", json_opt_str (cmd_intent c));
        ("postconditions", JList (map postcondition_dump (cmd_postconditions c)))].

Definition decision_dump (d : PolicyDecision) : json :=
  JObj [("policy_id", json_opt_str (pd_policy_id d));
        ("action", JStr (PolicyAction_value (pd_action d))); ("reason", JStr (pd_reason d));
        ("allows_stale", JBool (pd_allows_stale d))].

Definition dependencies_dump (d : PlanDependencies) : json :=
  JObj [("inventory_revision", JStr (dep_inventory_revision d));
        ("policy_revision", JStr (dep_policy_revision d));
        ("state_versions", JObj (map (fun '(k, v) => (k, json_int v))
                                   (map_to_list (dep_state_versions d))));
        ("dependency_kinds", JObj (map (fun '(k, v) => (k, JStr (DependencyKind_value v)))
                                     (map_to_list (dep_dependency_kinds d))));
        ("capability_fingerprints", JObj (map (fun '(k, v) => (k, JStr v))
                                            (map_to_list (dep_capability_fingerprints d))))].

(** [source_device_id] is excluded when it is [None]. *)
Definition source_ref_dump (r : SourceRef) : json :=
  JObj ([("adapter_id", JStr (sr_adapter_id r)); ("external_id", JStr (sr_external_id r))] ++
        match sr_source_device_id r with
        | Some d => [("source_device_id", JStr d)]
        | None => []
        end ++
        [("external_type", json_opt_str (sr_external_type r));
         ("metadata_digest", json_opt_str (sr_metadata_digest r))]).

Definition guarantees_dump (g : CapabilityGuarantees) : json :=
  JObj [("resolution", json_of_opt JNum (g_resolution g));
        ("tolerance", json_of_opt JNum (g_tolerance g));
        ("expected_latency_ms", json_of_opt json_int (g_expected_latency_ms g));
        ("readback_required", JBool (g_readback_required g));
        ("reversible", JBool (g_reversible g));
        ("confirmation_required", JBool (g_confirmation_required g));
        ("availability_modes", json_strings (map AvailabilityMode_value (g_availability_modes g)));
        ("commissioning_required",
         JStr (CommissioningRequirement_value (g_commissioning_required g)))].

(** ** runtime/executable_fingerprint.py *)

Definition device_payload (d : Device) : json :=
  JObj [("id", JStr (dev_id d)); ("type", JStr (DeviceType_value (dev_type d)));
        ("area_id", json_opt_str (dev_area_id d));
        ("availability", JStr (AvailabilityStatus_value (dev_availability d)));
        ("protocol", JStr (dev_protocol d))].

Definition capability_payload (c : Capability) : json :=
  JObj [("name", JStr (cap_name c)); ("kind", JStr (CapabilityKind_value (cap_kind c)));
        ("unit", json_opt_str (cap_unit c)); ("readable", JBool (cap_readable c));
        ("writable", JBool (cap_writable c)); ("minimum", json_of_opt JNum (cap_minimum c));
        ("maximum", json_of_opt JNum (cap_maximum c));
        ("enum_values", json_strings (isort String.leb (cap_enum_values c)));
        ("commands", json_strings (isort String.leb (cap_commands c)));
        ("constraints", JObj (cap_constraints c));
        ("guarantees", guarantees_dump (cap_guarantees c))].

Definition route_payload (r : CapabilityRoute) : json :=
  JObj [("canonical_device_id", JStr (rt_canonical_device_id r));
        ("capability", JStr (rt_capability r)); ("source_device_id", JStr (rt_source_device_id r));
        ("local_canonical_id", JStr (rt_local_canonical_id r));
        ("commands", json_strings (isort String.leb (rt_commands r)));
        ("available", JBool (rt_available r)); ("source_ref", source_ref_dump (rt_source_ref r))].

(** [sorted(payloads, key=_canonical_json)] *)
Definition sorted_payloads (l : list json) : list json :=
  isort (fun a b => String.leb (dumps_utf8 a) (dumps_utf8 b)) l.

Definition capability_fingerprint (d : Device) (c : Capability) (routes : list CapabilityRoute)
    : string :=
  digest_utf8 (JObj [("device", device_payload d); ("capability", capability_payload c);
                     ("routes", JList (sorted_payloads (map route_payload routes)))]).

Definition inventory_fingerprint (devices : list Device)
    (routes_by_capability : string -> string -> list CapabilityRoute) : string :=
  digest_utf8 (JList (map (fun d =>
    JObj [("device", device_payload d);
          ("capabilities", JList (map (fun c =>
             JObj [("capability", capability_payload c);
                   ("routes", JList (sorted_payloads
                      (map route_payload (routes_by_capability (dev_id d) (cap_name c)))))])
             (isort (fun a b => String.leb (cap_name a) (cap_name b)) (dev_capabilities d))))])
    (isort (fun a b => String.leb (dev_id a) (dev_id b)) devices))).

(** ** application/policy_engine.py: [PolicyEngine.revision] *)

Definition policy_dump (p : Policy) : json :=
  JObj [("id", JStr (pol_id p)); ("target", JObj (pol_target p));
        ("action", JStr (PolicyAction_value (pol_action p)));
        ("conditions", JObj (pol_conditions p)); ("priority", json_int (pol_priority p));
        ("enabled", JBool (pol_enabled p)); ("allows_stale", JBool (pol_allows_stale p))].

Definition policy_revision (e : PolicyEngine) : string :=
  "policy-" +:+ String.substring 0 16 (sha256_hex (dumps_ascii
    (JList (map policy_dump
      (isort (fun a b => String.leb (pol_id a) (pol_id b)) (pe_policies e)))))).

(** ** Execution windows *)

Definition window_payload (w : ExecutionWindow) : json :=
  JObj [("intended_at", JStr (utc_isoformat (ew_intended_at w)));
        ("not_before", JStr (utc_isoformat (ew_not_before w)));
        ("not_after", JStr (utc_isoformat (ew_not_after w)));
        ("timezone", JStr (ew_timezone w)); ("revision", json_int (ew_revision w))].

(** [ExecutionWindow.digest] *)
Definition window_digest (w : ExecutionWindow) : string := digest_ascii (window_payload w).
Definition plan_window_digest (p : Plan) : option string := window_digest <$> pl_execution_window p.

(** ** runtime/approval_store.py: delivery bindings *)

(** No NaN or infinity anywhere: what [allow_nan=False] demands. *)
Fixpoint json_finite (j : json) : bool :=
  match j with
  | JNum (NFloat f) => f64_isfinite f
  | JList l => forallb json_finite l
  | JObj l => forallb (fun '(_, x) => json_finite x) l
  | _ => true
  end.

Definition delivery_digest (value : json) : result exn string :=
  raise_if (negb (json_finite value))
    (ValueError "Out of range float values are not JSON compliant") ≫= fun _ =>
  Ok (digest_utf8 value).

(** [expires_at.isoformat()]; the offset the instant was written with is not
    modelled ([None]). *)
Definition delivery_plan_binding (p : Plan) : list (string * option string) :=
  [("expires_at", (fun t => isoformat t None) <$> pl_expires_at p);
   ("deployment_id", pl_deployment_id p);
   ("definition_digest", pl_definition_digest p)].
End Digests.
