(* ===== verification/ApprovalStore.v ===== *)
(** * Approval grants (runtime/approval_store.py)

    The server-side ledger of operator approvals: a grant is bound to one plan,
    one validation digest and one lifetime, is consumed at most once, and can be
    held by one reservation while a commit is assembled.

    This is the in-process ledger ([_persistence is None]); with a durable
    ledger the same tests read and write its tables.  [now] is the clock's
    reading, [fresh_id] the identifier [uuid4] returns. *)

From S2P Require Import Prelude.
From S2P Require Import Values.
From S2P Require Import Models.
From S2P Require Import Digests.

Record OperatorPrincipal := mkOperatorPrincipal {
  op_id : string;
  op_authentication_context : string;
  op_session_id : string
}.
#[global] Instance OperatorPrincipal_eq_dec : EqDecision OperatorPrincipal.
Proof. solve_decision. Defined.

Definition validate_principal (p : OperatorPrincipal) : result exn unit :=
  raise_if (is_empty (op_id p) || is_empty (op_authentication_context p) || is_empty (op_session_id p))
    (ValueError "operator principal fields must be non-empty").

Record ApprovalAssertion := mkApprovalAssertion {
  aa_principal : OperatorPrincipal;
  aa_nonce : string;
  aa_approved_at : datetime;
  aa_expires_at : datetime;
  aa_plan_id : option string;
  aa_validation_digest : option string;
  aa_bundle_digest : option string;
  aa_recurrence_digest : option string
}.

Definition validate_assertion (a : ApprovalAssertion) : result exn unit :=
  raise_if (is_blank (aa_nonce a))
    (ValueError "approval assertion nonce must be non-empty") ≫= fun _ =>
  raise_if (negb (opt_bool (aa_plan_id a)) && negb (opt_bool (aa_validation_digest a)) &&
            negb (opt_bool (aa_bundle_digest a)))
    (ValueError "approval assertion must bind a plan or bundle digest") ≫= fun _ =>
  raise_if (aa_expires_at a <=? aa_approved_at a)
    (ValueError "approval assertion expiry must follow approval time").

Record ApprovalGrant := mkApprovalGrant {
  gr_approval_id : string;
  gr_plan_id : string;
  gr_validation_digest : string;
  gr_approved_by : string;
  gr_issued_at : datetime;
  gr_authentication_context : string;
  gr_session_id : option string;
  gr_bundle_digest : option string;
  gr_recurrence_digest : option string;
  gr_validation_valid_until : option datetime;
  gr_window_digest : option string;
  gr_schedule_revision : Z;
  gr_assertion_nonce : option string;
  gr_approved_at : option datetime;
  gr_expires_at : option datetime;
  gr_authority : AuthorityContext;
  gr_command_digests : odict string string;
  gr_plan_delivery_binding : option (list (string * option string))
}.

Inductive ReservationStatus := RS_RESERVED | RS_COMMITTED | RS_RELEASED.
#[global] Instance ReservationStatus_eq_dec : EqDecision ReservationStatus.
Proof. solve_decision. Defined.

Record ApprovalStore := mkApprovalStore {
  as_grants : gmap string ApprovalGrant;
  as_consumed : gset string;
  as_reservations : odict string (string * ReservationStatus);
  as_assertion_nonces : gset string;
  as_operator_token : option string;
  as_allow_legacy_token : bool;
  as_legacy_operator_id : string
}.
#[global] Instance ApprovalStore_eta : Eta ApprovalStore := fun r =>
  mkApprovalStore (as_grants r) (as_consumed r) (as_reservations r) (as_assertion_nonces r)
    (as_operator_token r) (as_allow_legacy_token r) (as_legacy_operator_id r).

Definition APPROVAL_TTL : timedelta := minutes 5.

Definition approval_required (m : string) : exn := domain_error APPROVAL_REQUIRED m.

(** ** Issuing *)

Definition assert_issueable (p : Plan) (recurrence : option string) : result exn ValidationResult :=
  let allowed :=
    bool_decide (pl_status p = PS_REQUIRES_CONFIRMATION) ||
    (opt_bool recurrence &&
     (bool_decide (pl_status p = PS_READY) || bool_decide (pl_status p = PS_APPROVED))) in
  match pl_validation p with
  | Some v => if allowed then Ok v else Err (approval_required
      "Only a validated plan requiring confirmation can receive an approval grant")
  | None => Err (approval_required
      "Only a validated plan requiring confirmation can receive an approval grant")
  end.

Section ApprovalStore.
Context `{CJ : Canonical}.

(** [{command.id: delivery_digest(...) for command in plan.commands}] *)
Fixpoint command_digests (l : list Command) (d : odict string string)
    : result exn (odict string string) :=
  match l with
  | [] => Ok d
  | c :: l => delivery_digest (command_dump c) ≫= fun h => command_digests l (od_set (cmd_id c) h d)
  end.

(** [_issue] *)
Definition issue_grant (fresh_id : string) (now : datetime) (p : Plan)
    (approved_by authentication_context : string) (session_id bundle recurrence nonce : option string)
    (approved_at expires_at : option datetime) : stm ApprovalStore exn ApprovalGrant :=
  v ← lift (assert_issueable p recurrence);
  let server_expiry := now + APPROVAL_TTL in
  let requested := default server_expiry expires_at in
  let effective := Z.min requested (Z.min server_expiry (default server_expiry (vr_valid_until v))) in
  lift (raise_if (effective <=? now)
    (domain_error APPROVAL_ASSERTION_EXPIRED "Approval lifetime is already expired")) ≫= fun _ =>
  digests ← lift (command_digests (pl_commands p) []);
  let grant :=
    mkApprovalGrant fresh_id (pl_id p) (vr_digest v) approved_by now authentication_context
      session_id bundle recurrence (vr_valid_until v) (plan_window_digest p)
      (pl_schedule_revision p) nonce approved_at (Some effective) (pl_authority p) digests
      (Some (delivery_plan_binding p)) in
  modify (fun s => s <| as_grants := <[fresh_id := grant]> (as_grants s) |>) ≫= fun _ =>
  mret grant.

(** [issue]; [compare_digest] is equality. *)
Definition issue (fresh_id : string) (now : datetime) (p : Plan) (approved_by : string)
    (operator_token bundle recurrence : option string) : stm ApprovalStore exn ApprovalGrant :=
  s ← get_st;
  lift (raise_if (negb (as_allow_legacy_token s && opt_bool (as_operator_token s) &&
                        opt_bool operator_token &&
                        bool_decide (operator_token = as_operator_token s)))
    (domain_error OPERATOR_AUTHENTICATION_FAILED
      "Operator approval is not configured or the supplied token is incorrect")) ≫= fun _ =>
  lift (assert_issueable p recurrence) ≫= fun _ =>
  issue_grant fresh_id now p approved_by "legacy_bearer_token" None bundle recurrence None None None.

Definition issue_legacy (fresh_id : string) (now : datetime) (p : Plan)
    (operator_token bundle recurrence : option string) : stm ApprovalStore exn ApprovalGrant :=
  s ← get_st;
  issue fresh_id now p (as_legacy_operator_id s) operator_token bundle recurrence.

Definition issue_assertion (fresh_id : string) (now : datetime) (p : Plan) (a : ApprovalAssertion)
    (bundle recurrence : option string) : stm ApprovalStore exn ApprovalGrant :=
  v ← lift (assert_issueable p recurrence);
  lift (raise_if (aa_expires_at a <=? now)
    (domain_error APPROVAL_ASSERTION_EXPIRED "Approval assertion has expired")) ≫= fun _ =>
  lift (raise_if (now + seconds 30 <? aa_approved_at a)
    (domain_error APPROVAL_ASSERTION_INVALID "Approval assertion timestamp is in the future"))
    ≫= fun _ =>
  s ← get_st;
  lift (raise_if (bool_decide (aa_nonce a ∈ as_assertion_nonces s))
    (domain_error APPROVAL_ASSERTION_REPLAYED "Approval assertion nonce has already been used"))
    ≫= fun _ =>
  lift (raise_if (opt_bool (aa_plan_id a) && negb (bool_decide (aa_plan_id a = Some (pl_id p))))
    (domain_error APPROVAL_ASSERTION_INVALID "Approval assertion does not match the plan"))
    ≫= fun _ =>
  lift (raise_if (opt_bool (aa_validation_digest a) &&
                  negb (bool_decide (aa_validation_digest a = Some (vr_digest v))))
    (domain_error APPROVAL_ASSERTION_INVALID
      "Approval assertion does not match the validation digest")) ≫= fun _ =>
  lift (raise_if (negb (bool_decide (aa_bundle_digest a = bundle)))
    (domain_error APPROVAL_ASSERTION_INVALID
      "Approval assertion does not match the bundle digest")) ≫= fun _ =>
  lift (raise_if (negb (bool_decide (aa_recurrence_digest a = recurrence)))
    (domain_error APPROVAL_ASSERTION_INVALID
      "Approval assertion does not match the recurrence digest")) ≫= fun _ =>
  grant ← issue_grant fresh_id now p (op_id (aa_principal a))
            (op_authentication_context (aa_principal a)) (Some (op_session_id (aa_principal a)))
            bundle recurrence (Some (aa_nonce a)) (Some (aa_approved_at a)) (Some (aa_expires_at a));
  modify (fun s => s <| as_assertion_nonces := {[aa_nonce a]} ∪ as_assertion_nonces s |>) ≫= fun _ =>
  mret grant.

Definition issue_authenticated (fresh_id : string) (now : datetime) (p : Plan)
    (principal : OperatorPrincipal) (assertion : option ApprovalAssertion)
    (bundle recurrence : option string) : stm ApprovalStore exn ApprovalGrant :=
  match assertion with
  | None => raise (domain_error APPROVAL_ASSERTION_REQUIRED
                     "An authenticated operator principal is not human consent")
  | Some a =>
      lift (raise_if (negb (bool_decide (aa_principal a = principal)))
        (domain_error APPROVAL_ASSERTION_INVALID
          "Approval assertion principal does not match the authenticated principal")) ≫= fun _ =>
      issue_assertion fresh_id now p a bundle recurrence
  end.

Definition issue_attended_local (fresh_id : string) (now : datetime) (p : Plan)
    (operator_id session_id : string) : stm ApprovalStore exn ApprovalGrant :=
  lift (raise_if (is_blank operator_id || is_blank session_id)
    (ValueError "local attended approval identity must be non-empty")) ≫= fun _ =>
  lift (assert_issueable p None) ≫= fun _ =>
  issue_grant fresh_id now p operator_id "local_attended_hil" (Some session_id) None None None
    (Some now) (Some (now + APPROVAL_TTL)).

(** [revoke_consent] without a durable consent ledger *)
Definition revoke_consent (a : AuthorityContext) : result exn unit :=
  raise_if (negb (bool_decide (ROLE_OPERATOR ∈ au_roles a)) &&
            negb (bool_decide (ROLE_OWNER ∈ au_roles a)))
    (domain_error INSUFFICIENT_SCOPE "Consent revocation requires an operator") ≫= fun _ =>
  Err (domain_error SOURCE_UNAVAILABLE "Durable consent control is unavailable").

(** ** Checking a grant *)

(** [_validate_grant_binding] *)
Definition validate_grant_binding (now : datetime) (g : ApprovalGrant) (p : Plan)
    (bundle recurrence : option string) : result exn unit :=
  raise_if (opt_le (gr_expires_at g) now)
    (domain_error APPROVAL_ASSERTION_EXPIRED "Approval grant has expired") ≫= fun _ =>
  raise_if (negb (String.eqb (gr_plan_id g) (pl_id p)))
    (approval_required "Approval does not match the plan") ≫= fun _ =>
  match pl_validation p with
  | None => Err (approval_required "Approval does not match the plan's current validation digest")
  | Some v =>
      raise_if (negb (String.eqb (gr_validation_digest g) (vr_digest v)))
        (approval_required "Approval does not match the plan's current validation digest")
        ≫= fun _ =>
      raise_if (negb (String.eqb (au_tenant_id (gr_authority g)) (au_tenant_id (pl_authority p))) ||
                negb (String.eqb (au_household_id (gr_authority g))
                        (au_household_id (pl_authority p))))
        (approval_required "Approval does not match the plan authority context") ≫= fun _ =>
      raise_if (negb (bool_decide (gr_validation_valid_until g = vr_valid_until v)))
        (approval_required "Approval does not match the current validation evidence lifetime")
  end ≫= fun _ =>
  raise_if (negb (bool_decide (gr_window_digest g = plan_window_digest p)) ||
            negb (gr_schedule_revision g =? pl_schedule_revision p))
    (approval_required "Approval does not match the plan execution window") ≫= fun _ =>
  raise_if (negb (bool_decide (gr_bundle_digest g = bundle)))
    (approval_required "Approval does not match the expected bundle digest") ≫= fun _ =>
  raise_if (negb (bool_decide (gr_recurrence_digest g = recurrence)))
    (approval_required "Approval does not match the standing automation recurrence").

Definition load_grant (s : ApprovalStore) (id : string) : option ApprovalGrant := as_grants s !! id.
Definition is_consumed (s : ApprovalStore) (id : string) : bool := bool_decide (id ∈ as_consumed s).
Definition reservation_status (s : ApprovalStore) (id : string)
    : option (string * ReservationStatus) := od_get id (as_reservations s).

Definition reserved (r : option (string * ReservationStatus)) : bool :=
  match r with Some (_, RS_RESERVED) => true | _ => false end.

(** [ApprovalStore.validate] *)
Definition validate_approval_id (now : datetime) (s : ApprovalStore) (id : string) (p : Plan)
    (bundle recurrence : option string) : result exn ApprovalGrant :=
  match load_grant s id with
  | None => Err (approval_required "Unknown approval")
  | Some g =>
      raise_if (is_consumed s id) (approval_required "Approval has already been consumed")
        ≫= fun _ =>
      raise_if (reserved (reservation_status s id)) (approval_required "Approval is reserved")
        ≫= fun _ =>
      validate_grant_binding now g p bundle recurrence ≫= fun _ => Ok g
  end.

Definition consume (now : datetime) (id : string) (p : Plan) (bundle recurrence : option string)
    : stm ApprovalStore exn ApprovalGrant :=
  s ← get_st;
  g ← lift (validate_approval_id now s id p bundle recurrence);
  put_st (s <| as_consumed := {[id]} ∪ as_consumed s |>) ≫= fun _ =>
  mret g.

(** ** Reservations *)

Definition reserve (now : datetime) (id : string) (p : Plan) (reservation_id : string)
    (bundle recurrence : option string) : stm ApprovalStore exn ApprovalGrant :=
  lift (raise_if (is_blank reservation_id)
    (ValueError "approval reservation ID must be non-empty")) ≫= fun _ =>
  s ← get_st;
  let fresh :=
    g ← lift (validate_approval_id now s id p bundle recurrence);
    put_st (s <| as_reservations :=
                   od_set id (reservation_id, RS_RESERVED) (as_reservations s) |>) ≫= fun _ =>
    mret g in
  match reservation_status s id with
  | None => fresh
  | Some (held_by, st) =>
      if String.eqb held_by reservation_id && bool_decide (st = RS_RESERVED) then
        match load_grant s id with
        | None => raise (approval_required "Unknown approval")
        | Some g =>
            lift (validate_grant_binding now g p bundle recurrence) ≫= fun _ => mret g
        end
      else if negb (bool_decide (st = RS_RELEASED)) then
        raise (approval_required "Approval is already reserved")
      else fresh
  end.

(** [_reservation_ids] *)
Definition reservation_ids (s : ApprovalStore) (reservation_id : string) (ids : list string)
    : list string :=
  let ids := dedup ids in
  ids ++ map fst (List.filter (fun '(id, (held_by, _)) =>
           String.eqb held_by reservation_id && negb (bool_decide (id ∈ ids))) (as_reservations s)).

(** One iteration of [commit_reservation]. *)
Definition commit_one (reservation_id id : string) : stm ApprovalStore exn unit := fun s =>
  match reservation_status s id with
  | None => (Err (approval_required "Approval reservation is missing"), s)
  | Some (held_by, st) =>
      if negb (String.eqb held_by reservation_id) then
        (Err (approval_required "Approval reservation is missing"), s)
      else
        match st with
        | RS_COMMITTED => (Ok tt, s <| as_consumed := {[id]} ∪ as_consumed s |>)
        | RS_RELEASED => (Err (approval_required "Approval reservation is not active"), s)
        | RS_RESERVED =>
            (Ok tt, s <| as_reservations :=
                           od_set id (reservation_id, RS_COMMITTED) (as_reservations s) |>
                      <| as_consumed := {[id]} ∪ as_consumed s |>)
        end
  end.

Fixpoint commit_all (reservation_id : string) (ids : list string) : stm ApprovalStore exn unit :=
  match ids with
  | [] => mret tt
  | id :: ids => commit_one reservation_id id ≫= fun _ => commit_all reservation_id ids
  end.

Definition commit_reservation (reservation_id : string) (ids : list string)
    : stm ApprovalStore exn unit :=
  s ← get_st;
  commit_all reservation_id (reservation_ids s reservation_id ids).

Definition release_one (reservation_id : string) (s : ApprovalStore) (id : string) : ApprovalStore :=
  match reservation_status s id with
  | Some (held_by, RS_RESERVED) =>
      if String.eqb held_by reservation_id then
        s <| as_reservations := od_set id (reservation_id, RS_RELEASED) (as_reservations s) |>
      else s
  | _ => s
  end.

Definition release_reservation (reservation_id : string) (ids : list string)
    : stm ApprovalStore exn unit :=
  modify (fun s => fold_left (release_one reservation_id) (reservation_ids s reservation_id ids) s).

(** ** Evidence carried by an approved plan *)

Definition approval_scope (bundle recurrence : option string) : string :=
  match bundle, recurrence with
  | Some _, Some _ => "bundle+recurrence"
  | Some _, None => "bundle"
  | None, Some _ => "recurrence"
  | None, None => "plan"
  end.

(** The [Approval] a grant projects to ([_validate_projection]'s [expected],
    which is also what [PlanService.approve] records). *)
Definition grant_projection (g : ApprovalGrant) : Approval :=
  mkApproval (gr_authority g) "approved" (gr_approved_by g)
    (default (gr_issued_at g) (gr_approved_at g)) (Some (gr_approval_id g))
    (gr_validation_digest g) (approval_scope (gr_bundle_digest g) (gr_recurrence_digest g))
    (Some (gr_authentication_context g)) (gr_session_id g) (gr_bundle_digest g)
    (gr_recurrence_digest g) (gr_validation_valid_until g) (gr_expires_at g) (gr_window_digest g)
    (gr_schedule_revision g).

Definition validate_projection (a : Approval) (g : ApprovalGrant) : result exn unit :=
  raise_if (negb (bool_decide (a = grant_projection g)))
    (approval_required "Persisted approval evidence does not match the authoritative grant").

Definition verify_consumed (now : datetime) (s : ApprovalStore) (p : Plan)
    (bundle recurrence : option string) : result exn ApprovalGrant :=
  let missing :=
    Err (approval_required "Approved plan is missing authoritative approval evidence") in
  match pl_approval p with
  | None => missing
  | Some a =>
      match ap_approval_id a with
      | None => missing
      | Some id =>
          if negb (bool_decide (pl_status p = PS_APPROVED)) ||
             negb (String.eqb (ap_status a) "approved") then missing
          else
            match load_grant s id with
            | None => Err (approval_required "Approved plan references an unknown approval grant")
            | Some g =>
                raise_if (negb (is_consumed s id))
                  (approval_required "Approved plan references an unconsumed approval grant")
                  ≫= fun _ =>
                validate_grant_binding now g p bundle recurrence ≫= fun _ =>
                validate_projection a g ≫= fun _ => Ok g
            end
      end
  end.

(** ** Histories of the ledger *)

Inductive ledger_op :=
  | L_issue (fresh_id : string) (now : datetime) (p : Plan) (approved_by : string)
      (token bundle recurrence : option string)
  | L_issue_assertion (fresh_id : string) (now : datetime) (p : Plan) (a : ApprovalAssertion)
      (bundle recurrence : option string)
  | L_issue_attended_local (fresh_id : string) (now : datetime) (p : Plan)
      (operator_id session_id : string)
  | L_consume (now : datetime) (id : string) (p : Plan) (bundle recurrence : option string)
  | L_reserve (now : datetime) (id : string) (p : Plan) (reservation_id : string)
      (bundle recurrence : option string)
  | L_commit_reservation (reservation_id : string) (ids : list string)
  | L_release_reservation (reservation_id : string) (ids : list string).

Definition void {A} (m : stm ApprovalStore exn A) : stm ApprovalStore exn unit :=
  m ≫= fun _ => mret tt.

Definition run_ledger (op : ledger_op) : stm ApprovalStore exn unit :=
  match op with
  | L_issue f now p by_ token b r => void (issue f now p by_ token b r)
  | L_issue_assertion f now p a b r => void (issue_assertion f now p a b r)
  | L_issue_attended_local f now p o s => void (issue_attended_local f now p o s)
  | L_consume now id p b r => void (consume now id p b r)
  | L_reserve now id p res b r => void (reserve now id p res b r)
  | L_commit_reservation res ids => commit_reservation res ids
  | L_release_reservation res ids => release_reservation res ids
  end.

Inductive ledger_history : ApprovalStore -> ApprovalStore -> Prop :=
  | ledger_nil s : ledger_history s s
  | ledger_step s op s' : ledger_history (snd (run_ledger op s)) s' -> ledger_history s s'.

(** A consumed grant is not held, and a committed one is consumed. *)
Record ledger_ok (s : ApprovalStore) : Prop := {
  lo_consumed : forall id, id ∈ as_consumed s -> reserved (reservation_status s id) = false;
  lo_committed : forall id h, reservation_status s id = Some (h, RS_COMMITTED) -> id ∈ as_consumed s
}.

(** Nothing is ever forgotten: consumed ids and used nonces only grow. *)
Record ledger_grows (s s' : ApprovalStore) : Prop := {
  lg_consumed : as_consumed s ⊆ as_consumed s';
  lg_nonces : as_assertion_nonces s ⊆ as_assertion_nonces s'
}.

#[global] Instance ledger_grows_preorder : PreOrder ledger_grows.
Proof.
  split; [by intros s; split|]. intros s1 s2 s3 [H1 H2] [H3 H4]. split; set_solver.
Qed.

Definition good_step (s s' : ApprovalStore) : Prop := ledger_grows s s' /\ (ledger_ok s -> ledger_ok s').

Lemma good_step_refl s : good_step s s.
Proof. by split. Qed.

Lemma good_step_trans s1 s2 s3 : good_step s1 s2 -> good_step s2 s3 -> good_step s1 s3.
Proof. intros [H1 H2] [H3 H4]. split; [by etrans|auto]. Qed.

(** A step that adds grants and nonces only. *)
Lemma good_step_issue s s' :
  as_consumed s' = as_consumed s -> as_reservations s' = as_reservations s ->
  as_assertion_nonces s ⊆ as_assertion_nonces s' -> good_step s s'.
Proof.
  intros E1 E2 H3. split; [split; [by rewrite E1|done]|]. intros [H1 H2].
  split; unfold reservation_status in *; rewrite E1, E2; done.
Qed.

Lemma issue_grant_result f now p by_ ctx sess b r n at_ ex s res s' :
  issue_grant f now p by_ ctx sess b r n at_ ex s = (res, s') ->
  match res with
  | Ok g => s' = s <| as_grants := <[f := g]> (as_grants s) |> /\ exists v,
      pl_validation p = Some v /\ gr_approval_id g = f /\ gr_issued_at g = now /\
      gr_approved_by g = by_ /\ gr_approved_at g = at_ /\ gr_assertion_nonce g = n /\
      (exists e, gr_expires_at g = Some e /\ now < e <= now + APPROVAL_TTL /\
         (forall x, ex = Some x -> e <= x) /\ (forall x, vr_valid_until v = Some x -> e <= x)) /\
      validate_grant_binding now g p b r = Ok tt
  | Err _ => s' = s
  end.
Proof.
  unfold issue_grant. unfold mbind, stm_bind, lift, modify, mret, stm_ret.
  destruct (assert_issueable p r) as [v|] eqn:Ev; [|by intros [= <- <-]].
  assert (Hv : pl_validation p = Some v).
  { unfold assert_issueable in Ev. destruct (pl_validation p); [|done].
    destruct (_ || _); [by injection Ev as ->|done]. }
  set (eff := Z.min _ _). destruct (Z.leb_spec eff now) as [Hle|Hlt]; simpl; [by intros [= <- <-]|].
  destruct (command_digests (pl_commands p) []) as [d|]; [|by intros [= <- <-]].
  intros [= <- <-]. simpl. split; [done|]. exists v. repeat (split; [done|]). split.
  - exists eff. split; [done|]. split; [lia|]. split.
    + intros x ->. unfold eff. simpl. lia.
    + intros x E. unfold eff. rewrite E. simpl. lia.
  - unfold validate_grant_binding. simpl. destruct (Z.leb_spec eff now); [lia|]. simpl.
    rewrite Hv. rewrite !String.eqb_refl, Z.eqb_refl.
    by rewrite !bool_decide_eq_true_2 by done.
Qed.

Lemma issue_grant_good f now p by_ ctx sess b r n at_ ex s :
  good_step s (snd (issue_grant f now p by_ ctx sess b r n at_ ex s)).
Proof.
  destruct (issue_grant _ _ _ _ _ _ _ _ _ _ _ s) as [res s'] eqn:E.
  apply issue_grant_result in E. destruct res as [g|]; [destruct E as [-> _]|subst]; [|apply good_step_refl].
  by apply good_step_issue.
Qed.

(** Sequencing: a step after one that left the store alone, or after another. *)
Lemma bind_good {A B} (m : stm ApprovalStore exn A) (f : A -> stm ApprovalStore exn B) s :
  good_step s (snd (m s)) ->
  (forall a s', m s = (Ok a, s') -> good_step s' (snd (f a s'))) ->
  good_step s (snd ((m ≫= f) s)).
Proof.
  intros Hm Hf. unfold mbind, stm_bind. destruct (m s) as [[a|e] s'] eqn:E; simpl in *; [|done].
  eapply good_step_trans; [done|]. by apply Hf.
Qed.

Lemma lift_good {A} (r : result exn A) s : good_step s (snd (lift (S := ApprovalStore) r s)).
Proof. apply good_step_refl. Qed.

Ltac good :=
  repeat first
    [ apply issue_grant_good
    | apply bind_good; [|intros]
    | apply lift_good | apply good_step_refl
    | by apply good_step_issue ].

Lemma issue_assertion_good f now p a b r s :
  good_step s (snd (issue_assertion f now p a b r s)).
Proof.
  unfold issue_assertion. good.
  apply good_step_issue; simpl; [done|done|set_solver].
Qed.

Lemma validate_approval_id_ok now s id p b r g :
  validate_approval_id now s id p b r = Ok g ->
  load_grant s id = Some g /\ is_consumed s id = false /\
  reserved (reservation_status s id) = false /\ validate_grant_binding now g p b r = Ok tt.
Proof.
  unfold validate_approval_id. destruct (load_grant s id) as [g'|]; [|done].
  intros H. ok_inv. destruct_ands. subst. done.
Qed.

Lemma consume_good now id p b r s : good_step s (snd (consume now id p b r s)).
Proof.
  unfold consume, mbind, stm_bind, get_st, lift, put_st, mret, stm_ret. simpl.
  destruct (validate_approval_id now s id p b r) as [g|] eqn:E; [|apply good_step_refl]. simpl.
  apply validate_approval_id_ok in E as (_ & _ & Hr & _).
  split; [split; simpl; set_solver|]. intros [H1 H2].
  split; unfold reservation_status in *; simpl.
  - intros id' [->%elem_of_singleton|Hin]%elem_of_union; [done|by apply H1].
  - intros id' h Hs. apply H2 in Hs. set_solver.
Qed.

Lemma hold_good s id h :
  is_consumed s id = false ->
  good_step s (s <| as_reservations := od_set id (h, RS_RESERVED) (as_reservations s) |>).
Proof.
  intros Hc. apply bool_decide_eq_false in Hc. split; [by split|]. intros [H1 H2].
  split; unfold reservation_status in *; simpl; intros id' *; rewrite od_get_set; case_decide;
    subst; try done; [by apply H1|apply H2].
Qed.

Lemma reserve_good now id p res b r s : good_step s (snd (reserve now id p res b r s)).
Proof.
  unfold reserve. apply bind_good; [apply lift_good|]. intros [] s1 _.
  unfold mbind at 1. unfold stm_bind at 1. unfold get_st.
  assert (Hf : good_step s1 (snd ((g ← lift (validate_approval_id now s1 id p b r);
    put_st (s1 <| as_reservations := od_set id (res, RS_RESERVED) (as_reservations s1) |>) ≫= fun _ =>
    mret g) s1))).
  { unfold mbind, stm_bind, lift. destruct (validate_approval_id _ _ _ _ _ _) as [g|] eqn:E;
      [|apply good_step_refl].
    apply validate_approval_id_ok in E as (_ & Hc & _). simpl. by apply hold_good. }
  destruct (reservation_status s1 id) as [[h st]|]; [|done].
  destruct (_ && _).
  - destruct (load_grant s1 id); [|apply good_step_refl]. good.
  - destruct (negb _); [apply good_step_refl|done].
Qed.

Lemma commit_one_good res id s : good_step s (snd (commit_one res id s)).
Proof.
  unfold commit_one. destruct (reservation_status s id) as [[h st]|] eqn:E; [|apply good_step_refl].
  destruct (negb _); [apply good_step_refl|]. destruct st; simpl; [| |apply good_step_refl].
  - split; [split; simpl; set_solver|]. intros [H1 H2].
    split; unfold reservation_status in *; simpl; intros id'; rewrite od_get_set.
    + intros Hin. case_decide; [done|]. apply H1. set_solver.
    + intros h'. case_decide; subst; [set_solver|]. intros Hs%H2. set_solver.
  - split; [split; simpl; set_solver|]. intros [H1 H2].
    split; unfold reservation_status in *; simpl.
    + intros id' [->%elem_of_singleton|Hin]%elem_of_union; [by rewrite E|by apply H1].
    + intros id' h' Hs%H2. set_solver.
Qed.

Lemma commit_all_good res ids s : good_step s (snd (commit_all res ids s)).
Proof.
  revert s. induction ids as [|id ids IH]; intros s; simpl; [apply good_step_refl|].
  apply bind_good; [apply commit_one_good|]. intros. apply IH.
Qed.

Lemma release_one_good res s id : good_step s (release_one res s id).
Proof.
  unfold release_one. destruct (reservation_status s id) as [[h st]|] eqn:E; [|apply good_step_refl].
  destruct st; try apply good_step_refl. destruct (String.eqb h res); [|apply good_step_refl].
  split; [by split|]. intros [H1 H2].
  split; unfold reservation_status in *; simpl; intros id' *; rewrite od_get_set; case_decide;
    subst; try done; [by apply H1|apply H2].
Qed.

Lemma release_all_good res ids s : good_step s (fold_left (release_one res) ids s).
Proof.
  revert s. induction ids as [|id ids IH]; intros s; simpl; [apply good_step_refl|].
  eapply good_step_trans; [apply release_one_good|apply IH].
Qed.

Lemma run_ledger_good op s : good_step s (snd (run_ledger op s)).
Proof.
  destruct op; simpl; unfold void.
  - unfold issue. good.
  - apply bind_good; [apply issue_assertion_good|intros; apply good_step_refl].
  - unfold issue_attended_local. good.
  - apply bind_good; [apply consume_good|intros; apply good_step_refl].
  - apply bind_good; [apply reserve_good|intros; apply good_step_refl].
  - unfold commit_reservation. apply bind_good; [apply good_step_refl|]. intros. apply commit_all_good.
  - apply release_all_good.
Qed.

Lemma ledger_history_good s s' : ledger_history s s' -> good_step s s'.
Proof.
  induction 1; [apply good_step_refl|]. eapply good_step_trans; [apply run_ledger_good|done].
Qed.

(** ** Properties *)

(** C11: an approval is used at most once.  From a well-formed ledger (the empty
    one is), once an id is consumed then after any further history of issuing,
    consuming, reserving, committing and releasing, every attempt to consume or
    to reserve it is refused with a [DomainError] and changes nothing. *)
Theorem approval_used_once s s' id now p b r res :
  ledger_ok s -> id ∈ as_consumed s -> ledger_history s s' ->
  (exists d, consume now id p b r s' = (Err (DomainError d), s')) /\
  (is_blank res = false ->
   exists d, reserve now id p res b r s' = (Err (DomainError d), s')) /\
  ledger_ok s'.
Proof.
  intros Hok Hid Hh. destruct (ledger_history_good _ _ Hh) as [[Hc _] Hok'].
  specialize (Hok' Hok). assert (Hid' : id ∈ as_consumed s') by set_solver.
  assert (Hv : exists d, validate_approval_id now s' id p b r = Err (DomainError d)).
  { unfold validate_approval_id, is_consumed. destruct (load_grant s' id); [|by eexists].
    rewrite bool_decide_eq_true_2 by done. by eexists. }
  destruct Hv as [d Hv]. split; [|split; [|done]].
  - exists d. unfold consume, mbind, stm_bind, get_st, lift. simpl. by rewrite Hv.
  - intros Hres. unfold reserve, mbind, stm_bind, get_st, lift. rewrite Hres. simpl. rewrite Hv.
    pose proof (lo_consumed _ Hok' id Hid') as Hr.
    destruct (reservation_status s' id) as [[h st]|]; [|by eexists].
    destruct st; [done| |]; rewrite (bool_decide_eq_false_2 (_ = RS_RESERVED)) by done;
      rewrite andb_false_r; simpl; by eexists.
Qed.

(** Every issued grant is bound and short-lived.  Whatever the way it is
    issued, the grant is stored under its id, carries the plan's id, validation
    digest, tenant and household, window and schedule revision, and expires
    strictly after its issue, at most five minutes later, never after the
    validation evidence, and never after the human's own assertion. *)
Theorem issued_grant_bound fresh_id now p a bundle recurrence s g s' :
  issue_assertion fresh_id now p a bundle recurrence s = (Ok g, s') ->
  as_grants s' !! fresh_id = Some g /\ gr_approval_id g = fresh_id /\
  validate_grant_binding now g p bundle recurrence = Ok tt /\
  exists v e, pl_validation p = Some v /\ gr_expires_at g = Some e /\
    now < e <= now + APPROVAL_TTL /\ e <= aa_expires_at a /\
    (forall x, vr_valid_until v = Some x -> e <= x) /\
    gr_approved_by g = op_id (aa_principal a) /\ aa_approved_at a <= now + seconds 30.
Proof.
  unfold issue_assertion. intros H. ok_inv. destruct_ands.
  match goal with Hi : issue_grant _ _ _ _ _ _ _ _ _ _ _ _ = _ |- _ =>
    apply issue_grant_result in Hi as (-> & v & Hv & ? & ? & ? & ? & ? & (e & ? & ? & Hx & ?) & ?) end.
  subst. split; [simpl; by rewrite lookup_insert_eq|]. split; [done|]. split; [done|].
  exists v, e. repeat (split; [done|]). split; [by apply Hx|]. split; [done|]. split; [done|].
  apply Z.ltb_ge. done.
Qed.

(** a human assertion cannot be replayed: once a grant was issued on a
    nonce, every later assertion with that nonce, for any plan and at any time,
    is refused and changes nothing. *)
Theorem assertion_nonce_single_use f now p a b r s g s1 s2 f' now' p' a' b' r' :
  issue_assertion f now p a b r s = (Ok g, s1) ->
  ledger_history s1 s2 -> aa_nonce a' = aa_nonce a ->
  exists d, issue_assertion f' now' p' a' b' r' s2 = (Err (DomainError d), s2).
Proof.
  intros H [[_ Hn] _]%ledger_history_good Hnonce.
  assert (Hin : aa_nonce a' ∈ as_assertion_nonces s2).
  { unfold issue_assertion in H. ok_inv. subst. apply Hn. rewrite Hnonce. simpl. set_solver. }
  unfold issue_assertion, mbind, stm_bind, lift, get_st.
  destruct (assert_issueable p' r') as [v|e] eqn:Ev.
  2: { unfold assert_issueable in Ev. destruct (pl_validation p'); [destruct (_ || _); [done|]|];
       injection Ev as <-; by eexists. }
  destruct (aa_expires_at a' <=? now'); simpl; [by eexists|].
  destruct (_ <? aa_approved_at a'); simpl; [by eexists|].
  rewrite bool_decide_eq_true_2 by done. by eexists.
Qed.

(** The operations that do not speak for the reservation [res]. *)
Definition foreign (res : string) (op : ledger_op) : bool :=
  match op with
  | L_commit_reservation res' _ | L_release_reservation res' _ => negb (String.eqb res' res)
  | _ => true
  end.

Inductive foreign_history (res : string) : ApprovalStore -> ApprovalStore -> Prop :=
  | foreign_nil s : foreign_history res s s
  | foreign_step s op s' :
      foreign res op = true -> foreign_history res (snd (run_ledger op s)) s' ->
      foreign_history res s s'.

Definition held (res id : string) (s : ApprovalStore) : Prop :=
  reservation_status s id = Some (res, RS_RESERVED) /\ is_consumed s id = false.

Lemma held_refuses now id p b r res s :
  held res id s -> exists d, validate_approval_id now s id p b r = Err (DomainError d).
Proof.
  intros [Hr Hc]. unfold validate_approval_id. rewrite Hr, Hc.
  destruct (load_grant s id); by eexists.
Qed.

Lemma held_consume res id s now id' p b r : held res id s -> held res id (snd (consume now id' p b r s)).
Proof.
  intros Hh. unfold consume, mbind, stm_bind, get_st, lift, put_st, mret, stm_ret. simpl.
  destruct (validate_approval_id now s id' p b r) as [g|] eqn:E; [|done]. simpl.
  destruct (decide (id' = id)) as [->|Hne].
  - destruct (held_refuses now id p b r res s Hh) as [d Hd]. congruence.
  - destruct Hh as [Hr Hc]. split; [done|]. apply bool_decide_eq_false in Hc.
    apply bool_decide_eq_false. simpl. set_solver.
Qed.

Lemma held_reserve res id s now id' p res' b r :
  held res id s -> held res id (snd (reserve now id' p res' b r s)).
Proof.
  intros Hh. unfold reserve, mbind, stm_bind, get_st, lift, put_st, mret, stm_ret.
  destruct (raise_if _ _); [|done]. destruct (decide (id' = id)) as [->|Hne].
  - destruct (held_refuses now id p b r res s Hh) as [d Hd]. rewrite Hd.
    destruct Hh as [Hr Hc]. rewrite Hr. destruct (_ && _).
    + destruct (load_grant s id); [|done]. by destruct (validate_grant_binding _ _ _ _ _).
    + by simpl.
  - assert (Hset : held res id
      (s <| as_reservations := od_set id' (res', RS_RESERVED) (as_reservations s) |>)).
    { destruct Hh as [Hr Hc]. split; [|done]. unfold reservation_status in *. simpl.
      by rewrite od_get_set_ne. }
    destruct (validate_approval_id now s id' p b r);
      destruct (reservation_status s id') as [[h st]|]; try done;
      (destruct (_ && _); [destruct (load_grant s id'); [|done];
         by destruct (validate_grant_binding _ _ _ _ _)|]); by destruct (negb _).
Qed.

Lemma held_commit_one res id s res' id' :
  res' <> res -> held res id s -> held res id (snd (commit_one res' id' s)).
Proof.
  intros Hres [Hr Hc]. unfold commit_one.
  destruct (reservation_status s id') as [[h st]|] eqn:E; [|done].
  destruct (String.eqb_spec h res') as [->|]; simpl; [|done].
  assert (id' <> id) by (intros ->; congruence).
  apply bool_decide_eq_false in Hc.
  destruct st; simpl; try done; split;
    try (apply bool_decide_eq_false; simpl; set_solver); try done.
  unfold reservation_status in *. simpl. by rewrite od_get_set_ne.
Qed.

Lemma held_release_one res id s res' id' :
  res' <> res -> held res id s -> held res id (release_one res' s id').
Proof.
  intros Hres [Hr Hc]. unfold release_one.
  destruct (reservation_status s id') as [[h st]|] eqn:E; [|done]. destruct st; try done.
  destruct (String.eqb_spec h res') as [->|]; [|done].
  assert (id' <> id) by (intros ->; congruence).
  split; [|done]. unfold reservation_status in *. simpl. by rewrite od_get_set_ne.
Qed.

Lemma held_issue_grant res id s f now p by_ ctx sess b r n at_ ex :
  held res id s -> held res id (snd (issue_grant f now p by_ ctx sess b r n at_ ex s)).
Proof.
  intros Hh. destruct (issue_grant _ _ _ _ _ _ _ _ _ _ _ s) as [x s'] eqn:E.
  apply issue_grant_result in E. destruct x; [destruct E as [-> _]|subst]; done.
Qed.

Lemma bind_held {A B} res id (m : stm ApprovalStore exn A) (f : A -> stm ApprovalStore exn B) s :
  held res id (snd (m s)) -> (forall a s', held res id s' -> held res id (snd (f a s'))) ->
  held res id (snd ((m ≫= f) s)).
Proof. intros Hm Hf. unfold mbind, stm_bind. destruct (m s) as [[a|e] s']; simpl in *; auto. Qed.

Lemma held_step res id s op :
  foreign res op = true -> held res id s -> held res id (snd (run_ledger op s)).
Proof.
  intros Hf Hh. destruct op; simpl; unfold void.
  - apply bind_held; [|done]. unfold issue.
    repeat first [by apply held_issue_grant|apply bind_held; [done|intros ???]].
  - apply bind_held; [|done]. unfold issue_assertion.
    repeat first [done|by apply held_issue_grant|apply bind_held; [|intros ???]].
  - apply bind_held; [|done]. unfold issue_attended_local.
    repeat first [by apply held_issue_grant|apply bind_held; [done|intros ???]].
  - apply bind_held; [by apply held_consume|done].
  - apply bind_held; [by apply held_reserve|done].
  - unfold commit_reservation. apply bind_held; [done|]. intros s0 s1 Hh1. simpl in Hf.
    apply negb_true_iff, String.eqb_neq in Hf.
    generalize (reservation_ids s0 reservation_id ids) as l. intros l. revert s1 Hh1.
    induction l as [|x l IH]; intros s1 Hh1; simpl; [done|].
    apply bind_held; [by apply held_commit_one|]. intros. by apply IH.
  - simpl in Hf. apply negb_true_iff, String.eqb_neq in Hf. unfold release_reservation, modify. simpl.
    generalize (reservation_ids s reservation_id ids) as l. intros l. revert s Hh.
    induction l as [|x l IH]; intros s Hh; simpl; [done|]. apply IH. by apply held_release_one.
Qed.

(** a reservation is exclusive.  Once a grant is held for one commit, then
    whatever happens in the name of others (issues, consumptions, other
    reservations, their commits and releases) it stays held and unconsumed:
    nobody else can consume or reserve it, and it is still there for its own
    commit, which consumes it. *)
Theorem reservation_exclusive now p b r res id g s s1 s2 :
  ledger_ok s ->
  reserve now id p res b r s = (Ok g, s1) -> foreign_history res s1 s2 ->
  held res id s2 /\
  (forall now' p' b' r', exists d, consume now' id p' b' r' s2 = (Err (DomainError d), s2)) /\
  (forall now' p' b' r' res', res' <> res -> is_blank res' = false ->
     exists d, reserve now' id p' res' b' r' s2 = (Err (DomainError d), s2)) /\
  is_consumed (snd (commit_one res id s2)) id = true.
Proof.
  intros Hok Hres Hh.
  assert (H1 : held res id s1).
  { unfold reserve in Hres. apply stm_bind_ok in Hres as ([] & s0 & Hl & Hres).
    apply lift_ok in Hl as [_ ->]. rewrite stm_bind_get in Hres.
    assert (Hf : forall (m : stm ApprovalStore exn ApprovalGrant),
      m = (g ← lift (validate_approval_id now s id p b r);
           put_st (s <| as_reservations := od_set id (res, RS_RESERVED) (as_reservations s) |>)
             ≫= fun _ => mret g) -> m s = (Ok g, s1) -> held res id s1).
    { intros m -> Hm. apply stm_bind_ok in Hm as (g' & s3 & Hl & Hm). apply lift_ok in Hl as [Hv ->].
      injection Hm as _ <-. apply validate_approval_id_ok in Hv as (_ & Hc & _).
      split; [unfold reservation_status; simpl; by rewrite od_get_set_eq|done]. }
    destruct (reservation_status s id) as [[h st]|] eqn:Er; [|by eapply Hf].
    destruct (String.eqb_spec h res) as [->|]; simpl in Hres.
    - case_bool_decide as Hst.
      + subst. destruct (load_grant s id); [|done]. ok_inv. subst. split; [done|].
        destruct (is_consumed s1 id) eqn:Hc; [|done]. apply bool_decide_eq_true in Hc.
        apply (lo_consumed _ Hok) in Hc. by rewrite Er in Hc.
      + destruct (negb _); [done|by eapply Hf].
    - destruct (negb _); [done|by eapply Hf]. }
  assert (H2 : held res id s2).
  { clear Hres. induction Hh; auto using held_step. }
  split; [done|]. split; [|split].
  - intros now' p' b' r'. destruct (held_refuses now' id p' b' r' _ _ H2) as [d Hd]. exists d.
    unfold consume, mbind, stm_bind, get_st, lift. simpl. by rewrite Hd.
  - intros now' p' b' r' res' Hne Hb. destruct H2 as [Hr Hc].
    unfold reserve, mbind, stm_bind, get_st, lift. rewrite Hb, Hr. simpl.
    assert (String.eqb res res' = false) as -> by (apply String.eqb_neq; congruence).
    simpl. by eexists.
  - destruct H2 as [Hr Hc]. unfold commit_one. rewrite Hr, String.eqb_refl. simpl.
    apply bool_decide_eq_true. simpl. set_solver.
Qed.

(** an approval in a plan is evidence, never authority.  When
    [verify_consumed] accepts a plan, the grant it returns is in the ledger and
    consumed, not expired, bound to this plan's id, validation digest and
    lifetime, tenant, household, window and schedule revision, to the expected
    bundle and recurrence, and every field of the plan's approval is the
    grant's: a forged, altered or foreign approval is refused. *)
Theorem verify_consumed_authoritative now s p b r g :
  verify_consumed now s p b r = Ok g ->
  exists a id v, pl_approval p = Some a /\ ap_approval_id a = Some id /\
    pl_status p = PS_APPROVED /\ as_grants s !! id = Some g /\ id ∈ as_consumed s /\
    a = grant_projection g /\
    (forall e, gr_expires_at g = Some e -> now < e) /\
    gr_plan_id g = pl_id p /\ pl_validation p = Some v /\ gr_validation_digest g = vr_digest v /\
    gr_validation_valid_until g = vr_valid_until v /\
    au_tenant_id (gr_authority g) = au_tenant_id (pl_authority p) /\
    au_household_id (gr_authority g) = au_household_id (pl_authority p) /\
    gr_window_digest g = plan_window_digest p /\ gr_schedule_revision g = pl_schedule_revision p /\
    gr_bundle_digest g = b /\ gr_recurrence_digest g = r.
Proof.
  unfold verify_consumed. destruct (pl_approval p) as [a|]; [|done].
  destruct (ap_approval_id a) as [id|] eqn:Ea; [|done]. destruct (_ || _) eqn:Es; [done|].
  destruct (load_grant s id) as [g'|] eqn:Eg; [|done]. unfold validate_grant_binding, validate_projection.
  destruct (pl_validation p) as [v|]; [|intros H; ok_inv].
  intros H. ok_inv. destruct_ands. subst g'.
  repeat match goal with
  | E : String.eqb _ _ = true |- _ => apply String.eqb_eq in E
  | E : Z.eqb _ _ = true |- _ => apply Z.eqb_eq in E
  end.
  exists a, id, v. repeat (split; [done|]). split.
  { unfold is_consumed in *. destruct_ands. done. }
  split; [done|]. split; [|by repeat split].
  intros e He. rewrite He in *. simpl in *. by apply Z.leb_gt.
Qed.
End ApprovalStore.

(** ** Witnesses: one plan, one grant

    Any rendering will do; this one is a function the kernel can evaluate. *)
Definition example_canonical : Canonical :=
  Build_Canonical (fun _ => "json") (fun _ => "json") (fun s => s) pretty (fun t _ => pretty t).

Definition example_validation : ValidationResult :=
  mkValidationResult VS_REQUIRES_CONFIRMATION 0 "rev-1:p1" [] "sha256:v1" (Some (hours 1)) None.
Definition example_plan : Plan :=
  mkPlan default_authority "plan-1" "v1" 0 (Some (hours 1)) None None None 0
    [mkCommand "c1" "desk" "open" None None [] SAFE "k1" None []] PS_REQUIRES_CONFIRMATION
    None None None (Some example_validation) [] None None None.
Definition example_operator : OperatorPrincipal := mkOperatorPrincipal "alice" "oidc" "s1".
Definition example_assertion : ApprovalAssertion :=
  mkApprovalAssertion example_operator "nonce-1" 0 (minutes 2) (Some "plan-1") None None None.
Definition empty_ledger : ApprovalStore := mkApprovalStore ∅ ∅ [] ∅ None false "legacy_operator".

Lemma empty_ledger_ok : ledger_ok empty_ledger.
Proof. by split. Qed.

Definition example_issued : result exn ApprovalGrant * ApprovalStore :=
  Eval vm_compute in
    issue_assertion (CJ := example_canonical) "a1" (minutes 1) example_plan example_assertion None None
      empty_ledger.
Definition example_grant : ApprovalGrant :=
  Eval vm_compute in
    match fst example_issued with Ok g => g | Err _ =>
      mkApprovalGrant "" "" "" "" 0 "" None None None None None 0 None None None default_authority [] None
    end.
Definition example_ledger : ApprovalStore := Eval vm_compute in snd example_issued.
Definition example_consumed : ApprovalStore :=
  Eval vm_compute in
    snd (consume (CJ := example_canonical) (minutes 1) "a1" example_plan None None example_ledger).
Definition example_reserved : ApprovalStore :=
  Eval vm_compute in
    snd (reserve (CJ := example_canonical) (minutes 1) "a1" example_plan "r1" None None example_ledger).

Lemma example_consumed_ok : ledger_ok example_consumed.
Proof. split; [done|]. intros id h. by vm_compute. Qed.

Lemma approval_used_once_witness :
  exists d, consume (CJ := example_canonical) (minutes 1) "a1" example_plan None None example_consumed
    = (Err (DomainError d), example_consumed).
Proof.
  exact (proj1 (approval_used_once (CJ := example_canonical) example_consumed example_consumed "a1"
    (minutes 1) example_plan None None "r1" example_consumed_ok
    (proj1 (bool_decide_eq_true ("a1" ∈ as_consumed example_consumed)) eq_refl)
    (ledger_nil (CJ := example_canonical) _))).
Defined.

Lemma issued_grant_bound_witness :
  as_grants example_ledger !! "a1" = Some example_grant.
Proof.
  exact (proj1 (issued_grant_bound (CJ := example_canonical) "a1" (minutes 1) example_plan
    example_assertion None None empty_ledger example_grant example_ledger
    ltac:(vm_compute; reflexivity))).
Defined.

Lemma assertion_nonce_single_use_witness :
  exists d, issue_assertion (CJ := example_canonical) "a2" (minutes 1) example_plan example_assertion
    None None example_ledger = (Err (DomainError d), example_ledger).
Proof.
  exact (assertion_nonce_single_use (CJ := example_canonical) "a1" (minutes 1) example_plan
    example_assertion None None empty_ledger example_grant example_ledger example_ledger
    "a2" (minutes 1) example_plan example_assertion None None ltac:(vm_compute; reflexivity)
    (ledger_nil (CJ := example_canonical) _) eq_refl).
Defined.

Lemma reservation_exclusive_witness : held "r1" "a1" example_reserved.
Proof.
  refine (proj1 (reservation_exclusive (CJ := example_canonical) (minutes 1) example_plan None None
    "r1" "a1" example_grant example_ledger example_reserved example_reserved _
    ltac:(vm_compute; reflexivity) (foreign_nil (CJ := example_canonical) _ _))).
  split; [|by vm_compute]. intros id Hid. exfalso. revert Hid. by vm_compute.
Defined.

Definition example_approved : Plan :=
  example_plan <| pl_status := PS_APPROVED |>
               <| pl_approval := Some (grant_projection example_grant) |>.

Lemma verify_consumed_authoritative_witness :
  verify_consumed (CJ := example_canonical) (minutes 1) example_consumed example_approved None None
    = Ok example_grant /\ gr_plan_id example_grant = "plan-1".
Proof.
  split; [vm_compute; reflexivity|].
  destruct (verify_consumed_authoritative (CJ := example_canonical) (minutes 1) example_consumed
    example_approved None None example_grant ltac:(vm_compute; reflexivity))
    as (a & id & v & _ & _ & _ & _ & _ & _ & _ & Hid & _).
  exact Hid.
Defined.
