(* ===== verification/PlanService.v ===== *)
(** * Plan validation and approval (application/plan_service.py, application/capability_assurance.py)

    The service binds a draft to its deployment, checks every command against
    the live registry, asks the policy engine for a decision, records what the
    plan depends on, and later refuses to execute a plan whose dependencies,
    lifetime or approval no longer hold.  The audit log is append-only output
    and is left out; [now] is the clock's reading. *)

From S2P Require Import Prelude.
From S2P Require Import Values.
From S2P Require Import Models.
From S2P Require Import Transitions.
From S2P Require Import Policy.
From S2P Require Import StateStore.
From S2P Require Import Registry.
From S2P Require Import Digests.
From S2P Require Import ApprovalStore.

Record PlanService := mkPlanService {
  ps_registry : DeviceRegistry;
  ps_state_store : StateStore;
  ps_policy_engine : PolicyEngine;
  ps_authorized_actuator_commands : gmap string (list string);
  ps_deployment_id : option string
}.

Record CommandValidation := mkCommandValidation {
  cv_command : Command;
  cv_capability : option Capability;
  cv_errors : list ErrorDetail
}.

Definition DEFAULT_PLAN_TTL : timedelta := minutes 15.
Definition VALIDATION_TTL : timedelta := hours 24.

(** ** Errors *)

(** [_make_error] *)
Definition make_error (code : ErrorCode) (m : message) (c : Command) (field : option string)
    (details : list (string * json)) : ErrorDetail :=
  mkErrorDetail code m field (Some (cmd_device_id c)) None false details.
(** [_error] *)
Definition plain_error (code : ErrorCode) (m : message) (c : Command) : ErrorDetail :=
  make_error code m c None [].

(** A list with one error, or none. *)
Definition error_if (b : bool) (e : ErrorDetail) : list ErrorDetail := if b then [e] else [].

(** ** Values ([_validate_value]) *)

Definition value_error (c : Command) (m : string) (details : list (string * json)) : ErrorDetail :=
  make_error INVALID_COMMAND_VALUE (msg m) c (Some "value") details.

Definition is_bool (v : scalar) : bool := match v with SBool _ => true | _ => false end.
Definition is_str (v : scalar) : bool := match v with SStr _ => true | _ => false end.
Definition is_int (v : scalar) : bool := match v with SNum (NInt _) => true | _ => false end.

Definition kind_error (c : Command) (k : CapabilityKind) (v : scalar) : list ErrorDetail :=
  let details := [("expected_kind", JStr (CapabilityKind_value k))] in
  match k with
  | BOOLEAN => error_if (negb (is_bool v))
      (value_error c "Boolean capability requires a boolean value" details)
  | INTEGER => error_if (negb (is_int v))
      (value_error c "Integer capability requires an integer value" details)
  | NUMBER => error_if (negb (opt_bool (numeric v)))
      (value_error c "Number capability requires a numeric value" details)
  | TEXT | TIMESTAMP => error_if (negb (is_str v))
      (value_error c "Textual capability requires a string value" details)
  | ENUM => error_if (negb (is_str v))
      (value_error c "Enum capability requires a string value" details)
  end.

(** [round(x)]: not defined on NaN and infinities *)
Definition py_round (x : f64) : result exn Z :=
  match x with
  | SpecFloat.S754_nan => Err (ValueError "cannot convert float NaN to integer")
  | SpecFloat.S754_infinity _ => Err OverflowError
  | _ => Ok (f64_round x)
  end.

(** The step check: [(value - base) / step] is an integer up to [1e-9].  A
    validated capability has a numeric step. *)
Definition step_errors (c : Command) (cap : Capability) (value : f64) : result exn (list ErrorDetail) :=
  match json_get "step" (cap_constraints cap) with
  | None => Ok []
  | Some (JNum step) =>
      let base := default (NInt 0) (cap_minimum cap) in
      py_float base ≫= fun b =>
      py_float step ≫= fun s =>
      raise_if (num_eq (NFloat s) (NInt 0)) ZeroDivisionError ≫= fun _ =>
      let quotient := f64_div (f64_sub value b) s in
      py_round quotient ≫= fun r =>
      Ok (error_if (negb (isclose_abs quotient (f64_of_Z r) f64_1e_9))
            (make_error INVALID_COMMAND_VALUE [Lit "Value must align to step "; Val (JNum step)] c
               (Some "value") [("step", JNum step); ("base", JNum base)]))
  | Some _ => Err TypeError
  end.

Definition range_errors (c : Command) (cap : Capability) (value : f64) : list ErrorDetail :=
  match cap_minimum cap with
  | Some lo => error_if (num_lt (NFloat value) lo)
      (make_error VALUE_OUT_OF_RANGE [Lit "Value must be greater than or equal to "; Val (JNum lo)]
         c (Some "value") [("minimum", JNum lo)])
  | None => []
  end ++
  match cap_maximum cap with
  | Some hi => error_if (num_gt (NFloat value) hi)
      (make_error VALUE_OUT_OF_RANGE [Lit "Value must be less than or equal to "; Val (JNum hi)]
         c (Some "value") [("maximum", JNum hi)])
  | None => []
  end.

Definition enum_errors (c : Command) (cap : Capability) (v : scalar) : list ErrorDetail :=
  error_if (bool_decide (cap_enum_values cap <> []) &&
            negb (match v with SStr s => bool_decide (s ∈ cap_enum_values cap) | _ => false end))
    (value_error c "Value is not in the capability enum"
       [("allowed_values", JList (map JStr (cap_enum_values cap)))]).

Definition validate_value (c : Command) (cap : Capability) : result exn (list ErrorDetail) :=
  match cmd_value c with
  | None => Ok []
  | Some v =>
      match numeric v with
      | None => Ok (kind_error c (cap_kind cap) v ++ enum_errors c cap v)
      | Some n =>
          py_float n ≫= fun f =>
          step_errors c cap f ≫= fun steps =>
          Ok (kind_error c (cap_kind cap) v ++
              error_if (negb (f64_isfinite f))
                (value_error c "Numeric command values must be finite" []) ++
              range_errors c cap f ++ steps ++ enum_errors c cap v)
      end
  end.

(** ** One command against the live capability *)

(** [_PHYSICAL_ACTUATOR_CAPABILITY_NAMES] *)
Definition physical_actuator_capability_names : list string := ["battery_control"; "ev_charging"].

Definition requires_actuator_binding (d : Device) (cap : Capability) : bool :=
  bool_decide (dev_type d = ENERGY) || bool_decide (dev_type d = EV_CHARGER) ||
  bool_decide (cap_name cap ∈ physical_actuator_capability_names) ||
  String.prefix "battery." (cap_name cap) || String.prefix "ev." (cap_name cap).

(** [_find_command_capability] and [_find_capability] (= [Registry.writes]) *)
Definition offers (command : string) (cap : Capability) : bool :=
  bool_decide (command ∈ cap_commands cap).
Definition find_command_capability (d : Device) (command : string) : option Capability :=
  find_first (offers command) (dev_capabilities d).
Definition find_capability (d : Device) (command : string) : option Capability :=
  find_first (writes command) (dev_capabilities d).

Definition validate_command_semantics (s : PlanService) (c : Command) : result exn CommandValidation :=
  match get_device (ps_registry s) (cmd_device_id c) with
  | None => Ok (mkCommandValidation c None [plain_error DEVICE_NOT_FOUND (msg "Unknown device") c])
  | Some d =>
      match find_command_capability d (cmd_command c) with
      | None => Ok (mkCommandValidation c None
          [plain_error UNSUPPORTED_COMMAND
             [Lit "Command "; Val (JStr (cmd_command c)); Lit " is not supported by the device"] c])
      | Some cap =>
          let unauthorized :=
            requires_actuator_binding d cap && cap_writable cap &&
            negb (bool_decide (cmd_command c ∈
              default [] (ps_authorized_actuator_commands s !! dev_id d))) in
          let adopt := opt_bool (cap_unit cap) && negb (opt_bool (cmd_unit c)) in
          let normalized := if adopt then c <| cmd_unit := cap_unit cap |> else c in
          validate_value normalized cap ≫= fun value_errors =>
          Ok (mkCommandValidation normalized (Some cap)
            (error_if unauthorized
               (make_error ACTUATOR_AUTHORIZATION_REQUIRED
                  (msg "Energy actuator requires an explicit server-owned dispatch binding") c
                  (Some "actuator_authorization") []) ++
             error_if (negb adopt && negb (bool_decide (cmd_unit c = cap_unit cap)))
               (make_error INVALID_CAPABILITY
                  [Lit "Command unit "; Val (json_of_opt JStr (cmd_unit c));
                   Lit " does not match capability unit "; Val (json_of_opt JStr (cap_unit cap))] c
                  (Some "unit") [("expected_unit", json_of_opt JStr (cap_unit cap));
                                 ("received_unit", json_of_opt JStr (cmd_unit c))]) ++
             error_if (negb (cap_writable cap))
               (make_error INVALID_CAPABILITY (msg "Command targets a read-only capability") c
                  (Some "writable") [("writable", JBool false)]) ++
             value_errors))
      end
  end.

Definition capability_for_command (s : PlanService) (c : Command) : option Capability :=
  get_device (ps_registry s) (cmd_device_id c) ≫= fun d => find_command_capability d (cmd_command c).

Definition validate_command_value (s : PlanService) (c : Command) : result exn (list ErrorDetail) :=
  cv_errors <$> validate_command_semantics s c.

(** [normalize_command]: the first error is raised, with its code, fields and
    details. *)
Definition normalize_command (s : PlanService) (c : Command) : result exn Command :=
  validate_command_semantics s c ≫= fun r =>
  match cv_errors r with
  | [] => Ok (cv_command r)
  | e :: _ => Err (DomainError e)
  end.

(** ** application/capability_assurance.py *)

Definition validate_command_assurance (c : Command) (cap : Capability) : list ErrorDetail :=
  error_if (g_readback_required (cap_guarantees cap) &&
            negb (existsb (fun p => String.eqb (post_capability p) (cap_name cap) &&
                                    negb (bool_decide (post_verification p = VERIFY_UNCONFIRMED)))
                    (cmd_postconditions c)))
    (mkErrorDetail INVALID_CAPABILITY
       [Lit "Capability "; Val (JStr (cap_name cap));
        Lit " requires a verifiable readback postcondition"]
       (Some "postconditions") (Some (cmd_device_id c)) (Some (cap_name cap)) false
       [("readback_required", JBool true)]).

(** ** Postconditions *)

Definition readable_routes (s : PlanService) (d : Device) (capability : string)
    : list CapabilityRoute :=
  List.filter (fun r => rt_available r && rt_readable r)
    (routes_for (ps_registry s) (dev_id d) capability).

Definition named (name : string) (cap : Capability) : bool := String.eqb (cap_name cap) name.
Definition readable_named (name : string) (cap : Capability) : bool :=
  named name cap && cap_readable cap.

(** The checks [_validate_postconditions] makes of one feedback capability;
    [what] is how the message calls it.  The flag tells whether the capability
    itself was readable. *)
Definition feedback_errors (s : PlanService) (c : Command) (d : Device) (what name : string)
    : bool * list ErrorDetail :=
  match find_first (named name) (dev_capabilities d) with
  | Some cap =>
      if cap_readable cap then
        let routes := routes_for (ps_registry s) (dev_id d) name in
        (true,
         match readable_routes s d name with
         | [] =>
             [plain_error (if bool_decide (routes = []) then ROUTE_NOT_FOUND else SOURCE_UNAVAILABLE)
                [Lit what; Lit " capability "; Val (JStr name);
                 Lit " has no available source route"] c]
         | [_] => []
         | _ =>
             [plain_error ROUTE_AMBIGUOUS
                [Lit what; Lit " capability "; Val (JStr name);
                 Lit " has multiple available routes"] c]
         end)
      else (false, [plain_error INVALID_CAPABILITY
             [Lit what; Lit " capability "; Val (JStr name); Lit " is not readable"] c])
  | None => (false, [plain_error INVALID_CAPABILITY
       [Lit what; Lit " capability "; Val (JStr name); Lit " is not readable"] c])
  end.

Definition postcondition_errors (s : PlanService) (c : Command) (d : Device)
    (p : CommandPostcondition) : list ErrorDetail :=
  let '(readable, errors) := feedback_errors s c d "Postcondition" (post_capability p) in
  if readable then
    errors ++ flat_map (fun name => snd (feedback_errors s c d "Reconciliation" name))
                (post_reconcile_capabilities p)
  else errors.

(** [_validate_postconditions] *)
Definition validate_postconditions (s : PlanService) (c : Command) (d : Device) : list ErrorDetail :=
  flat_map (postcondition_errors s c d) (cmd_postconditions c).

(** ** Re-validation of a plan *)

(** [Plan.model_validate(plan.model_dump())]: the field bounds and every nested
    validator. *)
Definition validate_command_model (c : Command) : result exn unit :=
  raise_if (Nat.ltb 16 (List.length (cmd_preconditions c)))
    (ValueError "at most 16 preconditions") ≫= fun _ =>
  raise_if (Nat.ltb 1 (List.length (cmd_postconditions c)))
    (ValueError "at most one postcondition") ≫= fun _ =>
  result_iter validate_postcondition (cmd_postconditions c).

Definition model_validate (p : Plan) : result exn unit :=
  raise_if (bool_decide (pl_commands p = []) || Nat.ltb 50 (List.length (pl_commands p)))
    (ValueError "a plan has between 1 and 50 commands") ≫= fun _ =>
  validate_authority (pl_authority p) ≫= fun _ =>
  result_iter validate_command_model (pl_commands p) ≫= fun _ =>
  match pl_execution_window p with Some w => validate_window w | None => Ok tt end ≫= fun _ =>
  match pl_approval p with Some a => validate_approval a | None => Ok tt end ≫= fun _ =>
  validate_plan p.

Definition bind_definition (s : PlanService) (p : Plan) : result exn Plan :=
  model_validate p ≫= fun _ =>
  raise_if (opt_bool (pl_execution_lease p))
    (domain_error PLAN_IDENTITY_CONFLICT "Client execution leases are not accepted") ≫= fun _ =>
  match ps_deployment_id s with
  | None => Ok p
  | Some d =>
      raise_if (negb (bool_decide (pl_deployment_id p = None)) &&
                negb (bool_decide (pl_deployment_id p = Some d)))
        (domain_error PLAN_IDENTITY_CONFLICT "Plan belongs to another deployment") ≫= fun _ =>
      if bool_decide (pl_deployment_id p = Some d) then Ok p
      else
        raise_if (negb (bool_decide (pl_status p = PS_DRAFT)) ||
                  opt_bool (pl_definition_digest p) || opt_bool (pl_validation p) ||
                  opt_bool (pl_approval p))
          (DomainError (mkErrorDetail PLAN_IDENTITY_CONFLICT
             (msg "Plan requires revalidation as a new definition") None None None false
             [("reason", JStr "revalidation_required"); ("plan_id", JStr (pl_id p))])) ≫= fun _ =>
        let bound := p <| pl_deployment_id := Some d |> <| pl_schema_version := "v2" |> in
        model_validate bound ≫= fun _ => Ok bound
  end.

(** [create_plan]; [Plan(...)] selects the contract version of its shape. *)
Definition create_plan (s : PlanService) (now : datetime) (plan_id : string)
    (commands : list Command) (expires_at : option datetime) (authority : option AuthorityContext)
    : result exn Plan :=
  result_map (normalize_command s) commands ≫= fun normalized =>
  let p := mkPlan (default default_authority authority) plan_id
    (expected_schema_version (ps_deployment_id s) None) now
    (Some (default (now + DEFAULT_PLAN_TTL) expires_at)) None None None 0 normalized PS_DRAFT
    (ps_deployment_id s) None None None [] None None None in
  model_validate p ≫= fun _ => Ok p.

(** ** Dependencies *)

Definition dep_key (device capability : string) : string := device +:+ "::" +:+ capability.
Definition command_key (d : Device) (c : Command) : string := dep_key (dev_id d) (cmd_command c).
Definition postcondition_key (d : Device) (name : string) : string :=
  dev_id d +:+ "::postcondition::" +:+ name.
Definition reconcile_key (d : Device) (name : string) : string :=
  dev_id d +:+ "::reconcile::" +:+ name.

(** [key.partition("::")] without the separator *)
Definition partition_key (k : string) : string * string :=
  match String.index 0 "::" k with
  | Some i => (String.substring 0 i k, String.substring (i + 2) (String.length k) k)
  | None => (k, "")
  end.

Section PlanService.
Context `{CJ : Canonical}.

Definition current_revision (s : PlanService) : string :=
  runtime_revision (ps_state_store s) +:+ ":" +:+ policy_revision (ps_policy_engine s).

(** The fingerprint of a feedback capability, when it is readable and has one
    available route. *)
Definition feedback_fingerprint (s : PlanService) (d : Device) (name : string) : option string :=
  match find_first (readable_named name) (dev_capabilities d) with
  | None => None
  | Some cap =>
      if Nat.eqb (List.length (readable_routes s d name)) 1
      then Some (capability_fingerprint d cap (routes_for (ps_registry s) (dev_id d) name))
      else None
  end.

Definition command_fingerprint (s : PlanService) (d : Device) (cap : Capability) : string :=
  capability_fingerprint d cap (routes_for (ps_registry s) (dev_id d) (cap_name cap)).

(** The feedback capabilities of a command, with their dependency keys. *)
Definition postcondition_feedback (d : Device) (p : CommandPostcondition) : list (string * string) :=
  (postcondition_key d (post_capability p), post_capability p) ::
  map (fun n => (reconcile_key d n, n)) (post_reconcile_capabilities p).
Definition command_feedback (d : Device) (c : Command) : list (string * string) :=
  flat_map (postcondition_feedback d) (cmd_postconditions c).

(** ** [validate] *)

Record ValidationState := mkValidationState {
  va_errors : list ErrorDetail;
  va_decisions : list PolicyDecision;
  va_seen_idempotency_keys : list string;
  va_state_versions : gmap string Z;
  va_dependency_kinds : gmap string DependencyKind;
  va_capability_fingerprints : gmap string string;
  va_commands : list Command
}.

Definition add_precondition (s : PlanService) (acc : gmap string Z * gmap string DependencyKind)
    (p : Precondition) : gmap string Z * gmap string DependencyKind :=
  let k := dep_key (pre_device_id p) (pre_capability p) in
  (<[k := state_version (ps_state_store s) (pre_device_id p) (pre_capability p)]> (fst acc),
   <[k := PRECONDITION]> (snd acc)).

(** Feedback that is missing or ambiguous is not recorded here (it is an error
    of [_validate_postconditions]). *)
Definition add_feedback (s : PlanService) (d : Device) (m : gmap string string)
    (entry : string * string) : gmap string string :=
  match feedback_fingerprint s d (snd entry) with
  | Some h => <[fst entry := h]> m
  | None => m
  end.

Definition route_error (s : PlanService) (d : Device) (c : Command) : list ErrorDetail :=
  let error code := plain_error code
    [Lit "No unique available source route for command "; Val (JStr (cmd_command c))] c in
  match rr_reason (resolve_command_route (ps_registry s) (dev_id d) (cmd_command c)) with
  | None => []
  | Some reason =>
      if String.eqb reason "ambiguous_route" then [error ROUTE_AMBIGUOUS]
      else if String.eqb reason "route_not_found" then [error ROUTE_NOT_FOUND]
      else if String.eqb reason "source_unavailable" then [error SOURCE_UNAVAILABLE]
      else []
  end.

(** One iteration of the command loop. *)
Definition validate_command (s : PlanService) (acc : ValidationState) (c : Command)
    : result exn ValidationState :=
  validate_command_semantics s c ≫= fun semantic =>
  let c := cv_command semantic in
  let duplicate := bool_decide (cmd_idempotency_key c ∈ va_seen_idempotency_keys acc) in
  let errors :=
    va_errors acc ++ cv_errors semantic ++
    error_if duplicate (plain_error DUPLICATE_COMMAND
      (msg "Each command must have a unique idempotency key within a plan") c) in
  let seen := cmd_idempotency_key c :: va_seen_idempotency_keys acc in
  let commands := va_commands acc ++ [c] in
  match get_device (ps_registry s) (cmd_device_id c) with
  | None =>
      Ok (mkValidationState (errors ++ [plain_error DEVICE_NOT_FOUND (msg "Unknown device") c])
            (va_decisions acc) seen (va_state_versions acc) (va_dependency_kinds acc)
            (va_capability_fingerprints acc) commands)
  | Some d =>
      match cv_capability semantic with
      | None =>
          Ok (mkValidationState errors (va_decisions acc) seen (va_state_versions acc)
                (va_dependency_kinds acc) (va_capability_fingerprints acc) commands)
      | Some cap =>
          let '(versions, kinds) :=
            fold_left (add_precondition s) (cmd_preconditions c)
              (va_state_versions acc, va_dependency_kinds acc) in
          let fingerprints :=
            fold_left (add_feedback s d) (command_feedback d c)
              (<[command_key d c := command_fingerprint s d cap]> (va_capability_fingerprints acc)) in
          evaluate (ps_policy_engine s) c d (cap_name cap) ≫= fun decision =>
          Ok (mkValidationState
                (errors ++ validate_command_assurance c cap ++ route_error s d c ++
                 validate_postconditions s c d ++
                 error_if (bool_decide (pd_action decision = PA_DENY))
                   (plain_error POLICY_DENIED (msg (pd_reason decision)) c))
                (va_decisions acc ++ [decision]) seen versions kinds fingerprints commands)
      end
  end.

Fixpoint validate_commands (s : PlanService) (acc : ValidationState) (l : list Command)
    : result exn ValidationState :=
  match l with
  | [] => Ok acc
  | c :: l => validate_command s acc c ≫= fun acc => validate_commands s acc l
  end.

(** [_default_validation_expiry]: rounded down to a whole minute *)
Definition default_validation_expiry (validated_at : datetime) : datetime :=
  let expiry := validated_at + VALIDATION_TTL in
  minutes 1 * (expiry / minutes 1).

(** The window a scheduled plan gets by default, and the lifetime of the
    evidence. *)
Definition temporal_plan (p : Plan) (expires : datetime) : result exn (Plan * datetime) :=
  match pl_execution_window p, pl_execute_at p with
  | None, Some at_ =>
      let w := mkExecutionWindow at_ at_ expires (or_else (pl_execute_tz p) "UTC")
                 (pl_schedule_revision p) in
      validate_window w ≫= fun _ => Ok (p <| pl_execution_window := Some w |>, expires)
  | Some w, _ => Ok (p, if ew_not_after w <? expires then Z.min expires (ew_not_after w) else expires)
  | None, None => Ok (p, expires)
  end.

Definition definition_digest (p : Plan) : string :=
  digest_ascii (JObj
    [("plan_id", JStr (pl_id p)); ("schema_version", JStr (pl_schema_version p));
     ("authority", authority_dump (pl_authority p));
     ("execute_at", json_opt_str ((fun t => isoformat t (pl_execute_tz p)) <$> pl_execute_at p));
     ("execution_window", json_of_opt window_payload (pl_execution_window p));
     ("schedule_revision", json_int (pl_schedule_revision p));
     ("commands", JList (map command_dump (pl_commands p)))]).

(** [_digest] *)
Definition plan_digest (p : Plan) (revision : string) (decisions : list PolicyDecision)
    (dependencies : PlanDependencies) : string :=
  digest_ascii (JObj
    [("plan_id", JStr (pl_id p)); ("authority", authority_dump (pl_authority p));
     ("commands", JList (map command_dump (pl_commands p)));
     ("execution_window", json_of_opt window_payload (pl_execution_window p));
     ("schedule_revision", json_int (pl_schedule_revision p));
     ("runtime_revision", JStr revision); ("dependencies", dependencies_dump dependencies);
     ("policy_decisions", JList (map decision_dump decisions))]).

Definition requires_confirmation (l : list PolicyDecision) : bool :=
  existsb (fun d => bool_decide (pd_action d = PA_CONFIRM)) l.

Definition validate (s : PlanService) (now : datetime) (p : Plan) : result exn Plan :=
  bind_definition s p ≫= fun p =>
  let server_deadline := default_validation_expiry now in
  let expires := match pl_expires_at p with
                 | Some e => Z.min server_deadline e
                 | None => server_deadline
                 end in
  temporal_plan p expires ≫= fun '(tp, expires) =>
  validate_commands s (mkValidationState [] [] [] ∅ ∅ ∅ []) (pl_commands p) ≫= fun acc =>
  let revision := current_revision s in
  let dependencies :=
    mkPlanDependencies (runtime_revision (ps_state_store s)) (policy_revision (ps_policy_engine s))
      (va_state_versions acc) (va_dependency_kinds acc) (va_capability_fingerprints acc) in
  let vp := tp <| pl_commands := va_commands acc |> in
  let confirm := requires_confirmation (va_decisions acc) in
  let ok := bool_decide (va_errors acc = []) in
  let validation :=
    mkValidationResult
      (if negb ok then VS_INVALID else if confirm then VS_REQUIRES_CONFIRMATION else VS_VALID)
      now revision (va_errors acc) (plan_digest vp revision (va_decisions acc) dependencies)
      (Some expires) (Some dependencies) in
  Ok (vp <| pl_status := if negb ok then PS_VALIDATED
                         else if confirm then PS_REQUIRES_CONFIRMATION else PS_READY |>
         <| pl_definition_digest := Some (definition_digest vp) |>
         <| pl_validation := Some validation |>
         <| pl_policy_decisions := va_decisions acc |>
         <| pl_expires_at := Some expires |>).

(** ** [approve], [cancel] *)

(** [Approval(...)] runs its field bounds and its validator. *)
Definition new_approval (a : Approval) : result exn Approval :=
  raise_if (is_empty (ap_approved_by a) || is_empty (ap_validation_digest a) ||
            (ap_schedule_revision a <? 0))
    (ValueError "approval fields out of bounds") ≫= fun _ =>
  validate_approval a ≫= fun _ => Ok a.

Definition approve (now : datetime) (p : Plan) (g : ApprovalGrant) : result exn Plan :=
  match pl_validation p with
  | None => Err (approval_required
      "Only a validated plan requiring confirmation can be approved")
  | Some v =>
      raise_if (negb (bool_decide (pl_status p = PS_REQUIRES_CONFIRMATION)))
        (approval_required "Only a validated plan requiring confirmation can be approved")
        ≫= fun _ =>
      raise_if (negb (String.eqb (gr_plan_id g) (pl_id p)) ||
                negb (String.eqb (gr_validation_digest g) (vr_digest v)))
        (approval_required "Approval grant does not match the validated plan") ≫= fun _ =>
      raise_if (negb (bool_decide (gr_validation_valid_until g = vr_valid_until v)))
        (approval_required "Approval grant does not match the validation evidence lifetime")
        ≫= fun _ =>
      raise_if (opt_le (gr_expires_at g) now)
        (domain_error APPROVAL_ASSERTION_EXPIRED "Approval grant has expired") ≫= fun _ =>
      raise_if (negb (bool_decide (gr_window_digest g = plan_window_digest p)) ||
                negb (gr_schedule_revision g =? pl_schedule_revision p))
        (approval_required "Approval grant does not match the plan execution window") ≫= fun _ =>
      assert_plan_transition (pl_status p) PS_APPROVED ≫= fun _ =>
      new_approval (mkApproval (gr_authority g) "approved" (gr_approved_by g)
          (default (gr_issued_at g) (gr_approved_at g)) (Some (gr_approval_id g)) (vr_digest v)
          (approval_scope (gr_bundle_digest g) (gr_recurrence_digest g))
          (Some (gr_authentication_context g)) (gr_session_id g) (gr_bundle_digest g)
          (gr_recurrence_digest g) (gr_validation_valid_until g) (gr_expires_at g)
          (plan_window_digest p) (pl_schedule_revision p)) ≫= fun a =>
      Ok (p <| pl_status := PS_APPROVED |> <| pl_approval := Some a |>)
  end.

Definition cancel (p : Plan) : result exn Plan :=
  assert_plan_transition (pl_status p) PS_CANCELLED ≫= fun _ =>
  Ok (p <| pl_status := PS_CANCELLED |>).

(** ** [_dependencies_still_current] *)

(** The fingerprints of the feedback capabilities, all of which must be
    readable through one available route. *)
Fixpoint current_feedback (s : PlanService) (d : Device) (l : list (string * string))
    (m : gmap string string) : option (gmap string string) :=
  match l with
  | [] => Some m
  | (k, name) :: l =>
      match feedback_fingerprint s d name with
      | None => None
      | Some h => current_feedback s d l (<[k := h]> m)
      end
  end.

Fixpoint current_fingerprints (s : PlanService) (l : list Command) (m : gmap string string)
    : option (gmap string string) :=
  match l with
  | [] => Some m
  | c :: l =>
      match get_device (ps_registry s) (cmd_device_id c) with
      | None => None
      | Some d =>
          match find_capability d (cmd_command c) with
          | None => None
          | Some cap =>
              match current_feedback s d (command_feedback d c)
                      (<[command_key d c := command_fingerprint s d cap]> m) with
              | None => None
              | Some m => current_fingerprints s l m
              end
          end
      end
  end.

Definition version_current (s : PlanService) (overrides : option (gmap string Z))
    (entry : string * Z) : bool :=
  let '(k, version) := entry in
  let '(device, capability) := partition_key k in
  let expected := match overrides with
                  | Some o => default version (o !! k)
                  | None => version
                  end in
  state_version (ps_state_store s) device capability =? expected.

Definition dependencies_still_current (s : PlanService) (p : Plan) (v : ValidationResult)
    (overrides : option (gmap string Z)) : bool :=
  match vr_dependencies v with
  | None => false
  | Some deps =>
      String.eqb (dep_inventory_revision deps) (runtime_revision (ps_state_store s)) &&
      String.eqb (dep_policy_revision deps) (policy_revision (ps_policy_engine s)) &&
      negb (bool_decide (dep_capability_fingerprints deps = ∅)) &&
      bool_decide (current_fingerprints s (pl_commands p) ∅ = Some (dep_capability_fingerprints deps)) &&
      forallb (version_current s overrides) (map_to_list (dep_state_versions deps))
  end.

(** ** [assert_executable] *)

Definition assert_approval (now : datetime) (p : Plan) (v : ValidationResult) : result exn unit :=
  match pl_approval p with
  | None => Err (approval_required "Plan requires explicit operator approval")
  | Some a =>
      raise_if (negb (String.eqb (ap_status a) "approved"))
        (approval_required "Plan requires explicit operator approval") ≫= fun _ =>
      raise_if (negb (opt_bool (ap_approval_id a)))
        (approval_required "Approval evidence is missing its identifier; obtain a new approval")
        ≫= fun _ =>
      raise_if (negb (String.eqb (ap_validation_digest a) (vr_digest v)))
        (approval_required "Approval does not match the validated plan") ≫= fun _ =>
      raise_if (opt_le (ap_expires_at a) now)
        (domain_error APPROVAL_ASSERTION_EXPIRED
          "Approval evidence has expired; obtain a new approval") ≫= fun _ =>
      raise_if (negb (bool_decide (ap_validation_valid_until a = vr_valid_until v)))
        (approval_required "Approval does not match the validation evidence lifetime") ≫= fun _ =>
      raise_if (negb (bool_decide (ap_window_digest a = plan_window_digest p)) ||
                negb (ap_schedule_revision a =? pl_schedule_revision p))
        (approval_required "Approval does not match the plan execution window")
  end.

Definition assert_executable (s : PlanService) (now : datetime) (p : Plan)
    (overrides : option (gmap string Z)) : result exn unit :=
  model_validate p ≫= fun _ =>
  raise_if (opt_bool (ps_deployment_id s) &&
            negb (bool_decide (pl_deployment_id p = ps_deployment_id s)))
    (DomainError (mkErrorDetail PLAN_IDENTITY_CONFLICT
       (msg "Plan requires revalidation for this deployment") None None None false
       [("reason", JStr "revalidation_required"); ("plan_id", JStr (pl_id p))])) ≫= fun _ =>
  raise_if (bool_decide (pl_status p = PS_CANCELLED))
    (domain_error INVALID_TRANSITION "Plan is cancelled and cannot execute") ≫= fun _ =>
  raise_if (opt_le (pl_expires_at p) now)
    (domain_error STALE_PLAN "Plan has expired; create and validate a new plan") ≫= fun _ =>
  match pl_validation p with
  | None => Err (domain_error VALIDATION_ERROR "Plan has not been validated")
  | Some v =>
      raise_if (opt_le (vr_valid_until v) now)
        (domain_error STALE_PLAN
          "Plan validation evidence has expired; create and validate a new plan") ≫= fun _ =>
      raise_if (bool_decide (vr_status v = VS_INVALID))
        (domain_error VALIDATION_ERROR "Plan validation failed") ≫= fun _ =>
      raise_if (negb (bool_decide (pl_status p ∈ [PS_READY; PS_APPROVED])))
        (domain_error INVALID_TRANSITION "Only ready or approved plans can execute") ≫= fun _ =>
      raise_if (negb (dependencies_still_current s p v overrides))
        (domain_error STALE_PLAN "Plan runtime revision is stale; revalidate before execution")
        ≫= fun _ =>
      if bool_decide (vr_status v = VS_REQUIRES_CONFIRMATION) then assert_approval now p v
      else Ok tt
  end.

(** ** What a validation without errors establishes *)

Lemma error_if_nil b e : error_if b e = [] <-> b = false.
Proof. by destruct b. Qed.

Lemma find_first_ext {A} (p q : A -> bool) l :
  (forall x, p x = q x) -> find_first p l = find_first q l.
Proof. intros H. induction l as [|x l IH]; simpl; [done|]. by rewrite H, IH. Qed.

Lemma find_writable d command cap :
  find_command_capability d command = Some cap -> cap_writable cap = true ->
  find_capability d command = Some cap.
Proof.
  unfold find_command_capability, find_capability. intros H Hw.
  rewrite <- (find_first_ext (fun y => offers command y && cap_writable y)).
  - by apply find_first_strengthen.
  - intros x. unfold writes, offers. apply andb_comm.
Qed.

(** Every dependency of a cleared command is settled. *)
Record command_cleared (s : PlanService) (c : Command) (d : Device) (cap : Capability)
    (decision : PolicyDecision) : Prop := {
  cc_device : get_device (ps_registry s) (cmd_device_id c) = Some d;
  cc_capability : find_capability d (cmd_command c) = Some cap;
  cc_authorized : requires_actuator_binding d cap = true ->
    cmd_command c ∈ default [] (ps_authorized_actuator_commands s !! dev_id d);
  cc_unit : cmd_unit c = cap_unit cap;
  cc_value : validate_value c cap = Ok [];
  cc_assurance : validate_command_assurance c cap = [];
  cc_route : route_error s d c = [];
  cc_feedback : validate_postconditions s c d = [];
  cc_decision : evaluate (ps_policy_engine s) c d (cap_name cap) = Ok decision;
  cc_allowed : pd_action decision <> PA_DENY
}.

(** The normalised command differs at most in its unit. *)
Definition normalizes (c c' : Command) : Prop := exists u, c' = c <| cmd_unit := u |>.

Lemma validate_command_semantics_cleared s c r :
  validate_command_semantics s c = Ok r -> cv_errors r = [] ->
  exists d cap, cv_capability r = Some cap /\ normalizes c (cv_command r) /\
    get_device (ps_registry s) (cmd_device_id c) = Some d /\
    find_capability d (cmd_command c) = Some cap /\
    (requires_actuator_binding d cap = true ->
       cmd_command c ∈ default [] (ps_authorized_actuator_commands s !! dev_id d)) /\
    cmd_unit (cv_command r) = cap_unit cap /\ validate_value (cv_command r) cap = Ok [].
Proof.
  unfold validate_command_semantics.
  destruct (get_device (ps_registry s) (cmd_device_id c)) as [d|]; [|by intros [= <-]].
  destruct (find_command_capability d (cmd_command c)) as [cap|] eqn:Ec; [|by intros [= <-]].
  set (adopt := opt_bool (cap_unit cap) && negb (opt_bool (cmd_unit c))).
  set (c' := if adopt then c <| cmd_unit := cap_unit cap |> else c).
  intros (errs & Hv & [= <-])%result_bind_ok. simpl.
  intros [H1 [H2 [H3 ->]%app_eq_nil]%app_eq_nil]%app_eq_nil.
  apply error_if_nil in H1, H2, H3. apply negb_false_iff in H3.
  exists d, cap. split; [done|]. split.
  { unfold c'. destruct adopt; [by eexists|]. exists (cmd_unit c). by destruct c. }
  split; [done|]. split; [by apply find_writable|]. split; [|split; [|done]].
  - intros Hr. rewrite Hr, H3 in H1. simpl in H1. apply negb_false_iff, bool_decide_eq_true in H1. done.
  - unfold c'. destruct adopt; [done|]. simpl in H2. apply negb_false_iff, bool_decide_eq_true in H2. done.
Qed.

(** What one clean iteration adds. *)
Record clean_step (s : PlanService) (c c' : Command) (d : Device) (cap : Capability)
    (decision : PolicyDecision) (acc acc' : ValidationState) : Prop := {
  cs_cleared : command_cleared s c' d cap decision;
  cs_normalizes : normalizes c c';
  cs_commands : va_commands acc' = va_commands acc ++ [c'];
  cs_decisions : va_decisions acc' = va_decisions acc ++ [decision];
  cs_fresh_key : cmd_idempotency_key c' ∉ va_seen_idempotency_keys acc;
  cs_keys : va_seen_idempotency_keys acc' = cmd_idempotency_key c' :: va_seen_idempotency_keys acc;
  cs_versions : va_state_versions acc' =
    fst (fold_left (add_precondition s) (cmd_preconditions c')
           (va_state_versions acc, va_dependency_kinds acc));
  cs_fingerprints : va_capability_fingerprints acc' =
    fold_left (add_feedback s d) (command_feedback d c')
      (<[command_key d c' := command_fingerprint s d cap]> (va_capability_fingerprints acc))
}.

Lemma validate_command_clean s acc c acc' :
  validate_command s acc c = Ok acc' -> va_errors acc' = [] ->
  va_errors acc = [] /\
  exists c' d cap decision, clean_step s c c' d cap decision acc acc'.
Proof.
  unfold validate_command. intros (r & Hr & H)%result_bind_ok Herr.
  destruct (get_device (ps_registry s) (cmd_device_id (cv_command r))) as [d|] eqn:Ed.
  2: { injection H as <-. simpl in Herr. by apply app_eq_nil in Herr as [_ ?]. }
  destruct (cv_capability r) as [cap|] eqn:Ecap.
  2: { injection H as <-. simpl in Herr. apply app_eq_nil in Herr as [_ [Hs _]%app_eq_nil].
       destruct (validate_command_semantics_cleared _ _ _ Hr Hs) as (? & ? & ? & _). congruence. }
  destruct (fold_left (add_precondition s) _ _) as [versions kinds] eqn:Ef.
  apply result_bind_ok in H as (decision & Hd & [= <-]). simpl in Herr.
  apply app_eq_nil in Herr as [[H1 [H2 H3]%app_eq_nil]%app_eq_nil
    [H4 [H5 [H6 H7]%app_eq_nil]%app_eq_nil]%app_eq_nil].
  apply error_if_nil, bool_decide_eq_false in H3, H7.
  split; [done|].
  destruct (validate_command_semantics_cleared _ _ _ Hr H2)
    as (d' & cap' & Ecap' & Hn & Hdev & Hcap & Hauth & Hunit & Hval).
  assert (cap' = cap) as -> by congruence.
  exists (cv_command r), d, cap, decision. destruct Hn as [u Hn].
  assert (Hfields : cmd_device_id (cv_command r) = cmd_device_id c /\
    cmd_command (cv_command r) = cmd_command c) by (by rewrite Hn).
  destruct Hfields as [E1 E2]. assert (d' = d) as -> by congruence.
  split; simpl; try done.
  - split; try done; [by rewrite E2|by rewrite E2].
  - by exists u.
  - by rewrite Ef.
Qed.

Inductive clean_run (s : PlanService)
    : list Command -> list (Command * PolicyDecision) -> ValidationState -> ValidationState -> Prop :=
  | clean_nil acc : clean_run s [] [] acc acc
  | clean_cons c l c' d cap decision rest acc acc1 acc2 :
      clean_step s c c' d cap decision acc acc1 -> clean_run s l rest acc1 acc2 ->
      clean_run s (c :: l) ((c', decision) :: rest) acc acc2.

Lemma validate_commands_clean s acc l acc' :
  validate_commands s acc l = Ok acc' -> va_errors acc' = [] ->
  va_errors acc = [] /\ exists run, clean_run s l run acc acc'.
Proof.
  revert acc. induction l as [|c l IH]; simpl; intros acc.
  - intros [= <-] H. split; [done|]. exists []. constructor.
  - intros (acc1 & H1 & H2)%result_bind_ok Herr. destruct (IH _ H2 Herr) as [He1 [run Hrun]].
    destruct (validate_command_clean _ _ _ _ H1 He1) as [He (c' & d & cap & dec & Hs)].
    split; [done|]. exists ((c', dec) :: run). by econstructor.
Qed.

Lemma clean_run_outputs s l run acc acc' :
  clean_run s l run acc acc' ->
  va_commands acc' = va_commands acc ++ map fst run /\
  va_decisions acc' = va_decisions acc ++ map snd run /\
  Forall2 normalizes l (map fst run) /\
  (forall c dec, (c, dec) ∈ run -> exists d cap, command_cleared s c d cap dec) /\
  (NoDup (va_seen_idempotency_keys acc) ->
   NoDup (map cmd_idempotency_key (map fst run)) /\
   forall k, k ∈ map cmd_idempotency_key (map fst run) -> k ∉ va_seen_idempotency_keys acc).
Proof.
  induction 1 as [acc|c l c' d cap dec run acc acc1 acc2 Hs Hr IH]; simpl.
  { rewrite !app_nil_r. repeat split; try done; try constructor; set_solver. }
  destruct IH as (E1 & E2 & E3 & E4 & E5). destruct Hs as [Hcl Hn Hc Hd Hk Hks _ _].
  rewrite E1, E2, Hc, Hd, <- !app_assoc. split; [done|]. split; [done|]. split; [by constructor|].
  split.
  - intros c0 dec0 [[= -> ->]|Hin]%elem_of_cons; eauto.
  - intros Hnd. rewrite Hks in E5. destruct E5 as [E5 E6]; [by constructor|].
    split.
    + constructor; [|done]. intros Hin. apply (E6 _ Hin). set_solver.
    + intros k [->|Hin]%elem_of_cons; [done|]. intros Hk'. apply (E6 _ Hin). set_solver.
Qed.

(** *** The plan a validation returns *)

Lemma bind_definition_ok s p p' :
  bind_definition s p = Ok p' ->
  model_validate p' = Ok tt /\ pl_execution_lease p' = None /\
  (p' = p \/ exists d, ps_deployment_id s = Some d /\
     p' = p <| pl_deployment_id := Some d |> <| pl_schema_version := "v2" |>) /\
  (opt_bool (ps_deployment_id s) = true -> pl_deployment_id p' = ps_deployment_id s).
Proof.
  unfold bind_definition. intros ([] & Hm & H)%result_bind_ok.
  apply result_bind_ok in H as ([] & Hl & H). apply raise_if_ok in Hl.
  assert (Hlease : pl_execution_lease p = None) by (by destruct (pl_execution_lease p)).
  destruct (ps_deployment_id s) as [d|] eqn:Ed; [|injection H as <-; split_and!; try done; by left].
  apply result_bind_ok in H as ([] & Hd & H). case_bool_decide as Hdep.
  - injection H as <-. split_and!; try done. by left.
  - ok_inv. subst. split_and!; try done. right. eauto.
Qed.

(** What [Plan.model_validate] accepts. *)
Record plan_valid (p : Plan) : Prop := {
  pv_commands : pl_commands p <> [] /\ (List.length (pl_commands p) <= 50)%nat;
  pv_authority : validate_authority (pl_authority p) = Ok tt;
  pv_command_models : Forall (fun c => validate_command_model c = Ok tt) (pl_commands p);
  pv_window : forall w, pl_execution_window p = Some w ->
    validate_window w = Ok tt /\ pl_execute_at p = Some (ew_intended_at w) /\
    pl_schedule_revision p = ew_revision w;
  pv_approval : forall a, pl_approval p = Some a -> validate_approval a = Ok tt;
  pv_schema : pl_schema_version p =
    expected_schema_version (pl_deployment_id p) (pl_execution_lease p);
  pv_lease : forall l d, pl_execution_lease p = Some l -> pl_deployment_id p = Some d ->
    pel_deployment_id l = d
}.

Lemma model_validate_ok p : model_validate p = Ok tt <-> plan_valid p.
Proof.
  unfold model_validate, validate_plan.
  rewrite !bind_unit_ok, !raise_if_ok, result_iter_ok, orb_false_iff, bool_decide_eq_false,
    Nat.ltb_ge, negb_false_iff, String.eqb_eq.
  split.
  - intros ([H1 H2] & H3 & H4 & H5 & H6 & H7 & H8 & H9). split; try done.
    + intros w Hw. rewrite Hw in H5, H8. rewrite !bind_unit_ok, !raise_if_ok in H8.
      destruct H8 as (_ & H8 & H10). apply negb_false_iff in H8, H10.
      apply bool_decide_eq_true in H8. apply Z.eqb_eq in H10. done.
    + intros a Ha. by rewrite Ha in H6.
    + intros l d Hl Hd. rewrite Hl, Hd in H9. apply raise_if_ok, negb_false_iff in H9.
      by apply String.eqb_eq.
  - intros [[H1 H2] H3 H4 H5 H6 H7 H8]. split_and!; try done.
    + destruct (pl_execution_window p) as [w|]; [|done]. by apply H5.
    + destruct (pl_approval p) as [a|]; [|done]. by apply H6.
    + destruct (pl_execution_window p) as [w|]; [|done]. destruct (H5 w) as (_ & H9 & H10); [done|].
      rewrite !bind_unit_ok, !raise_if_ok, H9, H10, Z.eqb_refl.
      by rewrite bool_decide_eq_true_2.
    + destruct (pl_execution_lease p) as [l|], (pl_deployment_id p) as [d|]; try done.
      rewrite (H8 l d) by done. by rewrite String.eqb_refl.
Qed.

Lemma temporal_plan_ok p e tp e' :
  temporal_plan p e = Ok (tp, e') -> plan_valid p ->
  e' <= e /\ (forall w, pl_execution_window tp = Some w -> e' <= ew_not_after w) /\
  plan_valid tp /\ exists w, tp = p <| pl_execution_window := w |>.
Proof.
  unfold temporal_plan. intros Ht Hv. destruct (pl_execution_window p) as [w|] eqn:Ew.
  - injection Ht as <- <-. split; [destruct (Z.ltb_spec (ew_not_after w) e); lia|]. split.
    + rewrite Ew. intros w' [= <-]. destruct (Z.ltb_spec (ew_not_after w) e); lia.
    + split; [done|]. exists (Some w). rewrite <- Ew. by destruct p.
  - destruct (pl_execute_at p) as [at_|] eqn:Ea.
    + apply result_bind_ok in Ht as ([] & Hw & [= <- <-]). split; [lia|]. split.
      { simpl. intros w [= <-]. simpl. lia. }
      split; [|by eexists]. destruct Hv. split; simpl; try done.
      intros w [= <-]. done.
    + injection Ht as <- <-. split; [lia|]. split; [by rewrite Ew|]. split; [done|].
      exists None. rewrite <- Ew. by destruct p.
Qed.

(** Replacing the commands by their normalised forms keeps the plan valid. *)
Lemma plan_valid_normalized p cs :
  plan_valid p -> Forall2 normalizes (pl_commands p) cs -> plan_valid (p <| pl_commands := cs |>).
Proof.
  intros [[H1 H2] H3 H4 H5 H6 H7 H8] Hn. split; simpl; try done.
  - pose proof (Forall2_length _ _ _ Hn) as Hl. split; [|by rewrite <- Hl].
    intros ->. by destruct (pl_commands p).
  - clear H1 H2. induction Hn as [|c c' l l' [u ->] _ IH]; [constructor|].
    inversion H4; subst. constructor; [done|by apply IH].
Qed.

(** The returned plan, field by field. *)
Record validated (s : PlanService) (now : datetime) (p p' : Plan) (acc : ValidationState) : Prop := {
  vd_bound : exists b, bind_definition s p = Ok b /\
    validate_commands s (mkValidationState [] [] [] ∅ ∅ ∅ []) (pl_commands b) = Ok acc;
  vd_id : pl_id p' = pl_id p;
  vd_authority : pl_authority p' = pl_authority p;
  vd_deployment : opt_bool (ps_deployment_id s) = true -> pl_deployment_id p' = ps_deployment_id s;
  vd_commands : pl_commands p' = va_commands acc;
  vd_decisions : pl_policy_decisions p' = va_decisions acc;
  vd_status : pl_status p' =
    if bool_decide (va_errors acc = [])
    then if requires_confirmation (va_decisions acc) then PS_REQUIRES_CONFIRMATION else PS_READY
    else PS_VALIDATED;
  vd_validation : exists v e, pl_validation p' = Some v /\ vr_errors v = va_errors acc /\
    vr_validated_at v = now /\ vr_valid_until v = Some e /\ pl_expires_at p' = Some e /\
    vr_status v = (if bool_decide (va_errors acc = [])
      then if requires_confirmation (va_decisions acc) then VS_REQUIRES_CONFIRMATION else VS_VALID
      else VS_INVALID) /\
    vr_dependencies v = Some (mkPlanDependencies (runtime_revision (ps_state_store s))
      (policy_revision (ps_policy_engine s)) (va_state_versions acc) (va_dependency_kinds acc)
      (va_capability_fingerprints acc)) /\
    e <= default_validation_expiry now /\
    (forall x, pl_expires_at p = Some x -> e <= x) /\
    (forall w, pl_execution_window p' = Some w -> e <= ew_not_after w);
  vd_valid : va_errors acc = [] -> plan_valid p'
}.

Lemma validate_ok s now p p' :
  validate s now p = Ok p' -> exists acc, validated s now p p' acc.
Proof.
  unfold validate. intros (b & Hb & H)%result_bind_ok.
  apply result_bind_ok in H as ([tp e] & Ht & H).
  apply result_bind_ok in H as (acc & Hc & [= <-]). exists acc.
  pose proof (bind_definition_ok _ _ _ Hb) as (Hm & _ & Hbp & Hdep).
  assert (Hfields : pl_id b = pl_id p /\ pl_authority b = pl_authority p /\
    pl_expires_at b = pl_expires_at p) by (destruct Hbp as [->|(d & _ & ->)]; done).
  destruct Hfields as (Ei & Ea & Ee).
  apply model_validate_ok in Hm.
  destruct (temporal_plan_ok _ _ _ _ Ht Hm) as (He & Hw & Hv & w & ->). simpl.
  split; simpl; try done.
  - by exists b.
  - by case_bool_decide.
  - eexists _, e. split; [done|]. simpl. split; [done|]. split; [done|]. split; [done|].
    split; [done|]. split; [by case_bool_decide|]. split; [done|].
    rewrite Ee in He. split; [|split; [|done]].
    + destruct (pl_expires_at p); lia.
    + intros x Hx. rewrite Hx in He. lia.
  - intros Herr. destruct (validate_commands_clean _ _ _ _ Hc Herr) as [_ [run Hrun]].
    destruct (clean_run_outputs _ _ _ _ _ Hrun) as (E1 & _ & Hn & _). simpl in E1.
    rewrite <- E1 in Hn. pose proof (plan_valid_normalized _ _ Hv Hn) as [H1 H2 H3 H4 H5 H6 H7].
    split; simpl in *; done.
Qed.

(** ** Fingerprints recorded and fingerprints recomputed *)

Lemma find_readable_named d name cap :
  find_first (named name) (dev_capabilities d) = Some cap -> cap_readable cap = true ->
  find_first (readable_named name) (dev_capabilities d) = Some cap.
Proof. apply find_first_strengthen. Qed.

Lemma feedback_errors_clean s c d what name :
  feedback_errors s c d what name = (true, []) ->
  is_Some (feedback_fingerprint s d name).
Proof.
  unfold feedback_errors, feedback_fingerprint.
  destruct (find_first (named name) (dev_capabilities d)) as [cap|] eqn:Ef; [|done].
  destruct (cap_readable cap) eqn:Er; [|done].
  rewrite (find_readable_named _ _ _ Ef Er).
  destruct (readable_routes s d name) as [|x [|y l]]; simpl; done.
Qed.

Lemma feedback_errors_nil s c d what name b :
  feedback_errors s c d what name = (b, []) -> b = true.
Proof. unfold feedback_errors. repeat case_match; congruence. Qed.

Lemma flat_map_nil {A B} (f : A -> list B) l : flat_map f l = [] <-> forall x, x ∈ l -> f x = [].
Proof.
  induction l as [|x l IH]; simpl; [set_solver|]. split.
  - intros [H1 H2]%app_eq_nil y [->|Hy]%elem_of_cons; [done|]. by apply IH.
  - intros H. rewrite (H x) by set_solver. simpl. apply IH. intros y Hy. apply H. set_solver.
Qed.

Lemma clean_feedback s c d :
  validate_postconditions s c d = [] ->
  forall entry, entry ∈ command_feedback d c -> is_Some (feedback_fingerprint s d (snd entry)).
Proof.
  unfold validate_postconditions, command_feedback. rewrite flat_map_nil. intros H entry Hin.
  apply list_elem_of_In, in_flat_map in Hin as (p & Hp & Hin).
  apply list_elem_of_In in Hp, Hin. specialize (H p Hp). unfold postcondition_errors in H.
  destruct (feedback_errors s c d "Postcondition" (post_capability p)) as [b errs] eqn:Ef.
  assert (b = true /\ errs = [] /\
    forall n, n ∈ post_reconcile_capabilities p ->
      snd (feedback_errors s c d "Reconciliation" n) = []) as (-> & -> & Hr).
  { destruct b; [apply app_eq_nil in H as [-> H]; by rewrite flat_map_nil in H|].
    subst errs. by apply feedback_errors_nil in Ef. }
  unfold postcondition_feedback in Hin. apply elem_of_cons in Hin as [->|Hin]; simpl.
  - by eapply feedback_errors_clean.
  - apply list_elem_of_fmap in Hin as (n & -> & Hn). simpl. specialize (Hr n Hn).
    destruct (feedback_errors s c d "Reconciliation" n) as [b errs] eqn:En. simpl in Hr. subst errs.
    pose proof (feedback_errors_nil _ _ _ _ _ _ En) as ->. by eapply feedback_errors_clean.
Qed.

Lemma current_feedback_recorded s d l m :
  (forall entry, entry ∈ l -> is_Some (feedback_fingerprint s d (snd entry))) ->
  current_feedback s d l m = Some (fold_left (add_feedback s d) l m).
Proof.
  revert m. induction l as [|[k n] l IH]; intros m H; simpl; [done|].
  destruct (H (k, n)) as [h Hh]; [set_solver|]. simpl in Hh.
  unfold add_feedback at 2. simpl. rewrite Hh. apply IH. intros. apply H. set_solver.
Qed.

Lemma clean_run_fingerprints s l run acc acc' :
  clean_run s l run acc acc' ->
  current_fingerprints s (map fst run) (va_capability_fingerprints acc)
    = Some (va_capability_fingerprints acc').
Proof.
  induction 1 as [|c l c' d cap dec run acc acc1 acc2 Hs Hr IH]; [done|]. simpl.
  destruct Hs as [[Hd Hcap _ _ _ _ _ Hfb _ _] _ _ _ _ _ _ Hf]. rewrite Hd, Hcap.
  rewrite current_feedback_recorded by by apply clean_feedback. by rewrite <- Hf.
Qed.

Lemma fold_feedback_nonempty s d l m :
  m <> ∅ -> fold_left (add_feedback s d) l m <> ∅.
Proof.
  revert m. induction l as [|e l IH]; intros m Hm; simpl; [done|]. apply IH.
  unfold add_feedback. case_match; [apply insert_non_empty|done].
Qed.

Lemma clean_run_nonempty s l run acc acc' :
  clean_run s l run acc acc' -> run <> [] \/ va_capability_fingerprints acc <> ∅ ->
  va_capability_fingerprints acc' <> ∅.
Proof.
  induction 1 as [|c l c' d cap dec run acc acc1 acc2 Hs Hr IH]; [by intros [?|?]|].
  intros _. apply IH. right. rewrite (cs_fingerprints _ _ _ _ _ _ _ _ Hs).
  apply fold_feedback_nonempty, insert_non_empty.
Qed.

(** ** State versions recorded and looked up *)

Lemma partition_dep_key device capability :
  colon_free device -> partition_key (dep_key device capability) = (device, capability).
Proof.
  intros Hc. unfold partition_key, dep_key. rewrite index_colons by done.
  rewrite substring_app_l, substring_app_r. f_equal.
  change (String.substring 2 ?n ("::" +:+ capability)) with (String.substring 0 n capability).
  apply substring_all. rewrite !string_length_app. lia.
Qed.

(** ** Properties *)

(** Nothing but the one available route is left to choose. *)
Lemma cleared_route s c d cap decision :
  command_cleared s c d cap decision -> dev_id d = cmd_device_id c ->
  exists rt, rr_route (resolve_command_route (ps_registry s) (cmd_device_id c) (cmd_command c))
    = Some rt /\ rt_available rt = true.
Proof.
  intros [Hd Hcap _ _ _ _ Hr _ _ _] Hid. revert Hr. unfold route_error. rewrite Hid.
  unfold resolve_command_route, find_capability in *. rewrite Hd, Hcap.
  destruct (List.filter _ _) as [|x [|y l]]; try done.
  destruct (rt_available x) eqn:Ea; [|done]. by exists x.
Qed.

(** C8: A plan that validation makes executable (READY, or waiting for the
    operator's confirmation) is valid as a document, and every one of its
    commands is cleared by every gate: the live device offers it as a writable
    command, energy and vehicle actuators are bound to it by name, its unit and
    value fit the capability, exactly one available route leads to its source,
    its feedback can be read back, and the policy engine did not deny it.  The
    commands are the submitted ones in order, up to the unit that was filled
    in, their idempotency keys are pairwise different, and the plan is READY
    only if the policy engine allowed all of them. *)
Theorem executable_plan_cleared s now p p' :
  validate s now p = Ok p' -> pl_status p' ∈ [PS_READY; PS_REQUIRES_CONFIRMATION] ->
  plan_valid p' /\
  (exists b, bind_definition s p = Ok b /\ Forall2 normalizes (pl_commands b) (pl_commands p')) /\
  NoDup (map cmd_idempotency_key (pl_commands p')) /\
  Forall2 (fun c decision => exists d cap, command_cleared s c d cap decision /\
      (dev_id d = cmd_device_id c -> exists rt,
         rr_route (resolve_command_route (ps_registry s) (cmd_device_id c) (cmd_command c)) = Some rt /\
         rt_available rt = true))
    (pl_commands p') (pl_policy_decisions p') /\
  (pl_status p' = PS_READY ->
   Forall (fun decision => pd_action decision = PA_ALLOW) (pl_policy_decisions p')).
Proof.
  intros (acc & [(b & Hb & Hc) _ _ _ Ecs Eds Est _ Hv])%validate_ok Hst.
  case_bool_decide as Herr; [|rewrite Est in Hst; set_solver].
  destruct (validate_commands_clean _ _ _ _ Hc Herr) as [_ [run Hrun]].
  destruct (clean_run_outputs _ _ _ _ _ Hrun) as (E1 & E2 & Hn & Hcl & Hnd).
  simpl in E1, E2. rewrite Ecs, Eds, E1, E2. split; [auto|]. split; [by exists b|].
  split; [by apply Hnd; constructor|]. split.
  - rewrite Forall2_fmap. apply Forall_Forall2_diag, Forall_forall. intros [c dec] Hin. simpl.
    destruct (Hcl c dec Hin) as (d & cap & H). exists d, cap. split; [done|].
    by eapply cleared_route.
  - intros Hready. rewrite Hready in Est.
    destruct (requires_confirmation (va_decisions acc)) eqn:Erc; [done|].
    apply Forall_forall. intros dec Hin. rewrite <- E2 in Hin.
    unfold requires_confirmation in Erc. destruct (pd_action dec) eqn:Ea; [done| |].
    + rewrite E2 in Hin. apply list_elem_of_fmap in Hin as ([c dec'] & -> & Hin).
      simpl in Ea. by destruct (Hcl c dec' Hin) as (? & ? & []).
    + exfalso. rewrite <- not_true_iff_false in Erc. apply Erc, existsb_exists. exists dec.
      split; [by apply list_elem_of_In|]. by rewrite Ea.
Qed.

(** The evidence of a validation lives at most 24 hours, never longer than
    the plan it is about, and never past the end of the window the plan may
    execute in. *)
Theorem validity_bounded s now p p' :
  validate s now p = Ok p' ->
  exists v until, pl_validation p' = Some v /\ vr_valid_until v = Some until /\
    pl_expires_at p' = Some until /\
    until <= now + VALIDATION_TTL /\
    (forall e, pl_expires_at p = Some e -> until <= e) /\
    (forall w, pl_execution_window p' = Some w -> until <= ew_not_after w).
Proof.
  intros (acc & [_ _ _ _ _ _ _ (v & e & H1 & H2 & H3 & H4 & H5 & _ & _ & H6 & H7 & H8) _])%validate_ok.
  exists v, e. split_and!; try done. etransitivity; [exact H6|].
  unfold default_validation_expiry. change (minutes 1) with 60000000.
  pose proof (Z.mul_div_le (now + VALIDATION_TTL) 60000000). lia.
Qed.

(** ** Values *)

Definition kind_accepts (k : CapabilityKind) (v : scalar) : Prop :=
  match k with
  | BOOLEAN => exists b, v = SBool b
  | INTEGER => exists z, v = SNum (NInt z)
  | NUMBER => exists n, v = SNum n
  | TEXT | TIMESTAMP | ENUM => exists s, v = SStr s
  end.

(** A whole number of steps above the minimum, up to the tolerance. *)
Definition step_aligned (cap : Capability) (value : f64) : Prop :=
  match json_get "step" (cap_constraints cap) with
  | None => True
  | Some (JNum step) => exists base s,
      to_float (default (NInt 0) (cap_minimum cap)) = Some base /\ to_float step = Some s /\
      num_eq (NFloat s) (NInt 0) = false /\
      let quotient := f64_div (f64_sub value base) s in
      f64_isfinite quotient = true /\
      isclose_abs quotient (f64_of_Z (f64_round quotient)) f64_1e_9 = true
  | Some _ => False
  end.

(** What a capability accepts. *)
Record in_envelope (cap : Capability) (v : scalar) : Prop := {
  ie_kind : kind_accepts (cap_kind cap) v;
  ie_number : forall n, v = SNum n -> exists f, to_float n = Some f /\ f64_isfinite f = true /\
    (forall lo, cap_minimum cap = Some lo -> num_lt (NFloat f) lo = false) /\
    (forall hi, cap_maximum cap = Some hi -> num_gt (NFloat f) hi = false) /\
    step_aligned cap f;
  ie_enum : cap_enum_values cap <> [] -> exists s, v = SStr s /\ s ∈ cap_enum_values cap
}.

Lemma kind_error_nil c k v : kind_error c k v = [] <-> kind_accepts k v.
Proof.
  unfold kind_error, kind_accepts, is_bool, is_int, is_str.
  destruct k, v as [?|[?|?]|?]; simpl; split; try done; try (by eexists); by intros [? ?].
Qed.

Lemma enum_errors_nil c cap v :
  enum_errors c cap v = [] <->
  (cap_enum_values cap <> [] -> exists s, v = SStr s /\ s ∈ cap_enum_values cap).
Proof.
  unfold enum_errors. rewrite error_if_nil, andb_false_iff, bool_decide_eq_false, negb_false_iff.
  split.
  - intros [H|H] Hne; [done|]. destruct v as [|?|s]; try done.
    apply bool_decide_eq_true in H. eauto.
  - intros H. destruct (decide (cap_enum_values cap = [])) as [|Hne]; [left; tauto|right].
    destruct (H Hne) as (s & -> & Hs). by apply bool_decide_eq_true.
Qed.

Lemma range_errors_nil c cap f :
  range_errors c cap f = [] <->
  (forall lo, cap_minimum cap = Some lo -> num_lt (NFloat f) lo = false) /\
  (forall hi, cap_maximum cap = Some hi -> num_gt (NFloat f) hi = false).
Proof.
  unfold range_errors. split.
  - intros [H1 H2]%app_eq_nil. split.
    + intros lo E. rewrite E in H1. by apply error_if_nil in H1.
    + intros hi E. rewrite E in H2. by apply error_if_nil in H2.
  - intros [H1 H2]. destruct (cap_minimum cap) as [lo|]; [rewrite (H1 lo) by done|];
      (destruct (cap_maximum cap) as [hi|]; [rewrite (H2 hi) by done|]); done.
Qed.

Lemma py_round_ok x r : py_round x = Ok r <-> f64_isfinite x = true /\ r = f64_round x.
Proof. destruct x; simpl; split; try (by intros [= <-]); try (by intros [? ->]); by intros [? ?]. Qed.

Lemma step_errors_nil c cap f : step_errors c cap f = Ok [] <-> step_aligned cap f.
Proof.
  unfold step_errors, step_aligned. destruct (json_get "step" (cap_constraints cap)) as [j|]; [|done].
  destruct j as [| |step| | |]; try done. split.
  - intros (b & Hb & H)%result_bind_ok. apply result_bind_ok in H as (s & Hs & H).
    apply result_bind_ok in H as ([] & Hz & H). apply result_bind_ok in H as (r & Hr & [= H]).
    apply raise_if_ok in Hz. apply py_float_ok in Hb, Hs. apply py_round_ok in Hr as [Hf ->].
    apply error_if_nil, negb_false_iff in H. by exists b, s.
  - intros (b & s & Hb%py_float_ok & Hs%py_float_ok & Hz & Hf & Hc). rewrite Hb. simpl. rewrite Hs. simpl.
    rewrite Hz. simpl. rewrite (proj2 (py_round_ok _ _) (conj Hf eq_refl)). simpl. by rewrite Hc.
Qed.

(** The value check is exact: a command value passes precisely when it has
    the kind of the capability, is a finite float inside the capability's
    bounds on a whole number of steps above its minimum (to 1e-9), and is one
    of its enumerated values when it enumerates any.  In particular a
    non-finite number or a number out of range never passes, whatever the
    capability says. *)
Theorem validate_value_exact c cap :
  validate_value c cap = Ok [] <-> forall v, cmd_value c = Some v -> in_envelope cap v.
Proof.
  unfold validate_value. destruct (cmd_value c) as [v|]; [|done].
  assert (Hall : forall P : Prop, (P <-> in_envelope cap v) ->
    (P <-> forall v', Some v = Some v' -> in_envelope cap v')).
  { intros P ->. split; [by intros ? ? [= <-]|auto]. }
  apply Hall. clear Hall. destruct (numeric v) as [n|] eqn:En.
  - destruct v as [?|n'|?]; try done. injection En as ->. split.
    + intros (f & Hf & H)%result_bind_ok. apply result_bind_ok in H as (st & Hst & [= H]).
      apply app_eq_nil in H as [H1 [H2 [H3 [-> H5]%app_eq_nil]%app_eq_nil]%app_eq_nil].
      apply kind_error_nil in H1. apply error_if_nil, negb_false_iff in H2.
      apply range_errors_nil in H3 as [H3 H4]. apply step_errors_nil in Hst.
      rewrite enum_errors_nil in H5. rewrite py_float_ok in Hf.
      split; [done| |done]. intros ? [= <-]. by exists f.
    + intros [H1 H2 H3]. destruct (H2 n eq_refl) as (f & Hf & Hfin & Hlo & Hhi & Hst).
      apply py_float_ok in Hf. apply step_errors_nil with (c := c) in Hst. rewrite Hf. simpl. rewrite Hst. simpl.
      rewrite (proj2 (kind_error_nil c _ _) H1), (proj2 (enum_errors_nil c _ _) H3), Hfin.
      by rewrite (proj2 (range_errors_nil c cap f) (conj Hlo Hhi)).
  - split.
    + intros [= [H1 H2]%app_eq_nil]. apply kind_error_nil in H1. rewrite enum_errors_nil in H2.
      split; [done| |done]. by intros ? ->.
    + intros [H1 _ H3].
      by rewrite (proj2 (kind_error_nil c _ _) H1), (proj2 (enum_errors_nil c _ _) H3).
Qed.

(** ** Execution *)

(** What a plan depends on has not changed since it was validated; [overrides]
    lists the versions the plan's own earlier effects have produced. *)
Record dependencies_hold (s : PlanService) (p : Plan) (deps : PlanDependencies)
    (overrides : option (gmap string Z)) : Prop := {
  dh_inventory : dep_inventory_revision deps = runtime_revision (ps_state_store s);
  dh_policy : dep_policy_revision deps = policy_revision (ps_policy_engine s);
  dh_nonempty : dep_capability_fingerprints deps <> ∅;
  dh_fingerprints : current_fingerprints s (pl_commands p) ∅ = Some (dep_capability_fingerprints deps);
  dh_versions : forall k version, dep_state_versions deps !! k = Some version ->
    state_version (ps_state_store s) (fst (partition_key k)) (snd (partition_key k)) =
      match overrides with Some o => default version (o !! k) | None => version end
}.

(** The approval is the one for this validation, this window and this moment. *)
Record approval_holds (now : datetime) (p : Plan) (v : ValidationResult) (a : Approval) : Prop := {
  ah_status : ap_status a = "approved";
  ah_id : is_Some (ap_approval_id a);
  ah_digest : ap_validation_digest a = vr_digest v;
  ah_expiry : forall e, ap_expires_at a = Some e -> now < e;
  ah_lifetime : ap_validation_valid_until a = vr_valid_until v;
  ah_window : ap_window_digest a = plan_window_digest p;
  ah_schedule : ap_schedule_revision a = pl_schedule_revision p
}.

Record executable (s : PlanService) (now : datetime) (p : Plan) (overrides : option (gmap string Z))
    (v : ValidationResult) (deps : PlanDependencies) : Prop := {
  ex_valid : plan_valid p;
  ex_deployment : opt_bool (ps_deployment_id s) = true -> pl_deployment_id p = ps_deployment_id s;
  ex_status : pl_status p ∈ [PS_READY; PS_APPROVED];
  ex_expiry : forall e, pl_expires_at p = Some e -> now < e;
  ex_validation : pl_validation p = Some v /\ vr_dependencies v = Some deps;
  ex_lifetime : forall e, vr_valid_until v = Some e -> now < e;
  ex_clean : vr_status v <> VS_INVALID;
  ex_dependencies : dependencies_hold s p deps overrides;
  ex_approval : vr_status v = VS_REQUIRES_CONFIRMATION ->
    exists a, pl_approval p = Some a /\ approval_holds now p v a
}.

Lemma opt_le_false (o : option datetime) now :
  opt_le o now = false <-> forall e, o = Some e -> now < e.
Proof.
  unfold opt_le. destruct o as [x|]; [|done]. rewrite Z.leb_gt. split; [by intros ? ? [= <-]|auto].
Qed.

Lemma version_current_ok s overrides k version :
  version_current s overrides (k, version) = true <->
  state_version (ps_state_store s) (fst (partition_key k)) (snd (partition_key k)) =
    match overrides with Some o => default version (o !! k) | None => version end.
Proof. unfold version_current. destruct (partition_key k). apply Z.eqb_eq. Qed.

Lemma dependencies_still_current_ok s p v overrides :
  dependencies_still_current s p v overrides = true <->
  exists deps, vr_dependencies v = Some deps /\ dependencies_hold s p deps overrides.
Proof.
  unfold dependencies_still_current. destruct (vr_dependencies v) as [deps|].
  2: { split; [done|by intros (? & ? & _)]. }
  rewrite !andb_true_iff, !String.eqb_eq, negb_true_iff, bool_decide_eq_false, bool_decide_eq_true,
    forallb_forall.
  split.
  - intros [[[[H1 H2] H3] H4] H5]. exists deps. split; [done|]. split; try done.
    intros k version Hk. apply version_current_ok, H5, list_elem_of_In. by apply elem_of_map_to_list.
  - intros (deps' & [= <-] & [H1 H2 H3 H4 H5]). split_and!; try done.
    intros [k version] Hin. apply version_current_ok, H5. apply list_elem_of_In in Hin.
    by apply elem_of_map_to_list in Hin.
Qed.

Lemma assert_approval_ok now p v :
  assert_approval now p v = Ok tt <-> exists a, pl_approval p = Some a /\ approval_holds now p v a.
Proof.
  unfold assert_approval. destruct (pl_approval p) as [a|].
  2: { split; [done|by intros (? & ? & _)]. }
  rewrite !bind_unit_ok, !raise_if_ok, orb_false_iff, !negb_false_iff, !bool_decide_eq_true,
    !String.eqb_eq, Z.eqb_eq, opt_le_false.
  split.
  - intros (H1 & H2 & H3 & H4 & H5 & H6 & H7). exists a. split; [done|]. split; try done.
    destruct (ap_approval_id a); [by eexists|done].
  - intros (? & [= <-] & [H1 [id H2] H3 H4 H5 H6 H7]). rewrite H2. done.
Qed.

Lemma assert_executable_iff s now p overrides :
  assert_executable s now p overrides = Ok tt <->
  exists v deps, executable s now p overrides v deps.
Proof.
  unfold assert_executable.
  rewrite !bind_unit_ok, !raise_if_ok, model_validate_ok, andb_false_iff, negb_false_iff,
    bool_decide_eq_true, bool_decide_eq_false, opt_le_false.
  destruct (pl_validation p) as [v|] eqn:Ev.
  2: { split; [intros H; by destruct_ands|]. intros (v & deps & [_ _ _ _ [? _] _ _ _ _]). congruence. }
  rewrite !bind_unit_ok, !raise_if_ok, !negb_false_iff, bool_decide_eq_false, bool_decide_eq_true,
    opt_le_false, dependencies_still_current_ok.
  split.
  - intros (H1 & H2 & H3 & H4 & H5 & H6 & H7 & (deps & H8 & H9) & H10). exists v, deps.
    split; try done.
    + intros Hd. destruct H2 as [H2|H2]; [congruence|done].
    + intros Hst. rewrite Hst in H10. simpl in H10. by apply assert_approval_ok.
  - intros (v' & deps & [H1 H2 H3 H4 [H5 H6] H7 H8 H9 H10]). assert (v' = v) as -> by congruence.
    split_and!; try done.
    + destruct (opt_bool (ps_deployment_id s)); [right; auto|by left].
    + intros Hc. rewrite Hc in H3. set_solver.
    + by exists deps.
    + case_bool_decide as Hs; [|done]. apply assert_approval_ok. auto.
Qed.

(** Execution is refused unless everything the plan rests on still holds:
    [assert_executable] succeeds exactly when the plan document is valid and
    belongs to this deployment, is READY or APPROVED, neither the plan nor its
    evidence has expired, the validation was not invalid, the inventory, the
    policy, every command's capability and route fingerprint and every
    precondition's state version are the recorded ones, and, where the policy
    asked for confirmation, an approval for this very validation, window and
    schedule revision is still alive. *)
Theorem assert_executable_exact s now p overrides :
  assert_executable s now p overrides = Ok tt <->
  exists v deps, executable s now p overrides v deps.
Proof. apply assert_executable_iff. Qed.

(** ** From validation to execution *)

Lemma current_feedback_registry s s' d l m :
  ps_registry s' = ps_registry s -> current_feedback s' d l m = current_feedback s d l m.
Proof.
  intros Hr. revert m. induction l as [|[k n] l IH]; intros m; simpl; [done|].
  replace (feedback_fingerprint s' d n) with (feedback_fingerprint s d n)
    by (unfold feedback_fingerprint, readable_routes; by rewrite Hr).
  by destruct (feedback_fingerprint s d n).
Qed.

Lemma current_fingerprints_registry s s' l m :
  ps_registry s' = ps_registry s -> current_fingerprints s' l m = current_fingerprints s l m.
Proof.
  intros Hr. revert m. induction l as [|c l IH]; intros m; simpl; [done|]. rewrite Hr.
  destruct (get_device _ _) as [d|]; [|done]. destruct (find_capability d _) as [cap|]; [|done].
  unfold command_fingerprint. rewrite Hr, (current_feedback_registry s s') by done.
  by destruct (current_feedback _ _ _ _).
Qed.

Definition pre_key (p : Precondition) : string := dep_key (pre_device_id p) (pre_capability p).
Definition pre_version (s : PlanService) (p : Precondition) : Z :=
  state_version (ps_state_store s) (pre_device_id p) (pre_capability p).

(** The map holds the version of every precondition of the list. *)
Definition recorded (s : PlanService) (l : list Precondition) (m : gmap string Z) : Prop :=
  forall k v, m !! k = Some v <-> exists p, p ∈ l /\ k = pre_key p /\ v = pre_version s p.

Lemma pre_key_version s p q :
  colon_free (pre_device_id p) -> colon_free (pre_device_id q) -> pre_key p = pre_key q ->
  pre_version s p = pre_version s q.
Proof.
  intros Hp Hq E. apply (f_equal partition_key) in E. unfold pre_key in E.
  rewrite !partition_dep_key in E by done. injection E as E1 E2. unfold pre_version. by rewrite E1, E2.
Qed.

Lemma recorded_add s l acc p :
  Forall (fun q => colon_free (pre_device_id q)) (l ++ [p]) ->
  recorded s l (fst acc) -> recorded s (l ++ [p]) (fst (add_precondition s acc p)).
Proof.
  rewrite Forall_app, Forall_forall, Forall_singleton. intros [Hl Hp] Hm k v.
  change (fst (add_precondition s acc p)) with (<[pre_key p := pre_version s p]> (fst acc)).
  unfold recorded in Hm. rewrite lookup_insert_Some, (Hm k v). setoid_rewrite elem_of_app. setoid_rewrite list_elem_of_singleton.
  split.
  - intros [[<- <-]|[_ (q & Hq & Hk & Hv)]]; [exists p; auto|exists q; auto].
  - intros (q & [Hq| ->] & -> & ->); [|by left]. destruct (decide (pre_key p = pre_key q)) as [E|].
    + left. split; [done|]. apply pre_key_version; auto.
    + right. eauto.
Qed.

Lemma recorded_fold s l l' acc :
  Forall (fun q => colon_free (pre_device_id q)) (l ++ l') -> recorded s l (fst acc) ->
  recorded s (l ++ l') (fst (fold_left (add_precondition s) l' acc)).
Proof.
  revert l acc. induction l' as [|p l' IH]; intros l acc Hc Hm; simpl; [by rewrite app_nil_r|].
  rewrite cons_middle, app_assoc in Hc |- *. apply IH; [done|].
  apply Forall_app in Hc as [Hc _]. by apply recorded_add.
Qed.

Lemma clean_run_recorded s l run acc acc' pre :
  clean_run s l run acc acc' ->
  Forall (fun q => colon_free (pre_device_id q))
    (pre ++ flat_map cmd_preconditions (map fst run)) ->
  recorded s pre (va_state_versions acc) ->
  recorded s (pre ++ flat_map cmd_preconditions (map fst run)) (va_state_versions acc').
Proof.
  intros Hr. revert pre. induction Hr as [|c l c' d cap dec run acc acc1 acc2 Hs Hr IH];
    simpl; intros pre Hc Hm; [by rewrite app_nil_r|].
  rewrite app_assoc in Hc |- *. apply IH; [done|]. rewrite (cs_versions _ _ _ _ _ _ _ _ Hs).
  apply Forall_app in Hc as [Hc _]. by apply recorded_fold.
Qed.

Lemma recorded_empty s : recorded s [] ∅.
Proof. intros k v. rewrite lookup_empty. split; [done|]. intros (? & Hp & _). set_solver. Qed.

(** The versions a plan's preconditions pin are unchanged. *)
Definition preconditions_unchanged (s s' : PlanService) (p : Plan) : Prop :=
  forall c pre, c ∈ pl_commands p -> pre ∈ cmd_preconditions c -> pre_version s' pre = pre_version s pre.

Definition preconditions_colon_free (p : Plan) : Prop :=
  Forall (fun pre => colon_free (pre_device_id pre)) (flat_map cmd_preconditions (pl_commands p)).

Lemma elem_of_flat_map {A B} (f : A -> list B) l y :
  y ∈ flat_map f l <-> exists x, x ∈ l /\ y ∈ f x.
Proof.
  rewrite list_elem_of_In, in_flat_map. by setoid_rewrite list_elem_of_In.
Qed.

(** The same registry, policy and deployment: only readings may have changed,
    within the same inventory revision. *)
Record same_configuration (s s' : PlanService) : Prop := {
  sc_registry : ps_registry s' = ps_registry s;
  sc_policy : ps_policy_engine s' = ps_policy_engine s;
  sc_deployment : ps_deployment_id s' = ps_deployment_id s;
  sc_inventory : runtime_revision (ps_state_store s') = runtime_revision (ps_state_store s)
}.

Lemma validated_dependencies_hold s s' now p p' acc :
  validated s now p p' acc -> va_errors acc = [] -> same_configuration s s' ->
  preconditions_colon_free p' ->
  dependencies_hold s' p'
    (mkPlanDependencies (runtime_revision (ps_state_store s)) (policy_revision (ps_policy_engine s))
      (va_state_versions acc) (va_dependency_kinds acc) (va_capability_fingerprints acc)) None <->
  preconditions_unchanged s s' p'.
Proof.
  intros [(b & Hb & Hc) _ _ _ Ecs _ _ _ Hv] Herr [Hr Hp _ Hi] Hcf.
  destruct (validate_commands_clean _ _ _ _ Hc Herr) as [_ [run Hrun]].
  destruct (clean_run_outputs _ _ _ _ _ Hrun) as (E1 & _). simpl in E1.
  pose proof (clean_run_fingerprints _ _ _ _ _ Hrun) as Hf. simpl in Hf.
  assert (Hrec : recorded s (flat_map cmd_preconditions (pl_commands p')) (va_state_versions acc)).
  { rewrite Ecs, E1. apply (clean_run_recorded _ _ _ _ _ [] Hrun); [|apply recorded_empty].
    by rewrite <- E1, <- Ecs. }
  split.
  - intros [_ _ _ _ Hver] c pre Hin Hpre. simpl in Hver.
    assert (Hk : va_state_versions acc !! pre_key pre = Some (pre_version s pre)).
    { apply Hrec. exists pre. split; [|done]. apply elem_of_flat_map. eauto. }
    specialize (Hver _ _ Hk). unfold pre_key in Hver. rewrite partition_dep_key in Hver; [done|].
    unfold preconditions_colon_free in Hcf. rewrite Forall_forall in Hcf.
    apply Hcf, elem_of_flat_map. eauto.
  - intros Hsame. split; simpl; try done.
    + by rewrite Hp.
    + apply (clean_run_nonempty _ _ _ _ _ Hrun). left. intros ->. rewrite E1 in Ecs. simpl in Ecs.
      by destruct (pv_commands _ (Hv Herr)) as [? _].
    + rewrite (current_fingerprints_registry s) by done. by rewrite Ecs, E1.
    + intros k version Hk. apply Hrec in Hk as (pre & Hpre & -> & ->).
      unfold preconditions_colon_free in Hcf. rewrite Forall_forall in Hcf.
      unfold pre_key. rewrite partition_dep_key by auto. simpl.
      apply elem_of_flat_map in Hpre as (c & Hcin & Hpre). exact (Hsame c pre Hcin Hpre).
Qed.


Lemma dependencies_hold_commands s p q deps o :
  pl_commands q = pl_commands p -> dependencies_hold s q deps o <-> dependencies_hold s p deps o.
Proof. intros E. split; intros [H1 H2 H3 H4 H5]; split; try done; congruence. Qed.

(** A plan with the content of a validated one, ready or approved. *)
Lemma validated_executable s s' now now' p p' acc q v until :
  validated s now p p' acc -> va_errors acc = [] -> same_configuration s s' ->
  preconditions_colon_free p' -> pl_validation p' = Some v -> pl_expires_at p' = Some until ->
  plan_valid q -> pl_status q ∈ [PS_READY; PS_APPROVED] -> pl_commands q = pl_commands p' ->
  pl_deployment_id q = pl_deployment_id p' -> pl_validation q = Some v ->
  pl_expires_at q = Some until ->
  (assert_executable s' now' q None = Ok tt <->
   now' < until /\ preconditions_unchanged s s' p' /\
   (vr_status v = VS_REQUIRES_CONFIRMATION ->
    exists a, pl_approval q = Some a /\ approval_holds now' q v a)).
Proof.
  intros Hval Herr Hconf Hcf Hv He Hq Hst Hcs Hdq Hvq Heq.
  pose proof (validated_dependencies_hold _ _ _ _ _ _ Hval Herr Hconf Hcf) as Hiff.
  rewrite <- (dependencies_hold_commands _ _ q) in Hiff by done.
  destruct Hval as [_ _ _ Hdep _ _ _ (v' & e & Hv' & _ & _ & Hu & He' & Hvs & Hdeps & _) _].
  assert (v' = v) as -> by congruence. assert (e = until) as -> by congruence.
  rewrite <- Hiff, assert_executable_iff. destruct Hconf as [_ _ Hd _]. split.
  - intros (v' & deps & [_ _ _ E0 [E1 E2] _ _ E4 E5]). assert (v' = v) as -> by congruence.
    rewrite Hdeps in E2. injection E2 as <-. auto.
  - intros (H1 & H2 & H3). exists v. eexists. split; try done.
    + rewrite Hd, Hdq. done.
    + intros x Hx. congruence.
    + intros x Hx. congruence.
    + rewrite Hvs. case_bool_decide; [|done]. by destruct (requires_confirmation _).
Qed.

(** C9: A validated plan means what it says until something it rests on
    changes: after any history of the home that leaves registry, policy and
    inventory revision alone, a READY plan (whose precondition keys hold no
    colon in their parts) is executable precisely as long as its evidence has
    not expired and every state version its preconditions pin is the recorded
    one.  No validated plan is dead on arrival, and none
    survives a change of a reading it was computed from. *)
Theorem ready_plan_executes s s' now now' p p' until :
  validate s now p = Ok p' -> pl_status p' = PS_READY -> pl_expires_at p' = Some until ->
  same_configuration s s' -> preconditions_colon_free p' ->
  (assert_executable s' now' p' None = Ok tt <->
   now' < until /\ preconditions_unchanged s s' p').
Proof.
  intros (acc & Hval)%validate_ok Hst He Hconf Hcf.
  pose proof Hval as [_ _ _ _ _ _ Est (v & e & Hv & _ & _ & _ & _ & Hvs & _) Hvalid].
  case_bool_decide as Herr; [|congruence].
  destruct (requires_confirmation _) eqn:Erc; [congruence|].
  rewrite (validated_executable _ _ _ _ _ _ _ p' v until Hval Herr Hconf Hcf) by
    (try done; first [by apply Hvalid | rewrite Hst; set_solver]).
  rewrite Hvs. split; [intros (? & ? & _); done|by intros []].
Qed.

(** ** Consent *)

Lemma grant_binding_ok now g p b r :
  validate_grant_binding now g p b r = Ok tt <->
  opt_le (gr_expires_at g) now = false /\ gr_plan_id g = pl_id p /\
  (exists v, pl_validation p = Some v /\ gr_validation_digest g = vr_digest v /\
     au_tenant_id (gr_authority g) = au_tenant_id (pl_authority p) /\
     au_household_id (gr_authority g) = au_household_id (pl_authority p) /\
     gr_validation_valid_until g = vr_valid_until v) /\
  gr_window_digest g = plan_window_digest p /\ gr_schedule_revision g = pl_schedule_revision p /\
  gr_bundle_digest g = b /\ gr_recurrence_digest g = r.
Proof.
  unfold validate_grant_binding. destruct (pl_validation p) as [v|].
  2: { rewrite !bind_unit_ok. split; [intros H; by destruct_ands|].
       intros H; destruct_ands; done. }
  rewrite !bind_unit_ok, !raise_if_ok, !orb_false_iff, !negb_false_iff, !bool_decide_eq_true,
    !String.eqb_eq, Z.eqb_eq.
  split.
  - intros H. destruct_ands. split_and!; try done. eauto 10.
  - intros H. destruct_ands. simplify_eq. split_and!; done.
Qed.

Lemma approve_ok now p g p' :
  approve now p g = Ok p' <->
  exists v, pl_validation p = Some v /\ pl_status p = PS_REQUIRES_CONFIRMATION /\
    gr_plan_id g = pl_id p /\ gr_validation_digest g = vr_digest v /\
    gr_validation_valid_until g = vr_valid_until v /\ opt_le (gr_expires_at g) now = false /\
    gr_window_digest g = plan_window_digest p /\ gr_schedule_revision g = pl_schedule_revision p /\
    new_approval (grant_projection g) = Ok (grant_projection g) /\
    p' = p <| pl_status := PS_APPROVED |> <| pl_approval := Some (grant_projection g) |>.
Proof.
  unfold approve. destruct (pl_validation p) as [v|]; [|split; [done|intros (? & ? & _); done]].
  assert (Hproj : gr_validation_digest g = vr_digest v ->
    gr_window_digest g = plan_window_digest p -> gr_schedule_revision g = pl_schedule_revision p ->
    mkApproval (gr_authority g) "approved" (gr_approved_by g)
      (default (gr_issued_at g) (gr_approved_at g)) (Some (gr_approval_id g)) (vr_digest v)
      (approval_scope (gr_bundle_digest g) (gr_recurrence_digest g))
      (Some (gr_authentication_context g)) (gr_session_id g) (gr_bundle_digest g)
      (gr_recurrence_digest g) (gr_validation_valid_until g) (gr_expires_at g)
      (plan_window_digest p) (pl_schedule_revision p) = grant_projection g).
  { intros E1 E2 E3. unfold grant_projection. by rewrite E1, E2, E3. }
  split.
  - intros H. ok_inv. destruct_ands. subst.
    repeat match goal with
    | E : String.eqb _ _ = true |- _ => apply String.eqb_eq in E
    | E : Z.eqb _ _ = true |- _ => apply Z.eqb_eq in E
    end.
    match goal with Hn : new_approval _ = Ok ?a |- _ => rewrite Hproj in Hn by done;
      assert (a = grant_projection g) as -> by (unfold new_approval in Hn; by ok_inv) end.
    exists v. split_and!; done.
  - intros (v' & [= <-] & H1 & H2 & H3 & H4 & H5 & H6 & H7 & H8 & ->).
    rewrite (Hproj H3 H6 H7). rewrite H1, H2, H3, H4, H5, H6, H7, !String.eqb_refl, Z.eqb_refl. simpl.
    rewrite !bool_decide_eq_true_2 by done. simpl. by rewrite H8.
Qed.

(** Consent carries through to execution: the grant that consuming an
    approval returns turns the waiting plan into an approved one carrying
    exactly that grant's evidence, provided the grant is still alive and its
    own times are consistent; and the approved plan then passes both
    checks made before dispatch, the ledger's and the plan service's, at any
    moment before the grant expires. *)
Theorem consumed_grant_approves now now' id p b r s g s' :
  consume now id p b r s = (Ok g, s') -> gr_approval_id g = id ->
  pl_status p = PS_REQUIRES_CONFIRMATION ->
  (forall p', approve now' p g = Ok p' <->
     p' = p <| pl_status := PS_APPROVED |> <| pl_approval := Some (grant_projection g) |> /\
     opt_le (gr_expires_at g) now' = false /\
     new_approval (grant_projection g) = Ok (grant_projection g)) /\
  (forall p' v now'', approve now' p g = Ok p' -> pl_validation p = Some v ->
     opt_le (gr_expires_at g) now'' = false ->
     verify_consumed now'' s' p' b r = Ok g /\ assert_approval now'' p' v = Ok tt).
Proof.
  unfold consume. intros H Hid Hst. rewrite stm_bind_get in H.
  apply stm_bind_ok in H as (g' & s0 & Hl & H). apply lift_ok in Hl as [Hv ->].
  injection H as -> <-.
  apply validate_approval_id_ok in Hv as (Hload & _ & _ & Hbind).
  pose proof (proj1 (grant_binding_ok _ _ _ _ _) Hbind)
    as (_ & Hp & (v & Ev & Ed & Et & Eh & Eu) & Ew & Es & Eb & Er).
  assert (Happ : forall p', approve now' p g = Ok p' <->
     p' = p <| pl_status := PS_APPROVED |> <| pl_approval := Some (grant_projection g) |> /\
     opt_le (gr_expires_at g) now' = false /\
     new_approval (grant_projection g) = Ok (grant_projection g)).
  { intros p'. rewrite approve_ok. split; [intros (? & ?); destruct_ands; done|].
    intros (-> & ? & ?). exists v. done. }
  split; [exact Happ|]. intros p' v' now'' (-> & _ & _)%Happ Hv' Hlive.
  assert (v' = v) as -> by congruence. split.
  - unfold verify_consumed. simpl. rewrite Hid. unfold load_grant in *. simpl. rewrite Hload.
    unfold is_consumed. simpl. rewrite bool_decide_eq_true_2 by set_solver. simpl.
    rewrite (proj2 (grant_binding_ok now'' g _ b r)); simpl.
    + unfold validate_projection. by rewrite bool_decide_eq_true_2.
    + split_and!; try done. by exists v.
  - apply assert_approval_ok. simpl. eexists. split; [done|]. split; simpl; try done.
    by apply opt_le_false.
Qed.

(** An approved plan executes exactly while its consent and its evidence
    are alive and nothing it rests on changed: approving a validated plan with
    a matching grant makes it executable until the earlier of the plan's and
    the grant's expiry, as long as every pinned state version is the recorded
    one. *)
Theorem approved_plan_executes s s' now now1 now2 p p' p'' g until :
  validate s now p = Ok p' -> approve now1 p' g = Ok p'' ->
  pl_expires_at p' = Some until ->
  same_configuration s s' -> preconditions_colon_free p' ->
  (assert_executable s' now2 p'' None = Ok tt <->
   now2 < until /\ opt_le (gr_expires_at g) now2 = false /\ preconditions_unchanged s s' p').
Proof.
  intros (acc & Hval)%validate_ok Happ He Hconf Hcf.
  apply approve_ok in Happ as (v0 & Ev & Hst & Hp & Ed & Eu & _ & Ew & Es & Hnew & ->).
  pose proof Hval as [_ _ _ _ _ _ Est (v & e & Hv & _ & _ & _ & _ & Hvs & _) Hvalid].
  assert (v0 = v) as -> by congruence. case_bool_decide as Herr; [|congruence].
  destruct (requires_confirmation _) eqn:Erc; [|congruence].
  rewrite (validated_executable _ _ _ _ _ _ _ _ v until Hval Herr Hconf Hcf Hv He); try done.
  2: { destruct (Hvalid Herr) as [H1 H2 H3 H4 _ H6 H7]. split; simpl; try done.
       intros a [= <-]. unfold new_approval in Hnew. by ok_inv. }
  2: { simpl. set_solver. }
  rewrite Hvs. simpl. split.
  - intros (H1 & H2 & H3). destruct (H3 eq_refl) as (a & [= <-] & [_ _ _ Ha _ _ _]).
    rewrite opt_le_false. done.
  - intros (H1 & H2 & H3). split; [done|]. split; [done|]. intros _. eexists. split; [done|].
    split; simpl; try done. by apply opt_le_false.
Qed.

End PlanService.

(** ** Witnesses: the desk lamp is switched on, and off with consent *)

Definition example_rules : list Policy :=
  [mkPolicy "on" [("command", JStr "turn_on")] PA_ALLOW [] 5 true false;
   mkPolicy "off" [("command", JStr "turn_off")] PA_CONFIRM [] 5 true false].
Definition example_service : PlanService :=
  mkPlanService example_registry example_store
    (mkPolicyEngine (load_policies example_rules) []) ∅ (Some "home-1").
Definition example_lamp_command (name : string) : Command :=
  mkCommand "c1" "office.desk-lamp" name None None
    [mkPrecondition "office.desk-lamp" "power" None false] SAFE "k1" None [].
Definition example_draft (name : string) : Plan :=
  mkPlan default_authority "plan-1" "v2" 0 (Some (hours 1)) None None None 0
    [example_lamp_command name] PS_DRAFT (Some "home-1") None None None [] None None None.
(** The model is evaluated with a rendering the kernel can compute. *)
Definition example_validated (name : string) : Plan :=
  match validate (CJ := example_canonical) example_service (minutes 1) (example_draft name) with
  | Ok p => p
  | Err _ => example_draft name
  end.
Definition example_ready : Plan := Eval vm_compute in example_validated "turn_on".
Definition example_waiting : Plan := Eval vm_compute in example_validated "turn_off".

Example example_ready_status : pl_status example_ready = PS_READY.
Proof. reflexivity. Qed.
Example example_waiting_status : pl_status example_waiting = PS_REQUIRES_CONFIRMATION.
Proof. reflexivity. Qed.
(** A brightness in per cent, in steps of five. *)
Definition example_brightness : Capability :=
  mkCapability "brightness" INTEGER (Some "%") true true (Some (NInt 0)) (Some (NInt 100)) []
    ["set_brightness"] [("step", JNum (NInt 5))] default_guarantees.
Example example_aligned :
  validate_value ((example_lamp_command "set_brightness") <| cmd_value := Some (SNum (NInt 35)) |>)
    example_brightness = Ok [].
Proof. reflexivity. Qed.
Example example_misaligned :
  (List.length <$> validate_value
     ((example_lamp_command "set_brightness") <| cmd_value := Some (SNum (NInt 102)) |>)
     example_brightness) = Ok 2%nat.
Proof. reflexivity. Qed.

(** A value no float can hold, or no number at all where the capability has a
    step, raises instead of being reported. *)
Example huge_value_raises :
  validate_value ((example_lamp_command "set_brightness") <| cmd_value := Some (SNum (NInt (2 ^ 1100))) |>)
    example_brightness = Err OverflowError.
Proof. reflexivity. Qed.
Example infinite_value_raises :
  validate_value ((example_lamp_command "set_brightness")
                    <| cmd_value := Some (SNum (NFloat (SpecFloat.S754_infinity false))) |>)
    example_brightness = Err OverflowError.
Proof. reflexivity. Qed.

Lemma executable_plan_cleared_witness :
  NoDup (map cmd_idempotency_key (pl_commands example_ready)) /\
  Forall (fun decision => pd_action decision = PA_ALLOW) (pl_policy_decisions example_ready).
Proof.
  destruct (executable_plan_cleared (CJ := example_canonical) example_service (minutes 1)
    (example_draft "turn_on") example_ready ltac:(vm_compute; reflexivity)
    ltac:(apply elem_of_cons; left; reflexivity)) as (_ & _ & H & _ & Hr).
  split; [exact H|]. apply Hr. reflexivity.
Defined.

Lemma validity_bounded_witness :
  exists until, pl_expires_at example_ready = Some until /\ until <= hours 1.
Proof.
  destruct (validity_bounded (CJ := example_canonical) example_service (minutes 1)
    (example_draft "turn_on") example_ready ltac:(vm_compute; reflexivity))
    as (v & until & _ & _ & He & _ & Hd & _).
  exists until. split; [exact He|]. apply Hd. reflexivity.
Defined.

Lemma example_configuration : same_configuration example_service example_service.
Proof. by split. Qed.

Lemma example_colon_free :
  preconditions_colon_free example_ready /\ preconditions_colon_free example_waiting.
Proof.
  split; (constructor; [|constructor]); unfold colon_free;
    apply (bool_decide_unpack _); vm_compute; exact I.
Qed.

Lemma ready_plan_executes_witness :
  assert_executable (CJ := example_canonical) example_service (minutes 2) example_ready None = Ok tt.
Proof.
  apply (ready_plan_executes (CJ := example_canonical) example_service example_service (minutes 1)
    (minutes 2) (example_draft "turn_on") example_ready (hours 1) ltac:(vm_compute; reflexivity)
    eq_refl eq_refl example_configuration (proj1 example_colon_free)).
  split; [reflexivity|]. intros ? ? _ _. reflexivity.
Defined.

Definition example_consent : ApprovalAssertion :=
  mkApprovalAssertion example_operator "nonce-2" (minutes 1) (minutes 4) (Some "plan-1") None None None.
Definition example_consent_issued : result exn ApprovalGrant * ApprovalStore :=
  Eval vm_compute in
    issue_assertion (CJ := example_canonical) "a2" (minutes 2) example_waiting example_consent None None
      empty_ledger.
Definition example_consent_grant : ApprovalGrant :=
  Eval vm_compute in match fst example_consent_issued with Ok g => g | Err _ => example_grant end.
Definition example_consent_used : result exn ApprovalGrant * ApprovalStore :=
  Eval vm_compute in
    consume (CJ := example_canonical) (minutes 2) "a2" example_waiting None None
      (snd example_consent_issued).
Definition example_agreed : Plan :=
  Eval vm_compute in
    match approve (CJ := example_canonical) (minutes 2) example_waiting example_consent_grant with
    | Ok p => p | Err _ => example_waiting end.

Lemma consumed_grant_approves_witness :
  verify_consumed (CJ := example_canonical) (minutes 3) (snd example_consent_used) example_agreed
    None None = Ok example_consent_grant.
Proof.
  destruct (consumed_grant_approves (CJ := example_canonical) (minutes 2) (minutes 2) "a2"
    example_waiting None None (snd example_consent_issued) example_consent_grant
    (snd example_consent_used) ltac:(vm_compute; reflexivity) eq_refl eq_refl) as [_ H].
  destruct (pl_validation example_waiting) as [v|] eqn:Ev; [|discriminate Ev].
  refine (proj1 (H example_agreed v (minutes 3) ltac:(vm_compute; reflexivity) eq_refl eq_refl)).
Defined.

Lemma approved_plan_executes_witness :
  assert_executable (CJ := example_canonical) example_service (minutes 3) example_agreed None = Ok tt.
Proof.
  apply (approved_plan_executes (CJ := example_canonical) example_service example_service (minutes 1)
    (minutes 2) (minutes 3) (example_draft "turn_off") example_waiting example_agreed
    example_consent_grant (hours 1) ltac:(vm_compute; reflexivity) ltac:(vm_compute; reflexivity)
    eq_refl example_configuration (proj2 example_colon_free)).
  split; [reflexivity|]. split; [reflexivity|]. intros ? ? _ _. reflexivity.
Defined.

(** A grant can be issued and used up that no approval can ever carry: the
    human's clock is ahead by less than the tolerated half minute and the
    validation evidence ends in between. *)
Definition example_short : Plan :=
  example_waiting <| pl_validation :=
    Some (mkValidationResult VS_REQUIRES_CONFIRMATION 0 "rev-1:p1" [] "sha256:v1"
            (Some (seconds 70)) None) |>.
Definition example_ahead : ApprovalAssertion :=
  mkApprovalAssertion example_operator "nonce-3" (seconds 80) (minutes 4) (Some "plan-1") None None None.
Definition example_ahead_issued : result exn ApprovalGrant * ApprovalStore :=
  Eval vm_compute in
    issue_assertion (CJ := example_canonical) "a3" (minutes 1) example_short example_ahead None None
      empty_ledger.

Definition example_ahead_used : result exn ApprovalGrant * ApprovalStore :=
  Eval vm_compute in
    consume (CJ := example_canonical) (minutes 1) "a3" example_short None None
      (snd example_ahead_issued).

(** A grant issued on a human assertion may be consumed and yet never
    become an approval: [issue_assertion] accepts an assertion dated up to
    half a minute ahead and clips the grant's lifetime to the evidence, so a
    grant may expire before it was given, which [Approval] refuses to record. *)
Example stranded_grant :
  fst example_ahead_issued = fst example_ahead_used /\
  is_consumed (snd example_ahead_used) "a3" = true /\
  forall g now p', fst example_ahead_used = Ok g ->
    approve (CJ := example_canonical) now example_short g <> Ok p'.
Proof.
  split; [reflexivity|]. split; [reflexivity|]. intros g now p' [= <-] H.
  apply approve_ok in H as (v & _ & _ & _ & _ & _ & _ & _ & _ & Hn & _). discriminate Hn.
Qed.
