(* ===== verification/Coordination.v ===== *)
(** * Household leases and fencing (domain/coordination.py, application/coordination.py)

    The coordinator gives one owner at a time the right to write to a
    household; the guard checks that right immediately before a physical
    write.  Every call of the coordinator runs under its lock, so each is one
    step of the ledger of leases; [lease_id] is the identifier [uuid4] drew. *)

From S2P Require Import Prelude.
From S2P Require Import Values.
From S2P Require Import Models.

(** ** [timedelta(seconds=x)]: whole microseconds, ties to even *)

Definition f64_trunc (x : f64) : Z :=
  match x with
  | SpecFloat.S754_finite s m e =>
      let v := if s then Zneg m else Zpos m in
      if 0 <=? e then v * 2 ^ e else Z.quot v (2 ^ (- e))
  | _ => 0
  end.

Definition timedelta_max : Z := seconds (86400 * 1000000000).

Definition timedelta_seconds (x : num) : result exn timedelta :=
  let checked d := raise_if ((timedelta_max <=? d) || (d <? - seconds (86400 * 999999999)))
                     OverflowError ≫= fun _ => Ok d in
  match x with
  | NInt n => checked (seconds n)
  | NFloat SpecFloat.S754_nan => Err (ValueError "cannot convert float NaN to integer")
  | NFloat (SpecFloat.S754_infinity _) => Err OverflowError
  | NFloat f =>
      let whole := f64_trunc f in
      let fraction := f64_sub f (f64_of_Z whole) in
      checked (seconds whole + f64_round (f64_mul fraction (f64_of_Z 1000000)))
  end.

(** ** Leases *)

Record LeaseScope := mkLeaseScope {
  ls_tenant_id : string;
  ls_household_id : string;
  ls_deployment_id : string
}.
#[global] Instance LeaseScope_eq_dec : EqDecision LeaseScope.
Proof. solve_decision. Defined.

Record FencingToken := mkFencingToken {
  ft_scope : LeaseScope;
  ft_owner_id : string;
  ft_epoch : Z;
  ft_lease_id : string;
  ft_issued_at : datetime;
  ft_expires_at : datetime
}.
#[global] Instance FencingToken_eta : Eta FencingToken := fun r =>
  mkFencingToken (ft_scope r) (ft_owner_id r) (ft_epoch r) (ft_lease_id r) (ft_issued_at r)
    (ft_expires_at r).
#[global] Instance FencingToken_eq_dec : EqDecision FencingToken.
Proof. solve_decision. Defined.

Definition id_bounded (s : string) : bool := negb (is_empty s) && Nat.leb (String.length s) 200.

(** [LeaseScope(...)] and [FencingToken(...)] check their fields. *)
Definition validate_scope (s : LeaseScope) : result exn unit :=
  raise_if (negb (id_bounded (ls_tenant_id s) && id_bounded (ls_household_id s) &&
                  id_bounded (ls_deployment_id s)))
    (ValueError "lease scope field out of bounds").

Definition validate_token (t : FencingToken) : result exn unit :=
  raise_if (negb (id_bounded (ft_owner_id t) && (0 <? ft_epoch t) && id_bounded (ft_lease_id t)))
    (ValueError "fencing token field out of bounds") ≫= fun _ =>
  raise_if (ft_expires_at t <=? ft_issued_at t)
    (ValueError "lease expiry must be after issue time").

(** ** [DeterministicLeaseCoordinator] *)

Definition scope_id : Type := string * string * string.
Definition scope_key (s : LeaseScope) : scope_id :=
  (ls_tenant_id s, ls_household_id s, ls_deployment_id s).

Record LeaseCoordinator := mkLeaseCoordinator {
  lc_leases : gmap scope_id FencingToken;
  lc_epochs : gmap scope_id Z
}.
#[global] Instance LeaseCoordinator_eta : Eta LeaseCoordinator := fun r =>
  mkLeaseCoordinator (lc_leases r) (lc_epochs r).

Definition current_lease (s : LeaseCoordinator) (scope : LeaseScope) : option FencingToken :=
  lc_leases s !! scope_key scope.
Definition current_epoch (s : LeaseCoordinator) (scope : LeaseScope) : Z :=
  default 0 (lc_epochs s !! scope_key scope).

Definition acquire (lease_id : string) (now : datetime) (scope : LeaseScope) (owner_id : string)
    (ttl_seconds : num) : stm LeaseCoordinator exn FencingToken :=
  lift (raise_if (is_blank owner_id) (ValueError "lease owner_id must be non-empty")) ≫= fun _ =>
  lift (raise_if (num_le ttl_seconds (NInt 0)) (ValueError "lease TTL must be positive"))
    ≫= fun _ =>
  s ← get_st;
  match current_lease s scope with
  | Some current =>
      lift (raise_if (now <? ft_expires_at current) (LeaseUnavailable (ft_owner_id current)))
  | None => mret tt
  end ≫= fun _ =>
  let epoch := current_epoch s scope + 1 in
  ttl ← lift (timedelta_seconds ttl_seconds);
  let token := mkFencingToken scope owner_id epoch lease_id now (now + ttl) in
  lift (validate_token token) ≫= fun _ =>
  put_st (s <| lc_epochs := <[scope_key scope := epoch]> (lc_epochs s) |>
            <| lc_leases := <[scope_key scope := token]> (lc_leases s) |>) ≫= fun _ =>
  mret token.

(** [_assert_current] *)
Definition assert_current (t : FencingToken) (current : option FencingToken) : result exn unit :=
  match current with
  | None => Err (FencingViolation "lease is unknown")
  | Some c =>
      raise_if (negb (ft_epoch c =? ft_epoch t)) (FencingViolation "stale fencing token")
        ≫= fun _ =>
      raise_if (negb (String.eqb (ft_owner_id c) (ft_owner_id t)))
        (FencingViolation "lease owner is not current") ≫= fun _ =>
      raise_if (negb (String.eqb (ft_lease_id c) (ft_lease_id t)))
        (FencingViolation "stale fencing token")
  end.

Definition renew (now : datetime) (t : FencingToken) : stm LeaseCoordinator exn FencingToken :=
  s ← get_st;
  lift (assert_current t (current_lease s (ft_scope t))) ≫= fun _ =>
  lift (raise_if (ft_expires_at t <=? now) (FencingViolation "lease is expired")) ≫= fun _ =>
  let renewed := t <| ft_expires_at := now + (ft_expires_at t - ft_issued_at t) |> in
  put_st (s <| lc_leases := <[scope_key (ft_scope t) := renewed]> (lc_leases s) |>) ≫= fun _ =>
  mret renewed.

Definition release (t : FencingToken) : stm LeaseCoordinator exn unit :=
  s ← get_st;
  lift (assert_current t (current_lease s (ft_scope t))) ≫= fun _ =>
  put_st (s <| lc_leases := delete (scope_key (ft_scope t)) (lc_leases s) |>).

(** [validate]; it changes nothing. *)
Definition validate_lease (now : datetime) (t : FencingToken) (s : LeaseCoordinator)
    : result exn unit :=
  assert_current t (current_lease s (ft_scope t)) ≫= fun _ =>
  raise_if (ft_expires_at t <=? now) (FencingViolation "lease is expired").

(** ** [FencingGuard] *)

Record FencingGuard := mkFencingGuard { fg_token : FencingToken; fg_lost : bool }.
#[global] Instance FencingGuard_eta : Eta FencingGuard := fun r =>
  mkFencingGuard (fg_token r) (fg_lost r).

Definition assert_writable (now : datetime) (c : LeaseCoordinator) (g : FencingGuard)
    (scope : LeaseScope) : result exn FencingToken :=
  raise_if (fg_lost g) (FencingViolation "fencing lease has been lost") ≫= fun _ =>
  raise_if (negb (bool_decide (scope = ft_scope (fg_token g))))
    (FencingViolation "fencing scope does not match physical target scope") ≫= fun _ =>
  validate_lease now (fg_token g) c ≫= fun _ => Ok (fg_token g).

Definition assert_writable_for_authority (now : datetime) (c : LeaseCoordinator) (g : FencingGuard)
    (a : AuthorityContext) : result exn FencingToken :=
  let scope := mkLeaseScope (au_tenant_id a) (au_household_id a)
                 (ls_deployment_id (ft_scope (fg_token g))) in
  validate_scope scope ≫= fun _ => assert_writable now c g scope.

Definition replace_token (t : FencingToken) : stm FencingGuard exn unit :=
  g ← get_st;
  lift (raise_if (negb (bool_decide (ft_scope t = ft_scope (fg_token g))) ||
                  (ft_epoch t <? ft_epoch (fg_token g)))
    (FencingViolation "fencing renewal moved backwards or changed scope")) ≫= fun _ =>
  put_st (g <| fg_token := t |>).

Definition mark_lost (g : FencingGuard) : FencingGuard := g <| fg_lost := true |>.

(** ** Histories *)

Inductive lease_op :=
  | O_acquire (lease_id : string) (now : datetime) (scope : LeaseScope) (owner : string) (ttl : num)
  | O_renew (now : datetime) (t : FencingToken)
  | O_release (t : FencingToken).

Definition lease_step (op : lease_op) (s : LeaseCoordinator) : LeaseCoordinator :=
  match op with
  | O_acquire id now scope owner ttl => snd (acquire id now scope owner ttl s)
  | O_renew now t => snd (renew now t s)
  | O_release t => snd (release t s)
  end.

(** Any calls in any order, by any callers, with any tokens. *)
Definition lease_run (ops : list lease_op) (s : LeaseCoordinator) : LeaseCoordinator :=
  fold_left (fun s op => lease_step op s) ops s.

(** ** Properties *)

#[global] Instance scope_key_inj : Inj (=) (=) scope_key.
Proof. intros [] [] [= -> -> ->]. done. Qed.

(** Every lease stands under its own scope, at the scope's latest epoch. *)
Definition lease_ok (s : LeaseCoordinator) : Prop :=
  forall k t, lc_leases s !! k = Some t ->
    scope_key (ft_scope t) = k /\ lc_epochs s !! k = Some (ft_epoch t).

(** What one call does when it succeeds; a failing call changes nothing. *)
Lemma acquire_cases id now scope owner ttl s :
  (exists t, acquire id now scope owner ttl s =
     (Ok t, s <| lc_epochs := <[scope_key scope := ft_epoch t]> (lc_epochs s) |>
              <| lc_leases := <[scope_key scope := t]> (lc_leases s) |>) /\
   ft_scope t = scope /\ ft_owner_id t = owner /\ ft_epoch t = current_epoch s scope + 1 /\
   ft_lease_id t = id /\ ft_issued_at t = now /\ now < ft_expires_at t /\ 0 < ft_epoch t /\
   (forall c, current_lease s scope = Some c -> ft_expires_at c <= now)) \/
  (exists e, acquire id now scope owner ttl s = (Err e, s)).
Proof.
  unfold acquire. rewrite stm_bind_lift. destruct (is_blank owner); simpl; [right; by eexists|].
  rewrite stm_bind_lift. destruct (num_le ttl (NInt 0)); simpl; [right; by eexists|].
  rewrite stm_bind_get.
  match goal with |- context [(?m ≫= ?f) s] => set (check := m); set (rest := f) end.
  assert ((exists o, check s = (Err (LeaseUnavailable o), s)) \/
    (check s = (Ok tt, s) /\ forall c, current_lease s scope = Some c -> ft_expires_at c <= now))
    as [[o Ho]|[Ho Hc]].
  { subst check. destruct (current_lease s scope) as [c|]; [|right; done]. unfold lift, raise_if.
    destruct (Z.ltb_spec now (ft_expires_at c)); [left; by eexists|right].
    split; [done|]. by intros ? [= <-]. }
  { right. exists (LeaseUnavailable o). unfold mbind, stm_bind. by rewrite Ho. }
  assert ((check ≫= rest) s = rest tt s) as -> by (unfold mbind, stm_bind; by rewrite Ho).
  subst rest. simpl. rewrite stm_bind_lift.
  destruct (timedelta_seconds ttl) as [d|e]; [|right; by eexists]. rewrite stm_bind_lift.
  destruct (validate_token _) as [[]|e] eqn:Ev; [left|right; by eexists].
  exists (mkFencingToken scope owner (current_epoch s scope + 1) id now (now + d)).
  split; [reflexivity|]. unfold validate_token in Ev. ok_inv. destruct_ands. simpl in *.
  repeat match goal with
  | H : (_ <=? _) = false |- _ => apply Z.leb_gt in H
  | H : (_ <? _) = true |- _ => apply Z.ltb_lt in H
  end. split_and!; done.
Qed.

Lemma assert_current_ok t current :
  assert_current t current = Ok tt <->
  exists c, current = Some c /\ ft_epoch c = ft_epoch t /\ ft_owner_id c = ft_owner_id t /\
    ft_lease_id c = ft_lease_id t.
Proof.
  unfold assert_current. destruct current as [c|]; [|split; [done|by intros (? & ? & _)]].
  rewrite !bind_unit_ok, !raise_if_ok, !negb_false_iff, Z.eqb_eq, !String.eqb_eq.
  split; [eauto|by intros (? & [= <-] & ?)].
Qed.

Lemma assert_current_err t current e :
  assert_current t current = Err e -> exists m, e = FencingViolation m.
Proof.
  unfold assert_current, raise_if. destruct current as [c|]; [|intros [= <-]; by eexists].
  destruct (ft_epoch c =? ft_epoch t); simpl; [|intros [= <-]; by eexists].
  destruct (String.eqb (ft_owner_id c) _); simpl; [|intros [= <-]; by eexists].
  destruct (String.eqb (ft_lease_id c) _); simpl; [done|intros [= <-]; by eexists].
Qed.

Lemma renew_cases now t s :
  (exists c, current_lease s (ft_scope t) = Some c /\ ft_epoch c = ft_epoch t /\
     ft_owner_id c = ft_owner_id t /\ ft_lease_id c = ft_lease_id t /\ now < ft_expires_at t /\
     let t' := t <| ft_expires_at := now + (ft_expires_at t - ft_issued_at t) |> in
     renew now t s = (Ok t', s <| lc_leases := <[scope_key (ft_scope t) := t']> (lc_leases s) |>)) \/
  (exists m, renew now t s = (Err (FencingViolation m), s)).
Proof.
  unfold renew. rewrite stm_bind_get, stm_bind_lift.
  destruct (assert_current _ _) as [[]|e] eqn:Ec.
  - rewrite stm_bind_lift. unfold raise_if. destruct (Z.leb_spec (ft_expires_at t) now); [right; by eexists|left].
    apply assert_current_ok in Ec as (c & ? & ? & ? & ?). by exists c.
  - apply assert_current_err in Ec as [m ->]. right. by eexists.
Qed.

Lemma release_cases t s :
  (exists c, current_lease s (ft_scope t) = Some c /\ ft_epoch c = ft_epoch t /\
     ft_owner_id c = ft_owner_id t /\ ft_lease_id c = ft_lease_id t /\
     release t s = (Ok tt, s <| lc_leases := delete (scope_key (ft_scope t)) (lc_leases s) |>)) \/
  (exists m, release t s = (Err (FencingViolation m), s)).
Proof.
  unfold release. rewrite stm_bind_get, stm_bind_lift.
  destruct (assert_current _ _) as [[]|e] eqn:Ec.
  - left. apply assert_current_ok in Ec as (c & ? & ? & ? & ?). by exists c.
  - apply assert_current_err in Ec as [m ->]. right. by eexists.
Qed.

Lemma lease_step_ok op s : lease_ok s -> lease_ok (lease_step op s).
Proof.
  intros Hok. destruct op as [id now scope owner ttl|now t|t]; simpl.
  - destruct (acquire_cases id now scope owner ttl s) as [(t & -> & Hs & _)|[e ->]]; [|done].
    intros k t'. simpl. rewrite lookup_insert_Some. intros [[<- <-]|[Hk H]]; [by rewrite Hs, lookup_insert_eq|].
    rewrite lookup_insert_ne by done. by apply Hok.
  - destruct (renew_cases now t s) as [(c & Hc & He & _ & _ & _ & ->)|[m ->]]; [|done].
    intros k t'. simpl. rewrite lookup_insert_Some. intros [[<- <-]|[Hk H]]; [|by apply Hok].
    split; [done|]. simpl. rewrite <- He. by apply Hok in Hc as [_ ?].
  - destruct (release_cases t s) as [(c & _ & _ & _ & _ & ->)|[m ->]]; [|done].
    intros k t'. simpl. rewrite lookup_delete_Some. intros [_ H]. by apply Hok.
Qed.

Lemma lease_run_ok ops s : lease_ok s -> lease_ok (lease_run ops s).
Proof.
  revert s. induction ops as [|op ops IH]; intros s H; [done|]. by apply IH, lease_step_ok.
Qed.

Lemma lease_step_epoch op s scope : current_epoch s scope <= current_epoch (lease_step op s) scope.
Proof.
  destruct op as [id now scope' owner ttl|now t|t]; simpl.
  - destruct (acquire_cases id now scope' owner ttl s) as [(t & -> & _ & _ & He & _)|[e ->]]; [|simpl; lia].
    unfold current_epoch in *. simpl. destruct (decide (scope_key scope' = scope_key scope)) as [E|].
    + rewrite E, lookup_insert_eq in *. simpl. lia.
    + rewrite lookup_insert_ne by done. lia.
  - destruct (renew_cases now t s) as [(c & _ & _ & _ & _ & _ & ->)|[m ->]]; simpl; done.
  - destruct (release_cases t s) as [(c & _ & _ & _ & _ & ->)|[m ->]]; simpl; done.
Qed.

Lemma lease_run_epoch ops s scope : current_epoch s scope <= current_epoch (lease_run ops s) scope.
Proof.
  revert s. induction ops as [|op ops IH]; intros s; simpl; [done|].
  etransitivity; [apply (lease_step_epoch op)|apply IH].
Qed.

Lemma acquire_epoch id now scope owner ttl s t s' :
  acquire id now scope owner ttl s = (Ok t, s') ->
  ft_epoch t = current_epoch s scope + 1 /\ current_epoch s' scope = ft_epoch t.
Proof.
  intros H. destruct (acquire_cases id now scope owner ttl s) as [(t' & E & _ & _ & He & _)|[e E]];
    rewrite H in E; [|done]. injection E as <- ->. split; [done|].
  unfold current_epoch. simpl. by rewrite lookup_insert_eq.
Qed.

Lemma acquire_step id now scope owner ttl s t s' :
  acquire id now scope owner ttl s = (Ok t, s') ->
  s' = lease_step (O_acquire id now scope owner ttl) s.
Proof. intros H. simpl. by rewrite H. Qed.

Lemma old_epoch_refused s t :
  lease_ok s -> ft_epoch t < current_epoch s (ft_scope t) ->
  exists m, assert_current t (current_lease s (ft_scope t)) = Err (FencingViolation m).
Proof.
  intros Hok He. destruct (assert_current _ _) as [[]|e] eqn:Ea.
  - apply assert_current_ok in Ea as (c & Hc & Hec & _). apply Hok in Hc as [_ Hc].
    unfold current_epoch in He. rewrite Hc in He. simpl in He. lia.
  - apply assert_current_err in Ea as [m ->]. by exists m.
Qed.

(** Taking a household over fences its previous owner off for good: the
    new lease has a strictly greater epoch, and after any further calls by
    anyone every token of the old epoch, renewed or forged as it may be, is
    refused by [validate], [renew] and [release] without a change, and no
    guard that carries it admits a write. *)
Theorem takeover_fences_predecessor id1 now1 scope owner1 ttl1 s t1 s1 ops
    id2 now2 owner2 ttl2 t2 s2 ops' t now :
  lease_ok s -> acquire id1 now1 scope owner1 ttl1 s = (Ok t1, s1) ->
  acquire id2 now2 scope owner2 ttl2 (lease_run ops s1) = (Ok t2, s2) ->
  ft_scope t = scope -> ft_epoch t <= ft_epoch t1 ->
  let s3 := lease_run ops' s2 in
  ft_epoch t1 < ft_epoch t2 /\
  (exists m, validate_lease now t s3 = Err (FencingViolation m)) /\
  (exists m, renew now t s3 = (Err (FencingViolation m), s3)) /\
  (exists m, release t s3 = (Err (FencingViolation m), s3)) /\
  (forall lost authority, exists e,
     assert_writable_for_authority now s3 (mkFencingGuard t lost) authority = Err e).
Proof.
  intros Hok H1 H2 Hs Ht s3.
  destruct (acquire_epoch _ _ _ _ _ _ _ _ H1) as [_ E1].
  destruct (acquire_epoch _ _ _ _ _ _ _ _ H2) as [E2 E3].
  pose proof (lease_run_epoch ops s1 scope). pose proof (lease_run_epoch ops' s2 scope) as H3.
  fold s3 in H3. split; [lia|].
  assert (Hok3 : lease_ok s3).
  { apply lease_run_ok. rewrite (acquire_step _ _ _ _ _ _ _ _ H2). apply lease_step_ok, lease_run_ok.
    rewrite (acquire_step _ _ _ _ _ _ _ _ H1). by apply lease_step_ok. }
  destruct (old_epoch_refused s3 t Hok3) as [m Hm]; [rewrite Hs; lia|].
  assert (Hv : validate_lease now t s3 = Err (FencingViolation m))
    by (unfold validate_lease; by rewrite Hm).
  split; [by exists m|]. split; [|split].
  - destruct (renew_cases now t s3) as [(c & Hc & ? & ? & ? & _)|?]; [|done].
    rewrite (proj2 (assert_current_ok _ _)) in Hm; [done|eauto].
  - destruct (release_cases t s3) as [(c & Hc & ? & ? & ? & _)|?]; [|done].
    rewrite (proj2 (assert_current_ok _ _)) in Hm; [done|eauto].
  - intros lost a. unfold assert_writable_for_authority, assert_writable. simpl.
    destruct (validate_scope _); [|by eexists]. simpl. destruct lost; [by eexists|]. simpl.
    destruct (negb _); [by eexists|]. simpl. rewrite Hv. by eexists.
Qed.

(** ** Exclusiveness *)

Definition same_lease (t t' : FencingToken) : Prop :=
  ft_scope t = ft_scope t' /\ ft_epoch t = ft_epoch t' /\ ft_owner_id t = ft_owner_id t' /\
  ft_lease_id t = ft_lease_id t'.

(** A call that does not speak for the lease [t], made before [t] ends. *)
Definition foreign_op (t : FencingToken) (op : lease_op) : Prop :=
  match op with
  | O_acquire _ now scope _ _ => scope = ft_scope t -> now < ft_expires_at t
  | O_renew _ t' | O_release t' => ~ same_lease t t'
  end.

Lemma foreign_step t op s :
  current_lease s (ft_scope t) = Some t -> foreign_op t op ->
  current_lease (lease_step op s) (ft_scope t) = Some t.
Proof.
  intros Hc Hf. unfold current_lease in *.
  destruct op as [id now scope owner ttl|now t'|t']; simpl in *.
  - destruct (acquire_cases id now scope owner ttl s)
      as [(t' & -> & _ & _ & _ & _ & _ & _ & _ & Hx)|[e ->]]; [|done].
    simpl. destruct (decide (scope = ft_scope t)) as [->|Hne].
    + specialize (Hf eq_refl). apply Hx in Hc. lia.
    + rewrite lookup_insert_ne; [done|]. intros E. by apply (inj scope_key) in E.
  - destruct (renew_cases now t' s) as [(c & Hc' & ? & ? & ? & _ & ->)|[m ->]]; [|done].
    simpl. rewrite lookup_insert_ne; [done|]. intros E. apply (inj scope_key) in E.
    apply Hf. unfold current_lease in Hc'. rewrite E in Hc'. by simplify_eq.
  - destruct (release_cases t' s) as [(c & Hc' & ? & ? & ? & ->)|[m ->]]; [|done].
    simpl. rewrite lookup_delete_ne; [done|]. intros E. apply (inj scope_key) in E.
    apply Hf. unfold current_lease in Hc'. rewrite E in Hc'. by simplify_eq.
Qed.

(** Until it ends, a lease belongs to its owner alone: whatever other hosts
    ask of the coordinator before its expiry, with whatever tokens of their
    own, the lease stays in force, its owner's token is accepted exactly until
    its expiry, every attempt to acquire the household is refused without a
    change, and any token accepted for the household is a token of this very
    lease. *)
Theorem lease_exclusive id now scope owner ttl s t s1 ops :
  acquire id now scope owner ttl s = (Ok t, s1) -> Forall (foreign_op t) ops ->
  let s2 := lease_run ops s1 in
  (forall now', validate_lease now' t s2 = Ok tt <-> now' < ft_expires_at t) /\
  (forall id' now' owner' ttl', now' < ft_expires_at t ->
     exists e, acquire id' now' scope owner' ttl' s2 = (Err e, s2)) /\
  (forall t' now', ft_scope t' = scope -> validate_lease now' t' s2 = Ok tt -> same_lease t t').
Proof.
  intros H Hf s2.
  assert (ft_scope t = scope /\ current_lease s1 (ft_scope t) = Some t) as [Hs H1].
  { destruct (acquire_cases id now scope owner ttl s) as [(t' & E & Hs & _)|[e E]];
      rewrite H in E; [|done]. injection E as <- ->. split; [done|].
    unfold current_lease. simpl. by rewrite Hs, lookup_insert_eq. }
  assert (H2 : current_lease s2 (ft_scope t) = Some t).
  { unfold s2. clear H s2. revert s1 H1.
    induction Hf as [|op ops Hop _ IH]; intros s1 H1; [done|]. by apply IH, foreign_step. }
  split; [|split].
  - intros now'. unfold validate_lease. rewrite bind_unit_ok, assert_current_ok, raise_if_ok, Z.leb_gt.
    split; [by intros []|]. intros ?. split; [|done]. by exists t.
  - intros id' now' owner' ttl' Hlt. rewrite Hs in H2.
    destruct (acquire_cases id' now' scope owner' ttl' s2)
      as [(t' & _ & _ & _ & _ & _ & _ & _ & _ & Hx)|?]; [|done].
    apply Hx in H2. lia.
  - intros t' now' Hs' [H3 _]%bind_unit_ok. apply assert_current_ok in H3 as (c & Hc & ? & ? & ?).
    rewrite Hs', <- Hs in Hc. assert (c = t) as -> by congruence.
    split; [congruence|done].
Qed.

(** *** Witnesses: two hosts and one household *)

Definition example_scope : LeaseScope := mkLeaseScope "default" "default" "d1".
Definition no_leases : LeaseCoordinator := mkLeaseCoordinator ∅ ∅.
Lemma no_leases_ok : lease_ok no_leases.
Proof. intros k t H. discriminate H. Qed.

Definition example_acquired : result exn FencingToken * LeaseCoordinator :=
  Eval vm_compute in acquire "l1" 0 example_scope "host-a" (NInt 10) no_leases.
Definition example_token : FencingToken :=
  mkFencingToken example_scope "host-a" 1 "l1" 0 (seconds 10).
Definition example_taken : result exn FencingToken * LeaseCoordinator :=
  Eval vm_compute in
    acquire "l2" (seconds 12) example_scope "host-b" (NInt 10)
      (lease_run [O_renew (seconds 1) example_token] (snd example_acquired)).
Definition example_token_b : FencingToken :=
  mkFencingToken example_scope "host-b" 2 "l2" (seconds 12) (seconds 22).

Lemma example_taken_ok : lease_ok (snd example_taken).
Proof.
  assert (snd example_taken = lease_run
    [O_acquire "l1" 0 example_scope "host-a" (NInt 10); O_renew (seconds 1) example_token;
     O_acquire "l2" (seconds 12) example_scope "host-b" (NInt 10)] no_leases) as ->
    by (vm_compute; reflexivity).
  apply lease_run_ok, no_leases_ok.
Qed.

(** A quarter of a second, and a float that is no number. *)
Example example_quarter : timedelta_seconds (NFloat (SpecFloat.S754_finite false 1 (-2))) = Ok 250000.
Proof. reflexivity. Qed.

Lemma takeover_fences_predecessor_witness :
  exists m, validate_lease (seconds 12) example_token (snd example_taken) = Err (FencingViolation m).
Proof.
  exact (proj1 (proj2 (takeover_fences_predecessor "l1" 0 example_scope "host-a" (NInt 10) no_leases
    example_token (snd example_acquired) [O_renew (seconds 1) example_token] "l2" (seconds 12) "host-b"
    (NInt 10) example_token_b (snd example_taken) [] example_token (seconds 12) no_leases_ok
    ltac:(vm_compute; reflexivity) ltac:(vm_compute; reflexivity) eq_refl ltac:(discriminate)))).
Defined.

Lemma lease_exclusive_witness :
  validate_lease (seconds 9) example_token (snd example_acquired) = Ok tt.
Proof.
  apply (proj1 (lease_exclusive "l1" 0 example_scope "host-a" (NInt 10) no_leases example_token
    (snd example_acquired) [] ltac:(vm_compute; reflexivity) (Forall_nil_2 _))).
  reflexivity.
Defined.

(** [renew] keeps [issued_at] and counts the new lifetime from it, so every
    renewal lengthens the lease: a lease of ten seconds renewed one second
    before its end twice lives nineteen more seconds (the etcd coordinator
    renews for the granted ttl). *)
Example renewal_grows :
  match renew (seconds 9) example_token (snd example_acquired) with
  | (Ok t, s) => match renew (seconds 18) t s with
                 | (Ok t', _) => ft_expires_at t' - seconds 18 = seconds 19
                 | _ => False
                 end
  | _ => False
  end.
Proof. reflexivity. Qed.
