(* ===== verification/DynamicSafety.v ===== *)
(** * State-dependent actuator guards (application/dynamic_safety.py, domain/energy.py)

    Immediately before a write the guard rechecks a battery's reserve and power
    envelope, and an electric vehicle's connection and departure, against the
    state store.  One reading [now] of the clock stands for the readings a check
    takes; [fromisoformat] is [datetime.fromisoformat], which tells the instant
    and whether it carries a time zone. *)

From S2P Require Import Prelude.
From S2P Require Import Values.
From S2P Require Import Models.
From S2P Require Import StateStore.

(** ** Bindings (domain/energy.py) *)

Record BatteryActuator := mkBatteryActuator {
  ba_device_id : string;
  ba_capability : string;
  ba_charge_command : string;
  ba_discharge_command : string;
  ba_stop_command : string;
  ba_power_feedback_capability : string;
  ba_power_feedback_convention : string;
  ba_power_feedback_tolerance_kw : f64;
  ba_power_feedback_settle_timeout_seconds : f64;
  ba_power_feedback_poll_interval_seconds : f64;
  ba_soc_reconciliation_capability : option string;
  ba_power_unit : string
}.

Definition f64_gt0 (x : f64) : bool := num_gt (NFloat x) (NInt 0).
Definition f64_ge0 (x : f64) : bool := num_le (NInt 0) (NFloat x).
Definition f64_le (x : f64) (n : Z) : bool := num_le (NFloat x) (NInt n).
Definition opt_nonempty (o : option string) : bool :=
  match o with Some s => negb (is_empty s) | None => true end.

(** The field constraints, then [validate_distinct_commands]. *)
Definition validate_battery_actuator (a : BatteryActuator) : result exn unit :=
  raise_if (existsb is_empty [ba_device_id a; ba_capability a; ba_charge_command a;
              ba_discharge_command a; ba_stop_command a; ba_power_feedback_capability a] ||
            negb (opt_nonempty (ba_soc_reconciliation_capability a)) ||
            negb (bool_decide (ba_power_feedback_convention a ∈
                    ["charge_positive"; "discharge_positive"])) ||
            negb (String.eqb (ba_power_unit a) "kW") ||
            negb (f64_gt0 (ba_power_feedback_tolerance_kw a)) ||
            negb (f64_ge0 (ba_power_feedback_settle_timeout_seconds a) &&
                  f64_le (ba_power_feedback_settle_timeout_seconds a) 120) ||
            negb (f64_gt0 (ba_power_feedback_poll_interval_seconds a) &&
                  f64_le (ba_power_feedback_poll_interval_seconds a) 10))
    (ValueError "battery actuator field out of bounds") ≫= fun _ =>
  raise_if (negb (unique [ba_charge_command a; ba_discharge_command a; ba_stop_command a]))
    (ValueError "battery actuator commands must be distinct") ≫= fun _ =>
  raise_if (f64_gt0 (ba_power_feedback_settle_timeout_seconds a) &&
            num_gt (NFloat (ba_power_feedback_poll_interval_seconds a))
              (NFloat (ba_power_feedback_settle_timeout_seconds a)))
    (ValueError "power feedback poll interval must not exceed settle timeout").

Record EVActuator := mkEVActuator {
  ev_device_id : string;
  ev_capability : string;
  ev_charge_command : string;
  ev_stop_command : string;
  ev_connected_capability : string;
  ev_departure_capability : option string;
  ev_max_charge_kw : f64;
  ev_power_unit : string
}.

Definition validate_ev_actuator (a : EVActuator) : result exn unit :=
  raise_if (existsb is_empty [ev_device_id a; ev_capability a; ev_charge_command a;
              ev_stop_command a; ev_connected_capability a] ||
            negb (opt_nonempty (ev_departure_capability a)) ||
            negb (f64_gt0 (ev_max_charge_kw a)) || negb (String.eqb (ev_power_unit a) "kW"))
    (ValueError "EV actuator field out of bounds") ≫= fun _ =>
  raise_if (String.eqb (ev_charge_command a) (ev_stop_command a))
    (ValueError "EV actuator charge and stop commands must be distinct") ≫= fun _ =>
  raise_if (String.eqb (ev_connected_capability a) (ev_capability a))
    (ValueError "EV connected state must not use the writable command capability") ≫= fun _ =>
  raise_if (bool_decide (ev_departure_capability a = Some (ev_capability a)))
    (ValueError "EV departure state must not use the writable command capability").

(** [bp_initial_soc_observation] is the observation's [value_kwh], all that the
    profile reads of it. *)
Record BatteryProfile := mkBatteryProfile {
  bp_capacity_kwh : f64;
  bp_initial_soc_kwh : f64;
  bp_min_soc_kwh : f64;
  bp_max_soc_kwh : f64;
  bp_max_charge_kw : f64;
  bp_max_discharge_kw : f64;
  bp_charge_efficiency : f64;
  bp_discharge_efficiency : f64;
  bp_degradation_cost_per_kwh : option f64;
  bp_actuator : option BatteryActuator;
  bp_initial_soc_observation : option f64
}.

(** The double [1e-6]. *)
Definition SOC_OBSERVATION_TOLERANCE_KWH : f64 := SpecFloat.S754_finite false 4722366482869645 (-72).

Definition f64_lt (x y : f64) : bool := num_lt (NFloat x) (NFloat y).

Definition validate_profile (p : BatteryProfile) : result exn unit :=
  raise_if (negb (f64_gt0 (bp_capacity_kwh p) && f64_ge0 (bp_initial_soc_kwh p) &&
                  f64_ge0 (bp_min_soc_kwh p) && f64_gt0 (bp_max_soc_kwh p) &&
                  f64_ge0 (bp_max_charge_kw p) && f64_ge0 (bp_max_discharge_kw p) &&
                  f64_gt0 (bp_charge_efficiency p) && f64_le (bp_charge_efficiency p) 1 &&
                  f64_gt0 (bp_discharge_efficiency p) && f64_le (bp_discharge_efficiency p) 1 &&
                  match bp_degradation_cost_per_kwh p with
                  | Some d => f64_ge0 d && f64_isfinite d | None => true end))
    (ValueError "battery profile field out of bounds") ≫= fun _ =>
  match bp_actuator p with Some a => validate_battery_actuator a | None => Ok tt end ≫= fun _ =>
  raise_if (f64_lt (bp_initial_soc_kwh p) (bp_min_soc_kwh p))
    (ValueError "initial_soc_kwh must be greater than or equal to min_soc_kwh") ≫= fun _ =>
  raise_if (f64_lt (bp_max_soc_kwh p) (bp_initial_soc_kwh p))
    (ValueError "initial_soc_kwh must be less than or equal to max_soc_kwh") ≫= fun _ =>
  raise_if (f64_lt (bp_capacity_kwh p) (bp_max_soc_kwh p))
    (ValueError "max_soc_kwh must be less than or equal to capacity_kwh") ≫= fun _ =>
  raise_if (f64_lt (bp_max_soc_kwh p) (bp_min_soc_kwh p))
    (ValueError "min_soc_kwh must be less than or equal to max_soc_kwh") ≫= fun _ =>
  raise_if (match bp_initial_soc_observation p with
            | Some v => negb (isclose_abs v (bp_initial_soc_kwh p) SOC_OBSERVATION_TOLERANCE_KWH)
            | None => false end)
    (ValueError "initial_soc_observation.value_kwh must agree with initial_soc_kwh").

(** ** The guard *)

Record DynamicSafetyGuard := mkDynamicSafetyGuard {
  dg_stale_after : timedelta;
  dg_profile : option BatteryProfile;
  dg_ev_actuators : list EVActuator
}.

Definition dg_actuator (g : DynamicSafetyGuard) : option BatteryActuator :=
  dg_profile g ≫= bp_actuator.

Definition new_guard (stale_after : timedelta) (profile : option BatteryProfile)
    (ev_actuators : list EVActuator) : result exn DynamicSafetyGuard :=
  raise_if (match profile with Some p => negb (opt_bool (bp_actuator p)) | None => false end)
    (ValueError "dynamic battery safety requires an actuator binding") ≫= fun _ =>
  raise_if (negb (opt_bool profile) && bool_decide (ev_actuators = []))
    (ValueError "dynamic safety requires a battery profile or EV actuator binding") ≫= fun _ =>
  Ok (mkDynamicSafetyGuard stale_after profile ev_actuators).

Definition blocked (a : BatteryActuator) (m : string) : ErrorDetail :=
  mkErrorDetail SAFETY_LIMIT_EXCEEDED (msg m) None (Some (ba_device_id a))
    (ba_soc_reconciliation_capability a) true [("authority", JStr "dynamic_safety_guard")].
Definition ev_blocked (a : EVActuator) (m : string) : ErrorDetail :=
  mkErrorDetail SAFETY_LIMIT_EXCEEDED (msg m) None (Some (ev_device_id a))
    (Some (ev_capability a)) true
    [("authority", JStr "dynamic_safety_guard"); ("actuator", JStr "ev")].

(** A verdict: [None] admits the command. *)
Abbreviation verdict := (result exn (option ErrorDetail)).
Definition refuse (e : ErrorDetail) : verdict := Ok (Some e).
Definition admitted : verdict := Ok None.

Definition value_number (v : option scalar) : option num := v ≫= numeric.

(** [_soc_kwh] *)
Definition soc_kwh (p : BatteryProfile) (s : StateSnapshot) : result exn (option f64) :=
  match value_number (ss_value s) with
  | None => Ok None
  | Some n =>
      py_float n ≫= fun value =>
      Ok (if negb (f64_isfinite value) then None
          else if bool_decide (ss_unit s = Some "kWh") then Some value
          else if bool_decide (ss_unit s = Some "%") &&
                  f64_ge0 value && f64_le value 100
          then Some (f64_mul (f64_div value (f64_of_Z 100)) (bp_capacity_kwh p))
          else None)
  end.

(** [_check_battery] *)
Definition check_battery (g : DynamicSafetyGuard) (st : StateStore) (now : datetime)
    (p : BatteryProfile) (a : BatteryActuator) (c : Command) : verdict :=
  if negb (String.eqb (cmd_device_id c) (ba_device_id a)) then admitted
  else if negb (bool_decide (cmd_command c ∈ [ba_charge_command a; ba_discharge_command a]))
  then admitted
  else
    match value_number (cmd_value c) with
    | None => refuse (mkErrorDetail SAFETY_LIMIT_EXCEEDED
        (msg "Battery dispatch value must be numeric") None (Some (cmd_device_id c))
        (Some (ba_capability a)) false [])
    | Some n =>
        match ba_soc_reconciliation_capability a with
        | None => refuse (blocked a "Battery dispatch requires a bound SOC readback capability")
        | Some soc_capability =>
            match get st (cmd_device_id c) soc_capability with
            | None => refuse (blocked a "Battery SOC evidence is not current")
            | Some snapshot =>
                let s := effective_snapshot (dg_stale_after g) now snapshot in
                if bool_decide (ss_status s = STALE)
                then refuse (blocked a "Battery SOC evidence has expired")
                else if negb (bool_decide (ss_status s = CURRENT))
                then refuse (blocked a "Battery SOC evidence is not current")
                else if now - ss_received_at s <? 0
                then refuse (blocked a "Battery SOC evidence is not current")
                else if dg_stale_after g <? now - ss_received_at s
                then refuse (blocked a "Battery SOC evidence has expired")
                else
                  match value_number (ss_value s) with
                  | None => refuse (blocked a "Battery SOC evidence is not numeric")
                  | Some _ =>
                      py_float n ≫= fun value =>
                      soc_kwh p s ≫= fun soc =>
                      match soc with
                      | None => refuse
                          (blocked a "Battery SOC evidence uses an unsupported or invalid unit")
                      | Some soc =>
                          let charging := String.eqb (cmd_command c) (ba_charge_command a) in
                          let power_limit :=
                            if charging then bp_max_charge_kw p else bp_max_discharge_kw p in
                          if num_lt (NFloat value) (NInt 0) || f64_lt power_limit value
                          then refuse
                            (blocked a "Battery command exceeds the bound actuator power envelope")
                          else if charging && num_le (NFloat (bp_max_soc_kwh p)) (NFloat soc)
                          then refuse
                            (blocked a "Battery command would exceed the current SOC maximum")
                          else if String.eqb (cmd_command c) (ba_discharge_command a) &&
                                  num_le (NFloat soc) (NFloat (bp_min_soc_kwh p))
                          then refuse
                            (blocked a "Battery command would cross the current SOC reserve")
                          else admitted
                      end
                  end
            end
        end
    end.

(** [_is_fresh] *)
Definition is_fresh (g : DynamicSafetyGuard) (now : datetime) (o : option StateSnapshot) : bool :=
  match o with
  | None => false
  | Some snapshot =>
      let s := effective_snapshot (dg_stale_after g) now snapshot in
      bool_decide (ss_status s = CURRENT) &&
      (0 <=? now - ss_received_at s) && (now - ss_received_at s <=? dg_stale_after g)
  end.

(** [s.replace("Z", "+00:00")] *)
Fixpoint replace_z (s : string) : string :=
  match s with
  | EmptyString => EmptyString
  | String a s => if Ascii.eqb a "Z" then "+00:00" +:+ replace_z s else String a (replace_z s)
  end.

Section DynamicSafety.
Context (fromisoformat : string -> option (datetime * bool)).

(** [_check_ev] *)
Definition check_ev (g : DynamicSafetyGuard) (st : StateStore) (now : datetime)
    (c : Command) (a : EVActuator) : verdict :=
  if String.eqb (cmd_command c) (ev_stop_command a) then admitted
  else if negb (String.eqb (cmd_command c) (ev_charge_command a)) then admitted
  else
    match value_number (cmd_value c) with
    | None => refuse (ev_blocked a "EV charge value must be numeric")
    | Some n =>
        py_float n ≫= fun value =>
        if num_le (NFloat value) (NInt 0) || f64_lt (ev_max_charge_kw a) value
        then refuse (ev_blocked a "EV command exceeds the bound actuator power envelope")
        else
          let connected := get st (cmd_device_id c) (ev_connected_capability a) in
          if negb (is_fresh g now connected &&
                   bool_decide ((connected ≫= ss_value) = Some (SBool true)))
          then refuse (ev_blocked a "EV connected evidence is not current and true")
          else
            match ev_departure_capability a with
            | None => admitted
            | Some capability =>
                let departure := get st (cmd_device_id c) capability in
                if negb (is_fresh g now departure)
                then refuse (ev_blocked a "EV departure evidence is not current")
                else
                  match departure ≫= ss_value with
                  | None => admitted
                  | Some (SStr text) =>
                      match fromisoformat (replace_z text) with
                      | None => refuse
                          (ev_blocked a "EV departure evidence is not a valid timestamp")
                      | Some (departure_at, aware) =>
                          if negb aware || (departure_at <=? now)
                          then refuse (ev_blocked a "EV departure time has elapsed")
                          else admitted
                      end
                  | Some _ => refuse (ev_blocked a "EV departure evidence is not a timestamp")
                  end
            end
    end.

(** The first binding of the command's device decides. *)
Fixpoint check_evs (g : DynamicSafetyGuard) (st : StateStore) (now : datetime) (c : Command)
    (l : list EVActuator) : verdict :=
  match l with
  | [] => admitted
  | a :: l =>
      if negb (String.eqb (cmd_device_id c) (ev_device_id a)) then check_evs g st now c l
      else check_ev g st now c a
  end.

Definition check_dynamic (g : DynamicSafetyGuard) (st : StateStore) (now : datetime) (c : Command)
    : verdict :=
  match dg_profile g, dg_actuator g with
  | Some p, Some a =>
      check_battery g st now p a c ≫= fun error =>
      match error with
      | Some e => refuse e
      | None => check_evs g st now c (dg_ev_actuators g)
      end
  | _, _ => check_evs g st now c (dg_ev_actuators g)
  end.

(** ** Properties *)

Lemma effective_fresh stale_after now s :
  ss_status (effective_snapshot stale_after now s) = CURRENT <-> fresh_at stale_after now s.
Proof. rewrite effective_snapshot_status. apply effective_status_current. Qed.

Lemma effective_snapshot_fresh stale_after now s :
  fresh_at stale_after now s -> effective_snapshot stale_after now s = s.
Proof.
  intros H. pose proof (proj2 (effective_status_current _ _ _) H) as E.
  unfold effective_snapshot. rewrite E. simpl. destruct H as (Hs & _).
  by rewrite Hs, bool_decide_eq_true_2.
Qed.

Lemma is_fresh_ok g now o :
  is_fresh g now o = true <-> exists s, o = Some s /\ fresh_at (dg_stale_after g) now s.
Proof.
  unfold is_fresh. destruct o as [s|]; [|split; [done|by intros (? & ? & _)]]. split.
  - intros [[H _]%andb_true_iff _]%andb_true_iff. apply bool_decide_eq_true, effective_fresh in H. eauto.
  - intros (? & [= <-] & H). rewrite effective_snapshot_fresh by done.
    destruct H as (Hs & Ho & Hr & Ha). rewrite Hs, !andb_true_iff, !Z.leb_le, bool_decide_eq_true.
    split_and!; [done|lia|lia].
Qed.

(** The command is one the battery binding answers for. *)
Definition addresses_battery (a : BatteryActuator) (c : Command) : Prop :=
  cmd_device_id c = ba_device_id a /\
  cmd_command c ∈ [ba_charge_command a; ba_discharge_command a].

(** What a battery dispatch needs: fresh evidence of the state of charge in a
    known unit, a power inside the envelope, room to charge, reserve to give. *)
Record battery_ready (g : DynamicSafetyGuard) (st : StateStore) (now : datetime)
    (p : BatteryProfile) (a : BatteryActuator) (c : Command) (value soc : f64) : Prop := {
  br_value : exists n, cmd_value c = Some (SNum n) /\ to_float n = Some value;
  br_soc : exists capability snapshot,
    ba_soc_reconciliation_capability a = Some capability /\
    get st (cmd_device_id c) capability = Some snapshot /\
    fresh_at (dg_stale_after g) now snapshot /\ soc_kwh p snapshot = Ok (Some soc);
  br_power : num_lt (NFloat value) (NInt 0) = false /\
    f64_lt (if String.eqb (cmd_command c) (ba_charge_command a)
            then bp_max_charge_kw p else bp_max_discharge_kw p) value = false;
  br_room : cmd_command c = ba_charge_command a ->
    num_le (NFloat (bp_max_soc_kwh p)) (NFloat soc) = false;
  br_reserve : cmd_command c = ba_discharge_command a ->
    num_le (NFloat soc) (NFloat (bp_min_soc_kwh p)) = false
}.

Lemma value_number_ok v n : value_number v = Some n <-> v = Some (SNum n).
Proof. unfold value_number. destruct v as [[| |]|]; simpl; split; congruence. Qed.

Lemma soc_kwh_number p s soc :
  soc_kwh p s = Ok (Some soc) -> is_Some (value_number (ss_value s)).
Proof. unfold soc_kwh. destruct (value_number _); [by eexists|done]. Qed.

Lemma battery_guard_iff g st now p a c :
  check_battery g st now p a c = Ok None <->
  (addresses_battery a c -> exists value soc, battery_ready g st now p a c value soc).
Proof.
  unfold check_battery, addresses_battery, admitted, refuse.
  destruct (String.eqb_spec (cmd_device_id c) (ba_device_id a)) as [Hd|Hd]; simpl.
  2: { split; [by intros _ [? _]|done]. }
  destruct (decide (cmd_command c ∈ [ba_charge_command a; ba_discharge_command a])) as [Hc|Hc].
  2: { rewrite bool_decide_eq_false_2 by done. simpl. split; [by intros _ [_ ?]|done]. }
  rewrite bool_decide_eq_true_2 by done. simpl.
  assert (Hq : forall P Q : Prop, (P <-> Q) ->
    (P <-> (cmd_device_id c = ba_device_id a /\
            cmd_command c ∈ [ba_charge_command a; ba_discharge_command a] -> Q))) by tauto.
  apply Hq. clear Hq. split.
  - destruct (value_number (cmd_value c)) as [n|] eqn:En; [|done].
    destruct (ba_soc_reconciliation_capability a) as [capability|] eqn:Es; [|done].
    destruct (get st _ _) as [snapshot|] eqn:Eg; [|done].
    case_bool_decide; [done|].
    case_bool_decide as Hcur; simpl; [|done]. apply effective_fresh in Hcur.
    rewrite effective_snapshot_fresh by done.
    destruct (_ <? 0); [done|]. destruct (dg_stale_after g <? _); [done|].
    destruct (value_number (ss_value snapshot)) as [m|] eqn:Em; [|done].
    intros (value & Hv & Hx)%result_bind_ok. apply result_bind_ok in Hx as ([soc|] & Hsoc & Hx); [|done].
    destruct (_ || _) eqn:Ep; [done|]. apply orb_false_iff in Ep.
    destruct (_ && _) eqn:Er in Hx; [done|]. destruct (_ && _) eqn:Ed in Hx; [done|].
    exists value, soc. apply py_float_ok in Hv. apply value_number_ok in En.
    split; [eauto|by exists capability, snapshot|done| |].
    + intros E. by rewrite E, String.eqb_refl in Er.
    + intros E. by rewrite E, String.eqb_refl in Ed.
  - intros (value & soc & [(n & Hn & Hv) (capability & snapshot & Hcap & Hg & Hf & Hsoc) [Hp1 Hp2] Hr Hs]).
    rewrite Hn, Hcap, Hg. simpl. rewrite effective_snapshot_fresh by done.
    destruct Hf as (Hst & Ho & Hre & Ha). rewrite Hst. simpl.
    destruct (soc_kwh_number _ _ _ Hsoc) as [m Hm].
    rewrite (proj2 (Z.ltb_ge (now - ss_received_at snapshot) 0)) by lia.
    rewrite (proj2 (Z.ltb_ge (dg_stale_after g) (now - ss_received_at snapshot))) by lia.
    rewrite Hm. apply py_float_ok in Hv. rewrite Hv. simpl. rewrite Hsoc. simpl. rewrite Hp1, Hp2. simpl.
    destruct (String.eqb_spec (cmd_command c) (ba_charge_command a)) as [E|];
      [rewrite (Hr E)|]; simpl;
      destruct (String.eqb_spec (cmd_command c) (ba_discharge_command a)) as [E'|];
      try rewrite (Hs E'); done.
Qed.

(** The battery guard fails closed: a charge or discharge of the bound
    battery is admitted exactly when its value is a number inside the power
    envelope, the bound state-of-charge reading exists, is CURRENT, lies
    neither in the future nor beyond the freshness bound and converts to kWh
    by its unit, and the battery has room below its maximum, or charge above
    its reserve.  Commands of other devices and other commands are not the
    guard's business and pass. *)
Theorem battery_guard_exact g st now p a c :
  check_battery g st now p a c = Ok None <->
  (addresses_battery a c -> exists value soc, battery_ready g st now p a c value soc).
Proof. apply battery_guard_iff. Qed.

(** What charging a vehicle needs. *)
Record vehicle_ready (g : DynamicSafetyGuard) (st : StateStore) (now : datetime) (a : EVActuator)
    (c : Command) : Prop := {
  vr_power : exists n value, cmd_value c = Some (SNum n) /\ to_float n = Some value /\
    num_le (NFloat value) (NInt 0) = false /\ f64_lt (ev_max_charge_kw a) value = false;
  vr_connected : exists s, get st (cmd_device_id c) (ev_connected_capability a) = Some s /\
    fresh_at (dg_stale_after g) now s /\ ss_value s = Some (SBool true);
  vr_departure : forall capability, ev_departure_capability a = Some capability ->
    exists s, get st (cmd_device_id c) capability = Some s /\ fresh_at (dg_stale_after g) now s /\
      (ss_value s = None \/
       exists text departure_at, ss_value s = Some (SStr text) /\
         fromisoformat (replace_z text) = Some (departure_at, true) /\ now < departure_at)
}.

Lemma check_ev_charge g st now a c :
  cmd_command c <> ev_stop_command a -> cmd_command c = ev_charge_command a ->
  check_ev g st now c a = Ok None <-> vehicle_ready g st now a c.
Proof.
  intros Hstop Hcharge. unfold check_ev, refuse, admitted.
  rewrite (proj2 (String.eqb_neq _ _) Hstop), Hcharge, String.eqb_refl. simpl. split.
  - destruct (value_number (cmd_value c)) as [n|] eqn:En; [|done].
    intros (value & Hv & H)%result_bind_ok. apply py_float_ok in Hv. apply value_number_ok in En.
    destruct (_ || _) eqn:Ep; [done|]. apply orb_false_iff in Ep as [Ep1 Ep2].
    destruct (negb _) eqn:Ec; [done|]. apply negb_false_iff, andb_true_iff in Ec as [Ec1 Ec2].
    apply is_fresh_ok in Ec1 as (s & Es & Hf). rewrite Es in Ec2. apply bool_decide_eq_true in Ec2.
    split; [by exists n, value|by exists s|]. intros capability Hcap. rewrite Hcap in H.
    destruct (negb _) eqn:Ed; [done|]. apply negb_false_iff, is_fresh_ok in Ed as (d & Ed & Hfd).
    exists d. split; [done|]. split; [done|]. rewrite Ed in H. simpl in H.
    destruct (ss_value d) as [[| |text]|]; [done|done| |by left]. right.
    destruct (fromisoformat (replace_z text)) as [[at_ aware]|] eqn:Ei; [|done].
    destruct aware; [|done]. simpl in H. destruct (Z.leb_spec at_ now); [done|].
    exists text, at_. split_and!; [done|done|lia].
  - intros [(n & value & Hn & Hv & Hp1 & Hp2) (s & Hs & Hf & Hval) Hd].
    rewrite Hn. simpl. apply py_float_ok in Hv. rewrite Hv. simpl. rewrite Hp1, Hp2. simpl.
    rewrite (proj2 (is_fresh_ok g now _)) by eauto. rewrite Hs. simpl.
    rewrite Hval, bool_decide_eq_true_2 by done. simpl.
    destruct (ev_departure_capability a) as [capability|]; [|done].
    destruct (Hd capability eq_refl) as (d & Hg & Hfd & Hdep).
    rewrite (proj2 (is_fresh_ok g now _)) by eauto. rewrite Hg. simpl.
    destruct Hdep as [->|(text & at_ & -> & -> & Hlt)]; [done|]. simpl.
    by rewrite (proj2 (Z.leb_gt _ _) Hlt).
Qed.

(** The binding that answers for a device. *)
Definition binding_of (device : string) (l : list EVActuator) : option EVActuator :=
  find_first (fun a => String.eqb device (ev_device_id a)) l.

Lemma check_evs_binding g st now c l :
  check_evs g st now c l =
    match binding_of (cmd_device_id c) l with Some a => check_ev g st now c a | None => Ok None end.
Proof.
  induction l as [|a l IH]; simpl; [done|]. unfold binding_of in *. simpl.
  destruct (String.eqb _ _); done.
Qed.

(** C40: The guard as a whole admits a command exactly when both bindings that
    may answer for its device agree: the battery's, and the first vehicle
    binding of the device, which lets the stop command through whatever the
    state of the charger, charges only a vehicle that is freshly known to be
    connected, within the bound power and before its announced departure, and
    ignores other commands. *)
Theorem dynamic_guard_exact g st now c :
  check_dynamic g st now c = Ok None <->
  (forall p a, dg_profile g = Some p -> bp_actuator p = Some a -> addresses_battery a c ->
     exists value soc, battery_ready g st now p a c value soc) /\
  (forall a, binding_of (cmd_device_id c) (dg_ev_actuators g) = Some a ->
     cmd_command c <> ev_stop_command a -> cmd_command c = ev_charge_command a ->
     vehicle_ready g st now a c).
Proof.
  assert (Hev : check_evs g st now c (dg_ev_actuators g) = Ok None <->
    (forall a, binding_of (cmd_device_id c) (dg_ev_actuators g) = Some a ->
     cmd_command c <> ev_stop_command a -> cmd_command c = ev_charge_command a ->
     vehicle_ready g st now a c)).
  { rewrite check_evs_binding. destruct (binding_of _ _) as [a|]; [|done]. split.
    - intros H a' [= <-] ? ?. by apply check_ev_charge.
    - intros H. destruct (decide (cmd_command c = ev_stop_command a)) as [E|].
      { unfold check_ev. by rewrite E, String.eqb_refl. }
      destruct (decide (cmd_command c = ev_charge_command a)) as [E|].
      + apply check_ev_charge; auto.
      + unfold check_ev. by rewrite !(proj2 (String.eqb_neq _ _)). }
  rewrite <- Hev. unfold check_dynamic, dg_actuator, refuse.
  destruct (dg_profile g) as [p|]; simpl.
  2: { split; [done|by intros [_ ?]]. }
  destruct (bp_actuator p) as [a|] eqn:Ea.
  2: { split; [|by intros [_ ?]]. intros ?. split; [|done]. intros ? ? [= <-] ?. congruence. }
  split.
  - intros ([e|] & H1 & H2)%result_bind_ok; [done|]. split; [|done].
    intros p' a' [= <-] Ha'. rewrite Ea in Ha'. injection Ha' as <-. by apply battery_guard_iff.
  - intros [H1 H2]. rewrite (proj2 (battery_guard_iff g st now p a c)); [done|]. by apply H1.
Qed.
End DynamicSafety.


(** *** Examples: a ten kWh battery between a reserve of two and nine *)

Definition example_actuator : BatteryActuator :=
  mkBatteryActuator "home.battery" "battery_control" "charge" "discharge" "stop" "battery.power"
    "charge_positive" (f64_of_Z 1) (f64_of_Z 0) (f64_of_Z 1) (Some "battery.soc") "kW".
Definition example_profile : BatteryProfile :=
  mkBatteryProfile (f64_of_Z 10) (f64_of_Z 5) (f64_of_Z 2) (f64_of_Z 9) (f64_of_Z 3) (f64_of_Z 3)
    (f64_of_Z 1) (f64_of_Z 1) None (Some example_actuator) None.
Example example_profile_valid : validate_profile example_profile = Ok tt.
Proof. reflexivity. Qed.

Definition example_battery_store (soc : Z) : StateStore :=
  snd (save_many id Persisted
    [mkStateSnapshot default_authority "home.battery" "battery.soc" (Some (SNum (NInt soc)))
       (Some "%") 0 0 CURRENT (mkSourceRef "sim" "battery" None None None) None]
    (empty_store <| st_persistence_bound := true |>)).
Definition example_battery_guard : DynamicSafetyGuard :=
  mkDynamicSafetyGuard (minutes 5) (Some example_profile) [].
Definition example_dispatch (command : string) (value : num) : Command :=
  mkCommand "c1" "home.battery" command (Some (SNum value)) (Some "kW") [] RESTRICTED "k1" None [].
Definition example_verdict (soc : Z) (now : datetime) (command : string) (value : num) : bool :=
  match check_battery example_battery_guard (example_battery_store soc) now example_profile
          example_actuator (example_dispatch command value) with
  | Ok None => true
  | _ => false
  end.

(** Half full: charging and discharging pass; full, only discharging; at the
    reserve, only charging; beyond the power limit or the freshness bound,
    nothing does. *)
Example example_verdicts :
  map (fun '(soc, now, command, value) => example_verdict soc now command (NInt value))
    [(50, minutes 1, "charge", 2); (50, minutes 1, "discharge", 2); (90, minutes 1, "charge", 2);
     (90, minutes 1, "discharge", 2); (20, minutes 1, "discharge", 2); (20, minutes 1, "charge", 2);
     (50, minutes 1, "charge", 4); (50, minutes 6, "charge", 2)]
  = [true; true; false; true; false; true; false; false].
Proof. reflexivity. Qed.

(** The envelope is tested by two comparisons that are both false of a NaN, so
    the guard by itself lets one through; the value check that runs before it
    is what refuses it. *)
Example nan_passes_the_guard :
  example_verdict 50 (minutes 1) "charge" (NFloat SpecFloat.S754_nan) = true.
Proof. reflexivity. Qed.
