(* ===== verification/Admission.v ===== *)
(** * Execution admission (application/execution_admission.py)

    Every path to a physical write enters here: the fencing lease, the bundle a
    plan belongs to, its single-use aggregate capability, its predecessors and
    its approval are checked before the executor may claim the plan.  A bundle
    repository is what its [get_for_plan] answers at the moment of the call;
    the audit log and the metrics counters are output and left out. *)

From S2P Require Import Prelude.
From S2P Require Import Values.
From S2P Require Import Models.
From S2P Require Import Digests.
From S2P Require Import ApprovalStore.
From S2P Require Import Coordination.

Inductive AdmissionOperation := AO_EXECUTE | AO_SCHEDULE | AO_STANDING_AUTOMATION | AO_CANCEL | AO_RESCHEDULE.
#[global] Instance AdmissionOperation_eq_dec : EqDecision AdmissionOperation.
Proof. solve_decision. Defined.

Record AdmissionDecision := mkAdmissionDecision {
  ad_plan_id : string;
  ad_bundle_id : option string;
  ad_predecessor_plan_ids : list string;
  ad_bundle_digest : option string;
  ad_expires_at : option datetime
}.

(** What the boundary is configured with; the capabilities issued and not yet
    used are its state. *)
Record ExecutionAdmission := mkExecutionAdmission {
  ea_bundle_repository : option (string -> option BundleCommit);
  ea_approval_store : option ApprovalStore;
  ea_fencing_guard : option (FencingGuard * LeaseCoordinator)
}.
Abbreviation issued_capabilities := (gmap string AggregateExecutionCapability).

Definition refusal (code : ErrorCode) (m : string) (details : list (string * json)) : exn :=
  DomainError (mkErrorDetail code (msg m) None None None false details).

Definition member_of (b : BundleCommit) (plan_id : string) : option BundleMemberCommit :=
  find_first (fun m => String.eqb (bm_plan_id m) plan_id) (bc_members b).

(** [issue_aggregate_capability]; [nonce] is what [token_urlsafe] drew. *)
Definition issue_aggregate_capability (e : ExecutionAdmission) (nonce : string) (now : datetime)
    (bundle_id member_plan_id : string) (ttl_seconds : num)
    : stm issued_capabilities exn AggregateExecutionCapability :=
  match ea_bundle_repository e with
  | None => raise (domain_error AGGREGATE_CAPABILITY_INVALID
      "Cannot issue aggregate execution capability without bundle persistence")
  | Some get_for_plan =>
      let unowned := domain_error AGGREGATE_CAPABILITY_INVALID
                       "Bundle aggregate does not own the requested member" in
      match get_for_plan member_plan_id with
      | None => raise unowned
      | Some bundle =>
          lift (raise_if (negb (String.eqb (bc_id bundle) bundle_id)) unowned) ≫= fun _ =>
          lift (raise_if (negb (opt_bool (member_of bundle member_plan_id))) unowned) ≫= fun _ =>
          lift (raise_if (num_le ttl_seconds (NInt 0))
            (ValueError "aggregate capability TTL must be positive")) ≫= fun _ =>
          ttl ← lift (timedelta_seconds ttl_seconds);
          let capability := mkAggregateExecutionCapability (bc_authority bundle) (bc_id bundle)
                              member_plan_id (bc_bundle_digest bundle) nonce (now + ttl) in
          lift (raise_if (is_empty (bc_id bundle) || is_empty member_plan_id ||
                          is_empty (bc_bundle_digest bundle) || is_empty nonce)
            (ValueError "aggregate capability field is empty")) ≫= fun _ =>
          modify (fun issued => <[nonce := capability]> issued) ≫= fun _ =>
          mret capability
      end
  end.

(** [scope.split("+")] *)
Fixpoint split_plus (s : string) : list string :=
  match s with
  | EmptyString => [""]
  | String a s =>
      if Ascii.eqb a "+" then "" :: split_plus s
      else match split_plus s with
           | part :: parts => String a part :: parts
           | [] => [String a ""]
           end
  end.

Definition bundle_scoped (a : Approval) : bool := bool_decide ("bundle" ∈ split_plus (ap_scope a)).

Section Admission.
Context `{CJ : Canonical}.

(** ** Dependency evidence (domain/models.py) *)

Definition ExecutionStatus_value (s : ExecutionStatus) : string :=
  match s with
  | ES_ACCEPTED => "accepted" | ES_REJECTED => "rejected" | ES_UNAVAILABLE => "unavailable"
  | ES_FAILED => "failed" | ES_CANCELLED => "cancelled"
  | ES_CONFIRMED_SUCCESS => "confirmed_success" | ES_UNKNOWN => "unknown"
  end.

Definition execution_dependency_evidence_digest (v : ExecutionDependencyEvidence) : string :=
  digest_ascii (JObj
    [("schema", JStr "execution-dependency-evidence-v2"); ("bundle_id", JStr (ede_bundle_id v));
     ("member_plan_id", JStr (ede_member_plan_id v));
     ("predecessor_plan_id", JStr (ede_predecessor_plan_id v));
     ("predecessor_command_ids", json_strings (ede_predecessor_command_ids v));
     ("status", JStr (ExecutionStatus_value (ede_status v)));
     ("state_versions", JObj (map (fun '(k, n) => (k, json_int n)) (ede_state_versions v)));
     ("captured_at", JStr (isoformat (ede_captured_at v) (Some "UTC")));
     ("outcome_digest", JStr (ede_outcome_digest v))]).

(** [ExecutionDependencyEvidence.model_validate]: the field constraints, then
    [validate_capture_time]. *)
Definition validate_evidence (v : ExecutionDependencyEvidence) : result exn unit :=
  raise_if (existsb is_empty [ede_bundle_id v; ede_member_plan_id v; ede_predecessor_plan_id v;
              ede_outcome_digest v; ede_evidence_digest v] ||
            bool_decide (ede_predecessor_command_ids v = []))
    (ValueError "dependency evidence field out of bounds") ≫= fun _ =>
  raise_if (negb (bool_decide (ede_status v = ES_CONFIRMED_SUCCESS)))
    (ValueError "only confirmed success can publish dependency evidence") ≫= fun _ =>
  raise_if (negb (String.eqb (ede_evidence_digest v) (execution_dependency_evidence_digest v)))
    (ValueError "dependency evidence digest mismatch").

(** The recorded evidence, if it validates. *)
Definition member_evidence (m : BundleMemberCommit) : option ExecutionDependencyEvidence :=
  match bm_evidence m with
  | Some v => if is_ok (validate_evidence v) then Some v else None
  | None => None
  end.

(** One iteration of [_verify_predecessors]. *)
Definition verify_predecessor (p : Plan) (b : BundleCommit) (predecessor_id : string)
    : result exn unit :=
  let confirmed :=
    match member_of b predecessor_id with
    | None => false
    | Some m =>
        bool_decide (bm_status m = BM_EXECUTED) &&
        match member_evidence m with
        | None => false
        | Some v =>
            String.eqb (ede_bundle_id v) (bc_id b) &&
            String.eqb (ede_member_plan_id v) predecessor_id &&
            String.eqb (ede_predecessor_plan_id v) predecessor_id &&
            bool_decide (ede_status v = ES_CONFIRMED_SUCCESS)
        end
    end in
  raise_if (negb confirmed)
    (refusal PRECONDITION_FAILED "All bundle predecessors must have confirmed-success evidence"
       [("bundle_id", JStr (bc_id b)); ("plan_id", JStr (pl_id p));
        ("predecessor_plan_id", JStr predecessor_id)]).

Definition verify_predecessors (p : Plan) (b : BundleCommit) (ids : list string) : result exn unit :=
  result_iter (verify_predecessor p b) ids.

(** ** Approval *)

Definition verify_approval (e : ExecutionAdmission) (now : datetime) (p : Plan)
    (expected_bundle_digest : option string) : result exn unit :=
  if negb (bool_decide (pl_status p = PS_APPROVED)) then Ok tt
  else
    match ea_approval_store e with
    | None => Err (domain_error APPROVAL_REQUIRED
        "Approved physical execution requires the authoritative approval store")
    | Some store => verify_consumed now store p expected_bundle_digest None ≫= fun _ => Ok tt
    end.

Definition verify_execution (e : ExecutionAdmission) (now : datetime) (p : Plan)
    (op : AdmissionOperation) (expected_bundle_digest : option string) : result exn unit :=
  if bool_decide (op = AO_EXECUTE) then verify_approval e now p expected_bundle_digest else Ok tt.

Definition verify_non_member_execution (e : ExecutionAdmission) (now : datetime) (p : Plan)
    (op : AdmissionOperation) (bundle_persistence_available : bool) : result exn unit :=
  if negb (bool_decide (op = AO_EXECUTE)) then Ok tt
  else
    raise_if (match pl_approval p with
              | Some a => opt_bool (ap_bundle_digest a) || bundle_scoped a
              | None => false end)
      (refusal APPROVAL_REQUIRED
         (if bundle_persistence_available
          then "A bundle-scoped approval cannot execute outside its bundle"
          else "Bundle-scoped approval cannot be verified without bundle persistence")
         [("plan_id", JStr (pl_id p))]) ≫= fun _ =>
    verify_approval e now p None.

(** [_reject_bundle_member] *)
Definition member_rejection (op : AdmissionOperation) : ErrorCode :=
  match op with
  | AO_EXECUTE | AO_SCHEDULE | AO_STANDING_AUTOMATION => BUNDLE_MEMBER_EXECUTION_FORBIDDEN
  | AO_CANCEL => BUNDLE_MEMBER_CANCEL_FORBIDDEN
  | AO_RESCHEDULE => BUNDLE_MEMBER_RESCHEDULE_FORBIDDEN
  end.
Definition reject_bundle_member (p : Plan) (bundle_id : string) (op : AdmissionOperation) : exn :=
  refusal (member_rejection op) "Bundle members must execute through the bundle aggregate"
    [("bundle_id", JStr bundle_id); ("plan_id", JStr (pl_id p))].

(** [_valid_aggregate_capability] *)
Definition valid_aggregate_capability (issued : issued_capabilities) (now : datetime)
    (c : AggregateExecutionCapability) (b : BundleCommit) (plan_id : string) : bool :=
  bool_decide (issued !! aec_nonce c = Some c) &&
  String.eqb (au_tenant_id (aec_authority c)) (au_tenant_id (bc_authority b)) &&
  String.eqb (au_household_id (aec_authority c)) (au_household_id (bc_authority b)) &&
  String.eqb (aec_bundle_id c) (bc_id b) &&
  String.eqb (aec_bundle_digest c) (bc_bundle_digest b) &&
  String.eqb (aec_member_plan_id c) plan_id &&
  (now <? aec_expires_at c).

(** ** [ExecutionAdmission.admit] *)

Definition check_fencing (e : ExecutionAdmission) (now : datetime) (p : Plan) : result exn unit :=
  match ea_fencing_guard e with
  | None => Ok tt
  | Some (guard, leases) =>
      match assert_writable_for_authority now leases guard (pl_authority p) with
      | Ok _ => Ok tt
      | Err (FencingViolation reason) =>
          Err (DomainError (mkErrorDetail FENCING_VIOLATION
            (msg "Physical execution requires the current household fencing lease")
            None None None true [("reason", JStr reason)]))
      | Err error => Err error
      end
  end.

Definition admit_member (e : ExecutionAdmission) (now : datetime) (p : Plan)
    (op : AdmissionOperation) (capability : option AggregateExecutionCapability)
    (b : BundleCommit) (m : BundleMemberCommit) : stm issued_capabilities exn AdmissionDecision :=
  lift (raise_if (negb (bool_decide (op = AO_EXECUTE))) (reject_bundle_member p (bc_id b) op))
    ≫= fun _ =>
  match capability with
  | None => raise (reject_bundle_member p (bc_id b) op)
  | Some c =>
      issued ← get_st;
      lift (raise_if (negb (valid_aggregate_capability issued now c b (pl_id p)))
        (refusal AGGREGATE_CAPABILITY_INVALID "Invalid or replayed aggregate execution capability"
           [("bundle_id", JStr (bc_id b)); ("plan_id", JStr (pl_id p))])) ≫= fun _ =>
      lift (raise_if (match pl_approval p with
                      | Some a => negb (bundle_scoped a) ||
                                  negb (bool_decide (ap_bundle_digest a = Some (bc_bundle_digest b)))
                      | None => false end)
        (refusal APPROVAL_REQUIRED "Approval scope does not match the committed bundle"
           [("bundle_id", JStr (bc_id b)); ("expected_bundle_digest", JStr (bc_bundle_digest b));
            ("plan_id", JStr (pl_id p))])) ≫= fun _ =>
      lift (verify_predecessors p b (bm_predecessor_plan_ids m)) ≫= fun _ =>
      lift (verify_execution e now p op (Some (bc_bundle_digest b))) ≫= fun _ =>
      modify (fun issued => delete (aec_nonce c) issued) ≫= fun _ =>
      mret (mkAdmissionDecision (pl_id p) (Some (bc_id b)) (bm_predecessor_plan_ids m)
              (Some (bc_bundle_digest b)) (Some (aec_expires_at c)))
  end.

Definition admit_plan (e : ExecutionAdmission) (now : datetime) (p : Plan) (op : AdmissionOperation)
    (capability : option AggregateExecutionCapability)
    : stm issued_capabilities exn AdmissionDecision :=
  let alone bundle_id := mkAdmissionDecision (pl_id p) bundle_id [] None None in
  lift (check_fencing e now p) ≫= fun _ =>
  match ea_bundle_repository e with
  | None =>
      lift (verify_non_member_execution e now p op false) ≫= fun _ => mret (alone None)
  | Some get_for_plan =>
      match get_for_plan (pl_id p) with
      | None =>
          lift (verify_non_member_execution e now p op true) ≫= fun _ => mret (alone None)
      | Some b =>
          match member_of b (pl_id p) with
          | None =>
              lift (verify_execution e now p op None) ≫= fun _ => mret (alone (Some (bc_id b)))
          | Some m => admit_member e now p op capability b m
          end
      end
  end.

Definition revalidate (e : ExecutionAdmission) (now : datetime) (p : Plan) (d : AdmissionDecision)
    : stm issued_capabilities exn unit :=
  lift (raise_if (negb (String.eqb (ad_plan_id d) (pl_id p)))
    (domain_error AGGREGATE_CAPABILITY_INVALID "Admission decision belongs to another plan"))
    ≫= fun _ =>
  match ad_bundle_id d with
  | None => admit_plan e now p AO_EXECUTE None ≫= fun _ => mret tt
  | Some bundle_id =>
      let changed := domain_error AGGREGATE_CAPABILITY_INVALID
                       "Bundle admission changed or expired before dispatch" in
      match ea_bundle_repository e ≫= fun get_for_plan => get_for_plan (pl_id p) with
      | None => raise changed
      | Some b =>
          lift (raise_if
            (negb (String.eqb (bc_id b) bundle_id) ||
             negb (bool_decide (Some (bc_bundle_digest b) = ad_bundle_digest d)) ||
             negb (String.eqb (au_tenant_id (bc_authority b)) (au_tenant_id (pl_authority p))) ||
             negb (String.eqb (au_household_id (bc_authority b))
                     (au_household_id (pl_authority p))) ||
             opt_le (ad_expires_at d) now) changed) ≫= fun _ =>
          lift (raise_if
            (negb (bool_decide ((bm_predecessor_plan_ids <$> member_of b (pl_id p))
                                = Some (ad_predecessor_plan_ids d))))
            (domain_error AGGREGATE_CAPABILITY_INVALID
               "Bundle dependencies changed before dispatch")) ≫= fun _ =>
          lift (verify_predecessors p b (ad_predecessor_plan_ids d)) ≫= fun _ =>
          lift (verify_approval e now p (Some (bc_bundle_digest b)))
      end
  end.

(** ** Properties *)

(** A predecessor that was executed and proved it: its evidence is intact
    (digest included), belongs to this bundle and to this very plan. *)
Definition predecessor_confirmed (b : BundleCommit) (id : string) : Prop :=
  exists m v, member_of b id = Some m /\ bm_status m = BM_EXECUTED /\ bm_evidence m = Some v /\
    validate_evidence v = Ok tt /\ ede_bundle_id v = bc_id b /\ ede_member_plan_id v = id /\
    ede_predecessor_plan_id v = id /\ ede_status v = ES_CONFIRMED_SUCCESS.

Lemma verify_predecessor_ok p b id : verify_predecessor p b id = Ok tt <-> predecessor_confirmed b id.
Proof.
  unfold verify_predecessor, predecessor_confirmed, member_evidence.
  rewrite raise_if_ok, negb_false_iff. split.
  - destruct (member_of b id) as [m|]; [|done]. intros [H1 H2]%andb_true_iff.
    apply bool_decide_eq_true in H1. destruct (bm_evidence m) as [v|] eqn:Ev; [|done].
    destruct (validate_evidence v) as [[]|] eqn:Evv; [|done]. simpl in H2.
    rewrite !andb_true_iff, !String.eqb_eq, bool_decide_eq_true in H2.
    exists m, v. destruct H2 as [[[? ?] ?] ?]. done.
  - intros (m & v & -> & H1 & H2 & H3 & H4 & H5 & H6 & H7).
    rewrite H1, H2, H3. simpl. by rewrite H4, H5, H6, H7, !String.eqb_refl.
Qed.

Lemma verify_predecessors_ok p b ids :
  verify_predecessors p b ids = Ok tt <-> Forall (predecessor_confirmed b) ids.
Proof.
  unfold verify_predecessors. rewrite result_iter_ok, !Forall_forall.
  by setoid_rewrite verify_predecessor_ok.
Qed.

Lemma verify_approval_ok e now p digest :
  verify_approval e now p digest = Ok tt <->
  (pl_status p = PS_APPROVED -> exists store g, ea_approval_store e = Some store /\
     verify_consumed now store p digest None = Ok g).
Proof.
  unfold verify_approval. case_bool_decide as Hs; simpl; [|tauto].
  destruct (ea_approval_store e) as [store|]; split.
  - intros (g & Hg & _)%result_bind_ok _. eauto.
  - intros H. destruct (H Hs) as (? & g & [= <-] & Hg). by rewrite Hg.
  - done.
  - intros H. destruct (H Hs) as (? & g & ? & _). done.
Qed.

(** The capability is the one issued for this member, and it is alive. *)
Record capability_holds (issued : issued_capabilities) (now : datetime)
    (c : AggregateExecutionCapability) (b : BundleCommit) (plan_id : string) : Prop := {
  ch_issued : issued !! aec_nonce c = Some c;
  ch_tenant : au_tenant_id (aec_authority c) = au_tenant_id (bc_authority b);
  ch_household : au_household_id (aec_authority c) = au_household_id (bc_authority b);
  ch_bundle : aec_bundle_id c = bc_id b /\ aec_bundle_digest c = bc_bundle_digest b;
  ch_member : aec_member_plan_id c = plan_id;
  ch_alive : now < aec_expires_at c
}.

Lemma valid_aggregate_capability_ok issued now c b plan_id :
  valid_aggregate_capability issued now c b plan_id = true <->
  capability_holds issued now c b plan_id.
Proof.
  unfold valid_aggregate_capability.
  rewrite !andb_true_iff, !String.eqb_eq, bool_decide_eq_true, Z.ltb_lt. split.
  - intros [[[[[[? ?] ?] ?] ?] ?] ?]. by split.
  - by intros [? ? ? [? ?] ? ?].
Qed.

(** All that lets a bundle member run. *)
Record member_admissible (e : ExecutionAdmission) (now : datetime) (p : Plan)
    (issued : issued_capabilities) (c : AggregateExecutionCapability) (b : BundleCommit)
    (m : BundleMemberCommit) : Prop := {
  ma_fencing : check_fencing e now p = Ok tt;
  ma_capability : capability_holds issued now c b (pl_id p);
  ma_scope : forall a, pl_approval p = Some a ->
    "bundle" ∈ split_plus (ap_scope a) /\ ap_bundle_digest a = Some (bc_bundle_digest b);
  ma_predecessors : Forall (predecessor_confirmed b) (bm_predecessor_plan_ids m);
  ma_approval : pl_status p = PS_APPROVED -> exists store g, ea_approval_store e = Some store /\
    verify_consumed now store p (Some (bc_bundle_digest b)) None = Ok g
}.

Lemma scope_test_ok (a : option Approval) digest :
  match a with
  | Some a => negb (bundle_scoped a) || negb (bool_decide (ap_bundle_digest a = Some digest))
  | None => false end = false <->
  (forall x, a = Some x -> "bundle" ∈ split_plus (ap_scope x) /\ ap_bundle_digest x = Some digest).
Proof.
  destruct a as [a|]; [|done]. unfold bundle_scoped.
  rewrite orb_false_iff, !negb_false_iff, !bool_decide_eq_true.
  split; [by intros ? ? [= <-]|auto].
Qed.

Lemma admit_member_cases e now p op capability b m issued :
  (exists c, capability = Some c /\ op = AO_EXECUTE /\
     (check_fencing e now p = Ok tt -> member_admissible e now p issued c b m) /\
     admit_member e now p op capability b m issued =
       (Ok (mkAdmissionDecision (pl_id p) (Some (bc_id b)) (bm_predecessor_plan_ids m)
              (Some (bc_bundle_digest b)) (Some (aec_expires_at c))), delete (aec_nonce c) issued)) \/
  (exists err, admit_member e now p op capability b m issued = (Err err, issued) /\
     forall c, capability = Some c -> op = AO_EXECUTE -> ~ member_admissible e now p issued c b m).
Proof.
  unfold admit_member. rewrite stm_bind_lift. case_bool_decide as Hop; simpl.
  2: { right. by eexists. }
  destruct capability as [c|]; [|right; by eexists]. rewrite stm_bind_get, stm_bind_lift.
  destruct (valid_aggregate_capability issued now c b (pl_id p)) eqn:Ec; simpl.
  2: { right. eexists. split; [done|]. intros ? [= <-] _ [_ H _ _ _].
       apply valid_aggregate_capability_ok in H. congruence. }
  apply valid_aggregate_capability_ok in Ec. rewrite stm_bind_lift.
  destruct (match pl_approval p with Some _ => _ | None => _ end) eqn:Es; simpl.
  { right. eexists. split; [done|]. intros ? [= <-] _ [_ _ H _ _].
    pose proof (proj2 (scope_test_ok _ _) H). congruence. }
  pose proof (proj1 (scope_test_ok _ _) Es) as Hscope. rewrite stm_bind_lift.
  destruct (verify_predecessors p b (bm_predecessor_plan_ids m)) as [[]|] eqn:Ep.
  2: { right. eexists. split; [done|]. intros ? [= <-] _ [_ _ _ H _].
       apply verify_predecessors_ok with (p := p) in H. congruence. }
  apply verify_predecessors_ok in Ep. rewrite stm_bind_lift. subst op. unfold verify_execution. simpl.
  destruct (verify_approval e now p (Some (bc_bundle_digest b))) as [[]|] eqn:Ea.
  2: { right. eexists. split; [done|]. intros ? [= <-] _ [_ _ _ _ H].
       apply verify_approval_ok in H. congruence. }
  rewrite verify_approval_ok in Ea. left. exists c. split; [done|]. split; [done|]. by split.
Qed.

(** A plan that belongs to a bundle executes only as its member: given that
    the repository knows it as one, it is admitted exactly for the operation
    execute, with the fencing lease held and a capability that was issued for
    this member and is unused and alive, an approval (if it has one) for this
    very bundle, every predecessor executed with intact evidence, and its
    approval consumed in the ledger; admission spends the capability, and a
    refusal changes nothing. *)
Theorem bundle_member_admission e now p op capability issued get_for_plan b m :
  ea_bundle_repository e = Some get_for_plan -> get_for_plan (pl_id p) = Some b ->
  member_of b (pl_id p) = Some m ->
  (forall d issued', admit_plan e now p op capability issued = (Ok d, issued') <->
     exists c, capability = Some c /\ op = AO_EXECUTE /\ member_admissible e now p issued c b m /\
       d = mkAdmissionDecision (pl_id p) (Some (bc_id b)) (bm_predecessor_plan_ids m)
             (Some (bc_bundle_digest b)) (Some (aec_expires_at c)) /\
       issued' = delete (aec_nonce c) issued) /\
  (forall err issued', admit_plan e now p op capability issued = (Err err, issued') -> issued' = issued).
Proof.
  intros Hr Hg Hm. unfold admit_plan. rewrite stm_bind_lift, Hr, Hg, Hm.
  destruct (check_fencing e now p) as [[]|err] eqn:Ef.
  - destruct (admit_member_cases e now p op capability b m issued)
      as [(c & -> & -> & Hma & ->)|(err & -> & Hno)].
    + split; [|done]. intros d issued'. split.
      * intros [= <- <-]. exists c. auto.
      * intros (c' & [= <-] & _ & _ & -> & ->). done.
    + split; [|by intros ? ? [= _ <-]]. intros d issued'. split; [done|].
      intros (c & -> & -> & Hma & _). by destruct (Hno c).
  - split; [|by intros ? ? [= _ <-]]. intros d issued'. split; [done|].
    intros (c & _ & _ & [Hf _ _ _ _] & _). congruence.
Qed.

(** *** Capabilities are used once *)

Inductive admission_op :=
  | D_issue (e : ExecutionAdmission) (nonce : string) (now : datetime) (bundle_id plan_id : string)
      (ttl : num)
  | D_admit (e : ExecutionAdmission) (now : datetime) (p : Plan) (op : AdmissionOperation)
      (capability : option AggregateExecutionCapability)
  | D_revalidate (e : ExecutionAdmission) (now : datetime) (p : Plan) (d : AdmissionDecision).

Definition admission_step (op : admission_op) (issued : issued_capabilities) : issued_capabilities :=
  match op with
  | D_issue e nonce now b p ttl => snd (issue_aggregate_capability e nonce now b p ttl issued)
  | D_admit e now p op c => snd (admit_plan e now p op c issued)
  | D_revalidate e now p d => snd (revalidate e now p d issued)
  end.
Definition admission_run (ops : list admission_op) (issued : issued_capabilities) : issued_capabilities :=
  fold_left (fun i op => admission_step op i) ops issued.

(** The call does not draw the nonce again. *)
Definition draws_other (nonce : string) (op : admission_op) : Prop :=
  match op with D_issue _ n _ _ _ _ => n <> nonce | _ => True end.

Lemma admit_shrinks e now p op capability issued nonce :
  issued !! nonce = None -> snd (admit_plan e now p op capability issued) !! nonce = None.
Proof.
  intros H. unfold admit_plan. rewrite stm_bind_lift. destruct (check_fencing e now p); [|done].
  destruct (ea_bundle_repository e) as [get_for_plan|].
  2: { rewrite stm_bind_lift. by destruct (verify_non_member_execution _ _ _ _ _). }
  destruct (get_for_plan _) as [b|].
  2: { rewrite stm_bind_lift. by destruct (verify_non_member_execution _ _ _ _ _). }
  destruct (member_of b _) as [m|].
  2: { rewrite stm_bind_lift. by destruct (verify_execution _ _ _ _ _). }
  destruct (admit_member_cases e now p op capability b m issued)
    as [(c & _ & _ & _ & ->)|(err & -> & _)]; [|done].
  simpl. rewrite lookup_delete_None. by right.
Qed.

Lemma revalidate_shrinks e now p d issued nonce :
  issued !! nonce = None -> snd (revalidate e now p d issued) !! nonce = None.
Proof.
  intros H. unfold revalidate. rewrite stm_bind_lift. destruct (raise_if _ _); [|done].
  destruct (ad_bundle_id d).
  - destruct (ea_bundle_repository e ≫= _) as [b|]; [|done].
    rewrite stm_bind_lift. destruct (raise_if _ _); [|done].
    rewrite stm_bind_lift. destruct (raise_if _ _); [|done].
    rewrite stm_bind_lift. destruct (verify_predecessors _ _ _); [|done]. done.
  - pose proof (admit_shrinks e now p AO_EXECUTE None issued nonce H) as Hs. revert Hs.
    unfold mbind, stm_bind. by destruct (admit_plan e now p AO_EXECUTE None issued) as [[|] i].
Qed.

Lemma issue_other e nonce' now b p ttl issued nonce :
  nonce' <> nonce -> issued !! nonce = None ->
  snd (issue_aggregate_capability e nonce' now b p ttl issued) !! nonce = None.
Proof.
  intros Hn H. unfold issue_aggregate_capability.
  destruct (ea_bundle_repository e) as [get_for_plan|]; [|done].
  destruct (get_for_plan p) as [bundle|]; [|done].
  rewrite stm_bind_lift. destruct (raise_if _ _); [|done].
  rewrite stm_bind_lift. destruct (raise_if _ _); [|done].
  rewrite stm_bind_lift. destruct (raise_if _ _); [|done].
  rewrite stm_bind_lift. destruct (timedelta_seconds ttl); [|done].
  rewrite stm_bind_lift. destruct (raise_if _ _); [|done].
  simpl. by rewrite lookup_insert_ne.
Qed.

Lemma admission_run_unissued ops issued nonce :
  Forall (draws_other nonce) ops -> issued !! nonce = None ->
  admission_run ops issued !! nonce = None.
Proof.
  intros Hf. revert issued. induction Hf as [|op ops Hop _ IH]; intros issued H; [done|].
  simpl. apply IH. destruct op; simpl in *;
    [by apply issue_other|by apply admit_shrinks|by apply revalidate_shrinks].
Qed.

(** An aggregate capability admits one execution: once a bundle member was
    admitted with it, then whatever is issued, admitted or revalidated
    afterwards - as long as its random nonce is not drawn a second time - no
    bundle member is admitted with it again, on any boundary, at any time and
    for any plan. *)
Theorem aggregate_capability_single_use e now p op c issued d i1 ops e' now' p' op' get' b' m' :
  admit_plan e now p op (Some c) issued = (Ok d, i1) -> opt_bool (ad_bundle_digest d) = true ->
  Forall (draws_other (aec_nonce c)) ops ->
  ea_bundle_repository e' = Some get' -> get' (pl_id p') = Some b' ->
  member_of b' (pl_id p') = Some m' ->
  let i2 := admission_run ops i1 in
  exists err, admit_plan e' now' p' op' (Some c) i2 = (Err err, i2).
Proof.
  intros H Hd Hops Hr' Hg' Hm' i2.
  assert (H1 : i1 !! aec_nonce c = None).
  { unfold admit_plan in H. rewrite stm_bind_lift in H. destruct (check_fencing e now p); [|done].
    destruct (ea_bundle_repository e) as [get|].
    2: { rewrite stm_bind_lift in H. destruct (verify_non_member_execution _ _ _ _ _); [|done].
         by injection H as <- <-. }
    destruct (get _) as [b|].
    2: { rewrite stm_bind_lift in H. destruct (verify_non_member_execution _ _ _ _ _); [|done].
         by injection H as <- <-. }
    destruct (member_of b _) as [m|].
    2: { rewrite stm_bind_lift in H. destruct (verify_execution _ _ _ _ _); [|done].
         by injection H as <- <-. }
    destruct (admit_member_cases e now p op (Some c) b m issued)
      as [(c' & [= <-] & _ & _ & E)|(err & E & _)]; rewrite H in E; [|done].
    injection E as _ ->. by rewrite lookup_delete_eq. }
  assert (H2 : i2 !! aec_nonce c = None) by by apply admission_run_unissued.
  unfold admit_plan. rewrite stm_bind_lift, Hr', Hg', Hm'.
  destruct (check_fencing e' now' p') as [[]|err] eqn:Ef; [|by exists err].
  destruct (admit_member_cases e' now' p' op' (Some c) b' m' i2)
    as [(c' & [= <-] & _ & Hma & _)|(err & -> & _)]; [|by exists err].
  destruct (Hma Ef) as [_ [Hi _ _ _ _ _] _ _ _]. congruence.
Qed.

(** No physical execution without the household's lease: where a fencing
    guard is configured, whatever is admitted, bundle member or not, was
    admitted with a guard that is not lost, for the household and tenant of
    its token, by a token the coordinator holds as current and unexpired; and
    a host whose household has since been taken over is refused with no
    change. *)
Theorem admission_requires_lease e now p op capability issued guard leases :
  ea_fencing_guard e = Some (guard, leases) ->
  (forall d issued', admit_plan e now p op capability issued = (Ok d, issued') ->
     fg_lost guard = false /\ validate_lease now (fg_token guard) leases = Ok tt /\
     ls_tenant_id (ft_scope (fg_token guard)) = au_tenant_id (pl_authority p) /\
     ls_household_id (ft_scope (fg_token guard)) = au_household_id (pl_authority p)) /\
  (lease_ok leases -> ft_epoch (fg_token guard) < current_epoch leases (ft_scope (fg_token guard)) ->
     exists err, admit_plan e now p op capability issued = (Err err, issued)).
Proof.
  intros Hg. unfold admit_plan. rewrite stm_bind_lift.
  assert (Hf : check_fencing e now p = Ok tt ->
    fg_lost guard = false /\ validate_lease now (fg_token guard) leases = Ok tt /\
    ls_tenant_id (ft_scope (fg_token guard)) = au_tenant_id (pl_authority p) /\
    ls_household_id (ft_scope (fg_token guard)) = au_household_id (pl_authority p)).
  { unfold check_fencing. rewrite Hg.
    destruct (assert_writable_for_authority now leases guard (pl_authority p)) as [t|err] eqn:Ea;
      [|by destruct err].
    intros _. unfold assert_writable_for_authority, assert_writable in Ea. ok_inv. destruct_ands.
    match goal with E : mkLeaseScope _ _ _ = _ |- _ => rewrite <- E; done end. }
  split.
  - intros d issued'. destruct (check_fencing e now p) as [[]|]; [|done]. intros _. by apply Hf.
  - intros Hok He. destruct (check_fencing e now p) as [[]|err] eqn:Ec; [|by exists err].
    exfalso. destruct (Hf eq_refl) as (_ & Hv & _).
    destruct (old_epoch_refused leases (fg_token guard) Hok He) as [m Hm].
    unfold validate_lease in Hv. by rewrite Hm in Hv.
Qed.
End Admission.

(** *** Witnesses: a bundle of two plans, the first one done *)

Definition example_evidence : ExecutionDependencyEvidence :=
  mkExecutionDependencyEvidence "b1" "plan-0" "plan-0" ["c0"] ES_CONFIRMED_SUCCESS [] 0 "o1"
    "sha256:json".
Definition example_first : BundleMemberCommit :=
  mkBundleMemberCommit "plan-0" "v0" None BM_EXECUTED (Some ES_CONFIRMED_SUCCESS) false None
    (Some example_evidence) None [] None.
Definition example_second : BundleMemberCommit :=
  mkBundleMemberCommit "plan-1" "v1" None BM_PENDING None false None None (Some "plan-0") ["plan-0"]
    None.
Definition example_bundle : BundleCommit :=
  mkBundleCommit default_authority "b1" "sha256:b1" "s1" BC_COMMITTING None
    [example_first; example_second] 0 0 None.
Definition example_repository (plan_id : string) : option BundleCommit :=
  if String.eqb plan_id "plan-1" then Some example_bundle else None.
Definition example_admission : ExecutionAdmission :=
  mkExecutionAdmission (Some example_repository) None None.
Definition example_member_plan : Plan := example_plan <| pl_status := PS_READY |>.
Definition example_aggregate : AggregateExecutionCapability :=
  mkAggregateExecutionCapability default_authority "b1" "plan-1" "sha256:b1" "n1" (seconds 60).
Definition example_issued_capabilities : issued_capabilities :=
  Eval vm_compute in
    snd (issue_aggregate_capability example_admission "n1" 0 "b1" "plan-1" (NInt 60) ∅).
Definition example_decision : AdmissionDecision :=
  mkAdmissionDecision "plan-1" (Some "b1") ["plan-0"] (Some "sha256:b1") (Some (seconds 60)).

Example example_admit :
  admit_plan (CJ := example_canonical) example_admission (seconds 1) example_member_plan AO_EXECUTE
    (Some example_aggregate) example_issued_capabilities = (Ok example_decision, ∅).
Proof. vm_compute. reflexivity. Qed.

Lemma bundle_member_admission_witness :
  Forall (predecessor_confirmed (CJ := example_canonical) example_bundle) ["plan-0"].
Proof.
  destruct (bundle_member_admission (CJ := example_canonical) example_admission (seconds 1)
    example_member_plan AO_EXECUTE (Some example_aggregate) example_issued_capabilities
    example_repository example_bundle example_second eq_refl eq_refl eq_refl) as [H _].
  destruct (proj1 (H example_decision ∅) ltac:(vm_compute; reflexivity))
    as (c & _ & _ & [_ _ _ Hp _] & _).
  exact Hp.
Defined.

Lemma aggregate_capability_single_use_witness :
  exists err, admit_plan (CJ := example_canonical) example_admission (seconds 2) example_member_plan
    AO_EXECUTE (Some example_aggregate) ∅ = (Err err, ∅).
Proof.
  exact (aggregate_capability_single_use (CJ := example_canonical) example_admission (seconds 1)
    example_member_plan AO_EXECUTE example_aggregate example_issued_capabilities example_decision ∅ []
    example_admission (seconds 2) example_member_plan AO_EXECUTE example_repository example_bundle
    example_second ltac:(vm_compute; reflexivity) eq_refl (Forall_nil_2 _) eq_refl eq_refl eq_refl).
Defined.

Definition example_fenced : ExecutionAdmission :=
  mkExecutionAdmission None None
    (Some (mkFencingGuard example_token false, snd example_taken)).

Lemma admission_requires_lease_witness :
  exists err, admit_plan (CJ := example_canonical) example_fenced (seconds 12) example_member_plan
    AO_EXECUTE None ∅ = (Err err, ∅).
Proof.
  exact (proj2 (admission_requires_lease (CJ := example_canonical) example_fenced (seconds 12)
    example_member_plan AO_EXECUTE None ∅ _ (snd example_taken) eq_refl) example_taken_ok
    ltac:(vm_compute; reflexivity)).
Defined.
