(* ===== verification/Preflight.v ===== *)
(** * The checks of an execution (application/executor.py)

    What the executor decides before and after it writes: the preconditions and
    the safety limits of a command, the preflight of a whole plan, whether a
    reading confirms a command, and the terminal status of a plan.  None of it
    suspends the task, so the plan service and the clock [now] stand still. *)

From S2P Require Import Prelude.
From S2P Require Import Values.
From S2P Require Import Models.
From S2P Require Import Policy.
From S2P Require Import Safety.
From S2P Require Import StateStore.
From S2P Require Import Freshness.
From S2P Require Import Registry.
From S2P Require Import Digests.
From S2P Require Import ApprovalStore.
From S2P Require Import PlanService.

(** ** Rendering a freshness decision (runtime/freshness.py) *)

(** [timedelta.total_seconds()]: both operands are exact below 2^53
    microseconds, 285 years. *)
Definition total_seconds (d : timedelta) : f64 := f64_div (f64_of_Z d) (f64_of_Z 1000000).

Section Preflight.
Context `{CJ : Canonical}.

(** [FreshnessDecision.details] *)
Definition decision_details (d : FreshnessDecision) : json :=
  match fd_snapshot d with
  | None => JObj [("reason_code", JStr (fd_reason_code d)); ("status", JNull)]
  | Some s => JObj
      [("reason_code", JStr (fd_reason_code d)); ("status", JStr (StateStatus_value (ss_status s)));
       ("observed_at", JStr (isoformat (ss_observed_at s) None));
       ("received_at", JStr (isoformat (ss_received_at s) None));
       ("age_seconds", json_of_opt (fun a => json_f64 (total_seconds a)) (fd_age d));
       ("source_revision", json_of_opt json_int (fd_source_revision d));
       ("source_ref", source_ref_dump (ss_source_ref s));
       ("stale_exception", JBool (fd_stale_exception d))]
  end.

Record PreconditionFailure := mkPreconditionFailure {
  pf_precondition : Precondition;
  pf_decision : FreshnessDecision
}.

Definition as_payload (f : PreconditionFailure) : json :=
  JObj (match precondition_dump (pf_precondition f) with JObj l => l | _ => [] end ++
        [("freshness", decision_details (pf_decision f))]).

(** ** Preconditions *)

Abbreviation projection := (gmap key StateSnapshot).

(** The evidence for a precondition: projected, else stored. *)
Definition evidence (s : PlanService) (projected : projection) (p : Precondition)
    : option StateSnapshot :=
  match projected !! (pre_device_id p, pre_capability p) with
  | Some snapshot => Some snapshot
  | None => get (ps_state_store s) (pre_device_id p) (pre_capability p)
  end.

Definition precondition_decision (max_age : timedelta) (s : PlanService) (now : datetime)
    (projected : projection) (decision : option PolicyDecision) (p : Precondition)
    : FreshnessDecision :=
  evaluate_freshness max_age now (evidence s projected p) p decision
    (Some (state_version (ps_state_store s) (pre_device_id p) (pre_capability p))).

(** [_failed_preconditions] *)
Definition failed_preconditions (max_age : timedelta) (s : PlanService) (now : datetime)
    (projected : projection) (decision : option PolicyDecision) (c : Command)
    : list PreconditionFailure :=
  flat_map (fun p =>
      let d := precondition_decision max_age s now projected decision p in
      if fd_satisfied d then [] else [mkPreconditionFailure p d])
    (cmd_preconditions c).

(** [_safety_violation] *)
Definition safety_violation (kernel : option SafetyKernel) (s : PlanService) (c : Command)
    (capability : option Capability) : option ErrorDetail :=
  match kernel, capability with
  | Some kernel, Some cap =>
      match get_device (ps_registry s) (cmd_device_id c) with
      | None => None
      | Some d =>
          (fun e => e <| er_device_id := Some (cmd_device_id c) |>) <$>
            check kernel (dev_type d) (cap_name cap) (cmd_value c)
      end
  | _, _ => None
  end.

(** [_projected_postcondition] *)
Definition projected_postcondition (c : Command) (capability : option Capability)
    : option (string * option scalar) :=
  match cmd_postconditions c with
  | p :: _ =>
      if negb (bool_decide (post_verification p = VERIFY_EQUALS)) then None
      else Some (post_capability p, post_expected p)
  | [] =>
      match capability with
      | None => None
      | Some cap =>
          let command := cmd_command c in
          let to v := Some (cap_name cap, Some v) in
          if String.eqb command "turn_on" then to (SBool true)
          else if String.eqb command "turn_off" then to (SBool false)
          else if String.eqb command "open" then to (SNum (NInt 100))
          else if String.eqb command "close" then to (SNum (NInt 0))
          else if String.prefix "set_" command && opt_bool (cmd_value c)
          then Some (cap_name cap, cmd_value c)
          else None
      end
  end.

(** ** [_preflight] *)

Record PreflightResult := mkPreflightResult {
  pr_command : Command;
  pr_before_state : option StateSnapshot;
  pr_error : option ErrorDetail
}.

Definition with_phase (phase : string) (e : ErrorDetail) : ErrorDetail :=
  e <| er_details := od_set "phase" (JStr phase) (er_details e) |>.

Definition count_message (n : nat) : message :=
  [Val (JNum (NInt (Z.of_nat n))); Lit " precondition(s) not satisfied"].

Section WithPlan.
Context (max_age : timedelta) (kernel : option SafetyKernel) (s : PlanService) (now : datetime).
Context (p : Plan).

Definition policy_decision_at (i : nat) : option PolicyDecision :=
  List.nth_error (pl_policy_decisions p) i.

Definition preflight_error (projected : projection) (i : nat) (v : CommandValidation)
    : option ErrorDetail :=
  let c := cv_command v in
  let failed := failed_preconditions max_age s now projected (policy_decision_at i) c in
  match cv_errors v with
  | e :: _ => Some (with_phase "plan_preflight" e)
  | [] =>
      if bool_decide (List.length failed <> 0%nat) then
        Some (mkErrorDetail PRECONDITION_FAILED (count_message (List.length failed)) None
                (Some (cmd_device_id c)) (cap_name <$> cv_capability v) true
                [("phase", JStr "plan_preflight");
                 ("preconditions", JList (map as_payload failed))])
      else with_phase "plan_preflight" <$> safety_violation kernel s c (cv_capability v)
  end.

Definition state_before (c : Command) (capability : option Capability) : option StateSnapshot :=
  capability ≫= fun cap => get (ps_state_store s) (cmd_device_id c) (cap_name cap).

Definition project (projected : projection) (v : CommandValidation) : projection :=
  let c := cv_command v in
  match projected_postcondition c (cv_capability v), state_before c (cv_capability v) with
  | Some (name, value), Some before =>
      <[(cmd_device_id c, name) := before <| ss_capability := name |> <| ss_value := value |>]>
        projected
  | _, _ => projected
  end.

Fixpoint preflight_results (projected : projection) (i : nat) (l : list Command)
    : result exn (list PreflightResult) :=
  match l with
  | [] => Ok []
  | c :: l =>
      validate_command_semantics s c ≫= fun v =>
      let r := mkPreflightResult (cv_command v) (state_before (cv_command v) (cv_capability v))
                 (preflight_error projected i v) in
      preflight_results (project projected v) (S i) l ≫= fun rs =>
      Ok (r :: rs)
  end.

(** [None]: nothing stands against the plan. *)
Definition preflight : result exn (option (list PreflightResult)) :=
  preflight_results ∅ 0 (pl_commands p) ≫= fun rs =>
  Ok (if existsb (fun r => opt_bool (pr_error r)) rs then Some rs else None).
End WithPlan.

(** [_preflight_outcomes] *)
Definition failed_command_ids (rs : list PreflightResult) : list string :=
  map (fun r => cmd_id (pr_command r)) (List.filter (fun r => opt_bool (pr_error r)) rs).

Definition preflight_outcomes (p : Plan) (now : datetime) (attempt : string)
    (rs : list PreflightResult) : list ExecutionOutcome :=
  map (fun r =>
      mkExecutionOutcome (pl_authority p) (pl_id p) (cmd_id (pr_command r)) attempt None ES_REJECTED
        None (pr_before_state r) None
        (Some (default
           (mkErrorDetail VALIDATION_ERROR
              (msg "Plan preflight rejected execution before any physical write") None None None
              false [("phase", JStr "plan_preflight");
                     ("blocked_by", json_strings (failed_command_ids rs))])
           (pr_error r)))
        now) rs.

(** ** Confirmation *)

Definition is_float_number (v : option scalar) : option num := v ≫= numeric.

(** [_postcondition_matches]; [float] of an [int] too large raises. *)
Definition postcondition_matches (c : Command) (capability_name : option string)
    (after before : option StateSnapshot) : result exn bool :=
  match after with
  | None => Ok false
  | Some a =>
      if negb (bool_decide (ss_status a = CURRENT)) then Ok false
      else
        match cmd_postconditions c with
        | p :: _ =>
            if negb (String.eqb (ss_capability a) (post_capability p)) then Ok false
            else
              match post_verification p with
              | VERIFY_UNCONFIRMED => Ok false
              | VERIFY_TOGGLE_TRANSITION => Ok
                  match before with
                  | None => false
                  | Some b =>
                      String.eqb (ss_capability b) (ss_capability a) &&
                      bool_decide (ss_status b = CURRENT) &&
                      negb (opt_scalar_eqb (ss_value b) (ss_value a))
                  end
              | VERIFY_MOTION_STOPPED => Ok (bool_decide (ss_value a = Some (SBool false)))
              | VERIFY_EQUALS =>
                  match post_tolerance p with
                  | None => Ok (opt_scalar_eqb (ss_value a) (post_expected p))
                  | Some tolerance =>
                      match is_float_number (ss_value a), is_float_number (post_expected p) with
                      | Some actual, Some expected =>
                          py_float actual ≫= fun actual =>
                          py_float expected ≫= fun expected =>
                          Ok (num_le (NFloat (f64_abs (f64_sub actual expected)))
                                (NFloat tolerance))
                      | _, _ => Ok false
                      end
                  end
              end
        | [] =>
            let equals e := Ok (opt_scalar_eqb (ss_value a) e) in
            let command := cmd_command c in
            if String.eqb command "turn_on" then equals (Some (SBool true))
            else if String.eqb command "turn_off" then equals (Some (SBool false))
            else if String.eqb command "open" then equals (Some (SNum (NInt 100)))
            else if String.eqb command "close" then equals (Some (SNum (NInt 0)))
            else if String.eqb command "stop" then Ok false
            else if String.prefix "set_" command then equals (cmd_value c)
            else Ok false
        end
  end.

(** [_terminal_plan_status] *)
Definition terminal_plan_status (outcomes : list ExecutionOutcome) : PlanStatus :=
  let statuses := map eo_status outcomes in
  if negb (bool_decide (statuses = [])) &&
     forallb (fun st => bool_decide (st = ES_CONFIRMED_SUCCESS)) statuses
  then PS_COMPLETED
  else if existsb (fun st => bool_decide (st ∈ [ES_UNKNOWN; ES_UNAVAILABLE])) statuses
  then PS_UNKNOWN
  else if bool_decide (ES_CONFIRMED_SUCCESS ∈ statuses) then PS_PARTIALLY_FAILED
  else PS_FAILED.
(** ** Properties *)

(** Normalising a command changes at most its unit. *)
Lemma semantics_normalizes s c v :
  validate_command_semantics s c = Ok v -> normalizes c (cv_command v).
Proof.
  assert (Hrefl : normalizes c c) by (exists (cmd_unit c); by destruct c).
  unfold validate_command_semantics. destruct (get_device _ _) as [d|]; [|by intros [= <-]].
  destruct (find_command_capability _ _) as [cap|]; [|by intros [= <-]].
  intros (errs & _ & [= <-])%result_bind_ok. simpl. destruct (_ && _); [by eexists|done].
Qed.

Lemma normalizes_fields c c' : normalizes c c' ->
  cmd_id c' = cmd_id c /\ cmd_device_id c' = cmd_device_id c /\ cmd_command c' = cmd_command c /\
  cmd_idempotency_key c' = cmd_idempotency_key c /\ cmd_preconditions c' = cmd_preconditions c /\
  cmd_postconditions c' = cmd_postconditions c /\ cmd_value c' = cmd_value c.
Proof. by intros [u ->]. Qed.

Lemma failed_preconditions_nil max_age s now projected decision c :
  failed_preconditions max_age s now projected decision c = [] <->
  Forall (fun q => fd_satisfied (precondition_decision max_age s now projected decision q) = true)
    (cmd_preconditions c).
Proof.
  unfold failed_preconditions. induction (cmd_preconditions c) as [|q l IH]; simpl; [by split|].
  rewrite Forall_cons, <- IH. destruct (fd_satisfied _); simpl; split.
  - intros H. by split.
  - by intros [_ H].
  - done.
  - by intros [H _].
Qed.

(** The command, and the rest of the plan after it, may be tried: it is a valid
    command of a known device, its preconditions hold in the state the earlier
    commands are expected to leave, and no hard limit forbids its value. *)
Fixpoint clears (max_age : timedelta) (kernel : option SafetyKernel) (s : PlanService)
    (now : datetime) (p : Plan) (projected : projection) (i : nat) (l : list Command) : Prop :=
  match l with
  | [] => True
  | c :: l =>
      exists v, validate_command_semantics s c = Ok v /\ cv_errors v = [] /\
        Forall (fun q => fd_satisfied (precondition_decision max_age s now projected
                           (policy_decision_at p i) q) = true) (cmd_preconditions c) /\
        safety_violation kernel s (cv_command v) (cv_capability v) = None /\
        clears max_age kernel s now p (project s projected v) (S i) l
  end.

Section PreflightSpec.
Context (max_age : timedelta) (kernel : option SafetyKernel) (s : PlanService) (now : datetime).
Context (p : Plan).

Lemma preflight_error_none projected i v :
  preflight_error max_age kernel s now p projected i v = None <->
  cv_errors v = [] /\
  Forall (fun q => fd_satisfied (precondition_decision max_age s now projected
                     (policy_decision_at p i) q) = true) (cmd_preconditions (cv_command v)) /\
  safety_violation kernel s (cv_command v) (cv_capability v) = None.
Proof.
  unfold preflight_error. rewrite <- failed_preconditions_nil.
  destruct (cv_errors v) as [|e es]; [|by split; [|intros []]].
  destruct (failed_preconditions _ _ _ _ _ _) as [|f fs]; simpl.
  - destruct (safety_violation _ _ _ _); simpl; split; [done|by intros (_ & _ & ?)|done|done].
  - by split; [|intros (_ & ? & _)].
Qed.

Lemma preflight_results_spec projected i l rs :
  preflight_results max_age kernel s now p projected i l = Ok rs ->
  map (fun r => cmd_id (pr_command r)) rs = map cmd_id l /\
  (existsb (fun r => opt_bool (pr_error r)) rs = false <->
   clears max_age kernel s now p projected i l).
Proof.
  revert projected i rs. induction l as [|c l IH]; intros projected i rs; simpl.
  { by intros [= <-]. }
  intros (v & Hv & (rs' & Hrs & [= <-])%result_bind_ok)%result_bind_ok.
  destruct (IH _ _ _ Hrs) as [Hids Hiff].
  destruct (normalizes_fields _ _ (semantics_normalizes _ _ _ Hv)) as (Hid & _ & _ & _ & Hpre & _).
  simpl. split; [by rewrite Hid, Hids|]. rewrite orb_false_iff, Hiff.
  pose proof (preflight_error_none projected i v) as He. rewrite Hpre in He.
  destruct (preflight_error _ _ _ _ _ _ _ _); simpl.
  - split; [by intros []|]. intros (v' & Hv' & ? & ? & ? & _).
    rewrite Hv in Hv'. injection Hv' as <-. discriminate (proj2 He ltac:(by split_and!)).
  - destruct (proj1 He eq_refl) as (? & ? & ?). split.
    + intros [_ ?]. by exists v.
    + intros (v' & Hv' & _ & _ & _ & ?). rewrite Hv in Hv'. by injection Hv' as <-.
Qed.

Lemma failed_command_ids_elem rs id :
  id ∈ failed_command_ids rs <->
  exists r, r ∈ rs /\ cmd_id (pr_command r) = id /\ pr_error r <> None.
Proof.
  unfold failed_command_ids. rewrite list_elem_of_In, in_map_iff. setoid_rewrite filter_In.
  setoid_rewrite <- list_elem_of_In. split.
  - intros (r & <- & Hr & He). exists r. by destruct (pr_error r).
  - intros (r & Hr & <- & He). exists r. by destruct (pr_error r).
Qed.

Lemma terminal_failed outcomes :
  Forall (fun o => eo_status o = ES_REJECTED) outcomes -> terminal_plan_status outcomes = PS_FAILED.
Proof.
  unfold terminal_plan_status. intros H.
  assert (map eo_status outcomes = replicate (List.length outcomes) ES_REJECTED) as ->.
  { induction H as [|o l Ho _ IH]; [done|]. simpl. by rewrite Ho, IH. }
  induction (List.length outcomes) as [|n IH]; [done|]. simpl in *.
  destruct (existsb _ _); [by destruct n|]. rewrite bool_decide_eq_false_2; [done|].
  rewrite elem_of_cons, elem_of_replicate. naive_solver.
Qed.

(** the preflight is all or nothing.  Nothing stands against a plan exactly
    when every command is valid, has its preconditions satisfied in the state
    the earlier commands are expected to leave, and passes the hard limits.
    Otherwise no command is tried: every command of the plan gets exactly one
    rejection, in order, carrying its own error or naming the commands that
    blocked it, at least one of which exists, and the plan ends FAILED. *)
Theorem preflight_all_or_nothing r :
  preflight max_age kernel s now p = Ok r ->
  (r = None <-> clears max_age kernel s now p ∅ 0 (pl_commands p)) /\
  forall rs attempt, r = Some rs ->
    let outcomes := preflight_outcomes p now attempt rs in
    map eo_command_id outcomes = map cmd_id (pl_commands p) /\
    Forall (fun o => eo_status o = ES_REJECTED /\ eo_error o <> None /\ eo_after_state o = None)
      outcomes /\
    failed_command_ids rs <> [] /\ terminal_plan_status outcomes = PS_FAILED.
Proof.
  unfold preflight. intros (rs & Hrs & [= <-])%result_bind_ok.
  destruct (preflight_results_spec _ _ _ _ Hrs) as [Hids Hiff]. rewrite <- Hiff.
  destruct (existsb _ rs) eqn:Ee; [|by split]. split; [by split|]. intros rs' attempt [= <-].
  assert (Hall : Forall (fun o => eo_status o = ES_REJECTED /\ eo_error o <> None /\
    eo_after_state o = None) (preflight_outcomes p now attempt rs)).
  { apply Forall_forall. intros o Ho. unfold preflight_outcomes in Ho.
    apply list_elem_of_fmap in Ho as (r & -> & _). done. }
  split_and!; [|done| |].
  - rewrite <- Hids. unfold preflight_outcomes. rewrite map_map. done.
  - apply existsb_exists in Ee as (r & Hr & He). intros Hnil.
    assert (cmd_id (pr_command r) ∈ failed_command_ids rs) as Hin.
    { apply failed_command_ids_elem. exists r. rewrite list_elem_of_In.
      split_and!; [done|done|]. by destruct (pr_error r). }
    rewrite Hnil in Hin. by apply elem_of_nil in Hin.
  - apply terminal_failed. eapply Forall_impl; [exact Hall|]. by intros o [].
Qed.
End PreflightSpec.
End Preflight.

(** ** Witnesses: the desk lamp, with and without the reading its command needs *)

Definition example_unconditional : Plan :=
  example_ready <| pl_commands :=
    [mkCommand "c1" "office.desk-lamp" "turn_on" None None [] SAFE "k1" None []] |>.
Definition example_rejections : list PreflightResult :=
  match preflight (CJ := example_canonical) (minutes 5) None example_service (minutes 1) example_ready with
  | Ok (Some rs) => rs
  | _ => []
  end.

Lemma preflight_all_or_nothing_witness :
  clears (minutes 5) None example_service (minutes 1) example_unconditional ∅ 0
    (pl_commands example_unconditional) /\
  failed_command_ids example_rejections = ["c1"] /\
  terminal_plan_status (preflight_outcomes example_ready (minutes 1) "a"
    example_rejections) = PS_FAILED.
Proof.
  split; [|split; [vm_compute; reflexivity|]].
  - destruct (preflight_all_or_nothing (CJ := example_canonical) (minutes 5) None example_service
      (minutes 1) example_unconditional None ltac:(vm_compute; reflexivity)) as [H _].
    exact (proj1 H eq_refl).
  - destruct (preflight_all_or_nothing (CJ := example_canonical) (minutes 5) None example_service
      (minutes 1) example_ready (Some example_rejections) ltac:(vm_compute; reflexivity)) as [_ H].
    refine (proj2 (proj2 (proj2 (H example_rejections "a" eq_refl)))).
Defined.
