(* ===== verification/Intents.v ===== *)
(** * The ledger of physical intents (domain/coordination.py, persistence/coordination.py)

    One row per household and idempotency key says who may write to the device
    and what became of it.  The table is what the database holds; the payload
    of a row is the intent its JSON text decodes to, the other columns are the
    projections the queries filter by.  A call runs inside [BEGIN IMMEDIATE];
    [settle] nevertheless guards its [UPDATE] by the row it read and tries
    again when it lost, and [races n] is what other transactions did between
    the [n]-th read and its update. *)

From S2P Require Import Prelude.
From S2P Require Import Values.
From S2P Require Import Models.
From S2P Require Import StateStore.
From S2P Require Import Coordination.

Inductive PhysicalIntentStatus :=
  | PI_PREPARED | PI_DISPATCHING | PI_ACKNOWLEDGED | PI_CONFIRMED | PI_REJECTED | PI_UNKNOWN.
#[global] Instance PhysicalIntentStatus_eq_dec : EqDecision PhysicalIntentStatus.
Proof. solve_decision. Defined.

Record PhysicalIntent := mkPhysicalIntent {
  pi_tenant_id : string;
  pi_household_id : string;
  pi_deployment_id : string;
  pi_idempotency_key : string;
  pi_plan_id : string;
  pi_command_id : string;
  pi_fencing_epoch : Z;
  pi_status : PhysicalIntentStatus;
  pi_owner_id : option string;
  pi_execution_attempt_id : option string;
  pi_lease_id : option string;
  pi_created_at : datetime;
  pi_updated_at : datetime
}.
#[global] Instance PhysicalIntent_eta : Eta PhysicalIntent := fun r =>
  mkPhysicalIntent (pi_tenant_id r) (pi_household_id r) (pi_deployment_id r)
    (pi_idempotency_key r) (pi_plan_id r) (pi_command_id r) (pi_fencing_epoch r) (pi_status r)
    (pi_owner_id r) (pi_execution_attempt_id r) (pi_lease_id r) (pi_created_at r)
    (pi_updated_at r).
#[global] Instance PhysicalIntent_eq_dec : EqDecision PhysicalIntent.
Proof. solve_decision. Defined.

Definition opt_id_bounded (o : option string) : bool :=
  match o with Some s => id_bounded s | None => true end.

(** [PhysicalIntent.model_validate]: the field constraints, then
    [require_dispatch_identity]. *)
Definition validate_intent (i : PhysicalIntent) : result exn unit :=
  raise_if (negb (forallb id_bounded [pi_tenant_id i; pi_household_id i; pi_deployment_id i;
                    pi_plan_id i; pi_command_id i] &&
                  negb (is_empty (pi_idempotency_key i)) &&
                  Nat.leb (String.length (pi_idempotency_key i)) 256 &&
                  (0 <? pi_fencing_epoch i) &&
                  forallb opt_id_bounded [pi_owner_id i; pi_execution_attempt_id i; pi_lease_id i]))
    (ValueError "physical intent field out of bounds") ≫= fun _ =>
  raise_if (bool_decide (pi_status i = PI_DISPATCHING) &&
            (negb (opt_bool (pi_owner_id i)) || negb (opt_bool (pi_execution_attempt_id i))))
    (ValueError "dispatching physical intents require owner and execution attempt").

Inductive PhysicalIntentClaimDecision := CL_ACQUIRED | CL_REPLAY | CL_IN_FLIGHT | CL_CONFLICT.
#[global] Instance PhysicalIntentClaimDecision_eq_dec : EqDecision PhysicalIntentClaimDecision.
Proof. solve_decision. Defined.

Record PhysicalIntentClaim := mkPhysicalIntentClaim {
  cl_decision : PhysicalIntentClaimDecision;
  cl_intent : PhysicalIntent
}.

(** [_SETTLEMENT_TRANSITIONS] *)
Definition settlement_transitions (s : PhysicalIntentStatus) : list PhysicalIntentStatus :=
  match s with
  | PI_DISPATCHING => [PI_ACKNOWLEDGED; PI_CONFIRMED; PI_REJECTED; PI_UNKNOWN]
  | PI_ACKNOWLEDGED => [PI_CONFIRMED; PI_REJECTED; PI_UNKNOWN]
  | _ => []
  end.

(** ** The table *)

Record intent_row := mkIntentRow {
  ir_payload : PhysicalIntent;
  ir_status : PhysicalIntentStatus;
  ir_fencing_epoch : Z;
  ir_owner_id : option string;
  ir_execution_attempt_id : option string;
  ir_created_at : datetime;
  ir_updated_at : datetime
}.
#[global] Instance intent_row_eq_dec : EqDecision intent_row.
Proof. solve_decision. Defined.

(** (household_id, idempotency_key) *)
Abbreviation intents := (gmap key intent_row).
Definition intent_key (i : PhysicalIntent) : key := (pi_household_id i, pi_idempotency_key i).

Definition row_of (i : PhysicalIntent) : intent_row :=
  mkIntentRow i (pi_status i) (pi_fencing_epoch i) (pi_owner_id i) (pi_execution_attempt_id i)
    (pi_created_at i) (pi_updated_at i).

Definition inconsistent : exn :=
  ValueError "physical intent projection is inconsistent with payload".

(** [_read_consistent] *)
Definition read_consistent (row : intent_row) (k : key) : result exn PhysicalIntent :=
  let current := ir_payload row in
  validate_intent current ≫= fun _ =>
  raise_if (negb (bool_decide (row = row_of current)) || negb (bool_decide (intent_key current = k)))
    inconsistent ≫= fun _ => Ok current.

(** [_same_logical_identity] *)
Definition same_logical_identity (a b : PhysicalIntent) : bool :=
  bool_decide ((pi_tenant_id a, pi_household_id a, pi_deployment_id a, pi_idempotency_key a,
                pi_plan_id a, pi_command_id a) =
               (pi_tenant_id b, pi_household_id b, pi_deployment_id b, pi_idempotency_key b,
                pi_plan_id b, pi_command_id b)).

(** [claim_for_dispatch] *)
Definition claim_for_dispatch (i : PhysicalIntent) : stm intents exn PhysicalIntentClaim :=
  let dispatching := i <| pi_status := PI_DISPATCHING |> in
  lift (validate_intent dispatching) ≫= fun _ =>
  t ← get_st;
  match t !! intent_key i with
  | None =>
      put_st (<[intent_key i := row_of dispatching]> t) ≫= fun _ =>
      mret (mkPhysicalIntentClaim CL_ACQUIRED dispatching)
  | Some row =>
      stored ← lift (read_consistent row (intent_key i));
      mret (mkPhysicalIntentClaim
        (if negb (same_logical_identity stored i) then CL_CONFLICT
         else if bool_decide (pi_status stored ∈ [PI_ACKNOWLEDGED; PI_CONFIRMED; PI_REJECTED])
         then CL_REPLAY
         else CL_IN_FLIGHT) stored)
  end.

(** The holder of a claim: what [settle] compares besides the identity. *)
Definition same_holder (a b : PhysicalIntent) : bool :=
  bool_decide ((pi_owner_id a, pi_execution_attempt_id a, pi_fencing_epoch a, pi_lease_id a) =
               (pi_owner_id b, pi_execution_attempt_id b, pi_fencing_epoch b, pi_lease_id b)).

Definition settleable (current i : PhysicalIntent) (status : PhysicalIntentStatus) : bool :=
  bool_decide (status ∈ settlement_transitions (pi_status current)) &&
  same_logical_identity current i && same_holder current i.

(** The [WHERE] of the [UPDATE]; in SQL a NULL equals nothing. *)
Definition row_unchanged (seen : intent_row) (now_ : option intent_row) : bool :=
  bool_decide (now_ = Some seen) && opt_bool (ir_owner_id seen) &&
  opt_bool (ir_execution_attempt_id seen).

Section Settle.
Context (clock : nat -> datetime) (races : nat -> intents -> intents).
Context (i : PhysicalIntent) (status : PhysicalIntentStatus).

(** The [while True] of [settle]; [None] when the fuel runs out. *)
Fixpoint settle_loop (fuel n : nat) (attempted : list PhysicalIntentStatus) (t : intents)
    : option (result exn PhysicalIntent * intents) :=
  match fuel with
  | O => None
  | S fuel =>
      match t !! intent_key i with
      | None => Some (Err KeyError, t)
      | Some row =>
          match read_consistent row (intent_key i) with
          | Err e => Some (Err e, t)
          | Ok current =>
              if negb (settleable current i status) then Some (Ok current, t)
              else if bool_decide (pi_status current ∈ attempted) then
                Some (Err (ValueError "physical intent changed without settlement progress"), t)
              else
                let updated :=
                  current <| pi_status := status |> <| pi_updated_at := clock n |> in
                let t := races n t in
                if row_unchanged row (t !! intent_key i)
                then Some (Ok updated, <[intent_key i :=
                       mkIntentRow updated (pi_status updated) (ir_fencing_epoch row)
                         (ir_owner_id row) (ir_execution_attempt_id row) (ir_created_at row)
                         (pi_updated_at updated)]> t)
                else settle_loop fuel (S n) (pi_status current :: attempted) t
          end
      end
  end.

(** Two statuses admit a settlement, so the third pass is the last. *)
Definition settle_fuel : nat := 3.
End Settle.

(** [settle]; [settle_loop_fuel] shows that the fuel is enough. *)
Definition settle (clock : nat -> datetime) (races : nat -> intents -> intents)
    (i : PhysicalIntent) (status : PhysicalIntentStatus) : stm intents exn PhysicalIntent :=
  fun t => default (Err AssertionError, t) (settle_loop clock races i status settle_fuel 0 [] t).

(** ** [recover_inflight] *)

Definition recoverable (s : PhysicalIntentStatus) : bool :=
  bool_decide (s ∈ [PI_PREPARED; PI_DISPATCHING; PI_ACKNOWLEDGED]).

Definition recover_row (now : datetime) (deployment_id : option string) (epoch : option Z)
    (k : key) (row : intent_row) : intent_row :=
  let selected :=
    recoverable (ir_status row) &&
    match deployment_id with
    | Some d => String.eqb (pi_deployment_id (ir_payload row)) d
    | None => true
    end &&
    match epoch with Some e => ir_fencing_epoch row <? e | None => true end in
  if negb selected then row
  else
    match read_consistent row k with
    | Err _ => row
    | Ok current =>
        let intent := current <| pi_status := PI_UNKNOWN |> <| pi_updated_at := now |> in
        mkIntentRow intent PI_UNKNOWN (ir_fencing_epoch row) (ir_owner_id row)
          (ir_execution_attempt_id row) (ir_created_at row) (pi_updated_at intent)
    end.

Definition recover_inflight (now : datetime) (deployment_id : option string) (epoch : option Z)
    : stm intents exn Z :=
  lift (raise_if (match epoch with Some e => e <=? 0 | None => false end)
    (ValueError "fencing_epoch must be positive")) ≫= fun _ =>
  t ← get_st;
  let t' := map_imap (fun k row => Some (recover_row now deployment_id epoch k row)) t in
  put_st t' ≫= fun _ =>
  mret (Z.of_nat (size (filter (fun '(k, row) => t' !! k <> Some row) t))).

Definition get_intent (t : intents) (household key_ : string) : result exn (option PhysicalIntent) :=
  match t !! (household, key_) with
  | None => Ok None
  | Some row => Some <$> read_consistent row (household, key_)
  end.

Definition count_intents (t : intents) : Z := Z.of_nat (size t).

(** ** Histories *)

Inductive basic_op :=
  | B_claim (i : PhysicalIntent)
  | B_settle (now : datetime) (i : PhysicalIntent) (status : PhysicalIntentStatus)
  | B_recover (now : datetime) (deployment_id : option string) (epoch : option Z).

Definition basic_step (t : intents) (op : basic_op) : intents :=
  match op with
  | B_claim i => snd (claim_for_dispatch i t)
  | B_settle now i status => snd (settle (fun _ => now) (fun _ t => t) i status t)
  | B_recover now d e => snd (recover_inflight now d e t)
  end.
Definition run_basic (ops : list basic_op) (t : intents) : intents := fold_left basic_step ops t.

(** Any calls of any hosts, a [settle] with whatever others do meanwhile. *)
Inductive intent_op :=
  | I_basic (op : basic_op)
  | I_settle (clock : nat -> datetime) (races : nat -> list basic_op) (i : PhysicalIntent)
      (status : PhysicalIntentStatus).

Definition intent_step (t : intents) (op : intent_op) : intents :=
  match op with
  | I_basic op => basic_step t op
  | I_settle clock races i status =>
      snd (settle clock (fun n => run_basic (races n)) i status t)
  end.
Definition run_intents (ops : list intent_op) (t : intents) : intents :=
  fold_left intent_step ops t.

(** ** Invariant and progress *)

Definition row_consistent (k : key) (row : intent_row) : Prop :=
  row = row_of (ir_payload row) /\ intent_key (ir_payload row) = k /\
  validate_intent (ir_payload row) = Ok tt.
Definition owned (i : PhysicalIntent) : bool :=
  opt_bool (pi_owner_id i) && opt_bool (pi_execution_attempt_id i).
Definition row_wf (k : key) (row : intent_row) : Prop :=
  row_consistent k row /\ owned (ir_payload row) = true.
Definition table_wf (t : intents) : Prop := map_Forall row_wf t.

(** A status advances by a settlement or by recovery. *)
Definition status_lt (a b : PhysicalIntentStatus) : bool :=
  bool_decide (b ∈ settlement_transitions a) || (recoverable a && bool_decide (b = PI_UNKNOWN)).

(** [b] is [a], or [a] advanced by a settlement of its holder or by recovery;
    nothing else about an intent ever changes. *)
Definition intent_le (a b : PhysicalIntent) : Prop :=
  a = b \/ (same_logical_identity a b = true /\ same_holder a b = true /\
            pi_created_at a = pi_created_at b /\ status_lt (pi_status a) (pi_status b) = true).

Definition row_le (a b : intent_row) : Prop := intent_le (ir_payload a) (ir_payload b).
Abbreviation evolves := (Prelude.evolves row_le).

Lemma status_lt_trans a b c :
  status_lt a b = true -> status_lt b c = true -> status_lt a c = true.
Proof. by destruct a, b, c. Qed.

Lemma same_logical_identity_trans a b c :
  same_logical_identity a b = true -> same_logical_identity b c = true ->
  same_logical_identity a c = true.
Proof.
  unfold same_logical_identity. rewrite !bool_decide_eq_true. congruence.
Qed.

Lemma same_holder_trans a b c :
  same_holder a b = true -> same_holder b c = true -> same_holder a c = true.
Proof. unfold same_holder. rewrite !bool_decide_eq_true. congruence. Qed.

#[export] Instance intent_le_preorder : PreOrder intent_le.
Proof.
  split; [by left|]. intros a b c [->|(H1 & H2 & H3 & H4)]; [done|].
  intros [<-|(K1 & K2 & K3 & K4)]; right; [done|].
  split_and!; [by eapply same_logical_identity_trans|by eapply same_holder_trans|congruence|].
  by eapply status_lt_trans.
Qed.

#[export] Instance row_le_preorder : PreOrder row_le.
Proof. split; unfold row_le; [by intros a|intros a b c; by etransitivity]. Qed.

(** A call that preserves the invariant and only advances the table. *)
Definition advances (f : intents -> intents) : Prop :=
  forall t, table_wf t -> table_wf (f t) /\ evolves t (f t).

Lemma advances_id : advances (fun t => t).
Proof. by intros t H. Qed.

Lemma advances_fold {O} (step : intents -> O -> intents) ops :
  (forall op, advances (fun t => step t op)) -> advances (fun t => fold_left step ops t).
Proof.
  intros H. induction ops as [|op ops IH]; simpl; [apply advances_id|].
  intros t Ht. destruct (H op t Ht) as [H1 E1]. destruct (IH _ H1) as [H2 E2].
  split; [done|]. by etransitivity.
Qed.

Lemma read_consistent_ok row k r :
  read_consistent row k = Ok r <-> row_consistent k row /\ r = ir_payload row.
Proof.
  unfold read_consistent, row_consistent. split.
  - intros H. ok_inv. destruct_ands. done.
  - intros [(H1 & H2 & H3) ->]. rewrite H3. simpl.
    rewrite (bool_decide_eq_true_2 _ H1), (bool_decide_eq_true_2 _ H2). done.
Qed.

Lemma read_wf t k row : table_wf t -> t !! k = Some row ->
  read_consistent row k = Ok (ir_payload row).
Proof. intros H Hk. apply read_consistent_ok. split; [by apply H|done]. Qed.

Lemma wf_insert t i :
  table_wf t -> validate_intent i = Ok tt -> owned i = true ->
  table_wf (<[intent_key i := row_of i]> t).
Proof. intros Ht Hi Ho. by apply map_Forall_insert_2. Qed.

Lemma validate_dispatching i :
  validate_intent i = Ok tt -> pi_status i = PI_DISPATCHING -> owned i = true.
Proof.
  unfold validate_intent, owned. intros H Hs. ok_inv. rewrite Hs in *. simpl in *.
  by destruct (pi_owner_id i), (pi_execution_attempt_id i).
Qed.

Lemma intent_le_same_status s a :
  status_lt (pi_status a) s = true ->
  forall now, intent_le a (a <| pi_status := s |> <| pi_updated_at := now |>).
Proof.
  intros Hs now. right. unfold same_logical_identity, same_holder.
  by rewrite !bool_decide_eq_true.
Qed.

(** Validity does not depend on the status, once dispatching was valid. *)
Lemma validate_intent_status i s now :
  validate_intent i = Ok tt -> s <> PI_DISPATCHING ->
  validate_intent (i <| pi_status := s |> <| pi_updated_at := now |>) = Ok tt.
Proof.
  unfold validate_intent. intros H Hs. ok_inv. simpl in *.
  rewrite (bool_decide_eq_false_2 _ Hs). simpl. by destruct (negb _).
Qed.

Lemma claim_advances i : advances (fun t => snd (claim_for_dispatch i t)).
Proof.
  intros t Ht. unfold claim_for_dispatch. rewrite stm_bind_lift.
  destruct (validate_intent _) as [[]|e] eqn:Hv; [|done]. rewrite stm_bind_get.
  destruct (t !! intent_key i) as [row|] eqn:Hk.
  - rewrite (read_wf _ _ _ Ht Hk). done.
  - simpl. split; [apply (wf_insert t _ Ht Hv), (validate_dispatching _ Hv eq_refl)|].
    by apply evolves_new; [apply _|].
Qed.

Lemma recover_row_wf now d e k row : row_wf k row -> 
  row_wf k (recover_row now d e k row) /\
  intent_le (ir_payload row) (ir_payload (recover_row now d e k row)).
Proof.
  intros Hw. unfold recover_row.
  destruct (recoverable (ir_status row)) eqn:Er; simpl; [|done].
  destruct (negb _); [done|]. rewrite (proj2 (read_consistent_ok row k _) (conj (proj1 Hw) eq_refl)).
  destruct Hw as [(Hr & Hk & Hv) Ho]. split.
  - split; [|done]. split_and!; [by rewrite Hr|done|]. by apply validate_intent_status.
  - apply intent_le_same_status. rewrite Hr in Er. simpl in Er. unfold status_lt.
    by rewrite Er, orb_true_r.
Qed.

Lemma recover_advances now d e : advances (fun t => snd (recover_inflight now d e t)).
Proof.
  intros t Ht. unfold recover_inflight. rewrite stm_bind_lift.
  destruct (raise_if _ _); [|done]. rewrite stm_bind_get. simpl. split.
  - intros k row. rewrite map_lookup_imap. destruct (t !! k) as [r|] eqn:Hk; [|done].
    intros [= <-]. by apply recover_row_wf, Ht.
  - intros k row Hk. exists (recover_row now d e k row). rewrite map_lookup_imap, Hk.
    split; [done|]. by apply recover_row_wf, Ht.
Qed.

(** ** [settle] *)

Lemma settleable_open current i s :
  settleable current i s = true ->
  pi_status current ∈ [PI_DISPATCHING; PI_ACKNOWLEDGED] /\ s <> PI_DISPATCHING /\
  status_lt (pi_status current) s = true.
Proof.
  unfold settleable. intros [[H _]%andb_true_iff _]%andb_true_iff.
  rewrite <- (bool_decide_eq_true (_ ∈ _)). revert H.
  by destruct (pi_status current), s.
Qed.

(** Whatever the other transactions do, three passes are enough. *)
Lemma settle_loop_fuel clock races i s fuel n attempted t :
  NoDup attempted -> attempted ⊆ [PI_DISPATCHING; PI_ACKNOWLEDGED] ->
  (settle_fuel <= fuel + List.length attempted)%nat ->
  is_Some (settle_loop clock races i s fuel n attempted t).
Proof.
  revert n attempted t. induction fuel as [|fuel IH]; intros n attempted t Hnd Hsub Hf.
  { exfalso. apply NoDup_submseteq in Hsub; [|done]. apply submseteq_length in Hsub.
    unfold settle_fuel in Hf. simpl in *. lia. }
  simpl. destruct (t !! intent_key i) as [row|]; [|by eexists].
  destruct (read_consistent row (intent_key i)) as [current|]; [|by eexists].
  destruct (settleable current i s) eqn:Es; simpl; [|by eexists].
  case_bool_decide as Ha; [by eexists|].
  destruct (row_unchanged _ _); [by eexists|].
  apply settleable_open in Es as [Es _].
  apply IH; [by constructor| |simpl; lia].
  intros x [->|?]%elem_of_cons; auto.
Qed.

Lemma row_wf_payload k row row' :
  row_wf k row -> row_wf k row' -> ir_payload row = ir_payload row' -> row = row'.
Proof. intros [(-> & _) _] [(-> & _) _] H. simpl in H. by rewrite H. Qed.

Section SettleSound.
Context (clock : nat -> datetime) (races : nat -> intents -> intents).
Context (Hraces : forall n, advances (races n)).

(** Between advancing transactions a [settle] never fails: it installs the
    status, or finds the intent closed to it. *)
Lemma settle_loop_sound i s fuel n attempted t row r :
  table_wf t -> t !! intent_key i = Some row ->
  Forall (fun a => status_lt a (ir_status row) = true) attempted ->
  settle_loop clock races i s fuel n attempted t = Some r ->
  exists x t', r = (Ok x, t') /\ table_wf t' /\ evolves t t' /\
    t' !! intent_key i = Some (row_of x) /\
    (pi_status x = s \/ settleable x i s = false).
Proof.
  revert n attempted t row. induction fuel as [|fuel IH]; intros n attempted t row Ht Hk Ha; [done|].
  simpl. rewrite Hk, (read_wf _ _ _ Ht Hk). destruct (Ht _ _ Hk) as [(Hr & Hkey & Hv) Ho].
  destruct (settleable (ir_payload row) i s) eqn:Es; simpl.
  2:{ intros [= <-]. exists (ir_payload row), t. rewrite Hk, <- Hr. split_and!; try done. by right. }
  pose proof (settleable_open _ _ _ Es) as (Hopen & Hs & Hlt).
  assert (Hir : ir_status row = pi_status (ir_payload row)) by (by rewrite Hr).
  rewrite bool_decide_eq_false_2.
  2:{ rewrite Forall_forall in Ha. intros Hin%Ha. rewrite Hir in Hin.
      by destruct (pi_status (ir_payload row)). }
  destruct (Hraces n t Ht) as [Ht' He]. destruct (He _ _ Hk) as (row' & Hk' & Hle).
  destruct (row_unchanged row (races n t !! intent_key i)) eqn:Eu.
  - intros [= <-]. unfold row_unchanged in Eu. destruct_ands.
    set (x := (ir_payload row) <| pi_status := s |> <| pi_updated_at := clock n |>).
    assert (Hx : mkIntentRow x (pi_status x) (ir_fencing_epoch row) (ir_owner_id row)
                   (ir_execution_attempt_id row) (ir_created_at row) (pi_updated_at x) = row_of x)
      by (by rewrite Hr).
    exists x, (<[intent_key i := row_of x]> (races n t)).
    assert (Hkx : intent_key x = intent_key i) by done.
    split_and!; [f_equal; f_equal; exact Hx| | |by rewrite lookup_insert_eq|by left].
    + rewrite <- Hkx. apply wf_insert; [done|by apply validate_intent_status|done].
    + etransitivity; [exact He|]. eapply evolves_insert; [apply _|done|]. by apply intent_le_same_status.
  - intros Hrest.
    assert (Hadv : status_lt (pi_status (ir_payload row)) (ir_status row') = true).
    { destruct (Ht' _ _ Hk') as [(Hr' & _) _]. destruct Hle as [Heq|(_ & _ & _ & Hl)].
      - exfalso. pose proof (row_wf_payload _ _ _ (Ht _ _ Hk) (Ht' _ _ Hk') Heq) as <-.
        unfold row_unchanged in Eu. rewrite Hk', bool_decide_eq_true_2 in Eu by done.
        rewrite Hr in Eu. unfold owned in Ho. apply andb_true_iff in Ho as [Ho1 Ho2].
        simpl in Eu. by rewrite Ho1, Ho2 in Eu.
      - by rewrite Hr'. }
    destruct (IH (S n) (pi_status (ir_payload row) :: attempted) _ row' Ht' Hk') as
      (x & t' & ? & ? & ? & ? & ?); [|exact Hrest|].
    + constructor; [done|]. eapply Forall_impl; [exact Ha|]. intros a Hal. simpl in Hal.
      rewrite Hir in Hal. by eapply status_lt_trans.
    + exists x, t'. split_and!; try done. by etransitivity.
Qed.
End SettleSound.

Lemma settle_runs clock races i s t :
  settle_loop clock races i s settle_fuel 0 [] t = Some (settle clock races i s t).
Proof.
  unfold settle. assert (is_Some (settle_loop clock races i s settle_fuel 0 [] t)) as [r ->]; [|done].
  apply settle_loop_fuel; [by apply NoDup_nil_2|by apply list_subseteq_nil|simpl List.length; lia].
Qed.

Lemma settle_missing clock races i s t :
  t !! intent_key i = None -> settle clock races i s t = (Err KeyError, t).
Proof. intros Hk. unfold settle. simpl. by rewrite Hk. Qed.

Lemma settle_advances clock races i s :
  (forall n, advances (races n)) -> advances (fun t => snd (settle clock races i s t)).
Proof.
  intros Hr t Ht. destruct (t !! intent_key i) as [row|] eqn:Hk.
  - destruct (settle_loop_sound clock races Hr i s _ _ _ _ _ _ Ht Hk (Forall_nil_2 _)
      (settle_runs clock races i s t)) as (x & t' & -> & ? & ? & _). done.
  - by rewrite settle_missing.
Qed.

Lemma run_basic_advances ops : advances (run_basic ops).
Proof.
  apply advances_fold. intros [i|now i s|now d e]; simpl;
    [apply claim_advances|apply settle_advances; intros; apply advances_id|apply recover_advances].
Qed.

Lemma run_intents_advances ops : advances (run_intents ops).
Proof.
  apply advances_fold. intros [op|clock races i s]; simpl.
  - apply (run_basic_advances [op]).
  - apply settle_advances. intros n. apply run_basic_advances.
Qed.

Lemma claim_taken t i row :
  table_wf t -> t !! intent_key i = Some row ->
  validate_intent (i <| pi_status := PI_DISPATCHING |>) = Ok tt ->
  claim_for_dispatch i t =
    (Ok (mkPhysicalIntentClaim
       (if negb (same_logical_identity (ir_payload row) i) then CL_CONFLICT
        else if bool_decide (pi_status (ir_payload row) ∈ [PI_ACKNOWLEDGED; PI_CONFIRMED; PI_REJECTED])
        then CL_REPLAY else CL_IN_FLIGHT) (ir_payload row)), t).
Proof.
  intros Ht Hk Hv. unfold claim_for_dispatch. rewrite stm_bind_lift, Hv, stm_bind_get, Hk.
  by rewrite stm_bind_lift, (read_wf _ _ _ Ht Hk).
Qed.

Lemma claim_acquires t i c t' :
  table_wf t -> claim_for_dispatch i t = (Ok c, t') -> cl_decision c = CL_ACQUIRED ->
  t !! intent_key i = None /\ cl_intent c = i <| pi_status := PI_DISPATCHING |> /\
  t' = <[intent_key i := row_of (cl_intent c)]> t.
Proof.
  intros Ht. unfold claim_for_dispatch. rewrite stm_bind_lift.
  destruct (validate_intent _) as [[]|]; [|done]. rewrite stm_bind_get.
  destruct (t !! intent_key i) as [row|] eqn:Hk; [|by intros [= <- <-]].
  rewrite stm_bind_lift, (read_wf _ _ _ Ht Hk). intros [= <- <-]. simpl.
  destruct (negb _); [done|]. by case_bool_decide.
Qed.

Lemma claim_replays t i c t' :
  table_wf t -> claim_for_dispatch i t = (Ok c, t') -> cl_decision c = CL_REPLAY ->
  pi_status (cl_intent c) ∈ [PI_ACKNOWLEDGED; PI_CONFIRMED; PI_REJECTED].
Proof.
  intros Ht. unfold claim_for_dispatch. rewrite stm_bind_lift.
  destruct (validate_intent _) as [[]|]; [|done]. rewrite stm_bind_get.
  destruct (t !! intent_key i) as [row|] eqn:Hk; [|by intros [= <- <-]].
  rewrite stm_bind_lift, (read_wf _ _ _ Ht Hk). intros [= <- <-]. simpl.
  destruct (negb _); [done|]. by case_bool_decide.
Qed.

(** ** Properties *)

(** at most one claim of a household's idempotency key is ever granted.
    Once a host acquired it, no later claim of any host is granted, whatever
    claims, settlements (contended or not) and recoveries happen in between:
    another command is told of the conflict, the same command that it is still
    in flight or already has an answer, and the claim changes nothing.  The
    stored intent is the acquired one, advanced by settlements of its own
    holder or by recovery only. *)
Theorem intent_acquired_once t i c t1 ops j :
  table_wf t -> claim_for_dispatch i t = (Ok c, t1) -> cl_decision c = CL_ACQUIRED ->
  intent_key j = intent_key i ->
  validate_intent (j <| pi_status := PI_DISPATCHING |>) = Ok tt ->
  let t2 := run_intents ops t1 in
  exists stored, claim_for_dispatch j t2 =
      (Ok (mkPhysicalIntentClaim
         (if negb (same_logical_identity stored j) then CL_CONFLICT
          else if bool_decide (pi_status stored ∈ [PI_ACKNOWLEDGED; PI_CONFIRMED; PI_REJECTED])
          then CL_REPLAY else CL_IN_FLIGHT) stored), t2) /\
    intent_le (cl_intent c) stored.
Proof.
  intros Ht Hc Hd Hj Hv t2.
  destruct (claim_acquires _ _ _ _ Ht Hc Hd) as (_ & _ & Et).
  pose proof (claim_advances i t Ht) as [Ht1 _]. rewrite Hc in Ht1. simpl in Ht1.
  destruct (run_intents_advances ops t1 Ht1) as [Ht2 He].
  destruct (He (intent_key i) (row_of (cl_intent c))) as (row & Hk & Hle).
  { by rewrite Et, lookup_insert_eq. }
  exists (ir_payload row). split; [|done]. apply claim_taken; [done|by rewrite Hj|done].
Qed.

Definition example_intent : PhysicalIntent :=
  mkPhysicalIntent "default" "default" "home" "key-1" "plan-1" "cmd-1" 1 PI_PREPARED
    (Some "host-a") (Some "attempt-1") (Some "lease-1") 0 0.

Lemma intent_acquired_once_witness :
  let t1 := snd (claim_for_dispatch example_intent ∅) in
  let t2 := run_intents [I_basic (B_recover 5 None None)] t1 in
  (exists stored d, claim_for_dispatch example_intent t2 = (Ok (mkPhysicalIntentClaim d stored), t2) /\
    intent_le (example_intent <| pi_status := PI_DISPATCHING |>) stored) /\
  cl_decision <$> fst (claim_for_dispatch example_intent t2) = Ok CL_IN_FLIGHT.
Proof.
  intros t1 t2. split; [|vm_compute; reflexivity].
  assert (claim_for_dispatch example_intent ∅ =
    (Ok (mkPhysicalIntentClaim CL_ACQUIRED (example_intent <| pi_status := PI_DISPATCHING |>)), t1)) as H
    by (unfold t1; vm_compute; reflexivity).
  destruct (intent_acquired_once ∅ example_intent _ t1 [I_basic (B_recover 5 None None)]
    example_intent (map_Forall_empty _) H eq_refl eq_refl eq_refl) as (stored & E & Hle).
  exists stored. eexists. split; [exact E|exact Hle].
Defined.

(** a settlement always comes to an answer.  With other transactions
    committing between each of its reads and its updates it neither loops nor
    fails: three passes are enough for any interference, and when the others
    are ledger calls the answer is the row the ledger then holds; either it
    carries the requested status, or the intent was closed to this caller (it
    is settled already, or another holder's). Nothing but an advance of intents
    happened to the ledger. *)
Theorem settle_comes_to_an_answer clock (races : nat -> list intent_op) i status t :
  table_wf t -> is_Some (t !! intent_key i) ->
  exists x t', settle clock (fun n => run_intents (races n)) i status t = (Ok x, t') /\
    table_wf t' /\ evolves t t' /\ t' !! intent_key i = Some (row_of x) /\
    (pi_status x = status \/ settleable x i status = false) /\
    forall wild, is_Some (settle_loop clock wild i status settle_fuel 0 [] t).
Proof.
  intros Ht [row Hk].
  destruct (settle_loop_sound clock (fun n => run_intents (races n))
    (fun n => run_intents_advances (races n)) i status _ _ _ _ _ _ Ht Hk (Forall_nil_2 _)
    (settle_runs _ _ _ _ _)) as (x & t' & ? & ? & ? & ? & ?).
  exists x, t'. split_and!; try done. intros wild. rewrite settle_runs. by eexists.
Qed.

Lemma settle_comes_to_an_answer_witness :
  let held := example_intent <| pi_status := PI_DISPATCHING |> in
  let t : intents := {[ ("default", "key-1") := row_of held ]} in
  let races n := match n with
                 | O => [I_basic (B_settle 3 held PI_ACKNOWLEDGED)]
                 | _ => [] end in
  exists x t', settle (fun _ => 7) (fun n => run_intents (races n)) held PI_CONFIRMED t = (Ok x, t') /\
    t' !! ("default", "key-1") = Some (row_of x) /\
    pi_status <$> fst (settle (fun _ => 7) (fun n => run_intents (races n)) held PI_CONFIRMED t) = Ok PI_CONFIRMED.
Proof.
  intros held t races.
  assert (table_wf t) as Ht by (apply map_Forall_singleton; repeat split).
  destruct (settle_comes_to_an_answer (fun _ => 7) races held PI_CONFIRMED t Ht)
    as (x & t' & E & _ & _ & Hk & _); [by eexists|].
  exists x, t'. split; [exact E|]. split; [exact Hk|]. vm_compute. reflexivity.
Defined.

(** ** The interface of the executor *)

(** What the dispatch of a command relies on: a granted claim is the first one
    of its key, and a key once taken stays taken. *)
Class PhysicalIntentPort (T : Type) := {
  port_claim : PhysicalIntent -> stm T exn PhysicalIntentClaim;
  port_settle : datetime -> PhysicalIntent -> PhysicalIntentStatus -> stm T exn PhysicalIntent;
  port_wf : T -> Prop;
  taken : key -> T -> Prop;
  port_claim_wf : forall i t, port_wf t -> port_wf (snd (port_claim i t));
  port_settle_wf : forall now i s t, port_wf t -> port_wf (snd (port_settle now i s t));
  port_claim_taken : forall i k t, port_wf t -> taken k t -> taken k (snd (port_claim i t));
  port_settle_taken : forall now i s k t, port_wf t -> taken k t -> taken k (snd (port_settle now i s t));
  port_claim_grants : forall i t c t', port_wf t -> port_claim i t = (Ok c, t') ->
    cl_decision c = CL_ACQUIRED -> ~ taken (intent_key i) t /\ taken (intent_key i) t';
  port_claim_replays : forall i t c t', port_wf t -> port_claim i t = (Ok c, t') ->
    cl_decision c = CL_REPLAY -> pi_status (cl_intent c) ∈ [PI_ACKNOWLEDGED; PI_CONFIRMED; PI_REJECTED]
}.

#[export] Instance intents_port : PhysicalIntentPort intents.
Proof.
  refine {| port_claim := claim_for_dispatch;
            port_settle now := settle (fun _ => now) (fun _ t => t);
            port_wf := table_wf;
            taken k t := is_Some (t !! k) |}.
  - intros i t Ht. by apply claim_advances.
  - intros now i s t Ht. apply settle_advances; [|done]. intros _. apply advances_id.
  - intros i k t Ht. apply (evolves_is_some row_le). by apply claim_advances.
  - intros now i s k t Ht. apply (evolves_is_some row_le). apply settle_advances; [|done].
    intros _. apply advances_id.
  - intros i t c t' Ht Hc Hd. destruct (claim_acquires _ _ _ _ Ht Hc Hd) as (Hn & _ & ->).
    rewrite Hn, lookup_insert_eq. split; [|by eexists]. by intros [? ?].
  - intros i t c t' Ht Hc Hd. by eapply claim_replays.
Defined.
