(* ===== verification/PlanRecords.v ===== *)
(** * The durable plan records (persistence/repositories.py, persistence/contract_compatibility.py)

    [PlanRepository]: the table [plans] with the status a query filters by and
    the payload, the plan its JSON text decodes to.  A transaction
    ([BEGIN IMMEDIATE]) is one step; [race] is what other transactions commit
    between the read and the write of [settle_execution].  The column
    [updated_at] is never read and left out. *)

From S2P Require Import Prelude.
From S2P Require Import Values.
From S2P Require Import Models.
From S2P Require Import Transitions.
From S2P Require Import Digests.
From S2P Require Import ApprovalStore.
From S2P Require Import PlanService.
From S2P Require Import Admission.

Record plan_row := mkPlanRow { pr_status : PlanStatus; pr_payload : Plan }.
Abbreviation plans := (gmap string plan_row).

(** ** persistence/contract_compatibility.py *)

Definition safe_id_char (c : ascii) : bool :=
  let n := Ascii.nat_of_ascii c in
  (Nat.leb 65 n && Nat.leb n 90) || (Nat.leb 97 n && Nat.leb n 122) ||
  (Nat.leb 48 n && Nat.leb n 57) ||
  bool_decide (c ∈ ["_"; "."; ":"; "@"; "/"; "-"]%char).

(** [_SAFE_ID.fullmatch] *)
Definition safe_id (s : string) : bool :=
  negb (is_empty s) && Nat.leb (String.length s) 256 &&
  forallb safe_id_char (String.list_ascii_of_string s).

(** [_TERMINAL] *)
Definition terminal_statuses : list PlanStatus :=
  [PS_COMPLETED; PS_PARTIALLY_FAILED; PS_FAILED; PS_UNKNOWN; PS_CANCELLED].

(** [_NON_CLAIMABLE_STATUSES] of the executor *)
Definition NON_CLAIMABLE_STATUSES : list PlanStatus :=
  [PS_EXECUTING; PS_COMPLETED; PS_PARTIALLY_FAILED; PS_FAILED; PS_UNKNOWN; PS_CANCELLED].

Section PlanRecords.
Context `{CJ : Canonical}.

Definition safe_record_id (s : string) : string :=
  if safe_id s then s else "sha256:" +:+ sha256_hex s.

Definition compatibility_error (record_id : string) (status : PlanStatus) : exn :=
  refusal PLAN_IDENTITY_CONFLICT
    "Stored contract requires explicit revalidation; historical evidence is read-only"
    [("record_id", JStr (safe_record_id record_id));
     ("reason", JStr (if bool_decide (status ∈ terminal_statuses)
                      then "historical_only" else "revalidation_required"))].

Definition read_active_plan (payload : Plan) (record_id : option string) : result exn Plan :=
  match model_validate payload with
  | Ok _ => Ok payload
  | Err _ => Err (compatibility_error (default (pl_id payload) record_id) (pl_status payload))
  end.

(** ** [PlanRepository] *)

Definition identity_conflict (m : string) (details : list (string * json)) : exn :=
  refusal PLAN_IDENTITY_CONFLICT m details.

(** [_bind_deployment]; [deployment] is the repository's. *)
Definition bind_deployment (deployment : option string) (p : Plan) : result exn Plan :=
  let about := [("plan_id", JStr (pl_id p))] in
  model_validate p ≫= fun _ =>
  raise_if (match pl_execution_lease p, pl_deployment_id p with
            | Some l, Some d => negb (String.eqb (pel_deployment_id l) d)
            | _, _ => false end)
    (identity_conflict "Plan deployment and execution lease deployment do not match" about)
    ≫= fun _ =>
  match deployment with
  | None => Ok p
  | Some d =>
      raise_if (match pl_deployment_id p with Some d' => negb (String.eqb d' d) | None => false end)
        (identity_conflict "Plan belongs to another deployment" about) ≫= fun _ =>
      raise_if (match pl_execution_lease p with
                | Some l => negb (String.eqb (pel_deployment_id l) d) | None => false end)
        (identity_conflict "Plan execution lease belongs to another deployment" about) ≫= fun _ =>
      if bool_decide (pl_deployment_id p = Some d) then Ok p
      else
        raise_if (negb (bool_decide (pl_status p = PS_DRAFT)) ||
                  opt_bool (pl_definition_digest p) || opt_bool (pl_validation p) ||
                  opt_bool (pl_approval p))
          (identity_conflict "Plan requires revalidation as a new definition"
             (("reason", JStr "revalidation_required") :: about)) ≫= fun _ =>
        let bound := p <| pl_deployment_id := Some d |> <| pl_schema_version := "v2" |> in
        model_validate bound ≫= fun _ => Ok bound
  end.

(** The stored definition, if it is bound, is this one. *)
Definition same_definition (stored p : Plan) : bool :=
  match pl_definition_digest stored with
  | None => true
  | Some _ =>
      bool_decide (pl_definition_digest stored = pl_definition_digest p) &&
      String.eqb (pl_schema_version stored) (pl_schema_version p) &&
      bool_decide (pl_deployment_id stored = pl_deployment_id p)
  end.
Definition other_definition (p : Plan) : exn :=
  identity_conflict "Plan identity is already bound to a different definition"
    [("plan_id", JStr (pl_id p))].

(** What the transaction of [save] checks against the stored row. *)
Definition save_guard (t : plans) (p : Plan) : result exn unit :=
  match t !! pl_id p with
  | None => Ok tt
  | Some row =>
      (if bool_decide (pr_status row = pl_status p) then Ok tt
       else assert_plan_transition (pr_status row) (pl_status p)) ≫= fun _ =>
      read_active_plan (pr_payload row) None ≫= fun stored =>
      raise_if (negb (same_definition stored p)) (other_definition p)
  end.

Definition save_plan (deployment : option string) (p : Plan) : stm plans exn unit :=
  p ← lift (bind_deployment deployment p);
  t ← get_st;
  lift (save_guard t p) ≫= fun _ =>
  put_st (<[pl_id p := mkPlanRow (pl_status p) p]> t).

Definition save_validation := save_plan.

Definition save_approval (deployment : option string) (p : Plan) : stm plans exn unit :=
  lift (raise_if (negb (bool_decide (pl_status p = PS_APPROVED)))
    (invalid_transition (PlanStatus_value (pl_status p)) "approved")) ≫= fun _ =>
  save_plan deployment p.

Definition get_plan (t : plans) (id : string) : result exn (option Plan) :=
  match t !! id with
  | None => Ok None
  | Some row => Some <$> read_active_plan (pr_payload row) (Some id)
  end.

Definition settle_execution (race : plans -> plans) (deployment : option string) (p : Plan)
    : stm plans exn unit :=
  lift (raise_if (negb (bool_decide (pl_status p ∈ terminal_statuses)))
    (invalid_transition (PlanStatus_value (pl_status p)) "terminal")) ≫= fun _ =>
  t ← get_st;
  persisted ← lift (get_plan t (pl_id p));
  lift (raise_if (negb (bool_decide ((pl_status <$> persisted) = Some PS_EXECUTING)))
    (invalid_transition (match persisted with
                         | Some q => PlanStatus_value (pl_status q) | None => "missing" end)
       (PlanStatus_value (pl_status p)))) ≫= fun _ =>
  modify race ≫= fun _ =>
  save_plan deployment p.

Definition mark_unknown_if_executing (deployment : option string) (id : string)
    (expected : option PlanExecutionLease) (allow_legacy : bool) : stm plans exn bool :=
  t ← get_st;
  match t !! id with
  | Some row =>
      if negb (bool_decide (pr_status row = PS_EXECUTING)) then mret false
      else
        lift (model_validate (pr_payload row)) ≫= fun _ =>
        let current := pr_payload row in
        if match deployment with
           | None => false
           | Some d =>
               negb (bool_decide (pl_deployment_id current ∈ [Some d; None])) ||
               (negb (opt_bool (pl_deployment_id current)) && negb allow_legacy)
           end ||
           (opt_bool expected && negb (bool_decide (pl_execution_lease current = expected)))
        then mret false
        else
          put_st (<[id := mkPlanRow PS_UNKNOWN (current <| pl_status := PS_UNKNOWN |>)]> t)
            ≫= fun _ => mret true
  | None => mret false
  end.

Definition claim_for_execution (deployment : option string) (p : Plan) (allowed : list PlanStatus)
    : stm plans exn bool :=
  p ← lift (bind_deployment deployment p);
  if negb (bool_decide (pl_status p = PS_EXECUTING)) then mret false
  else
    let claimable := List.filter (fun s => bool_decide (s ∈ [PS_READY; PS_APPROVED])) allowed in
    if bool_decide (claimable = []) then mret false
    else
      t ← get_st;
      let claimed := put_st (<[pl_id p := mkPlanRow (pl_status p) p]> t) ≫= fun _ => mret true in
      match t !! pl_id p with
      | Some row =>
          stored ← lift (read_active_plan (pr_payload row) None);
          lift (raise_if (negb (same_definition stored p)) (other_definition p)) ≫= fun _ =>
          if bool_decide (pr_status row ∈ claimable) then claimed else mret false
      | None => claimed
      end.

(** The rows that no longer validate are skipped. *)
Definition list_by_status (t : plans) (statuses : list PlanStatus) (deployment_id : option string)
    (include_legacy : bool) : list Plan :=
  omap (fun '(_, row) =>
      if bool_decide (pr_status row ∈ statuses) &&
         match deployment_id with
         | None => true
         | Some d => bool_decide (pl_deployment_id (pr_payload row) = Some d) ||
                     (include_legacy && negb (opt_bool (pl_deployment_id (pr_payload row))))
         end
      then match read_active_plan (pr_payload row) None with Ok p => Some p | Err _ => None end
      else None)
    (map_to_list t).
End PlanRecords.

(** ** Histories *)

Section RecordHistories.
Context `{CJ : Canonical}.

Inductive record_call :=
  | R_save (deployment : option string) (p : Plan)
  | R_save_approval (deployment : option string) (p : Plan)
  | R_claim (deployment : option string) (p : Plan) (allowed : list PlanStatus)
  | R_mark_unknown (deployment : option string) (id : string)
      (expected : option PlanExecutionLease) (allow_legacy : bool).

Definition record_call_step (t : plans) (op : record_call) : plans :=
  match op with
  | R_save d p => snd (save_plan d p t)
  | R_save_approval d p => snd (save_approval d p t)
  | R_claim d p allowed => snd (claim_for_execution d p allowed t)
  | R_mark_unknown d id expected legacy => snd (mark_unknown_if_executing d id expected legacy t)
  end.
Definition run_calls (ops : list record_call) (t : plans) : plans :=
  fold_left record_call_step ops t.

(** Calls of any hosts, with any others inside the two transactions of a
    settlement. *)
Inductive record_op :=
  | R_call (op : record_call)
  | R_settle (race : list record_call) (deployment : option string) (p : Plan).

Definition record_step (t : plans) (op : record_op) : plans :=
  match op with
  | R_call op => record_call_step t op
  | R_settle race d p => snd (settle_execution (run_calls race) d p t)
  end.
Definition run_records (ops : list record_op) (t : plans) : plans := fold_left record_step ops t.

(** ** What never changes *)

Definition plan_step (a b : PlanStatus) : Prop := b ∈ plan_transitions a.

(** The status moves along the plan state machine, and a bound definition stays
    what it is. *)
Definition row_le (a b : plan_row) : Prop :=
  rtc plan_step (pr_status a) (pr_status b) /\
  (pl_definition_digest (pr_payload a) <> None ->
   pl_definition_digest (pr_payload b) = pl_definition_digest (pr_payload a) /\
   pl_schema_version (pr_payload b) = pl_schema_version (pr_payload a) /\
   pl_deployment_id (pr_payload b) = pl_deployment_id (pr_payload a)).

#[export] Instance row_le_preorder : PreOrder row_le.
Proof.
  split; [intros a; split; [apply rtc_refl|done]|].
  intros a b c [H1 D1] [H2 D2]. split; [by etransitivity|].
  intros Ha. destruct (D1 Ha) as (E1 & E2 & E3). rewrite <- E1, <- E2, <- E3.
  apply D2. by rewrite E1.
Qed.

Lemma same_definition_le stored p s :
  same_definition stored p = true -> rtc plan_step s (pl_status p) ->
  row_le (mkPlanRow s stored) (mkPlanRow (pl_status p) p).
Proof.
  unfold same_definition, row_le. simpl. intros H Hs. split; [done|].
  destruct (pl_definition_digest stored) as [d|]; [|done]. destruct_ands.
  rewrite String.eqb_eq in *. intros _. by split_and!.
Qed.

Lemma read_active_plan_ok p id q : read_active_plan p id = Ok q -> q = p.
Proof. unfold read_active_plan. destruct (model_validate p); congruence. Qed.

Lemma save_guard_le t p row :
  save_guard t p = Ok tt -> t !! pl_id p = Some row -> row_le row (mkPlanRow (pl_status p) p).
Proof.
  unfold save_guard. intros H Hk. rewrite Hk in H. ok_inv. subst.
  match goal with H : read_active_plan _ _ = _ |- _ => apply read_active_plan_ok in H as -> end.
  destruct row as [s stored]. simpl in *. apply same_definition_le; [by apply negb_false_iff|].
  case_bool_decide; [subst; apply rtc_refl|]. apply rtc_once. by apply assert_plan_transition_ok.
Qed.

Lemma plan_save_advances d p t : evolves row_le t (snd (save_plan d p t)).
Proof.
  unfold save_plan. rewrite stm_bind_lift. destruct (bind_deployment d p) as [q|]; [|done].
  rewrite stm_bind_get, stm_bind_lift. destruct (save_guard t q) as [[]|] eqn:Eg; [|done]. simpl.
  destruct (t !! pl_id q) as [row|] eqn:Hk.
  - eapply evolves_insert; [apply _|done|]. by eapply save_guard_le.
  - by apply evolves_new; [apply _|].
Qed.

Lemma claim_cases d p allowed t :
  snd (claim_for_execution d p allowed t) = t /\ fst (claim_for_execution d p allowed t) <> Ok true \/
  exists q, bind_deployment d p = Ok q /\ pl_status q = PS_EXECUTING /\
    claim_for_execution d p allowed t = (Ok true, <[pl_id q := mkPlanRow PS_EXECUTING q]> t) /\
    forall row, t !! pl_id q = Some row -> pr_status row ∈ [PS_READY; PS_APPROVED] /\
      same_definition (pr_payload row) q = true.
Proof.
  unfold claim_for_execution. rewrite stm_bind_lift.
  destruct (bind_deployment d p) as [q|] eqn:Eb; [|by left].
  case_bool_decide as Hs; simpl; [|by left]. case_bool_decide; [by left|].
  rewrite stm_bind_get. destruct (t !! pl_id q) as [row|] eqn:Hk.
  - rewrite stm_bind_lift. destruct (read_active_plan _ _) as [stored|] eqn:Er; [|by left].
    rewrite stm_bind_lift. destruct (same_definition stored q) eqn:Ed; [|by left]. simpl.
    case_bool_decide as Hc; [|by left]. right. exists q. rewrite Hs. split_and!; try done.
    intros row'. rewrite Hk. intros [= <-]. apply read_active_plan_ok in Er as ->.
    split; [|done]. apply list_elem_of_In, List.filter_In in Hc as [_ Hc].
    by apply bool_decide_eq_true in Hc.
  - right. exists q. rewrite Hs. split_and!; try done. intros row. by rewrite Hk.
Qed.

Lemma bind_ok_inv {A} (m : result exn unit) (f : unit -> result exn A) a :
  (m ≫= f) = Ok a -> m = Ok tt /\ f tt = Ok a.
Proof. intros ([] & ? & ?)%result_bind_ok. done. Qed.

Lemma bind_deployment_id d p q : bind_deployment d p = Ok q -> pl_id q = pl_id p.
Proof.
  unfold bind_deployment. intros H. apply bind_ok_inv in H as [_ H]. apply bind_ok_inv in H as [_ H].
  destruct d as [d|]; [|by injection H as <-].
  apply bind_ok_inv in H as [_ H]. apply bind_ok_inv in H as [_ H].
  case_bool_decide; [by injection H as <-|].
  apply bind_ok_inv in H as [_ H]. apply bind_ok_inv in H as [_ H]. by injection H as <-.
Qed.

Lemma plan_claim_advances d p allowed t : evolves row_le t (snd (claim_for_execution d p allowed t)).
Proof.
  destruct (claim_cases d p allowed t) as [[-> _]|(q & _ & Hs & -> & Hq)]; [done|]. simpl.
  destruct (t !! pl_id q) as [[s stored]|] eqn:Hk; [|by apply evolves_new; [apply _|]].
  destruct (Hq _ eq_refl) as [Hin Hd]. simpl in *.
  eapply evolves_insert; [apply _|done|]. rewrite <- Hs. apply same_definition_le; [done|].
  apply rtc_once. rewrite Hs. unfold plan_step.
  apply elem_of_cons in Hin as [->|Hin%list_elem_of_singleton]; [|subst]; by left.
Qed.

Lemma mark_unknown_advances d id expected legacy t :
  evolves row_le t (snd (mark_unknown_if_executing d id expected legacy t)).
Proof.
  unfold mark_unknown_if_executing. rewrite stm_bind_get.
  destruct (t !! id) as [row|] eqn:Hk; [|done]. case_bool_decide as Hs; simpl; [|done].
  rewrite stm_bind_lift. destruct (model_validate _); [|done].
  destruct (_ || _); [done|]. simpl. eapply evolves_insert; [apply _|done|].
  split; simpl; [|done]. rewrite Hs. apply rtc_once. unfold plan_step. simpl. set_solver.
Qed.

Lemma run_calls_advances ops t : evolves row_le t (run_calls ops t).
Proof.
  revert t. induction ops as [|op ops IH]; intros t; [done|]. etransitivity; [|apply IH].
  destruct op as [d p|d p|d p allowed|d id expected legacy]; simpl.
  - apply plan_save_advances.
  - unfold save_approval. rewrite stm_bind_lift. destruct (raise_if _ _); [|done].
    apply plan_save_advances.
  - apply plan_claim_advances.
  - apply mark_unknown_advances.
Qed.

Lemma plan_settle_advances race d p t :
  evolves row_le t (snd (settle_execution (run_calls race) d p t)).
Proof.
  unfold settle_execution. rewrite stm_bind_lift. destruct (raise_if _ _); [|done].
  rewrite stm_bind_get, stm_bind_lift. destruct (get_plan t (pl_id p)); [|done].
  rewrite stm_bind_lift. destruct (raise_if _ _); [|done].
  change (evolves row_le t (snd (save_plan d p (run_calls race t)))).
  etransitivity; [apply run_calls_advances|apply plan_save_advances].
Qed.

Lemma run_records_advances ops t : evolves row_le t (run_records ops t).
Proof.
  revert t. induction ops as [|op ops IH]; intros t; [done|]. etransitivity; [|apply IH].
  destruct op as [op|race d p]; [apply (run_calls_advances [op])|apply plan_settle_advances].
Qed.

(** ** Spent plans *)

(** The plan was claimed once; it is executing or has ended. *)
Definition spent (id : string) (t : plans) : Prop :=
  exists row, t !! id = Some row /\ pr_status row ∈ NON_CLAIMABLE_STATUSES.

Lemma spent_closed s s' :
  s ∈ NON_CLAIMABLE_STATUSES -> rtc plan_step s s' -> s' ∈ NON_CLAIMABLE_STATUSES.
Proof.
  intros Hs Hr. revert Hs. induction Hr as [|s s1 s' Hstep _ IH]; [done|]. intros Hs. apply IH.
  assert (forall a b, bool_decide (a ∈ NON_CLAIMABLE_STATUSES) = true ->
    bool_decide (b ∈ plan_transitions a) = true -> bool_decide (b ∈ NON_CLAIMABLE_STATUSES) = true)
    as Hall by (by intros [] []).
  apply (bool_decide_eq_true_1 _ (Hall s s1 (bool_decide_eq_true_2 _ Hs)
    (bool_decide_eq_true_2 _ Hstep))).
Qed.

Lemma spent_advances id t t' : evolves row_le t t' -> spent id t -> spent id t'.
Proof.
  intros He (row & Hk & Hs). destruct (He _ _ Hk) as (row' & Hk' & Hle & _).
  exists row'. split; [done|]. by eapply spent_closed.
Qed.

Lemma spent_unclaimable id t d p allowed :
  spent id t -> pl_id p = id ->
  fst (claim_for_execution d p allowed t) <> Ok true /\
  snd (claim_for_execution d p allowed t) = t.
Proof.
  intros (row & Hk & Hs) Hid.
  destruct (claim_cases d p allowed t) as [[? ?]|(q & Hb & _ & _ & Hq)]; [by split|].
  exfalso. rewrite (bind_deployment_id _ _ _ Hb), Hid in Hq.
  destruct (Hq _ Hk) as [Hin _].
  apply elem_of_cons in Hin as [E|E%list_elem_of_singleton]; rewrite E in Hs;
    apply (bool_decide_eq_true_2 _) in Hs; done.
Qed.

Lemma claimed_spent d p allowed t t1 :
  claim_for_execution d p allowed t = (Ok true, t1) -> ~ spent (pl_id p) t /\ spent (pl_id p) t1.
Proof.
  intros H. split.
  - intros Hs. destruct (spent_unclaimable (pl_id p) t d p allowed Hs eq_refl) as [Hn _].
    by rewrite H in Hn.
  - destruct (claim_cases d p allowed t) as [[_ Hn]|(q & Hb & _ & E & _)]; [by rewrite H in Hn|].
    rewrite H in E. injection E as ->. rewrite <- (bind_deployment_id _ _ _ Hb).
    exists (mkPlanRow PS_EXECUTING q). rewrite lookup_insert_eq. split; [done|]. by left.
Qed.

(** ** Properties *)

(** a plan is executed by one claim.  After a host claimed a plan id, no
    call sequence of any hosts (saves, approvals, claims, settlements racing
    with others, recovery) makes it claimable again: every later claim of that
    id, under any deployment, with any definition and any allowed statuses,
    comes to nothing and leaves the table as it was. *)
Theorem plan_claimed_once d p allowed t t1 ops d' q allowed' :
  claim_for_execution d p allowed t = (Ok true, t1) -> pl_id q = pl_id p ->
  let t2 := run_records ops t1 in
  spent (pl_id p) t2 /\
  fst (claim_for_execution d' q allowed' t2) <> Ok true /\
  snd (claim_for_execution d' q allowed' t2) = t2.
Proof.
  intros H Hq t2. apply claimed_spent in H as [_ Hs].
  assert (Hs2 : spent (pl_id p) t2) by (eapply spent_advances; [apply run_records_advances|done]).
  split; [done|]. by apply (spent_unclaimable (pl_id p)).
Qed.

(** The durable record of a plan follows the plan state machine and its
    definition cannot be swapped: over any calls of any hosts, even when they
    interleave inside a settlement, the stored status only moves along guarded
    transitions, and once the stored plan has a definition digest, the digest,
    the schema version and the deployment of the record stay what they are. *)
Theorem plan_record_keeps_identity ops t id row :
  t !! id = Some row ->
  exists row', run_records ops t !! id = Some row' /\
    rtc (fun a b => assert_plan_transition a b = Ok tt) (pr_status row) (pr_status row') /\
    (pl_definition_digest (pr_payload row) <> None ->
     pl_definition_digest (pr_payload row') = pl_definition_digest (pr_payload row) /\
     pl_schema_version (pr_payload row') = pl_schema_version (pr_payload row) /\
     pl_deployment_id (pr_payload row') = pl_deployment_id (pr_payload row)).
Proof.
  intros Hk. destruct (run_records_advances ops t _ _ Hk) as (row' & Hk' & Hr & Hd).
  exists row'. split; [done|]. split; [|done]. revert Hr. apply rtc_subrel. intros a b.
  apply assert_plan_transition_ok.
Qed.
End RecordHistories.

(** ** The interface of the executor *)

(** What an execution relies on: a granted claim is the first of its plan, the
    plan stays spent, and a plan that executes under a lease can be marked
    unknown under that lease. *)
Class PlanRecordPort (R : Type) := {
  port_get_plan : string -> R -> result exn (option Plan);
  port_claim_plan : Plan -> list PlanStatus -> stm R exn bool;
  port_settle_plan : Plan -> stm R exn unit;
  port_save_plan : Plan -> stm R exn unit;
  port_save_approval : Plan -> stm R exn unit;
  port_mark_unknown : string -> option PlanExecutionLease -> stm R exn bool;
  plan_spent : string -> R -> Prop;
  plan_executing : string -> option PlanExecutionLease -> R -> Prop;
  plan_unknown : string -> R -> Prop;
  port_claim_plan_spent : forall p allowed r r', port_claim_plan p allowed r = (Ok true, r') ->
    ~ plan_spent (pl_id p) r /\ plan_spent (pl_id p) r';
  port_claim_plan_keeps : forall id p allowed r, plan_spent id r ->
    plan_spent id (snd (port_claim_plan p allowed r));
  port_settle_plan_keeps : forall id p r, plan_spent id r ->
    plan_spent id (snd (port_settle_plan p r));
  port_save_plan_keeps : forall id p r, plan_spent id r ->
    plan_spent id (snd (port_save_plan p r));
  port_save_approval_keeps : forall id p r, plan_spent id r ->
    plan_spent id (snd (port_save_approval p r));
  port_mark_unknown_keeps : forall id id' lease r, plan_spent id r ->
    plan_spent id (snd (port_mark_unknown id' lease r));
  port_mark_unknown_marks : forall id lease r, plan_executing id lease r ->
    plan_unknown id (snd (port_mark_unknown id lease r))
}.

(** The record is executing, in this deployment, under the lease if one is
    asked for. *)
Definition executing_under `{CJ : Canonical} (deployment : option string) (id : string)
    (lease : option PlanExecutionLease) (t : plans) : Prop :=
  exists row, t !! id = Some row /\ pr_status row = PS_EXECUTING /\
    is_ok (model_validate (pr_payload row)) = true /\
    (deployment = None \/ pl_deployment_id (pr_payload row) = deployment) /\
    (lease = None \/ pl_execution_lease (pr_payload row) = lease).

Lemma executing_marked `{CJ : Canonical} d id lease legacy t : executing_under d id lease t ->
  pr_status <$> (snd (mark_unknown_if_executing d id lease legacy t) !! id) = Some PS_UNKNOWN.
Proof.
  intros (row & Hk & Hs & Hv & Hd & Hl). unfold mark_unknown_if_executing. rewrite stm_bind_get, Hk.
  rewrite bool_decide_eq_true_2 by done. simpl. rewrite stm_bind_lift.
  destruct (model_validate _) as [[]|]; [|done].
  match goal with |- context [if ?b then _ else _] => replace b with false end.
  - simpl. by rewrite lookup_insert_eq.
  - symmetry. apply orb_false_iff. split.
    + destruct d as [d|]; [|done]. destruct Hd as [|Hd]; [done|]. rewrite Hd.
      by rewrite bool_decide_eq_true_2 by set_solver.
    + destruct Hl as [->| ->]; [done|]. by rewrite bool_decide_eq_true_2, andb_false_r.
Qed.

(** The repository of a deployment; [settle_execution] with nothing between its
    transactions. *)
Definition plans_port `{CJ : Canonical} (deployment : option string) : PlanRecordPort plans.
Proof.
  refine {| port_get_plan id t := get_plan t id;
            port_claim_plan := claim_for_execution deployment;
            port_settle_plan := settle_execution (fun t => t) deployment;
            port_save_plan := save_plan deployment;
            port_save_approval := save_approval deployment;
            port_mark_unknown id lease := mark_unknown_if_executing deployment id lease false;
            plan_spent := spent;
            plan_executing := executing_under deployment;
            plan_unknown id t := pr_status <$> (t !! id) = Some PS_UNKNOWN |}.
  - intros p allowed r r'. apply claimed_spent.
  - intros id p allowed r. apply spent_advances, plan_claim_advances.
  - intros id p r. apply spent_advances. apply (plan_settle_advances []).
  - intros id p r. apply spent_advances, plan_save_advances.
  - intros id p r. apply spent_advances, (run_calls_advances [R_save_approval deployment p]).
  - intros id id' lease r. apply spent_advances, mark_unknown_advances.
  - intros id lease r. apply executing_marked.
Defined.

(** ** Witnesses: the plan of the desk lamp is claimed, its settlement races *)

Definition example_executing : Plan := example_ready <| pl_status := PS_EXECUTING |>.
Definition example_records : plans :=
  snd (save_plan (CJ := example_canonical) (Some "home-1") example_ready ∅).
Definition example_claimed : plans :=
  snd (claim_for_execution (CJ := example_canonical) (Some "home-1") example_executing
         [PS_READY; PS_APPROVED] example_records).
Definition example_history : list record_op :=
  [R_settle [R_mark_unknown (Some "home-1") "plan-1" None false] (Some "home-1")
     (example_ready <| pl_status := PS_COMPLETED |>)].

(** The race is lost: recovery settled the plan as unknown, and it stays so. *)
Example settlement_lost :
  pr_status <$> (run_records (CJ := example_canonical) example_history example_claimed !! "plan-1")
  = Some PS_UNKNOWN.
Proof. vm_compute. reflexivity. Qed.

Lemma plan_claimed_once_witness :
  let t2 := run_records (CJ := example_canonical) example_history example_claimed in
  fst (claim_for_execution (CJ := example_canonical) (Some "home-1") example_executing
         [PS_READY; PS_APPROVED] t2) <> Ok true.
Proof.
  assert (claim_for_execution (CJ := example_canonical) (Some "home-1") example_executing
    [PS_READY; PS_APPROVED] example_records = (Ok true, example_claimed)) as H
    by (vm_compute; reflexivity).
  apply (plan_claimed_once (CJ := example_canonical) _ _ _ _ _ example_history (Some "home-1")
    example_executing [PS_READY; PS_APPROVED] H eq_refl).
Defined.

Lemma plan_record_keeps_identity_witness :
  exists row', run_records (CJ := example_canonical) example_history example_claimed !! "plan-1"
      = Some row' /\
    pl_definition_digest (pr_payload row') = pl_definition_digest example_executing.
Proof.
  destruct (plan_record_keeps_identity (CJ := example_canonical) example_history example_claimed
    "plan-1" (mkPlanRow PS_EXECUTING example_executing) ltac:(vm_compute; reflexivity))
    as (row' & H & _ & Hd).
  exists row'. split; [exact H|]. apply Hd. discriminate.
Defined.
