(* ===== verification/HouseholdQueue.v ===== *)
(** * The household work queues (application/household_queue.py)

    Physical work runs first in, first out for each household, one piece at a
    time, and households do not hold each other up.  Every block under the lock
    is one step; between them the event loop may run any other task, so an
    execution is any sequence of steps ([reachable]).  A piece of work and its
    future are one number, and so is a worker task; [wq_log] records what
    happened to each piece. *)

From S2P Require Import Prelude.
From S2P Require Import Models.

Abbreviation work := nat.

Inductive event_kind := Enqueued | Started | Ended | Dropped.
#[global] Instance event_kind_eq_dec : EqDecision event_kind.
Proof. solve_decision. Defined.

Inductive queue_event := QEvent (k : event_kind) (h : string) (i : work).

(** [_queues], [_workers], [_counts], [_total] and [_closed]; and of the event
    loop the worker tasks alive, each with its household and the item it took,
    the workers [close] waits for, and the next fresh number. *)
Record WorkQueues := mkWorkQueues {
  wq_max_per_household : Z;
  wq_max_total : Z;
  wq_queues : gmap string (list work);
  wq_workers : gmap string nat;
  wq_counts : gmap string Z;
  wq_total : Z;
  wq_closed : bool;
  wq_tasks : gmap nat (string * option work);
  wq_draining : option (list nat);
  wq_next : nat;
  wq_log : list queue_event
}.
#[global] Instance WorkQueues_eta : Eta WorkQueues := fun r =>
  mkWorkQueues (wq_max_per_household r) (wq_max_total r) (wq_queues r) (wq_workers r)
    (wq_counts r) (wq_total r) (wq_closed r) (wq_tasks r) (wq_draining r) (wq_next r) (wq_log r).

Abbreviation Q := (stm WorkQueues exn).

(** [HouseholdWorkQueues(...)] *)
Definition new_queues (max_per_household max_total : Z) : result exn WorkQueues :=
  raise_if ((max_per_household <=? 0) || (max_total <=? 0))
    (ValueError "queue capacities must be positive") ≫= fun _ =>
  raise_if (max_total <? max_per_household)
    (ValueError "per-household capacity cannot exceed total capacity") ≫= fun _ =>
  Ok (mkWorkQueues max_per_household max_total ∅ ∅ ∅ 0 false ∅ None 0 []).

Definition record (e : queue_event) : Q unit :=
  modify (fun s => s <| wq_log := wq_log s ++ [e] |>).

(** [_release_capacity] *)
Definition release_capacity (h : string) : Q unit :=
  s ← get_st;
  match wq_counts s !! h with
  | None => raise KeyError
  | Some n =>
      put_st (s <| wq_total := wq_total s - 1 |>
                <| wq_counts := if n - 1 =? 0 then delete h (wq_counts s)
                                else <[h := n - 1]> (wq_counts s) |>)
  end.

(** The worker of a household, started when it has none. *)
Definition ensure_worker (h : string) : Q unit :=
  modify (fun s =>
    if opt_bool (wq_workers s !! h) then s
    else s <| wq_workers := <[h := wq_next s]> (wq_workers s) |>
           <| wq_tasks := <[wq_next s := (h, None)]> (wq_tasks s) |>
           <| wq_next := S (wq_next s) |>).

(** [submit], up to its wait for the future. *)
Definition enqueue (h : string) : Q work :=
  lift (raise_if (is_blank h) (ValueError "household_id must be non-empty")) ≫= fun _ =>
  s ← get_st;
  lift (raise_if (wq_closed s) QueueClosed) ≫= fun _ =>
  let count := default 0 (wq_counts s !! h) in
  lift (raise_if ((wq_max_per_household s <=? count) || (wq_max_total s <=? wq_total s))
    QueueOverloaded) ≫= fun _ =>
  let i := wq_next s in
  put_st (s <| wq_queues := <[h := default [] (wq_queues s !! h) ++ [i]]> (wq_queues s) |>
            <| wq_counts := <[h := count + 1]> (wq_counts s) |>
            <| wq_total := wq_total s + 1 |>
            <| wq_next := S i |>) ≫= fun _ =>
  record (QEvent Enqueued h i) ≫= fun _ =>
  ensure_worker h ≫= fun _ =>
  mret i.

(** [deque.remove] *)
Fixpoint remove_first (i : work) (q : list work) : list work :=
  match q with
  | [] => []
  | j :: q => if decide (j = i) then q else j :: remove_first i q
  end.

(** An item leaves the queue without having run. *)
Definition discard (h : string) (i : work) (rest : list work) : Q unit :=
  modify (fun s => s <| wq_queues := <[h := rest]> (wq_queues s) |>) ≫= fun _ =>
  release_capacity h ≫= fun _ =>
  record (QEvent Dropped h i).

(** The caller of [submit] is cancelled: work still in the queue is taken back,
    work a worker took is waited for. *)
Definition cancel_submit (h : string) (i : work) : Q bool :=
  s ← get_st;
  match wq_queues s !! h with
  | Some q =>
      if bool_decide (i ∈ q)
      then discard h i (remove_first i q) ≫= fun _ => mret true
      else mret false
  | None => mret false
  end.

(** [_run], from the lock to the next await; [t] is the worker's task. *)
Definition worker_take (t : nat) : Q bool :=
  s ← get_st;
  match wq_tasks s !! t with
  | Some (h, None) =>
      match default [] (wq_queues s !! h) with
      | [] =>
          put_st (s <| wq_workers := delete h (wq_workers s) |>
                    <| wq_queues := delete h (wq_queues s) |>
                    <| wq_tasks := delete t (wq_tasks s) |>) ≫= fun _ => mret true
      | i :: q =>
          put_st (s <| wq_queues := <[h := q]> (wq_queues s) |>
                    <| wq_tasks := <[t := (h, Some i)]> (wq_tasks s) |>) ≫= fun _ =>
          record (QEvent Started h i) ≫= fun _ => mret true
      end
  | _ => mret false
  end.

(** The work is over, with a value or an exception; [finally]. *)
Definition worker_finish (t : nat) : Q bool :=
  s ← get_st;
  match wq_tasks s !! t with
  | Some (h, Some i) =>
      record (QEvent Ended h i) ≫= fun _ =>
      release_capacity h ≫= fun _ =>
      modify (fun s => s <| wq_tasks := <[t := (h, None)]> (wq_tasks s) |>) ≫= fun _ => mret true
  | _ => mret false
  end.

(** [close], up to its wait for the workers. *)
Fixpoint drain_queue (h : string) (q : list work) : Q unit :=
  match q with
  | [] => mret tt
  | i :: q => discard h i q ≫= fun _ => drain_queue h q
  end.
Fixpoint drain_queues (l : list (string * list work)) : Q unit :=
  match l with
  | [] => mret tt
  | (h, q) :: l => drain_queue h q ≫= fun _ => drain_queues l
  end.
Definition close_begin : Q unit :=
  modify (fun s => s <| wq_closed := true |>) ≫= fun _ =>
  s ← get_st;
  drain_queues (map_to_list (wq_queues s)) ≫= fun _ =>
  modify (fun s => s <| wq_draining := Some (snd <$> map_to_list (wq_workers s)) |>).

(** The rest of [close], once every worker it waits for is done. *)
Definition close_end : Q bool :=
  s ← get_st;
  match wq_draining s with
  | Some workers =>
      if forallb (fun t => negb (opt_bool (wq_tasks s !! t))) workers
      then put_st (s <| wq_queues := ∅ |> <| wq_workers := ∅ |> <| wq_counts := ∅ |>
                     <| wq_total := 0 |> <| wq_draining := None |>) ≫= fun _ => mret true
      else mret false
  | None => mret false
  end.

(** [depths] *)
Definition depths (s : WorkQueues) : gmap string Z := filter (fun '(_, n) => n <> 0) (wq_counts s).

(** ** Runs *)

Inductive queue_op :=
  | O_submit (h : string)
  | O_cancel (h : string) (i : work)
  | O_take (t : nat)
  | O_finish (t : nat)
  | O_close
  | O_close_end.

(** [Some e]: the step raised [e]. *)
Definition queue_step (op : queue_op) (s : WorkQueues) : option exn * WorkQueues :=
  let run {A} (m : Q A) : option exn * WorkQueues :=
    let '(r, s') := m s in (match r with Ok _ => None | Err e => Some e end, s') in
  match op with
  | O_submit h => run (enqueue h)
  | O_cancel h i => run (cancel_submit h i)
  | O_take t => run (worker_take t)
  | O_finish t => run (worker_finish t)
  | O_close => run close_begin
  | O_close_end => run close_end
  end.

Inductive reachable : WorkQueues -> Prop :=
  | reachable_new a b s : new_queues a b = Ok s -> reachable s
  | reachable_step s op : reachable s -> reachable (snd (queue_step op s)).

(** ** Sums over maps *)

Section wsum.
Context {K : Type} `{Countable K} {A : Type} (w : A -> Z).
Implicit Types m : gmap K A.

Definition wsum m : Z := map_fold (fun _ x acc => w x + acc) 0 m.

Lemma wsum_empty : wsum ∅ = 0.
Proof. done. Qed.

Lemma wsum_delete m k x : m !! k = Some x -> wsum m = w x + wsum (delete k m).
Proof. intros Hx. unfold wsum. rewrite (map_fold_delete_L _ _ k x); [done| |done]. intros; lia. Qed.

Lemma wsum_insert_new m k x : m !! k = None -> wsum (<[k := x]> m) = w x + wsum m.
Proof. intros Hx. unfold wsum. rewrite map_fold_insert_L; [done| |done]. intros; lia. Qed.

Lemma wsum_insert m k x y : m !! k = Some y -> wsum (<[k := x]> m) = w x - w y + wsum m.
Proof.
  intros Hy. rewrite (wsum_delete m k y Hy), (wsum_delete (<[k := x]> m) k x) by apply lookup_insert_eq.
  rewrite delete_insert_eq. lia.
Qed.

Lemma wsum_lower m (b : Z) : map_Forall (fun _ x => b <= w x) m -> b * Z.of_nat (size m) <= wsum m.
Proof.
  induction m as [|k x m Hk IH] using map_ind; intros Hm; [rewrite wsum_empty, map_size_empty; lia|].
  apply map_Forall_insert in Hm as [? ?]; [|done].
  rewrite wsum_insert_new, map_size_insert_None by done. specialize (IH ltac:(done)). lia.
Qed.

Lemma wsum_nonneg m : map_Forall (fun _ x => 0 <= w x) m -> 0 <= wsum m.
Proof. intros Hm. pose proof (wsum_lower m 0 Hm). lia. Qed.
End wsum.

(** ** What is queued, in hand and recorded for a household *)

Definition queued (s : WorkQueues) (h : string) : list work := default [] (wq_queues s !! h).

Definition in_hand (s : WorkQueues) (h : string) : list work :=
  match wq_workers s !! h ≫= (fun t => wq_tasks s !! t) with
  | Some (_, Some i) => [i]
  | _ => []
  end.

Definition load (s : WorkQueues) (h : string) : nat := length (in_hand s h) + length (queued s h).

Definition event_work (k : event_kind) (h : string) (e : queue_event) : option work :=
  match e with QEvent k' h' i => if decide (k' = k /\ h' = h) then Some i else None end.

(** The work of household [h] that the log records with [k], in order. *)
Definition recorded (k : event_kind) (h : string) (s : WorkQueues) : list work :=
  omap (event_work k h) (wq_log s).

(** The work let in and not taken back. *)
Definition let_in (h : string) (s : WorkQueues) : list work :=
  filter (fun i => i ∉ recorded Dropped h s) (recorded Enqueued h s).

(** ** The invariant *)

Record household_ok (s : WorkQueues) (h : string) : Prop := {
  ho_count : wq_counts s !! h = (if decide (load s h = 0%nat) then None else Some (Z.of_nat (load s h)));
  ho_bound : Z.of_nat (load s h) <= wq_max_per_household s;
  ho_order : let_in h s = recorded Started h s ++ queued s h;
  ho_started : recorded Started h s = recorded Ended h s ++ in_hand s h;
  ho_nodup : NoDup (recorded Enqueued h s);
  ho_fresh : Forall (fun i => (i < wq_next s)%nat) (recorded Enqueued h s);
  ho_dropped : Forall (fun i => (i < wq_next s)%nat) (recorded Dropped h s)
}.

Record queues_ok (s : WorkQueues) : Prop := {
  qo_households : forall h, household_ok s h;
  qo_limits : 0 < wq_max_per_household s <= wq_max_total s;
  qo_total : wq_total s = wsum id (wq_counts s);
  qo_full : wq_total s <= wq_max_total s;
  qo_tasks : forall h t, wq_workers s !! h = Some t <-> exists o, wq_tasks s !! t = Some (h, o);
  qo_task_fresh : forall t o, wq_tasks s !! t = Some o -> (t < wq_next s)%nat
}.

Record closing_ok (s : WorkQueues) : Prop := {
  co_closed : wq_closed s = true -> forall h, queued s h = [];
  co_worker : forall h, is_Some (wq_queues s !! h) -> is_Some (wq_workers s !! h);
  co_draining : forall l, wq_draining s = Some l ->
    wq_closed s = true /\ forall h t, wq_workers s !! h = Some t -> t ∈ l
}.

(** ** Lemmas on the pieces *)

Lemma household_ok_frame s s' h :
  household_ok s h ->
  wq_max_per_household s' = wq_max_per_household s ->
  wq_counts s' !! h = wq_counts s !! h ->
  wq_queues s' !! h = wq_queues s !! h ->
  in_hand s' h = in_hand s h ->
  (forall k, recorded k h s' = recorded k h s) ->
  (wq_next s <= wq_next s')%nat ->
  household_ok s' h.
Proof.
  intros [? ? ? ? ? Hf Hd] Em Ec Eq Eh Er Hn.
  assert (queued s' h = queued s h) as Eq' by (unfold queued; by rewrite Eq).
  assert (load s' h = load s h) as El by (unfold load; by rewrite Eh, Eq').
  split; unfold let_in in *; rewrite ?El, ?Ec, ?Em, ?Eq', ?Eh, ?Er; auto.
  - eapply Forall_impl; [exact Hf|simpl; lia].
  - eapply Forall_impl; [exact Hd|simpl; lia].
Qed.

Lemma recorded_record k h k' h' i l :
  omap (event_work k h) (l ++ [QEvent k' h' i])
  = omap (event_work k h) l ++ (if decide (k' = k /\ h' = h) then [i] else []).
Proof. rewrite omap_app. simpl. by case_decide. Qed.

Lemma filter_ne_id (i : work) (q : list work) : i ∉ q -> filter (fun j => j <> i) q = q.
Proof.
  induction q as [|j q IH]; [done|]. intros [Hj Hq]%not_elem_of_cons.
  rewrite filter_cons_True by congruence. by rewrite IH.
Qed.

Lemma remove_first_filter i (q : list work) : NoDup q -> remove_first i q = filter (fun j => j <> i) q.
Proof.
  induction 1 as [|j q Hj _ IH]; simpl; [done|]. rewrite filter_cons. repeat case_decide; subst; try done.
  - by rewrite filter_ne_id.
  - by rewrite IH.
Qed.

Lemma remove_first_length i q : i ∈ q -> length q = S (length (remove_first i q)).
Proof.
  induction q as [|j q IH]; simpl; [by intros ?%not_elem_of_nil|]. intros Hi. case_decide; [done|].
  apply elem_of_cons in Hi as [->|Hi]; [done|]. simpl. by rewrite <- IH.
Qed.

(** The count after [_release_capacity]. *)
Definition one_less (h : string) (m : gmap string Z) (n : Z) : gmap string Z :=
  if n - 1 =? 0 then delete h m else <[h := n - 1]> m.

Lemma release_capacity_run s h n : wq_counts s !! h = Some n ->
  release_capacity h s = (Ok tt, s <| wq_total := wq_total s - 1 |>
                                   <| wq_counts := one_less h (wq_counts s) n |>).
Proof. intros Hn. unfold release_capacity. rewrite stm_bind_get, Hn. done. Qed.

Lemma one_less_ne h h' m n : h <> h' -> one_less h m n !! h' = m !! h'.
Proof. intros ?. unfold one_less. case_match; [by rewrite lookup_delete_ne|by rewrite lookup_insert_ne]. Qed.

Lemma one_less_eq h m (k : nat) :
  one_less h m (Z.of_nat (S k)) !! h = if decide (k = 0%nat) then None else Some (Z.of_nat k).
Proof.
  unfold one_less. case_decide as Hk; [subst; apply lookup_delete_eq|].
  rewrite (proj2 (Z.eqb_neq _ _)) by lia. rewrite lookup_insert_eq. f_equal. lia.
Qed.

Lemma one_less_wsum h m n : m !! h = Some n -> wsum id (one_less h m n) = wsum id m - 1.
Proof.
  intros Hn. unfold one_less. destruct (Z.eqb_spec (n - 1) 0).
  - rewrite (wsum_delete id m h n Hn). unfold id at 2. lia.
  - rewrite (wsum_insert id m h _ n Hn). unfold id at 1 2. lia.
Qed.

Lemma ho_load s h : household_ok s h -> (0 < load s h)%nat -> wq_counts s !! h = Some (Z.of_nat (load s h)).
Proof. intros Ho Hl. rewrite (ho_count _ _ Ho). case_decide; [lia|done]. Qed.

Lemma ho_works s h : household_ok s h -> NoDup (recorded Started h s ++ queued s h).
Proof. intros Ho. rewrite <- (ho_order _ _ Ho). apply NoDup_filter, (ho_nodup _ _ Ho). Qed.

Lemma recorded_other (s : WorkQueues) k h k' h' i l :
  wq_log s = l ++ [QEvent k' h' i] -> ~ (k' = k /\ h' = h) ->
  recorded k h s = omap (event_work k h) l.
Proof. intros Hl ?. unfold recorded. rewrite Hl, recorded_record, decide_False by done. apply app_nil_r. Qed.

Lemma recorded_same (s : WorkQueues) k h i l :
  wq_log s = l ++ [QEvent k h i] -> recorded k h s = omap (event_work k h) l ++ [i].
Proof. intros Hl. unfold recorded. by rewrite Hl, recorded_record, decide_True. Qed.

Lemma dropped_enqueued s h : household_ok s h ->
  forall i, i ∈ recorded Started h s ++ queued s h -> i ∈ recorded Enqueued h s /\ i ∉ recorded Dropped h s.
Proof. intros Ho i. rewrite <- (ho_order _ _ Ho). unfold let_in. rewrite list_elem_of_filter. tauto. Qed.

(** The household after work [i] has left its queue. *)
Lemma discarded_household s s' h i :
  household_ok s h -> i ∈ queued s h ->
  wq_log s' = wq_log s ++ [QEvent Dropped h i] ->
  wq_max_per_household s' = wq_max_per_household s -> wq_next s' = wq_next s ->
  in_hand s' h = in_hand s h -> queued s' h = remove_first i (queued s h) ->
  wq_counts s' = one_less h (wq_counts s) (Z.of_nat (load s h)) ->
  household_ok s' h.
Proof.
  intros Hh Hi Hlog Hm Hn Hhand Hq Hc.
  pose proof (remove_first_length i _ Hi) as Hlen. pose proof (ho_works s h Hh) as Hnd.
  assert (load s h = S (load s' h)) as El by (unfold load; rewrite Hhand, Hq; lia).
  assert (forall k, k <> Dropped -> recorded k h s' = recorded k h s) as Er
    by (intros k ?; apply (recorded_other s' k h _ _ _ _ Hlog); intros []; congruence).
  pose proof (recorded_same s' Dropped h i _ Hlog) as Ed. fold (recorded Dropped h s) in Ed.
  split.
  - by rewrite Hc, El, one_less_eq.
  - pose proof (ho_bound _ _ Hh). rewrite Hm. lia.
  - unfold let_in. rewrite (Er Enqueued), (Er Started), Ed, Hq by done.
    rewrite remove_first_filter by (apply NoDup_app in Hnd; tauto).
    rewrite <- (filter_ne_id i (recorded Started h s))
      by (apply NoDup_app in Hnd as (_ & Hd & _); intros ?; by eapply Hd).
    rewrite <- filter_app, <- (ho_order _ _ Hh). unfold let_in.
    rewrite list_filter_filter. apply list_filter_iff. intros x.
    rewrite not_elem_of_app, not_elem_of_cons. pose proof (not_elem_of_nil x). tauto.
  - rewrite (Er Started), (Er Ended), Hhand by done. apply (ho_started _ _ Hh).
  - rewrite Er by done. apply (ho_nodup _ _ Hh).
  - rewrite Er, Hn by done. apply (ho_fresh _ _ Hh).
  - rewrite Ed, Hn. apply Forall_app. split; [apply (ho_dropped _ _ Hh)|].
    apply Forall_singleton. apply (proj1 (Forall_forall _ _) (ho_fresh _ _ Hh)).
    apply (dropped_enqueued s h Hh), elem_of_app. by right.
Qed.

(** Work queued for a household leaves the queue without having run. *)
Lemma discard_run s h i q0 :
  queues_ok s -> wq_queues s !! h = Some q0 -> i ∈ q0 ->
  let s' := s <| wq_queues := <[h := remove_first i q0]> (wq_queues s) |>
              <| wq_total := wq_total s - 1 |>
              <| wq_counts := one_less h (wq_counts s) (Z.of_nat (load s h)) |>
              <| wq_log := wq_log s ++ [QEvent Dropped h i] |> in
  discard h i (remove_first i q0) s = (Ok tt, s') /\ queues_ok s'.
Proof.
  intros Hs Hq Hi s'. pose proof (qo_households _ Hs h) as Hh.
  assert (queued s h = q0) as Eq by (unfold queued; by rewrite Hq).
  assert (wq_counts s !! h = Some (Z.of_nat (load s h))) as Hc
    by (apply (ho_load s h Hh); unfold load; rewrite Eq, (remove_first_length i q0 Hi); lia).
  split.
  { set (s1 := s <| wq_queues := <[h := remove_first i q0]> (wq_queues s) |>).
    change ((release_capacity h ≫= fun _ => record (QEvent Dropped h i)) s1 = (Ok tt, s')).
    unfold mbind, stm_bind. by rewrite (release_capacity_run s1 h _ Hc). }
  destruct Hs as [Hall Hlim Htot Hfull Htk Hfr]. split; simpl; auto.
  - intros h'. destruct (decide (h' = h)) as [->|Hne].
    + apply (discarded_household s s' h i); try done; rewrite Eq; [done|].
      unfold queued. simpl. by rewrite lookup_insert_eq.
    + apply (household_ok_frame s); auto; simpl; [by apply one_less_ne|by rewrite lookup_insert_ne|].
      intros k. apply (recorded_other s' k h' Dropped h i); [done|]. intros []. congruence.
  - rewrite one_less_wsum by done. lia.
  - lia.
Qed.

(** What draining leaves alone. *)
Definition same_workers (s s' : WorkQueues) : Prop :=
  wq_workers s' = wq_workers s /\ wq_tasks s' = wq_tasks s /\
  wq_closed s' = wq_closed s /\ wq_draining s' = wq_draining s.

Lemma drain_queue_run q : forall h s, queues_ok s -> wq_queues s !! h = Some q ->
  exists s', drain_queue h q s = (Ok tt, s') /\ queues_ok s' /\ same_workers s s' /\
    wq_queues s' = <[h := []]> (wq_queues s).
Proof.
  induction q as [|i q IH]; intros h s Hs Hq.
  - exists s. split_and!; try done. by rewrite insert_id.
  - destruct (discard_run s h i (i :: q) Hs Hq ltac:(set_solver)) as [Hrun Hs1].
    simpl in Hrun, Hs1. rewrite !decide_True in Hrun by done. rewrite !decide_True in Hs1 by done.
    destruct (IH h _ Hs1) as (s' & Hd & Hs' & Hsame & Hqs); [by apply lookup_insert_eq|].
    exists s'. split_and!; [|done|done|].
    + change ((discard h i q ≫= fun _ => drain_queue h q) s = (Ok tt, s')).
      unfold mbind, stm_bind. by rewrite Hrun.
    + rewrite Hqs. apply insert_insert_eq.
Qed.

Lemma drain_queues_run l : forall s, queues_ok s -> NoDup l.*1 ->
  Forall (fun hq => wq_queues s !! fst hq = Some (snd hq)) l ->
  exists s', drain_queues l s = (Ok tt, s') /\ queues_ok s' /\ same_workers s s' /\
    (forall h, is_Some (wq_queues s' !! h) -> is_Some (wq_queues s !! h)) /\
    (forall h, h ∈ l.*1 -> queued s' h = []) /\ (forall h, h ∉ l.*1 -> queued s' h = queued s h).
Proof.
  induction l as [|[h q] l IH]; intros s Hs Hnd Hl.
  - exists s. split_and!; try done. intros h ?%not_elem_of_nil. done.
  - simpl in Hnd. apply NoDup_cons in Hnd as [Hh Hnd]. apply Forall_cons in Hl as [Hq Hl].
    destruct (drain_queue_run q h s Hs Hq) as (s1 & Hd1 & Hs1 & Hsame1 & Hqs1).
    destruct (IH s1 Hs1 Hnd) as (s' & Hd & Hs' & Hsame & Hdom & Hin & Hout).
    { apply Forall_forall. intros [h' q'] Hin. rewrite Hqs1. simpl.
      rewrite lookup_insert_ne by (intros ->; apply Hh, list_elem_of_fmap; by exists (h', q')).
      by apply (proj1 (Forall_forall _ _) Hl (h', q')). }
    exists s'. split_and!; [|done| | | |].
    + change ((drain_queue h q ≫= fun _ => drain_queues l) s = (Ok tt, s')).
      unfold mbind, stm_bind. by rewrite Hd1.
    + unfold same_workers in *. destruct_ands. split_and!; congruence.
    + intros h' Hh'. apply Hdom in Hh'. rewrite Hqs1 in Hh'.
      destruct (decide (h' = h)) as [->|]; [eauto|by rewrite lookup_insert_ne in Hh'].
    + simpl. intros h' [->|?]%elem_of_cons; [|by apply Hin].
      rewrite (Hout h Hh). unfold queued. by rewrite Hqs1, lookup_insert_eq.
    + simpl. intros h' [Hne ?]%not_elem_of_cons. rewrite (Hout h') by done.
      unfold queued. by rewrite Hqs1, lookup_insert_ne.
Qed.

Lemma queues_ok_flags s c d : queues_ok s -> queues_ok (s <| wq_closed := c |> <| wq_draining := d |>).
Proof. intros [Ha ? ? ? ? ?]. split; auto. intros h. by destruct (Ha h). Qed.

Definition wq_ok (s : WorkQueues) : Prop := queues_ok s /\ closing_ok s.

Lemma close_begin_run s : wq_ok s ->
  exists s', close_begin s = (Ok tt, s') /\ wq_ok s' /\ wq_closed s' = true /\
    wq_workers s' = wq_workers s /\ wq_tasks s' = wq_tasks s.
Proof.
  intros [Hs Hco]. set (s1 := s <| wq_closed := true |>).
  assert (queues_ok s1) as Hs1 by apply (queues_ok_flags s true (wq_draining s) Hs).
  destruct (drain_queues_run (map_to_list (wq_queues s)) s1 Hs1) as (s2 & Hd & Hs2 & Hsame & Hdom & Hin & Hout).
  { apply NoDup_fst_map_to_list. }
  { apply Forall_forall. intros [h q] ?. by apply elem_of_map_to_list. }
  destruct Hsame as (Hw & Ht & Hc & _). simpl in Hw, Ht, Hc.
  exists (s2 <| wq_draining := Some (snd <$> map_to_list (wq_workers s2)) |>). split; [|split].
  - change ((drain_queues (map_to_list (wq_queues s)) ≫= fun _ =>
      modify (fun s => s <| wq_draining := Some (snd <$> map_to_list (wq_workers s)) |>)) s1
      = (Ok tt, s2 <| wq_draining := Some (snd <$> map_to_list (wq_workers s2)) |>)).
    unfold mbind, stm_bind. by rewrite Hd.
  - split; [apply (queues_ok_flags s2 (wq_closed s2) _ Hs2)|]. split.
    + intros _ h. change (queued s2 h = []). destruct (wq_queues s !! h) as [q|] eqn:Eq.
      * apply Hin, list_elem_of_fmap. exists (h, q). split; [done|]. by apply elem_of_map_to_list.
      * rewrite Hout; [unfold queued; simpl; by rewrite Eq|].
        intros ((h', q) & Heq & Hm%elem_of_map_to_list)%list_elem_of_fmap. simpl in *. congruence.
    + simpl. intros h Hh. rewrite Hw. apply (co_worker _ Hco), (Hdom h Hh).
    + intros l [= <-]. split; [done|]. simpl. intros h t ?. apply list_elem_of_fmap.
      exists (h, t). split; [done|]. by apply elem_of_map_to_list.
  - done.
Qed.

(** *** Work let in *)

Definition with_work (h : string) (s : WorkQueues) : WorkQueues :=
  s <| wq_queues := <[h := queued s h ++ [wq_next s]]> (wq_queues s) |>
    <| wq_counts := <[h := default 0 (wq_counts s !! h) + 1]> (wq_counts s) |>
    <| wq_total := wq_total s + 1 |>
    <| wq_next := S (wq_next s) |>
    <| wq_log := wq_log s ++ [QEvent Enqueued h (wq_next s)] |>.

Definition with_worker (h : string) (s : WorkQueues) : WorkQueues :=
  if opt_bool (wq_workers s !! h) then s
  else s <| wq_workers := <[h := wq_next s]> (wq_workers s) |>
         <| wq_tasks := <[wq_next s := (h, None)]> (wq_tasks s) |>
         <| wq_next := S (wq_next s) |>.

Lemma default_count s h : household_ok s h -> default 0 (wq_counts s !! h) = Z.of_nat (load s h).
Proof. intros Ho. rewrite (ho_count _ _ Ho). case_decide as E; simpl; lia. Qed.

Definition admits (s : WorkQueues) (h : string) : bool :=
  negb (is_blank h) && negb (wq_closed s)
  && (default 0 (wq_counts s !! h) <? wq_max_per_household s) && (wq_total s <? wq_max_total s).

(** [submit] either lets the work in or raises and changes nothing. *)
Lemma enqueue_run s h :
  enqueue h s = if admits s h then (Ok (wq_next s), with_worker h (with_work h s))
                else (Err (if is_blank h then ValueError "household_id must be non-empty"
                           else if wq_closed s then QueueClosed else QueueOverloaded), s).
Proof.
  unfold enqueue, admits. rewrite stm_bind_lift. destruct (is_blank h); simpl; [done|].
  rewrite stm_bind_get, stm_bind_lift. destruct (wq_closed s) eqn:Ec; simpl; [done|].
  rewrite stm_bind_lift, !Z.ltb_antisym.
  destruct (_ <=? default 0 _); simpl; [done|].
  destruct (_ <=? wq_total s); simpl; [done|]. unfold with_work, set_field, update. simpl. by rewrite Ec.
Qed.

Lemma fresh_task s : queues_ok s -> wq_tasks s !! wq_next s = None.
Proof. intros Hs. apply eq_None_not_Some. intros [o Ho]. pose proof (qo_task_fresh _ Hs _ _ Ho). lia. Qed.

Lemma in_hand_with_worker s h h' : queues_ok s -> in_hand (with_worker h s) h' = in_hand s h'.
Proof.
  intros Hs. unfold with_worker. destruct (wq_workers s !! h) as [t|] eqn:Ew; simpl; [done|].
  unfold in_hand; simpl. destruct (decide (h' = h)) as [->|].
  - rewrite lookup_insert_eq, Ew. simpl. by rewrite lookup_insert_eq.
  - rewrite lookup_insert_ne by done. destruct (wq_workers s !! h') as [t|] eqn:E; simpl; [|done].
    rewrite lookup_insert_ne; [done|]. intros <-. apply (qo_tasks _ Hs) in E as [o Ho].
    pose proof (fresh_task s Hs). congruence.
Qed.

Lemma with_worker_ok s h : queues_ok s -> queues_ok (with_worker h s) /\ is_Some (wq_workers (with_worker h s) !! h).
Proof.
  intros Hs. pose proof (fun h' => in_hand_with_worker s h h' Hs) as Hhand. revert Hhand.
  unfold with_worker. destruct (wq_workers s !! h) as [t|] eqn:Ew; simpl; [eauto|]. intros Hhand.
  split; [|by rewrite lookup_insert_eq].
  pose proof (fresh_task s Hs) as Hnew.
  destruct Hs as [Hall Hlim Htot Hfull Htk Hfr]. split; simpl; auto.
  - intros h'. apply (household_ok_frame s); auto; simpl; first [apply Hhand|lia].
  - intros h' t. destruct (decide (h' = h)) as [->|].
    + rewrite lookup_insert_eq. split; [intros [= <-]; exists None; by rewrite lookup_insert_eq|].
      intros [o Ho]. apply lookup_insert_Some in Ho as [[<- _]|[_ Ho]]; [done|].
      assert (wq_workers s !! h = Some t) by (apply Htk; eauto). congruence.
    + rewrite lookup_insert_ne by done. rewrite Htk. split; intros [o Ho]; exists o.
      * rewrite lookup_insert_ne; [done|]. congruence.
      * apply lookup_insert_Some in Ho as [[_ Ho]|[_ Ho]]; congruence.
  - intros t o [[<- _]|[_ Ho]]%lookup_insert_Some; [lia|]. specialize (Hfr _ _ Ho). lia.
Qed.

Lemma with_work_ok s h : queues_ok s -> admits s h = true -> queues_ok (with_work h s).
Proof.
  intros Hs Ha. set (s' := with_work h s). set (i := wq_next s).
  pose proof (qo_households _ Hs h) as Hh.
  unfold admits in Ha. rewrite (default_count s h Hh) in Ha. apply andb_true_iff in Ha as [Ha Ht%Z.ltb_lt].
  apply andb_true_iff in Ha as [_ Hl%Z.ltb_lt].
  assert (wq_log s' = wq_log s ++ [QEvent Enqueued h i]) as El by done.
  assert (queued s' h = queued s h ++ [i]) as Eq by (unfold queued; simpl; by rewrite lookup_insert_eq).
  assert (load s' h = S (load s h)) as Eld by (unfold load; rewrite Eq, length_app; simpl; unfold in_hand; simpl; lia).
  assert (forall k, k <> Enqueued -> recorded k h s' = recorded k h s) as Er
    by (intros k ?; apply (recorded_other s' k h _ _ _ _ El); intros [? ?]; congruence).
  pose proof (recorded_same s' Enqueued h i _ El) as Ee. fold (recorded Enqueued h s) in Ee.
  pose proof (ho_fresh _ _ Hh) as Hfresh. rewrite Forall_forall in Hfresh.
  destruct Hs as [Hall Hlim Htot Hfull Htk Hfr]. split; simpl; auto.
  - intros h'. destruct (decide (h' = h)) as [->|Hne].
    2:{ apply (household_ok_frame s); auto; simpl; try by rewrite lookup_insert_ne.
        2:{ simpl. lia. }
        intros k. apply (recorded_other s' k h' _ _ _ _ El). intros [? ?]. congruence. }
    split.
    + simpl. rewrite (default_count s h Hh), lookup_insert_eq, Eld. simpl. f_equal. lia.
    + rewrite Eld. simpl. lia.
    + unfold let_in. rewrite Ee, filter_app, (Er Started), (Er Dropped), Eq, app_assoc by done.
      fold (let_in h s). rewrite (ho_order _ _ Hh). f_equal.
      rewrite filter_cons, decide_True; [done|]. intros Hd.
      pose proof (proj1 (Forall_forall _ _) (ho_dropped _ _ Hh) i Hd) as Hlt. unfold i in Hlt. simpl in Hlt. lia.
    + rewrite (Er Started), (Er Ended) by done. apply (ho_started _ _ Hh).
    + rewrite Ee. apply NoDup_app. split; [apply (ho_nodup _ _ Hh)|]. split; [|apply NoDup_singleton].
      intros j Hj ->%list_elem_of_singleton. specialize (Hfresh i Hj). unfold i in *. lia.
    + rewrite Ee, Forall_app, Forall_singleton. split; [|unfold i; simpl; lia].
      apply Forall_forall. intros j Hj. specialize (Hfresh j Hj). simpl. lia.
    + rewrite Er by done. eapply Forall_impl; [apply (ho_dropped _ _ Hh)|simpl; lia].
  - destruct (wq_counts s !! h) as [n|] eqn:Ec; simpl.
    + rewrite (wsum_insert id _ _ _ _ Ec). unfold id at 1 2. lia.
    + rewrite (wsum_insert_new id) by done. unfold id at 1. lia.
  - lia.
  - intros t o Ho. specialize (Hfr t o Ho). lia.
Qed.

(** *** The workers *)

Definition hand (o : option work) : list work := match o with Some i => [i] | None => [] end.

Lemma in_hand_task s t h o : queues_ok s -> wq_tasks s !! t = Some (h, o) ->
  wq_workers s !! h = Some t /\ in_hand s h = hand o.
Proof.
  intros Hs Ht. assert (wq_workers s !! h = Some t) as Hw by (apply (qo_tasks _ Hs); eauto).
  split; [done|]. unfold in_hand. rewrite Hw. simpl. by rewrite Ht.
Qed.

(** A step of the worker [t] of [h] leaves the hands of the others alone. *)
Lemma in_hand_other s s' t h h' o : queues_ok s -> wq_tasks s !! t = Some (h, o) -> h' <> h ->
  wq_workers s' !! h' = wq_workers s !! h' ->
  (forall t', t' <> t -> wq_tasks s' !! t' = wq_tasks s !! t') ->
  in_hand s' h' = in_hand s h'.
Proof.
  intros Hs Ht Hne Hw Hts. unfold in_hand. rewrite Hw.
  destruct (wq_workers s !! h') as [t'|] eqn:Ew; simpl; [|done].
  rewrite Hts; [done|]. intros ->. apply (qo_tasks _ Hs) in Ew as [o' Ho']. congruence.
Qed.

Definition without_worker (h : string) (t : nat) (s : WorkQueues) : WorkQueues :=
  s <| wq_workers := delete h (wq_workers s) |> <| wq_queues := delete h (wq_queues s) |>
    <| wq_tasks := delete t (wq_tasks s) |>.

Definition with_started (h : string) (t : nat) (i : work) (q : list work) (s : WorkQueues) : WorkQueues :=
  s <| wq_queues := <[h := q]> (wq_queues s) |> <| wq_tasks := <[t := (h, Some i)]> (wq_tasks s) |>
    <| wq_log := wq_log s ++ [QEvent Started h i] |>.

Definition with_ended (h : string) (t : nat) (i : work) (s : WorkQueues) : WorkQueues :=
  s <| wq_log := wq_log s ++ [QEvent Ended h i] |>
    <| wq_total := wq_total s - 1 |>
    <| wq_counts := one_less h (wq_counts s) (Z.of_nat (load s h)) |>
    <| wq_tasks := <[t := (h, None)]> (wq_tasks s) |>.

Lemma worker_take_run s t :
  worker_take t s =
    match wq_tasks s !! t with
    | Some (h, None) =>
        (Ok true, match queued s h with
                  | [] => without_worker h t s
                  | i :: q => with_started h t i q s
                  end)
    | _ => (Ok false, s)
    end.
Proof.
  unfold worker_take, queued. rewrite stm_bind_get.
  destruct (wq_tasks s !! t) as [[h [i|]]|]; [done| |done]. by destruct (default [] _).
Qed.

Lemma worker_finish_run s t : queues_ok s ->
  worker_finish t s =
    match wq_tasks s !! t with
    | Some (h, Some i) => (Ok true, with_ended h t i s)
    | _ => (Ok false, s)
    end.
Proof.
  intros Hs. unfold worker_finish. rewrite stm_bind_get.
  destruct (wq_tasks s !! t) as [[h [i|]]|] eqn:Et; [|done|done].
  destruct (in_hand_task s t h (Some i) Hs Et) as [_ Hh].
  assert (wq_counts s !! h = Some (Z.of_nat (load s h))) as Hc
    by (apply (ho_load s h (qo_households _ Hs h)); unfold load; rewrite Hh; simpl; lia).
  set (s1 := s <| wq_log := wq_log s ++ [QEvent Ended h i] |>).
  change ((release_capacity h ≫= fun _ =>
    modify (fun s => s <| wq_tasks := <[t := (h, None)]> (wq_tasks s) |>) ≫= fun _ => mret true) s1
    = (Ok true, with_ended h t i s)).
  unfold mbind at 1, stm_bind at 1. by rewrite (release_capacity_run s1 h _ Hc).
Qed.

Lemma insert_task_ok s t h o o' : queues_ok s -> wq_tasks s !! t = Some (h, o) ->
  forall h' t', wq_workers s !! h' = Some t' <-> exists o'', <[t := (h, o')]> (wq_tasks s) !! t' = Some (h', o'').
Proof.
  intros Hs Ht h' t'. rewrite (qo_tasks _ Hs). destruct (decide (t' = t)) as [->|].
  - rewrite lookup_insert_eq, Ht. split; intros [? [= <- <-]]; eauto.
  - by rewrite lookup_insert_ne.
Qed.

Lemma insert_task_fresh s t h o o' : queues_ok s -> wq_tasks s !! t = Some (h, o) ->
  forall t' o'', <[t := (h, o')]> (wq_tasks s) !! t' = Some o'' -> (t' < wq_next s)%nat.
Proof.
  intros Hs Ht t' o'' [[<- _]|[_ Ho]]%lookup_insert_Some; by eapply (qo_task_fresh _ Hs).
Qed.

Lemma without_worker_ok s t h : queues_ok s -> wq_tasks s !! t = Some (h, None) -> queued s h = [] ->
  queues_ok (without_worker h t s).
Proof.
  intros Hs Ht Hq. destruct (in_hand_task s t h None Hs Ht) as [Hw Hh]. simpl in Hh.
  set (s' := without_worker h t s).
  assert (in_hand s' h = []) as Hh' by (unfold in_hand; simpl; by rewrite lookup_delete_eq).
  assert (queued s' h = []) as Hq' by (unfold queued; simpl; by rewrite lookup_delete_eq).
  pose proof (qo_households _ Hs h) as Hho.
  split; simpl; try apply Hs.
  - intros h'. destruct (decide (h' = h)) as [->|Hne].
    + destruct Hho as [Hc Hb Ho Hst ? ? ?].
      split; unfold load in *; rewrite ?Hh', ?Hq', ?Hh, ?Hq in *; auto.
    + apply (household_ok_frame s); auto; simpl; [apply (qo_households _ Hs)|by rewrite lookup_delete_ne|].
      apply (in_hand_other s s' t h h' None Hs Ht Hne); simpl; [by apply lookup_delete_ne|].
      intros t' ?. by apply lookup_delete_ne.
  - intros h' t'. destruct (decide (h' = h)) as [->|Hne].
    + rewrite lookup_delete_eq. split; [done|]. intros [o Ho].
      apply lookup_delete_Some in Ho as [Hne Ho].
      assert (wq_workers s !! h = Some t') by (apply (qo_tasks _ Hs); eauto). congruence.
    + rewrite lookup_delete_ne, (qo_tasks _ Hs) by done. split; intros [o Ho]; exists o.
      * rewrite lookup_delete_ne; [done|]. congruence.
      * by apply lookup_delete_Some in Ho as [_ Ho].
  - intros t' o [_ Ho]%lookup_delete_Some. by eapply (qo_task_fresh _ Hs).
Qed.

Lemma with_started_ok s t h i q : queues_ok s -> wq_tasks s !! t = Some (h, None) -> queued s h = i :: q ->
  queues_ok (with_started h t i q s).
Proof.
  intros Hs Ht Hq. destruct (in_hand_task s t h None Hs Ht) as [Hw Hh]. simpl in Hh.
  set (s' := with_started h t i q s).
  assert (wq_log s' = wq_log s ++ [QEvent Started h i]) as El by done.
  assert (in_hand s' h = [i]) as Hh' by (unfold in_hand; simpl; rewrite Hw; simpl; by rewrite lookup_insert_eq).
  assert (queued s' h = q) as Hq' by (unfold queued; simpl; by rewrite lookup_insert_eq).
  assert (load s' h = load s h) as Eld by (unfold load; rewrite Hh, Hh', Hq, Hq'; done).
  assert (forall k, k <> Started -> recorded k h s' = recorded k h s) as Er
    by (intros k ?; apply (recorded_other s' k h _ _ _ _ El); intros []; congruence).
  pose proof (recorded_same s' Started h i _ El) as Es. fold (recorded Started h s) in Es.
  pose proof (qo_households _ Hs h) as Hho.
  split; simpl; try apply Hs; [|by eapply insert_task_ok|by eapply insert_task_fresh].
  intros h'. destruct (decide (h' = h)) as [->|Hne].
  - destruct Hho as [Hc Hb Ho Hst ? ? ?]. split; rewrite ?Eld, ?Er by done; auto.
    + unfold let_in. rewrite (Er Enqueued), (Er Dropped), Es, Hq', <- app_assoc by done. by rewrite Hq in Ho.
    + rewrite Es, (Er Ended) by done. rewrite Hh', Hst, Hh, app_nil_r. done.
  - apply (household_ok_frame s); auto; simpl; [apply (qo_households _ Hs)|by rewrite lookup_insert_ne| |].
    + apply (in_hand_other s s' t h h' None Hs Ht Hne); simpl; [done|]. intros t' ?. by apply lookup_insert_ne.
    + intros k. apply (recorded_other s' k h' _ _ _ _ El). intros []. congruence.
Qed.

Lemma with_ended_ok s t h i : queues_ok s -> wq_tasks s !! t = Some (h, Some i) ->
  queues_ok (with_ended h t i s).
Proof.
  intros Hs Ht. destruct (in_hand_task s t h (Some i) Hs Ht) as [Hw Hh]. simpl in Hh.
  set (s' := with_ended h t i s).
  assert (wq_log s' = wq_log s ++ [QEvent Ended h i]) as El by done.
  assert (in_hand s' h = []) as Hh' by (unfold in_hand; simpl; rewrite Hw; simpl; by rewrite lookup_insert_eq).
  assert (load s h = S (length (queued s h))) as Eld by (unfold load; by rewrite Hh).
  assert (load s' h = length (queued s h)) as Eld' by (unfold load; rewrite Hh'; done).
  assert (forall k, k <> Ended -> recorded k h s' = recorded k h s) as Er
    by (intros k ?; apply (recorded_other s' k h _ _ _ _ El); intros []; congruence).
  pose proof (recorded_same s' Ended h i _ El) as Es. fold (recorded Ended h s) in Es.
  pose proof (qo_households _ Hs h) as Hho. pose proof (ho_load s h Hho ltac:(lia)) as Hc.
  split; simpl; try apply Hs; [| | |by eapply insert_task_ok|by eapply insert_task_fresh].
  - intros h'. destruct (decide (h' = h)) as [->|Hne].
    + destruct Hho as [_ Hb Ho Hst ? ? ?]. split; rewrite ?Er by done; auto.
      * simpl. by rewrite Eld', Eld, one_less_eq.
      * rewrite Eld'. simpl. lia.
      * unfold let_in. rewrite ?(Er Enqueued), ?(Er Dropped), ?(Er Started) by done. exact Ho.
      * rewrite Es, Hh', Hst, Hh, app_nil_r. done.
    + apply (household_ok_frame s); auto; simpl; [apply (qo_households _ Hs)|by apply one_less_ne| |].
      * apply (in_hand_other s s' t h h' _ Hs Ht Hne); simpl; [done|]. intros t' ?. by apply lookup_insert_ne.
      * intros k. apply (recorded_other s' k h' _ _ _ _ El). intros []. congruence.
  - rewrite one_less_wsum by done. pose proof (qo_total _ Hs). lia.
  - pose proof (qo_full _ Hs). lia.
Qed.

(** ** Every step keeps the invariant *)

Lemma closing_ok_less s s' : closing_ok s ->
  wq_closed s' = wq_closed s -> wq_draining s' = wq_draining s ->
  (forall h, queued s' h = [] \/ queued s h <> []) ->
  (forall h, is_Some (wq_queues s' !! h) -> is_Some (wq_queues s !! h) /\ (is_Some (wq_workers s !! h) -> is_Some (wq_workers s' !! h))) ->
  (forall h t, wq_workers s' !! h = Some t -> wq_workers s !! h = Some t) ->
  closing_ok s'.
Proof.
  intros [Hc Hw Hd] Ec Ed Hq Hqs Hws. split.
  - rewrite Ec. intros Hcl h. destruct (Hq h) as [?|Hne]; [done|]. by destruct Hne; apply Hc.
  - intros h Hh. destruct (Hqs h Hh) as [? Hi]. by apply Hi, Hw.
  - rewrite Ec, Ed. intros l Hl. destruct (Hd l Hl) as [? Hin]. split; [done|]. intros h t ?. by apply (Hin h), Hws.
Qed.

Lemma enqueue_ok s h : wq_ok s -> admits s h = true -> wq_ok (with_worker h (with_work h s)).
Proof.
  intros [Hs Hco] Ha. pose proof (with_work_ok s h Hs Ha) as Hs1.
  destruct (with_worker_ok _ h Hs1) as [Hs2 Hw]. split; [done|].
  assert (wq_closed s = false) as Hopen.
  { unfold admits in Ha. destruct (wq_closed s); [|done]. by rewrite andb_false_r in Ha. }
  assert (wq_closed (with_worker h (with_work h s)) = false /\
          wq_draining (with_worker h (with_work h s)) = wq_draining s /\
          wq_queues (with_worker h (with_work h s)) = wq_queues (with_work h s)) as (Ec & Ed & Eq).
  { unfold with_worker. by destruct (opt_bool _). }
  split.
  - congruence.
  - intros h' Hh. rewrite Eq in Hh. destruct (decide (h' = h)) as [->|Hne]; [done|].
    simpl in Hh. rewrite lookup_insert_ne in Hh by done. apply (co_worker _ Hco) in Hh.
    unfold with_worker. destruct (opt_bool _); simpl; [done|]. by rewrite lookup_insert_ne.
  - rewrite Ed. intros l Hl. destruct (co_draining _ Hco l Hl). congruence.
Qed.

Lemma worker_take_ok s t : wq_ok s -> wq_ok (snd (worker_take t s)).
Proof.
  intros [Hs Hco]. rewrite worker_take_run. destruct (wq_tasks s !! t) as [[h [i|]]|] eqn:Et; [done| |done].
  destruct (in_hand_task s t h None Hs Et) as [Hw _].
  destruct (queued s h) as [|i q] eqn:Eq; simpl.
  - split; [by apply without_worker_ok|]. apply (closing_ok_less s); try done; simpl.
    + intros h'. destruct (decide (h' = h)) as [->|]; unfold queued; simpl.
      * rewrite lookup_delete_eq. by left.
      * rewrite lookup_delete_ne by done. by destruct (default [] _); [left|right].
    + intros h' Hh. destruct (decide (h' = h)) as [->|]; [by rewrite lookup_delete_eq in Hh; destruct Hh|].
      rewrite lookup_delete_ne in Hh by done. by rewrite lookup_delete_ne.
    + intros h' t' [_ ?]%lookup_delete_Some. done.
  - split; [by apply with_started_ok|]. apply (closing_ok_less s); try done; simpl.
    + intros h'. destruct (decide (h' = h)) as [->|]; [right; by rewrite Eq|].
      unfold queued. simpl. rewrite lookup_insert_ne by done. by destruct (default [] _); [left|right].
    + intros h' Hh. split; [|done]. destruct (decide (h' = h)) as [->|]; [|by rewrite lookup_insert_ne in Hh].
      unfold queued in Eq. by destruct (wq_queues s !! h); eauto.
Qed.

Lemma worker_finish_ok s t : wq_ok s -> wq_ok (snd (worker_finish t s)).
Proof.
  intros [Hs Hco]. rewrite worker_finish_run by done. destruct (wq_tasks s !! t) as [[h [i|]]|] eqn:Et; [|done|done].
  split; [by apply with_ended_ok|]. apply (closing_ok_less s); try done.
  intros h'. change (queued s h' = [] \/ queued s h' <> []). by destruct (queued s h'); [left|right].
Qed.

Lemma cancel_submit_run s h i : wq_ok s ->
  exists b s', cancel_submit h i s = (Ok b, s') /\ wq_ok s' /\
    wq_workers s' = wq_workers s /\ wq_tasks s' = wq_tasks s.
Proof.
  intros [Hs Hco]. unfold cancel_submit. rewrite stm_bind_get.
  destruct (wq_queues s !! h) as [q|] eqn:Eq; [|by exists false, s].
  case_bool_decide as Hi; [|by exists false, s].
  destruct (discard_run s h i q Hs Eq Hi) as [Hrun Hs']. eexists true, _. split.
  - unfold mbind, stm_bind. by rewrite Hrun.
  - split; [split; [exact Hs'|]|done]. apply (closing_ok_less s); try done; simpl.
    + intros h'. destruct (decide (h' = h)) as [->|]; unfold queued; simpl.
      * right. rewrite Eq. simpl. intros ->. by apply not_elem_of_nil in Hi.
      * rewrite lookup_insert_ne by done. by destruct (default [] _); [left|right].
    + intros h' Hh. split; [|done]. destruct (decide (h' = h)) as [->|]; [eauto|by rewrite lookup_insert_ne in Hh].
Qed.

Lemma gmap_none_empty {A} (m : gmap string A) : (forall k, m !! k = None) -> m = ∅.
Proof. intros Hm. apply map_eq. intros k. by rewrite Hm, lookup_empty. Qed.

Definition idle (s : WorkQueues) : Prop :=
  wq_tasks s = ∅ /\ wq_workers s = ∅ /\ wq_queues s = ∅ /\ wq_counts s = ∅ /\ wq_total s = 0.

Lemma no_workers_idle s : wq_ok s -> wq_workers s = ∅ -> idle s.
Proof.
  intros [Hs Hco] Hw.
  assert (wq_queues s = ∅) as Hq.
  { apply gmap_none_empty. intros h. apply eq_None_not_Some. intros Hh.
    apply (co_worker _ Hco) in Hh. rewrite Hw, lookup_empty in Hh. by destruct Hh. }
  assert (wq_counts s = ∅) as Hc.
  { apply gmap_none_empty. intros h. rewrite (ho_count _ _ (qo_households _ Hs h)), decide_True; [done|].
    unfold load, in_hand, queued. by rewrite Hw, Hq, !lookup_empty. }
  split_and!; [|done|done|done|by rewrite (qo_total _ Hs), Hc].
  apply map_eq. intros t. rewrite lookup_empty. apply eq_None_not_Some. intros [[h o] Ht].
  assert (wq_workers s !! h = Some t) as Hh by (apply (qo_tasks _ Hs); eauto).
  by rewrite Hw, lookup_empty in Hh.
Qed.

(** The clearing at the end of [close] changes nothing. *)
Lemma close_end_run s : wq_ok s ->
  close_end s = (Ok false, s) \/ close_end s = (Ok true, s <| wq_draining := None |>) /\ idle s.
Proof.
  intros Hok. pose proof Hok as [Hs Hco]. unfold close_end. rewrite stm_bind_get.
  destruct (wq_draining s) as [l|] eqn:Ed; [|by left].
  destruct (forallb _ l) eqn:Ef; [|by left]. right.
  assert (wq_workers s = ∅) as Hw.
  { apply gmap_none_empty. intros h. apply eq_None_not_Some. intros [t Ht].
    destruct (co_draining _ Hco l Ed) as [_ Hin]. specialize (Hin h t Ht).
    rewrite forallb_forall in Ef. specialize (Ef t (proj1 (list_elem_of_In _ _) Hin)).
    apply (qo_tasks _ Hs) in Ht as [o Ho]. by rewrite Ho in Ef. }
  pose proof (no_workers_idle s Hok Hw) as Hi. split; [|done].
  destruct Hi as (_ & _ & Hq & Hc & Ht), s. simpl in *. by subst.
Qed.

Lemma close_end_ok s : wq_ok s -> wq_ok (s <| wq_draining := None |>).
Proof.
  intros [Hs Hco]. split; [apply (queues_ok_flags s (wq_closed s) None Hs)|].
  split; [apply (co_closed _ Hco)|apply (co_worker _ Hco)|done].
Qed.

Lemma new_queues_ok a b s : new_queues a b = Ok s -> wq_ok s.
Proof.
  unfold new_queues. rewrite result_bind_ok. intros ([] & H1%raise_if_ok & H2).
  apply result_bind_ok in H2 as ([] & H2%raise_if_ok & [= <-]).
  apply orb_false_iff in H1 as [H1%Z.leb_gt _]. apply Z.ltb_ge in H2.
  split; split; try done; simpl; try lia.
  - intros h. split; try done; try constructor. change (0 <= a). lia.
  - intros h t. split; [done|]. by intros [o Ho].
  - intros h Hh. by destruct Hh.
Qed.

Lemma queue_step_ok op s : wq_ok s ->
  wq_ok (snd (queue_step op s)) /\ fst (queue_step op s) <> Some KeyError.
Proof.
  intros Hok. destruct op as [h|h i|t|t| |]; simpl.
  - rewrite enqueue_run. destruct (admits s h) eqn:Ea; simpl; [by split; [apply enqueue_ok|]|].
    split; [done|]. by destruct (is_blank h), (wq_closed s).
  - by destruct (cancel_submit_run s h i Hok) as (b & s' & -> & Hs' & _).
  - pose proof (worker_take_ok s t Hok) as H. rewrite worker_take_run in *.
    by destruct (wq_tasks s !! t) as [[h [i|]]|].
  - pose proof (worker_finish_ok s t Hok) as H. destruct Hok. rewrite worker_finish_run in * by done.
    by destruct (wq_tasks s !! t) as [[h [i|]]|].
  - by destruct (close_begin_run s Hok) as (s' & -> & Hs' & _).
  - destruct (close_end_run s Hok) as [->|[-> _]]; [done|]. split; [by apply close_end_ok|done].
Qed.

Lemma reachable_ok s : reachable s -> wq_ok s.
Proof. induction 1 as [a b s Hs|s op _ IH]; [by eapply new_queues_ok|by apply queue_step_ok]. Qed.

Lemma depths_counts s : queues_ok s -> depths s = wq_counts s.
Proof.
  intros Hs. apply map_filter_id. intros h n Hn.
  rewrite (ho_count _ _ (qo_households _ Hs h)) in Hn. case_decide; simplify_eq. simpl. lia.
Qed.

(** ** Theorems *)

(** The work a household has, queued and running, is what [depths] reports
    and within its limit, all of it is within the total limit; no step raises
    [KeyError], and valid work is let in exactly as long as the queues are open
    and both limits leave room. *)
Theorem queue_bounded s : reachable s ->
  (forall h, Z.of_nat (load s h) <= wq_max_per_household s) /\
  (forall h, default 0 (depths s !! h) = Z.of_nat (load s h)) /\
  wq_total s = wsum id (depths s) /\ wq_total s <= wq_max_total s /\
  (forall op, fst (queue_step op s) <> Some KeyError) /\
  (forall h, fst (queue_step (O_submit h) s) = None <->
    is_blank h = false /\ wq_closed s = false /\
    Z.of_nat (load s h) < wq_max_per_household s /\ wq_total s < wq_max_total s).
Proof.
  intros Hok%reachable_ok. pose proof Hok as [Hs _].
  rewrite (depths_counts s Hs).
  split_and!; [|intros h; apply (default_count s h), Hs|apply Hs|apply Hs|intros op; by apply queue_step_ok|].
  - intros h. apply (ho_bound _ _ (qo_households _ Hs h)).
  - intros h. simpl. rewrite enqueue_run. unfold admits.
    rewrite (default_count s h (qo_households _ Hs h)).
    destruct (is_blank h), (wq_closed s); simpl; try (split; [done|]; by intros (? & ? & _)).
    destruct (Z.ltb_spec (Z.of_nat (load s h)) (wq_max_per_household s)), (Z.ltb_spec (wq_total s) (wq_max_total s));
      simpl; split; try done; intros; destruct_ands; lia.
Qed.

(** Of every household: what was let in and not taken back is what has been
    worked on, followed by what is queued, in the order of submission and
    each once; what has been started is over, but for the one piece in hand;
    one worker at most works for the household. *)
Theorem queue_fifo s h : reachable s ->
  let_in h s = recorded Started h s ++ queued s h /\
  recorded Started h s = recorded Ended h s ++ in_hand s h /\
  NoDup (recorded Enqueued h s) /\
  (forall t1 t2 o1 o2, wq_tasks s !! t1 = Some (h, o1) -> wq_tasks s !! t2 = Some (h, o2) -> t1 = t2).
Proof.
  intros Hok%reachable_ok. destruct Hok as [Hs _]. pose proof (qo_households _ Hs h) as Hh.
  split_and!; [apply Hh..|]. intros t1 t2 o1 o2 H1 H2.
  destruct (in_hand_task _ _ _ _ Hs H1), (in_hand_task _ _ _ _ Hs H2). congruence.
Qed.

(** Steps of workers alone. *)
Inductive worker_run : nat -> WorkQueues -> WorkQueues -> Prop :=
  | worker_run_stop s : worker_run 0 s s
  | worker_run_take n t s s1 s' : worker_take t s = (Ok true, s1) -> worker_run n s1 s' -> worker_run (S n) s s'
  | worker_run_finish n t s s1 s' : worker_finish t s = (Ok true, s1) -> worker_run n s1 s' -> worker_run (S n) s s'.

Definition worker_stuck (s : WorkQueues) : Prop :=
  forall t, fst (worker_take t s) <> Ok true /\ fst (worker_finish t s) <> Ok true.

Definition idle_worker (x : string * option work) : Z := match snd x with None => 1 | Some _ => 0 end.
Definition drain_measure (s : WorkQueues) : Z := 2 * wq_total s + wsum idle_worker (wq_tasks s).

Lemma drain_measure_nonneg s : queues_ok s -> 0 <= drain_measure s.
Proof.
  intros Hs. unfold drain_measure. rewrite (qo_total _ Hs).
  assert (0 <= wsum id (wq_counts s)).
  { apply wsum_nonneg. intros h n Hn. rewrite (ho_count _ _ (qo_households _ Hs h)) in Hn.
    case_decide; simplify_eq. unfold id. lia. }
  assert (0 <= wsum idle_worker (wq_tasks s)) by (apply wsum_nonneg; intros t [h [i|]] _; unfold idle_worker; simpl; lia).
  lia.
Qed.

Lemma worker_take_less t s s1 : wq_ok s -> worker_take t s = (Ok true, s1) ->
  drain_measure s1 = drain_measure s - 1.
Proof.
  intros [Hs _]. rewrite worker_take_run. destruct (wq_tasks s !! t) as [[h [i|]]|] eqn:Et; [done| |done].
  unfold drain_measure. destruct (queued s h) as [|i q] eqn:Eq; intros [= <-]; simpl.
  - rewrite (wsum_delete _ (wq_tasks s) t _ Et). unfold idle_worker at 2. simpl. lia.
  - rewrite (wsum_insert _ _ _ _ _ Et). unfold idle_worker at 1 2. simpl. lia.
Qed.

Lemma worker_finish_less t s s1 : wq_ok s -> worker_finish t s = (Ok true, s1) ->
  drain_measure s1 = drain_measure s - 1.
Proof.
  intros [Hs _]. rewrite worker_finish_run by done.
  destruct (wq_tasks s !! t) as [[h [i|]]|] eqn:Et; [|done|done]. intros [= <-].
  unfold drain_measure. simpl. rewrite (wsum_insert _ _ _ _ _ Et). unfold idle_worker at 1 2. simpl. lia.
Qed.

Lemma worker_stuck_idle s : wq_ok s -> worker_stuck s -> idle s.
Proof.
  intros Hok Hst. apply no_workers_idle; [done|]. apply gmap_none_empty. intros h.
  apply eq_None_not_Some. intros [t Ht]. pose proof Hok as [Hs _].
  apply (qo_tasks _ Hs) in Ht as [[i|] Ht]; destruct (Hst t) as [H1 H2].
  - apply H2. by rewrite worker_finish_run, Ht.
  - apply H1. by rewrite worker_take_run, Ht.
Qed.

Lemma worker_run_ok n s s' : wq_ok s -> worker_run n s s' ->
  wq_ok s' /\ Z.of_nat n = drain_measure s - drain_measure s'.
Proof.
  intros Hok Hr. induction Hr as [s|n t s s1 s' H1 _ IH|n t s s1 s' H1 _ IH]; [split; [done|lia]|..].
  - pose proof (worker_take_ok s t Hok) as H2. rewrite H1 in H2. destruct (IH H2).
    pose proof (worker_take_less _ _ _ Hok H1). split; [done|lia].
  - pose proof (worker_finish_ok s t Hok) as H2. rewrite H1 in H2. destruct (IH H2).
    pose proof (worker_finish_less _ _ _ Hok H1). split; [done|lia].
Qed.

Lemma worker_run_drains s : wq_ok s -> exists n s', worker_run n s s' /\ idle s'.
Proof.
  intros Hok. pose proof Hok as [Hs _]. pose proof (drain_measure_nonneg s Hs) as Hm.
  remember (Z.to_nat (drain_measure s)) as m eqn:Em. revert s Hok Hs Hm Em.
  induction m as [m IH] using lt_wf_ind. intros s Hok Hs Hm Em.
  destruct (decide (wq_workers s = ∅)) as [Hw|Hw]; [exists 0%nat, s; split; [constructor|by apply no_workers_idle]|].
  apply map_choose in Hw as (h & t & Ht). apply (qo_tasks _ Hs) in Ht as [o Ht].
  assert (exists s1, wq_ok s1 /\ drain_measure s1 = drain_measure s - 1 /\
    forall n s', worker_run n s1 s' -> worker_run (S n) s s') as (s1 & Hok1 & Hm1 & Hstep).
  { destruct o as [i|].
    - pose proof (worker_finish_run s t Hs) as H1. rewrite Ht in H1. eexists. split_and!.
      + pose proof (worker_finish_ok s t Hok) as H2. by rewrite H1 in H2.
      + by apply (worker_finish_less t).
      + intros n s' ?. by eapply worker_run_finish.
    - pose proof (worker_take_run s t) as H1. rewrite Ht in H1. eexists. split_and!.
      + pose proof (worker_take_ok s t Hok) as H2. rewrite H1 in H2. exact H2.
      + by apply (worker_take_less t).
      + intros n s' ?. by eapply worker_run_take. }
  pose proof Hok1 as [Hs1 _]. pose proof (drain_measure_nonneg s1 Hs1).
  destruct (IH (Z.to_nat (drain_measure s1)) ltac:(lia) s1 Hok1 Hs1 ltac:(lia) eq_refl) as (n & s' & Hr & Hi).
  exists (S n), s'. eauto.
Qed.

(** Queued work is worked off: a worker is never stuck, so workers alone take
    at most [drain_measure] steps, any run of theirs that cannot go on has
    emptied the queues, and such a run exists; after [close] every worker that
    [close] waits for is then done, and its clearing has nothing left to
    clear. *)
Theorem queue_drains s : reachable s ->
  (forall n s', worker_run n s s' ->
    Z.of_nat n <= drain_measure s /\ (worker_stuck s' -> idle s')) /\
  (exists n s', worker_run n s s' /\ idle s') /\
  (fst (close_end s) = Ok true -> idle s /\ snd (close_end s) = s <| wq_draining := None |>).
Proof.
  intros Hok%reachable_ok. split_and!; [|by apply worker_run_drains|].
  - intros n s' Hr. destruct (worker_run_ok n s s' Hok Hr) as [Hok' Hn]. pose proof Hok' as [Hs' _].
    pose proof (drain_measure_nonneg s' Hs'). split; [lia|by apply worker_stuck_idle].
  - by destruct (close_end_run s Hok) as [->|[-> Hi]].
Qed.

(** ** Lanes

    What the queues promise, without workers, counts and locks: a household has
    a lane, the work that runs and the work that waits. *)
Definition lane : Type := option work * list work.

Definition lane_of (s : WorkQueues) (h : string) : lane := (head (in_hand s h), queued s h).

(** What an operation does to the lane of [h]. *)
Definition lane_after (op : queue_op) (s : WorkQueues) (h : string) : lane :=
  let '(running, waiting) := lane_of s h in
  match op with
  | O_submit h' =>
      if decide (h' = h) then if admits s h then (running, waiting ++ [wq_next s]) else (running, waiting)
      else (running, waiting)
  | O_cancel h' i => if decide (h' = h) then (running, remove_first i waiting) else (running, waiting)
  | O_take t =>
      match wq_tasks s !! t with
      | Some (h', None) =>
          if decide (h' = h)
          then match waiting with i :: waiting => (Some i, waiting) | [] => (running, waiting) end
          else (running, waiting)
      | _ => (running, waiting)
      end
  | O_finish t =>
      match wq_tasks s !! t with
      | Some (h', Some _) => if decide (h' = h) then (None, waiting) else (running, waiting)
      | _ => (running, waiting)
      end
  | O_close => (running, [])
  | O_close_end => (running, waiting)
  end.

Lemma remove_first_not_in i (q : list work) : i ∉ q -> remove_first i q = q.
Proof.
  induction q as [|j q IH]; simpl; [done|]. intros [Hj Hq]%not_elem_of_cons.
  rewrite decide_False by congruence. by rewrite IH.
Qed.

Lemma cancel_submit_queued s h i h' : wq_ok s ->
  queued (snd (cancel_submit h i s)) h' = (if decide (h = h') then remove_first i (queued s h') else queued s h').
Proof.
  intros [Hs _]. unfold cancel_submit. rewrite stm_bind_get.
  destruct (wq_queues s !! h) as [q|] eqn:Eq; simpl.
  - case_bool_decide as Hi; simpl.
    + destruct (discard_run s h i q Hs Eq Hi) as [Hrun _]. unfold mbind, stm_bind. rewrite Hrun. simpl.
      unfold queued. simpl. case_decide; [subst; by rewrite lookup_insert_eq, Eq|by rewrite lookup_insert_ne].
    + case_decide; [subst|done]. unfold queued. rewrite Eq. simpl. by rewrite remove_first_not_in.
  - case_decide; [subst|done]. unfold queued. by rewrite Eq.
Qed.

Lemma in_hand_same s s' h : wq_workers s' = wq_workers s -> wq_tasks s' = wq_tasks s -> in_hand s' h = in_hand s h.
Proof. unfold in_hand. by intros -> ->. Qed.

Lemma lane_after_take s t h : wq_ok s -> lane_of (snd (worker_take t s)) h = lane_after (O_take t) s h.
Proof.
  intros [Hs _]. rewrite worker_take_run. unfold lane_after, lane_of.
  destruct (wq_tasks s !! t) as [[h' [i|]]|] eqn:Et; [done| |done].
  destruct (in_hand_task s t h' None Hs Et) as [Hw Hh].
  destruct (decide (h' = h)) as [->|Hne].
  - destruct (queued s h) as [|i q] eqn:Eq; simpl.
    + rewrite Hh. unfold in_hand, queued. simpl. by rewrite !lookup_delete_eq.
    + unfold in_hand, queued. simpl. rewrite Hw. simpl. by rewrite !lookup_insert_eq.
  - destruct (queued s h') as [|i q]; simpl;
      (erewrite (in_hand_other s _ t h' h None Hs Et); [|done|simpl..]);
      try (by intros t' ?; rewrite ?lookup_delete_ne, ?lookup_insert_ne); try by rewrite ?lookup_delete_ne.
    + unfold queued. simpl. by rewrite lookup_delete_ne.
    + unfold queued. simpl. by rewrite lookup_insert_ne.
Qed.

Lemma lane_after_finish s t h : wq_ok s -> lane_of (snd (worker_finish t s)) h = lane_after (O_finish t) s h.
Proof.
  intros [Hs _]. rewrite worker_finish_run by done. unfold lane_after, lane_of.
  destruct (wq_tasks s !! t) as [[h' [i|]]|] eqn:Et; [|done|done]. simpl.
  destruct (in_hand_task s t h' (Some i) Hs Et) as [Hw Hh].
  destruct (decide (h' = h)) as [->|Hne].
  - unfold in_hand. simpl. rewrite Hw. simpl. by rewrite lookup_insert_eq.
  - erewrite (in_hand_other s _ t h' h _ Hs Et); [done|done|done|].
    intros t' ?. simpl. by rewrite lookup_insert_ne.
Qed.

(** C29: the queues refine independent first-in-first-out lanes: in every
    reachable state each operation does to the lane of every household exactly
    what the lane's specification says, a submission joins the end of its own
    lane, a worker moves the head of its own lane to the running place and
    clears it, and no operation touches the lane of another household. *)
Theorem queue_refines_lanes s op h : reachable s ->
  lane_of (snd (queue_step op s)) h = lane_after op s h.
Proof.
  intros Hok%reachable_ok. pose proof Hok as [Hs Hco].
  destruct op as [h'|h' i|t|t| |].
  - simpl. rewrite enqueue_run. unfold lane_after, lane_of. destruct (decide (h' = h)) as [->|Hne].
    + destruct (admits s h) eqn:Ea; simpl; [|done].
      rewrite (in_hand_with_worker _ h h (with_work_ok s h Hs Ea)).
      unfold queued, with_worker. destruct (opt_bool _); simpl; by rewrite lookup_insert_eq.
    + destruct (admits s h') eqn:Ea; simpl; [|done].
      rewrite (in_hand_with_worker _ h' h (with_work_ok s h' Hs Ea)).
      unfold queued, with_worker. destruct (opt_bool _); simpl; by rewrite lookup_insert_ne.
  - pose proof (cancel_submit_queued s h' i h Hok) as Hq.
    destruct (cancel_submit_run s h' i Hok) as (b & s' & E & _ & Ew & Et).
    simpl. rewrite E in *. simpl in *. unfold lane_of, lane_after. simpl. rewrite Hq, (in_hand_same s s' h Ew Et).
    by case_decide.
  - pose proof (lane_after_take s t h Hok) as H. simpl. by destruct (worker_take t s).
  - pose proof (lane_after_finish s t h Hok) as H. simpl. by destruct (worker_finish t s).
  - destruct (close_begin_run s Hok) as (s' & E & [_ Hco'] & Hcl & Ew & Et). simpl. rewrite E. simpl.
    unfold lane_of, lane_after. by rewrite (in_hand_same s s' h Ew Et), (co_closed _ Hco' Hcl h).
  - simpl. by destruct (close_end_run s Hok) as [->|[-> _]].
Qed.

(** ** A queue of two households *)

Definition sample_ops : list queue_op :=
  [O_submit "home"; O_submit "home"; O_submit "barn"; O_take 1; O_submit "home"; O_finish 1; O_cancel "home" 2; O_submit "home"].
Definition sample_queue : WorkQueues :=
  let s0 := match new_queues 2 3 with Ok s => s | Err _ => mkWorkQueues 1 1 ∅ ∅ ∅ 0 false ∅ None 0 [] end in
  foldl (fun s op => snd (queue_step op s)) s0 sample_ops.

Lemma reachable_foldl ops : forall s, reachable s -> reachable (foldl (fun s op => snd (queue_step op s)) s ops).
Proof. induction ops as [|op ops IH]; intros s Hs; simpl; [done|]. by apply IH, reachable_step. Qed.

Lemma sample_queue_reachable : reachable sample_queue.
Proof. unfold sample_queue. apply reachable_foldl. by apply (reachable_new 2 3). Qed.

Lemma queue_bounded_witness :
  reachable sample_queue /\ map_to_list (depths sample_queue) = [("barn", 1); ("home", 1)] /\
  fst (queue_step (O_submit "home") sample_queue) = None /\
  wq_total sample_queue <= wq_max_total sample_queue.
Proof.
  pose proof sample_queue_reachable as Hr. split; [done|]. split; [by vm_compute|]. split; [by vm_compute|].
  apply (queue_bounded sample_queue Hr).
Defined.

Lemma queue_fifo_witness :
  reachable sample_queue /\
  recorded Enqueued "home" sample_queue = [0; 2; 5]%nat /\ recorded Ended "home" sample_queue = [0]%nat /\
  let_in "home" sample_queue = recorded Started "home" sample_queue ++ queued sample_queue "home".
Proof.
  pose proof sample_queue_reachable as Hr. split; [done|]. split; [by vm_compute|]. split; [by vm_compute|].
  apply (queue_fifo sample_queue "home" Hr).
Defined.

Lemma queue_drains_witness :
  reachable sample_queue /\ drain_measure sample_queue = 6 /\
  exists n s', worker_run n sample_queue s' /\ idle s'.
Proof.
  pose proof sample_queue_reachable as Hr. split; [done|]. split; [by vm_compute|].
  apply (queue_drains sample_queue Hr).
Defined.

Lemma queue_refines_lanes_witness :
  reachable sample_queue /\ lane_of sample_queue "home" = (None, [5%nat]) /\
  lane_of (snd (queue_step (O_take 1) sample_queue)) "home" = lane_after (O_take 1) sample_queue "home" /\
  lane_after (O_take 1) sample_queue "home" = (Some 5%nat, []).
Proof.
  pose proof sample_queue_reachable as Hr. split; [done|]. split; [by vm_compute|].
  split; [apply (queue_refines_lanes sample_queue (O_take 1) "home" Hr)|by vm_compute].
Defined.
