(* ===== verification/Ports.v ===== *)
(** * Contracts of the ports of an execution (domain/models.py, runtime/execution_context.py) *)

From S2P Require Import Prelude.
From S2P Require Import Values.
From S2P Require Import Models.
From S2P Require Import Coordination.

Record AdapterExecutionAck := mkAck {
  ack_accepted : bool;
  ack_source_ref : option SourceRef;
  ack_message : option string
}.

(** ** Control of a device *)

Inductive ControlLeaseStatus :=
  | CLS_ACQUIRED | CLS_REJECTED | CLS_EXPIRED | CLS_RELEASED | CLS_UNKNOWN.
#[global] Instance ControlLeaseStatus_eq_dec : EqDecision ControlLeaseStatus.
Proof. solve_decision. Defined.

Inductive NativeSchedulerStatus := NSS_disabled | NSS_inactive | NSS_active | NSS_unknown.
#[global] Instance NativeSchedulerStatus_eq_dec : EqDecision NativeSchedulerStatus.
Proof. solve_decision. Defined.
Definition NativeSchedulerStatus_value (s : NativeSchedulerStatus) : string :=
  match s with
  | NSS_disabled => "disabled" | NSS_inactive => "inactive"
  | NSS_active => "active" | NSS_unknown => "unknown"
  end.

Record PhysicalBaseline := mkPhysicalBaseline {
  pb_device_id : string;
  pb_capability : string;
  pb_power_kw : option f64;
  pb_observed_at : datetime;
  pb_received_at : datetime;
  pb_source_ref : SourceRef;
  pb_state_revision : string;
  pb_native_scheduler_status : NativeSchedulerStatus
}.
#[global] Instance PhysicalBaseline_eq_dec : EqDecision PhysicalBaseline.
Proof. solve_decision. Defined.

(** [Field(min_length=1)] *)
Definition require_texts (l : list string) : result exn unit :=
  raise_if (existsb (fun s => bool_decide (s = "")) l)
    (ValueError "String should have at least 1 character").

(** [PhysicalBaseline.validate_observation]; an instant is aware. *)
Definition validate_baseline (b : PhysicalBaseline) : result exn unit :=
  require_texts [pb_device_id b; pb_capability b; pb_state_revision b] ≫= fun _ =>
  raise_if (pb_received_at b <? pb_observed_at b)
    (ValueError "baseline received_at must not precede observed_at") ≫= fun _ =>
  raise_if (match pb_power_kw b with Some p => negb (f64_isfinite p) | None => false end)
    (ValueError "baseline power must be finite").

Record TakeoverResult := mkTakeoverResult {
  tk_authority : AuthorityContext;
  tk_lease_id : string;
  tk_status : ControlLeaseStatus;
  tk_owner : string;
  tk_device_id : string;
  tk_plan_id : string;
  tk_acquired_at : datetime;
  tk_expires_at : datetime;
  tk_baseline : option PhysicalBaseline;
  tk_first_command_id : string;
  tk_first_command_confirmed : bool;
  tk_confirmed_at : option datetime;
  tk_failure_code : option string;
  tk_evidence_digest : string
}.
#[global] Instance TakeoverResult_eta : Eta TakeoverResult := fun r =>
  mkTakeoverResult (tk_authority r) (tk_lease_id r) (tk_status r) (tk_owner r) (tk_device_id r)
    (tk_plan_id r) (tk_acquired_at r) (tk_expires_at r) (tk_baseline r) (tk_first_command_id r)
    (tk_first_command_confirmed r) (tk_confirmed_at r) (tk_failure_code r) (tk_evidence_digest r).
#[global] Instance TakeoverResult_eq_dec : EqDecision TakeoverResult.
Proof. solve_decision. Defined.

(** [TakeoverResult.validate_result] *)
Definition validate_takeover (t : TakeoverResult) : result exn unit :=
  require_texts [tk_lease_id t; tk_owner t; tk_device_id t; tk_plan_id t; tk_first_command_id t;
                 tk_evidence_digest t] ≫= fun _ =>
  raise_if (tk_expires_at t <=? tk_acquired_at t)
    (ValueError "takeover must expire after acquisition") ≫= fun _ =>
  raise_if (bool_decide (tk_status t = CLS_ACQUIRED) && negb (opt_bool (tk_baseline t)))
    (ValueError "acquired takeover requires a physical baseline") ≫= fun _ =>
  raise_if (bool_decide (tk_status t = CLS_REJECTED)
            && match tk_failure_code t with Some c => bool_decide (c = "") | None => true end)
    (ValueError "rejected takeover requires failure_code").

(** ** The context handed to an adapter *)

Record ExecutionContext := mkExecutionContext {
  ec_plan_id : string;
  ec_execution_attempt_id : string;
  ec_adapter_request_id : string;
  ec_agent_request_id : option string;
  ec_client_principal_id : string;
  ec_fencing_scope : option LeaseScope;
  ec_fencing_epoch : option Z;
  ec_lease_id : option string
}.

(** [ExecutionContext.__post_init__] *)
Definition validate_context (c : ExecutionContext) : result exn unit :=
  raise_if (existsb is_blank [ec_plan_id c; ec_execution_attempt_id c; ec_adapter_request_id c])
    (ValueError "field must be a non-empty string") ≫= fun _ =>
  raise_if (match ec_agent_request_id c with Some s => is_blank s | None => false end)
    (ValueError "agent_request_id must be non-empty when provided") ≫= fun _ =>
  raise_if (negb (opt_bool (ec_fencing_scope c)) &&
            (opt_bool (ec_fencing_epoch c) || opt_bool (ec_lease_id c)))
    (ValueError "fencing epoch and lease_id require a fencing scope") ≫= fun _ =>
  raise_if (opt_bool (ec_fencing_scope c) &&
            (negb (opt_bool (ec_fencing_epoch c)) || negb (opt_bool (ec_lease_id c))))
    (ValueError "fencing scope requires epoch and lease_id") ≫= fun _ =>
  raise_if (match ec_fencing_epoch c with Some e => e <=? 0 | None => false end)
    (ValueError "fencing_epoch must be positive").
