(* ===== verification/Coroutines.v ===== *)
(** * Asynchronous programs

    An [async] method runs without interruption up to its next [await]; there
    every other task may run before the answer is there.  [coro S E A] is such
    a method over the shared state [S], with requests [E B] answered by a [B]
    or an exception; its loops run over lists, so the tree is finite.

    [run] runs one method alone against an oracle, [pool_step] any number of
    them interleaved at their awaits.  [wp] is their program logic: what others
    may do at an await ([Rely]), what every uninterrupted stretch of the method
    does ([Guar]), and a postcondition; [run_sound] and [pool_sound] justify
    it. *)

From S2P Require Import Prelude.
From S2P Require Import Models.

Section coro.
Context {S : Type} {E : Type -> Type}.

Inductive coro (A : Type) : Type :=
  | Ret (a : A)
  | Raise (e : exn)
  | Act (u : S -> S) (k : S -> coro A)
  | Await {B : Type} (q : E B) (k : result exn B -> coro A).
Arguments Ret {A} a.
Arguments Raise {A} e.
Arguments Act {A} u k.
Arguments Await {A B} q k.

Fixpoint coro_bind {A B} (f : A -> coro B) (c : coro A) : coro B :=
  match c with
  | Ret a => f a
  | Raise e => Raise e
  | Act u k => Act u (fun s => coro_bind f (k s))
  | Await q k => Await q (fun r => coro_bind f (k r))
  end.

#[global] Instance coro_mret : MRet coro := @Ret.
#[global] Instance coro_mbind : MBind coro := @coro_bind.

(** [try: c except BaseException as e: h(e)] *)
Fixpoint coro_catch {A} (h : exn -> coro A) (c : coro A) : coro A :=
  match c with
  | Ret a => Ret a
  | Raise e => h e
  | Act u k => Act u (fun s => coro_catch h (k s))
  | Await q k => Await q (fun r => coro_catch h (k r))
  end.

Definition look : coro S := Act id Ret.
Definition alter_st (u : S -> S) : coro unit := Act u (fun _ => Ret tt).
Definition of_result {A} (r : result exn A) : coro A :=
  match r with Ok a => Ret a | Err e => Raise e end.
Definition await {B} (q : E B) : coro B := Await q of_result.

(** [except Exception] lets a cancellation pass. *)
Definition is_exception (e : exn) : bool := bool_decide (e <> CancelledError).

(** [try: await q except Exception: ...] *)
Definition await_or {B} (q : E B) : coro (result exn B) :=
  Await q (fun r => match r with
                    | Err e => if is_exception e then Ret (Err e) else Raise e
                    | Ok b => Ret (Ok b)
                    end).

(** [try: c except Exception: d] *)
Definition coro_except {A} (d : coro A) (c : coro A) : coro A :=
  coro_catch (fun e => if is_exception e then d else Raise e) c.

(** [try: c except Exception as error: ...], as a value. *)
Definition coro_attempt {A} (c : coro A) : coro (result exn A) :=
  coro_catch (fun e => if is_exception e then Ret (Err e) else Raise e)
    (coro_bind (fun a => Ret (Ok a)) c).

(** [for x in l: ... results.append(y) ...] *)
Fixpoint coro_collect {A B} (f : A -> coro (option B)) (l : list A) : coro (list B) :=
  match l with
  | [] => Ret []
  | x :: l => coro_bind (fun y => coro_bind (fun ys => Ret (option_list y ++ ys)) (coro_collect f l)) (f x)
  end.

(** [[await f(x) for x in l]] *)
Fixpoint coro_map {A B} (f : A -> coro B) (l : list A) : coro (list B) :=
  match l with
  | [] => Ret []
  | x :: l => coro_bind (fun y => coro_bind (fun ys => Ret (y :: ys)) (coro_map f l)) (f x)
  end.

(** [for x in l: f(x)] *)
Fixpoint coro_iter {A} (f : A -> coro unit) (l : list A) : coro unit :=
  match l with
  | [] => Ret tt
  | x :: l => coro_bind (fun _ => coro_iter f l) (f x)
  end.

(** ** Running *)

(** Where a method stands: it is done, or waits for an answer. *)
Inductive stage (A : Type) : Type :=
  | Done (r : result exn A)
  | Blocked {B : Type} (q : E B) (k : result exn B -> coro A).
Arguments Done {A} r.
Arguments Blocked {A B} q k.

(** The stretch up to the next await. *)
Fixpoint advance {A} (c : coro A) (s : S) : S * stage A :=
  match c with
  | Ret a => (s, Done (Ok a))
  | Raise e => (s, Done (Err e))
  | Act u k => advance (k s) (u s)
  | Await q k => (s, Blocked q k)
  end.

(** Answers, and what others did before they came. *)
Definition oracle : Type := nat -> forall B, E B -> S -> result exn B * S.

Fixpoint run {A} (o : oracle) (c : coro A) (n : nat) (s : S) : result exn A * nat * S :=
  match c with
  | Ret a => (Ok a, n, s)
  | Raise e => (Err e, n, s)
  | Act u k => run o (k s) n (u s)
  | Await q k => let '(r, s') := o n _ q s in run o (k r) (Datatypes.S n) s'
  end.

(** ** The program logic *)

(** What set a stretch off, and the request it ended with. *)
Inductive cause : Type :=
  | Called
  | Answered {B : Type} (q : E B) (r : result exn B).
Inductive request : Type :=
  | Request {B : Type} (q : E B).

(** What a run asked for: the stretch before each request. *)
Fixpoint requests {A} (o : oracle) (c : coro A) (n : nat) (ev : cause) (s0 s : S)
    : list (cause * S * S * request) :=
  match c with
  | Ret _ | Raise _ => []
  | Act u k => requests o (k s) n ev s0 (u s)
  | Await q k =>
      let '(r, s') := o n _ q s in
      (ev, s0, s, Request q) :: requests o (k r) (Datatypes.S n) (Answered q r) s' s'
  end.

Section wp.
Context (Rely : S -> S -> Prop) (Guar : cause -> S -> S -> option request -> Prop).

(** [wp c Φ ev s0 s]: the stretch set off by [ev] in [s0] has reached [s]. *)
Fixpoint wp {A} (c : coro A) (Φ : result exn A -> cause -> S -> S -> Prop)
    (ev : cause) (s0 s : S) : Prop :=
  match c with
  | Ret a => Φ (Ok a) ev s0 s
  | Raise e => Φ (Err e) ev s0 s
  | Act u k => wp (k s) Φ ev s0 (u s)
  | Await q k => Guar ev s0 s (Some (Request q)) /\
      forall r s1, Rely s s1 -> wp (k r) Φ (Answered q r) s1 s1
  end.

Lemma wp_mono {A} (c : coro A) : forall (Φ Ψ : result exn A -> cause -> S -> S -> Prop) ev s0 s,
  (forall r ev s0 s, Φ r ev s0 s -> Ψ r ev s0 s) -> wp c Φ ev s0 s -> wp c Ψ ev s0 s.
Proof.
  induction c as [a|e|u k IH|B q k IH]; simpl; intros Φ Ψ ev s0 s H; [apply H|apply H|by apply IH|].
  intros [HG Hk]. split; [done|]. intros r s1 Hs. eapply IH; [exact H|by apply Hk].
Qed.

Lemma wp_bind {A B} (f : A -> coro B) (c : coro A) : forall Φ ev s0 s,
  wp c (fun r ev s0 s => match r with
                         | Ok a => wp (f a) Φ ev s0 s
                         | Err e => Φ (Err e) ev s0 s
                         end) ev s0 s ->
  wp (coro_bind f c) Φ ev s0 s.
Proof.
  induction c as [a|e|u k IH|C q k IH]; simpl; intros Φ ev s0 s; [done|done|apply IH|].
  intros [HG Hk]. split; [done|]. intros r s1 Hs. by apply IH, Hk.
Qed.

Lemma wp_catch {A} (h : exn -> coro A) (c : coro A) : forall Φ ev s0 s,
  wp c (fun r ev s0 s => match r with
                         | Ok a => Φ (Ok a) ev s0 s
                         | Err e => wp (h e) Φ ev s0 s
                         end) ev s0 s ->
  wp (coro_catch h c) Φ ev s0 s.
Proof.
  induction c as [a|e|u k IH|C q k IH]; simpl; intros Φ ev s0 s; [done|done|apply IH|].
  intros [HG Hk]. split; [done|]. intros r s1 Hs. by apply IH, Hk.
Qed.

(** A loop with the invariant [I] of what is left of the list. *)
Lemma wp_iter {A} (f : A -> coro unit) (I : list A -> cause -> S -> S -> Prop) Φ :
  (forall x l ev s0 s, I (x :: l) ev s0 s ->
    wp (f x) (fun r ev s0 s => match r with Ok _ => I l ev s0 s | Err e => Φ (Err e) ev s0 s end) ev s0 s) ->
  (forall ev s0 s, I [] ev s0 s -> Φ (Ok tt) ev s0 s) ->
  forall l ev s0 s, I l ev s0 s -> wp (coro_iter f l) Φ ev s0 s.
Proof.
  intros Hf Hend. induction l as [|x l IH]; simpl; intros ev s0 s HI; [by apply Hend|].
  apply wp_bind. eapply wp_mono; [|by apply Hf]. intros [[]|e] ev' s0' s'; simpl; [apply IH|done].
Qed.

Lemma wp_attempt {A} (c : coro A) Φ ev s0 s :
  wp c (fun r ev s0 s => match r with
                         | Ok a => Φ (Ok (Ok a)) ev s0 s
                         | Err e => if is_exception e then Φ (Ok (Err e)) ev s0 s else Φ (Err e) ev s0 s
                         end) ev s0 s ->
  wp (coro_attempt c) Φ ev s0 s.
Proof.
  intros H. unfold coro_attempt. apply wp_catch, wp_bind. eapply wp_mono; [|exact H].
  intros [a|e] ev' s0' s'; simpl; [done|]. by destruct (is_exception e).
Qed.

(** A loop that collects results, with an invariant. *)
Lemma wp_collect {A B} (f : A -> coro (option B)) (I : list A -> list B -> cause -> S -> S -> Prop) Φ :
  (forall x l ys ev s0 s, I (x :: l) ys ev s0 s ->
    wp (f x) (fun r ev s0 s => match r with
                               | Ok y => I l (ys ++ option_list y) ev s0 s
                               | Err e => Φ (Err e) ev s0 s end) ev s0 s) ->
  (forall ys ev s0 s, I [] ys ev s0 s -> Φ (Ok ys) ev s0 s) ->
  forall l ev s0 s, I l [] ev s0 s -> wp (coro_collect f l) Φ ev s0 s.
Proof.
  intros Hf Hend l.
  assert (forall Ψ ys, (forall zs ev s0 s, Φ (Ok (ys ++ zs)) ev s0 s -> Ψ (Ok zs) ev s0 s) ->
    (forall e ev s0 s, Φ (Err e) ev s0 s -> Ψ (Err e) ev s0 s) ->
    forall ev s0 s, I l ys ev s0 s -> wp (coro_collect f l) Ψ ev s0 s) as H.
  { induction l as [|x l IH]; simpl; intros Ψ ys HΨ He ev s0 s HI.
    - apply HΨ. rewrite app_nil_r. by apply Hend.
    - apply wp_bind. eapply wp_mono; [|by apply Hf]. intros [y|e] ev' s0' s'; simpl; [|by apply He].
      intros HI'. apply wp_bind. eapply IH; [| |exact HI'].
      + intros zs ev2 s2 s3 HΦ. simpl. apply HΨ. by rewrite app_assoc.
      + intros e ev2 s2 s3 HΦ. by apply He. }
  intros ev s0 s HI. eapply H; [| |exact HI]; done.
Qed.

(** One method alone. *)
Lemma run_sound {A} o (c : coro A) : (forall n B q s, Rely s (snd (o n B q s))) ->
  forall Φ n ev s0 s, wp c Φ ev s0 s ->
  exists ev' s0', Φ (fst (fst (run o c n s))) ev' s0' (snd (run o c n s)).
Proof.
  intros Ho. induction c as [a|e|u k IH|B q k IH]; intros Φ n ev s0 s; simpl; [eauto|eauto|by apply IH|].
  intros [_ Hk]. pose proof (Ho n B q s) as Hr. destruct (o n B q s) as [r s']. simpl in Hr.
  eapply IH, Hk, Hr.
Qed.

(** The requests of one method alone, each with the stretch that made it. *)
Lemma requests_sound {A} o (c : coro A) : (forall n B q s, Rely s (snd (o n B q s))) ->
  forall Φ n ev s0 s, wp c Φ ev s0 s ->
  Forall (fun '(ev, s0, s, q) => Guar ev s0 s (Some q)) (requests o c n ev s0 s).
Proof.
  intros Ho. induction c as [a|e|u k IH|B q k IH]; intros Φ n ev s0 s; simpl; [done|done|by apply IH|].
  intros [HG Hk]. pose proof (Ho n B q s) as Hr. destruct (o n B q s) as [r s']. simpl in Hr.
  constructor; [done|]. eapply IH, Hk, Hr.
Qed.
End wp.

(** ** Histories

    What one method did alone: the steps it took, each from a state to the
    next, and the answers it got, in order.  [wph] is the program logic with that history in its
    postcondition. *)

Inductive happening : Type :=
  | Acted (s s' : S)
  | Asked {B : Type} (q : E B) (r : result exn B).
Abbreviation history := (list happening).

Fixpoint history_of {A} (o : oracle) (c : coro A) (n : nat) (s : S) : history :=
  match c with
  | Ret _ | Raise _ => []
  | Act u k => Acted s (u s) :: history_of o (k s) n (u s)
  | Await q k => let '(r, s') := o n _ q s in Asked q r :: history_of o (k r) (Datatypes.S n) s'
  end.

Section wph.
Context (Rely : S -> S -> Prop).

Fixpoint wph {A} (c : coro A) (Φ : result exn A -> history -> S -> Prop) (h : history) (s : S) : Prop :=
  match c with
  | Ret a => Φ (Ok a) h s
  | Raise e => Φ (Err e) h s
  | Act u k => wph (k s) Φ (h ++ [Acted s (u s)]) (u s)
  | Await q k => forall r s', Rely s s' -> wph (k r) Φ (h ++ [Asked q r]) s'
  end.

Lemma wph_mono {A} (c : coro A) : forall (Φ Ψ : result exn A -> history -> S -> Prop) h s,
  (forall r h s, Φ r h s -> Ψ r h s) -> wph c Φ h s -> wph c Ψ h s.
Proof.
  induction c as [a|e|u k IH|B q k IH]; simpl; intros Φ Ψ h s H; [apply H|apply H|by apply IH|].
  intros Hk r s' Hs. eapply IH; [exact H|by apply Hk].
Qed.

Lemma wph_bind {A B} (f : A -> coro B) (c : coro A) : forall Φ h s,
  wph c (fun r h s => match r with Ok a => wph (f a) Φ h s | Err e => Φ (Err e) h s end) h s ->
  wph (coro_bind f c) Φ h s.
Proof.
  induction c as [a|e|u k IH|C q k IH]; simpl; intros Φ h s; [done|done|apply IH|].
  intros Hk r s' Hs. by apply IH, Hk.
Qed.

Lemma wph_catch {A} (f : exn -> coro A) (c : coro A) : forall Φ h s,
  wph c (fun r h s => match r with Ok a => Φ (Ok a) h s | Err e => wph (f e) Φ h s end) h s ->
  wph (coro_catch f c) Φ h s.
Proof.
  induction c as [a|e|u k IH|C q k IH]; simpl; intros Φ h s; [done|done|apply IH|].
  intros Hk r s' Hs. by apply IH, Hk.
Qed.

Lemma wph_attempt {A} (c : coro A) Φ h s :
  wph c (fun r h s => match r with
                      | Ok a => Φ (Ok (Ok a)) h s
                      | Err e => if is_exception e then Φ (Ok (Err e)) h s else Φ (Err e) h s
                      end) h s ->
  wph (coro_attempt c) Φ h s.
Proof.
  intros H. unfold coro_attempt. apply wph_catch, wph_bind. eapply wph_mono; [|exact H].
  intros [a|e] h' s'; simpl; [done|]. by destruct (is_exception e).
Qed.

Lemma wph_extends {A} (c : coro A) : forall Φ h s,
  wph c Φ h s -> wph c (fun r h' s' => Φ r h' s' /\ exists l, h' = h ++ l) h s.
Proof.
  induction c as [a|e|u k IH|B q k IH]; simpl; intros Φ h s.
  1,2: by intros H; split; [|exists []; rewrite app_nil_r].
  - intros H. eapply wph_mono; [|by apply IH]. intros r h' s' [H' [l ->]]. split; [done|].
    eexists. by rewrite <- app_assoc.
  - intros H r s' Hr. eapply wph_mono; [|by apply IH, H]. intros r' h' s'' [H' [l ->]]. split; [done|].
    eexists. by rewrite <- app_assoc.
Qed.

Lemma wph_sound {A} o (c : coro A) : (forall n B q s, Rely s (snd (o n B q s))) ->
  forall Φ n h s, wph c Φ h s ->
  Φ (fst (fst (run o c n s))) (h ++ history_of o c n s) (snd (run o c n s)).
Proof.
  intros Ho. induction c as [a|e|u k IH|B q k IH]; intros Φ n h s; simpl; [by rewrite app_nil_r..| |].
  - intros H. rewrite cons_middle, app_assoc. by apply IH.
  - intros Hk. pose proof (Ho n B q s) as Hr. destruct (o n B q s) as [r s']. simpl in Hr.
    rewrite cons_middle, app_assoc. by apply IH, Hk.
Qed.
End wph.

(** ** Many methods at once *)

Section pool.
Context {call V : Type} (body : call -> coro V) (env : S -> S -> Prop).

Record pool := mkPool { pool_tasks : gmap nat (stage V); pool_state : S }.

Definition issued {A} (st : stage A) : option request :=
  match st with Done _ => None | Blocked q _ => Some (Request q) end.

(** A step of the event loop: a call starts, an answer comes in and its task
    goes on, or something else happens to the state. *)
Inductive pool_step (p : pool) : option (cause * nat * option request) -> pool -> Prop :=
  | step_start i c s st :
      pool_tasks p !! i = None -> advance (body c) (pool_state p) = (s, st) ->
      pool_step p (Some (Called, i, issued st)) (mkPool (<[i := st]> (pool_tasks p)) s)
  | step_answer i B (q : E B) k r s st :
      pool_tasks p !! i = Some (Blocked q k) -> advance (k r) (pool_state p) = (s, st) ->
      pool_step p (Some (Answered q r, i, issued st)) (mkPool (<[i := st]> (pool_tasks p)) s)
  | step_other s : env (pool_state p) s -> pool_step p None (mkPool (pool_tasks p) s).

Inductive pool_reachable (s0 : S) : pool -> Prop :=
  | pool_init : pool_reachable s0 (mkPool ∅ s0)
  | pool_next p l p' : pool_reachable s0 p -> pool_step p l p' -> pool_reachable s0 p'.

Section sound.
Context (Guar : cause -> S -> S -> option request -> Prop).

Abbreviation any := (fun _ _ : S => True).

(** Every stretch of a method, the last one too, keeps [Guar], whatever others
    do at its awaits. *)
Definition keeps {A} (c : coro A) : Prop :=
  forall s, wp any Guar c (fun _ ev s0 s => Guar ev s0 s None) Called s s.

Definition stage_keeps {A} (st : stage A) : Prop :=
  match st with
  | Done _ => True
  | Blocked q k => forall r s, wp any Guar (k r) (fun _ ev s0 s => Guar ev s0 s None) (Answered q r) s s
  end.

Lemma advance_keeps {A} (c : coro A) : forall ev s0 s,
  wp any Guar c (fun _ ev s0 s => Guar ev s0 s None) ev s0 s ->
  Guar ev s0 (fst (advance c s)) (issued (snd (advance c s))) /\ stage_keeps (snd (advance c s)).
Proof.
  induction c as [a|e|u k IH|B q k IH]; simpl; intros ev s0 s; [done|done|apply IH|].
  intros [HG Hk]. split; [done|]. intros r s1. by apply Hk.
Qed.

Lemma pool_keeps s0 p : (forall c, keeps (body c)) -> pool_reachable s0 p ->
  map_Forall (fun _ => stage_keeps) (pool_tasks p).
Proof.
  intros Hb. induction 1 as [|p l p' _ IH Hst]; [apply map_Forall_empty|].
  destruct Hst as [i c s st Hi Ha|i B q k r s st Hi Ha|s _]; simpl; [| |done].
  - apply map_Forall_insert_2; [|done].
    pose proof (proj2 (advance_keeps (body c) _ _ _ (Hb c (pool_state p)))) as Hk. by rewrite Ha in Hk.
  - apply map_Forall_insert_2; [|done].
    pose proof (IH i _ Hi r (pool_state p)) as Hw.
    pose proof (proj2 (advance_keeps (k r) _ _ _ Hw)) as Hk. by rewrite Ha in Hk.
Qed.

(** Any interleaving: every stretch keeps [Guar]. *)
Lemma pool_sound s0 p ev i q p' : (forall c, keeps (body c)) -> pool_reachable s0 p ->
  pool_step p (Some (ev, i, q)) p' -> Guar ev (pool_state p) (pool_state p') q.
Proof.
  intros Hb Hp Hst. pose proof (pool_keeps s0 p Hb Hp) as Hk. inversion Hst as [i' c s st Hi Ha|i' B q' k r s st Hi Ha|]; subst; simpl.
  - pose proof (proj1 (advance_keeps (body c) _ _ _ (Hb c (pool_state p)))) as H. by rewrite Ha in H.
  - pose proof (Hk i _ Hi r (pool_state p)) as Hw.
    pose proof (proj1 (advance_keeps (k r) _ _ _ Hw)) as H. by rewrite Ha in H.
Qed.
End sound.
End pool.
End coro.

Arguments coro : clear implicits.
Arguments stage : clear implicits.
Arguments oracle : clear implicits.
Arguments cause : clear implicits.
Arguments request : clear implicits.
Arguments happening : clear implicits.
Arguments Acted {S E} s s'.
Arguments Asked {S E B} q r.
Arguments Ret {S E A} a.
Arguments Raise {S E A} e.
Arguments Act {S E A} u k.
Arguments Await {S E A B} q k.
Arguments Done {S E A} r.
Arguments Blocked {S E A B} q k.

(** ** Steps of the state *)

Section steps.
Context {S : Type} {E : Type -> Type}.

Definition perform {A} (m : stm S exn A) : coro S E A :=
  Act (fun s => snd (m s)) (fun s => of_result (fst (m s))).
Definition inspect {A} (f : S -> result exn A) : coro S E A := perform (fun s => (f s, s)).
Definition reject_when (b : bool) (e : exn) : coro S E unit := if b then Raise e else Ret tt.
End steps.

(** ** What happened

    [does P c Q]: whatever is answered and whatever others do meanwhile, [c]
    started in a state with [P] ends with [Q] of its result, of what happened
    and of the state it leaves. *)

Section does.
Context {S : Type} {E : Type -> Type}.
Abbreviation C := (coro S E).
Abbreviation happened := (list (happening S E)).

Definition does {A} (P : S -> Prop) (c : C A) (Q : result exn A -> happened -> S -> Prop) : Prop :=
  forall h s, P s -> wph (fun _ _ => True) c (fun r h' s' => exists l, h' = h ++ l /\ Q r l s') h s.

Lemma does_conseq {A} (P P' : S -> Prop) (c : C A) (Q Q' : result exn A -> happened -> S -> Prop) :
  does P c Q -> (forall s, P' s -> P s) -> (forall r l s, Q r l s -> Q' r l s) -> does P' c Q'.
Proof.
  intros H HP HQ h s Hs. eapply wph_mono; [|by apply H, HP].
  intros r h' s' (l & -> & Hl). exists l. auto.
Qed.

Lemma does_ret {A} (P : S -> Prop) (a : A) (Q : result exn A -> happened -> S -> Prop) :
  (forall s, P s -> Q (Ok a) [] s) -> does P (Ret a) Q.
Proof. intros H h s Hs. exists []. rewrite app_nil_r. auto. Qed.

Lemma does_raise {A} (P : S -> Prop) e (Q : result exn A -> happened -> S -> Prop) :
  (forall s, P s -> Q (Err e) [] s) -> does P (Raise e) Q.
Proof. intros H h s Hs. exists []. rewrite app_nil_r. auto. Qed.

Lemma does_bind {A B} (P : S -> Prop) (c : C A) (f : A -> C B) (M : A -> happened -> S -> Prop) Q :
  does P c (fun r l s => match r with Ok a => M a l s | Err e => Q (Err e) l s end) ->
  (forall a l1 s1, M a l1 s1 -> does (fun s => s = s1) (f a) (fun r l2 s => Q r (l1 ++ l2) s)) ->
  does P (c ≫= f) Q.
Proof.
  intros Hc Hf h s Hs. apply wph_bind. eapply wph_mono; [|by apply Hc].
  intros [a|e] h' s' (l & -> & Hl); [|by exists l].
  eapply wph_mono; [|by apply (Hf a l s' Hl)]. intros r h'' s'' (l2 & -> & Hq).
  exists (l ++ l2). by rewrite app_assoc.
Qed.

Lemma does_attempt {A} (P : S -> Prop) (c : C A) (Q : result exn (result exn A) -> happened -> S -> Prop) :
  does P c (fun r l s => match r with
                         | Ok a => Q (Ok (Ok a)) l s
                         | Err e => if is_exception e then Q (Ok (Err e)) l s else Q (Err e) l s
                         end) ->
  does P (coro_attempt c) Q.
Proof.
  intros H h s Hs. apply wph_attempt. eapply wph_mono; [|by apply H].
  intros [a|e] h' s' (l & -> & Hl); [by exists l|]. destruct (is_exception e); by exists l.
Qed.

Lemma does_catch_at {A} (P : S -> Prop) (c : C A) (f : exn -> C A) (Q : result exn A -> happened -> S -> Prop) :
  does P c (fun r l s => match r with
                         | Ok a => Q (Ok a) l s
                         | Err e => does (fun s' => s' = s) (f e) (fun r l2 s => Q r (l ++ l2) s)
                         end) ->
  does P (coro_catch f c) Q.
Proof.
  intros H h s Hs. apply wph_catch. eapply wph_mono; [|by apply H].
  intros [a|e] h' s' (l & -> & Hl); [by exists l|].
  eapply wph_mono; [|by apply (Hl (h ++ l) s')]. intros r h'' s'' (l2 & -> & Hq).
  exists (l ++ l2). by rewrite app_assoc.
Qed.
Lemma does_catch {A} (P : S -> Prop) (f : exn -> C A) (c : C A) (M : exn -> happened -> S -> Prop) Q :
  does P c (fun r l s => match r with Ok a => Q (Ok a) l s | Err e => M e l s end) ->
  (forall e l1 s1, M e l1 s1 -> does (fun s => s = s1) (f e) (fun r l2 s => Q r (l1 ++ l2) s)) ->
  does P (coro_catch f c) Q.
Proof.
  intros Hc Hf. apply does_catch_at. eapply does_conseq; [exact Hc|done|]. intros [a|e] l s; [done|apply Hf].
Qed.

Lemma does_perform {A} (P : S -> Prop) (m : stm S exn A) Q :
  (forall s, P s -> Q (fst (m s)) [Acted s (snd (m s))] (snd (m s))) -> does P (perform m) Q.
Proof.
  intros H h s Hs. simpl. specialize (H s Hs).
  destruct (fst (m s)); simpl; eexists; (split; [done|exact H]).
Qed.

Lemma does_look {A} (P : S -> Prop) (f : S -> C A) Q :
  (forall s0, P s0 -> does (fun s => s = s0) (f s0) (fun r l s => Q r (Acted s0 s0 :: l) s)) ->
  does P (look ≫= f) Q.
Proof.
  intros H h s Hs. simpl. eapply wph_mono; [|by apply (H s Hs)].
  intros r h' s' (l & -> & Hl). eexists. rewrite <- app_assoc. by split.
Qed.

Lemma does_await {B} (P : S -> Prop) (q : E B) (Q : result exn B -> happened -> S -> Prop) :
  (forall r s, Q r [Asked q r] s) -> does P (await q) Q.
Proof. intros H h s _ r s' _. destruct r; simpl; eexists; (split; [done|apply H]). Qed.

(** A loop that collects results, every round of which leaves [J]. *)
Lemma does_collect {A B} (f : A -> C (option B)) (J : happened -> Prop) :
  J [] -> (forall l1 l2, J l1 -> J l2 -> J (l1 ++ l2)) ->
  forall l P, (forall x, x ∈ l -> does (fun _ => True) (f x) (fun _ h _ => J h)) ->
  does P (coro_collect f l) (fun _ h _ => J h).
Proof.
  intros Hnil Happ. induction l as [|x l IH]; intros P Hf; simpl; [by apply does_ret|].
  eapply does_bind with (M := fun _ h _ => J h).
  { eapply does_conseq; [apply Hf; by left|done|]. by intros []. }
  intros y l1 s1 H1. eapply does_bind with (M := fun _ h _ => J h).
  { eapply does_conseq; [apply (IH (fun _ => True)); intros z Hz; apply Hf; by right|done|].
    intros [ys|e] h s Hh; [done|by apply Happ]. }
  intros ys l2 s2 H2. apply does_ret. intros s _. rewrite app_nil_r. by apply Happ.
Qed.

Lemma does_sound {A} (c : C A) Q o n s : does (fun s' => s' = s) c Q ->
  Q (fst (fst (run o c n s))) (history_of o c n s) (snd (run o c n s)).
Proof.
  intros H. pose proof (wph_sound (fun _ _ => True) o c (fun _ _ _ _ => I) _ n [] s (H [] s eq_refl)) as Hs.
  simpl in Hs. destruct Hs as (l & -> & Hq). exact Hq.
Qed.
End does.

(** ** Requests of one kind

    [pick] selects requests (with what it keeps of them and their answers);
    [picked] are those of a history, [avoids] says that a method makes none. *)

Section picked.
Context {S : Type} {E : Type -> Type} {X : Type} (pick : forall B, E B -> result exn B -> option X).
Abbreviation C := (coro S E).

Definition pick_in (x : happening S E) : option X :=
  match x with Acted _ _ => None | Asked q r => pick _ q r end.
Definition picked (l : list (happening S E)) : list X := omap pick_in l.

Lemma picked_app l1 l2 : picked (l1 ++ l2) = picked l1 ++ picked l2.
Proof. apply omap_app. Qed.

Fixpoint avoids {A} (c : C A) : Prop :=
  match c with
  | Ret _ | Raise _ => True
  | Act u k => forall s, avoids (k s)
  | Await q k => (forall r, pick _ q r = None) /\ forall r, avoids (k r)
  end.

Lemma avoids_bind {A B} (f : A -> C B) (c : C A) : avoids c -> (forall a, avoids (f a)) -> avoids (c ≫= f).
Proof. intros Hc Hf. induction c as [a|e|u k IH|D q k IH]; simpl in *; naive_solver. Qed.
Lemma avoids_catch {A} (f : exn -> C A) (c : C A) : avoids c -> (forall e, avoids (f e)) -> avoids (coro_catch f c).
Proof. intros Hc Hf. induction c as [a|e|u k IH|D q k IH]; simpl in *; naive_solver. Qed.
Lemma avoids_attempt {A} (c : C A) : avoids c -> avoids (coro_attempt c).
Proof.
  intros Hc. apply avoids_catch; [by apply avoids_bind|]. intros e. by destruct (is_exception e).
Qed.
Lemma avoids_of_result {A} (r : result exn A) : avoids (of_result r).
Proof. by destruct r. Qed.
Lemma avoids_perform {A} (m : stm S exn A) : avoids (perform m).
Proof. intros s. apply avoids_of_result. Qed.
Lemma avoids_inspect {A} (f : S -> result exn A) : avoids (inspect f).
Proof. apply avoids_perform. Qed.
Lemma avoids_map {A B} (f : A -> C B) l : (forall x, avoids (f x)) -> avoids (coro_map f l).
Proof.
  intros Hf. induction l as [|x l IH]; simpl; [done|].
  apply avoids_bind; [done|]. intros y. by apply avoids_bind.
Qed.
Lemma avoids_iter {A} (f : A -> C unit) l : (forall x, avoids (f x)) -> avoids (coro_iter f l).
Proof. intros Hf. induction l as [|x l IH]; simpl; [done|]. by apply avoids_bind. Qed.
Lemma avoids_collect {A B} (f : A -> C (option B)) l : (forall x, avoids (f x)) -> avoids (coro_collect f l).
Proof.
  intros Hf. induction l as [|x l IH]; simpl; [done|].
  apply avoids_bind; [done|]. intros y. by apply avoids_bind.
Qed.
Lemma avoids_if {A} (b : bool) (c d : C A) : avoids c -> avoids d -> avoids (if b then c else d).
Proof. by destruct b. Qed.
Lemma avoids_reject b e : avoids (reject_when b e).
Proof. by destruct b. Qed.

Lemma avoids_look {A} (f : S -> C A) : (forall s, avoids (f s)) -> avoids (look ≫= f).
Proof. intros H s. apply H. Qed.

Lemma does_avoids {A} (P : S -> Prop) (c : C A) : avoids c -> does P c (fun _ l _ => picked l = []).
Proof.
  intros Hc h s _.
  assert (forall l, picked l = [] -> wph (fun _ _ => True) c
    (fun _ h' _ => exists l', h' = h ++ l' /\ picked l' = []) (h ++ l) s) as H.
  { clear -Hc. revert s Hc. induction c as [a|e|u k IH|B q k IH]; simpl; intros s Hc l Hl; [by exists l..| |].
    - rewrite <- app_assoc. apply IH; [done|]. rewrite picked_app, Hl. done.
    - intros r s' _. destruct Hc as [Hq Hk]. rewrite <- app_assoc. apply IH; [done|].
      rewrite picked_app, Hl. simpl. by rewrite Hq. }
  specialize (H [] eq_refl). by rewrite app_nil_r in H.
Qed.
Lemma avoids_history {A} (c : C A) o n s : avoids c -> picked (history_of o c n s) = [].
Proof.
  intros H. apply (does_sound c (fun _ l _ => picked l = []) o n s). by apply does_avoids.
Qed.
End picked.

(** ** What came before

    [in_order]: the history has happenings with these properties, in this
    order; [saw] and [did] are such properties, of a step. *)

Section order.
Context {S : Type} {E : Type -> Type}.
Abbreviation happened := (list (happening S E)).

(** A step from such a state, a step of this kind, an answer of this kind. *)
Definition did (P : S -> S -> Prop) (x : happening S E) : Prop :=
  match x with Acted s s' => P s s' | Asked _ _ => False end.
Definition saw (P : S -> Prop) : happening S E -> Prop := did (fun s _ => P s).

Fixpoint in_order (Ps : list (happening S E -> Prop)) (h : happened) : Prop :=
  match Ps with
  | [] => True
  | P :: Ps => exists h1 x h2, h = h1 ++ x :: h2 /\ P x /\ in_order Ps h2
  end.

Lemma in_order_before Ps h h' : in_order Ps h' -> in_order Ps (h ++ h').
Proof.
  destruct Ps as [|P Ps]; [done|]. intros (h1 & x & h2 & -> & H). exists (h ++ h1), x, h2.
  by rewrite <- app_assoc.
Qed.
Lemma in_order_app Ps Qs : forall h h', in_order Ps h -> in_order Qs h' -> in_order (Ps ++ Qs) (h ++ h').
Proof.
  induction Ps as [|P Ps IH]; intros h h' HP HQ; simpl; [by apply in_order_before|].
  destruct HP as (h1 & x & h2 & -> & Hx & H). exists h1, x, (h2 ++ h'). rewrite <- app_assoc. auto.
Qed.
Lemma in_order_after Ps h h' : in_order Ps h -> in_order Ps (h ++ h').
Proof. intros H. rewrite <- (app_nil_r Ps). by apply in_order_app. Qed.
Lemma in_order_one (P : happening S E -> Prop) h x : x ∈ h -> P x -> in_order [P] h.
Proof. intros (h1 & h2 & ->)%list_elem_of_split HP. by exists h1, x, h2. Qed.
Lemma in_order_mono (P Q : happening S E -> Prop) h : (forall x, P x -> Q x) -> in_order [P] h -> in_order [Q] h.
Proof. intros HPQ (h1 & x & h2 & -> & H & _). exists h1, x, h2. split_and!; [done|by apply HPQ|done]. Qed.

(** Every picked request of [h] comes after a stretch without one that clears
    it. *)
Context {X : Type} (pick : forall B, E B -> result exn B -> option X) (cleared : X -> happened -> Prop).

Definition preceded (h : happened) : Prop := forall h1 x h2 y,
  h = h1 ++ x :: h2 -> pick_in pick x = Some y ->
  exists h0 l, h1 = h0 ++ l /\ picked pick l = [] /\ cleared y l.

Lemma preceded_none h : picked pick h = [] -> preceded h.
Proof.
  intros H h1 x h2 y -> Hy. rewrite picked_app in H. apply app_eq_nil in H as [_ H]. simpl in H.
  by rewrite Hy in H.
Qed.
Lemma preceded_app h h' : preceded h -> preceded h' -> preceded (h ++ h').
Proof.
  intros H H' h1 x h2 y E1 Hy. apply app_eq_inv in E1 as [(k & -> & E1)|(k & -> & E1)].
  - destruct k as [|z k]; simpl in E1; [|injection E1 as <- E1; by apply (H h1 x k y)].
    destruct (H' [] x h2 y (eq_sym E1) Hy) as (h0 & l & El & Hl). symmetry in El. apply app_eq_nil in El as [-> ->].
    exists h1, []. by rewrite !app_nil_r.
  - destruct (H' k x h2 y E1 Hy) as (h0 & l & -> & Hl). exists (h ++ h0), l. by rewrite <- app_assoc.
Qed.
Lemma preceded_last h x : picked pick h = [] -> (forall y, pick_in pick x = Some y -> cleared y h) ->
  preceded (h ++ [x]).
Proof.
  intros Hh Hx h1 x' h2 y E1 Hy. apply app_eq_inv in E1 as [(k & -> & E1)|(k & -> & E1)].
  - destruct k as [|z k]; simpl in E1.
    + injection E1 as -> _. exists [], h1. rewrite app_nil_r in Hh. split_and!; [done|done|].
      specialize (Hx y Hy). by rewrite app_nil_r in Hx.
    + injection E1 as <- _. exfalso. rewrite picked_app in Hh. apply app_eq_nil in Hh as [_ Hh].
      simpl in Hh. by rewrite Hy in Hh.
  - destruct k as [|z k]; simpl in E1; [|destruct k; discriminate E1].
    injection E1 as -> _. exists [], h. rewrite app_nil_r. auto.
Qed.
End order.

(** ** A method of a part of the state *)

Section zoom.
Context {S T : Type} {E F : Type -> Type} (get : T -> S) (set : S -> T -> T) (tag : forall B, E B -> F B).

Fixpoint zoom {A} (c : coro S E A) : coro T F A :=
  match c with
  | Ret a => Ret a
  | Raise e => Raise e
  | Act u k => Act (fun t => set (u (get t)) t) (fun t => zoom (k (get t)))
  | Await q k => Await (tag _ q) (fun r => zoom (k r))
  end.
End zoom.

Lemma avoids_zoom {S T X : Type} {E G : Type -> Type} (get : T -> S) (set : S -> T -> T) (tag : forall B, E B -> G B)
    (pick : forall B, E B -> result exn B -> option X) (pick' : forall B, G B -> result exn B -> option X) {A}
    (c : coro S E A) : (forall B q r, pick' B (tag B q) r = pick B q r) ->
  avoids pick c -> avoids pick' (zoom get set tag c).
Proof.
  intros Hp. induction c as [a|e|u k IH|B q k IH]; simpl; [done|done| |].
  - intros Hc t. apply IH, Hc.
  - intros [Hq Hk]. split; [intros r; by rewrite Hp|]. intros r. apply IH, Hk.
Qed.

(** ** What a method keeps

    [stays]: an invariant that the others keep at the awaits is kept throughout. *)

Section Stays.
Context {S : Type} {E : Type -> Type} (Rely : S -> S -> Prop) (I : S -> Prop).
Context (stable : forall s s', I s -> Rely s s' -> I s').

(** The method keeps [I], as the others do. *)
Definition stays {A} (c : coro S E A) : Prop := forall h s, I s -> wph Rely c (fun _ _ s => I s) h s.

Lemma stays_ret {A} (a : A) : stays (Ret a).
Proof. by intros h s. Qed.
Lemma stays_raise {A} e : stays (Raise e : coro S E A).
Proof. by intros h s. Qed.
Lemma stays_bind {A B} (c : coro S E A) (f : A -> coro S E B) : stays c -> (forall a, stays (f a)) -> stays (c ≫= f).
Proof.
  intros Hc Hf h s Hs. apply wph_bind. eapply wph_mono; [|by apply Hc]. intros [a|e] h' s'; [apply Hf|done].
Qed.
Lemma stays_catch {A} (f : exn -> coro S E A) c : stays c -> (forall e, stays (f e)) -> stays (coro_catch f c).
Proof.
  intros Hc Hf h s Hs. apply wph_catch. eapply wph_mono; [|by apply Hc]. intros [a|e] h' s'; [done|apply Hf].
Qed.
Lemma stays_await {B} (q : E B) : stays (await q).
Proof. intros h s Hs r s' Hr. destruct r; simpl; by eapply stable. Qed.
Lemma stays_perform {A} (m : stm S exn A) : (forall s, I s -> I (snd (m s))) -> stays (perform m).
Proof. intros Hm h s Hs. simpl. destruct (fst (m s)); simpl; by apply Hm. Qed.
Lemma stays_look {A} (f : S -> coro S E A) : (forall s, stays (f s)) -> stays (look ≫= f).
Proof. intros Hf h s Hs. simpl. by apply Hf. Qed.
Lemma stays_alter u : (forall s, I s -> I (u s)) -> stays (alter_st u).
Proof. intros Hu h s Hs. simpl. by apply Hu. Qed.
Lemma stays_iter {A} (f : A -> coro S E unit) l : (forall x, stays (f x)) -> stays (coro_iter f l).
Proof. intros Hf. induction l as [|x l IH]; simpl; [apply stays_ret|]. by apply stays_bind. Qed.
Lemma stays_if {A} (b : bool) (c d : coro S E A) : stays c -> stays d -> stays (if b then c else d).
Proof. by destruct b. Qed.
End Stays.

(** ** Requests served by a program *)

Section handle.
Context {S : Type} {E F : Type -> Type} (h : forall B, E B -> coro S F B).

Definition coro_try {A} (c : coro S F A) : coro S F (result exn A) :=
  coro_catch (fun e => Ret (Err e)) (coro_bind (fun a => Ret (Ok a)) c).

Fixpoint handle {A} (c : coro S E A) : coro S F A :=
  match c with
  | Ret a => Ret a
  | Raise e => Raise e
  | Act u k => Act u (fun s => handle (k s))
  | Await q k => coro_bind (fun r => handle (k r)) (coro_try (h _ q))
  end.
End handle.
