(* ===== verification/ControlTakeover.v ===== *)
(** * Control of physical devices (runtime/control_takeover.py)

    A coordinator admits a plan to a latched device, a battery or a charger,
    only under a lease its provider confirmed, watches the lease, and stops the
    device when it is lost.  Its methods are coroutines ([Coroutines.v]) that
    yield at every call of the adapter.  The adapter is the environment: its
    answers are arbitrary; the vehicle's adapter, which is a program of this
    repository, is [ev_adapter]. *)

From S2P Require Import Prelude.
From S2P Require Import Values.
From S2P Require Import Models.
From S2P Require Import StateStore.
From S2P Require Import Digests.
From S2P Require Import Coordination.
From S2P Require Import Preflight.
From S2P Require Import Ports.
From S2P Require Import Coroutines.

(** Of the runtime: [uuid4], [str] of an exception and of a baseline. *)
Class TakeoverText := {
  uuid4 : nat -> string;
  exn_str : exn -> string;
  baseline_str : PhysicalBaseline -> string
}.

Record ControlTakeoverRequest := mkControlTakeoverRequest {
  cr_owner : string;
  cr_device_id : string;
  cr_plan_id : string;
  cr_first_command_id : string;
  cr_first_command : string;
  cr_first_command_value : option scalar;
  cr_native_scheduler_status : NativeSchedulerStatus;
  cr_allow_native_takeover : bool;
  cr_lease_seconds : f64
}.

(** The adapter's methods and what they answer; [None] for an answer of
    [renew_control] that is no [TakeoverResult], and of [execute] what counts,
    [accepted]. *)
Inductive adapter_call : Type -> Type :=
  | acquire_control (r : ControlTakeoverRequest) : adapter_call TakeoverResult
  | renew_control (t : TakeoverResult) : adapter_call (option TakeoverResult)
  | adapter_execute (c : Command) (context : ExecutionContext) : adapter_call bool
  | adapter_read_state (refs : list SourceRef) : adapter_call (list StateSnapshot).

Record ControlPolicy := mkControlPolicy {
  cp_owner : string;
  cp_native_scheduler_status : NativeSchedulerStatus;
  cp_allow_native_takeover : bool;
  cp_lease_seconds : f64
}.

(** The configuration of a coordinator, with the optional methods its adapter
    has; [cc_stale_after] is there when a state store is. *)
Record Coordinator := mkCoordinator {
  cc_policy : ControlPolicy;
  cc_device_id : string;
  cc_command_names : list string;
  cc_stop_command : string;
  cc_stop_unit : string;
  cc_stale_after : option timedelta;
  cc_power_feedback_capability : option string;
  cc_power_feedback_source_ref : option SourceRef;
  cc_power_feedback_tolerance_kw : f64;
  cc_renews : bool;
  cc_executes : bool;
  cc_reads : bool
}.

Abbreviation lease_key := (string * string * string)%type.

(** [_results] and [_startup_reconciled]; and of the runtime the clock, the
    state store and the next [uuid4]. *)
Record Control := mkControl {
  ct_results : odict lease_key TakeoverResult;
  ct_startup_reconciled : bool;
  ct_now : datetime;
  ct_store : StateStore;
  ct_uuids : nat
}.
#[global] Instance Control_eta : Eta Control := fun r =>
  mkControl (ct_results r) (ct_startup_reconciled r) (ct_now r) (ct_store r) (ct_uuids r).

Abbreviation C := (coro Control adapter_call).

(** The doubles [0.2] and [1.0]. *)
Definition f64_0_2 : f64 := SpecFloat.S754_finite false 7205759403792794 (-55).
Definition f64_1 : f64 := SpecFloat.S754_finite false 4503599627370496 (-52).

Definition same_source_route (a b : SourceRef) : bool :=
  bool_decide (sr_adapter_id a = sr_adapter_id b) && bool_decide (sr_external_id a = sr_external_id b).

Section Coordinator.
Context `{CJ : Canonical} `{TT : TakeoverText}.
Context (cc : Coordinator).

Definition owner : string := cp_owner (cc_policy cc).
Definition key_of (plan_id : string) : lease_key := (owner, cc_device_id cc, plan_id).
Definition has_feedback : bool :=
  opt_bool (cc_stale_after cc) && opt_bool (cc_power_feedback_capability cc).

(** [BatteryControlCoordinator(...)] *)
Definition new_control (now : datetime) (store : StateStore) : Control :=
  mkControl [] (negb (opt_bool (cc_stale_after cc)) && negb (opt_bool (cc_power_feedback_capability cc)))
    now store 0.

Definition authority_blocked (s : Control) : bool :=
  existsb (fun t => bool_decide (tk_status t = CLS_UNKNOWN)) (od_values (ct_results s)).
Definition authority_block_reason (s : Control) : option string :=
  match List.filter (fun t => bool_decide (tk_status t = CLS_UNKNOWN)) (od_values (ct_results s)) with
  | t :: _ => tk_failure_code t
  | [] => None
  end.

Definition put_result (k : lease_key) (t : TakeoverResult) : C unit :=
  alter_st (fun s => s <| ct_results := od_set k t (ct_results s) |>).
Definition set_reconciled (b : bool) : C unit :=
  alter_st (fun s => s <| ct_startup_reconciled := b |>).
Definition expire (t : TakeoverResult) (code : string) : TakeoverResult :=
  t <| tk_status := CLS_EXPIRED |> <| tk_failure_code := Some code |>.

(** [_revoke] *)
Definition revoke (k : lease_key) (t : TakeoverResult) (code : string) : C unit :=
  put_result k (t <| tk_status := CLS_UNKNOWN |> <| tk_failure_code := Some code |>).

(** [_clear_reconciled_unknown_leases] *)
Definition clear_reconciled_unknown_leases : C unit :=
  alter_st (fun s => s <| ct_results :=
    map (fun '(k, t) =>
      (k, if bool_decide (tk_status t = CLS_UNKNOWN)
          then t <| tk_status := CLS_RELEASED |> <| tk_failure_code := Some "control_reconciled" |>
          else t)) (ct_results s) |>).

Definition lease_length : result exn timedelta := timedelta_seconds (NFloat (cp_lease_seconds (cc_policy cc))).
Definition renewal_margin : result exn timedelta :=
  timedelta_seconds (num_max (NFloat f64_1) (NFloat (f64_mul (cp_lease_seconds (cc_policy cc)) f64_0_2))).

Definition rejection_payload (plan_id first_command_id code : string) : json :=
  JObj [("owner", JStr owner); ("device_id", JStr (cc_device_id cc)); ("plan_id", JStr plan_id);
        ("first_command_id", JStr first_command_id); ("failure_code", JStr code)].

(** [_rejected] *)
Definition rejected (plan_id : string) (first : Command) (code : string) : C TakeoverResult :=
  s ← look;
  alter_st (fun s => s <| ct_uuids := S (ct_uuids s) |>) ≫= fun _ =>
  d ← of_result lease_length;
  let t := mkTakeoverResult default_authority ("rejected-" +:+ uuid4 (ct_uuids s)) CLS_REJECTED
             owner (cc_device_id cc) plan_id (ct_now s) (ct_now s + d) None (cmd_id first) false None
             (Some code) (digest_ascii (rejection_payload plan_id (cmd_id first) code)) in
  of_result (validate_takeover t) ≫= fun _ =>
  mret t.

(** ** [acquire_for_plan] *)

(** The leases held for other plans: the reason to refuse, if there is one. *)
Fixpoint check_held (k : lease_key) (held : list (lease_key * TakeoverResult)) : C (option string) :=
  match held with
  | [] => mret None
  | (held_key, t) :: held =>
      if negb (bool_decide (fst held_key = fst k)) then check_held k held
      else if bool_decide (tk_status t = CLS_UNKNOWN) then mret (Some "control_authority_unknown")
      else if negb (bool_decide (tk_status t = CLS_ACQUIRED)) then check_held k held
      else
        s ← look;
        if tk_expires_at t <=? ct_now s
        then put_result held_key (expire t "lease_expired") ≫= fun _ => check_held k held
        else mret (Some "control_lease_already_held")
  end.

Definition native_owner (n : NativeSchedulerStatus) : option string :=
  match n with
  | NSS_active => Some "native_owner_active"
  | NSS_unknown => Some "native_owner_unknown"
  | _ => None
  end.

Definition takeover_request (plan_id : string) (first : Command) : ControlTakeoverRequest :=
  mkControlTakeoverRequest owner (cc_device_id cc) plan_id (cmd_id first) (cmd_command first)
    (cmd_value first) (cp_native_scheduler_status (cc_policy cc))
    (cp_allow_native_takeover (cc_policy cc)) (cp_lease_seconds (cc_policy cc)).

(** The answer names this owner, device, plan and first command. *)
Definition matches_request (plan_id first_command_id : string) (t : TakeoverResult) : bool :=
  bool_decide (tk_owner t = owner) && bool_decide (tk_device_id t = cc_device_id cc)
  && bool_decide (tk_plan_id t = plan_id) && bool_decide (tk_first_command_id t = first_command_id).

Definition ask_adapter (plan_id : string) (first : Command) : C TakeoverResult :=
  answer ← await_or (acquire_control (takeover_request plan_id first));
  t ← (match answer with
       | Ok t => mret t
       | Err e =>
           t ← rejected plan_id first "control_provider_unavailable";
           mret (t <| tk_evidence_digest := "sha256:" +:+ sha256_hex (exn_str e) |>)
       end);
  t ← (if matches_request plan_id (cmd_id first) t then mret t
       else rejected plan_id first "control_evidence_mismatch");
  put_result (key_of plan_id) t ≫= fun _ =>
  mret t.

Definition relevant (commands : list Command) : list Command :=
  List.filter (fun c => bool_decide (cmd_device_id c = cc_device_id cc)
                        && bool_decide (cmd_command c ∈ cc_command_names cc)) commands.

(** A plan without a result of its own. *)
Definition acquire_new (plan_id : string) (first : Command) : C TakeoverResult :=
  s ← look;
  refusal ← check_held (key_of plan_id) (ct_results s);
  match refusal with
  | Some code => rejected plan_id first code
  | None =>
      match native_owner (cp_native_scheduler_status (cc_policy cc)),
            cp_allow_native_takeover (cc_policy cc) with
      | Some code, false =>
          t ← rejected plan_id first code;
          put_result (key_of plan_id) t ≫= fun _ =>
          mret t
      | _, _ => ask_adapter plan_id first
      end
  end.

Definition acquire_for_plan (plan_id : string) (commands : list Command) : C (option TakeoverResult) :=
  match relevant commands with
  | [] => mret None
  | first :: _ =>
      s ← look;
      if negb (ct_startup_reconciled s)
      then t ← rejected plan_id first "startup_reconciliation_required"; mret (Some t)
      else
        match od_get (key_of plan_id) (ct_results s) with
        | Some t =>
            if bool_decide (tk_status t = CLS_ACQUIRED) && (tk_expires_at t <=? ct_now s)
            then put_result (key_of plan_id) (expire t "control_lease_expired") ≫= fun _ =>
                 mret (Some (expire t "control_lease_expired"))
            else mret (Some t)
        | None => t ← acquire_new plan_id first; mret (Some t)
        end
  end.

(** ** [assert_still_owned] *)

Definition renewal_ok (plan_id first_command_id : string) (t : TakeoverResult) : bool :=
  bool_decide (tk_status t = CLS_ACQUIRED) && matches_request plan_id first_command_id t.

Definition still_live (t : TakeoverResult) : C bool :=
  s ← look; mret (ct_now s <? tk_expires_at t).

Definition assert_still_owned (plan_id : string) : C bool :=
  s ← look;
  match od_get (key_of plan_id) (ct_results s) with
  | None => mret false
  | Some t =>
      if negb (bool_decide (tk_status t = CLS_ACQUIRED)) then mret false
      else if tk_expires_at t <=? ct_now s
      then put_result (key_of plan_id) (expire t "lease_expired") ≫= fun _ => mret false
      else
        margin ← of_result renewal_margin;
        if tk_expires_at t - ct_now s <=? margin then
          if cc_renews cc then
            renewed ← await_or (renew_control t);
            match renewed with
            | Ok (Some t') =>
                if renewal_ok plan_id (tk_first_command_id t) t'
                then put_result (key_of plan_id) t' ≫= fun _ => still_live t'
                else mret false
            | _ => mret false
            end
          else still_live t
        else still_live t
  end.

(** ** Feedback *)

(** [_read_feedback] *)
Definition on_route (capability : string) (ref : SourceRef) (s : StateSnapshot) : bool :=
  same_source_route (ss_source_ref s) ref && bool_decide (ss_capability s = capability).

Definition read_feedback (ref : SourceRef) : C (option StateSnapshot) :=
  match cc_power_feedback_capability cc with
  | None => mret None
  | Some capability =>
      if cc_reads cc then
        snapshots ← await (adapter_read_state [ref]);
        mret ((fun s => s <| ss_device_id := cc_device_id cc |>)
              <$> List.find (on_route capability ref) snapshots)
      else mret None
  end.

(** [_feedback_is_safe] at the instant [now] *)
Definition feedback_is_safe (now : datetime) (o : option StateSnapshot) : result exn bool :=
  match o with
  | None => Ok false
  | Some s =>
      if negb (is_current s) then Ok false
      else match ss_value s ≫= numeric with
           | None => Ok false
           | Some n =>
               let age := NFloat (total_seconds (now - ss_received_at s)) in
               if match cc_stale_after cc with
                  | Some d => num_lt age (NInt 0) || num_gt age (NFloat (total_seconds d))
                  | None => false
                  end then Ok false
               else f ← py_float n;
                    Ok (num_le (NFloat (f64_abs f)) (NFloat (cc_power_feedback_tolerance_kw cc)))
           end
  end.

Definition is_safe (o : option StateSnapshot) : C bool :=
  s ← look; of_result (feedback_is_safe (ct_now s) o).

(** ** [emergency_stop] *)

Definition stop_command_of (id key intent : string) : result exn Command :=
  let c := mkCommand id (cc_device_id cc) (cc_stop_command cc) (Some (SNum (NInt 0)))
             (Some (cc_stop_unit cc)) [] SAFE key (Some intent) [] in
  require_texts [cmd_id c; cmd_device_id c; cmd_command c; cmd_idempotency_key c] ≫= fun _ => Ok c.

Definition send_stop (c : Command) (plan_id attempt_id request_id : string) : C bool :=
  let context := mkExecutionContext plan_id attempt_id request_id None "local" None None None in
  of_result (validate_context context) ≫= fun _ =>
  await (adapter_execute c context).

(** After the provider accepted the stop. *)
Definition confirm_stop (k : lease_key) (t : TakeoverResult) : C bool :=
  let failed code := revoke k t code ≫= fun _ => mret false in
  if negb has_feedback then failed "emergency_stop_readback_not_configured"
  else match tk_baseline t, cc_reads cc with
       | Some b, true =>
           matching ← coro_except (mret None) (r ← read_feedback (pb_source_ref b); mret (Some r));
           match matching with
           | None => failed "emergency_stop_readback_failed"
           | Some matching =>
               safe ← is_safe matching;
               if safe : bool
               then put_result k (t <| tk_status := CLS_RELEASED |>) ≫= fun _ => mret true
               else failed "emergency_stop_readback_unconfirmed"
           end
       | _, _ => failed "emergency_stop_readback_unavailable"
       end.

Definition emergency_stop (plan_id attempt_id : string) : C bool :=
  let k := key_of plan_id in
  s ← look;
  match od_get k (ct_results s) with
  | None => mret false
  | Some t =>
      let failed code := revoke k t code ≫= fun _ => mret false in
      if negb (cc_executes cc) then failed "control_provider_unavailable"
      else
        c ← of_result (stop_command_of (plan_id +:+ ":emergency-stop")
                         (plan_id +:+ ":emergency-stop:" +:+ tk_lease_id t)
                         "control_supervisor_emergency_stop");
        accepted ← coro_except (mret None)
          (a ← send_stop c plan_id attempt_id (plan_id +:+ ":emergency-stop-request"); mret (Some a));
        match accepted with
        | None => failed "emergency_stop_failed"
        | Some false => failed "emergency_stop_rejected"
        | Some true => confirm_stop k t
        end
  end.

(** ** [supervise_once] *)

(** The lease a provider renewed, if it did. *)
Definition try_renewal (t : TakeoverResult) (remaining : timedelta) : C (option TakeoverResult) :=
  if cc_renews cc && (0 <? remaining) then
    candidate ← await_or (renew_control t);
    match candidate with
    | Ok (Some t') =>
        mret (if renewal_ok (tk_plan_id t) (tk_first_command_id t) t' then Some t' else None)
    | _ => mret None
    end
  else mret None.

Definition supervised (t : TakeoverResult) (confirmed : bool) : TakeoverResult :=
  t <| tk_status := if confirmed then CLS_RELEASED else CLS_UNKNOWN |>
    <| tk_failure_code := Some (if confirmed then "lease_supervisor_stop_confirmed"
                                else "lease_supervisor_stop_failed") |>.

(** One lease; the answer is the plan that was stopped. *)
Definition supervise (now : datetime) (margin : timedelta) (k : lease_key) (t : TakeoverResult)
    : C (list string) :=
  let remaining := tk_expires_at t - now in
  if negb (bool_decide (tk_status t = CLS_ACQUIRED)) || (margin <? remaining) then mret []
  else
    renewed ← try_renewal t remaining;
    match renewed with
    | Some t' => put_result k t' ≫= fun _ => mret []
    | None =>
        confirmed ← emergency_stop (tk_plan_id t) ("control-supervisor:" +:+ tk_lease_id t);
        put_result k (supervised t confirmed) ≫= fun _ =>
        mret [tk_plan_id t]
    end.

Fixpoint supervise_all (now : datetime) (margin : timedelta) (l : list (lease_key * TakeoverResult))
    : C (list string) :=
  match l with
  | [] => mret []
  | (k, t) :: l =>
      stopped ← supervise now margin k t;
      rest ← supervise_all now margin l;
      mret (stopped ++ rest)
  end.

Definition supervise_once : C (list string) :=
  s ← look;
  margin ← of_result renewal_margin;
  supervise_all (ct_now s) margin (ct_results s).

(** ** [reconcile_startup] *)

(** A live reading of the feedback route that shows the device at rest. *)
Definition live_reading_safe (ref : SourceRef) : C bool :=
  live ← coro_except (mret None) (read_feedback ref);
  is_safe live.

Definition reconciled : C bool :=
  set_reconciled true ≫= fun _ => clear_reconciled_unknown_leases ≫= fun _ => mret true.
Definition not_reconciled : C bool := set_reconciled false ≫= fun _ => mret false.

(** The stop of an unknown device, and its confirmation. *)
Definition reconcile_by_stop (ref : SourceRef) : C bool :=
  c ← of_result (stop_command_of "startup-reconciliation-stop" "startup-reconciliation-stop"
                   "control_supervisor_startup_reconciliation");
  if negb (cc_executes cc) then not_reconciled
  else
    coro_except not_reconciled
      (accepted ← send_stop c "startup-reconciliation" "startup-reconciliation" "startup-reconciliation-stop";
       if negb accepted then not_reconciled
       else if negb (cc_reads cc) then not_reconciled
       else matching ← read_feedback ref;
            confirmed ← is_safe matching;
            if confirmed : bool then reconciled else not_reconciled).

Definition reconcile_startup : C bool :=
  match cc_stale_after cc, cc_power_feedback_capability cc with
  | None, None => set_reconciled true ≫= fun _ => mret true
  | Some _, Some capability =>
      s ← look;
      let snapshot := get (ct_store s) (cc_device_id cc) capability in
      match match snapshot with Some s => Some (ss_source_ref s) | None => cc_power_feedback_source_ref cc end with
      | None => not_reconciled
      | Some ref =>
          cached_safe ← is_safe snapshot;
          live_safe ← (if cached_safe || negb (opt_bool snapshot) then live_reading_safe ref else mret false);
          if live_safe : bool then reconciled else reconcile_by_stop ref
      end
  | _, _ => not_reconciled
  end.

(** ** [release_for_plan] and [shutdown] *)

Definition release_for_plan (plan_id attempt_id : string) : C bool :=
  s ← look;
  match od_get (key_of plan_id) (ct_results s) with
  | None => mret false
  | Some t =>
      if negb (bool_decide (tk_status t = CLS_ACQUIRED)) then mret (bool_decide (tk_status t = CLS_RELEASED))
      else if negb has_feedback
      then put_result (key_of plan_id) (t <| tk_status := CLS_RELEASED |>) ≫= fun _ => mret true
      else emergency_stop plan_id attempt_id
  end.

Definition shut_down_one (kt : lease_key * TakeoverResult) : C unit :=
  let '(k, t) := kt in
  if negb (bool_decide (tk_status t = CLS_ACQUIRED)) then mret tt
  else
    confirmed ← emergency_stop (tk_plan_id t) ("control-supervisor:shutdown:" +:+ tk_lease_id t);
    if confirmed : bool then mret tt else revoke k t "shutdown_stop_unconfirmed".

Definition shutdown : C unit :=
  s ← look; coro_iter shut_down_one (ct_results s).

(** ** Any method, for the event loop *)

Inductive control_call :=
  | K_acquire (plan_id : string) (commands : list Command)
  | K_still_owned (plan_id : string)
  | K_emergency_stop (plan_id attempt_id : string)
  | K_supervise
  | K_reconcile
  | K_release (plan_id attempt_id : string)
  | K_shutdown.

Inductive control_answer :=
  | KA_lease (t : option TakeoverResult)
  | KA_bool (b : bool)
  | KA_plans (l : list string)
  | KA_none.

Definition control (k : control_call) : C control_answer :=
  match k with
  | K_acquire p cs => t ← acquire_for_plan p cs; mret (KA_lease t)
  | K_still_owned p => b ← assert_still_owned p; mret (KA_bool b)
  | K_emergency_stop p a => b ← emergency_stop p a; mret (KA_bool b)
  | K_supervise => l ← supervise_once; mret (KA_plans l)
  | K_reconcile => b ← reconcile_startup; mret (KA_bool b)
  | K_release p a => b ← release_for_plan p a; mret (KA_bool b)
  | K_shutdown => shutdown ≫= fun _ => mret KA_none
  end.
End Coordinator.

(** ** A vehicle's charger: [_EVReadbackControlAdapter] and [EVControlCoordinator] *)

Record EVAdapter := mkEVAdapter {
  ev_source_ref : option SourceRef;
  ev_feedback_capability : string;
  ev_stale_after : timedelta;
  ev_reads : bool;
  ev_executes : bool
}.

Section EVAdapter.
Context `{CJ : Canonical} `{TT : TakeoverText}.
Context (ea : EVAdapter).

(** [ControlTakeoverRequest.model_dump(mode="json")] *)
Definition request_dump (r : ControlTakeoverRequest) : json :=
  JObj [("owner", JStr (cr_owner r)); ("device_id", JStr (cr_device_id r));
        ("plan_id", JStr (cr_plan_id r)); ("first_command_id", JStr (cr_first_command_id r));
        ("first_command", JStr (cr_first_command r));
        ("first_command_value", json_of_opt json_of_scalar (cr_first_command_value r));
        ("native_scheduler_status", JStr (NativeSchedulerStatus_value (cr_native_scheduler_status r)));
        ("allow_native_takeover", JBool (cr_allow_native_takeover r));
        ("lease_seconds", json_f64 (cr_lease_seconds r))].

Definition ev_rejected (r : ControlTakeoverRequest) (now : datetime) (code : string) : C TakeoverResult :=
  s ← look;
  alter_st (fun s => s <| ct_uuids := S (ct_uuids s) |>) ≫= fun _ =>
  d ← of_result (timedelta_seconds (NFloat (cr_lease_seconds r)));
  let t := mkTakeoverResult default_authority ("rejected-" +:+ uuid4 (ct_uuids s)) CLS_REJECTED
             (cr_owner r) (cr_device_id r) (cr_plan_id r) now (now + d) None (cr_first_command_id r)
             false None (Some code)
             (digest_ascii (JObj [("request", request_dump r); ("failure_code", JStr code)])) in
  of_result (validate_takeover t) ≫= fun _ =>
  mret t.

(** [_is_fresh_numeric], and the number *)
Definition fresh_numeric (now : datetime) (s : StateSnapshot) : option num :=
  if is_current s && (0 <=? now - ss_received_at s) && (now - ss_received_at s <=? ev_stale_after ea)
  then ss_value s ≫= numeric else None.

Definition ev_lease (r : ControlTakeoverRequest) (now : datetime) (s : StateSnapshot) (n : num)
    : result exn TakeoverResult :=
  power ← py_float n;
  let b := mkPhysicalBaseline (cr_device_id r) (ev_feedback_capability ea) (Some power)
             (ss_observed_at s) (ss_received_at s) (ss_source_ref s)
             ("ev:" +:+ isoformat (ss_received_at s) None) (cr_native_scheduler_status r) in
  validate_baseline b ≫= fun _ =>
  d ← timedelta_seconds (NFloat (cr_lease_seconds r));
  let t := mkTakeoverResult default_authority
             ("ev-control-" +:+ cr_device_id r +:+ "-" +:+ cr_plan_id r) CLS_ACQUIRED
             (cr_owner r) (cr_device_id r) (cr_plan_id r) now (now + d) (Some b)
             (cr_first_command_id r) false None None
             (digest_ascii (JObj [("request", request_dump r); ("baseline", JStr (baseline_str b))])) in
  validate_takeover t ≫= fun _ =>
  Ok t.

Definition ev_acquire_control (r : ControlTakeoverRequest) : C TakeoverResult :=
  s ← look;
  match ev_source_ref ea with
  | None => ev_rejected r (ct_now s) "baseline_unavailable"
  | Some ref =>
      if negb (ev_reads ea) then ev_rejected r (ct_now s) "control_provider_unavailable"
      else
        answer ← await_or (adapter_read_state [ref]);
        match answer with
        | Err _ => ev_rejected r (ct_now s) "baseline_unavailable"
        | Ok snapshots =>
            s ← look;
            match List.find (on_route (ev_feedback_capability ea) ref) snapshots with
            | None => ev_rejected r (ct_now s) "baseline_unavailable"
            | Some snapshot =>
                match fresh_numeric (ct_now s) snapshot with
                | None => ev_rejected r (ct_now s) "baseline_unavailable"
                | Some n => of_result (ev_lease r (ct_now s) snapshot n)
                end
            end
        end
  end.

(** The adapter the coordinator is given, over the adapter of the charger. *)
Definition ev_adapter (B : Type) (q : adapter_call B) : C B :=
  match q with
  | acquire_control r => ev_acquire_control r
  | renew_control _ => Raise TypeError (* the adapter has no such method *)
  | adapter_execute c context =>
      if ev_executes ea then await (adapter_execute c context)
      else Raise (OSError "EV control provider does not expose execute")
  | adapter_read_state refs =>
      if ev_reads ea then await (adapter_read_state refs)
      else Raise (OSError "EV control provider does not expose read_state")
  end.
End EVAdapter.

(** [EVControlCoordinator(...)]: the configuration of its base class. *)
Definition ev_coordinator (policy : ControlPolicy) (device_id : string) (command_names : list string)
    (stop_command stop_unit : string) (tolerance : f64) (ea : EVAdapter) : Coordinator :=
  mkCoordinator policy device_id command_names stop_command stop_unit (Some (ev_stale_after ea))
    (Some (ev_feedback_capability ea)) (ev_source_ref ea) tolerance false true true.

Definition ev_control `{CJ : Canonical} `{TT : TakeoverText} (cc : Coordinator) (ea : EVAdapter)
    (k : control_call) : C control_answer :=
  handle (ev_adapter ea) (control cc k).

(** ** Several devices: [ControlTakeoverGroup] *)

(** A request of the [i]-th coordinator's adapter. *)
Inductive member_call : Type -> Type :=
  | Member (i : nat) {B : Type} (q : adapter_call B) : member_call B.

(** The coordinators' states by their place in the list, and [_active]. *)
Record Group := mkGroup {
  gr_members : nat -> Control;
  gr_active : odict string (list nat)
}.
#[global] Instance Group_eta : Eta Group := fun r => mkGroup (gr_members r) (gr_active r).

Abbreviation G := (coro Group member_call).

Section Group.
Context `{CJ : Canonical} `{TT : TakeoverText}.
Context (coordinators : list Coordinator).

Definition get_member (i : nat) (g : Group) : Control := gr_members g i.
Definition set_member (i : nat) (s : Control) (g : Group) : Group :=
  g <| gr_members := fun j => if decide (j = i) then s else gr_members g j |>.

Definition on_member (i : nat) {A} (c : C A) : G A :=
  zoom (get_member i) (set_member i) (fun B q => Member i q) c.

Definition rollback (plan_id : string) (held : list (nat * Coordinator)) : G unit :=
  coro_iter (fun '(i, cc) =>
    on_member i (release_for_plan cc plan_id (plan_id +:+ ":takeover-rollback")) ≫= fun _ => mret tt) held.

(** What the loop of [acquire_for_plan] leaves with: a refusal, or what was
    acquired. *)
Fixpoint acquire_members (plan_id : string) (commands : list Command)
    (acquired : list (nat * Coordinator)) (first : option TakeoverResult)
    (members : list (nat * Coordinator)) : G (TakeoverResult + list nat * option TakeoverResult) :=
  match members with
  | [] => mret (inr (map fst acquired, first))
  | (i, cc) :: members =>
      result ← on_member i (acquire_for_plan cc plan_id commands);
      match result with
      | None => acquire_members plan_id commands acquired first members
      | Some t =>
          if negb (bool_decide (tk_status t = CLS_ACQUIRED))
          then rollback plan_id acquired ≫= fun _ => mret (inl t)
          else acquire_members plan_id commands (acquired ++ [(i, cc)])
                 (match first with Some f => Some f | None => Some t end) members
      end
  end.

Definition members : list (nat * Coordinator) := imap pair coordinators.

Definition group_acquire_for_plan (plan_id : string) (commands : list Command) : G (option TakeoverResult) :=
  outcome ← acquire_members plan_id commands [] None members;
  match outcome with
  | inl t => mret (Some t)
  | inr ([], _) => mret None
  | inr (acquired, first) =>
      alter_st (fun g => g <| gr_active := od_set plan_id acquired (gr_active g) |>) ≫= fun _ =>
      mret first
  end.

Definition active_members (plan_id : string) (g : Group) : option (list (nat * Coordinator)) :=
  (fun active => List.filter (fun m => bool_decide (fst m ∈ active)) members)
  <$> od_get plan_id (gr_active g).

Fixpoint all_owned (plan_id : string) (l : list (nat * Coordinator)) : G bool :=
  match l with
  | [] => mret true
  | (i, cc) :: l =>
      owned ← on_member i (assert_still_owned cc plan_id);
      if owned : bool then all_owned plan_id l else mret false
  end.

Definition group_assert_still_owned (plan_id : string) : G bool :=
  g ← look;
  match active_members plan_id g with
  | None => mret true
  | Some l => all_owned plan_id l
  end.

(** Every member is asked, whatever the others do; are all confirmed? *)
Fixpoint ask_all (f : nat * Coordinator -> G bool) (l : list (nat * Coordinator)) : G bool :=
  match l with
  | [] => mret true
  | m :: l =>
      r ← coro_catch (fun _ => mret false) (f m);
      rest ← ask_all f l;
      mret (r && rest)
  end.

Definition group_emergency_stop (plan_id attempt_id : string) : G bool :=
  g ← look;
  match active_members plan_id g with
  | None => mret true
  | Some l => ask_all (fun '(i, cc) => on_member i (emergency_stop cc plan_id attempt_id)) l
  end.

Definition group_release_for_plan (plan_id attempt_id : string) : G bool :=
  g ← look;
  match active_members plan_id g with
  | None => mret true
  | Some l =>
      confirmed ← ask_all (fun '(i, cc) => on_member i (release_for_plan cc plan_id attempt_id)) l;
      (if confirmed : bool
       then alter_st (fun g => g <| gr_active := od_del plan_id (gr_active g) |>) else mret tt) ≫= fun _ =>
      mret confirmed
  end.

Fixpoint supervise_members (l : list (nat * Coordinator)) : G (list string) :=
  match l with
  | [] => mret []
  | (i, cc) :: l =>
      stopped ← on_member i (supervise_once cc);
      rest ← supervise_members l;
      mret (stopped ++ rest)
  end.
(** [sorted(set)] *)
Definition group_supervise_once : G (list string) :=
  stopped ← supervise_members members;
  mret (isort String.leb (remove_dups stopped)).

Definition group_shutdown : G unit :=
  coro_iter (fun '(i, cc) => on_member i (shutdown cc)) members.
End Group.
