(* ===== verification/ControlTakeoverRuns.v ===== *)
(** * Control of physical devices: concrete runs

    The event loop of [Coroutines.v] as a function of a script, and a home
    battery on it: the runs that the witnesses evaluate. *)

From S2P Require Import Prelude.
From S2P Require Import Values.
From S2P Require Import Models.
From S2P Require Import StateStore.
From S2P Require Import Digests.
From S2P Require Import ApprovalStore.
From S2P Require Import Coordination.
From S2P Require Import Ports.
From S2P Require Import Coroutines.
From S2P Require Import ControlTakeover.

(** ** Scripts *)

Inductive reply :=
  | R_lease (r : result exn TakeoverResult)
  | R_renewal (r : result exn (option TakeoverResult))
  | R_ack (r : result exn bool)
  | R_readings (r : result exn (list StateSnapshot)).

Definition reply_to {B} (r : reply) (q : adapter_call B) : option (result exn B) :=
  match q in adapter_call B return option (result exn B) with
  | acquire_control _ => match r with R_lease r => Some r | _ => None end
  | renew_control _ => match r with R_renewal r => Some r | _ => None end
  | adapter_execute _ _ => match r with R_ack r => Some r | _ => None end
  | adapter_read_state _ => match r with R_readings r => Some r | _ => None end
  end.

Inductive move :=
  | M_start (i : nat) (k : control_call)
  | M_reply (i : nat) (r : reply)
  | M_time (now : datetime).

Abbreviation Pool := (@pool Control adapter_call control_answer).
Abbreviation label := (option (cause adapter_call * nat * option (request adapter_call))).

(** Time is all that changes besides. *)
Definition time_passes (s s' : Control) : Prop := exists now, s' = s <| ct_now := now |>.

Section Script.
Context `{CJ : Canonical} `{TT : TakeoverText} (cc : Coordinator).

Definition do_move (m : move) (p : Pool) : option (label * Pool) :=
  match m with
  | M_start i k =>
      match pool_tasks p !! i with
      | Some _ => None
      | None =>
          let '(s, st) := advance (control cc k) (pool_state p) in
          Some (Some (Called, i, issued st), mkPool (<[i := st]> (pool_tasks p)) s)
      end
  | M_reply i r =>
      match pool_tasks p !! i with
      | Some (Blocked q k) =>
          match reply_to r q with
          | Some r =>
              let '(s, st) := advance (k r) (pool_state p) in
              Some (Some (Answered q r, i, issued st), mkPool (<[i := st]> (pool_tasks p)) s)
          | None => None
          end
      | _ => None
      end
  | M_time now => Some (None, mkPool (pool_tasks p) ((pool_state p) <| ct_now := now |>))
  end.

Lemma do_move_step m p l p' : do_move m p = Some (l, p') ->
  pool_step (control cc) time_passes p l p'.
Proof.
  destruct m as [i k|i r|now]; simpl.
  - destruct (pool_tasks p !! i) eqn:Ei; [done|].
    destruct (advance _ _) as [s st] eqn:Ea. intros [= <- <-]. by apply (step_start _ _ p i k).
  - destruct (pool_tasks p !! i) as [[|B q k]|] eqn:Ei; [done| |done].
    destruct (reply_to r q) as [a|]; [|done]. destruct (advance _ _) as [s st] eqn:Ea.
    intros [= <- <-]. by apply (step_answer _ _ p i B q k).
  - intros [= <- <-]. apply step_other. by exists now.
Qed.

Fixpoint do_script (ms : list move) (p : Pool) : option Pool :=
  match ms with
  | [] => Some p
  | m :: ms => match do_move m p with Some (_, p') => do_script ms p' | None => None end
  end.

Lemma do_script_reachable ms : forall s0 p p',
  pool_reachable (control cc) time_passes s0 p -> do_script ms p = Some p' ->
  pool_reachable (control cc) time_passes s0 p'.
Proof.
  induction ms as [|m ms IH]; simpl; intros s0 p p' Hp; [by intros [= <-]|].
  destruct (do_move m p) as [[l p1]|] eqn:Em; [|done]. apply IH. eapply pool_next; [exact Hp|by apply (do_move_step m)].
Qed.
End Script.

(** ** A home battery *)

#[export] Existing Instance example_canonical.
#[export] Instance example_text : TakeoverText :=
  Build_TakeoverText pretty (fun _ => "error") (fun _ => "baseline").

Definition meter : SourceRef := mkSourceRef "ha" "sensor.battery_power" None None None.
Definition battery_policy : ControlPolicy := mkControlPolicy "domoai" NSS_inactive false (f64_of_Z 300).
Definition battery : Coordinator :=
  mkCoordinator battery_policy "battery.home" ["charge_battery"; "discharge_battery"; "stop_battery"]
    "stop_battery" "kW" (Some (minutes 5)) (Some "power") (Some meter)
    (SpecFloat.S754_finite false 7205759403792794 (-57)) true true true.
(** The same without a feedback. *)
Definition blind_battery : Coordinator :=
  mkCoordinator battery_policy "battery.home" ["charge_battery"; "discharge_battery"; "stop_battery"]
    "stop_battery" "kW" None None None (SpecFloat.S754_zero false) true true true.

Definition power_reading (value : Z) (at_ : datetime) : StateSnapshot :=
  mkStateSnapshot default_authority "local" "power" (Some (SNum (NInt value))) (Some "kW") at_ at_ CURRENT
    meter None.
Definition charge (id : string) : Command :=
  mkCommand id "battery.home" "charge_battery" (Some (SNum (NInt 2))) (Some "kW") [] SAFE ("key-" +:+ id) None [].
Definition battery_lease (plan id : string) (from to : datetime) : TakeoverResult :=
  mkTakeoverResult default_authority ("lease-" +:+ plan) CLS_ACQUIRED "domoai" "battery.home" plan from to
    (Some (mkPhysicalBaseline "battery.home" "power" None from from meter "rev" NSS_inactive))
    id false None None "digest".

Definition at_start (cc : Coordinator) (now : datetime) : Pool := mkPool ∅ (new_control cc now empty_store).
Definition script_from (cc : Coordinator) (now : datetime) (ms : list move) : Pool :=
  default (at_start cc now) (do_script cc ms (at_start cc now)).

Lemma script_reachable cc now ms :
  pool_reachable (control cc) time_passes (new_control cc now empty_store) (script_from cc now ms).
Proof.
  unfold script_from. destruct (do_script cc ms (at_start cc now)) as [p|] eqn:E; simpl; [|apply pool_init].
  eapply do_script_reachable; [apply pool_init|exact E].
Qed.

(** The startup is reconciled by a reading at rest; plan [a] acquires the
    battery and its release waits for the reading that confirms it. *)
Definition reconciled_script : list move :=
  [M_start 0 K_reconcile; M_reply 0 (R_readings (Ok [power_reading 0 (minutes 1)]))].
Definition held_script : list move :=
  reconciled_script ++ [M_start 1 (K_acquire "a" [charge "c1"]);
                        M_reply 1 (R_lease (Ok (battery_lease "a" "c1" (minutes 1) (minutes 6))))].
Definition releasing_script : list move :=
  held_script ++ [M_start 2 (K_release "a" "attempt"); M_reply 2 (R_ack (Ok true))].

Definition status_in (p : Pool) (plan : string) : option ControlLeaseStatus :=
  tk_status <$> od_get ("domoai", "battery.home", plan) (ct_results (pool_state p)).

Example held_status : status_in (script_from battery (minutes 1) held_script) "a" = Some CLS_ACQUIRED.
Proof. by vm_compute. Qed.
Example releasing_status : status_in (script_from battery (minutes 1) releasing_script) "a" = Some CLS_ACQUIRED.
Proof. by vm_compute. Qed.

(** ** Interleavings that go wrong *)

(** Two plans ask while neither has an answer yet: both acquire the battery. *)
Definition two_leases_script : list move :=
  [M_start 0 (K_acquire "a" [charge "c1"]); M_start 1 (K_acquire "b" [charge "c2"]);
   M_reply 0 (R_lease (Ok (battery_lease "a" "c1" (minutes 1) (minutes 6))));
   M_reply 1 (R_lease (Ok (battery_lease "b" "c2" (minutes 1) (minutes 6))))].

Example two_leases_at_once :
  let p := script_from blind_battery (minutes 1) two_leases_script in
  pool_reachable (control blind_battery) time_passes (new_control blind_battery (minutes 1) empty_store) p /\
  status_in p "a" = Some CLS_ACQUIRED /\ status_in p "b" = Some CLS_ACQUIRED /\
  ct_now (pool_state p) = minutes 1.
Proof. split; [apply script_reachable|by vm_compute]. Qed.

(** A renewal is under way when a stop of the same lease fails: the answer
    makes the lease of unknown outcome a held one again. *)
Definition revived_script : list move :=
  held_script ++ [M_time (minutes 5 + seconds 30); M_start 2 (K_still_owned "a");
                  M_start 3 (K_emergency_stop "a" "attempt"); M_reply 3 (R_ack (Ok false))].

Example unknown_lease_revived :
  let p := script_from battery (minutes 1) revived_script in
  pool_reachable (control battery) time_passes (new_control battery (minutes 1) empty_store) p /\
  status_in p "a" = Some CLS_UNKNOWN /\
  status_in (script_from battery (minutes 1)
    (revived_script ++ [M_reply 2 (R_renewal (Ok (Some (battery_lease "a" "c1" (minutes 5) (minutes 10)))))])) "a"
  = Some CLS_ACQUIRED.
Proof. split; [apply script_reachable|by vm_compute]. Qed.
