(* ===== verification/ControlTakeoverSafety.v ===== *)
(** * Control of physical devices: safety under any interleaving

    Any number of calls of one coordinator, at any of its awaits.  What every
    uninterrupted stretch does is [Guard]; each method is shown to keep it
    with the program logic of [Coroutines.v]. *)

From S2P Require Import Prelude.
From S2P Require Import Values.
From S2P Require Import Models.
From S2P Require Import StateStore.
From S2P Require Import Digests.
From S2P Require Import Coordination.
From S2P Require Import Preflight.
From S2P Require Import Ports.
From S2P Require Import Coroutines.
From S2P Require Import ControlTakeover.
From S2P Require Import ControlTakeoverRuns.

Abbreviation Cause := (cause adapter_call).
Abbreviation Req := (request adapter_call).

Section Safety.
Context `{CJ : Canonical} `{TT : TakeoverText}.
Context (cc : Coordinator).

(** ** What a stretch does *)

(** The stretch was set off by a live reading of a feedback route that shows
    the device at rest. *)
Definition at_rest (ev : Cause) (now : datetime) : Prop :=
  exists ref capability l snapshot,
    cc_power_feedback_capability cc = Some capability /\
    ev = Answered (adapter_read_state [ref]) (Ok l) /\
    List.find (on_route capability ref) l = Some snapshot /\
    feedback_is_safe cc now (Some (snapshot <| ss_device_id := cc_device_id cc |>)) = Ok true.

Definition released (s : Control) (k : lease_key) : Prop :=
  exists t, od_get k (ct_results s) = Some t /\ tk_status t = CLS_RELEASED.

(** A lease becomes [RELEASED] only on such a reading, on the word of the
    provider itself, or where no feedback is configured. *)
Definition releases (ev : Cause) (s0 s : Control) : Prop :=
  forall k, released s k ->
    released s0 k \/ at_rest ev (ct_now s) \/ has_feedback cc = false \/
    exists r t, ev = Answered (acquire_control r) (Ok t) /\ od_get k (ct_results s) = Some t.

(** Nothing else holds or may hold the device. *)
Definition free (s : Control) : Prop :=
  forall (k : lease_key) t, (k, t) ∈ (ct_results s : list _) -> fst k = (owner cc, cc_device_id cc) ->
    tk_status t <> CLS_UNKNOWN /\ (tk_status t = CLS_ACQUIRED -> tk_expires_at t <= ct_now s).

Definition native_allowed : Prop :=
  native_owner (cp_native_scheduler_status (cc_policy cc)) = None \/
  cp_allow_native_takeover (cc_policy cc) = true.

(** Control is asked for by a call that found the device free. *)
Definition asks (ev : Cause) (s0 : Control) (r : ControlTakeoverRequest) : Prop :=
  ev = Called /\ ct_startup_reconciled s0 = true /\ free s0 /\ native_allowed /\
  od_get (key_of cc (cr_plan_id r)) (ct_results s0) = None /\
  cr_owner r = owner cc /\ cr_device_id r = cc_device_id cc.

(** A command sent is the stop of the device. *)
Definition is_stop (c : Command) : Prop :=
  cmd_command c = cc_stop_command cc /\ cmd_device_id c = cc_device_id cc /\
  cmd_value c = Some (SNum (NInt 0)) /\
  ((exists plan lease, cmd_idempotency_key c = plan +:+ ":emergency-stop:" +:+ lease) \/
   cmd_idempotency_key c = "startup-reconciliation-stop").

Definition request_ok (ev : Cause) (s0 : Control) (q : Req) : Prop :=
  match q with
  | Request q =>
      match q with
      | acquire_control r => asks ev s0 r
      | adapter_execute c _ => is_stop c
      | _ => True
      end
  end.

Definition Guard (ev : Cause) (s0 s : Control) (q : option Req) : Prop :=
  releases ev s0 s /\ match q with Some q => request_ok ev s0 q | None => True end.

Abbreviation any := (fun _ _ : Control => True).
Abbreviation safe_wp := (wp any Guard).
Abbreviation post A := (result exn A -> Cause -> Control -> Control -> Prop).

(** ** Stretches *)

Lemma releases_refl ev s : releases ev s s.
Proof. intros k Hk. by left. Qed.

Lemma releases_same ev s0 s s' : ct_results s' = ct_results s -> ct_now s' = ct_now s ->
  releases ev s0 s -> releases ev s0 s'.
Proof. unfold releases, released. by intros -> ->. Qed.

Lemma releases_put ev s0 s k t : releases ev s0 s ->
  (tk_status t = CLS_RELEASED -> at_rest ev (ct_now s) \/ has_feedback cc = false \/
     exists r, ev = Answered (acquire_control r) (Ok t)) ->
  releases ev s0 (s <| ct_results := od_set k t (ct_results s) |>).
Proof.
  intros Hr Ht k' (t' & Hk' & Hs'). simpl in Hk'. rewrite od_get_set in Hk'. case_decide as E.
  - injection Hk' as <-. subst k'. destruct (Ht Hs') as [?|[?|[r Hr']]]; [by right; left|by right; right; left|].
    right; right; right. exists r, t. split; [done|]. apply od_get_set_eq.
  - destruct (Hr k' (ex_intro _ t' (conj Hk' Hs'))) as [?|[?|[?|(r & t0 & ? & ?)]]]; [by left|by right; left|by right; right; left|].
    right; right; right. exists r, t0. split; [done|]. simpl. by rewrite od_get_set_ne.
Qed.

Lemma releases_clear ev s0 s : releases ev s0 s -> at_rest ev (ct_now s) ->
  forall s', ct_now s' = ct_now s -> releases ev s0 s'.
Proof. intros _ Ha s' En k _. right; left. by rewrite En. Qed.

(** [rejected]: an answer that is no lease; nothing else changes. *)
Lemma wp_rejected {R : Control -> Control -> Prop} {G} p f code (Φ : post TakeoverResult) ev s0 s :
  (forall t s', tk_status t = CLS_REJECTED -> ct_results s' = ct_results s -> ct_now s' = ct_now s ->
     ct_startup_reconciled s' = ct_startup_reconciled s -> Φ (Ok t) ev s0 s') ->
  (forall e s', ct_results s' = ct_results s -> ct_now s' = ct_now s ->
     ct_startup_reconciled s' = ct_startup_reconciled s -> Φ (Err e) ev s0 s') ->
  wp R G (rejected cc p f code) Φ ev s0 s.
Proof.
  intros Hok Herr. unfold rejected. simpl. destruct (lease_length cc) as [d|e]; simpl; [|by apply Herr].
  match goal with |- context [of_result ?r] => destruct r as [[]|e] end; simpl; [by apply Hok|by apply Herr].
Qed.

(** What holds of [s] holds of [s'], if it survives the expiry of leases of [l]. *)
Definition after_expiries (l : list (lease_key * TakeoverResult)) (s s' : Control) : Prop :=
  forall P : Control -> Prop, P s ->
    (forall s k t code, P s -> (k, t) ∈ l ->
       P (s <| ct_results := od_set k (expire t code) (ct_results s) |>)) ->
    P s'.

Lemma after_expiries_cons kt l s s' : after_expiries l s s' -> after_expiries (kt :: l) s s'.
Proof.
  intros Hs P HP Hput. apply Hs; [done|]. intros s1 k t code ? ?. apply Hput; [done|]. by apply elem_of_cons; right.
Qed.

Definition expired_in (s : Control) (k : lease_key) : Prop :=
  exists t, od_get k (ct_results s) = Some t /\ tk_status t = CLS_EXPIRED.

(** The lease [kt] is not in the way of [k], and marked if it has run out. *)
Definition cleared (now : datetime) (k : lease_key) (s : Control) (kt : lease_key * TakeoverResult) : Prop :=
  fst (fst kt) = fst k -> tk_status (snd kt) <> CLS_UNKNOWN /\
    (tk_status (snd kt) = CLS_ACQUIRED -> tk_expires_at (snd kt) <= now /\ expired_in s (fst kt)).

(** The leases of other plans. *)
Lemma wp_check_held {R : Control -> Control -> Prop} {G} k l (Φ : post (option string)) ev s0 : forall s,
  (forall o s', after_expiries l s s' -> (o = None -> Forall (cleared (ct_now s) k s') l) -> Φ (Ok o) ev s0 s') ->
  wp R G (check_held k l) Φ ev s0 s.
Proof.
  assert (forall l s, after_expiries l s s) as Hrefl by (intros l' s P HP _; exact HP).
  induction l as [|[k' t] l IH]; intros s H; simpl; [by apply H|].
  case_bool_decide as Ek; simpl.
  2:{ apply IH. intros o s' Hs Hl. apply H; [by apply after_expiries_cons|].
      intros Ho. constructor; [|by apply Hl]. by intros ?. }
  case_bool_decide as Eu; simpl; [by apply H|].
  case_bool_decide as Ea; simpl.
  2:{ apply IH. intros o s' Hs Hl. apply H; [by apply after_expiries_cons|].
      intros Ho. constructor; [|by apply Hl]. by intros _. }
  destruct (Z.leb_spec (tk_expires_at t) (ct_now s)) as [Hx|Hx]; simpl; [|by apply H].
  apply IH. simpl. intros o s' Hs%(after_expiries_cons (k', t)) Hl. apply H.
  - intros P HP Hput. apply Hs; [|done]. apply Hput; [done|]. by apply elem_of_cons; left.
  - intros Ho. constructor; [|by apply Hl]. intros _. split; [done|]. intros _. split; [done|].
    apply (Hs (fun s => expired_in s k')).
    + exists (expire t "lease_expired"). split; [apply od_get_set_eq|done].
    + intros s1 k1 t1 code (t2 & Ht2 & He2) _. unfold expired_in. simpl. rewrite od_get_set.
      case_decide; [|eauto]. by exists (expire t1 code).
Qed.

Abbreviation quiet := (fun _ ev s0 s => releases ev s0 s).

(** ** Acquisition *)

Lemma releases_expiries l ev s0 s s' : after_expiries l s s' -> releases ev s0 s -> releases ev s0 s'.
Proof.
  intros Hs Hr. apply (Hs (releases ev s0)); [done|]. intros s1 k t code Hr1 _.
  by apply releases_put.
Qed.

Lemma cleared_free s k s' : fst k = (owner cc, cc_device_id cc) ->
  Forall (cleared (ct_now s) k s') (ct_results s) -> free s.
Proof.
  intros Ek Hl k' t Hin Hk'. rewrite Forall_forall in Hl.
  destruct (Hl _ Hin) as [Hu Ha]; [simpl in *; congruence|]. split; [done|]. intros H. by apply Ha.
Qed.

Lemma wp_rejected_bind {A} p f code (k : TakeoverResult -> C A) (Φ : post A) ev s0 s :
  releases ev s0 s ->
  (forall t s', tk_status t = CLS_REJECTED -> releases ev s0 s' -> safe_wp (k t) Φ ev s0 s') ->
  (forall e s', releases ev s0 s' -> Φ (Err e) ev s0 s') ->
  safe_wp (coro_bind k (rejected cc p f code)) Φ ev s0 s.
Proof.
  intros Hr Hk He. apply wp_bind, wp_rejected.
  - intros t s' Ht E1 E2 _. apply Hk; [done|]. by apply (releases_same ev s0 s).
  - intros e s' E1 E2 _. apply He. by apply (releases_same ev s0 s).
Qed.

Lemma wp_store p f (t : TakeoverResult) ev s0 s : releases ev s0 s ->
  (tk_status t = CLS_REJECTED \/ exists r, ev = Answered (acquire_control r) (Ok t)) ->
  safe_wp (coro_bind (fun t => coro_bind (fun _ => Ret t) (put_result (key_of cc p) t))
    (if matches_request cc p (cmd_id f) t then Ret t else rejected cc p f "control_evidence_mismatch"))
    quiet ev s0 s.
Proof.
  intros Hr Ht. destruct (matches_request _ _ _ _); simpl.
  - apply releases_put; [done|]. intros Hs. right; right. by destruct Ht as [Ht|?]; [congruence|].
  - apply wp_rejected_bind; [done| |done]. intros t' s' Ht' Hr'. simpl. apply releases_put; [done|]. congruence.
Qed.

Lemma wp_ask_adapter p f s s0 : releases Called s0 s -> asks Called s0 (takeover_request cc p f) ->
  safe_wp (ask_adapter cc p f) quiet Called s0 s.
Proof.
  intros Hr Ha. unfold ask_adapter. simpl. split; [done|].
  intros r s1 _. pose proof (releases_refl (Answered (acquire_control (takeover_request cc p f)) r) s1) as Hr1.
  destruct r as [t|e]; simpl.
  - apply wp_store; [done|]. right. eauto.
  - destruct (is_exception e); simpl; [|done]. apply wp_bind, wp_rejected_bind; [done| |done].
    intros t s' Ht Hr'. simpl. apply wp_store; [done|]. by left.
Qed.

Lemma wp_acquire p cs s : safe_wp (acquire_for_plan cc p cs) quiet Called s s.
Proof.
  pose proof (releases_refl Called s) as Hr.
  unfold acquire_for_plan. destruct (relevant cc cs) as [|f _]; simpl; [done|].
  destruct (ct_startup_reconciled s) eqn:Es; simpl; [|by apply wp_rejected_bind].
  destruct (od_get (key_of cc p) (ct_results s)) as [t|] eqn:Ek; simpl.
  { destruct (_ && _); simpl; [|done]. by apply releases_put. }
  apply wp_bind, wp_bind, wp_check_held. intros o s' Hs Hl.
  pose proof (releases_expiries _ _ _ _ _ Hs Hr) as Hr'.
  eapply (wp_mono _ _ _ quiet); [by intros [t|e] ev s0 s2 H; simpl|].
  destruct o as [code|].
  { apply wp_rejected; intros ? s2; intros; by apply (releases_same Called s s'). }
  assert (free s) as Hfree by (by apply (cleared_free s (key_of cc p) s'), Hl).
  assert (native_allowed -> safe_wp (ask_adapter cc p f) quiet Called s s') as Hask.
  { intros Hn. apply wp_ask_adapter; [done|]. by split_and!. }
  unfold native_allowed in Hask.
  destruct (native_owner _) as [code|], (cp_allow_native_takeover _); simpl in *; try (apply Hask; by eauto).
  apply wp_rejected_bind; [done| |done]. intros t s2 Ht Hr2. simpl. apply releases_put; [done|]. congruence.
Qed.

(** ** Stops *)

(** Where a reading of the feedback comes from. *)
Definition read_from (ev : Cause) (o : option StateSnapshot) : Prop :=
  match o with
  | None => True
  | Some s => exists ref capability l snapshot,
      cc_power_feedback_capability cc = Some capability /\
      ev = Answered (adapter_read_state [ref]) (Ok l) /\
      List.find (on_route capability ref) l = Some snapshot /\
      s = snapshot <| ss_device_id := cc_device_id cc |>
  end.

Lemma read_from_at_rest ev now o : read_from ev o -> feedback_is_safe cc now o = Ok true -> at_rest ev now.
Proof.
  destruct o as [s|]; [|done]. intros (ref & capability & l & snapshot & ? & ? & ? & ->) Hs.
  exists ref, capability, l, snapshot. done.
Qed.

Lemma wp_read_feedback ref (Φ : post (option StateSnapshot)) ev s0 s : releases ev s0 s ->
  (forall o ev s0 s, releases ev s0 s -> read_from ev o -> Φ (Ok o) ev s0 s) ->
  (forall e ev s0 s, releases ev s0 s -> Φ (Err e) ev s0 s) ->
  safe_wp (read_feedback cc ref) Φ ev s0 s.
Proof.
  intros Hr Hok Herr. unfold read_feedback.
  destruct (cc_power_feedback_capability cc) as [capability|] eqn:Ec; simpl; [|by apply Hok].
  destruct (cc_reads cc); simpl; [|by apply Hok].
  split; [done|]. intros r s1 _. pose proof (releases_refl (Answered (adapter_read_state [ref]) r) s1).
  destruct r as [l|e]; simpl; [|by apply Herr]. apply Hok; [done|].
  destruct (List.find _ l) as [snapshot|] eqn:Ef; simpl; [|done]. by exists ref, capability, l, snapshot.
Qed.

Lemma wp_is_safe o (Φ : post bool) ev s0 s : releases ev s0 s -> read_from ev o ->
  (forall b, (b = true -> at_rest ev (ct_now s)) -> Φ (Ok b) ev s0 s) ->
  (forall e, Φ (Err e) ev s0 s) -> safe_wp (is_safe cc o) Φ ev s0 s.
Proof.
  intros Hr Ho Hok Herr. unfold is_safe. simpl.
  destruct (feedback_is_safe cc (ct_now s) o) as [b|e] eqn:Es; simpl; [|done].
  apply Hok. intros ->. by apply (read_from_at_rest ev _ o).
Qed.

Lemma wp_send_stop c p a q (Φ : post bool) ev s0 s : releases ev s0 s -> is_stop c ->
  (forall r ev s0 s, releases ev s0 s -> Φ r ev s0 s) ->
  safe_wp (send_stop c p a q) Φ ev s0 s.
Proof.
  intros Hr Hc H. unfold send_stop. simpl.
  match goal with |- context [of_result ?r] => destruct r as [[]|e] end; simpl; [|by apply H].
  split; [done|]. intros [b|e] s1 _; simpl; apply H, releases_refl.
Qed.

Lemma stop_command_stops id key intent c : stop_command_of cc id key intent = Ok c ->
  ((exists plan lease, key = plan +:+ ":emergency-stop:" +:+ lease) \/ key = "startup-reconciliation-stop") ->
  is_stop c.
Proof.
  unfold stop_command_of. rewrite result_bind_ok. intros ([] & _ & [= <-]) Hkey. by split_and!.
Qed.

Abbreviation stop_post Φ := (forall r ev s0 s, releases ev s0 s -> (r = Ok true -> at_rest ev (ct_now s)) -> Φ r ev s0 s).

(** A stop that is not confirmed revokes the lease and says so. *)
Ltac revokes H := by apply H; [apply (releases_put _ _ _ _ _ ltac:(eassumption)); simpl|].

Lemma wp_confirm_stop k t (Φ : post bool) ev s0 s : releases ev s0 s -> stop_post Φ ->
  safe_wp (confirm_stop cc k t) Φ ev s0 s.
Proof.
  intros Hr H. unfold confirm_stop. destruct (has_feedback cc); simpl; [|revokes H].
  destruct (tk_baseline t) as [b|]; simpl; [|revokes H].
  destruct (cc_reads cc); simpl; [|revokes H].
  apply wp_bind, wp_catch, wp_bind, wp_read_feedback; [done| |].
  - intros o ev' s0' s' Hr' Ho. simpl. apply wp_bind, wp_is_safe; [done|done| |intros e; by apply H].
    intros [] Hb; simpl; [|revokes H]. apply H; [|by intros _; apply Hb].
    apply releases_put; [done|]. intros _. left. by apply Hb.
  - intros e ev' s0' s' Hr'. simpl. destruct (is_exception e); simpl; [revokes H|by apply H].
Qed.

Lemma wp_emergency_stop p a (Φ : post bool) ev s0 s : releases ev s0 s -> stop_post Φ ->
  safe_wp (emergency_stop cc p a) Φ ev s0 s.
Proof.
  intros Hr H. unfold emergency_stop. simpl.
  destruct (od_get (key_of cc p) (ct_results s)) as [t|]; simpl; [|by apply H].
  destruct (cc_executes cc); simpl; [|revokes H].
  destruct (stop_command_of _ _ _ _) as [c|e] eqn:Ec; simpl; [|by apply H].
  apply wp_bind, wp_catch, wp_bind, wp_send_stop; [done| |].
  - apply (stop_command_stops _ _ _ _ Ec). left. eauto.
  - intros [[]|e] ev' s0' s' Hr'; simpl; [by apply wp_confirm_stop|revokes H|].
    destruct (is_exception e); simpl; [revokes H|by apply H].
Qed.

(** ** The other methods *)

Ltac put_quiet := by apply releases_put; [eassumption|simpl; congruence].

Lemma renewal_acquired p id t : renewal_ok cc p id t = true -> tk_status t = CLS_ACQUIRED.
Proof. unfold renewal_ok. intros [H _]%andb_true_iff. by apply bool_decide_eq_true in H. Qed.

Lemma wp_still_owned p s : safe_wp (assert_still_owned cc p) quiet Called s s.
Proof.
  pose proof (releases_refl Called s) as Hr. unfold assert_still_owned. simpl.
  destruct (od_get (key_of cc p) (ct_results s)) as [t|]; simpl; [|done].
  case_bool_decide; simpl; [|done].
  destruct (_ <=? _); simpl; [put_quiet|].
  destruct (renewal_margin cc) as [margin|e]; simpl; [|done].
  destruct (_ <=? margin); [|done]. destruct (cc_renews cc); simpl; [|done].
  split; [done|]. intros r s1 _. pose proof (releases_refl (Answered (renew_control t) r) s1) as Hr1.
  destruct r as [[t'|]|e]; simpl; [|done|by destruct (is_exception e)].
  destruct (renewal_ok _ _ _ _) eqn:Eok; simpl; [|done].
  apply renewal_acquired in Eok. put_quiet.
Qed.

Lemma wp_supervise now margin k t (Φ : post (list string)) ev s0 s : releases ev s0 s ->
  (forall r ev s0 s, releases ev s0 s -> Φ r ev s0 s) ->
  safe_wp (supervise cc now margin k t) Φ ev s0 s.
Proof.
  intros Hr H. unfold supervise. destruct (_ || _); simpl; [by apply H|].
  assert (forall ev s0 s, releases ev s0 s ->
    safe_wp (confirmed ← emergency_stop cc (tk_plan_id t) ("control-supervisor:" +:+ tk_lease_id t);
             put_result k (supervised t confirmed) ≫= fun _ => mret [tk_plan_id t]) Φ ev s0 s) as Hstop.
  { intros ev' s0' s' Hr'. apply wp_bind, wp_emergency_stop; [done|].
    intros [b|e] ev2 s02 s2 Hr2 Hb; simpl; [|by apply H].
    apply H. apply releases_put; [done|]. destruct b; simpl; [|done]. left. by apply Hb. }
  unfold try_renewal. destruct (_ && _); simpl; [|by apply Hstop].
  split; [done|]. intros r s1 _. pose proof (releases_refl (Answered (renew_control t) r) s1) as Hr1.
  destruct r as [[t'|]|e]; simpl; [|by apply Hstop|].
  - destruct (renewal_ok _ _ _ _) eqn:Eok; simpl; [|by apply Hstop].
    apply renewal_acquired in Eok. apply H. put_quiet.
  - destruct (is_exception e); simpl; [by apply Hstop|by apply H].
Qed.

Lemma wp_supervise_all now margin l : forall (Φ : post (list string)) ev s0 s, releases ev s0 s ->
  (forall r ev s0 s, releases ev s0 s -> Φ r ev s0 s) ->
  safe_wp (supervise_all cc now margin l) Φ ev s0 s.
Proof.
  induction l as [|[k t] l IH]; intros Φ ev s0 s Hr H; simpl; [by apply H|].
  apply wp_bind, wp_supervise; [done|]. intros [stopped|e] ev' s0' s' Hr'; simpl; [|by apply H].
  apply wp_bind, IH; [done|]. intros [rest|e] ev2 s02 s2 Hr2; simpl; by apply H.
Qed.

Lemma wp_reconciled (Φ : post bool) ev s0 s : at_rest ev (ct_now s) ->
  (forall r ev s0 s, releases ev s0 s -> Φ r ev s0 s) -> safe_wp (reconciled) Φ ev s0 s.
Proof. intros Ha H. simpl. apply H. by intros k _; right; left. Qed.

Lemma wp_reconcile_by_stop ref ev s0 s : releases ev s0 s ->
  safe_wp (reconcile_by_stop cc ref) quiet ev s0 s.
Proof.
  intros Hr. unfold reconcile_by_stop.
  destruct (stop_command_of _ _ _ _) as [c|e] eqn:Ec; [|done]. cbn [of_result coro_bind mbind coro_mbind].
  destruct (cc_executes cc); cbn [negb]; [|done].
  apply wp_catch, wp_bind, wp_send_stop; [done|apply (stop_command_stops _ _ _ _ Ec); by right|].
  intros [[]|e] ev' s0' s' Hr'; simpl; [|done|by destruct (is_exception e)].
  destruct (cc_reads cc); simpl; [|done].
  apply wp_bind, wp_read_feedback; [done| |by intros e; intros; simpl; destruct (is_exception e)].
  intros o ev2 s02 s2 Hr2 Ho. simpl. apply wp_bind, wp_is_safe; [done|done| |by intros e; simpl; destruct (is_exception e)].
  intros [] Hb; simpl; [|done]. by intros k _; right; left; apply Hb.
Qed.

Lemma wp_reconcile s : safe_wp (reconcile_startup cc) quiet Called s s.
Proof.
  pose proof (releases_refl Called s) as Hr. unfold reconcile_startup.
  destruct (cc_stale_after cc), (cc_power_feedback_capability cc); simpl; [|done..].
  set (ref := match get _ _ _ with Some _ => _ | None => _ end). destruct ref as [ref|]; simpl; [|done].
  destruct (feedback_is_safe _ _ _) as [cached|e]; simpl; [|done].
  destruct (_ || _); simpl; [|by apply wp_reconcile_by_stop].
  apply wp_bind, wp_bind, wp_catch, wp_read_feedback; [done| |].
  - intros o ev s0' s' Hr' Ho. apply wp_is_safe; [done|done| |done].
    intros [] Hb; simpl; [|by apply wp_reconcile_by_stop]. by intros k _; right; left; apply Hb.
  - intros e ev s0' s' Hr'. simpl. by destruct (is_exception e); simpl; [apply wp_reconcile_by_stop|].
Qed.

Lemma wp_release p a s : safe_wp (release_for_plan cc p a) quiet Called s s.
Proof.
  pose proof (releases_refl Called s) as Hr. unfold release_for_plan. simpl.
  destruct (od_get _ _) as [t|]; simpl; [|done].
  case_bool_decide; simpl; [|done].
  destruct (has_feedback cc) eqn:Ef; simpl; [by apply wp_emergency_stop|].
  apply releases_put; [done|]. auto.
Qed.

Lemma wp_shut_down_one kt (Φ : post unit) ev s0 s : releases ev s0 s ->
  (forall r ev s0 s, releases ev s0 s -> Φ r ev s0 s) ->
  safe_wp (shut_down_one cc kt) Φ ev s0 s.
Proof.
  destruct kt as [k t]. intros Hr H. simpl. case_bool_decide; simpl; [|by apply H].
  apply wp_bind, wp_emergency_stop; [done|].
  intros [[]|e] ev' s0' s' Hr' _; simpl; [by apply H| |by apply H]. apply H. put_quiet.
Qed.

Lemma control_keeps k : keeps Guard (control cc k).
Proof.
  assert (forall A (c : C A) (f : A -> control_answer) s, safe_wp c quiet Called s s ->
    safe_wp (coro_bind (fun a => Ret (f a)) c) (fun _ ev s0 s => Guard ev s0 s None) Called s s) as Hk.
  { intros A c f s Hc. apply wp_bind. eapply wp_mono; [|exact Hc]. intros [a|e] ev s0 s' H; by split. }
  intros s. destruct k as [p cs|p|p a| | |p a|]; apply Hk.
  - apply wp_acquire.
  - apply wp_still_owned.
  - by apply wp_emergency_stop; [apply releases_refl|].
  - unfold supervise_once. simpl. destruct (renewal_margin cc); simpl; [|apply releases_refl].
    by apply wp_supervise_all; [apply releases_refl|].
  - apply wp_reconcile.
  - apply wp_release.
  - unfold shutdown. simpl. apply (wp_iter _ _ _ (fun _ ev s0 s => releases ev s0 s)); [|done|apply releases_refl].
    intros x l ev s0 s' Hr. apply wp_shut_down_one; [done|]. by intros [[]|e].
Qed.
End Safety.

(** ** Theorems *)

Section Theorems.
Context `{CJ : Canonical} `{TT : TakeoverText}.
Context (cc : Coordinator) (env : Control -> Control -> Prop) (s0 : Control).

(** C13: the provider is asked for control only by a call that, in the same
    uninterrupted stretch, found the startup reconciled, no earlier answer for
    the plan, no lease of the device that is live or whose stop is unconfirmed,
    and no native scheduler in the way; whatever other calls are in flight. *)
Theorem takeover_gated p ev i r p' :
  pool_reachable (control cc) env s0 p ->
  pool_step (control cc) env p (Some (ev, i, Some (Request (acquire_control r)))) p' ->
  let s := pool_state p in
  ct_startup_reconciled s = true /\
  od_get (key_of cc (cr_plan_id r)) (ct_results s) = None /\
  (forall k t, od_get (owner cc, cc_device_id cc, k) (ct_results s) = Some t ->
     tk_status t <> CLS_UNKNOWN /\ (tk_status t = CLS_ACQUIRED -> tk_expires_at t <= ct_now s)) /\
  (native_owner (cp_native_scheduler_status (cc_policy cc)) = None \/
   cp_allow_native_takeover (cc_policy cc) = true) /\
  cr_owner r = owner cc /\ cr_device_id r = cc_device_id cc.
Proof.
  intros Hp Hstep s.
  destruct (pool_sound _ _ (Guard cc) s0 p ev i _ p' (control_keeps cc) Hp Hstep) as [_ (_ & Hs & Hf & Hn & Hk & Ho)].
  split_and!; try done; try apply Ho. intros k t Ht. apply (Hf _ _ (od_get_elem _ _ _ Ht)). done.
Qed.

(** The only commands a coordinator sends are stops of its device, with
    the value 0 and a key of idempotency that names the stopped lease or the
    reconciliation. *)
Theorem only_stops_sent p ev i c context p' :
  pool_reachable (control cc) env s0 p ->
  pool_step (control cc) env p (Some (ev, i, Some (Request (adapter_execute c context)))) p' ->
  cmd_command c = cc_stop_command cc /\ cmd_device_id c = cc_device_id cc /\
  cmd_value c = Some (SNum (NInt 0)) /\
  ((exists plan lease, cmd_idempotency_key c = plan +:+ ":emergency-stop:" +:+ lease) \/
   cmd_idempotency_key c = "startup-reconciliation-stop").
Proof.
  intros Hp Hstep. by destruct (pool_sound _ _ (Guard cc) s0 p ev i _ p' (control_keeps cc) Hp Hstep) as [_ Hc].
Qed.

(** C14: where a feedback is configured, a lease becomes [RELEASED] only in a
    stretch set off by a live reading of the feedback route that is current,
    fresh and within the tolerance of standstill, or on the word of the
    provider's own answer; an accepted stop alone never releases. *)
Theorem released_after_reading p ev i q p' k t :
  has_feedback cc = true ->
  pool_reachable (control cc) env s0 p ->
  pool_step (control cc) env p (Some (ev, i, q)) p' ->
  od_get k (ct_results (pool_state p')) = Some t -> tk_status t = CLS_RELEASED ->
  (exists t0, od_get k (ct_results (pool_state p)) = Some t0 /\ tk_status t0 = CLS_RELEASED) \/
  (exists ref capability l snapshot,
     cc_power_feedback_capability cc = Some capability /\
     ev = Answered (adapter_read_state [ref]) (Ok l) /\
     List.find (on_route capability ref) l = Some snapshot /\
     feedback_is_safe cc (ct_now (pool_state p')) (Some (snapshot <| ss_device_id := cc_device_id cc |>)) = Ok true) \/
  (exists r, ev = Answered (acquire_control r) (Ok t)).
Proof.
  intros Hf Hp Hstep Ht Hs.
  destruct (pool_sound _ _ (Guard cc) s0 p ev i q p' (control_keeps cc) Hp Hstep) as [Hr _].
  destruct (Hr k (ex_intro _ t (conj Ht Hs))) as [?|[?|[?|(r & t' & -> & Ht')]]]; [by left|by right; left|congruence|].
  right; right. exists r. congruence.
Qed.
End Theorems.

(** ** The home battery *)

Lemma takeover_gated_witness :
  let p := script_from battery (minutes 1) reconciled_script in
  let r := takeover_request battery "a" (charge "c1") in
  exists p', pool_step (control battery) time_passes p (Some (Called, 1%nat, Some (Request (acquire_control r)))) p' /\
    ct_startup_reconciled (pool_state p) = true /\ od_get (key_of battery "a") (ct_results (pool_state p)) = None.
Proof.
  intros p r. eexists.
  assert (pool_step (control battery) time_passes p (Some (Called, 1%nat, Some (Request (acquire_control r)))) _) as Hstep
    by (apply (do_move_step battery (M_start 1 (K_acquire "a" [charge "c1"]))); reflexivity).
  split; [exact Hstep|].
  destruct (takeover_gated battery time_passes (new_control battery (minutes 1) empty_store) p Called 1 r _
    (script_reachable _ _ _) Hstep) as (H1 & H2 & _).
  split; [exact H1|exact H2].
Defined.

Lemma only_stops_sent_witness :
  let p := script_from battery (minutes 1) held_script in
  exists c context p', pool_step (control battery) time_passes p
      (Some (Called, 2%nat, Some (Request (adapter_execute c context)))) p' /\
    cmd_command c = "stop_battery" /\ cmd_value c = Some (SNum (NInt 0)).
Proof.
  intros p. eexists _, _, _.
  assert (pool_step (control battery) time_passes p (Some (Called, 2%nat, Some (Request (adapter_execute _ _)))) _) as Hstep
    by (apply (do_move_step battery (M_start 2 (K_release "a" "attempt"))); reflexivity).
  split; [exact Hstep|].
  destruct (only_stops_sent battery time_passes (new_control battery (minutes 1) empty_store) p Called 2 _ _ _
    (script_reachable _ _ _) Hstep) as (H1 & _ & H2 & _).
  split; [exact H1|exact H2].
Defined.

Lemma released_after_reading_witness :
  let p := script_from battery (minutes 1) releasing_script in
  let ev := Answered (adapter_read_state [meter]) (Ok [power_reading 0 (minutes 1)]) in
  exists p' t, pool_step (control battery) time_passes p (Some (ev, 2%nat, None)) p' /\
    od_get (key_of battery "a") (ct_results (pool_state p')) = Some t /\ tk_status t = CLS_RELEASED /\
    ((exists t0, od_get (key_of battery "a") (ct_results (pool_state p)) = Some t0 /\ tk_status t0 = CLS_RELEASED) \/
     (exists ref capability l snapshot,
       cc_power_feedback_capability battery = Some capability /\
       ev = Answered (adapter_read_state [ref]) (Ok l) /\
       List.find (on_route capability ref) l = Some snapshot /\
       feedback_is_safe battery (ct_now (pool_state p'))
         (Some (snapshot <| ss_device_id := cc_device_id battery |>)) = Ok true) \/
     (exists r, ev = Answered (acquire_control r) (Ok t))).
Proof.
  intros p ev. eexists _, _.
  assert (pool_step (control battery) time_passes p (Some (ev, 2%nat, None)) _) as Hstep
    by (apply (do_move_step battery (M_reply 2 (R_readings (Ok [power_reading 0 (minutes 1)])))); reflexivity).
  split; [exact Hstep|]. split; [reflexivity|]. split; [reflexivity|].
  apply (released_after_reading battery time_passes (new_control battery (minutes 1) empty_store) p ev 2 None _
    (key_of battery "a") _ eq_refl (script_reachable _ _ _) Hstep); reflexivity.
Defined.
