(* ===== verification/ControlTakeoverHistory.v ===== *)
(** * Control of physical devices: one call after the other

    Between and within the calls time passes, readings arrive and the adapter
    answers as it likes ([still]), but no second call of the coordinator runs:
    then at most one lease of a device is held, and what stops leave behind is
    definite.  Two acquisitions at once break this ([two_leases_at_once]). *)

From S2P Require Import Prelude.
From S2P Require Import Values.
From S2P Require Import Models.
From S2P Require Import StateStore.
From S2P Require Import Digests.
From S2P Require Import Coordination.
From S2P Require Import Preflight.
From S2P Require Import Ports.
From S2P Require Import Coroutines.
From S2P Require Import ControlTakeover.
From S2P Require Import ControlTakeoverRuns.
From S2P Require Import ControlTakeoverSafety.

(** What happens at an await of the one call. *)
Definition still (s s' : Control) : Prop :=
  ct_results s' = ct_results s /\ ct_startup_reconciled s' = ct_startup_reconciled s.

Definition no_guard : cause adapter_call -> Control -> Control -> option (request adapter_call) -> Prop :=
  fun _ _ _ _ => True.

(** The call [c] from [s] ends with [Q]. *)
Definition ends {A} (c : C A) (Q : result exn A -> Control -> Prop) (s : Control) : Prop :=
  forall ev s0, wp still no_guard c (fun r _ _ s => Q r s) ev s0 s.

Lemma ends_mono {A} (c : C A) (P Q : result exn A -> Control -> Prop) s :
  ends c P s -> (forall r s, P r s -> Q r s) -> ends c Q s.
Proof. intros H HPQ ev s0. eapply wp_mono; [|apply H]. intros r ? ? s'. apply HPQ. Qed.

(** What set the stretch off does not matter. *)
Lemma ends_cause {A} (c : C A) (Q : result exn A -> Control -> Prop) : forall ev s0 s,
  wp still no_guard c (fun r _ _ s => Q r s) ev s0 s -> ends c Q s.
Proof.
  induction c as [a|e|u k IH|B q k IH]; intros ev s0 s H ev' s0'; simpl in *; [done|done|by apply (IH s ev s0)|].
  destruct H as [_ H]. split; [done|]. intros r s1 Hs. by apply (IH r _ _ s1 (H r s1 Hs)).
Qed.

Lemma ends_bind {A B} (c : C A) (f : A -> C B) Q s :
  ends c (fun r s => match r with Ok a => ends (f a) Q s | Err e => Q (Err e) s end) s ->
  ends (coro_bind f c) Q s.
Proof.
  intros H ev s0. apply wp_bind. eapply wp_mono; [|apply H]. intros [a|e] ev' s0' s' Hr; [apply Hr|exact Hr].
Qed.

Lemma ends_catch {A} h (c : C A) Q s :
  ends c (fun r s => match r with Ok a => Q (Ok a) s | Err e => ends (h e) Q s end) s ->
  ends (coro_catch h c) Q s.
Proof.
  intros H ev s0. apply wp_catch. eapply wp_mono; [|apply H]. intros [a|e] ev' s0' s' Hr; [exact Hr|apply Hr].
Qed.

Lemma ends_await {A B} (q : adapter_call B) (k : result exn B -> C A) Q s :
  (forall r s1, still s s1 -> ends (k r) Q s1) -> ends (Await q k) Q s.
Proof. intros H ev s0. split; [done|]. intros r s1 Hs. by apply H. Qed.

Lemma ends_ret {A} (a : A) (Q : result exn A -> Control -> Prop) s : Q (Ok a) s -> ends (Ret a) Q s.
Proof. by intros H ev s0. Qed.
Lemma ends_raise {A} e (Q : result exn A -> Control -> Prop) s : Q (Err e) s -> ends (Raise e) Q s.
Proof. by intros H ev s0. Qed.
Lemma ends_act {A} u (k : Control -> C A) Q s : ends (k s) Q (u s) -> ends (Act u k) Q s.
Proof. intros H ev s0. apply H. Qed.
Lemma ends_result {A} (r : result exn A) (Q : result exn A -> Control -> Prop) s : Q r s -> ends (of_result r) Q s.
Proof. intros H. by destruct r; [apply ends_ret|apply ends_raise]. Qed.

Lemma ends_iter {A} (f : A -> C unit) (I : list A -> Control -> Prop) (Q : result exn unit -> Control -> Prop) :
  (forall x l s, I (x :: l) s -> ends (f x) (fun r s => match r with Ok _ => I l s | Err e => Q (Err e) s end) s) ->
  (forall s, I [] s -> Q (Ok tt) s) ->
  forall l s, I l s -> ends (coro_iter f l) Q s.
Proof.
  intros Hf Hend. induction l as [|x l IH]; intros s HI; [by apply ends_ret, Hend|].
  apply ends_bind. eapply ends_mono; [by apply Hf|]. intros [[]|e] s' H; [by apply IH|done].
Qed.

(** Oracles that run no second call. *)
Definition alone (o : oracle Control adapter_call) : Prop :=
  forall n B (q : adapter_call B) s, still s (snd (o n B q s)).

Lemma ends_run {A} o (c : C A) Q n s : alone o -> ends c Q s ->
  Q (fst (fst (run o c n s))) (snd (run o c n s)).
Proof.
  intros Ho H. destruct (run_sound still no_guard o c Ho _ n Called s s (H Called s)) as (? & ? & HQ). exact HQ.
Qed.

Section History.
Context `{CJ : Canonical} `{TT : TakeoverText}.
Context (cc : Coordinator).

(** ** The invariant *)

Definition acquired (s : Control) (k : lease_key) : Prop :=
  exists t, od_get k (ct_results s) = Some t /\ tk_status t = CLS_ACQUIRED.

(** Every answer is filed under its own plan, and one lease at most is held. *)
Record control_ok (s : Control) : Prop := {
  co_nodup : NoDup (od_keys (ct_results s));
  co_keyed : forall k t, od_get k (ct_results s) = Some t -> k = key_of cc (tk_plan_id t);
  co_single : forall k1 k2, acquired s k1 -> acquired s k2 -> k1 = k2
}.

Lemma control_ok_same s s' : ct_results s' = ct_results s -> control_ok s -> control_ok s'.
Proof. intros E [Hn Hk Hs]. split; unfold acquired in *; by rewrite E. Qed.

Lemma acquired_put s k t k' :
  acquired (s <| ct_results := od_set k t (ct_results s) |>) k' <->
  (k' = k /\ tk_status t = CLS_ACQUIRED) \/ (k' <> k /\ acquired s k').
Proof.
  unfold acquired. simpl. rewrite od_get_set. case_decide as E; split.
  - intros (t' & [= <-] & ?). by left.
  - intros [[_ ?]|[? _]]; [eauto|done].
  - intros ?. by right.
  - by intros [[? _]|[_ ?]].
Qed.

Lemma control_ok_put s k t : control_ok s -> k = key_of cc (tk_plan_id t) ->
  (tk_status t = CLS_ACQUIRED -> forall k', acquired s k' -> k' = k) ->
  control_ok (s <| ct_results := od_set k t (ct_results s) |>).
Proof.
  intros [Hn Hk Hs] Ek Ha. split; simpl.
  - by apply od_keys_set_NoDup.
  - intros k' t'. rewrite od_get_set. case_decide; [by intros [= <-]; subst|apply Hk].
  - intros k1 k2 H1%acquired_put H2%acquired_put.
    destruct H1 as [[-> Ht]|[? H1]], H2 as [[-> Ht2]|[? H2]]; try done.
    + symmetry. by apply Ha.
    + by apply Ha.
    + by apply Hs.
Qed.

Lemma control_ok_retire s k t t' : control_ok s -> od_get k (ct_results s) = Some t ->
  tk_plan_id t' = tk_plan_id t -> tk_status t' <> CLS_ACQUIRED \/ tk_status t = CLS_ACQUIRED ->
  control_ok (s <| ct_results := od_set k t' (ct_results s) |>).
Proof.
  intros Hs Hk Ep Ht. apply control_ok_put; [done|rewrite Ep; by apply (co_keyed _ Hs)|].
  intros Ha k' Hk'. destruct Ht as [?|?]; [done|]. apply (co_single _ Hs k' k Hk'). by exists t.
Qed.

(** ** Stops *)

(** What [emergency_stop] leaves: the lease is released or unknown as it says,
    and if it raises nothing has changed. *)
Definition stopped (p : string) (r : result exn bool) (s s' : Control) : Prop :=
  match r, od_get (key_of cc p) (ct_results s) with
  | Ok b, Some t => exists code,
      ct_results s' = od_set (key_of cc p)
        (t <| tk_status := if b then CLS_RELEASED else CLS_UNKNOWN |> <| tk_failure_code := code |>)
        (ct_results s)
  | Ok b, None => b = false /\ ct_results s' = ct_results s
  | Err _, _ => ct_results s' = ct_results s
  end.

Lemma stopped_still p r s s1 s' : still s s1 -> stopped p r s1 s' -> stopped p r s s'.
Proof. intros [E _]. unfold stopped. by rewrite E. Qed.

Lemma stopped_revoked p t code s : od_get (key_of cc p) (ct_results s) = Some t ->
  stopped p (Ok false) s (s <| ct_results := od_set (key_of cc p)
    (t <| tk_status := CLS_UNKNOWN |> <| tk_failure_code := Some code |>) (ct_results s) |>).
Proof. intros Ht. unfold stopped. rewrite Ht. by exists (Some code). Qed.

Lemma stopped_raised p e s s' : ct_results s' = ct_results s -> stopped p (Err e) s s'.
Proof. done. Qed.

Lemma ends_read_feedback ref Q s : (forall r s', still s s' -> Q r s') -> ends (read_feedback cc ref) Q s.
Proof.
  intros H. unfold read_feedback.
  destruct (cc_power_feedback_capability cc); [|by apply ends_ret, H].
  destruct (cc_reads cc); [|by apply ends_ret, H].
  apply ends_await. intros [l|e] s1 Hs; [by apply ends_ret, H|by apply ends_raise, H].
Qed.

Lemma ends_confirm_stop p t Q s : od_get (key_of cc p) (ct_results s) = Some t ->
  (forall r s', stopped p r s s' -> Q r s') -> ends (confirm_stop cc (key_of cc p) t) Q s.
Proof.
  intros Ht H. unfold confirm_stop.
  assert (forall s1 code, still s s1 -> ends (revoke (key_of cc p) t code ≫= fun _ => mret false) Q s1) as Hfail.
  { intros s1 code Hs. apply ends_act, ends_ret, H. apply (stopped_still _ _ _ s1); [done|].
    apply stopped_revoked. by destruct Hs as [-> _]. }
  destruct (has_feedback cc); cbn [negb]; [|by apply Hfail].
  destruct (tk_baseline t) as [b|] eqn:Eb; [|by apply Hfail]. destruct (cc_reads cc); [|by apply Hfail].
  apply ends_bind, ends_catch, ends_bind, ends_read_feedback. intros [o|e] s1 Hs.
  - apply ends_ret. apply ends_bind. apply ends_act, ends_result.
    destruct (feedback_is_safe _ _ _) as [[]|e]; [|by apply Hfail|by apply H, stopped_raised, Hs].
    apply ends_act, ends_ret, H. apply (stopped_still _ _ _ s1); [done|]. destruct Hs as [E _].
    unfold stopped. rewrite E, Ht. exists (tk_failure_code t). simpl. by rewrite E.
  - destruct (is_exception e); [by apply ends_ret, Hfail|]. apply ends_raise, H, stopped_raised, Hs.
Qed.

Lemma ends_emergency_stop p a Q s : (forall r s', stopped p r s s' -> Q r s') ->
  ends (emergency_stop cc p a) Q s.
Proof.
  intros H. unfold emergency_stop. apply ends_act. change (id s) with s.
  destruct (od_get (key_of cc p) (ct_results s)) as [t|] eqn:Ht.
  2:{ apply ends_ret, H. unfold stopped. by rewrite Ht. }
  assert (forall s1 code, still s s1 -> ends (revoke (key_of cc p) t code ≫= fun _ => mret false) Q s1) as Hfail.
  { intros s1 code Hs. apply ends_act, ends_ret, H. apply (stopped_still _ _ _ s1); [done|].
    apply stopped_revoked. by destruct Hs as [-> _]. }
  destruct (cc_executes cc); cbn [negb]; [|by apply Hfail].
  apply ends_bind, ends_result. destruct (stop_command_of _ _ _ _) as [c|e]; [|by apply H].
  apply ends_bind, ends_catch, ends_bind. unfold send_stop. apply ends_bind, ends_result.
  destruct (validate_context _) as [[]|e]; [|by destruct (is_exception e); [apply ends_ret, Hfail|apply ends_raise, H]].
  apply ends_await. intros [[]|e] s1 Hs.
  - apply ends_ret, ends_ret, ends_confirm_stop; [by destruct Hs as [-> _]|].
    intros r s' Hr. apply H. by apply (stopped_still _ _ _ s1).
  - by apply ends_ret, ends_ret, Hfail.
  - apply ends_raise. destruct (is_exception e); [by apply ends_ret, Hfail|].
    apply ends_raise, H, stopped_raised, Hs.
Qed.

Lemma stopped_ok p r s s' : stopped p r s s' -> control_ok s -> control_ok s'.
Proof.
  intros Hst Hs. unfold stopped in Hst. destruct r as [b|e]; [|by apply (control_ok_same s)].
  destruct (od_get (key_of cc p) (ct_results s)) as [t|] eqn:Ht.
  - destruct Hst as [code E].
    assert (control_ok (s <| ct_results := ct_results s' |>)) as H; [|by apply (control_ok_same _ s') in H].
    rewrite E. apply (control_ok_retire s _ t); [done|done|done|]. left. by destruct b.
  - apply (control_ok_same s); [apply Hst|done].
Qed.

Lemma stopped_other p r s s' k : stopped p r s s' -> k <> key_of cc p ->
  od_get k (ct_results s') = od_get k (ct_results s).
Proof.
  intros Hst Hne. unfold stopped in Hst. destruct r as [b|e]; [|by rewrite Hst].
  destruct (od_get (key_of cc p) (ct_results s)).
  - destruct Hst as [code ->]. by apply od_get_set_ne.
  - by destruct Hst as [_ ->].
Qed.

(** ** Every call keeps the invariant *)

Abbreviation stays := (fun _ s => control_ok s).

Lemma ends_rejected p f code Q s :
  (forall t s', tk_status t = CLS_REJECTED -> tk_plan_id t = p -> ct_results s' = ct_results s -> Q (Ok t) s') ->
  (forall e s', ct_results s' = ct_results s -> Q (Err e) s') ->
  ends (rejected cc p f code) Q s.
Proof.
  intros Hok Herr. unfold rejected. apply ends_act, ends_act, ends_bind, ends_result.
  destruct (lease_length cc) as [d|e]; [|by apply Herr].
  apply ends_bind, ends_result. match goal with |- match ?r with _ => _ end => destruct r as [[]|e] end;
    [|by apply Herr]. by apply ends_ret, Hok.
Qed.

(** An answer that says it was acquired is on file. *)
Definition on_file (p : string) (r : result exn TakeoverResult) (s : Control) : Prop :=
  forall t, r = Ok t -> tk_status t = CLS_ACQUIRED -> acquired s (key_of cc p).

(** What an acquisition for plan [p] leaves: a lease of the plan is one that
    the answer says was acquired, or an old one, and what the answer says was
    acquired is held. *)
Definition acquisition (p : string) (s : Control) (r : result exn TakeoverResult) (s' : Control) : Prop :=
  control_ok s' /\ on_file p r s' /\
  (acquired s' (key_of cc p) -> acquired s (key_of cc p) \/ exists t, r = Ok t /\ tk_status t = CLS_ACQUIRED).

Lemma acquisition_same p s r s' :
  control_ok s -> on_file p r s -> ct_results s' = ct_results s -> acquisition p s r s'.
Proof.
  intros Hs Hf E. unfold acquisition, on_file, acquired in *. rewrite E.
  split_and!; [by apply (control_ok_same s)|done|by left].
Qed.
Lemma on_file_err p e s : on_file p (Err e) s.
Proof. by intros t. Qed.
Lemma on_file_rejected p t s : tk_status t = CLS_REJECTED -> on_file p (Ok t) s.
Proof. by intros Ht t' [= <-]; rewrite Ht. Qed.

Lemma acquisition_put p s t : control_ok s -> tk_plan_id t = p ->
  (tk_status t = CLS_ACQUIRED -> forall k, ~ acquired s k) ->
  acquisition p s (Ok t) (s <| ct_results := od_set (key_of cc p) t (ct_results s) |>).
Proof.
  intros Hs Hp Ha. split_and!.
  - apply control_ok_put; [done|by rewrite Hp|]. intros H k Hk. by destruct (Ha H k).
  - intros t' [= <-] Ht. exists t. simpl. by rewrite od_get_set_eq.
  - intros [[_ ?]|[? _]]%acquired_put; [right; eauto|done].
Qed.

Lemma acquisition_from p s s1 r s' : (acquired s1 (key_of cc p) -> acquired s (key_of cc p)) ->
  acquisition p s1 r s' -> acquisition p s r s'.
Proof. intros H (? & ? & Hq). split_and!; [done|done|]. intros Ha. destruct (Hq Ha); auto. Qed.

Lemma ends_store_rejected p f code s : control_ok s ->
  ends (t ← rejected cc p f code; put_result (key_of cc p) t ≫= fun _ => mret t) (acquisition p s) s.
Proof.
  intros Hs. apply ends_bind, ends_rejected.
  - intros t s' Ht Hp E. apply ends_act, ends_ret.
    apply (acquisition_from p s s'); [by unfold acquired; rewrite E|].
    apply acquisition_put; [by apply (control_ok_same s)|done|congruence].
  - intros e s' E. apply acquisition_same; [done|apply on_file_err|done].
Qed.

Lemma ends_ask_adapter p f s : control_ok s -> (forall k, ~ acquired s k) ->
  ends (ask_adapter cc p f) (acquisition p s) s.
Proof.
  intros Hs Hfree. unfold ask_adapter. apply ends_await. intros r s1 [E _].
  assert (forall t s2, ct_results s2 = ct_results s ->
    ends (t ← (if matches_request cc p (cmd_id f) t then mret t else rejected cc p f "control_evidence_mismatch");
          put_result (key_of cc p) t ≫= fun _ => mret t) (acquisition p s) s2) as Hstore.
  { intros t s2 E2. assert (control_ok s2) as Hs2 by (by apply (control_ok_same s)).
    assert (forall k, acquired s2 k <-> acquired s k) as Eq by (intros k; unfold acquired; by rewrite E2).
    eapply ends_mono; [|intros r2 s3; apply (acquisition_from p s s2); apply Eq].
    destruct (matches_request cc p (cmd_id f) t) eqn:Em; [|by apply ends_store_rejected].
    apply ends_act, ends_ret, acquisition_put; [done| |].
    - unfold matches_request in Em. rewrite !andb_true_iff, !bool_decide_eq_true in Em. by destruct Em as [[_ ->] _].
    - intros _ k Hk%Eq. by destruct (Hfree k). }
  destruct r as [t|e]; [by apply Hstore|].
  destruct (is_exception e); [|by apply ends_raise, acquisition_same; [|apply on_file_err|]].
  apply ends_bind, ends_bind, ends_rejected.
  - intros t s2 Ht Hp E2. apply ends_ret, Hstore. by rewrite E2.
  - intros e2 s2 E2. apply acquisition_same; [done|apply on_file_err|]. by rewrite E2.
Qed.

(** Leases that have run out are marked. *)
Lemma expired_leases s s' : after_expiries (ct_results s) s s' -> control_ok s ->
  control_ok s' /\ (forall k, acquired s' k -> acquired s k /\ ~ expired_in s' k).
Proof.
  intros Hs Hok. split.
  - apply (Hs control_ok); [done|]. intros s1 k t code Hok1 Hin. apply control_ok_put; [done| |done].
    apply (co_keyed _ Hok k t). apply od_elem_get; [apply (co_nodup _ Hok)|exact Hin].
  - intros k Hk. split.
    + revert k Hk. apply (Hs (fun s' => forall k, acquired s' k -> acquired s k)); [done|].
      intros s1 k1 t1 code H1 _ k [[_ ?]|[_ ?]]%acquired_put; [done|by apply H1].
    + intros (t' & Ht' & He). destruct Hk as (t & Ht & Ha). congruence.
Qed.

Lemma ends_acquire p cs s : control_ok s ->
  ends (acquire_for_plan cc p cs) (fun r s' => acquisition p s
    (match r with Ok (Some t) => Ok t | Ok None => Err KeyError | Err e => Err e end) s' /\
    (r = Ok None -> relevant cc cs = [])) s.
Proof.
  intros Hs. unfold acquire_for_plan. destruct (relevant cc cs) as [|f l].
  { apply ends_ret. split; [|done]. apply acquisition_same; [done|apply on_file_err|done]. }
  apply (ends_mono _ (fun r s' => acquisition p s
    (match r with Ok (Some t) => Ok t | Ok None => Err KeyError | Err e => Err e end) s' /\ r <> Ok None));
    [|by intros r s' [? ?]].
  apply ends_act. change (id s) with s.
  destruct (ct_startup_reconciled s); cbn [negb].
  2:{ apply ends_bind, ends_rejected; intros; [apply ends_ret|]; (split; [|done]);
        apply acquisition_same; first [done|by apply on_file_rejected|apply on_file_err]. }
  destruct (od_get (key_of cc p) (ct_results s)) as [t|] eqn:Ht.
  { destruct (_ && _).
    2:{ apply ends_ret. split; [|done]. apply acquisition_same; [done| |done]. intros t' [= <-] ?. by exists t. }
    apply ends_act, ends_ret. split; [|done]. apply acquisition_put; [done| |done]. pose proof (co_keyed _ Hs _ _ Ht) as Ek. by injection Ek. }
  apply ends_bind. eapply (ends_mono _ (acquisition p s)); [|intros [t|e] s1 Hs1; [by apply ends_ret|by split]].
  apply ends_act, ends_bind. intros ev s0. apply wp_check_held. change (id s) with s. intros o s' Hex Hl ev' s0'.
  destruct (expired_leases s s' Hex Hs) as [Hs' Hacq].
  eapply (wp_mono _ _ _ (fun r _ _ s2 => acquisition p s' r s2)).
  { intros r2 ? ? s2. apply acquisition_from. apply Hacq. }
  destruct o as [code|].
  { apply ends_rejected; intros; apply acquisition_same;
      first [done|by apply on_file_rejected|apply on_file_err]. }
  assert (forall k, ~ acquired s' k) as Hfree.
  { intros k Hk. destruct (Hacq k Hk) as [(t & Hkt & Ha) Hne]. apply Hne.
    pose proof (proj1 (Forall_forall _ _) (Hl eq_refl) _ (od_get_elem _ _ _ Hkt)) as Hcl.
    apply Hcl; [|done]. simpl. by rewrite (co_keyed _ Hs _ _ Hkt). }
  destruct (native_owner (cp_native_scheduler_status (cc_policy cc))) as [code|],
    (cp_allow_native_takeover (cc_policy cc)); try (by apply ends_ask_adapter). by apply ends_store_rejected.
Qed.

Lemma renewal_keyed p id t : renewal_ok cc p id t = true -> tk_plan_id t = p.
Proof.
  unfold renewal_ok, matches_request. rewrite !andb_true_iff, !bool_decide_eq_true.
  by intros (_ & (_ & ->) & _).
Qed.

(** A lease that is held is renewed. *)
Lemma control_ok_renew s k t t' : control_ok s -> od_get k (ct_results s) = Some t ->
  tk_status t = CLS_ACQUIRED -> tk_plan_id t' = tk_plan_id t ->
  control_ok (s <| ct_results := od_set k t' (ct_results s) |>).
Proof. intros Hs Hk Ha Hp. apply (control_ok_retire s k t); auto. Qed.

Lemma ends_still_owned p s : control_ok s -> ends (assert_still_owned cc p) stays s.
Proof.
  intros Hs. unfold assert_still_owned. apply ends_act. change (id s) with s.
  destruct (od_get (key_of cc p) (ct_results s)) as [t|] eqn:Ht; [|by apply ends_ret].
  case_bool_decide as Ha; cbn [negb]; [|by apply ends_ret].
  destruct (_ <=? ct_now s).
  { apply ends_act, ends_ret. apply (control_ok_retire s _ t); [done|done|done|by left]. }
  apply ends_bind, ends_result. destruct (renewal_margin cc) as [margin|e]; [|done].
  destruct (_ <=? margin); [|by apply ends_act, ends_ret].
  destruct (cc_renews cc); [|by apply ends_act, ends_ret].
  apply ends_await. intros r s1 [E _].
  assert (control_ok s1) as Hs1 by (by apply (control_ok_same s)).
  destruct r as [[t'|]|e]; [|by apply ends_ret|by destruct (is_exception e); [apply ends_ret|apply ends_raise]].
  simpl. destruct (renewal_ok _ _ _ _) eqn:Ok1; [|by apply ends_ret].
  apply ends_act, ends_act, ends_ret. apply (control_ok_renew s1 _ t); [done|by rewrite E|done|].
  rewrite (renewal_keyed _ _ _ Ok1). assert (key_of cc p = key_of cc (tk_plan_id t)) as Ek by by apply (co_keyed _ Hs).
  by injection Ek.
Qed.

(** The leases [l] still stand as they were read. *)
Definition standing (l : list (lease_key * TakeoverResult)) (s : Control) : Prop :=
  control_ok s /\ NoDup (map fst l) /\
  Forall (fun kt => od_get (fst kt) (ct_results s) = Some (snd kt)) l.

Lemma standing_start s : control_ok s -> standing (ct_results s) s.
Proof.
  intros Hs. split; [done|]. split; [apply (co_nodup _ Hs)|].
  apply Forall_forall. intros [k t] Hin. apply od_elem_get; [apply (co_nodup _ Hs)|exact Hin].
Qed.

Lemma standing_same l s s' : ct_results s' = ct_results s -> standing l s -> standing l s'.
Proof. intros E (Hs & Hn & Hl). split; [by apply (control_ok_same s)|]. by rewrite E. Qed.

Lemma standing_tail k t l s s' : standing ((k, t) :: l) s -> control_ok s' ->
  (forall k', k' <> k -> od_get k' (ct_results s') = od_get k' (ct_results s)) -> standing l s'.
Proof.
  intros (_ & Hn & Hl) Hs' Hsame. simpl in Hn. apply NoDup_cons in Hn as [Hk Hn]. apply Forall_cons in Hl as [_ Hl].
  split; [done|]. split; [done|]. rewrite Forall_forall in Hl |- *. intros [k' t'] Hin. simpl.
  rewrite Hsame; [by apply (Hl (k', t'))|]. intros ->. apply Hk, list_elem_of_fmap. by exists (k, t').
Qed.

Lemma ends_supervise now margin k t l s : standing ((k, t) :: l) s ->
  ends (supervise cc now margin k t)
    (fun r s => match r with Ok _ => standing l s | Err _ => control_ok s end) s.
Proof.
  intros Hst. pose proof Hst as (Hs & _ & Hk). apply Forall_cons in Hk as [Hk _]. simpl in Hk.
  pose proof (co_keyed _ Hs _ _ Hk) as Ek.
  unfold supervise. destruct (bool_decide (tk_status t = CLS_ACQUIRED)) eqn:Ea; cbn [negb orb].
  2:{ apply ends_ret. by apply (standing_tail k t l s). }
  apply bool_decide_eq_true in Ea.
  destruct (margin <? _); [apply ends_ret; by apply (standing_tail k t l s)|].
  assert (forall s1, still s s1 ->
    ends (confirmed ← emergency_stop cc (tk_plan_id t) ("control-supervisor:" +:+ tk_lease_id t);
          put_result k (supervised t confirmed) ≫= fun _ => mret [tk_plan_id t])
      (fun r s => match r with Ok _ => standing l s | Err _ => control_ok s end) s1) as Hstop.
  { intros s1 [E _]. pose proof (standing_same _ _ _ E Hst) as Hst1. pose proof Hst1 as (Hs1 & _).
    apply ends_bind, ends_emergency_stop. intros [b|e] s2 H2; [|by apply (stopped_ok _ _ _ _ H2)].
    pose proof (stopped_ok _ _ _ _ H2 Hs1) as Hs2. apply ends_act, ends_ret.
    apply (standing_tail k t l s1); [done| |].
    - apply control_ok_put; [done|done|]. by destruct b.
    - intros k' Hne. simpl. rewrite od_get_set_ne by done. apply (stopped_other _ _ _ _ _ H2). congruence. }
  apply ends_bind. unfold try_renewal. destruct (_ && _); [|by apply ends_ret, Hstop].
  apply ends_await. intros r s1 Hs1. destruct r as [[t'|]|e]; [| |destruct (is_exception e)].
  - simpl. apply ends_ret. destruct (renewal_ok _ _ _ _) eqn:Ok1; [|by apply Hstop].
    destruct Hs1 as [E _]. pose proof (standing_same _ _ _ E Hst) as Hst1. pose proof Hst1 as (Hs1 & _).
    apply ends_act, ends_ret. apply (standing_tail k t l s1); [done| |].
    + apply (control_ok_renew s1 _ t); [done|by rewrite E|done|by apply (renewal_keyed _ _ _ Ok1)].
    + intros k' Hne. simpl. by rewrite od_get_set_ne.
  - by apply ends_ret, Hstop.
  - by apply ends_ret, Hstop.
  - apply ends_raise. apply (control_ok_same s); [apply Hs1|done].
Qed.

Lemma ends_supervise_all now margin l : forall s, standing l s ->
  ends (supervise_all cc now margin l) stays s.
Proof.
  induction l as [|[k t] l IH]; intros s Hst; [apply ends_ret, Hst|].
  apply ends_bind. eapply ends_mono; [by apply ends_supervise|]. intros [stopped|e] s1 Hst1; [|done].
  apply ends_bind. eapply ends_mono; [by apply IH|]. intros [rest|e] s2 Hs2; [by apply ends_ret|done].
Qed.

Lemma control_ok_reconcile s : control_ok s ->
  ends reconciled stays s.
Proof.
  intros [Hn Hk Hs]. apply ends_act, ends_act, ends_ret. simpl.
  set (f := fun kt : lease_key * TakeoverResult => let '(k, t) := kt in _).
  assert (forall (d : odict lease_key TakeoverResult) k, od_get k (map f d)
    = (fun t => snd (f (k, t))) <$> od_get k d) as Hget.
  { induction d as [|[k' t'] d IH]; intros k; simpl; [done|]. case_decide; [by subst|apply IH]. }
  assert (forall k, acquired (s <| ct_startup_reconciled := true |> <| ct_results := map f (ct_results s) |>) k -> acquired s k) as Ha.
  { intros k (t & Ht & Hst). simpl in Ht. rewrite Hget in Ht. destruct (od_get k (ct_results s)) as [t0|] eqn:E; [|done].
    injection Ht as <-. exists t0. split; [done|]. simpl in Hst. by case_bool_decide. }
  split; simpl.
  - unfold od_keys. rewrite map_map. replace (map _ _) with (od_keys (ct_results s)); [done|].
    apply map_ext. by intros [k t].
  - intros k t. rewrite Hget. destruct (od_get k (ct_results s)) as [t0|] eqn:E; [|done]. intros [= <-].
    rewrite (Hk _ _ E). simpl. by case_bool_decide.
  - intros k1 k2 H1%Ha H2%Ha. by apply Hs.
Qed.

Lemma ends_not_reconciled s : control_ok s -> ends not_reconciled stays s.
Proof. intros Hs. by apply ends_act, ends_ret, (control_ok_same s). Qed.

Lemma ends_is_safe o (Q : result exn bool -> Control -> Prop) s : (forall r, Q r s) -> ends (is_safe cc o) Q s.
Proof. intros H. by apply ends_act, ends_result. Qed.

Lemma ends_reconcile_by_stop ref s : control_ok s -> ends (reconcile_by_stop cc ref) stays s.
Proof.
  intros Hs. unfold reconcile_by_stop. apply ends_bind, ends_result.
  destruct (stop_command_of _ _ _ _) as [c|e]; [|done].
  destruct (cc_executes cc); cbn [negb]; [|by apply ends_not_reconciled].
  assert (forall e s1, control_ok s1 -> ends (if is_exception e then not_reconciled else Raise e) stays s1) as Hexc.
  { intros e s1 Hs1. destruct (is_exception e); [by apply ends_not_reconciled|by apply ends_raise]. }
  apply ends_catch, ends_bind. unfold send_stop. apply ends_bind, ends_result.
  destruct (validate_context _) as [[]|e]; [|by apply Hexc].
  apply ends_await. intros r s1 [E _]. assert (control_ok s1) as Hs1 by (by apply (control_ok_same s)).
  apply ends_result. destruct r as [[]|e]; cbn [negb]; [|by apply ends_not_reconciled|by apply Hexc].
  destruct (cc_reads cc); cbn [negb]; [|by apply ends_not_reconciled].
  apply ends_bind, ends_read_feedback. intros [o|e] s2 [E2 _]; (assert (control_ok s2) as Hs2 by (by apply (control_ok_same s1)));
    [|by apply Hexc].
  apply ends_bind, ends_is_safe. intros [[]|e]; [|by apply ends_not_reconciled|by apply Hexc].
  eapply ends_mono; [by apply control_ok_reconcile|]. intros [b|e] s3 Hs3; [done|by apply Hexc].
Qed.

Lemma ends_reconcile s : control_ok s -> ends (reconcile_startup cc) stays s.
Proof.
  intros Hs. unfold reconcile_startup.
  destruct (cc_stale_after cc), (cc_power_feedback_capability cc);
    [|by apply ends_not_reconciled|by apply ends_not_reconciled|by apply ends_act, ends_ret, (control_ok_same s)].
  apply ends_act. match goal with |- context [match ?r with Some ref => _ | None => _ end] => destruct r as [ref|] end;
    [|by apply ends_not_reconciled].
  apply ends_bind, ends_is_safe. intros [cached|e]; [|done].
  apply ends_bind. match goal with |- context [if ?b then live_reading_safe _ _ else _] => destruct b end.
  2:{ apply ends_ret. by apply ends_reconcile_by_stop. }
  apply ends_bind, ends_catch, ends_read_feedback.
  assert (forall o s1, control_ok s1 -> ends (is_safe cc o) (fun r s => match r with
    | Ok b => ends (if b : bool then reconciled else reconcile_by_stop cc ref) stays s
    | Err _ => control_ok s end) s1) as Hlive.
  { intros o s1 Hs1. apply ends_is_safe. intros [[]|e]; [by apply control_ok_reconcile|by apply ends_reconcile_by_stop|done]. }
  intros [o|e] s1 [E _]; (assert (control_ok s1) as Hs1 by (by apply (control_ok_same s))); [by apply Hlive|].
  destruct (is_exception e); [by apply ends_ret, Hlive|by apply ends_raise].
Qed.

(** After [release_for_plan] returns, the plan's lease is not held. *)
Lemma ends_release p a s : control_ok s ->
  ends (release_for_plan cc p a) (fun r s' => control_ok s' /\
    match r with Ok _ => ~ acquired s' (key_of cc p) | Err _ => True end) s.
Proof.
  intros Hs. unfold release_for_plan. apply ends_act. change (id s) with s.
  destruct (od_get (key_of cc p) (ct_results s)) as [t|] eqn:Ht.
  2:{ apply ends_ret. split; [done|]. intros (t & Ht' & _). congruence. }
  case_bool_decide as Ha; cbn [negb].
  2:{ apply ends_ret. split; [done|]. intros (t' & Ht' & ?). congruence. }
  destruct (has_feedback cc); cbn [negb].
  - apply ends_emergency_stop. intros r s' Hst. split; [by apply (stopped_ok p r s)|].
    destruct r as [b|e]; [|done]. unfold stopped in Hst. rewrite Ht in Hst. destruct Hst as [code E].
    unfold acquired. rewrite E, od_get_set_eq. intros (t' & [= <-] & Hb). by destruct b.
  - apply ends_act, ends_ret. split; [apply (control_ok_retire s _ t); [done|done|done|by left]|].
    by intros [[_ ?]|[? _]]%acquired_put.
Qed.

(** What is still held is among the leases [l] yet to be stopped. *)
Definition left_to_stop (l : list (lease_key * TakeoverResult)) (s : Control) : Prop :=
  standing l s /\ forall k, acquired s k -> k ∈ map fst l.

Lemma ends_shut_down_one kt l s : left_to_stop (kt :: l) s ->
  ends (shut_down_one cc kt)
    (fun r s => match r with Ok _ => left_to_stop l s | Err _ => control_ok s end) s.
Proof.
  destruct kt as [k t]. intros [Hst Hl]. pose proof Hst as (Hs & _ & Hk). apply Forall_cons in Hk as [Hk _]. simpl in Hk.
  pose proof (co_keyed _ Hs _ _ Hk) as Ek.
  assert (forall s', control_ok s' -> ~ acquired s' k ->
    (forall k', k' <> k -> od_get k' (ct_results s') = od_get k' (ct_results s)) -> left_to_stop l s') as Hnext.
  { intros s' Hs' Hna Hsame. split; [by apply (standing_tail k t l s)|]. intros k' Hk'.
    assert (k' <> k) as Hne by (by intros ->). destruct Hk' as (t' & Ht' & Ha). rewrite Hsame in Ht' by done.
    assert (k' ∈ map fst ((k, t) :: l)) as Hin by (apply Hl; by exists t').
    apply elem_of_cons in Hin as [?|?]; done. }
  simpl. case_bool_decide as Ha; cbn [negb].
  2:{ apply ends_ret, Hnext; [done| |done]. intros (t' & Ht' & ?). congruence. }
  apply ends_bind, ends_emergency_stop. intros r s' Hs'. pose proof (stopped_ok _ _ _ _ Hs' Hs) as Hok.
  assert (forall k', k' <> k -> od_get k' (ct_results s') = od_get k' (ct_results s)) as Hsame
    by (intros k' ?; apply (stopped_other _ _ _ _ _ Hs'); congruence).
  unfold stopped in Hs'. rewrite <- Ek, Hk in Hs'. destruct r as [b|e]; [|done]. destruct Hs' as [code E].
  destruct b.
  - apply ends_ret, Hnext; [done| |done]. unfold acquired. rewrite E, od_get_set_eq. by intros (? & [= <-] & ?).
  - apply ends_act, ends_ret, Hnext.
    + apply (control_ok_put s'); [done|done|]. done.
    + by intros [[_ ?]|[? _]]%acquired_put.
    + intros k' Hne. simpl. rewrite od_get_set_ne by done. by apply Hsame.
Qed.

Lemma ends_shutdown s : control_ok s ->
  ends (shutdown cc) (fun r s' => control_ok s' /\
    match r with Ok _ => forall k, ~ acquired s' k | Err _ => True end) s.
Proof.
  intros Hs. apply ends_act. change (id s) with s.
  apply (ends_iter _ left_to_stop).
  - intros kt l s1 H1. eapply ends_mono; [by apply ends_shut_down_one|]. by intros [[]|e] s2 H2.
  - intros s1 [(Hs1 & _) Hl]. split; [done|]. intros k Hk. specialize (Hl k Hk). by apply not_elem_of_nil in Hl.
  - split; [by apply standing_start|]. intros k (t & Ht & _). apply od_get_elem in Ht.
    apply list_elem_of_fmap. by exists (k, t).
Qed.

(** ** Histories *)

Lemma ends_control k s : control_ok s -> ends (control cc k) stays s.
Proof.
  intros Hs.
  assert (forall A (c : C A) (f : A -> control_answer), ends c stays s ->
    ends (coro_bind (fun a => Ret (f a)) c) stays s) as Hk.
  { intros A c f Hc. apply ends_bind. eapply ends_mono; [exact Hc|]. by intros [a|e] s' Hs'; [apply ends_ret|]. }
  destruct k as [p cs|p|p a| | |p a|]; apply Hk.
  - eapply ends_mono; [by apply ends_acquire|]. by intros r s' [[? _] _].
  - by apply ends_still_owned.
  - apply ends_emergency_stop. intros r s' Hst. by apply (stopped_ok p r s).
  - apply ends_act, ends_bind, ends_result. destruct (renewal_margin cc) as [margin|e]; [|done].
    by apply ends_supervise_all, standing_start.
  - by apply ends_reconcile.
  - eapply ends_mono; [by apply ends_release|]. by intros r s' [? _].
  - eapply ends_mono; [by apply ends_shutdown|]. by intros r s' [? _].
Qed.

(** Calls one after the other; before each, time passes and readings arrive. *)
Inductive history : Control -> Prop :=
  | history_new now store : history (new_control cc now store)
  | history_still s s' : history s -> still s s' -> history s'
  | history_call s o n k : history s -> alone o -> history (snd (run o (control cc k) n s)).

Lemma history_ok s : history s -> control_ok s.
Proof.
  induction 1 as [now store|s s' _ IH [E _]|s o n k _ IH Ho].
  - split; [constructor|done|by intros k1 k2 (t & ? & _)].
  - by apply (control_ok_same s).
  - by apply (ends_run o _ (fun _ s => control_ok s) n s Ho), ends_control.
Qed.
End History.

(** ** Theorems *)

Section Theorems.
Context `{CJ : Canonical} `{TT : TakeoverText}.
Context (cc : Coordinator).

(** over any history of calls made one after the other, whatever the
    adapter answers and however time passes, at most one lease of the device
    is held, and every answer is filed under the plan it names. *)
Theorem single_lease s : history cc s ->
  (forall k1 k2 t1 t2, od_get k1 (ct_results s) = Some t1 -> od_get k2 (ct_results s) = Some t2 ->
     tk_status t1 = CLS_ACQUIRED -> tk_status t2 = CLS_ACQUIRED -> k1 = k2) /\
  (forall k t, od_get k (ct_results s) = Some t -> k = (owner cc, cc_device_id cc, tk_plan_id t)).
Proof.
  intros Hs%history_ok. split; [|apply Hs]. intros k1 k2 t1 t2 H1 H2 A1 A2.
  apply (co_single _ _ Hs); [by exists t1|by exists t2].
Qed.

(** A lease is given back: once [release_for_plan] has returned, whatever
    it says, the plan holds no lease, and once [shutdown] has returned nobody
    does. *)
Theorem lease_given_back s o n : history cc s -> alone o ->
  (forall p a b n' s', run o (release_for_plan cc p a) n s = (Ok b, n', s') ->
     forall t, od_get (key_of cc p) (ct_results s') = Some t -> tk_status t <> CLS_ACQUIRED) /\
  (forall n' s', run o (shutdown cc) n s = (Ok tt, n', s') ->
     forall k t, od_get k (ct_results s') = Some t -> tk_status t <> CLS_ACQUIRED).
Proof.
  intros Hs%history_ok Ho. split.
  - intros p a b n' s' Hr t Ht Ha. pose proof (ends_run o _ _ n s Ho (ends_release cc p a s Hs)) as [_ H].
    rewrite Hr in H. simpl in H. apply H. by exists t.
  - intros n' s' Hr k t Ht Ha. pose proof (ends_run o _ _ n s Ho (ends_shutdown cc s Hs)) as [_ H].
    rewrite Hr in H. simpl in H. apply (H k). by exists t.
Qed.

(** [assert_still_owned] says yes only if, at that moment and whatever
    others did while it waited, the plan has a lease that is held and has not
    run out. *)
Theorem still_owned_live p o n n' s s' :
  run o (assert_still_owned cc p) n s = (Ok true, n', s') ->
  exists t, od_get (key_of cc p) (ct_results s') = Some t /\
    tk_status t = CLS_ACQUIRED /\ ct_now s' < tk_expires_at t.
Proof.
  intros Hr. set (Q := fun (r : result exn bool) (_ : cause adapter_call) (_ s : Control) => r = Ok true ->
    exists t, od_get (key_of cc p) (ct_results s) = Some t /\ tk_status t = CLS_ACQUIRED /\ ct_now s < tk_expires_at t).
  assert (forall r ev s0 s, r <> Ok true -> Q r ev s0 s) as Hno by (intros r ev s0 s2 Hr2 Hr3; by destruct Hr2).
  assert (wp (fun _ _ => True) no_guard (assert_still_owned cc p) Q Called s s) as Hw.
  { unfold assert_still_owned. simpl. destruct (od_get (key_of cc p) (ct_results s)) as [t|] eqn:Ht; simpl; [|by apply Hno].
    case_bool_decide as Ha; simpl; [|by apply Hno]. destruct (_ <=? ct_now s); simpl; [by apply Hno|].
    destruct (renewal_margin cc) as [margin|e]; simpl; [|by apply Hno].
    assert (Q (Ok (ct_now s <? tk_expires_at t)) Called s s) as Hlive by (intros [= H%Z.ltb_lt]; eauto).
    destruct (_ <=? margin); [|exact Hlive]. destruct (cc_renews cc); [|exact Hlive].
    split; [done|]. intros [[t'|]|e] s1 _; simpl; [|by apply Hno|by destruct (is_exception e); simpl; apply Hno].
    destruct (renewal_ok _ _ _ _) eqn:Eok; simpl; [|by apply Hno].
    intros [= H%Z.ltb_lt]. exists t'. simpl. rewrite od_get_set_eq.
    split; [done|]. split; [|done]. unfold renewal_ok in Eok. by apply andb_true_iff in Eok as [Ha'%bool_decide_eq_true _]. }
  destruct (run_sound _ _ o _ (fun _ _ _ _ => I) _ n _ _ _ Hw) as (ev' & s0' & HQ). rewrite Hr in HQ. apply (HQ eq_refl).
Qed.
End Theorems.

(** ** The home battery *)

(** An adapter that answers well. *)
Definition good_adapter : oracle Control adapter_call := fun n B q s =>
  (match q in adapter_call B return result exn B with
   | acquire_control r => Ok (battery_lease (cr_plan_id r) (cr_first_command_id r) (ct_now s) (ct_now s + minutes 5))
   | renew_control t => Ok (Some t)
   | adapter_execute _ _ => Ok true
   | adapter_read_state _ => Ok [power_reading 0 (ct_now s)]
   end, s).

Lemma good_adapter_alone : alone good_adapter.
Proof. intros n B q s. by destruct q. Qed.

Definition after_calls (ks : list control_call) : Control :=
  foldl (fun s k => snd (run good_adapter (control battery k) 0 s)) (new_control battery (minutes 1) empty_store) ks.

Lemma after_calls_history ks : history battery (after_calls ks).
Proof.
  unfold after_calls. assert (forall s, history battery s ->
    history battery (foldl (fun s k => snd (run good_adapter (control battery k) 0 s)) s ks)) as H;
    [|apply H, history_new].
  induction ks as [|k ks IH]; intros s Hs; simpl; [done|]. apply IH, history_call; [done|apply good_adapter_alone].
Qed.

Definition battery_day : Control :=
  after_calls [K_reconcile; K_acquire "a" [charge "c1"]; K_acquire "b" [charge "c2"]; K_release "a" "attempt";
               K_acquire "b" [charge "c2"]; K_acquire "c" [charge "c3"]].

Lemma single_lease_witness :
  history battery battery_day /\
  map (fun '(k, t) => (snd k, tk_status t)) (ct_results battery_day) = [("a", CLS_RELEASED); ("b", CLS_ACQUIRED)] /\
  (forall k1 k2 t1 t2, od_get k1 (ct_results battery_day) = Some t1 -> od_get k2 (ct_results battery_day) = Some t2 ->
     tk_status t1 = CLS_ACQUIRED -> tk_status t2 = CLS_ACQUIRED -> k1 = k2).
Proof.
  split; [apply after_calls_history|]. split; [by vm_compute|].
  apply (single_lease battery battery_day (after_calls_history _)).
Defined.

Lemma lease_given_back_witness :
  history battery battery_day /\ alone good_adapter /\
  exists n s, run good_adapter (shutdown battery) 0 battery_day = (Ok tt, n, s) /\
    forall k t, od_get k (ct_results s) = Some t -> tk_status t <> CLS_ACQUIRED.
Proof.
  split; [apply after_calls_history|]. split; [apply good_adapter_alone|].
  destruct (lease_given_back battery battery_day good_adapter 0 (after_calls_history _) good_adapter_alone) as [_ H].
  exists 2%nat, (snd (run good_adapter (shutdown battery) 0 battery_day)).
  assert (run good_adapter (shutdown battery) 0 battery_day
          = (Ok tt, 2%nat, snd (run good_adapter (shutdown battery) 0 battery_day))) as E by (by vm_compute).
  split; [exact E|]. apply (H _ _ E).
Defined.

Lemma still_owned_live_witness :
  run good_adapter (assert_still_owned battery "b") 0 battery_day = (Ok true, 0%nat, battery_day) /\
  exists t, od_get (key_of battery "b") (ct_results battery_day) = Some t /\
    tk_status t = CLS_ACQUIRED /\ ct_now battery_day < tk_expires_at t.
Proof.
  assert (run good_adapter (assert_still_owned battery "b") 0 battery_day = (Ok true, 0%nat, battery_day)) as E
    by (by vm_compute).
  split; [exact E|]. apply (still_owned_live battery "b" _ _ _ _ _ E).
Defined.
