(* ===== verification/ControlTakeoverGroup.v ===== *)
(** * Control of several devices: all or nothing

    [ControlTakeoverGroup] on coordinators whose calls run one after the
    other: a method of one member leaves the others alone ([gends_member]), and
    a plan that is refused one of its devices keeps none. *)

From S2P Require Import Prelude.
From S2P Require Import Values.
From S2P Require Import Models.
From S2P Require Import StateStore.
From S2P Require Import Digests.
From S2P Require Import ApprovalStore.
From S2P Require Import Coordination.
From S2P Require Import Ports.
From S2P Require Import Coroutines.
From S2P Require Import ControlTakeover.
From S2P Require Import ControlTakeoverRuns.
From S2P Require Import ControlTakeoverHistory.

(** What happens at an await of a group's call. *)
Definition gstill (g g' : Group) : Prop :=
  (forall i, still (gr_members g i) (gr_members g' i)) /\ gr_active g' = gr_active g.

Abbreviation gquiet := (fun (_ : cause member_call) (_ _ : Group) (_ : option (request member_call)) => True).

Definition gends {A} (c : G A) (Q : result exn A -> Group -> Prop) (g : Group) : Prop :=
  forall ev g0, wp gstill gquiet c (fun r _ _ g => Q r g) ev g0 g.

Lemma gends_mono {A} (c : G A) (P Q : result exn A -> Group -> Prop) g :
  gends c P g -> (forall r g, P r g -> Q r g) -> gends c Q g.
Proof. intros H HPQ ev g0. eapply wp_mono; [|apply H]. intros r ? ? g'. apply HPQ. Qed.

Lemma gends_bind {A B} (c : G A) (f : A -> G B) Q g :
  gends c (fun r g => match r with Ok a => gends (f a) Q g | Err e => Q (Err e) g end) g ->
  gends (coro_bind f c) Q g.
Proof.
  intros H ev g0. apply wp_bind. eapply wp_mono; [|apply H]. intros [a|e] ev' g0' g' Hr; [apply Hr|exact Hr].
Qed.

Lemma gends_ret {A} (a : A) (Q : result exn A -> Group -> Prop) g : Q (Ok a) g -> gends (Ret a) Q g.
Proof. by intros H ev g0. Qed.

(** The members but [i], and what is active, are as they were. *)
Definition elsewhere (i : nat) (g g' : Group) : Prop :=
  (forall j, j <> i -> still (gr_members g j) (gr_members g' j)) /\ gr_active g' = gr_active g.

Lemma still_trans s1 s2 s3 : still s1 s2 -> still s2 s3 -> still s1 s3.
Proof. unfold still. intros [-> ->] [-> ->]. done. Qed.

Lemma gends_member {A} i (c : C A) P : forall (Q : result exn A -> Group -> Prop) g,
  ends c P (gr_members g i) ->
  (forall r g', P r (gr_members g' i) -> elsewhere i g g' -> Q r g') ->
  gends (on_member i c) Q g.
Proof.
  assert (forall g, elsewhere i g g) as Hrefl by (intros g; split; [by intros j _|done]).
  induction c as [a|e|u k IH|B q k IH]; intros Q g Hc HQ ev g0; simpl.
  - apply HQ; [apply (Hc Called (gr_members g i))|done].
  - apply HQ; [apply (Hc Called (gr_members g i))|done].
  - apply IH.
    + intros ev' s0. simpl. rewrite decide_True by done. apply Hc.
    + intros r g' HP [Hel Ha]. apply HQ; [done|]. split; [|done]. intros j Hj.
      specialize (Hel j Hj). simpl in Hel. by rewrite decide_False in Hel.
  - split; [done|]. intros r g1 [Hst Ha]. apply IH.
    + destruct (Hc Called (gr_members g i)) as [_ Hk]. apply (ends_cause _ _ _ _ _ (Hk r (gr_members g1 i) (Hst i))).
    + intros r' g' HP [Hel Ha']. apply HQ; [done|]. split; [|by rewrite Ha'].
      intros j Hj. eapply still_trans; [apply Hst|by apply Hel].
Qed.

Section Group.
Context `{CJ : Canonical} `{TT : TakeoverText}.
Context (coordinators : list Coordinator) (plan : string).

(** Member [m] holds its device for the plan. *)
Definition holds (g : Group) (m : nat * Coordinator) : Prop :=
  acquired (gr_members g (fst m)) (key_of (snd m) plan).

Definition group_ok (g : Group) : Prop :=
  forall m, m ∈ members coordinators -> control_ok (snd m) (gr_members g (fst m)).

(** Of the members, at most [held] hold their devices. *)
Definition held_by (held : list nat) (g : Group) : Prop :=
  group_ok g /\ forall m, m ∈ members coordinators -> holds g m -> fst m ∈ held.

Lemma members_unique m1 m2 : m1 ∈ members coordinators -> m2 ∈ members coordinators ->
  fst m1 = fst m2 -> m1 = m2.
Proof.
  unfold members. intros (i1 & c1 & -> & H1)%elem_of_lookup_imap_1 (i2 & c2 & -> & H2)%elem_of_lookup_imap_1 E.
  simpl in E. subst. congruence.
Qed.

Lemma members_nodup : NoDup (members coordinators).
Proof.
  apply NoDup_alt. intros i j m. unfold members. rewrite !list_lookup_imap.
  destruct (coordinators !! i), (coordinators !! j); simpl; [|done..]. by intros [= <-] [= ->].
Qed.

(** Member [m] keeps its device through a step of another. *)
Lemma holds_elsewhere m i g g' : elsewhere i g g' -> fst m <> i -> holds g m -> holds g' m.
Proof. intros [Hel _] Hne. unfold holds, acquired. by rewrite (proj1 (Hel _ Hne)). Qed.

(** A step of member [m] that ends well for it. *)
Lemma held_by_step m held held' g g' : m ∈ members coordinators ->
  held_by held g -> elsewhere (fst m) g g' -> control_ok (snd m) (gr_members g' (fst m)) ->
  (holds g' m -> fst m ∈ held') -> (forall j, j <> fst m -> j ∈ held -> j ∈ held') -> held_by held' g'.
Proof.
  intros Hm [Hok Hh] [Hel _] Hc Hholds Hsub.
  assert (forall m', m' ∈ members coordinators -> fst m' <> fst m ->
    ct_results (gr_members g' (fst m')) = ct_results (gr_members g (fst m'))) as Hsame
    by (intros m' _ Hne; apply (Hel _ Hne)).
  split.
  - intros m' Hm'. destruct (decide (fst m' = fst m)) as [E|Hne]; [by rewrite (members_unique m' m Hm' Hm E)|].
    apply (control_ok_same _ (gr_members g (fst m'))); [by apply Hsame|by apply Hok].
  - intros m' Hm' H. destruct (decide (fst m' = fst m)) as [E|Hne].
    + rewrite (members_unique m' m Hm' Hm E) in H |- *. by apply Hholds.
    + apply Hsub; [done|]. apply Hh; [done|]. unfold holds, acquired in *. by rewrite Hsame in H.
Qed.

(** The members in [held] release; whoever returns has given back. *)
Lemma gends_rollback held : forall g, held ⊆ members coordinators -> held_by (map fst held) g ->
  gends (rollback plan held) (fun r g' => match r with Ok _ => held_by [] g' | Err _ => True end) g.
Proof.
  induction held as [|m held IH]; intros g Hsub Hg; [by apply gends_ret|].
  destruct m as [i cc]. assert ((i, cc) ∈ members coordinators) as Hm by (apply Hsub; by apply elem_of_cons; left).
  apply gends_bind, gends_bind.
  eapply gends_member; [apply ends_release, (proj1 Hg (i, cc) Hm)|].
  intros [b|e] g' [Hc Hr] Hel; [|done]. apply gends_ret, IH.
  - intros m' ?. apply Hsub. by apply elem_of_cons; right.
  - apply (held_by_step (i, cc) (map fst ((i, cc) :: held)) _ g); [done|done|done|done|done|].
    intros j Hj Hin. simpl in *. by apply elem_of_cons in Hin as [?|?].
Qed.

Definition refused (t : TakeoverResult) : Prop := tk_status t <> CLS_ACQUIRED.

(** What the loop over [ms] leaves when none refused: the members [l] hold
    their devices, [held] and the members of [ms] that are needed are among
    them. *)
Definition all_acquired (commands : list Command) (held ms : list (nat * Coordinator)) (l : list nat)
    (f : option TakeoverResult) (g : Group) : Prop :=
  held_by l g /\ (forall m, m ∈ members coordinators -> fst m ∈ l -> holds g m) /\
  (forall m, m ∈ held \/ (m ∈ ms /\ relevant (snd m) commands <> []) -> fst m ∈ l) /\
  (forall t, f = Some t -> tk_status t = CLS_ACQUIRED) /\ (l = [] <-> f = None).

Lemma all_acquired_end commands held first g : held ⊆ members coordinators -> held_by (map fst held) g ->
  Forall (holds g) held -> (forall f, first = Some f -> tk_status f = CLS_ACQUIRED) ->
  (held = [] <-> first = None) -> all_acquired commands held [] (map fst held) first g.
Proof.
  intros Hheld Hg Hall Hf Hnone. split; [done|]. split_and!; [| |done|rewrite <- Hnone; by destruct held].
  - intros m Hm (m' & E & Hin)%list_elem_of_fmap. rewrite (members_unique m m' Hm (Hheld _ Hin) E).
    by apply (proj1 (Forall_forall _ _) Hall).
  - intros m [Hin|[Hin%not_elem_of_nil _]]; [|done]. apply list_elem_of_fmap. by exists m.
Qed.

Lemma all_acquired_skip commands held i cc ms l f g : relevant cc commands = [] ->
  all_acquired commands held ms l f g -> all_acquired commands held ((i, cc) :: ms) l f g.
Proof.
  intros Hr (H1 & H2 & H3 & H4 & H5). split; [done|]. split_and!; [done| |done|done].
  intros m [?|[[->|?]%elem_of_cons ?]]; [apply H3; by left|done|apply H3; by right].
Qed.
Lemma all_acquired_more commands held i cc ms l f g :
  all_acquired commands (held ++ [(i, cc)]) ms l f g -> all_acquired commands held ((i, cc) :: ms) l f g.
Proof.
  intros (H1 & H2 & H3 & H4 & H5). split; [done|]. split_and!; [done| |done|done].
  intros m [?|[[->|?]%elem_of_cons ?]]; apply H3; [left; apply elem_of_app; by left| |by right].
  left. apply elem_of_app. right. by apply list_elem_of_singleton.
Qed.

Lemma held_elsewhere i cc held ms g g' : held ⊆ members coordinators -> NoDup (held ++ (i, cc) :: ms) ->
  (i, cc) ∈ members coordinators -> elsewhere i g g' -> Forall (holds g) held -> Forall (holds g') held.
Proof.
  intros Hheld Hnd Hm Hel Hall. apply Forall_forall. intros m Hin.
  apply (holds_elsewhere m i g); [done| |by apply (proj1 (Forall_forall _ _) Hall)].
  intros E. apply NoDup_app in Hnd as (_ & Hd & _). apply (Hd m Hin).
  rewrite (members_unique m (i, cc) (Hheld _ Hin) Hm E). by left.
Qed.

(** The loop over the members. *)
Lemma gends_acquire_members commands ms : forall held first g,
  ms ⊆ members coordinators -> held ⊆ members coordinators -> NoDup (held ++ ms) ->
  held_by (map fst held) g -> Forall (holds g) held ->
  (forall f, first = Some f -> tk_status f = CLS_ACQUIRED) -> (held = [] <-> first = None) ->
  gends (acquire_members plan commands held first ms) (fun r g' =>
    match r with
    | Ok (inl t) => refused t /\ held_by [] g'
    | Ok (inr (l, f)) => all_acquired commands held ms l f g'
    | Err _ => True
    end) g.
Proof.
  induction ms as [|[i cc] ms IH]; intros held first g Hms Hheld Hnd Hg Hall Hf Hnone.
  { apply gends_ret. by apply all_acquired_end. }
  assert ((i, cc) ∈ members coordinators) as Hm by (apply Hms; by apply elem_of_cons; left).
  assert (ms ⊆ members coordinators) as Hms' by (intros m' ?; apply Hms; by apply elem_of_cons; right).
  apply gends_bind. eapply gends_member; [apply ends_acquire, (proj1 Hg (i, cc) Hm)|].
  intros r g' [(Hc & Hfile & Hacq) Hskip] Hel.
  pose proof (held_elsewhere i cc held ms g g' Hheld Hnd Hm Hel Hall) as Hall'.
  destruct r as [[t|]|e]; [| |done].
  - case_bool_decide as Ht; cbn [negb].
    + eapply gends_mono; [apply IH|]; [done| |by rewrite <- app_assoc| | | | |].
      * intros m' [?| ->%list_elem_of_singleton]%elem_of_app; auto.
      * apply (held_by_step (i, cc) (map fst held) _ g); [done|done|done|done| |].
        -- intros _. rewrite map_app. apply elem_of_app. right. by apply list_elem_of_singleton.
        -- intros j _ Hin. rewrite map_app. apply elem_of_app. by left.
      * apply Forall_app. split; [done|]. apply Forall_singleton. by apply (Hfile t).
      * destruct first as [f|]; [exact Hf|]. by intros f [= <-].
      * destruct first; split; try done; by destruct held.
      * intros [[t'|[l f]]|e] g2; [done| |done]. apply all_acquired_more.
    + apply gends_bind. eapply gends_mono.
      * apply gends_rollback; [done|]. apply (held_by_step (i, cc) (map fst held) _ g); [done|done|done|done| |done].
        intros H. destruct (Hacq H) as [Hold|(t' & [= <-] & ?)]; [|done]. by apply (proj2 Hg (i, cc) Hm).
      * intros [[]|e] g2 H2; [|done]. by apply gends_ret.
  - eapply gends_mono; [apply IH|]; try done.
    + apply NoDup_app in Hnd as (H1 & H2 & [_ H3]%NoDup_cons). apply NoDup_app. split_and!; [done| |done].
      intros m ? ?. by apply (H2 m); [|right].
    + apply (held_by_step (i, cc) (map fst held) _ g); [done|done|done|done| |done].
      intros H. destruct (Hacq H) as [Hold|(t' & ? & ?)]; [|done]. by apply (proj2 Hg (i, cc) Hm).
    + intros [[t'|[l f]]|e] g2; [done| |done]. apply all_acquired_skip. by apply Hskip.
Qed.
End Group.

(** Oracles that run no second call of the group. *)
Definition galone (o : oracle Group member_call) : Prop :=
  forall n B (q : member_call B) g, gstill g (snd (o n B q g)).

Lemma gends_run {A} o (c : G A) Q n g : galone o -> gends c Q g ->
  Q (fst (fst (run o c n g))) (snd (run o c n g)).
Proof.
  intros Ho H. destruct (run_sound gstill gquiet o c Ho _ n Called g g (H Called g)) as (? & ? & HQ). exact HQ.
Qed.

Lemma gends_group_acquire `{CJ : Canonical} `{TT : TakeoverText} coordinators plan commands g :
  held_by coordinators plan [] g ->
  gends (group_acquire_for_plan coordinators plan commands) (fun r g' =>
    match r with
    | Ok (Some t) =>
        (tk_status t <> CLS_ACQUIRED /\ held_by coordinators plan [] g') \/
        (tk_status t = CLS_ACQUIRED /\
         exists l f, od_get plan (gr_active g') = Some l /\ l <> [] /\
           all_acquired coordinators plan commands [] (members coordinators) l f g')
    | Ok None => all_acquired coordinators plan commands [] (members coordinators) [] None g'
    | Err _ => True
    end) g.
Proof.
  intros Hg. apply gends_bind. eapply gends_mono.
  { apply (gends_acquire_members coordinators plan); try done.
    - intros m ?%not_elem_of_nil. done.
    - apply members_nodup. }
  intros [[t|[l f]]|e] g1 H1; [| |done].
  - destruct H1 as [Ht H1]. apply gends_ret. by left.
  - pose proof H1 as (_ & _ & _ & Hf & Hnone). destruct l as [|i l].
    { apply gends_ret. by rewrite (proj1 Hnone eq_refl) in H1. }
    destruct f as [t|]; [|discriminate (proj2 Hnone eq_refl)].
    intros ev g0. simpl. right. split; [by apply Hf|]. exists (i :: l), (Some t). by rewrite od_get_set_eq.
Qed.

(** C15: a plan takes all the devices it needs or none.  On members in any
    state of their histories, none of which holds its device for the plan, an
    acquisition that runs alone and returns leaves an acquired lease only when
    every member that has a command of the plan holds its device for it, and
    then the members that hold theirs are exactly those recorded as active for
    the plan, so that its release reaches them; nothing to take over when no
    member has a command; and otherwise a refusal.  After those two no member
    holds its device for the plan. *)
Theorem takeover_all_or_nothing `{CJ : Canonical} `{TT : TakeoverText}
    coordinators plan commands o n g r n' g' :
  (forall i cc, coordinators !! i = Some cc -> history cc (gr_members g i)) ->
  (forall i cc t, coordinators !! i = Some cc ->
     od_get (key_of cc plan) (ct_results (gr_members g i)) = Some t -> tk_status t <> CLS_ACQUIRED) ->
  galone o ->
  run o (group_acquire_for_plan coordinators plan commands) n g = (Ok r, n', g') ->
  let held i cc := exists t, od_get (key_of cc plan) (ct_results (gr_members g' i)) = Some t /\ tk_status t = CLS_ACQUIRED in
  let none := forall i cc, coordinators !! i = Some cc -> ~ held i cc in
  match r with
  | Some t =>
      if bool_decide (tk_status t = CLS_ACQUIRED)
      then (forall i cc, coordinators !! i = Some cc -> relevant cc commands <> [] -> held i cc) /\
           exists l, od_get plan (gr_active g') = Some l /\ l <> [] /\
             forall i cc, coordinators !! i = Some cc -> held i cc <-> i ∈ l
      else none
  | None => none /\ forall i cc, coordinators !! i = Some cc -> relevant cc commands = []
  end.
Proof.
  intros Hhist Hnone Ho Hr held none.
  assert (held_by coordinators plan [] g) as Hg.
  { split.
    - intros m (i & cc & -> & Hi)%elem_of_lookup_imap_1. by apply history_ok, Hhist.
    - intros m (i & cc & -> & Hi)%elem_of_lookup_imap_1 (t & Ht & Ha). by destruct (Hnone i cc t Hi Ht). }
  assert (forall i cc, coordinators !! i = Some cc -> (i, cc) ∈ members coordinators) as Hmem
    by (intros i cc Hi; apply elem_of_lookup_imap; eauto).
  assert (held_by coordinators plan [] g' -> none) as Hno
    by (intros [_ H] i cc Hi Hh; by apply (not_elem_of_nil i), (H (i, cc) (Hmem _ _ Hi))).
  pose proof (gends_run o _ _ n g Ho (gends_group_acquire coordinators plan commands g Hg)) as H. rewrite Hr in H. simpl in H.
  destruct r as [t|].
  - destruct H as [[Ht H]|(Ht & l & f & Hl & Hne & (_ & H1) & H2 & H3 & _)].
    + rewrite bool_decide_eq_false_2 by done. by apply Hno.
    + rewrite bool_decide_eq_true_2 by done. split.
      * intros i cc Hi Hrel. apply (H2 (i, cc) (Hmem _ _ Hi)), (H3 (i, cc)). right. by split; [apply Hmem|].
      * exists l. split_and!; [done|done|]. intros i cc Hi. split; [apply (H1 (i, cc)), Hmem, Hi|apply (H2 (i, cc)), Hmem, Hi].
  - destruct H as (H1 & _ & H3 & _). split; [by apply Hno|]. intros i cc Hi.
    destruct (decide (relevant cc commands = [])) as [?|Hrel]; [done|].
    destruct (not_elem_of_nil i). apply (H3 (i, cc)). right. by split; [apply Hmem|].
Qed.

(** ** Two batteries *)

Definition cellar : Coordinator :=
  mkCoordinator battery_policy "battery.cellar" ["charge_battery"; "stop_battery"] "stop_battery" "kW"
    (Some (minutes 5)) (Some "power") (Some meter) (SpecFloat.S754_finite false 7205759403792794 (-57)) true true true.
Definition charge_both : list Command :=
  [charge "c1"; (charge "c2") <| cmd_device_id := "battery.cellar" |>].
Definition fresh_group : Group :=
  mkGroup (fun i => snd (run good_adapter (reconcile_startup (if bool_decide (i = 0%nat) then battery else cellar)) 0
                           (new_control (if bool_decide (i = 0%nat) then battery else cellar) (minutes 1) empty_store))) [].

(** The first battery answers well, the second one answers [second]. *)
Definition two_adapters (second : result exn TakeoverResult) : oracle Group member_call := fun n B q g =>
  (match q in member_call B return result exn B with
   | Member i q =>
       match q in adapter_call B return result exn B with
       | acquire_control r => if bool_decide (i = 0%nat) then Ok (battery_lease (cr_plan_id r) (cr_first_command_id r) (minutes 1) (minutes 6)) else second
       | renew_control t => Ok (Some t)
       | adapter_execute _ _ => Ok true
       | adapter_read_state _ => Ok [power_reading 0 (minutes 1)]
       end
   end, g).

Lemma two_adapters_alone second : galone (two_adapters second).
Proof. intros n B q g. by destruct q. Qed.

Definition refused_takeover : TakeoverResult :=
  (battery_lease "a" "c2" (minutes 1) (minutes 6)) <| tk_device_id := "battery.cellar" |>
    <| tk_status := CLS_REJECTED |> <| tk_failure_code := Some "busy" |>.

Lemma fresh_group_history i cc : [battery; cellar] !! i = Some cc -> history cc (gr_members fresh_group i).
Proof.
  assert (forall cc, snd (run good_adapter (reconcile_startup cc) 0 (new_control cc (minutes 1) empty_store))
    = snd (run good_adapter (control cc K_reconcile) 0 (new_control cc (minutes 1) empty_store)) ->
    history cc (snd (run good_adapter (reconcile_startup cc) 0 (new_control cc (minutes 1) empty_store)))) as H.
  { intros c ->. apply history_call; [apply history_new|apply good_adapter_alone]. }
  destruct i as [|[|i]]; simpl; [intros [= <-]|intros [= <-]|done]; apply H; by vm_compute.
Qed.

Lemma takeover_all_or_nothing_witness :
  let o := two_adapters (Ok refused_takeover) in
  exists r n' g',
    run o (group_acquire_for_plan [battery; cellar] "a" charge_both) 0 fresh_group = (Ok (Some r), n', g') /\
    tk_status r = CLS_REJECTED /\
    forall i cc, [battery; cellar] !! i = Some cc ->
      ~ exists t, od_get (key_of cc "a") (ct_results (gr_members g' i)) = Some t /\ tk_status t = CLS_ACQUIRED.
Proof.
  intros o. eexists _, _, _.
  assert (run o (group_acquire_for_plan [battery; cellar] "a" charge_both) 0 fresh_group = (Ok (Some _), _, _)) as E
    by reflexivity.
  split; [exact E|]. split; [reflexivity|].
  refine (takeover_all_or_nothing [battery; cellar] "a" charge_both o 0 fresh_group _ _ _
    fresh_group_history _ (two_adapters_alone _) E).
  intros [|[|i]] cc t; simpl; [intros [= <-]|intros [= <-]|done]; by intros ?.
Defined.

(** A cancellation while the second member is asked leaves the first lease
    held, and the release of the plan does not reach it. *)
Example cancelled_takeover_stays_held :
  let o := two_adapters (Err CancelledError) in
  let '(r, n, g) := run o (group_acquire_for_plan [battery; cellar] "a" charge_both) 0 fresh_group in
  r = Err CancelledError /\
  (tk_status <$> od_get (key_of battery "a") (ct_results (gr_members g 0))) = Some CLS_ACQUIRED /\
  let '(r', _, g') := run o (group_release_for_plan [battery; cellar] "a" "attempt") n g in
  r' = Ok true /\ (tk_status <$> od_get (key_of battery "a") (ct_results (gr_members g' 0))) = Some CLS_ACQUIRED.
Proof. by vm_compute. Qed.

(** ** A vehicle's charger *)

#[local] Arguments timedelta_seconds : simpl never.
#[local] Arguments validate_takeover : simpl never.
#[local] Arguments validate_baseline : simpl never.

(** The adapter of a charger grants a lease only on a live reading of the
    charger's own route that is current, numeric and fresh when it arrives;
    the lease is the request's and starts then. *)
Lemma ev_lease_needs_reading `{CJ : Canonical} `{TT : TakeoverText} ea q o n s t n' s' :
  run o (ev_acquire_control ea q) n s = (Ok t, n', s') -> tk_status t = CLS_ACQUIRED ->
  exists ref l snapshot v s1 d,
    ev_source_ref ea = Some ref /\
    o n _ (adapter_read_state [ref]) s = (Ok l, s1) /\
    List.find (on_route (ev_feedback_capability ea) ref) l = Some snapshot /\
    is_current snapshot = true /\ ss_value snapshot ≫= numeric = Some v /\
    0 <= ct_now s1 - ss_received_at snapshot <= ev_stale_after ea /\
    timedelta_seconds (NFloat (cr_lease_seconds q)) = Ok d /\
    tk_acquired_at t = ct_now s1 /\ tk_expires_at t = ct_now s1 + d /\
    tk_owner t = cr_owner q /\ tk_device_id t = cr_device_id q /\ tk_plan_id t = cr_plan_id q.
Proof.
  assert (forall now code n s, run o (ev_rejected q now code) n s = (Ok t, n', s') -> tk_status t <> CLS_ACQUIRED) as Hrej.
  { intros now code n1 s1. unfold ev_rejected. simpl. destruct (timedelta_seconds (NFloat (cr_lease_seconds q))) as [d|e]; simpl; [|done].
    match goal with |- context [of_result ?r] => destruct r as [[]|e] end; simpl; [|done]. by intros [= <- _ _]. }
  unfold ev_acquire_control. simpl. intros Hr Ha.
  destruct (ev_source_ref ea) as [ref|]; [|by apply Hrej in Hr].
  destruct (ev_reads ea); cbn [negb] in Hr; [|by apply Hrej in Hr].
  simpl in Hr. destruct (o n _ (adapter_read_state [ref]) s) as [[l|e] s1] eqn:Eo; simpl in Hr;
    [|by destruct (is_exception e); [apply Hrej in Hr|]].
  destruct (List.find _ l) as [snapshot|] eqn:Ef; simpl in Hr; [|by apply Hrej in Hr].
  destruct (fresh_numeric ea (ct_now s1) snapshot) as [v|] eqn:Ev; simpl in Hr; [|by apply Hrej in Hr].
  unfold fresh_numeric in Ev. destruct (is_current snapshot) eqn:Ec; cbn [andb] in Ev; [|done].
  destruct (0 <=? ct_now s1 - ss_received_at snapshot) eqn:E1; [|done].
  destruct (ct_now s1 - ss_received_at snapshot <=? ev_stale_after ea) eqn:E2; [|done]. simpl in Ev.
  unfold ev_lease in Hr. destruct (py_float v) as [f|]; simpl in Hr; [|done].
  match type of Hr with context [validate_baseline ?b] => destruct (validate_baseline b) as [[]|] end; simpl in Hr; [|done].
  destruct (timedelta_seconds (NFloat (cr_lease_seconds q))) as [d|]; simpl in Hr; [|done].
  match type of Hr with context [validate_takeover ?b] => destruct (validate_takeover b) as [[]|] end; simpl in Hr; [|done]. injection Hr as <- <- <-.
  apply Z.leb_le in E1, E2. exists ref, l, snapshot, v, s1, d. by split_and!.
Qed.
