(* ===== verification/Runtime.v ===== *)
(** * The world of an execution (application/executor.py)

    An execution runs between awaits, and at every await the other tasks and
    hosts may change what is shared: the clock, the inventory, the state store,
    the leases, the two durable ledgers, the request to cancel.  [Environment]
    says what they do and what the adapter, the queue, the takeover port and
    the databases answer at the [n]-th await; nothing is assumed of it.  The
    [World] is the shared state, the local state of one [_ExecutionAttempt]
    and the trace of what the execution saw and did. *)

From S2P Require Import Prelude.
From S2P Require Import Values.
From S2P Require Import Models.
From S2P Require Import Safety.
From S2P Require Import StateStore.
From S2P Require Import Digests.
From S2P Require Import PlanService.
From S2P Require Import Coordination.
From S2P Require Import DynamicSafety.
From S2P Require Import Admission.
From S2P Require Import Intents.
From S2P Require Import PlanRecords.
From S2P Require Import Ports.

(** ** Configuration: which ports an executor was built with *)

Class PlanExecutor := mkPlanExecutor {
  ex_plan_repository : bool;
  ex_outcome_repository : bool;
  ex_snapshot_repository : bool;
  ex_max_age : timedelta;
  ex_safety_kernel : option SafetyKernel;
  ex_control_takeover : bool;
  ex_execution_admission : bool;
  ex_dynamic_safety_guard : option DynamicSafetyGuard;
  ex_fencing_guard : bool;
  ex_physical_intents : bool;
  ex_work_queues : bool;
  ex_principal : string
}.

Section Runtime.
Context {I R : Type}.

(** ** Shared state *)

Record Shared := mkShared {
  sh_now : datetime;
  sh_plan_service : PlanService;
  sh_admission : ExecutionAdmission;
  sh_issued : issued_capabilities;
  sh_guard : FencingGuard;
  sh_leases : LeaseCoordinator;
  sh_intents : I;
  sh_records : R;
  sh_cancel_requested : bool
}.
#[global] Instance Shared_eta : Eta Shared := fun r =>
  mkShared (sh_now r) (sh_plan_service r) (sh_admission r) (sh_issued r) (sh_guard r)
    (sh_leases r) (sh_intents r) (sh_records r) (sh_cancel_requested r).

Definition with_store (s : PlanService) (st : StateStore) : PlanService :=
  mkPlanService (ps_registry s) st (ps_policy_engine s) (ps_authorized_actuator_commands s)
    (ps_deployment_id s).

(** What an execution saw and did, in order. *)
Inductive event :=
  | E_saw (sh : Shared)
  | E_write (c : Command) (context : ExecutionContext)
  | E_answer (answer : result exn AdapterExecutionAck)
  | E_read (ref : SourceRef) (answer : result exn (list StateSnapshot))
  | E_readback (s : StateSnapshot)
  | E_claim (i : PhysicalIntent) (answer : PhysicalIntentClaim)
  | E_stop
  | E_release
  | E_settle (p : Plan)
  | E_mark_unknown (id : string).

(** ** The world *)

(** [_ExecutionAttempt] (the request to cancel is shared), the two intents the
    dispatch of a command binds, and [dispatch_state_versions]. *)
Record Attempt := mkAttempt {
  at_claimed : bool;
  at_execution_lease : option PlanExecutionLease;
  at_dispatching : bool;
  at_sent_any : bool;
  at_physical_intent : option PhysicalIntent;
  at_replay_intent : option PhysicalIntent;
  at_state_versions : gmap string Z
}.
#[global] Instance Attempt_eta : Eta Attempt := fun r =>
  mkAttempt (at_claimed r) (at_execution_lease r) (at_dispatching r) (at_sent_any r)
    (at_physical_intent r) (at_replay_intent r) (at_state_versions r).

Record World := mkWorld {
  w_shared : Shared;
  w_tick : nat;
  w_trace : list event;
  w_attempt : Attempt
}.
#[global] Instance World_eta : Eta World := fun r =>
  mkWorld (w_shared r) (w_tick r) (w_trace r) (w_attempt r).

Definition new_attempt : Attempt := mkAttempt false None false false None None ∅.
Definition new_world (sh : Shared) (tick : nat) : World :=
  mkWorld sh tick [E_saw sh] new_attempt.

(** The queue runs the work, refuses it, or runs it while its submitter is
    cancelled. *)
Inductive queue_answer := Q_run | Q_refuse (e : exn) | Q_interrupt.

Class Environment := mkEnvironment {
  env_step : nat -> Shared -> Shared;
  env_sleep : nat -> num -> Shared -> Shared;
  env_uuid : nat -> string;
  env_execute : nat -> Command -> ExecutionContext -> result exn AdapterExecutionAck;
  env_read_state : nat -> SourceRef -> result exn (list StateSnapshot);
  env_persist : nat -> PersistOutcome;
  env_database : nat -> result exn unit;
  env_submit : nat -> queue_answer;
  env_takeover : nat -> result exn (option TakeoverResult);
  env_still_owned : nat -> result exn bool;
  env_emergency_stop : nat -> result exn bool;
  env_release : nat -> result exn bool;
  (** not of the others, but of Python: the order of a set, the parser of
      timestamps; and how many polls of a readback are followed *)
  env_set_order : list key -> list key;
  env_fromisoformat : string -> option (datetime * bool);
  env_fuel : nat
}.

Abbreviation M := (stm World exn).

(** ** Primitive steps *)

Definition shared : M Shared := fun w => (Ok (w_shared w), w).
Definition attempt : M Attempt := fun w => (Ok (w_attempt w), w).
Definition local (f : Attempt -> Attempt) : M unit :=
  modify (fun w => w <| w_attempt := f (w_attempt w) |>).
Definition emit (e : event) : M unit := modify (fun w => w <| w_trace := w_trace w ++ [e] |>).
Definition fresh (uuid : nat -> string) : M string := fun w =>
  (Ok (uuid (w_tick w)), w <| w_tick := S (w_tick w) |>).

(** [state_version_overrides[...] = v] for a reading this execution stored. *)
Definition record_version (s : StateSnapshot) (v : Z) : M unit :=
  modify (fun w =>
    w <| w_trace := w_trace w ++ [E_readback s] |>
      <| w_attempt := (w_attempt w) <| at_state_versions :=
           <[dep_key (ss_device_id s) (ss_capability s) := v]> (at_state_versions (w_attempt w)) |> |>).

(** The shared state became [sh]. *)
Definition see (sh : Shared) (w : World) : World :=
  w <| w_shared := sh |> <| w_trace := w_trace w ++ [E_saw sh] |>.

(** [await port(...)]: the others run first, then the answer is there. *)
Definition await_with {A} (step : nat -> Shared -> Shared) (answer : nat -> A) : M A := fun w =>
  let n := w_tick w in
  (Ok (answer n), see (step n (w_shared w)) (w <| w_tick := S n |>)).

(** [try: m], as a value. *)
Definition try_ {A} (m : M A) : M (result exn A) := fun w =>
  let '(r, w') := m w in (Ok r, w').

(** A call of a component that lives in the shared state. *)
Definition on_store (m : stm StateStore exn unit) : M unit := fun w =>
  let s := sh_plan_service (w_shared w) in
  let '(r, st) := m (ps_state_store s) in
  (r, see ((w_shared w) <| sh_plan_service := with_store s st |>) w).
Definition on_issued {A} (m : Shared -> stm issued_capabilities exn A) : M A := fun w =>
  let '(r, issued) := m (w_shared w) (sh_issued (w_shared w)) in
  (r, see ((w_shared w) <| sh_issued := issued |>) w).
Definition on_intents {A} (m : stm I exn A) : M A := fun w =>
  let '(r, i) := m (sh_intents (w_shared w)) in
  (r, see ((w_shared w) <| sh_intents := i |>) w).
Definition on_records {A} (m : stm R exn A) : M A := fun w =>
  let '(r, t) := m (sh_records (w_shared w)) in
  (r, see ((w_shared w) <| sh_records := t |>) w).

Section Steps.
Context `{env : Environment}.

Definition await {A} (answer : nat -> A) : M A := await_with env_step answer.
Definition await_result {A} (answer : nat -> result exn A) : M A := await answer ≫= lift.
(** A database call: it fails without an effect, or it is [m]. *)
Definition database {A} (m : M A) : M A := await_result env_database ≫= fun _ => m.
Definition sleep (d : num) : M unit := await_with (fun n => env_sleep n d) (fun _ => tt).
End Steps.

(** ** Relations every step keeps *)

Section Keeps.
Context (Rel : World -> World -> Prop) `{!PreOrder Rel}.

Definition keeps {A} (m : M A) : Prop := forall w, Rel w (snd (m w)).

Lemma keeps_ret {A} (a : A) : keeps (mret a).
Proof using Type*. intros w. reflexivity. Qed.
Lemma keeps_lift {A} (r : result exn A) : keeps (lift r).
Proof using Type*. intros w. reflexivity. Qed.
Lemma keeps_raise {A} e : keeps (raise e : M A).
Proof using Type*. intros w. reflexivity. Qed.
Lemma keeps_shared : keeps shared.
Proof using Type*. intros w. reflexivity. Qed.
Lemma keeps_attempt : keeps attempt.
Proof using Type*. intros w. reflexivity. Qed.

Lemma keeps_bind {A B} (m : M A) (f : A -> M B) :
  keeps m -> (forall a, keeps (f a)) -> keeps (m ≫= f).
Proof using Type*.
  intros Hm Hf w. unfold mbind, stm_bind. specialize (Hm w). destruct (m w) as [[a|e] w']; [|done].
  etransitivity; [exact Hm|]. apply Hf.
Qed.

Lemma keeps_try {A} (m : M A) : keeps m -> keeps (try_ m).
Proof. intros Hm w. specialize (Hm w). unfold try_. by destruct (m w). Qed.

Lemma keeps_try_catch {A} (m : M A) (h : exn -> M A) :
  keeps m -> (forall e, keeps (h e)) -> keeps (try_catch m h).
Proof using Type*.
  intros Hm Hh w. unfold try_catch. specialize (Hm w). destruct (m w) as [[a|e] w']; [done|].
  etransitivity; [exact Hm|]. apply Hh.
Qed.
End Keeps.
End Runtime.

Arguments Shared : clear implicits.
Arguments World : clear implicits.
Arguments Environment : clear implicits.
Arguments event : clear implicits.
