(* ===== verification/Executor.v ===== *)
(** * Plan execution (application/executor.py)

    [execute_impl] is one execution of a plan in the world of [Runtime.v]:
    admission, the durable claim, the preflight, the takeover, the dispatch of
    each command with its rechecks immediately before the write, the readback
    and the reconciliation, and the settlement.  [execute_owned] closes what an
    exception leaves open.  The audit log and the metrics are output and left
    out; [env_fuel] bounds the polls of one readback. *)

From S2P Require Import Prelude.
From S2P Require Import Values.
From S2P Require Import Models.
From S2P Require Import Safety.
From S2P Require Import StateStore.
From S2P Require Import Registry.
From S2P Require Import Digests.
From S2P Require Import ApprovalStore.
From S2P Require Import PlanService.
From S2P Require Import Coordination.
From S2P Require Import DynamicSafety.
From S2P Require Import Admission.
From S2P Require Import Preflight.
From S2P Require Import Intents.
From S2P Require Import PlanRecords.
From S2P Require Import Ports.
From S2P Require Import Runtime.

Definition is_os_error (e : exn) : bool := match e with OSError _ => true | _ => false end.
Definition exn_message (e : exn) : message :=
  match e with
  | OSError m => msg m
  | DomainError d => er_message d
  | FencingViolation m => msg m
  | _ => msg ""
  end.
Definition cancelled_before_dispatch : exn :=
  domain_error INVALID_TRANSITION "Execution cancelled before dispatch".

Section Executor.
Context `{CJ : Canonical} {I R : Type} `{!PhysicalIntentPort I} `{!PlanRecordPort R}.
Context {ex : PlanExecutor} {env : Environment I R}.

Abbreviation M := (stm (World I R) exn).

Definition now : M datetime := sh ← shared; mret (sh_now sh).
Definition service : M PlanService := sh ← shared; mret (sh_plan_service sh).

(** ** Readback *)

(** [_persist_snapshot] *)
Definition persist_snapshot (s : StateSnapshot) : M unit :=
  io ← await (env_persist);
  r ← try_ (
    on_store (save env_set_order io s) ≫= fun _ =>
    ps ← service;
    record_version s (state_version (ps_state_store ps) (ss_device_id s) (ss_capability s))
      ≫= fun _ =>
    if negb (st_persistence_bound (ps_state_store ps)) && ex_snapshot_repository
    then database (mret tt) else mret tt);
  match r with
  | Ok _ => mret tt
  | Err CancelledError => raise CancelledError
  | Err _ => raise ReadbackPersistenceError
  end.

Definition read_state (ref : SourceRef) : M (list StateSnapshot) :=
  answer ← await (fun n => env_read_state n ref);
  emit (E_read ref answer) ≫= fun _ => lift answer.

(** The readings of a source are searched for the one of this capability. *)
Definition matching (capability : string) (ref : SourceRef) (item : StateSnapshot) : bool :=
  String.eqb (ss_capability item) capability &&
  String.eqb (sr_adapter_id (ss_source_ref item)) (sr_adapter_id ref) &&
  String.eqb (sr_external_id (ss_source_ref item)) (sr_external_id ref).

Definition readback_route (s : PlanService) (c : Command) (feedback : string)
    : option CapabilityRoute :=
  match cmd_postconditions c with
  | [] => rr_route (resolve_command_route (ps_registry s) (cmd_device_id c) (cmd_command c))
  | _ =>
      match List.filter (fun r => rt_available r && rt_readable r)
              (routes_for (ps_registry s) (cmd_device_id c) feedback) with
      | [route] => Some route
      | _ => None
      end
  end.

(** The capability a command is confirmed by. *)
Definition feedback_capability (c : Command) (capability_name : option string) : option string :=
  match cmd_postconditions c with p :: _ => Some (post_capability p) | [] => capability_name end.

(** [_readback] *)
Definition readback (c : Command) (capability_name : option string) : M (option StateSnapshot) :=
  match feedback_capability c capability_name with
  | None => mret None
  | Some feedback =>
      s ← service;
      match get_device (ps_registry s) (cmd_device_id c), readback_route s c feedback with
      | Some _, Some route =>
          snapshots ← read_state (rt_source_ref route);
          match find_first (matching feedback (rt_source_ref route)) snapshots with
          | None => mret None
          | Some snapshot =>
              let normalized := snapshot <| ss_device_id := cmd_device_id c |> in
              persist_snapshot normalized ≫= fun _ => mret (Some normalized)
          end
      | _, _ => mret None
      end
  end.

Abbreviation settled := (option StateSnapshot * option exn)%type.

(** After a poll that did not confirm: give up, or sleep and poll again. *)
Definition poll_again (next : M settled) (timeout : option f64) (interval : f64)
    (deadline : datetime) (latest : option StateSnapshot) (error : option exn) : M settled :=
  t ← now;
  if match timeout with None => true | Some x => num_le (NFloat x) (NInt 0) end ||
     (deadline <=? t)
  then mret (latest, error)
  else
    sleep (num_min (NFloat interval) (NFloat (total_seconds (deadline - t)))) ≫= fun _ => next.

(** The [while True] of [_readback_until_settled]. *)
Fixpoint poll (fuel : nat) (c : Command) (name : option string) (before : option StateSnapshot)
    (timeout : option f64) (interval : f64) (deadline : datetime) (latest : option StateSnapshot)
    : M settled :=
  match fuel with
  | O => raise OutOfFuel
  | S fuel =>
      let again latest :=
        poll_again (poll fuel c name before timeout interval deadline latest)
          timeout interval deadline latest in
      r ← try_ (readback c name);
      match r with
      | Err e =>
          if is_os_error e || bool_decide (e = ReadbackPersistenceError)
          then again latest (Some e) else raise e
      | Ok current =>
          let latest := match current with Some s => Some s | None => latest end in
          confirmed ← lift (postcondition_matches c name current before);
          if confirmed : bool then mret (current, None) else again latest None
      end
  end.

(** [_readback_until_settled], with the polls it follows. *)
Definition readback_with (fuel : nat) (c : Command) (name : option string)
    (before : option StateSnapshot) : M settled :=
  let p := List.head (cmd_postconditions c) in
  let timeout := p ≫= post_settle_timeout_seconds in
  let interval := match p with
                  | Some p => post_poll_interval_seconds p
                  | None => SpecFloat.S754_zero false end in
  t ← now;
  d ← lift (timedelta_seconds (NFloat (default (SpecFloat.S754_zero false) timeout)));
  poll fuel c name before timeout interval (t + d) None.
Definition readback_until_settled : Command -> option string -> option StateSnapshot -> M settled :=
  readback_with env_fuel.

(** ** Reconciliation *)

Definition reconciliation_error (m : string) (c : Command) (capability reason : string)
    : ErrorDetail :=
  mkErrorDetail POST_WRITE_RECONCILIATION_FAILED (msg m) None (Some (cmd_device_id c))
    (Some capability) true [("reason", JStr reason)].

(** One iteration of [_reconcile_post_write]. *)
Definition reconcile_one (c : Command) (capability : string) : M (option ErrorDetail) :=
  s ← service;
  match List.filter (fun r => rt_available r && rt_readable r)
          (routes_for (ps_registry s) (cmd_device_id c) capability) with
  | [route] =>
      r ← try_ (
        snapshots ← read_state (rt_source_ref route);
        match find_first (matching capability (rt_source_ref route)) snapshots with
        | None => mret (Some (reconciliation_error
            "Post-write reconciliation returned no observation" c capability "observation_missing"))
        | Some snapshot =>
            let normalized := snapshot <| ss_device_id := cmd_device_id c |> in
            persist_snapshot normalized ≫= fun _ =>
            mret (if negb (bool_decide (ss_status normalized = CURRENT))
                  then Some (reconciliation_error
                    "Post-write reconciliation observation is not current" c capability
                    (StateStatus_value (ss_status normalized)))
                  else None)
        end);
      match r with
      | Ok error => mret error
      | Err ReadbackPersistenceError => mret (Some (reconciliation_error
          "Post-write reconciliation could not be persisted" c capability "persistence_failed"))
      | Err (OSError _) => mret (Some (reconciliation_error
          "Post-write reconciliation read was unavailable" c capability "read_unavailable"))
      | Err e => raise e
      end
  | _ => mret (Some (reconciliation_error
      "Post-write reconciliation route is not uniquely available" c capability
      "route_unavailable_or_ambiguous"))
  end.

Fixpoint reconcile_all (c : Command) (l : list string) : M (option ErrorDetail) :=
  match l with
  | [] => mret None
  | capability :: l =>
      error ← reconcile_one c capability;
      match error with
      | Some e => mret (Some e)
      | None => reconcile_all c l
      end
  end.

(** [_reconcile_post_write] *)
Definition reconcile_post_write (c : Command) : M (option ErrorDetail) :=
  match cmd_postconditions c with
  | [] => mret None
  | p :: _ => reconcile_all c (post_reconcile_capabilities p)
  end.

(** ** Outcomes *)

(** [ExecutionOutcome(...)] with the clock's [completed_at]. *)
Definition outcome (p : Plan) (attempt_id : string) (command_id : string)
    (request : option string) (status : ExecutionStatus) (ref : option SourceRef)
    (before after : option StateSnapshot) (error : option ErrorDetail) : M ExecutionOutcome :=
  t ← now;
  mret (mkExecutionOutcome (pl_authority p) (pl_id p) command_id attempt_id request status ref
          before after error t).

Definition rejected (p : Plan) (attempt_id : string) (c : Command) (request : option string)
    (before : option StateSnapshot) (error : ErrorDetail) : M ExecutionOutcome :=
  outcome p attempt_id (cmd_id c) request ES_REJECTED None before None (Some error).

Definition save_outcome : M unit := if ex_outcome_repository then database (mret tt) else mret tt.

(** ** Dispatch of one command *)

Record DispatchContext := mkDispatchContext {
  dc_plan : Plan;
  dc_admission : option AdmissionDecision;
  dc_attempt_id : string;
  dc_takeover_first : option string
}.

Definition preconditions_failing (p : Plan) (index : nat) (sh : Shared I R) (c : Command)
    : list PreconditionFailure :=
  failed_preconditions (ex_max_age) (sh_plan_service sh) (sh_now sh) ∅
    (policy_decision_at p index) c.

Definition dynamic_check (sh : Shared I R) (c : Command) : result exn (option ErrorDetail) :=
  match ex_dynamic_safety_guard with
  | None => Ok None
  | Some g =>
      check_dynamic env_fromisoformat g (ps_state_store (sh_plan_service sh)) (sh_now sh) c
  end.

(** The static limits, then the dynamic guard. *)
Definition safety_check (sh : Shared I R) (c : Command) (capability : option Capability)
    : result exn (option ErrorDetail) :=
  match safety_violation (ex_safety_kernel) (sh_plan_service sh) c capability with
  | Some e => Ok (Some e)
  | None => dynamic_check sh c
  end.

(** The proof of ownership at the moment of the call. *)
Definition fencing_check (authority : AuthorityContext) : M (option FencingToken) :=
  if ex_fencing_guard then
    await (fun _ => tt) ≫= fun _ =>
    sh ← shared;
    t ← lift (assert_writable_for_authority (sh_now sh) (sh_leases sh) (sh_guard sh) authority);
    mret (Some t)
  else mret None.

Definition dispatch_context (d : DispatchContext) (request : string) (token : option FencingToken)
    : ExecutionContext :=
  mkExecutionContext (pl_id (dc_plan d)) (dc_attempt_id d) request
    (pl_agent_request_id (dc_plan d)) (ex_principal) (ft_scope <$> token) (ft_epoch <$> token)
    (ft_lease_id <$> token).

Definition intent_of (d : DispatchContext) (c : Command) (t : FencingToken) (at_ : datetime)
    : PhysicalIntent :=
  mkPhysicalIntent (au_tenant_id (pl_authority (dc_plan d)))
    (au_household_id (pl_authority (dc_plan d))) (ls_deployment_id (ft_scope t))
    (cmd_idempotency_key c) (pl_id (dc_plan d)) (cmd_id c) (ft_epoch t) PI_PREPARED
    (Some (ft_owner_id t)) (Some (dc_attempt_id d)) (Some (ft_lease_id t)) at_ at_.

Definition claim_intent (d : DispatchContext) (c : Command) (token : option FencingToken) : M unit :=
  if ex_physical_intents then
    match token with
    | None => raise (FencingViolation "physical intent ledger requires a current fencing token")
    | Some t =>
        at_ ← now;
        lift (validate_intent (intent_of d c t at_)) ≫= fun _ =>
        claim ← database (on_intents (port_claim (intent_of d c t at_)));
        emit (E_claim (intent_of d c t at_) claim) ≫= fun _ =>
        match cl_decision claim with
        | CL_CONFLICT => raise PhysicalIntentConflict
        | CL_IN_FLIGHT => raise PhysicalIntentUnknown
        | CL_REPLAY => local (fun a => a <| at_replay_intent := Some (cl_intent claim) |>)
        | CL_ACQUIRED => local (fun a => a <| at_physical_intent := Some (cl_intent claim) |>)
        end
    end
  else mret tt.

(** Everything [dispatch] rechecks before it may write: the plan, its admission,
    the command's preconditions and limits, and the lease. *)
Definition recheck_plan (d : DispatchContext) (index : nat) (c : Command)
    (capability : option Capability) : M (option FencingToken) :=
  let p := dc_plan d in
  sh ← shared;
  a ← attempt;
  lift (raise_if (sh_cancel_requested sh) cancelled_before_dispatch) ≫= fun _ =>
  lift (assert_executable (sh_plan_service sh) (sh_now sh) p (Some (at_state_versions a)))
    ≫= fun _ =>
  match dc_admission d with
  | Some admission =>
      await (fun _ => tt) ≫= fun _ =>
      on_issued (fun sh => revalidate (sh_admission sh) (sh_now sh) p admission)
  | None => mret tt
  end ≫= fun _ =>
  sh ← shared;
  lift (raise_if (bool_decide (List.length (preconditions_failing p index sh c) <> 0%nat))
    (domain_error PRECONDITION_FAILED "Preconditions changed while awaiting dispatch")) ≫= fun _ =>
  error ← lift (safety_check sh c capability);
  lift (match error with
        | Some e => Err (DomainError (error_detail (er_code e) (er_message e)))
        | None => Ok tt end) ≫= fun _ =>
  fencing_check (pl_authority p).

Definition check_ownership (d : DispatchContext) : M unit :=
  match dc_takeover_first d with
  | Some _ =>
      owned ← await_result env_still_owned;
      lift (raise_if (negb owned) ControlLeaseExpired)
  | None => mret tt
  end.

Definition recheck (d : DispatchContext) (index : nat) (c : Command)
    (capability : option Capability) (request : string) : M ExecutionContext :=
  token ← recheck_plan d index c capability;
  let context := dispatch_context d request token in
  lift (validate_context context) ≫= fun _ =>
  claim_intent d c token ≫= fun _ =>
  check_ownership d ≫= fun _ =>
  mret context.

(** The write itself, or the answer of an earlier one. *)
Definition transmit (c : Command) (context : ExecutionContext) : M AdapterExecutionAck :=
  a ← attempt;
  let replayed := pi_status <$> at_replay_intent a in
  if bool_decide (replayed ∈ [Some PI_ACKNOWLEDGED; Some PI_CONFIRMED]) then
    local (fun a => a <| at_sent_any := true |> <| at_dispatching := true |>) ≫= fun _ =>
    mret (mkAck true None (Some "physical intent replay served from durable ledger"))
  else if bool_decide (replayed = Some PI_REJECTED) then
    mret (mkAck false None (Some "physical intent was already rejected"))
  else
    sh ← shared;
    lift (raise_if (sh_cancel_requested sh) cancelled_before_dispatch) ≫= fun _ =>
    local (fun a => a <| at_dispatching := true |> <| at_sent_any := true |>) ≫= fun _ =>
    emit (E_write c context) ≫= fun _ =>
    answer ← await (fun n => env_execute n c context);
    emit (E_answer answer) ≫= fun _ => lift answer.

Definition dispatch (d : DispatchContext) (index : nat) (c : Command)
    (capability : option Capability) (request : string) : M AdapterExecutionAck :=
  context ← recheck d index c capability request;
  transmit c context.

(** [household_work_queues.submit(...)] *)
Definition submit (household : string) (work : M AdapterExecutionAck) : M AdapterExecutionAck :=
  if ex_work_queues then
    lift (raise_if (is_blank household) (ValueError "household_id must be non-empty")) ≫= fun _ =>
    answer ← await (env_submit);
    match answer with
    | Q_run => work
    | Q_refuse e => raise e
    | Q_interrupt => try_ work ≫= fun _ => raise CancelledError
    end
  else work.

Definition settle_intent (status : PhysicalIntentStatus) : M unit :=
  a ← attempt;
  match at_physical_intent a with
  | None => mret tt
  | Some i => t ← now; database (on_intents (port_settle t i status)) ≫= fun _ => mret tt
  end.

(** ** From the answer of the adapter to an outcome *)

Abbreviation judgement := (ExecutionStatus * option StateSnapshot * option ErrorDetail)%type.

Definition readback_failure (c : Command) (name : option string) (e : exn) : ErrorDetail :=
  match e with
  | ReadbackPersistenceError =>
      mkErrorDetail POST_WRITE_RECONCILIATION_FAILED (msg "Physical readback could not be persisted")
        None None (feedback_capability c name) true [("reason", JStr "persistence_failed")]
  | _ => mkErrorDetail ADAPTER_UNAVAILABLE (exn_message e) None None None true []
  end.

(** What is known after the adapter answered. *)
Definition judge (c : Command) (name : option string) (before : option StateSnapshot)
    (ack : AdapterExecutionAck) : M judgement :=
  if ack_accepted ack then
    '(after, error) ← readback_until_settled c name before;
    match error with
    | Some e => mret (ES_UNKNOWN, after, Some (readback_failure c name e))
    | None =>
        confirmed ← lift (postcondition_matches c name after before);
        if confirmed : bool then
          error ← reconcile_post_write c;
          mret (match error with
                | Some e => (ES_UNKNOWN, after, Some e)
                | None => (ES_CONFIRMED_SUCCESS, after, None) end)
        else mret (ES_UNKNOWN, after, Some (mkErrorDetail EXECUTION_FAILED
          (msg "Adapter accepted the command but postcondition was not confirmed")
          None None None true []))
    end
  else
    let m := default "" (ack_message ack) in
    mret (ES_REJECTED, None, Some (mkErrorDetail EXECUTION_FAILED
      (msg (if is_empty m then "Adapter rejected command" else m)) None None None false [])).

(** What follows the answer. *)
Definition acknowledged (d : DispatchContext) (c : Command) (name : option string)
    (before : option StateSnapshot) (request : string) (ack : AdapterExecutionAck)
    : M ExecutionOutcome :=
  settle_intent (if ack_accepted ack then PI_ACKNOWLEDGED else PI_REJECTED) ≫= fun _ =>
  '(status, after, error) ← judge c name before ack;
  outcome (dc_plan d) (dc_attempt_id d) (cmd_id c) (Some request) status (ack_source_ref ack)
    before after error.

(** The body of the [try]. *)
Definition attempt_command (d : DispatchContext) (index : nat) (c : Command)
    (capability : option Capability) (before : option StateSnapshot) (request : string)
    : M ExecutionOutcome :=
  ack ← submit (au_household_id (pl_authority (dc_plan d))) (dispatch d index c capability request);
  acknowledged d c (cap_name <$> capability) before request ack.

(** The [except] clauses. *)
Definition on_exception (d : DispatchContext) (c : Command) (before : option StateSnapshot)
    (request : string) (e : exn) : M ExecutionOutcome :=
  let p := dc_plan d in
  let reject request code m retryable details :=
    rejected p (dc_attempt_id d) c request before
      (mkErrorDetail code m None None None retryable details) in
  a ← attempt;
  match e with
  | DomainError detail =>
      if at_dispatching a then raise e
      else reject None (er_code detail) (er_message detail) false []
  | CancelledError | QueueClosed =>
      if at_dispatching a then raise e
      else reject None INVALID_TRANSITION (msg "Execution cancelled before dispatch") false []
  | PhysicalIntentUnknown =>
      outcome p (dc_attempt_id d) (cmd_id c) (Some request) ES_UNKNOWN None before None
        (Some (mkErrorDetail EXECUTION_FAILED
          (msg "Physical intent has an unknown outcome and needs reconciliation")
          None None None false []))
  | PhysicalIntentConflict =>
      reject (Some request) DUPLICATE_COMMAND
        (msg "Physical idempotency key is already bound to another plan or command") false []
  | FencingViolation reason =>
      reject (Some request) FENCING_VIOLATION
        (msg "Physical write blocked by stale or missing fencing") true [("reason", JStr reason)]
  | ControlLeaseExpired =>
      stopped ← (if ex_control_takeover
                 then emit E_stop ≫= fun _ => await_result (env_emergency_stop)
                 else mret false);
      reject (Some request) CONTROL_TAKEOVER_FAILED
        (msg "Physical control lease expired before dispatch") true
        [("emergency_stop_confirmed", JBool stopped)]
  | OSError m =>
      outcome p (dc_attempt_id d) (cmd_id c) (Some request) ES_UNAVAILABLE None before None
        (Some (mkErrorDetail ADAPTER_UNAVAILABLE (msg m) None None None true []))
  | _ => raise e
  end.

Definition final_intent_status (s : ExecutionStatus) : PhysicalIntentStatus :=
  match s with
  | ES_CONFIRMED_SUCCESS => PI_CONFIRMED
  | ES_REJECTED | ES_FAILED => PI_REJECTED
  | _ => PI_UNKNOWN
  end.

(** The outcome, and the settlement of the intent with it. *)
Definition resolved (d : DispatchContext) (c : Command) (before : option StateSnapshot)
    (request : string) (r : result exn ExecutionOutcome) : M ExecutionOutcome :=
  o ← match r with Ok o => mret o | Err e => on_exception d c before request e end;
  settle_intent (final_intent_status (eo_status o)) ≫= fun _ => mret o.

Definition physical_command (d : DispatchContext) (index : nat) (c : Command)
    (capability : option Capability) (before : option StateSnapshot) : M ExecutionOutcome :=
  request ← fresh (env_uuid);
  local (fun a => a <| at_physical_intent := None |> <| at_replay_intent := None |>) ≫= fun _ =>
  r ← try_ (attempt_command d index c capability before request);
  resolved d c before request r.

(** One valid command: what the last look before the queue says, or the
    dispatch. *)
Definition execute_command (d : DispatchContext) (index : nat) (c : Command)
    (capability : option Capability) : M ExecutionOutcome :=
  sh ← shared;
  let before := state_before (sh_plan_service sh) c capability in
  let failing := preconditions_failing (dc_plan d) index sh c in
  if bool_decide (List.length failing <> 0%nat) then
    rejected (dc_plan d) (dc_attempt_id d) c None before
      (mkErrorDetail PRECONDITION_FAILED (count_message (List.length failing)) None None None true
         [("preconditions", JList (map as_payload failing))])
  else
    error ← lift (safety_check sh c capability);
    match error with
    | Some e => rejected (dc_plan d) (dc_attempt_id d) c None before e
    | None => physical_command d index c capability before
    end.

(** ** The command loop *)

Definition blocked_by_takeover (d : DispatchContext) (first : string) (c : Command)
    : M ExecutionOutcome :=
  o ← rejected (dc_plan d) (dc_attempt_id d) c None None
    (mkErrorDetail CONTROL_TAKEOVER_FAILED
       (msg "Later dispatch command blocked because the first takeover command was not confirmed")
       None (Some (cmd_device_id c)) None true [("first_command_id", JStr first)]);
  save_outcome ≫= fun _ => mret o.

Fixpoint block_all (d : DispatchContext) (first : string) (l : list Command)
    : M (list ExecutionOutcome) :=
  match l with
  | [] => mret []
  | c :: l =>
      o ← blocked_by_takeover d first c;
      os ← block_all d first l;
      mret (o :: os)
  end.

Definition not_sent (d : DispatchContext) (c : Command) (error : ErrorDetail)
    : M ExecutionOutcome :=
  o ← rejected (dc_plan d) (dc_attempt_id d) c None None error;
  save_outcome ≫= fun _ => mret o.

Fixpoint run_commands (d : DispatchContext) (index : nat) (seen : list string) (l : list Command)
    : M (list ExecutionOutcome) :=
  match l with
  | [] => mret []
  | command :: rest =>
      sh ← shared;
      if sh_cancel_requested sh then
        o ← not_sent d command
          (error_detail INVALID_TRANSITION (msg "Execution cancelled before dispatch"));
        os ← run_commands d (S index) seen rest;
        mret (o :: os)
      else
        v ← lift (validate_command_semantics (sh_plan_service sh) command);
        let c := cv_command v in
        match cv_errors v with
        | e :: _ =>
            o ← not_sent d c (with_phase "jit" e);
            os ← run_commands d (S index) seen rest;
            mret (o :: os)
        | [] =>
            lift (raise_if (bool_decide (cmd_idempotency_key c ∈ seen))
              (domain_error DUPLICATE_COMMAND
                 "Duplicate command idempotency key detected during execution")) ≫= fun _ =>
            o ← execute_command d index c (cv_capability v);
            local (fun a => a <| at_dispatching := false |>) ≫= fun _ =>
            save_outcome ≫= fun _ =>
            os ← (if bool_decide (dc_takeover_first d = Some (eo_command_id o)) &&
                     negb (bool_decide (eo_status o = ES_CONFIRMED_SUCCESS))
                  then block_all d (eo_command_id o) rest
                  else run_commands d (S index) (cmd_idempotency_key c :: seen) rest);
            mret (o :: os)
        end
  end.

(** ** Claim *)

Definition already_claimed : exn :=
  domain_error INVALID_TRANSITION "Plan is already executing or has reached a terminal status".

Definition execution_lease_of (p : Plan) : M (option PlanExecutionLease) :=
  if ex_fencing_guard then
    sh ← shared;
    let t := fg_token (sh_guard sh) in
    lift (raise_if (ex_plan_repository &&
                    (negb (String.eqb (pl_schema_version p) "v2") ||
                     negb (bool_decide (pl_deployment_id p = Some (ls_deployment_id (ft_scope t))))))
      (refusal PLAN_IDENTITY_CONFLICT
         "Plan requires revalidation before a fenced execution claim"
         [("reason", JStr "revalidation_required"); ("plan_id", JStr (pl_id p))])) ≫= fun _ =>
    mret (Some (mkPlanExecutionLease (ls_deployment_id (ft_scope t)) (ft_owner_id t) (ft_lease_id t)
                  (ft_epoch t) (ft_expires_at t)))
  else mret None.

(** [_CLAIMABLE_STATUSES] *)
Definition CLAIMABLE_STATUSES : list PlanStatus := [PS_READY; PS_APPROVED].

Definition claim_plan (p : Plan) (lease : option PlanExecutionLease) : M unit :=
  (if ex_plan_repository then
     claimed ← database (on_records (port_claim_plan
       (p <| pl_status := PS_EXECUTING |>
          <| pl_deployment_id := match lease with
                                 | Some l => Some (pel_deployment_id l)
                                 | None => pl_deployment_id p end |>
          <| pl_execution_lease := lease |>) CLAIMABLE_STATUSES));
     lift (raise_if (negb claimed) already_claimed) ≫= fun _ =>
     local (fun a => a <| at_claimed := true |> <| at_execution_lease := lease |>)
   else local (fun a => a <| at_claimed := true |>)).

Definition settle_plan (p : Plan) : M unit :=
  if ex_plan_repository then
    emit (E_settle p) ≫= fun _ => database (on_records (port_settle_plan p))
  else mret tt.

(** ** Release *)

(** [_release_control_lease] *)
Definition release_control_lease : M bool :=
  if ex_control_takeover then
    emit E_release ≫= fun _ =>
    r ← try_ (await_result (env_release));
    mret (match r with Ok b => b | Err _ => false end)
  else mret true.

(** ** [_execute_impl] *)

Fixpoint save_outcomes (n : nat) : M unit :=
  match n with O => mret tt | S n => save_outcome ≫= fun _ => save_outcomes n end.

Definition takeover_rejection (p : Plan) (attempt_id : string) (t : TakeoverResult) (at_ : datetime)
    (c : Command) : ExecutionOutcome :=
  mkExecutionOutcome (pl_authority p) (pl_id p) (cmd_id c) attempt_id None ES_REJECTED None None None
    (Some (mkErrorDetail CONTROL_TAKEOVER_FAILED
       (msg "Physical control was not acquired before dispatch") None (Some (cmd_device_id c)) None
       true [("failure_code", json_opt_str (tk_failure_code t));
             ("takeover_evidence_digest", JStr (tk_evidence_digest t))])) at_.

(** Before anything is claimed. *)
Definition admit_execution (p : Plan) (overrides : option (gmap string Z))
    (capability : option AggregateExecutionCapability) : M (option AdmissionDecision) :=
  admission ← (if ex_execution_admission then
      await (fun _ => tt) ≫= fun _ =>
      a ← on_issued (fun sh => admit_plan (sh_admission sh) (sh_now sh) p AO_EXECUTE capability);
      mret (Some a)
    else mret None);
  t ← now;
  lift (raise_if (match pl_execute_at p with Some at_ => t <? at_ | None => false end)
    (domain_error NOT_YET_DUE "Plan is not yet due; wait until its scheduled execution time"))
    ≫= fun _ =>
  (if ex_plan_repository then
     database (mret tt) ≫= fun _ =>
     sh ← shared;
     persisted ← lift (port_get_plan (pl_id p) (sh_records sh));
     lift (raise_if (match persisted with
                     | Some q => bool_decide (pl_status q ∈ NON_CLAIMABLE_STATUSES)
                     | None => false end) already_claimed)
   else mret tt) ≫= fun _ =>
  sh ← shared;
  lift (assert_executable (sh_plan_service sh) (sh_now sh) p overrides) ≫= fun _ =>
  mret admission.

(** After a preflight that found something, or a takeover that failed. *)
Definition reject_plan (p : Plan) (status : PlanStatus) (outcomes : list ExecutionOutcome)
    : M (list ExecutionOutcome) :=
  save_outcomes (List.length outcomes) ≫= fun _ =>
  settle_plan (p <| pl_status := status |> <| pl_execution := Some outcomes |>) ≫= fun _ =>
  mret outcomes.

(** The takeover of physical control: nothing to take over, control acquired
    for this first command, or a refusal. *)
Definition acquire_control : M (option TakeoverResult) :=
  sh ← shared;
  if ex_control_takeover && negb (sh_cancel_requested sh)
  then await_result (env_takeover) else mret None.

(** The release of physical control and the settlement. *)
Definition settle_run (p : Plan) (d : DispatchContext) (lease : option PlanExecutionLease)
    (outcomes : list ExecutionOutcome) : M (list ExecutionOutcome) :=
  released ← match dc_takeover_first d with
             | Some _ => release_control_lease
             | None => mret true
             end;
  sh ← shared;
  a ← attempt;
  let status :=
    if negb released then PS_UNKNOWN
    else if sh_cancel_requested sh && negb (at_sent_any a) then PS_CANCELLED
    else terminal_plan_status outcomes in
  settle_plan (p <| pl_status := status |> <| pl_execution := Some outcomes |>
                 <| pl_execution_lease := lease |>) ≫= fun _ =>
  mret outcomes.

Definition run_dispatch (p : Plan) (d : DispatchContext) (lease : option PlanExecutionLease)
    : M (list ExecutionOutcome) :=
  run_commands d 0 [] (pl_commands p) ≫= settle_run p d lease.

(** [dispatch_state_versions = dict(state_version_overrides or {})]; then the
    commands. *)
Definition run_plan (p : Plan) (d : DispatchContext) (lease : option PlanExecutionLease)
    (overrides : option (gmap string Z)) : M (list ExecutionOutcome) :=
  local (fun a => a <| at_state_versions := default ∅ overrides |>) ≫= fun _ =>
  run_dispatch p d lease.

(** What follows the claim. *)
Definition execute_claimed (p : Plan) (admission : option AdmissionDecision)
    (lease : option PlanExecutionLease) (overrides : option (gmap string Z))
    : M (list ExecutionOutcome) :=
  attempt_id ← fresh env_uuid;
  sh ← shared;
  checked ← lift (preflight ex_max_age ex_safety_kernel (sh_plan_service sh) (sh_now sh) p);
  match checked with
  | Some results =>
      let outcomes := preflight_outcomes p (sh_now sh) attempt_id results in
      reject_plan p (terminal_plan_status outcomes) outcomes
  | None =>
      takeover ← acquire_control;
      match takeover with
      | Some t =>
          if bool_decide (tk_status t = CLS_ACQUIRED)
          then run_plan p (mkDispatchContext p admission attempt_id (Some (tk_first_command_id t)))
                 lease overrides
          else
            at_ ← now;
            reject_plan p PS_FAILED (map (takeover_rejection p attempt_id t at_) (pl_commands p))
      | None => run_plan p (mkDispatchContext p admission attempt_id None) lease overrides
      end
  end.

Definition execute_impl (p : Plan) (overrides : option (gmap string Z))
    (capability : option AggregateExecutionCapability) : M (list ExecutionOutcome) :=
  admission ← admit_execution p overrides capability;
  lease ← execution_lease_of p;
  claim_plan p lease ≫= fun _ =>
  execute_claimed p admission lease overrides.

(** ** [_execute_owned] and [execute] *)

(** [_mark_unknown_after_exception] *)
Definition mark_unknown_after_exception (id : string) : M unit :=
  if ex_plan_repository then
    a ← attempt;
    emit (E_mark_unknown id) ≫= fun _ =>
    try_ (database (on_records (port_mark_unknown id (at_execution_lease a)))) ≫= fun _ => mret tt
  else mret tt.

(** [_release_after_exception] *)
Definition release_after_exception : M unit :=
  if ex_control_takeover then release_control_lease ≫= fun _ => mret tt else mret tt.

(** The [except BaseException] clause. *)
Definition after_exception (p : Plan) (e : exn) : M (list ExecutionOutcome) :=
  a ← attempt;
  (if at_claimed a
   then mark_unknown_after_exception (pl_id p) ≫= fun _ => release_after_exception
   else mret tt) ≫= fun _ =>
  raise e.

Definition execute_owned (p : Plan) (overrides : option (gmap string Z))
    (capability : option AggregateExecutionCapability) : M (list ExecutionOutcome) :=
  try_catch (execute_impl p overrides capability) (after_exception p).

Definition execute (closed : bool) (p : Plan) (overrides : option (gmap string Z))
    (capability : option AggregateExecutionCapability) : M (list ExecutionOutcome) :=
  if closed then raise QueueClosed else execute_owned p overrides capability.
End Executor.
