(* ===== verification/LampExecution.v ===== *)
(** * The desk lamp, executed

    One plan that switches a lamp on, in the world of [Runtime.v] with the real
    ledgers of [Intents.v] and [PlanRecords.v] and an environment that answers
    well: the concrete run the witnesses of the execution theorems evaluate. *)

From S2P Require Import Prelude.
From S2P Require Import Values.
From S2P Require Import Models.
From S2P Require Import Safety.
From S2P Require Import StateStore.
From S2P Require Import Registry.
From S2P Require Import Digests.
From S2P Require Import ApprovalStore.
From S2P Require Import PlanService.
From S2P Require Import Coordination.
From S2P Require Import DynamicSafety.
From S2P Require Import Admission.
From S2P Require Import Preflight.
From S2P Require Import Intents.
From S2P Require Import PlanRecords.
From S2P Require Import Ports.
From S2P Require Import Runtime.
From S2P Require Import Executor.

#[local] Existing Instance example_canonical.
#[export] Instance lamp_records : PlanRecordPort plans := plans_port (Some "home-1").

Definition lamp_ref : SourceRef := mkSourceRef "ha" "light.desk" None None None.
Definition lamp_reading (on : bool) (at_ : datetime) : StateSnapshot :=
  mkStateSnapshot default_authority "office.desk-lamp" "power" (Some (SBool on)) None at_ at_ CURRENT
    lamp_ref None.
Definition dark_service : PlanService :=
  with_store example_service
    (snd (save id Persisted (lamp_reading false (minutes 1)) example_store)).
Definition lamp_command (id key : string) : Command :=
  mkCommand id "office.desk-lamp" "turn_on" None None
    [mkPrecondition "office.desk-lamp" "power" (Some (SBool false)) false] SAFE key None [].
Definition lamp_draft : Plan :=
  (example_draft "turn_on") <| pl_commands := [lamp_command "c1" "k1"] |>.
Definition lamp_plan : Plan :=
  match validate dark_service (minutes 1) lamp_draft with
  | Ok p => p
  | Err _ => lamp_draft
  end.
Definition lamp_scope : LeaseScope := mkLeaseScope "default" "default" "home-1".
Definition lamp_lease : result exn FencingToken * LeaseCoordinator :=
  acquire "l1" 0 lamp_scope "host-a" (NInt 3600) no_leases.
Definition lamp_guard : FencingGuard :=
  mkFencingGuard (mkFencingToken lamp_scope "host-a" 1 "l1" 0 (hours 1)) false.
Definition lamp_shared : Shared intents plans :=
  mkShared (minutes 2) dark_service (mkExecutionAdmission None None None) ∅ lamp_guard
    (snd lamp_lease) ∅
    (snd (save_plan (Some "home-1") lamp_plan ∅)) false.
Definition lamp_executor : PlanExecutor :=
  mkPlanExecutor true true true (hours 1) None false true None true true true "principal".
(** The adapter is the parameter; everything else answers well. *)
Definition lamp_world_of (adapter : nat -> Command -> ExecutionContext -> result exn AdapterExecutionAck)
    : Environment intents plans :=
  mkEnvironment (fun _ sh => sh) (fun _ _ sh => sh <| sh_now := sh_now sh + seconds 1 |>)
    (fun n => "u") adapter (fun _ _ => Ok [lamp_reading true (minutes 2)])
    (fun _ => Persisted) (fun _ => Ok tt) (fun _ => Q_run) (fun _ => Ok None)
    (fun _ => Ok true) (fun _ => Ok true) (fun _ => Ok true) id (fun _ => None) 5.
Definition lamp_environment : Environment intents plans :=
  lamp_world_of (fun _ _ _ => Ok (mkAck true (Some lamp_ref) None)).
(** An adapter with a bug. *)
Definition lamp_trouble : Environment intents plans :=
  lamp_world_of (fun _ _ _ => Err (ValueError "not an acknowledgement")).
Definition lamp_world : World intents plans := new_world lamp_shared 0.

Definition lamp_run_in (env : Environment intents plans) (w : World intents plans)
    : result exn (list ExecutionOutcome) * World intents plans :=
  execute_owned (ex := lamp_executor) (env := env) lamp_plan None None w.
Definition lamp_run : World intents plans -> result exn (list ExecutionOutcome) * World intents plans :=
  lamp_run_in lamp_environment.

(** It is switched on and confirmed; a second execution of the plan is refused. *)
Example lamp_confirmed :
  match fst (lamp_run lamp_world) with Ok os => map eo_status os | Err _ => [] end
  = [ES_CONFIRMED_SUCCESS].
Proof. vm_compute. reflexivity. Qed.
Example lamp_again : fst (lamp_run (snd (lamp_run lamp_world))) = Err already_claimed.
Proof. vm_compute. reflexivity. Qed.
(** With the broken adapter the exception passes, and the plan is unknown. *)
Example lamp_fails :
  fst (lamp_run_in lamp_trouble lamp_world) = Err (ValueError "not an acknowledgement") /\
  pr_status <$> (sh_records (w_shared (snd (lamp_run_in lamp_trouble lamp_world))) !! "plan-1")
  = Some PS_UNKNOWN.
Proof. vm_compute. split; reflexivity. Qed.
