(* ===== verification/ExecutionSteps.v ===== *)
(** * What every step of an execution keeps

    Everything an execution does is built from a few primitive steps; [Steps
    Rel] says that each of them stays within a relation between worlds, and the
    lemmas [*_keeps] lift this through every part of [Executor.v], the write
    itself ([transmit]) apart. *)

From S2P Require Import Prelude.
From S2P Require Import Values.
From S2P Require Import Models.
From S2P Require Import StateStore.
From S2P Require Import Digests.
From S2P Require Import ApprovalStore.
From S2P Require Import PlanService.
From S2P Require Import Coordination.
From S2P Require Import Admission.
From S2P Require Import Preflight.
From S2P Require Import Intents.
From S2P Require Import PlanRecords.
From S2P Require Import Ports.
From S2P Require Import Runtime.
From S2P Require Import Executor.

Create HintDb keeps.

Section ExecutionSteps.
Context `{CJ : Canonical} {I R : Type} `{!PhysicalIntentPort I} `{!PlanRecordPort R}.
Context {ex : PlanExecutor} {env : Environment I R}.

Abbreviation M := (stm (World I R) exn).
Abbreviation World := (World I R).

Lemma keeps_at {A} (Rel : World -> World -> Prop) (m : M A) w r w' :
  keeps Rel m -> m w = (r, w') -> Rel w w'.
Proof. intros H E. specialize (H w). by rewrite E in H. Qed.

Class Steps (Rel : World -> World -> Prop) := {
  steps_pre :: PreOrder Rel;
  steps_tick w n : Rel w (w <| w_tick := n |>);
  steps_local w f :
    (forall a, at_state_versions (f a) = at_state_versions a /\
               (at_claimed a = true -> at_claimed (f a) = true)) ->
    Rel w (w <| w_attempt := f (w_attempt w) |>);
  steps_record w s v : Rel w (snd (record_version s v w));
  steps_emit w e : (forall c context, e <> E_write c context) ->
    Rel w (w <| w_trace := w_trace w ++ [e] |>);
  steps_env w n : Rel w (see (env_step n (w_shared w)) w);
  steps_sleep w n d : Rel w (see (env_sleep n d (w_shared w)) w);
  steps_service w s : Rel w (see ((w_shared w) <| sh_plan_service := s |>) w);
  steps_issued w s : Rel w (see ((w_shared w) <| sh_issued := s |>) w);
  steps_claim w i :
    Rel w (see ((w_shared w) <| sh_intents := snd (port_claim i (sh_intents (w_shared w))) |>) w);
  steps_settle w t i s :
    Rel w (see ((w_shared w) <| sh_intents := snd (port_settle t i s (sh_intents (w_shared w))) |>) w);
  steps_claim_plan w p l :
    Rel w (see ((w_shared w) <| sh_records := snd (port_claim_plan p l (sh_records (w_shared w))) |>) w);
  steps_settle_plan w p :
    Rel w (see ((w_shared w) <| sh_records := snd (port_settle_plan p (sh_records (w_shared w))) |>) w);
  steps_mark w id l :
    Rel w (see ((w_shared w) <| sh_records := snd (port_mark_unknown id l (sh_records (w_shared w))) |>) w)
}.

(** What the dispatches of one execution of [p] have in common. *)
Definition dispatch_of (p : Plan) (d : DispatchContext) : Prop :=
  dc_plan d = p /\ (dc_admission d = None -> ex_execution_admission = false).

#[local] Hint Extern 1 (dispatch_of _ _) => by split : keeps.

Lemma admitted_none p o cap w w' :
  admit_execution p o cap w = (Ok None, w') -> ex_execution_admission = false.
Proof.
  unfold admit_execution. destruct ex_execution_admission; [|done]. intros H. exfalso.
  apply stm_bind_ok in H as (adm & w1 & H1 & H). apply stm_bind_ok in H1 as (u & w2 & _ & H1).
  apply stm_bind_ok in H1 as (a & w3 & _ & H1). injection H1 as <- _.
  repeat (apply stm_bind_ok in H as (? & ? & _ & H)). discriminate H.
Qed.

Section Keeps.
Context (Rel : World -> World -> Prop) `{!Steps Rel}.

Lemma await_keeps {A} (answer : nat -> A) : keeps Rel (await answer).
Proof using Type*.
  intros w. unfold await, await_with. simpl. etransitivity; [apply (steps_tick w (S (w_tick w)))|].
  exact (steps_env (w <| w_tick := S (w_tick w) |>) (w_tick w)).
Qed.

Lemma sleep_keeps d : keeps Rel (sleep d).
Proof using Type*.
  intros w. unfold sleep, await_with. simpl. etransitivity; [apply (steps_tick w (S (w_tick w)))|].
  exact (steps_sleep (w <| w_tick := S (w_tick w) |>) (w_tick w) d).
Qed.

Lemma local_keeps f :
  (forall a, at_state_versions (f a) = at_state_versions a /\
             (at_claimed a = true -> at_claimed (f a) = true)) -> keeps Rel (local f).
Proof using Type*. intros Hf w. by apply steps_local. Qed.
Lemma record_version_keeps s v : keeps Rel (record_version s v).
Proof using Type*. intros w. apply steps_record. Qed.
Lemma fresh_keeps uuid : keeps Rel (fresh uuid).
Proof using Type*. intros w. apply steps_tick. Qed.
Lemma emit_keeps e : (forall c context, e <> E_write c context) -> keeps Rel (emit e).
Proof using Type*. intros He w. by apply steps_emit. Qed.

Lemma on_store_keeps m : keeps Rel (on_store m).
Proof using Type*. intros w. unfold on_store. destruct (m _). apply steps_service. Qed.
Lemma on_issued_keeps {A} (m : Shared I R -> stm issued_capabilities exn A) : keeps Rel (on_issued m).
Proof using Type*. intros w. unfold on_issued. destruct (m _ _). apply steps_issued. Qed.
Lemma claim_keeps i : keeps Rel (on_intents (port_claim i)).
Proof using Type*.
  intros w. unfold on_intents. pose proof (steps_claim w i) as H. by destruct (port_claim i _).
Qed.
Lemma settle_keeps t i s : keeps Rel (on_intents (port_settle t i s)).
Proof using Type*.
  intros w. unfold on_intents. pose proof (steps_settle w t i s) as H. by destruct (port_settle t i s _).
Qed.
Lemma claim_plan_port_keeps p l : keeps Rel (on_records (port_claim_plan p l)).
Proof using Type*.
  intros w. unfold on_records. pose proof (steps_claim_plan w p l) as H.
  by destruct (port_claim_plan p l _).
Qed.
Lemma settle_plan_port_keeps p : keeps Rel (on_records (port_settle_plan p)).
Proof using Type*.
  intros w. unfold on_records. pose proof (steps_settle_plan w p) as H. by destruct (port_settle_plan p _).
Qed.
Lemma mark_port_keeps id l : keeps Rel (on_records (port_mark_unknown id l)).
Proof using Type*.
  intros w. unfold on_records. pose proof (steps_mark w id l) as H. by destruct (port_mark_unknown id l _).
Qed.

(** Walks through a computation down to its primitive steps. *)
Ltac keep :=
  repeat first
    [ assumption
    | solve [eauto 2 with keeps nocore]
    | apply (keeps_ret Rel) | apply (keeps_lift Rel) | apply (keeps_raise Rel)
    | apply (keeps_shared Rel) | apply (keeps_attempt Rel)
    | apply await_keeps | apply sleep_keeps | apply local_keeps; intros; split; [reflexivity|solve [auto]] | apply fresh_keeps
    | apply record_version_keeps
    | apply on_store_keeps | apply on_issued_keeps | apply claim_keeps | apply settle_keeps
    | apply claim_plan_port_keeps | apply settle_plan_port_keeps | apply mark_port_keeps
    | apply emit_keeps; intros; discriminate
    | apply (keeps_bind Rel); [|intros ?]
    | apply (keeps_try Rel)
    | apply (keeps_try_catch Rel); [|intros ?]
    | match goal with
      | |- keeps _ (match ?x with _ => _ end) => destruct x
      | |- keeps _ (if ?x then _ else _) => destruct x
      end
    ].

Lemma await_result_keeps {A} (answer : nat -> result exn A) : keeps Rel (await_result answer).
Proof using Type*. unfold await_result. keep. Qed.
Hint Resolve await_result_keeps : keeps.
Lemma database_keeps {A} (m : M A) : keeps Rel m -> keeps Rel (database m).
Proof using Type*. intros Hm. unfold database. keep. Qed.
Hint Extern 1 (keeps _ (database _)) => apply database_keeps; keep : keeps.

Lemma now_keeps : keeps Rel (A := datetime) now.
Proof using Type*. unfold now. keep. Qed.
Lemma service_keeps : keeps Rel (A := PlanService) service.
Proof using Type*. unfold service. keep. Qed.
Hint Resolve now_keeps service_keeps : keeps.

Lemma persist_snapshot_keeps s : keeps Rel (persist_snapshot s).
Proof using Type*. unfold persist_snapshot. keep. Qed.
Lemma read_state_keeps ref : keeps Rel (read_state ref).
Proof using Type*. unfold read_state. keep. Qed.
Hint Resolve persist_snapshot_keeps read_state_keeps : keeps.
Lemma readback_keeps c name : keeps Rel (readback c name).
Proof using Type*. unfold readback. keep. Qed.
Hint Resolve readback_keeps : keeps.
Lemma poll_again_keeps next timeout interval deadline latest error :
  keeps Rel next -> keeps Rel (poll_again next timeout interval deadline latest error).
Proof using Type*. intros H. unfold poll_again. keep. Qed.
Hint Resolve poll_again_keeps : keeps.
Lemma poll_keeps n c name before timeout interval deadline latest :
  keeps Rel (poll n c name before timeout interval deadline latest).
Proof using Type*. revert latest. induction n as [|n IH]; intros latest; simpl; keep. Qed.
Hint Resolve poll_keeps : keeps.
Lemma readback_until_settled_keeps c name before : keeps Rel (readback_until_settled c name before).
Proof using Type*. unfold readback_until_settled, readback_with. keep. Qed.
Hint Resolve readback_until_settled_keeps : keeps.
Lemma reconcile_one_keeps c capability : keeps Rel (reconcile_one c capability).
Proof using Type*. unfold reconcile_one. keep. Qed.
Hint Resolve reconcile_one_keeps : keeps.
Lemma reconcile_all_keeps c l : keeps Rel (reconcile_all c l).
Proof using Type*. induction l; simpl; keep. Qed.
Hint Resolve reconcile_all_keeps : keeps.
Lemma reconcile_post_write_keeps c : keeps Rel (reconcile_post_write c).
Proof using Type*. unfold reconcile_post_write. keep. Qed.
Hint Resolve reconcile_post_write_keeps : keeps.

Lemma outcome_keeps p a id req st ref b af e : keeps Rel (outcome p a id req st ref b af e).
Proof using Type*. unfold outcome. keep. Qed.
Hint Resolve outcome_keeps : keeps.
Lemma rejected_keeps p a c req b e : keeps Rel (rejected p a c req b e).
Proof using Type*. unfold rejected. keep. Qed.
Lemma save_outcome_keeps : keeps Rel save_outcome.
Proof using Type*. unfold save_outcome. keep. Qed.
Hint Resolve rejected_keeps save_outcome_keeps : keeps.
Lemma fencing_check_keeps a : keeps Rel (fencing_check a).
Proof using Type*. unfold fencing_check. keep. Qed.
Lemma claim_intent_keeps d c t : keeps Rel (claim_intent d c t).
Proof using Type*. unfold claim_intent. keep. Qed.
Hint Resolve fencing_check_keeps claim_intent_keeps : keeps.
Lemma recheck_plan_keeps d i c cap : keeps Rel (recheck_plan d i c cap).
Proof using Type*. unfold recheck_plan. keep. Qed.
Lemma check_ownership_keeps d : keeps Rel (check_ownership d).
Proof using Type*. unfold check_ownership. keep. Qed.
Hint Resolve recheck_plan_keeps check_ownership_keeps : keeps.
Lemma recheck_keeps d i c cap req : keeps Rel (recheck d i c cap req).
Proof using Type*. unfold recheck. keep. Qed.
Hint Resolve recheck_keeps : keeps.
Lemma settle_intent_keeps s : keeps Rel (settle_intent s).
Proof using Type*. unfold settle_intent. keep. Qed.
Lemma judge_keeps c name b ack : keeps Rel (judge c name b ack).
Proof using Type*. unfold judge. keep. Qed.
Lemma on_exception_keeps d c b req e : keeps Rel (on_exception d c b req e).
Proof using Type*. unfold on_exception. keep. Qed.
Hint Resolve settle_intent_keeps judge_keeps on_exception_keeps : keeps.
Lemma acknowledged_keeps d c name b req ack : keeps Rel (acknowledged d c name b req ack).
Proof using Type*. unfold acknowledged. keep. Qed.
Lemma resolved_keeps d c b req r : keeps Rel (resolved d c b req r).
Proof using Type*. unfold resolved. keep. Qed.
Hint Resolve acknowledged_keeps resolved_keeps : keeps.
Lemma not_sent_keeps d c e : keeps Rel (not_sent d c e).
Proof using Type*. unfold not_sent. keep. Qed.
Lemma block_all_keeps d f l : keeps Rel (block_all d f l).
Proof using Type*. induction l; simpl; unfold blocked_by_takeover; keep. Qed.
Hint Resolve not_sent_keeps block_all_keeps : keeps.
Lemma execution_lease_of_keeps p : keeps Rel (execution_lease_of p).
Proof using Type*. unfold execution_lease_of. keep. Qed.
Lemma claim_plan_keeps p l : keeps Rel (claim_plan p l).
Proof using Type*. unfold claim_plan. keep. Qed.
Lemma settle_plan_keeps p : keeps Rel (settle_plan p).
Proof using Type*. unfold settle_plan. keep. Qed.
Lemma release_control_lease_keeps : keeps Rel release_control_lease.
Proof using Type*. unfold release_control_lease. keep. Qed.
Lemma save_outcomes_keeps n : keeps Rel (save_outcomes n).
Proof using Type*. induction n; simpl; keep. Qed.
Hint Resolve execution_lease_of_keeps claim_plan_keeps settle_plan_keeps
  release_control_lease_keeps save_outcomes_keeps : keeps.
Lemma admit_execution_keeps p o cap : keeps Rel (admit_execution p o cap).
Proof using Type*. unfold admit_execution. keep. Qed.
Lemma reject_plan_keeps p st os : keeps Rel (reject_plan p st os).
Proof using Type*. unfold reject_plan. keep. Qed.
Lemma settle_run_keeps p d l os : keeps Rel (settle_run p d l os).
Proof using Type*. unfold settle_run. keep. Qed.
Hint Resolve settle_run_keeps : keeps.
Lemma acquire_control_keeps : keeps Rel acquire_control.
Proof using Type*. unfold acquire_control. keep. Qed.
Lemma mark_unknown_after_exception_keeps id : keeps Rel (mark_unknown_after_exception id).
Proof using Type*. unfold mark_unknown_after_exception. keep. Qed.
Lemma release_after_exception_keeps : keeps Rel release_after_exception.
Proof using Type*. unfold release_after_exception. keep. Qed.
Hint Resolve admit_execution_keeps reject_plan_keeps acquire_control_keeps
  mark_unknown_after_exception_keeps release_after_exception_keeps : keeps.

Lemma after_exception_keeps p e : keeps Rel (after_exception p e).
Proof using Type*. unfold after_exception. keep. Qed.
Hint Resolve after_exception_keeps : keeps.

Lemma submit_keeps h work : keeps Rel work -> keeps Rel (submit h work).
Proof using Type*. intros Hw. unfold submit. keep. Qed.
Hint Resolve submit_keeps : keeps.
Lemma execute_command_keeps d i c cap :
  (forall req, keeps Rel (dispatch d i c cap req)) -> keeps Rel (execute_command d i c cap).
Proof using Type*.
  intros Hd. unfold execute_command, physical_command, attempt_command. keep.
Qed.

Lemma each_command p :
  (forall d i c cap req, dispatch_of p d -> keeps Rel (dispatch d i c cap req)) ->
  forall d i command v w, dispatch_of p d -> pl_commands p !! i = Some command ->
  validate_command_semantics (sh_plan_service (w_shared w)) command = Ok v -> cv_errors v = [] ->
  Rel w (snd (execute_command d i (cv_command v) (cv_capability v) w)).
Proof using Type*. intros H d i command v w Hd _ _ _. apply execute_command_keeps. auto. Qed.

(** A relation that survives every validated command of this plan survives
    the commands of a run. *)
Section Commands.
Context (p : Plan).
Context (Hcommand : forall d i command v w, dispatch_of p d -> pl_commands p !! i = Some command ->
  validate_command_semantics (sh_plan_service (w_shared w)) command = Ok v -> cv_errors v = [] ->
  Rel w (snd (execute_command d i (cv_command v) (cv_capability v) w))).

Lemma run_commands_keeps d i seen l :
  dispatch_of p d -> drop i (pl_commands p) = l -> keeps Rel (run_commands d i seen l).
Proof using Type*.
  intros Hd. revert i seen. induction l as [|command l IH]; intros i seen Hl; simpl; [keep|].
  assert (pl_commands p !! i = Some command) as Hc.
  { rewrite <- (Nat.add_0_r i), <- lookup_drop, Hl. done. }
  assert (drop (S i) (pl_commands p) = l) as Hl' by (rewrite (drop_S _ _ _ Hc) in Hl; congruence).
  intros w. change ((shared ≫= ?f) w) with (f (w_shared w) w). cbv beta.
  destruct (sh_cancel_requested _).
  - revert w. change (keeps Rel (not_sent d command
      (error_detail INVALID_TRANSITION (msg "Execution cancelled before dispatch")) ≫= fun o =>
      run_commands d (S i) seen l ≫= fun os => mret (o :: os))). keep.
  - rewrite stm_bind_lift. destruct (validate_command_semantics _ command) as [v|e] eqn:Ev; [|keep].
    destruct (cv_errors v) as [|e es] eqn:Ee.
    + rewrite stm_bind_lift. destruct (raise_if _ _) as [[]|]; [|keep].
      pose proof (Hcommand d i command v w Hd Hc Ev Ee) as H.
      unfold mbind at 1, stm_bind.
      destruct (execute_command _ _ _ _ w) as [[o|e] w1]; [|exact H].
      etransitivity; [exact H|].
      apply (fun m (Hm : keeps Rel m) => Hm w1). keep.
    + apply (fun m (Hm : keeps Rel m) => Hm w). keep.
Qed.
Lemma run_dispatch_keeps d l : dispatch_of p d -> keeps Rel (run_dispatch p d l).
Proof using Type*.
  intros Hd. apply (keeps_bind Rel); [by apply run_commands_keeps|].
  intros os. apply settle_run_keeps. Qed.
Lemma run_plan_keeps o :
  keeps Rel (local (fun a => a <| at_state_versions := default ∅ o |>)) ->
  forall d l, dispatch_of p d -> keeps Rel (run_plan p d l o).
Proof using Type*. intros Ho d l Hd. unfold run_plan. apply (keeps_bind Rel); [exact Ho|]. intros _.
  by apply run_dispatch_keeps. Qed.
End Commands.

End Keeps.

(** ** Primitive steps around a part *)

(** Made of primitive steps only. *)
Definition free {A} (m : M A) : Prop := forall Rel, Steps Rel -> keeps Rel m.
Definition freely (w w' : World) : Prop := forall Rel, Steps Rel -> Rel w w'.

(** Primitive steps around at most one run of a [D] that is [good]. *)
Definition around {X A B} (good : X -> Prop) (D : X -> M B) (m : M A) : Prop := forall w,
  freely w (snd (m w)) \/
  exists x w1, good x /\ freely w w1 /\ freely (snd (D x w1)) (snd (m w)).

Lemma freely_trans w1 w2 w3 : freely w1 w2 -> freely w2 w3 -> freely w1 w3.
Proof. intros H1 H2 Rel HS. etransitivity; [by apply H1|by apply H2]. Qed.
Lemma freely_refl w : freely w w.
Proof. intros Rel HS. reflexivity. Qed.
Lemma free_at {A} (m : M A) w r w' : free m -> m w = (r, w') -> freely w w'.
Proof. intros Hm E Rel HS. exact (keeps_at _ _ _ _ _ (Hm Rel HS) E). Qed.

Section Around.
Context {X B : Type} (good : X -> Prop) (D : X -> M B).
#[local] Notation around := (around good D).

Lemma around_self x : good x -> around (D x).
Proof. intros Hx w. right. exists x, w. split_and!; [done| |]; apply freely_refl. Qed.
Lemma around_free {A} (m : M A) : free m -> around m.
Proof. intros Hm w. left. intros Rel HS. by apply Hm. Qed.
Lemma around_before_result {A C} (m : M A) (f : A -> M C) :
  free m -> (forall w a w', m w = (Ok a, w') -> around (f a)) -> around (m ≫= f).
Proof.
  intros Hm Hf w. unfold mbind, stm_bind. destruct (m w) as [[a|e] w1] eqn:E.
  - pose proof (free_at _ _ _ _ Hm E) as H1.
    destruct (Hf _ _ _ E w1) as [H|(x & w2 & Hx & H & H')]; [left|right; exists x, w2; split_and!; [done| |done]];
      by eapply freely_trans.
  - left. exact (free_at _ _ _ _ Hm E).
Qed.
Lemma around_before {A C} (m : M A) (f : A -> M C) :
  free m -> (forall a, around (f a)) -> around (m ≫= f).
Proof. intros Hm Hf. apply around_before_result; [done|]. intros _ a _ _. apply Hf. Qed.
Lemma around_after {A C} (m : M A) (f : A -> M C) :
  around m -> (forall a, free (f a)) -> around (m ≫= f).
Proof.
  intros Hm Hf w. specialize (Hm w). unfold mbind, stm_bind.
  destruct (m w) as [[a|e] w1] eqn:E; [|exact Hm].
  assert (freely w1 (snd (f a w1))) as Hfree by (intros Rel HS; by apply Hf).
  destruct Hm as [H|(x & w2 & Hx & H & H')]; [left|right; exists x, w2; split_and!; [done|done|]];
    by eapply freely_trans.
Qed.
Lemma around_try {A} (m : M A) : around m -> around (try_ m).
Proof. intros Hm w. specialize (Hm w). unfold try_. by destruct (m w). Qed.
Lemma around_try_catch {A} (m : M A) (h : exn -> M A) :
  around m -> (forall e, free (h e)) -> around (try_catch m h).
Proof.
  intros Hm Hh w. specialize (Hm w). unfold try_catch. destruct (m w) as [[a|e] w1]; [exact Hm|].
  assert (freely w1 (snd (h e w1))) as Hfree by (intros Rel HS; by apply Hh).
  destruct Hm as [H|(x & w2 & Hx & H & H')]; [left|right; exists x, w2; split_and!; [done|done|]];
    by eapply freely_trans.
Qed.

(** What the runs of [D] keep is kept. *)
Lemma around_keeps {A} Rel (m : M A) :
  Steps Rel -> (forall x, good x -> keeps Rel (D x)) -> around m -> keeps Rel m.
Proof.
  intros HS HD Hm w. destruct (Hm w) as [H|(x & w1 & Hx & H1 & H2)]; [by apply H|].
  etransitivity; [by apply H1|]. etransitivity; [by apply HD|]. by apply H2.
Qed.
End Around.

Lemma submit_around {X} (good : X -> Prop) D h x :
  good x -> around good D (submit h (D x)).
Proof.
  intros Hx. unfold submit. destruct ex_work_queues; [|by apply around_self].
  apply around_before; [intros Rel HS; apply keeps_lift, HS|intros _].
  apply around_before; [intros Rel HS; by apply await_keeps|intros answer].
  destruct answer; [by apply around_self|apply around_free; intros Rel HS; apply keeps_raise, HS|].
  apply around_after; [by apply around_try, around_self|]. intros _ Rel HS. apply keeps_raise, HS.
Qed.

Lemma execute_command_around d i c cap : around (fun _ => True) (dispatch d i c cap) (execute_command d i c cap).
Proof.
  assert (forall req b, around (fun _ => True) (dispatch d i c cap) (attempt_command d i c cap b req)) as Hatt.
  { intros req b. apply around_after; [by apply submit_around|]. intros ack Rel HS.
    apply acknowledged_keeps, HS. }
  assert (forall b, around (fun _ => True) (dispatch d i c cap) (physical_command d i c cap b)) as Hphys.
  { intros b. apply around_before; [intros Rel HS; apply fresh_keeps, HS|intros req].
    apply around_before; [intros Rel HS; apply local_keeps; [apply HS|by split]|intros _].
    apply around_after; [apply around_try, Hatt|]. intros r Rel HS. apply resolved_keeps, HS. }
  unfold execute_command. apply around_before; [intros Rel HS; apply keeps_shared, HS|intros sh].
  cbv zeta. case_bool_decide; [apply around_free; intros Rel HS; apply rejected_keeps, HS|].
  apply around_before; [intros Rel HS; apply keeps_lift, HS|intros [e|]]; [|apply Hphys].
  apply around_free. intros Rel HS. apply rejected_keeps, HS.
Qed.

(** One run of the plan per execution. *)
Definition run_of (p : Plan) (x : DispatchContext * option PlanExecutionLease) : Prop :=
  dispatch_of p (fst x).
Definition run_once (p : Plan) (o : option (gmap string Z))
    (x : DispatchContext * option PlanExecutionLease) : M (list ExecutionOutcome) :=
  run_plan p (fst x) (snd x) o.

Lemma execute_claimed_around p adm l o :
  (adm = None -> ex_execution_admission = false) ->
  around (run_of p) (run_once p o) (execute_claimed p adm l o).
Proof.
  intros Ha. unfold execute_claimed.
  apply around_before; [intros Rel HS; apply fresh_keeps, HS|intros id].
  apply around_before; [intros Rel HS; apply keeps_shared, HS|intros sh].
  apply around_before; [intros Rel HS; apply keeps_lift, HS|intros [rs|]].
  { apply around_free. intros Rel HS. apply reject_plan_keeps, HS. }
  apply around_before; [intros Rel HS; apply acquire_control_keeps, HS|intros [t|]].
  - case_bool_decide; [by apply (around_self _ (run_once p o) (_, l))|].
    apply around_before; [intros Rel HS; apply now_keeps, HS|intros t'].
    apply around_free. intros Rel HS. apply reject_plan_keeps, HS.
  - by apply (around_self _ (run_once p o) (_, l)).
Qed.

Lemma execute_owned_around p o cap : around (run_of p) (run_once p o) (execute_owned p o cap).
Proof.
  apply around_try_catch; [|intros e Rel HS; apply after_exception_keeps, HS].
  apply around_before_result; [intros Rel HS; apply admit_execution_keeps, HS|intros w adm w' Ha].
  apply around_before; [intros Rel HS; apply execution_lease_of_keeps, HS|intros lease].
  apply around_before; [intros Rel HS; apply claim_plan_keeps, HS|intros _].
  apply execute_claimed_around. intros ->. by apply admitted_none in Ha.
Qed.

(** A relation that survives the run of the plan survives the whole execution. *)
Lemma execute_claimed_keeps Rel `{HS : !Steps Rel} p o :
  (forall d l, dispatch_of p d -> keeps Rel (run_plan p d l o)) ->
  forall adm l, (adm = None -> ex_execution_admission = false) ->
  keeps Rel (execute_claimed p adm l o).
Proof.
  intros Hrun adm l Ha. apply (around_keeps (run_of p) (run_once p o)); [done| |].
  - intros [d l'] Hd. by apply Hrun.
  - by apply execute_claimed_around.
Qed.
Lemma execute_owned_keeps Rel `{HS : !Steps Rel} p o :
  (forall d l, dispatch_of p d -> keeps Rel (run_plan p d l o)) ->
  forall cap, keeps Rel (execute_owned p o cap).
Proof.
  intros Hrun cap. apply (around_keeps (run_of p) (run_once p o)); [done| |apply execute_owned_around].
  intros [d l'] Hd. by apply Hrun.
Qed.

(** Before its claim an execution makes primitive steps only. *)
Lemma execute_impl_cases p o cap w r w' :
  execute_impl p o cap w = (r, w') ->
  (forall Rel, Steps Rel -> Rel w w') \/
  exists adm lease w0 w1 w2,
    admit_execution p o cap w = (Ok adm, w0) /\ execution_lease_of p w0 = (Ok lease, w1) /\
    claim_plan p lease w1 = (Ok tt, w2) /\ execute_claimed p adm lease o w2 = (r, w') /\
    forall Rel, Steps Rel -> Rel w w1 /\ Rel w1 w2.
Proof.
  unfold execute_impl, mbind at 1, stm_bind. intros H.
  pose proof (fun Rel (S : Steps Rel) => admit_execution_keeps Rel p o cap w) as H1.
  destruct (admit_execution p o cap w) as [[adm|e] w0] eqn:E1;
    [|injection H as _ <-; left; exact H1].
  unfold mbind at 1 in H.
  pose proof (fun Rel (S : Steps Rel) => execution_lease_of_keeps Rel p w0) as H2.
  destruct (execution_lease_of p w0) as [[lease|e] w1] eqn:E2;
    [|injection H as _ <-; left; intros Rel HS; etransitivity; [exact (H1 Rel HS)|exact (H2 Rel HS)]].
  unfold mbind in H.
  pose proof (fun Rel (S : Steps Rel) => claim_plan_keeps Rel p lease w1) as H3.
  assert (H12 : forall Rel (S : Steps Rel), Rel w w1).
  { intros Rel HS. etransitivity; [exact (H1 Rel HS)|exact (H2 Rel HS)]. }
  destruct (claim_plan p lease w1) as [[[]|e] w2] eqn:E3.
  - right. exists adm, lease, w0, w1, w2. split_and!; try done. intros Rel HS. split; [exact (H12 Rel HS)|exact (H3 Rel HS)].
  - injection H as _ <-. left. intros Rel HS. etransitivity; [exact (H12 Rel HS)|exact (H3 Rel HS)].
Qed.
End ExecutionSteps.
