(* ===== verification/ExecutionTrace.v ===== *)
(** * The trace of an execution

    What was written, what was seen since, and what the steps of [Executor.v]
    add to the trace: a step that is not the write itself is [quiet], the
    rechecks of a dispatch ([recheck_passed]) and the write ([transmit_trace]). *)

From S2P Require Import Prelude.
From S2P Require Import Values.
From S2P Require Import Models.
From S2P Require Import StateStore.
From S2P Require Import Digests.
From S2P Require Import ApprovalStore.
From S2P Require Import PlanService.
From S2P Require Import Coordination.
From S2P Require Import Admission.
From S2P Require Import Preflight.
From S2P Require Import Intents.
From S2P Require Import PlanRecords.
From S2P Require Import Ports.
From S2P Require Import Runtime.
From S2P Require Import Executor.
From S2P Require Import LampExecution.
From S2P Require Import ExecutionSteps.

Section Trace.
Context `{CJ : Canonical} {I R : Type} `{!PhysicalIntentPort I} `{!PlanRecordPort R}.
Context {ex : PlanExecutor} {env : Environment I R}.

Abbreviation M := (stm (World I R) exn).
Abbreviation World := (World I R).

(** The commands written in a trace, in order. *)
Definition write_of (e : event I R) : option (Command * ExecutionContext) :=
  match e with E_write c x => Some (c, x) | _ => None end.
Definition writes (t : list (event I R)) : list (Command * ExecutionContext) := omap write_of t.

Lemma writes_app t t' : writes (t ++ t') = writes t ++ writes t'.
Proof. apply omap_app. Qed.

Lemma write_of_other e : (forall c x, e <> E_write c x) -> write_of e = None.
Proof. intros H. destruct e; try done. by destruct (H c context). Qed.

Lemma writes_cons_inv t c x l :
  writes t = (c, x) :: l ->
  exists t1 t2, t = t1 ++ E_write c x :: t2 /\ writes t1 = [] /\ writes t2 = l.
Proof.
  induction t as [|e t IH]; [done|]. unfold writes. simpl. destruct (write_of e) as [[c' x']|] eqn:E.
  - intros [= -> -> <-]. destruct e; try discriminate E. injection E as <- <-. by exists [], t.
  - intros (t1 & t2 & -> & H1 & <-)%IH. exists (e :: t1), t2. split_and!; [done| |done].
    unfold writes. simpl. by rewrite E.
Qed.

(** Nothing was written, and a change of the shared state was seen. *)
Definition quiet (w w' : World) : Prop :=
  exists new, w_trace w' = w_trace w ++ new /\ writes new = [] /\
    (w_shared w' = w_shared w \/ exists t1 t2, new = t1 ++ E_saw (w_shared w') :: t2).
(** The trace only grows. *)
Definition grows (w w' : World) : Prop := exists new, w_trace w' = w_trace w ++ new.

#[export] Instance quiet_preorder : PreOrder quiet.
Proof.
  split; [intros w; exists []; rewrite app_nil_r; auto|].
  intros w1 w2 w3 (n1 & E1 & F1 & S1) (n2 & E2 & F2 & S2). exists (n1 ++ n2).
  rewrite E2, E1, app_assoc, writes_app, F1, F2. split_and!; [done|done|].
  destruct S2 as [->|(t1 & t2 & ->)]; [|right; exists (n1 ++ t1), t2; by rewrite app_assoc].
  destruct S1 as [->|(t1 & t2 & ->)]; [by left|right].
  exists t1, (t2 ++ n2). by rewrite <- app_assoc.
Qed.
#[export] Instance grows_preorder : PreOrder grows.
Proof.
  split; [intros w; exists []; by rewrite app_nil_r|].
  intros w1 w2 w3 (n1 & E1) (n2 & E2). exists (n1 ++ n2). by rewrite E2, E1, app_assoc.
Qed.

Lemma quiet_same w w' : w_trace w' = w_trace w -> w_shared w' = w_shared w -> quiet w w'.
Proof. intros Ht Hs. exists []. rewrite app_nil_r. auto. Qed.
Lemma quiet_emit w e : write_of e = None -> quiet w (w <| w_trace := w_trace w ++ [e] |>).
Proof. intros He. exists [e]. unfold writes. simpl. rewrite He. auto. Qed.
Lemma quiet_see w sh : quiet w (see sh w).
Proof. exists [E_saw sh]. split_and!; [done|done|]. right. by exists [], []. Qed.

#[export] Instance quiet_steps : Steps quiet.
Proof.
  split; try (intros; apply quiet_see); try (intros; by apply quiet_same).
  - apply _.
  - intros w s v. exists [E_readback s]. auto.
  - intros w e He. by apply quiet_emit, write_of_other.
Qed.
#[export] Instance grows_steps : Steps grows.
Proof.
  split; try (by intros; eexists [_]); try (by intros; exists []; rewrite app_nil_r). apply _.
Qed.

Lemma quiet_silent w w' : quiet w w' -> exists new, w_trace w' = w_trace w ++ new /\ writes new = [].
Proof. intros (new & ? & ? & _). eauto. Qed.

(** [sh] was seen, and nothing was written since. *)
Definition seen_since (t : list (event I R)) (sh : Shared I R) : Prop :=
  exists t1 t2, t = t1 ++ E_saw sh :: t2 /\ writes t2 = [].

Lemma seen_since_app t sh new : seen_since t sh -> writes new = [] -> seen_since (t ++ new) sh.
Proof.
  intros (t1 & t2 & -> & Hw) Hn. exists t1, (t2 ++ new). rewrite <- app_assoc, writes_app, Hw, Hn. done.
Qed.

Lemma seen_after t w w' new :
  seen_since t (w_shared w) -> writes new = [] ->
  w_shared w' = w_shared w \/ (exists t1 t2, new = t1 ++ E_saw (w_shared w') :: t2) ->
  seen_since (t ++ new) (w_shared w').
Proof.
  intros Hs Hn [->|(t1 & t2 & ->)]; [by apply seen_since_app|].
  exists (t ++ t1), t2. rewrite <- app_assoc. split; [done|].
  rewrite writes_app in Hn. by apply app_eq_nil in Hn as [_ ?].
Qed.

Lemma seen_since_rebase base sh0 t sh :
  seen_since base sh0 -> seen_since (E_saw sh0 :: t) sh -> seen_since (base ++ t) sh.
Proof.
  intros Hbase ([|e t1] & t2 & E & Hw); [injection E as -> ->; by apply seen_since_app|].
  injection E as _ ->. exists (base ++ t1), t2. by rewrite <- app_assoc.
Qed.

(** The trace grows, and the shared state at the end was seen since the last
    write. *)
Definition sees (w w' : World) : Prop := exists new,
  w_trace w' = w_trace w ++ new /\ seen_since (E_saw (w_shared w) :: new) (w_shared w').

#[export] Instance sees_preorder : PreOrder sees.
Proof.
  split; [intros w; exists []; rewrite app_nil_r; split; [done|by exists [], []]|].
  intros w1 w2 w3 (n1 & E1 & S1) (n2 & E2 & S2). exists (n1 ++ n2). rewrite E2, E1, app_assoc.
  split; [done|]. by apply (seen_since_rebase (E_saw (w_shared w1) :: n1) (w_shared w2)).
Qed.
Lemma quiet_sees w w' : quiet w w' -> sees w w'.
Proof.
  intros (new & E & N & S). exists new. split; [done|].
  apply (seen_after [E_saw (w_shared w)] w w'); [by exists [], []|done|done].
Qed.
Lemma sees_grows w w' : sees w w' -> grows w w'.
Proof. intros (new & E & _). by exists new. Qed.
#[export] Instance sees_steps : Steps sees.
Proof.
  split; try (intros; by apply quiet_sees, quiet_see); try (intros; by apply quiet_sees, quiet_same).
  - apply _.
  - intros w s v. apply quiet_sees. exists [E_readback s]. auto.
  - intros w e He. by apply quiet_sees, quiet_emit, write_of_other.
Qed.

(** The answer to the claim is in the ledger already. *)
Definition replaying (w : World) : Prop :=
  exists i, at_replay_intent (w_attempt w) = Some i /\
    pi_status i ∈ [PI_ACKNOWLEDGED; PI_CONFIRMED; PI_REJECTED].

Lemma check_ownership_attempt d w u w' :
  check_ownership d w = (Ok u, w') -> w_attempt w' = w_attempt w.
Proof.
  unfold check_ownership. intros H. destruct (dc_takeover_first d); [|by injection H as _ <-].
  apply stm_bind_ok in H as (owned & w1 & H1 & H2). apply lift_ok in H2 as [_ ->].
  unfold await_result in H1. apply stm_bind_ok in H1 as (r & w2 & H1 & H2).
  apply lift_ok in H2 as [_ ->]. by injection H1 as _ <-.
Qed.

(** What a transmission adds to the trace. *)
Lemma transmit_trace c x w :
  (w_trace (snd (transmit c x w)) = w_trace w /\ w_shared (snd (transmit c x w)) = w_shared w) \/
  (~ replaying w /\ sh_cancel_requested (w_shared w) = false /\
   w_shared (snd (transmit c x w)) = env_step (w_tick w) (w_shared w) /\
   w_trace (snd (transmit c x w)) =
     w_trace w ++ [E_write c x; E_saw (env_step (w_tick w) (w_shared w));
                   E_answer (env_execute (w_tick w) c x)]).
Proof.
  unfold transmit. change ((attempt ≫= ?f) w) with (f (w_attempt w) w). cbv beta zeta.
  case_bool_decide as H1; [by left|]. case_bool_decide as H2; [by left|].
  change ((shared ≫= ?f) w) with (f (w_shared w) w). cbv beta. rewrite stm_bind_lift.
  destruct (sh_cancel_requested (w_shared w)); [by left|]. right. split_and!; [|done|done|].
  - intros (i & Hi & Hs). rewrite Hi in H1, H2. simpl in H1, H2.
    repeat (apply elem_of_cons in Hs as [Hs|Hs]; [rewrite Hs in H1, H2; set_solver|]).
    by apply elem_of_nil in Hs.
  - simpl. by rewrite <- !app_assoc.
Qed.

Lemma transmit_versions c x w :
  at_state_versions (w_attempt (snd (transmit c x w))) = at_state_versions (w_attempt w).
Proof.
  unfold transmit. change ((attempt ≫= ?f) w) with (f (w_attempt w) w). cbv beta zeta.
  case_bool_decide as H1; [done|]. case_bool_decide as H2; [done|].
  change ((shared ≫= ?f) w) with (f (w_shared w) w). cbv beta. rewrite stm_bind_lift.
  by destruct (sh_cancel_requested (w_shared w)).
Qed.

Lemma try_bind {A B} (m : M A) (f : result exn A -> M B) w :
  (try_ m ≫= f) w = f (fst (m w)) (snd (m w)).
Proof. unfold mbind, stm_bind, try_. by destruct (m w). Qed.

(** ** The rechecks *)

Definition current_token (p : Plan) (sh : Shared I R) (t : FencingToken) : Prop :=
  assert_writable_for_authority (sh_now sh) (sh_leases sh) (sh_guard sh) (pl_authority p) = Ok t.

Definition readmitted (p : Plan) (sh : Shared I R) (a : AdmissionDecision) : Prop :=
  fst (revalidate (sh_admission sh) (sh_now sh) p a (sh_issued sh)) = Ok tt.

Lemma fencing_check_passed a w token w' :
  fencing_check a w = (Ok token, w') -> quiet w w' /\
  match token with
  | Some t => assert_writable_for_authority (sh_now (w_shared w')) (sh_leases (w_shared w'))
                (sh_guard (w_shared w')) a = Ok t
  | None => ex_fencing_guard = false
  end.
Proof.
  intros H. split; [exact (keeps_at _ _ _ _ _ (fencing_check_keeps quiet a) H)|].
  unfold fencing_check in H. destruct ex_fencing_guard; [|by injection H as <- _].
  apply stm_bind_ok in H as ([] & w1 & _ & H). apply stm_bind_ok in H as (sh & w2 & H1 & H).
  injection H1 as <- <-. rewrite stm_bind_lift in H.
  destruct (assert_writable_for_authority _ _ _ _) as [t|] eqn:E; [|done]. by injection H as <- <-.
Qed.

Lemma recheck_plan_passed d i c cap w token w' :
  recheck_plan d i c cap w = (Ok token, w') ->
  exists wa wb, quiet w wa /\ quiet wa wb /\ quiet wb w' /\
    assert_executable (sh_plan_service (w_shared w)) (sh_now (w_shared w)) (dc_plan d)
      (Some (at_state_versions (w_attempt w))) = Ok tt /\
    match dc_admission d with Some a => readmitted (dc_plan d) (w_shared wa) a | None => True end /\
    preconditions_failing (dc_plan d) i (w_shared wb) c = [] /\
    safety_check (w_shared wb) c cap = Ok None /\
    match token with
    | Some t => current_token (dc_plan d) (w_shared w') t
    | None => ex_fencing_guard = false
    end.
Proof.
  unfold recheck_plan. change ((shared ≫= ?f) w) with (f (w_shared w) w). cbv beta.
  change ((attempt ≫= ?f) w) with (f (w_attempt w) w). cbv beta.
  intros H. rewrite stm_bind_lift in H. destruct (raise_if (sh_cancel_requested _) _) as [[]|]; [|done].
  rewrite stm_bind_lift in H. destruct (assert_executable _ _ _ _) as [[]|]; [|done].
  apply stm_bind_ok in H as ([] & wb & Hadm & H).
  assert (exists wa, quiet w wa /\ quiet wa wb /\
    match dc_admission d with Some a => readmitted (dc_plan d) (w_shared wa) a | None => True end)
    as (wa & Qa & Qb & Ha).
  { destruct (dc_admission d) as [a|]; [|injection Hadm as <-; by exists w].
    apply stm_bind_ok in Hadm as (u & wa & H1 & H2). exists wa.
    split_and!; [exact (keeps_at _ _ _ _ _ (await_keeps quiet _) H1)| |].
    - exact (keeps_at _ _ _ _ _ (on_issued_keeps quiet _) H2).
    - unfold on_issued in H2. unfold readmitted. destruct (revalidate _ _ _ _ _).
      by injection H2 as -> _. }
  exists wa, wb. change ((shared ≫= ?f) wb) with (f (w_shared wb) wb) in H. cbv beta in H.
  rewrite stm_bind_lift in H. destruct (raise_if _ _) as [[]|] eqn:Ep; [|done].
  rewrite stm_bind_lift in H. destruct (safety_check _ _ _) as [[e|]|]; [done| |done].
  rewrite stm_bind_lift in H. simpl in H.
  destruct (fencing_check_passed _ _ _ _ H) as [Qc Ht]. split_and!; try done.
  apply raise_if_ok in Ep. apply bool_decide_eq_false in Ep.
  destruct (preconditions_failing _ _ _ _); [done|]. by exfalso; apply Ep.
Qed.

Lemma recheck_passed d i c cap req w x w' :
  recheck d i c cap req w = (Ok x, w') ->
  exists token wa wb wc, quiet w wa /\ quiet wa wb /\ quiet wb wc /\ quiet wc w' /\
    assert_executable (sh_plan_service (w_shared w)) (sh_now (w_shared w)) (dc_plan d)
      (Some (at_state_versions (w_attempt w))) = Ok tt /\
    match dc_admission d with Some a => readmitted (dc_plan d) (w_shared wa) a | None => True end /\
    preconditions_failing (dc_plan d) i (w_shared wb) c = [] /\
    safety_check (w_shared wb) c cap = Ok None /\
    match token with
    | Some t => current_token (dc_plan d) (w_shared wc) t
    | None => ex_fencing_guard = false
    end /\
    x = dispatch_context d req token /\ validate_context x = Ok tt.
Proof.
  unfold recheck. intros H. apply stm_bind_ok in H as (token & wc & Hr & H).
  destruct (recheck_plan_passed _ _ _ _ _ _ _ Hr) as (wa & wb & ? & ? & ? & ? & ? & ? & ? & ?).
  rewrite stm_bind_lift in H. destruct (validate_context _) as [[]|] eqn:Ev; [|done].
  apply stm_bind_ok in H as ([] & wd & Hc1 & H). apply stm_bind_ok in H as ([] & we & Hc2 & H).
  injection H as <- <-. exists token, wa, wb, wc. split_and!; try done.
  etransitivity; [exact (keeps_at _ _ _ _ _ (claim_intent_keeps quiet _ _ _) Hc1)|].
  exact (keeps_at _ _ _ _ _ (check_ownership_keeps quiet _) Hc2).
Qed.

(** ** Traces grow *)

Lemma transmit_sees c x : keeps sees (transmit c x).
Proof.
  intros w. destruct (transmit_trace c x w) as [[Ht Hs]|(_ & _ & Hs & Ht)].
  - apply quiet_sees. by apply quiet_same.
  - eexists. split; [exact Ht|]. rewrite Hs. by exists [E_saw (w_shared w); E_write c x], [E_answer (env_execute (w_tick w) c x)].
Qed.
Lemma dispatch_sees d i c cap req : keeps sees (dispatch d i c cap req).
Proof. apply (keeps_bind sees); [apply recheck_keeps, _|intros x; apply transmit_sees]. Qed.
Lemma transmit_grows c x : keeps grows (transmit c x).
Proof.
  intros w. unfold grows.
  destruct (transmit_trace c x w) as [[-> _]|(_ & _ & _ & ->)]; [|by eexists].
  exists []. by rewrite app_nil_r.
Qed.
Lemma dispatch_grows d i c cap req : keeps grows (dispatch d i c cap req).
Proof. apply (keeps_bind grows); [apply recheck_keeps, _|intros x; apply transmit_grows]. Qed.
Lemma run_commands_grows p d i seen l :
  dispatch_of p d -> drop i (pl_commands p) = l -> keeps grows (run_commands d i seen l).
Proof.
  apply (run_commands_keeps grows p). apply (each_command grows). intros; apply dispatch_grows.
Qed.
Lemma run_plan_grows p d l o : dispatch_of p d -> keeps grows (run_plan p d l o).
Proof.
  apply (run_plan_keeps grows p).
  - apply (each_command grows). intros; apply dispatch_grows.
  - intros w. exists []. by rewrite app_nil_r.
Qed.
Lemma run_commands_sees p d i seen l :
  dispatch_of p d -> drop i (pl_commands p) = l -> keeps sees (run_commands d i seen l).
Proof.
  apply (run_commands_keeps sees p). apply (each_command sees). intros; apply dispatch_sees.
Qed.
Lemma execute_owned_grows p o cap : keeps grows (execute_owned p o cap).
Proof. apply (execute_owned_keeps grows p). intros d l. apply run_plan_grows. Qed.
End Trace.

(** The one write of the desk lamp. *)
Lemma lamp_writes : fst <$> writes (w_trace (snd (lamp_run lamp_world))) = [lamp_command "c1" "k1"].
Proof. vm_compute. reflexivity. Qed.
