(* ===== verification/ExecutionSafety.v ===== *)
(** * What an execution may write (application/executor.py)

    The safety theorems of [Executor.v], for every environment: no idempotency
    key is written twice, no plan is executed twice, every write passed its
    gates, the writes of a plan follow its order. *)

From S2P Require Import Prelude.
From S2P Require Import Values.
From S2P Require Import Models.
From S2P Require Import StateStore.
From S2P Require Import Digests.
From S2P Require Import ApprovalStore.
From S2P Require Import PlanService.
From S2P Require Import Coordination.
From S2P Require Import Admission.
From S2P Require Import Preflight.
From S2P Require Import Intents.
From S2P Require Import PlanRecords.
From S2P Require Import Ports.
From S2P Require Import Runtime.
From S2P Require Import Executor.
From S2P Require Import LampExecution.
From S2P Require Import ExecutionSteps.
From S2P Require Import ExecutionTrace.

Section Safety.
Context `{CJ : Canonical} {I R : Type} `{!PhysicalIntentPort I} `{!PlanRecordPort R}.
Context {ex : PlanExecutor} {env : Environment I R}.

Abbreviation M := (stm (World I R) exn).
Abbreviation World := (World I R).

(** ** One write per idempotency key *)

Definition ledger (w : World) : I := sh_intents (w_shared w).

(** The others use the ledger of intents only through its port. *)
Record polite_ledger : Prop := {
  pol_step_wf n sh : port_wf (sh_intents sh) -> port_wf (sh_intents (env_step n sh));
  pol_step_taken n sh k : port_wf (sh_intents sh) -> taken k (sh_intents sh) ->
    taken k (sh_intents (env_step n sh));
  pol_sleep_wf n d sh : port_wf (sh_intents sh) -> port_wf (sh_intents (env_sleep n d sh));
  pol_sleep_taken n d sh k : port_wf (sh_intents sh) -> taken k (sh_intents sh) ->
    taken k (sh_intents (env_sleep n d sh))
}.

Definition write_key (p : Plan) (c : Command) : key :=
  (au_household_id (pl_authority p), cmd_idempotency_key c).

(** The ledger became [t'], by its port alone: what is taken stays taken. *)
Definition later (t t' : I) : Prop := port_wf t -> port_wf t' /\ forall k, taken k t -> taken k t'.

(** One claim of [k], granted: the step of the ledger from [t] to [t']. *)
Definition granted (k : key) (t t' : I) : Prop := exists i cl,
  intent_key i = k /\ port_claim i t = (Ok cl, t') /\ cl_decision cl = CL_ACQUIRED.

(** Of one key there is one grant in any history of a ledger: neither before
    nor after this step is there another. *)
Definition only_grant (k : key) (t t' : I) : Prop := granted k t t' /\
  forall u u', port_wf u -> granted k u u' -> ~ later t' u /\ ~ later u' t.

Lemma granted_takes k t t' : port_wf t -> granted k t t' -> ~ taken k t /\ taken k t' /\ port_wf t'.
Proof.
  intros Hwf (i & cl & <- & H & Hd). destruct (port_claim_grants i t cl t' Hwf H Hd) as [Hn Ht].
  split_and!; [done|done|]. pose proof (port_claim_wf i t Hwf) as Hw. by rewrite H in Hw.
Qed.
Lemma granted_only k t t' : port_wf t -> granted k t t' -> only_grant k t t'.
Proof.
  intros Hwf Hg. split; [done|]. intros u u' Hu Hgu.
  destruct (granted_takes _ _ _ Hwf Hg) as (Hn & Ht & Hwf').
  destruct (granted_takes _ _ _ Hu Hgu) as (Hnu & Htu & Hu').
  split; intros Hl; [apply Hnu; by apply Hl|apply Hn; by apply Hl].
Qed.

(** After the last write of [t], this execution claimed the key of [c] for
    itself, in one step of the ledger between [sh1] and [sh2]. *)
Definition claimed_for (p : Plan) (t : list (event I R)) (c : Command) : Prop :=
  exists t1 sh1 sh2 i cl t2,
    t = t1 ++ E_saw sh1 :: E_saw sh2 :: E_claim i cl :: t2 /\ writes t2 = [] /\
    pi_plan_id i = pl_id p /\ pi_command_id i = cmd_id c /\ intent_key i = write_key p c /\
    cl_decision cl = CL_ACQUIRED /\ port_claim i (sh_intents sh1) = (Ok cl, sh_intents sh2) /\
    only_grant (write_key p c) (sh_intents sh1) (sh_intents sh2).

Lemma claimed_for_app p t t' c : claimed_for p t' c -> claimed_for p (t ++ t') c.
Proof.
  intros (t1 & sh1 & sh2 & i & cl & t2 & -> & H). exists (t ++ t1), sh1, sh2, i, cl, t2.
  by rewrite <- app_assoc.
Qed.

(** Every write of [t] was claimed for. *)
Definition all_claimed (p : Plan) (t : list (event I R)) : Prop := forall t1 c x t2,
  t = t1 ++ E_write c x :: t2 -> claimed_for p t1 c.

Lemma all_claimed_silent p t : writes t = [] -> all_claimed p t.
Proof.
  intros H t1 c x t2 ->. rewrite writes_app in H. by apply app_eq_nil in H as [_ ?].
Qed.
Lemma all_claimed_app p t t' : all_claimed p t -> all_claimed p t' -> all_claimed p (t ++ t').
Proof.
  intros H H' t1 c x t2 E. apply app_eq_inv in E as [(k & -> & E)|(k & -> & E)].
  - destruct k as [|e k]; simpl in E.
    + rewrite <- (app_nil_r t1). apply claimed_for_app. by eapply (H' [] c x t2).
    + injection E as <- E. by apply (H t1 c x k).
  - apply claimed_for_app. by apply (H' k c x t2).
Qed.

(** The keys of what was written since were free then, are taken now, and were
    claimed for it. *)
Definition once (p : Plan) (w w' : World) : Prop :=
  port_wf (ledger w) ->
  port_wf (ledger w') /\ (forall k, taken k (ledger w) -> taken k (ledger w')) /\
  exists new, w_trace w' = w_trace w ++ new /\ all_claimed p new /\
    Forall (fun '(c, _) => ~ taken (write_key p c) (ledger w) /\ taken (write_key p c) (ledger w'))
      (writes new).

#[local] Instance once_preorder p : PreOrder (once p).
Proof.
  split.
  - intros w Hw. split_and!; [done|done|]. exists []. rewrite app_nil_r.
    split_and!; [done|by apply all_claimed_silent|constructor].
  - intros w1 w2 w3 H12 H23 Hw1. destruct (H12 Hw1) as (Hw2 & T12 & new1 & E1 & C1 & F1).
    destruct (H23 Hw2) as (Hw3 & T23 & new2 & E2 & C2 & F2). split_and!; [done|eauto|].
    exists (new1 ++ new2). rewrite E2, E1, app_assoc. split_and!; [done|by apply all_claimed_app|].
    rewrite writes_app, Forall_app. split.
    + eapply Forall_impl; [exact F1|]. intros [c x] [? ?]. eauto.
    + eapply Forall_impl; [exact F2|]. intros [c x] [? ?]. eauto.
Qed.

Lemma once_quiet p w w' new :
  (port_wf (ledger w) -> port_wf (ledger w') /\ (forall k, taken k (ledger w) -> taken k (ledger w'))) ->
  w_trace w' = w_trace w ++ new -> writes new = [] -> once p w w'.
Proof.
  intros H E Hn Hw. destruct (H Hw) as [? ?]. split_and!; [done|done|].
  exists new. split_and!; [done|by apply all_claimed_silent|by rewrite Hn].
Qed.

Lemma once_same p w w' new :
  ledger w' = ledger w -> w_trace w' = w_trace w ++ new -> writes new = [] -> once p w w'.
Proof. intros Hl. apply once_quiet. by rewrite Hl. Qed.

Lemma once_see p w sh :
  (port_wf (ledger w) -> port_wf (sh_intents sh) /\
     (forall k, taken k (ledger w) -> taken k (sh_intents sh))) ->
  once p w (see sh w).
Proof. intros H. by apply (once_quiet _ _ _ [E_saw sh]). Qed.

#[local] Instance once_steps p : polite_ledger -> Steps (once p).
Proof.
  intros [H1 H2 H3 H4]. split; try (intros; by apply once_see).
  - apply _.
  - intros w n. apply (once_same _ _ _ []); [done|by rewrite app_nil_r|done].
  - intros w f _. apply (once_same _ _ _ []); [done|by rewrite app_nil_r|done].
  - intros w s v. by apply (once_same _ _ _ [E_readback s]).
  - intros w e He. apply (once_same _ _ _ [e]); [done|done|]. unfold writes. simpl.
    by rewrite write_of_other.
  - intros w n. apply once_see. intros Hw. split; [by apply H1|]. intros k. by apply H2.
  - intros w n d. apply once_see. intros Hw. split; [by apply H3|]. intros k. by apply H4.
  - intros w i. apply once_see. intros Hw. split; [by apply port_claim_wf|]. intros k.
    by apply port_claim_taken.
  - intros w t i s. apply once_see. intros Hw. split; [by apply port_settle_wf|]. intros k.
    by apply port_settle_taken.
Qed.

Section Ledger.
Context (p : Plan) (Hpol : polite_ledger) (Hintents : ex_physical_intents = true).

#[local] Instance once_steps' : Steps (once p) := once_steps p Hpol.

(** The claim of a key: answered from the ledger, or granted. *)
Lemma claim_intent_grants d c token w u w' :
  dispatch_of p d -> port_wf (ledger w) -> claim_intent d c token w = (Ok u, w') ->
  replaying w' \/ exists t, w_trace w' = w_trace w ++ t /\ writes t = [] /\ claimed_for p t c /\
    ~ taken (write_key p c) (ledger w) /\ taken (write_key p c) (ledger w').
Proof using Type*.
  intros Hd Hwf. unfold claim_intent. rewrite Hintents. destruct token as [t|]; [|done].
  set (i := intent_of d c t (sh_now (w_shared w))).
  assert (Hkey : intent_key i = write_key p c) by (unfold i, write_key; by rewrite <- (proj1 Hd)).
  change ((now ≫= ?f) w) with (f (sh_now (w_shared w)) w). cbv beta. fold i.
  rewrite stm_bind_lift. destruct (validate_intent i) as [[]|]; [|done].
  intros H. apply stm_bind_ok in H as (claim & w2 & H2 & H3). unfold database in H2.
  apply stm_bind_ok in H2 as ([] & w1 & H1 & H2).
  pose proof (await_result_keeps (once p) env_database w) as Ho. rewrite H1 in Ho.
  destruct (Ho Hwf) as (Hwf1 & Hmono & _). simpl in Hwf1, Hmono. unfold await_result in H1.
  apply stm_bind_ok in H1 as (r & w1' & H1 & Hr). apply lift_ok in Hr as [_ ->].
  injection H1 as _ <-. unfold on_intents in H2.
  destruct (port_claim i _) as [[cl|] t'] eqn:Ec; [|done].
  injection H2 as <- <-. destruct (cl_decision cl) eqn:Ed; try discriminate H3;
    unfold local, modify in H3; injection H3 as _ <-.
  - right. set (sh1 := env_step (w_tick w) (w_shared w)) in *.
    assert (granted (write_key p c) (sh_intents sh1) t') as Hg by (exists i, cl; split_and!; done).
    destruct (granted_takes _ _ _ Hwf1 Hg) as (Hn & Ht & _).
    exists [E_saw sh1; E_saw (sh1 <| sh_intents := t' |>); E_claim i cl].
    simpl. rewrite <- !app_assoc. split_and!; [done|done| |eauto|done].
    exists [], sh1, (sh1 <| sh_intents := t' |>), i, cl, [].
    split_and!; try done; [unfold i; simpl; by rewrite (proj1 Hd)|by apply granted_only].
  - left. exists (cl_intent cl). split; [done|]. by eapply port_claim_replays.
Qed.

Lemma claimed_for_silent t t' c : claimed_for p t c -> writes t' = [] -> claimed_for p (t ++ t') c.
Proof using Type.
  intros (t1 & sh1 & sh2 & i & cl & t2 & -> & Hn & H) Hn'. exists t1, sh1, sh2, i, cl, (t2 ++ t').
  rewrite <- app_assoc, writes_app, Hn, Hn'. split_and!; [done|done|apply H..].
Qed.

Lemma recheck_grants d i c cap req w x w' :
  dispatch_of p d -> port_wf (ledger w) -> recheck d i c cap req w = (Ok x, w') ->
  replaying w' \/ exists t, w_trace w' = w_trace w ++ t /\ claimed_for p t c /\
    ~ taken (write_key p c) (ledger w) /\ taken (write_key p c) (ledger w').
Proof using Type*.
  intros Hd Hwf H. unfold recheck in H. apply stm_bind_ok in H as (token & w1 & H1 & H).
  rewrite stm_bind_lift in H. destruct (validate_context _); [|done].
  apply stm_bind_ok in H as ([] & w2 & H2 & H). apply stm_bind_ok in H as ([] & w3 & H3 & H).
  injection H as _ <-.
  destruct (keeps_at _ _ _ _ _ (recheck_plan_keeps (once p) d i c cap) H1 Hwf) as (Hwf1 & T1 & n1 & E1 & _).
  destruct (keeps_at _ _ _ _ _ (claim_intent_keeps (once p) d c token) H2 Hwf1) as (Hwf2 & T2 & _).
  destruct (keeps_at _ _ _ _ _ (check_ownership_keeps (once p) d) H3 Hwf2) as (_ & T3 & _).
  destruct (claim_intent_grants _ _ _ _ _ _ Hd Hwf1 H2) as [Hr|(t & E & _ & Hc & Hn & Ht)].
  - left. unfold replaying in *. by rewrite (check_ownership_attempt _ _ _ _ H3).
  - destruct (quiet_silent _ _ (keeps_at _ _ _ _ _ (check_ownership_keeps quiet d) H3)) as (n3 & E3 & N3).
    right. exists (n1 ++ t ++ n3). rewrite E3, E, E1, <- !app_assoc.
    split_and!; [done|by apply claimed_for_app, claimed_for_silent|intros Hk; by apply Hn, T1|by apply T3].
Qed.

Lemma dispatch_once d i c cap req : dispatch_of p d -> keeps (once p) (dispatch d i c cap req).
Proof using Type*.
  intros Hd w Hwf. unfold dispatch.
  pose proof (recheck_keeps (once p) d i c cap req w) as Hrec.
  unfold mbind, stm_bind. destruct (recheck d i c cap req w) as [[x|e] w1] eqn:E1; [|by apply Hrec].
  simpl in Hrec. destruct (transmit_trace c x w1) as [[Ht Hs]|(Hr & _ & Hs & Ht)].
  - revert Hwf. change (once p w (snd (transmit c x w1))). etransitivity; [exact Hrec|].
    apply (once_same _ _ _ []); [|by rewrite app_nil_r|done]. unfold ledger. by rewrite Hs.
  - destruct (Hrec Hwf) as (Hwf1 & T1 & new & E & C & F).
    destruct (recheck_grants _ _ _ _ _ _ _ _ Hd Hwf E1) as [?|(t & Et & Hc & Hfree & Htaken)]; [done|].
    rewrite E in Et. apply app_inv_head in Et as <-.
    assert (port_wf (ledger (snd (transmit c x w1))) /\
      forall k, taken k (ledger w1) -> taken k (ledger (snd (transmit c x w1)))) as [Hwf2 T2].
    { unfold ledger. rewrite Hs. split; [by apply Hpol|]. intros k. by apply Hpol. }
    split_and!; [done|eauto|]. eexists (new ++ _). rewrite Ht, E, <- app_assoc. split_and!; [done| |].
    + intros t1 c' x' t2 Ew. apply app_eq_inv in Ew as [(k & -> & Ek)|(k & -> & Ek)].
      * destruct k as [|e k]; simpl in Ek; [|injection Ek as <- _; by eapply C].
        injection Ek as -> _. by rewrite app_nil_r in Hc.
      * destruct k as [|e [|e' [|e'' k]]]; simplify_eq/=; [by rewrite app_nil_r|]. destruct k; simplify_eq.
    + rewrite writes_app, Forall_app. split.
      * eapply Forall_impl; [exact F|]. intros [c' x'] [? ?]. eauto.
      * constructor; [|constructor]. eauto.
Qed.

Lemma reset_once o : keeps (once p) (local (fun a => a <| at_state_versions := default ∅ o |>)).
Proof. intros w. by apply (once_same _ _ _ []); [|rewrite app_nil_r|]. Qed.

End Ledger.

(** C2: no physical command is sent twice.  An executor built with the ledger of
    intents sends a command only after it claimed the household and
    idempotency key for itself since its previous write, in one atomic step of
    the ledger that granted the claim; and in every history of the ledger that
    is the only grant of the key, before or after.  So of executions that
    overlap, on however many hosts that share the ledger, one at most sends a
    command of the key.  The keys it wrote were free when it began and are
    claimed when it ends, and claimed keys stay claimed, so no retry sends the
    command again, whatever fails in between. *)
Theorem key_written_once p overrides capability w r w' :
  polite_ledger -> ex_physical_intents = true -> port_wf (ledger w) ->
  execute_owned p overrides capability w = (r, w') ->
  port_wf (ledger w') /\ (forall k, taken k (ledger w) -> taken k (ledger w')) /\
  exists new, w_trace w' = w_trace w ++ new /\ all_claimed p new /\
    Forall (fun '(c, _) => ~ taken (write_key p c) (ledger w) /\ taken (write_key p c) (ledger w'))
      (writes new).
Proof.
  intros Hpol Hint Hwf H. pose proof (once_steps p Hpol) as Hs.
  pose proof (execute_owned_keeps (once p) p overrides
    (run_plan_keeps _ p (each_command _ p (dispatch_once p Hpol Hint)) _ (reset_once p _))
    capability w) as Hk.
  rewrite H in Hk. by apply Hk.
Qed.

(** ** One execution per plan *)

(** The others use the plan records only through their port. *)
Record polite_records (id : string) : Prop := {
  pol_step_spent n sh : plan_spent id (sh_records sh) -> plan_spent id (sh_records (env_step n sh));
  pol_sleep_spent n d sh : plan_spent id (sh_records sh) ->
    plan_spent id (sh_records (env_sleep n d sh))
}.

Definition spent_in (id : string) (w : World) : Prop := plan_spent id (sh_records (w_shared w)).
Definition stays_spent (id : string) (w w' : World) : Prop := spent_in id w -> spent_in id w'.

#[local] Instance stays_spent_preorder id : PreOrder (stays_spent id).
Proof. split; unfold stays_spent; [by intros w|]. intros w1 w2 w3. eauto. Qed.

#[local] Instance stays_spent_steps id : polite_records id -> Steps (stays_spent id).
Proof.
  intros [H1 H2]. split; try done; try (intros; intros Hs; exact Hs).
  - apply _.
  - intros w n Hs. by apply H1.
  - intros w n d Hs. by apply H2.
  - intros w q l Hs. by apply port_claim_plan_keeps.
  - intros w q Hs. by apply port_settle_plan_keeps.
  - intros w id' l Hs. by apply port_mark_unknown_keeps.
Qed.

Section Records.
Context (p : Plan) (Hpol : polite_records (pl_id p)).
#[local] Instance stays_spent_steps' : Steps (stays_spent (pl_id p)) := stays_spent_steps _ Hpol.

Lemma dispatch_spent d i c cap req :
  dispatch_of p d -> keeps (stays_spent (pl_id p)) (dispatch d i c cap req).
Proof using Type*.
  intros _. apply (keeps_bind (stays_spent (pl_id p))); [apply recheck_keeps, _|]. intros x w Hs.
  unfold spent_in in *.
  destruct (transmit_trace c x w) as [[_ ->]|(_ & _ & -> & _)]; [done|]. by apply Hpol.
Qed.

Lemma reset_spent o : keeps (stays_spent (pl_id p)) (local (fun a => a <| at_state_versions := default ∅ o |>)).
Proof using Type*. intros w Hs. exact Hs. Qed.

Lemma run_plan_spent o d l :
  dispatch_of p d -> keeps (stays_spent (pl_id p)) (run_plan p d l o).
Proof using Type*.
  apply (run_plan_keeps _ p); [apply (each_command _), dispatch_spent|apply reset_spent].
Qed.

Context (Hrepo : ex_plan_repository = true).

Lemma claim_plan_fresh lease w u w' :
  claim_plan p lease w = (Ok u, w') -> ~ spent_in (pl_id p) w /\ spent_in (pl_id p) w'.
Proof using Type*.
  unfold claim_plan. rewrite Hrepo. intros H. apply stm_bind_ok in H as (claimed & w2 & H1 & H2).
  unfold database in H1. apply stm_bind_ok in H1 as ([] & w1 & H0 & H1).
  pose proof (keeps_at _ _ _ _ _ (await_result_keeps (stays_spent (pl_id p)) env_database) H0) as Hm.
  rewrite stm_bind_lift in H2. destruct claimed; [|done]. simpl in H2. injection H2 as _ <-.
  unfold on_records in H1.
  destruct (port_claim_plan _ _ (sh_records (w_shared w1))) as [[b|] r] eqn:E; [|done].
  injection H1 as -> <-. apply port_claim_plan_spent in E as [Hn Ht].
  split; [intros Hs; by apply Hn, Hm|done].
Qed.
End Records.

(** C3: a plan is executed once.  An executor built with the plan repository
    sends nothing for a plan that was claimed before, by anyone; when it sends
    anything, the plan was free when the execution began and is spent for good
    afterwards. *)
Theorem plan_executed_once p overrides capability w r w' :
  polite_records (pl_id p) -> ex_plan_repository = true ->
  execute_owned p overrides capability w = (r, w') ->
  (spent_in (pl_id p) w -> spent_in (pl_id p) w') /\
  exists new, w_trace w' = w_trace w ++ new /\
    (writes new <> [] -> ~ spent_in (pl_id p) w /\ spent_in (pl_id p) w').
Proof.
  intros Hpol Hrepo H. pose proof (stays_spent_steps _ Hpol) as Hs.
  pose proof (keeps_at _ _ _ _ _ (execute_owned_keeps (stays_spent (pl_id p)) p overrides
    (run_plan_spent p Hpol overrides) capability) H) as Hstay.
  split; [exact Hstay|]. pose proof H as Howned. unfold execute_owned, try_catch in H.
  destruct (execute_impl p overrides capability w) as [ri wi] eqn:Ei.
  assert (Hgrow : quiet wi w').
  { destruct ri as [outs|e]; [by injection H as _ <-|].
    exact (keeps_at _ _ _ _ _ (after_exception_keeps quiet p e) H). }
  destruct (execute_impl_cases _ _ _ _ _ _ Ei) as [Hsilent|(adm & lease & w0 & w1 & w2 & E1 & _ & E3 & E4 & Hrel)].
  - destruct (quiet_silent w w') as (new & E & F); [etransitivity; [apply (Hsilent quiet _)|done]|].
    exists new. by rewrite F.
  - destruct (claim_plan_fresh p Hpol Hrepo _ _ _ _ E3) as [Hn Ht].
    destruct (keeps_at _ _ _ _ _ (execute_owned_grows p overrides capability) Howned) as [new Hnew].
    exists new. split; [done|]. intros _. split.
    + intros Hw. apply Hn. by apply (proj1 (Hrel _ Hs)).
    + assert (Hwi : spent_in (pl_id p) wi).
      { refine (keeps_at _ _ _ _ _ (execute_claimed_keeps (stays_spent (pl_id p)) p overrides
          (run_plan_spent p Hpol overrides) adm lease _) E4 Ht).
      intros ->. by apply admitted_none in E1. }
      destruct ri as [outs|e]; [by injection H as _ <-|].
      exact (keeps_at _ _ _ _ _ (after_exception_keeps (stays_spent (pl_id p)) p e) H Hwi).
Qed.
End Safety.

(** ** Witnesses: the desk lamp *)

#[local] Existing Instance example_canonical.
#[local] Existing Instance lamp_executor.
#[local] Existing Instance lamp_environment.

Lemma lamp_polite : polite_ledger (I := intents) (R := plans).
Proof. by split. Qed.

Lemma key_written_once_witness :
  (exists t, claimed_for (I := intents) (R := plans) lamp_plan t (lamp_command "c1" "k1")) /\
  ~ taken ("default", "k1") (ledger lamp_world) /\
  taken ("default", "k1") (ledger (snd (lamp_run lamp_world))).
Proof.
  destruct (key_written_once (ex := lamp_executor) lamp_plan None None lamp_world _ (snd (lamp_run lamp_world))
    lamp_polite eq_refl (map_Forall_empty _) (surjective_pairing _)) as (_ & _ & new & E & C & F).
  pose proof lamp_writes as Hw. rewrite E, writes_app in Hw.
  destruct (writes new) as [|[c x] l] eqn:En; [discriminate Hw|]. injection Hw as -> _.
  destruct (writes_cons_inv _ _ _ _ En) as (t1 & t2 & -> & _ & _).
  split; [exists t1; exact (C t1 _ x t2 eq_refl)|]. exact (proj1 (proj1 (Forall_cons _ _ _) F)).
Defined.

Lemma plan_executed_once_witness :
  ~ spent_in "plan-1" lamp_world /\ spent_in "plan-1" (snd (lamp_run lamp_world)) /\
  writes (w_trace (snd (lamp_run (snd (lamp_run lamp_world))))) =
  writes (w_trace (snd (lamp_run lamp_world))).
Proof.
  assert (polite_records (I := intents) (R := plans) "plan-1") as Hpol by by split.
  destruct (plan_executed_once (ex := lamp_executor) lamp_plan None None lamp_world _ (snd (lamp_run lamp_world))
    Hpol eq_refl (surjective_pairing _)) as (_ & new & E & F).
  destruct F as [Hn Hs].
  { intros Hnil. pose proof lamp_writes as Hw. rewrite E, writes_app, Hnil in Hw. discriminate Hw. }
  split; [exact Hn|split; [exact Hs|]].
  destruct (plan_executed_once (ex := lamp_executor) lamp_plan None None (snd (lamp_run lamp_world)) _
    (snd (lamp_run (snd (lamp_run lamp_world)))) Hpol eq_refl (surjective_pairing _))
    as (_ & new' & E' & F').
  destruct (writes new') as [|e l] eqn:En; [by rewrite E', writes_app, En, app_nil_r|].
  exfalso. by apply (proj1 (F' ltac:(done))).
Defined.
