(* ===== verification/ExecutionGates.v ===== *)
(** * The gates of a write (application/executor.py)

    Every command an execution writes was cleared after the previous write: the
    plan and the evidence it rests on, its admission, the command's form, its
    preconditions and safety limits, and the lease of the household. *)

From S2P Require Import Prelude.
From S2P Require Import Values.
From S2P Require Import Models.
From S2P Require Import StateStore.
From S2P Require Import Digests.
From S2P Require Import ApprovalStore.
From S2P Require Import PlanService.
From S2P Require Import Coordination.
From S2P Require Import Admission.
From S2P Require Import Preflight.
From S2P Require Import Intents.
From S2P Require Import PlanRecords.
From S2P Require Import Ports.
From S2P Require Import Runtime.
From S2P Require Import Executor.
From S2P Require Import LampExecution.
From S2P Require Import ExecutionSteps.
From S2P Require Import ExecutionTrace.

Section Gates.
Context `{CJ : Canonical} {I R : Type} `{!PhysicalIntentPort I} `{!PlanRecordPort R}.
Context {ex : PlanExecutor} {env : Environment I R}.

Abbreviation M := (stm (World I R) exn).
Abbreviation World := (World I R).

(** The versions [vs] are the ones the execution started from, but for the
    readings it stored itself. *)
Definition own_versions (start vs : gmap string Z) (t : list (event I R)) : Prop := forall k,
  vs !! k = start !! k \/
  exists s, E_readback s ∈ t /\ k = dep_key (ss_device_id s) (ss_capability s).

(** What holds when [c] is written in the context [x] after [t]. *)
Record cleared (p : Plan) (start : gmap string Z) (t : list (event I R)) (c : Command)
    (x : ExecutionContext) : Prop := Cleared {
  cl_evidence : exists sh vs, seen_since t sh /\ own_versions start vs t /\
    assert_executable (sh_plan_service sh) (sh_now sh) p (Some vs) = Ok tt;
  cl_admission : ex_execution_admission = true ->
    exists sh a, seen_since t sh /\ readmitted p sh a;
  cl_command : exists i command sh v sh', pl_commands p !! i = Some command /\
    seen_since t sh /\ validate_command_semantics (sh_plan_service sh) command = Ok v /\
    cv_errors v = [] /\ c = cv_command v /\
    seen_since t sh' /\ preconditions_failing p i sh' c = [] /\
    safety_check sh' c (cv_capability v) = Ok None;
  cl_lease : ex_fencing_guard = true -> exists sh token, seen_since t sh /\
    current_token p sh token /\ ec_fencing_scope x = Some (ft_scope token) /\
    ec_fencing_epoch x = Some (ft_epoch token) /\ ec_lease_id x = Some (ft_lease_id token);
  cl_context : ec_plan_id x = pl_id p /\ validate_context x = Ok tt;
  cl_wanted : exists sh, seen_since t sh /\ sh_cancel_requested sh = false
}.

Lemma own_versions_app start vs t new : own_versions start vs t -> own_versions start vs (t ++ new).
Proof.
  intros H k. destruct (H k) as [?|(s & Hs & ->)]; [by left|right].
  exists s. split; [set_solver|done].
Qed.

Lemma own_versions_cons start vs e t : own_versions start vs t -> own_versions start vs (e :: t).
Proof.
  intros H k. destruct (H k) as [?|(s & Hs & ->)]; [by left|right].
  exists s. split; [by apply elem_of_cons; right|done].
Qed.

Section Invariant.
Context (p : Plan) (start : gmap string Z) (base : list (event I R)) (sh0 : Shared I R).

(** Every write since [base] was cleared; [armed]: [start] is where the
    versions of the dispatches come from. *)
Definition cleared_trace (t : list (event I R)) : Prop := forall t1 c x t2,
  t = t1 ++ E_write c x :: t2 -> cleared p start (E_saw sh0 :: t1) c x.
Definition gates_hold (armed : bool) (w : World) : Prop := exists new,
  w_trace w = base ++ new /\ seen_since (E_saw sh0 :: new) (w_shared w) /\ cleared_trace new /\
  (armed = true -> own_versions start (at_state_versions (w_attempt w)) new).
Definition gated (armed : bool) (w w' : World) : Prop := gates_hold armed w -> gates_hold armed w'.

#[local] Instance gated_preorder armed : PreOrder (gated armed).
Proof using Type. split; unfold gated; [by intros w|]. intros w1 w2 w3. eauto. Qed.

Lemma cleared_trace_app t new : cleared_trace t -> writes new = [] -> cleared_trace (t ++ new).
Proof using Type.
  intros H Hn t1 c x t2 E. apply app_eq_inv in E as [(k & -> & E)|(k & -> & E)].
  - destruct k as [|e k]; simpl in E.
    + rewrite <- E in Hn. discriminate Hn.
    + injection E as <- E. by apply (H t1 c x k).
  - rewrite E, writes_app in Hn. simpl in Hn. by apply app_eq_nil in Hn as [_ ?].
Qed.

(** A quiet step that keeps the versions, or sets one it read back. *)
Lemma gated_quiet armed w w' :
  quiet w w' ->
  (forall t, own_versions start (at_state_versions (w_attempt w)) t ->
     forall new, w_trace w' = w_trace w ++ new ->
     own_versions start (at_state_versions (w_attempt w')) (t ++ new)) ->
  gated armed w w'.
Proof using Type.
  intros (new & E & Hn & Hs) Hv (old & Eo & Hold & Hc & Ha). exists (old ++ new).
  rewrite E, Eo, app_assoc. split_and!; [done| |by apply cleared_trace_app|eauto].
  by apply (seen_after _ w w' new) in Hold.
Qed.

Lemma gated_quiet_same armed w w' :
  quiet w w' -> at_state_versions (w_attempt w') = at_state_versions (w_attempt w) ->
  gated armed w w'.
Proof using Type.
  intros Hq Hv. apply gated_quiet; [done|]. intros t Ht new _. rewrite Hv. by apply own_versions_app.
Qed.

#[local] Instance gated_steps armed : Steps (gated armed).
Proof using Type.
  split; try (intros; by apply gated_quiet_same; [apply quiet_see|]);
    try (intros; by apply gated_quiet_same; [apply quiet_same|]).
  - apply _.
  - intros w f Hf. apply gated_quiet_same; [by apply quiet_same|]. apply Hf.
  - intros w s v. apply gated_quiet; [exists [E_readback s]; auto|].
    intros t Ht new E. apply app_inv_head in E as <-. intros k. simpl.
    destruct (decide (k = dep_key (ss_device_id s) (ss_capability s))) as [->|Hk].
    + right. exists s. split; [set_solver|done].
    + rewrite lookup_insert_ne by done. by apply own_versions_app.
  - intros w e He. apply gated_quiet_same; [by apply quiet_emit, write_of_other|done].
Qed.
(** *** The write *)

Definition seen_in (w : World) (sh : Shared I R) : Prop := exists new,
  w_trace w = base ++ new /\ seen_since (E_saw sh0 :: new) sh.

Lemma seen_in_quiet w w' sh : quiet w w' -> seen_in w sh -> seen_in w' sh.
Proof using Type.
  intros (new & E & Hn & _) (old & Eo & H). exists (old ++ new). rewrite E, Eo, app_assoc.
  split; [done|]. by apply (seen_since_app (E_saw sh0 :: old)).
Qed.
Lemma seen_in_now w w' : quiet w w' -> seen_in w (w_shared w) -> seen_in w' (w_shared w').
Proof using Type.
  intros (new & E & Hn & Hs) (old & Eo & H). exists (old ++ new). rewrite E, Eo, app_assoc.
  split; [done|]. by apply (seen_after (E_saw sh0 :: old) w w' new).
Qed.

Lemma recheck_cleared d i command v req sh w x w' :
  dispatch_of p d -> pl_commands p !! i = Some command ->
  validate_command_semantics (sh_plan_service sh) command = Ok v -> cv_errors v = [] ->
  gates_hold true w -> seen_in w sh ->
  recheck d i (cv_command v) (cv_capability v) req w = (Ok x, w') ->
  sh_cancel_requested (w_shared w') = false ->
  exists new, w_trace w' = base ++ new /\ cleared p start (E_saw sh0 :: new) (cv_command v) x.
Proof using Type*.
  intros [Hd Hadm] Hi Hv He (new & E & Hs & _ & Hown) Hsh H Hc.
  destruct (recheck_passed _ _ _ _ _ _ _ _ H)
    as (token & wa & wb & wc & Qa & Qb & Qc & Qd & Hex & Ha & Hp & Hsafe & Ht & -> & Hctx).
  rewrite Hd in *. assert (seen_in w (w_shared w)) as S0 by by exists new.
  pose proof (seen_in_now _ _ Qa S0) as Sa. pose proof (seen_in_now _ _ Qb Sa) as Sb.
  pose proof (seen_in_now _ _ Qc Sb) as Sc. pose proof (seen_in_now _ _ Qd Sc) as Sd.
  assert (quiet w w') as Q by (by repeat (etransitivity; [eassumption|])).
  assert (forall w1 sh1, quiet w1 w' -> seen_in w1 sh1 -> seen_in w' sh1) as Hin
    by (intros ??; apply seen_in_quiet).
  destruct (Hin w (w_shared w) Q S0) as (new' & E' & S0').
  assert (forall w1 sh1, quiet w1 w' -> seen_in w1 sh1 -> seen_since (E_saw sh0 :: new') sh1) as Hseen.
  { intros w1 sh1 Q1 S1. destruct (Hin w1 sh1 Q1 S1) as (n & E1 & S1').
    rewrite E' in E1. by apply app_inv_head in E1 as <-. }
  exists new'. split; [exact E'|]. split.
  - exists (w_shared w), (at_state_versions (w_attempt w)). split_and!; [done| |done].
    destruct Q as (n & En & _). rewrite E, <- app_assoc, E' in En. apply app_inv_head in En as ->.
    by apply own_versions_cons, own_versions_app, Hown.
  - intros Hea. destruct (dc_admission d) as [a|]; [|by rewrite Hadm in Hea].
    exists (w_shared wa), a. split; [|done]. apply (Hseen wa); [by do 2 (etransitivity; [eassumption|])|done].
  - exists i, command, sh, v, (w_shared wb). split_and!; try done; [by eapply Hseen|].
    eapply Hseen, Sb. by etransitivity.
  - intros Hf. destruct token as [t|]; [|congruence]. exists (w_shared wc), t. split; [by apply (Hseen wc)|done].
  - simpl. by rewrite Hd.
  - exists (w_shared w'). split; [|done]. by apply (Hseen w').
Qed.

Lemma dispatch_gated d i command v req sh w :
  dispatch_of p d -> pl_commands p !! i = Some command ->
  validate_command_semantics (sh_plan_service sh) command = Ok v -> cv_errors v = [] ->
  seen_in w sh -> gated true w (snd (dispatch d i (cv_command v) (cv_capability v) req w)).
Proof using Type*.
  intros Hd Hi Hv He Hsh Hw. unfold dispatch, mbind, stm_bind.
  pose proof (recheck_keeps (gated true) d i (cv_command v) (cv_capability v) req w Hw) as Hr.
  destruct (recheck _ _ _ _ _ _) as [[x|e] w1] eqn:Er; [|exact Hr]. simpl in Hr.
  destruct (transmit_trace (cv_command v) x w1) as [[Ht Hs]|(_ & Hc & Hs & Ht)];
    pose proof (transmit_versions (cv_command v) x w1) as Hvs.
  { revert Hr. apply (gated_quiet_same true); [by apply quiet_same|done]. }
  destruct (recheck_cleared _ _ _ _ _ _ _ _ _ Hd Hi Hv He Hw Hsh Er Hc) as (new & E & Hcl).
  destruct Hr as (new' & E' & Hseen & Htr & Hown). rewrite E in E'. apply app_inv_head in E' as <-.
  eexists. rewrite Ht, E, <- app_assoc. split; [done|]. split_and!.
  - rewrite Hs. eexists (E_saw sh0 :: new ++ [_]), [_]. simpl. by rewrite <- app_assoc.
  - intros t1 c x' t2 Et. apply app_eq_inv in Et as [(k & -> & Et)|(k & -> & Et)].
    + destruct k as [|e k]; simpl in Et; [|by injection Et as <- _; eapply Htr].
      injection Et as -> -> _. by rewrite app_nil_r in Hcl.
    + destruct k as [|e [|e' [|e'' k]]]; simplify_eq/=; [by rewrite app_nil_r|].
      destruct k; simplify_eq.
  - intros _. rewrite Hvs. by apply own_versions_app, Hown.
Qed.
Lemma command_gated d i command v w :
  dispatch_of p d -> pl_commands p !! i = Some command ->
  validate_command_semantics (sh_plan_service (w_shared w)) command = Ok v -> cv_errors v = [] ->
  gated true w (snd (execute_command d i (cv_command v) (cv_capability v) w)).
Proof using Type*.
  intros Hd Hi Hv He Hw.
  destruct (execute_command_around d i (cv_command v) (cv_capability v) w)
    as [H|(req & w1 & _ & H1 & H2)]; [by apply (H (gated true) _)|].
  apply (H2 (gated true) _), (dispatch_gated d i command v req (w_shared w)); try done.
  - apply (seen_in_quiet w); [apply (H1 quiet), _|]. destruct Hw as (new & ? & ? & _). by exists new.
  - by apply (H1 (gated true) _).
Qed.

Lemma run_plan_gated overrides d l :
  start = default ∅ overrides -> dispatch_of p d -> keeps (gated false) (run_plan p d l overrides).
Proof using Type*.
  intros Hstart Hd w (new & E & Hs & Hc & _).
  change (gates_hold false (snd (run_dispatch p d l
    (snd (local (fun a => a <| at_state_versions := default ∅ overrides |>) w))))).
  destruct (run_dispatch_keeps (gated true) p command_gated d l Hd
    (snd (local (fun a => a <| at_state_versions := default ∅ overrides |>) w)))
    as (new' & E' & Hs' & Hc' & _).
  - exists new. split_and!; [done|done|done|]. intros _ k. left. by rewrite Hstart.
  - by exists new'.
Qed.
End Invariant.

(** C1: every write passed its gates.  Whatever the others do between the
    awaits, when an execution writes a command, then since its previous write
    (or its beginning) it saw: the plan executable under state versions that
    differ from the ones it was started with only where it stored a readback of
    its own; its admission renewed; a command of the plan whose validated form
    is the one written, with its preconditions met and no safety limit,
    static or dynamic, violated; the lease of the household held under exactly
    the fencing scope, epoch and lease the adapter is handed; and no request
    to cancel. *)
Theorem write_gated p overrides capability w r w' :
  execute_owned p overrides capability w = (r, w') ->
  exists new, w_trace w' = w_trace w ++ new /\
    forall t1 c x t2, new = t1 ++ E_write c x :: t2 ->
    cleared p (default ∅ overrides) (E_saw (w_shared w) :: t1) c x.
Proof.
  intros H. set (start := default ∅ overrides).
  assert (gates_hold p start (w_trace w) (w_shared w) false w') as (new & E & _ & Hc & _);
    [|by exists new].
  pose proof (gated_steps p start (w_trace w) (w_shared w) false) as HS.
  refine (keeps_at _ _ _ _ _ (execute_owned_keeps _ p overrides _ capability) H _).
  - intros d l Hd. by apply run_plan_gated.
  - exists []. rewrite app_nil_r. split_and!; [done| |by intros [|??] ????|done].
    by exists [], [].
Qed.
End Gates.

(** ** Witness: the desk lamp *)

#[local] Existing Instance example_canonical.

Lemma write_gated_witness : exists t c x, c = lamp_command "c1" "k1" /\
  cleared (ex := lamp_executor) (env := lamp_environment) lamp_plan ∅ t c x.
Proof.
  destruct (write_gated (ex := lamp_executor) (env := lamp_environment) lamp_plan None None lamp_world
    _ (snd (lamp_run lamp_world)) (surjective_pairing _)) as (new & E & H).
  pose proof lamp_writes as Hw. rewrite E, writes_app in Hw.
  destruct (writes new) as [|[c x] l] eqn:Ew; [discriminate Hw|]. injection Hw as -> _.
  destruct (writes_cons_inv _ _ _ _ Ew) as (t1 & t2 & Et & _ & _).
  exists (E_saw (w_shared lamp_world) :: t1), (lamp_command "c1" "k1"), x.
  split; [reflexivity|exact (H t1 _ x t2 Et)].
Defined.
