(* ===== verification/ExecutionOrder.v ===== *)
(** * The order of the writes (application/executor.py)

    An execution writes commands of its plan, in the order of the plan, each at
    most once and no idempotency key twice. *)

From S2P Require Import Prelude.
From S2P Require Import Values.
From S2P Require Import Models.
From S2P Require Import StateStore.
From S2P Require Import Digests.
From S2P Require Import ApprovalStore.
From S2P Require Import PlanService.
From S2P Require Import Coordination.
From S2P Require Import Admission.
From S2P Require Import Preflight.
From S2P Require Import Intents.
From S2P Require Import PlanRecords.
From S2P Require Import Ports.
From S2P Require Import Runtime.
From S2P Require Import Executor.
From S2P Require Import LampExecution.
From S2P Require Import ExecutionSteps.
From S2P Require Import ExecutionTrace.

Section Order.
Context `{CJ : Canonical} {I R : Type} `{!PhysicalIntentPort I} `{!PlanRecordPort R}.
Context {ex : PlanExecutor} {env : Environment I R}.

Abbreviation M := (stm (World I R) exn).
Abbreviation World := (World I R).

(** [cs] was written. *)
Definition wrote (cs : list Command) (w w' : World) : Prop :=
  exists new, w_trace w' = w_trace w ++ new /\ fst <$> writes new = cs.
Definition wrote_in (P : list Command -> Prop) (w w' : World) : Prop := exists cs, P cs /\ wrote cs w w'.

Lemma wrote_quiet w w' : quiet w w' -> wrote [] w w'.
Proof. intros (new & E & Hn & _). exists new. by rewrite Hn. Qed.
Lemma wrote_trans l1 l2 w1 w2 w3 : wrote l1 w1 w2 -> wrote l2 w2 w3 -> wrote (l1 ++ l2) w1 w3.
Proof.
  intros (n1 & E1 & <-) (n2 & E2 & <-). exists (n1 ++ n2).
  by rewrite E2, E1, app_assoc, writes_app, fmap_app.
Qed.
Lemma wrote_before l w1 w2 w3 : quiet w1 w2 -> wrote l w2 w3 -> wrote l w1 w3.
Proof. intros H1 H2. exact (wrote_trans [] l _ _ _ (wrote_quiet _ _ H1) H2). Qed.
Lemma wrote_after l w1 w2 w3 : wrote l w1 w2 -> quiet w2 w3 -> wrote l w1 w3.
Proof. intros H1 H2. rewrite <- (app_nil_r l). by eapply wrote_trans, wrote_quiet. Qed.

Lemma bind_wrote {A B} P (m : M A) (f : A -> M B) w :
  keeps quiet m -> P [] -> (forall a w1, m w = (Ok a, w1) -> wrote_in P w1 (snd (f a w1))) ->
  wrote_in P w (snd ((m ≫= f) w)).
Proof.
  intros Hm HP Hf. specialize (Hm w). unfold mbind, stm_bind. destruct (m w) as [[a|e] w1] eqn:E.
  - destruct (Hf a w1 eq_refl) as (cs & Hcs & Hw). exists cs. split; [done|].
    by eapply wrote_before.
  - exists []. split; [done|by apply wrote_quiet].
Qed.
Lemma wrote_bind {A B} P (m : M A) (f : A -> M B) w :
  wrote_in P w (snd (m w)) -> (forall a, keeps quiet (f a)) -> wrote_in P w (snd ((m ≫= f) w)).
Proof.
  intros (cs & Hcs & Hw) Hf. unfold mbind, stm_bind. exists cs. split; [done|].
  destruct (m w) as [[a|e] w1]; [|done]. eapply wrote_after; [done|]. apply Hf.
Qed.

Lemma dispatch_wrote d i c cap req w :
  wrote [] w (snd (dispatch d i c cap req w)) \/ wrote [c] w (snd (dispatch d i c cap req w)).
Proof.
  unfold dispatch, mbind, stm_bind. pose proof (recheck_keeps quiet d i c cap req w) as Hr.
  destruct (recheck _ _ _ _ _ _) as [[x|e] w1]; [|left; by apply wrote_quiet].
  destruct (transmit_trace c x w1) as [[Ht Hs]|(_ & _ & Hs & Ht)].
  - left. apply wrote_quiet. etransitivity; [exact Hr|]. by apply quiet_same.
  - right. eapply wrote_before; [exact Hr|]. eexists. split; [exact Ht|done].
Qed.

Lemma execute_command_wrote d i c cap w :
  wrote [] w (snd (execute_command d i c cap w)) \/ wrote [c] w (snd (execute_command d i c cap w)).
Proof.
  destruct (execute_command_around d i c cap w) as [H|(req & w1 & _ & H1 & H2)].
  - left. by apply wrote_quiet, (H quiet _).
  - specialize (H1 quiet _). specialize (H2 quiet _).
    destruct (dispatch_wrote d i c cap req w1) as [Hd|Hd]; [left|right];
      (eapply wrote_after; [|exact H2]); (eapply wrote_before; [exact H1|exact Hd]).
Qed.

(** What the loop may write for the commands [l] after the keys [seen]. *)
Definition in_order (seen : list string) (l cs : list Command) : Prop :=
  (exists sub, sub `sublist_of` l /\ Forall2 normalizes sub cs) /\
  NoDup (cmd_idempotency_key <$> cs) /\ Forall (fun c => cmd_idempotency_key c ∉ seen) cs.

Lemma in_order_nil seen l : in_order seen l [].
Proof. split; [|by split; constructor]. exists []. split; [apply sublist_nil_l|constructor]. Qed.
Lemma in_order_skip seen c l cs : in_order seen l cs -> in_order seen (c :: l) cs.
Proof. intros [(sub & Hs & Hf) H]. split; [|done]. exists sub. split; [by constructor|done]. Qed.
Lemma in_order_weaken k seen l cs : in_order (k :: seen) l cs -> in_order seen l cs.
Proof.
  intros (? & ? & H). split_and!; [done|done|]. eapply Forall_impl; [exact H|].
  intros c Hc Hin. by apply Hc; right.
Qed.
Lemma in_order_cons seen c c' l cs :
  normalizes c c' -> cmd_idempotency_key c' ∉ seen ->
  in_order (cmd_idempotency_key c' :: seen) l cs -> in_order seen (c :: l) (c' :: cs).
Proof.
  intros Hn Hk ((sub & Hs & Hf) & Hd & Hseen). split_and!.
  - exists (c :: sub). split; [by constructor|by constructor].
  - simpl. constructor; [|done]. intros (c2 & E & Hin)%list_elem_of_fmap.
    apply (proj1 (Forall_forall _ _) Hseen c2) in Hin. set_solver.
  - constructor; [done|]. eapply Forall_impl; [exact Hseen|]. intros c2 Hc Hin. by apply Hc; right.
Qed.

Lemma run_commands_wrote d i seen l w :
  wrote_in (in_order seen l) w (snd (run_commands d i seen l w)).
Proof.
  revert i seen w. induction l as [|c l IH]; intros i seen w; simpl.
  { exists []. split; [apply in_order_nil|]. by apply wrote_quiet. }
  assert (forall o m j, keeps quiet m -> wrote_in (in_order seen (c :: l)) o
    (snd ((m ≫= fun x => run_commands d j seen l ≫= fun os => mret (x :: os)) o))) as Hskip.
  { intros o m j Hm. apply bind_wrote; [done|apply in_order_nil|]. intros x w1 _.
    apply wrote_bind; [|intros; apply keeps_ret, _].
    destruct (IH j seen w1) as (cs & Hcs & ?). exists cs. split; [by apply in_order_skip|done]. }
  change ((shared ≫= ?f) w) with (f (w_shared w) w). cbv beta.
  destruct (sh_cancel_requested _); [apply Hskip, not_sent_keeps, _|].
  rewrite stm_bind_lift. destruct (validate_command_semantics _ c) as [v|] eqn:Ev.
  2: { exists []. split; [apply in_order_nil|]. by apply wrote_quiet. }
  destruct (cv_errors v) as [|e es]; [|apply Hskip, not_sent_keeps, _].
  rewrite stm_bind_lift. destruct (raise_if _ _) as [[]|] eqn:Er.
  2: { exists []. split; [apply in_order_nil|]. by apply wrote_quiet. }
  apply raise_if_ok, bool_decide_eq_false in Er.
  apply semantics_normalizes in Ev.
  assert (forall o w1, wrote_in (in_order (cmd_idempotency_key (cv_command v) :: seen) l) w1
    (snd ((local (fun a => a <| at_dispatching := false |>) ≫= fun _ => save_outcome ≫= fun _ =>
       (if bool_decide (dc_takeover_first d = Some (eo_command_id o)) &&
           negb (bool_decide (eo_status o = ES_CONFIRMED_SUCCESS))
        then block_all d (eo_command_id o) l
        else run_commands d (S i) (cmd_idempotency_key (cv_command v) :: seen) l) ≫= fun os =>
       mret (o :: os)) w1))) as Hrest.
  { intros o w1. apply bind_wrote; [by apply local_keeps; [apply _|]|apply in_order_nil|].
    intros _ w2 _. apply bind_wrote; [apply save_outcome_keeps, _|apply in_order_nil|].
    intros _ w3 _. apply wrote_bind; [|intros; apply keeps_ret, _].
    destruct (_ && _); [|apply IH]. exists []. split; [apply in_order_nil|].
    apply wrote_quiet, block_all_keeps, _. }
  unfold mbind at 1, stm_bind at 1.
  pose proof (execute_command_wrote d i (cv_command v) (cv_capability v) w) as Hx.
  destruct (execute_command _ _ _ _ w) as [[o|e] w1].
  2: { destruct Hx as [Hx|Hx]; eexists; (split; [|exact Hx]); [apply in_order_nil|].
       apply in_order_cons; [done|done|apply in_order_nil]. }
  destruct (Hrest o w1) as (cs & Hcs & Hw). destruct Hx as [Hx|Hx]; simpl in Hx.
  - exists cs. split; [by eapply in_order_skip, in_order_weaken|]. by apply (wrote_trans [] cs _ w1).
  - exists (cv_command v :: cs). split; [by apply in_order_cons|].
    by apply (wrote_trans [cv_command v] cs _ w1).
Qed.

(** C7: the writes follow the plan.  The commands an execution writes are
    commands of its plan in the plan's order, each at most once and changed at
    most in its unit, and no two of them have the same idempotency key. *)
Theorem writes_follow_plan p overrides capability w r w' :
  execute_owned p overrides capability w = (r, w') ->
  exists new, w_trace w' = w_trace w ++ new /\
    (exists sub, sub `sublist_of` pl_commands p /\ Forall2 normalizes sub (fst <$> writes new)) /\
    NoDup (cmd_idempotency_key <$> (fst <$> writes new)).
Proof.
  intros H. assert (wrote_in (in_order [] (pl_commands p)) w w') as (cs & Hcs & new & E & Hw).
  { pose proof (execute_owned_around p overrides capability w) as Ha. rewrite H in Ha. simpl in Ha.
    destruct Ha as [Hf|([d l] & w1 & _ & H1 & H2)].
    - exists []. split; [apply in_order_nil|]. by apply wrote_quiet, (Hf quiet _).
    - specialize (H1 quiet _). specialize (H2 quiet _). unfold run_once in H2. simpl in H2.
      assert (wrote_in (in_order [] (pl_commands p)) w1 (snd (run_plan p d l overrides w1)))
        as (cs & Hcs & Hw).
      { set (w2 := snd (local (fun a => a <| at_state_versions := default ∅ overrides |>) w1)).
        change (wrote_in (in_order [] (pl_commands p)) w1 (snd (run_dispatch p d l w2))).
        assert (wrote_in (in_order [] (pl_commands p)) w2 (snd (run_dispatch p d l w2)))
          as (cs & Hcs & Hw).
        { apply wrote_bind; [apply run_commands_wrote|]. intros os. apply settle_run_keeps, _. }
        exists cs. split; [done|]. eapply wrote_before; [|exact Hw]. by apply quiet_same. }
      exists cs. split; [done|]. eapply wrote_after; [|exact H2]. by eapply wrote_before. }
  exists new. split; [done|]. rewrite Hw. by destruct Hcs as (? & ? & _).
Qed.
End Order.

(** ** Witness: the desk lamp *)

#[local] Existing Instance example_canonical.

Lemma writes_follow_plan_witness :
  exists sub, sub `sublist_of` pl_commands lamp_plan /\
  Forall2 normalizes sub [lamp_command "c1" "k1"].
Proof.
  destruct (writes_follow_plan (ex := lamp_executor) (env := lamp_environment) lamp_plan None None
    lamp_world _ (snd (lamp_run lamp_world)) (surjective_pairing _))
    as (new & E & (sub & Hs & Hf) & _).
  exists sub. split; [exact Hs|]. pose proof lamp_writes as Hw. rewrite E, writes_app in Hw.
  change (fst <$> writes new = [lamp_command "c1" "k1"]) in Hw. rewrite Hw in Hf. exact Hf.
Defined.
