(* ===== verification/ExecutionOutcomes.v ===== *)
(** * The report of an execution (application/executor.py)

    What an execution returns and how it ends: one outcome per command, settled
    with the plan, or an exception after which the plan is marked unknown and
    physical control is given back. *)

From S2P Require Import Prelude.
From S2P Require Import Values.
From S2P Require Import Models.
From S2P Require Import StateStore.
From S2P Require Import Digests.
From S2P Require Import ApprovalStore.
From S2P Require Import PlanService.
From S2P Require Import Coordination.
From S2P Require Import Admission.
From S2P Require Import Preflight.
From S2P Require Import Intents.
From S2P Require Import PlanRecords.
From S2P Require Import Ports.
From S2P Require Import Runtime.
From S2P Require Import Executor.
From S2P Require Import LampExecution.
From S2P Require Import ExecutionSteps.
From S2P Require Import ExecutionTrace.

Section Outcomes.
Context `{CJ : Canonical} {I R : Type} `{!PhysicalIntentPort I} `{!PlanRecordPort R}.
Context {ex : PlanExecutor} {env : Environment I R}.

Abbreviation M := (stm (World I R) exn).
Abbreviation World := (World I R).

(** ** What a computation returns *)

Definition yields {A} (P : A -> Prop) (m : M A) : Prop := forall w a w', m w = (Ok a, w') -> P a.

Lemma yields_ret {A} (P : A -> Prop) a : P a -> yields P (mret a).
Proof. intros H w b w' [= <- _]. done. Qed.
Lemma yields_raise {A} (P : A -> Prop) e : yields P (raise e : M A).
Proof. by intros w b w'. Qed.
Lemma yields_bind {A B} (Q : A -> Prop) (P : B -> Prop) (m : M A) (f : A -> M B) :
  yields Q m -> (forall a, Q a -> yields P (f a)) -> yields P (m ≫= f).
Proof. intros Hm Hf w b w' (a & w1 & H1 & H2)%stm_bind_ok. eapply Hf; eauto. Qed.
Lemma yields_after {A B} (P : B -> Prop) (m : M A) (f : A -> M B) :
  (forall a, yields P (f a)) -> yields P (m ≫= f).
Proof. intros Hf. by apply (yields_bind (fun _ => True)). Qed.
Lemma yields_impl {A} (P Q : A -> Prop) (m : M A) :
  yields P m -> (forall a, P a -> Q a) -> yields Q m.
Proof. intros Hm H w a w' E. eauto. Qed.

Create HintDb yields.
Ltac yield :=
  repeat first
    [ solve [eauto 2 with yields nocore]
    | apply yields_raise
    | apply yields_ret
    | apply yields_after; intros ?
    | match goal with
      | |- yields _ (match ?x with _ => _ end) => destruct x
      | |- yields _ (if ?x then _ else _) => destruct x
      end ].

(** ** One outcome per command *)

Definition reports (d : DispatchContext) (id : string) (o : ExecutionOutcome) : Prop :=
  eo_command_id o = id /\ eo_plan_id o = pl_id (dc_plan d) /\
  eo_execution_attempt_id o = dc_attempt_id d.

Lemma outcome_reports d id req st ref b a e :
  yields (reports d id) (outcome (dc_plan d) (dc_attempt_id d) id req st ref b a e).
Proof. unfold outcome. yield. by split_and!. Qed.
Hint Resolve outcome_reports : yields.
Lemma rejected_reports d c req b e :
  yields (reports d (cmd_id c)) (rejected (dc_plan d) (dc_attempt_id d) c req b e).
Proof. unfold rejected. yield. Qed.
Hint Resolve rejected_reports : yields.
Lemma not_sent_reports d c e : yields (reports d (cmd_id c)) (not_sent d c e).
Proof.
  apply (yields_bind (reports d (cmd_id c))); [yield|]. intros o Ho. by yield.
Qed.
Lemma acknowledged_reports d c name b req ack :
  yields (reports d (cmd_id c)) (acknowledged d c name b req ack).
Proof. unfold acknowledged. yield. Qed.
Hint Resolve acknowledged_reports : yields.
Lemma on_exception_reports d c b req e : yields (reports d (cmd_id c)) (on_exception d c b req e).
Proof. unfold on_exception. yield. Qed.
Hint Resolve on_exception_reports : yields.
Lemma physical_command_reports d i c cap b :
  yields (reports d (cmd_id c)) (physical_command d i c cap b).
Proof.
  unfold physical_command. do 2 (apply yields_after; intros ?).
  apply (yields_bind (fun r => match r with Ok o => reports d (cmd_id c) o | Err _ => True end)).
  - intros w r w'. unfold try_. destruct (attempt_command _ _ _ _ _ _ w) as [r' w1] eqn:E.
    intros [= <- <-]. destruct r' as [o|]; [|done].
    assert (yields (reports d (cmd_id c)) (attempt_command d i c cap b a)) as H
      by (apply yields_after; intros ack; yield).
    by eapply H.
  - intros r Hr. unfold resolved. apply (yields_bind (reports d (cmd_id c))).
    + destruct r; [by apply yields_ret|yield].
    + intros o Ho. apply yields_after; intros _. by apply yields_ret.
Qed.
Hint Resolve physical_command_reports : yields.
Lemma execute_command_reports d i c cap : yields (reports d (cmd_id c)) (execute_command d i c cap).
Proof.
  apply yields_after; intros sh. cbv zeta. case_bool_decide; [yield|].
  apply yields_after; intros [e|]; yield.
Qed.

Lemma block_all_reports d f l :
  yields (Forall2 (fun c o => reports d (cmd_id c) o) l) (block_all d f l).
Proof.
  induction l as [|c l IH]; simpl; [yield; constructor|].
  apply (yields_bind (reports d (cmd_id c))).
  { unfold blocked_by_takeover. apply (yields_bind (reports d (cmd_id c))); [yield|].
    intros o Ho. by yield. }
  intros o Ho. apply (yields_bind _ _ _ _ IH). intros os Hos. yield. by constructor.
Qed.

Lemma run_commands_reports d i seen l :
  yields (Forall2 (fun c o => reports d (cmd_id c) o) l) (run_commands d i seen l).
Proof.
  revert i seen. induction l as [|c l IH]; intros i seen; simpl; [yield; constructor|].
  apply yields_after; intros sh. destruct (sh_cancel_requested sh).
  { apply (yields_bind _ _ _ _ (not_sent_reports d c _)). intros o Ho.
    apply (yields_bind _ _ _ _ (IH _ _)). intros os Hos. yield. by constructor. }
  apply (yields_bind (fun v => normalizes c (cv_command v))).
  { intros w v w' [H _]%lift_ok. by eapply semantics_normalizes. }
  intros v Hv. apply normalizes_fields in Hv as [Hid _]. destruct (cv_errors v) as [|e es].
  - apply yields_after; intros _.
    apply (yields_bind _ _ _ _ (execute_command_reports d i (cv_command v) (cv_capability v))).
    intros o Ho. rewrite Hid in Ho. do 2 (apply yields_after; intros _).
    apply (yields_bind (Forall2 (fun c o => reports d (cmd_id c) o) l)).
    + destruct (_ && _); [apply block_all_reports|apply IH].
    + intros os Hos. yield. by constructor.
  - apply (yields_bind _ _ _ _ (not_sent_reports d _ _)). intros o Ho. rewrite Hid in Ho.
    apply (yields_bind _ _ _ _ (IH _ _)). intros os Hos. yield. by constructor.
Qed.
(** ** The settlement *)

Definition SETTLED_STATUSES : list PlanStatus :=
  [PS_COMPLETED; PS_PARTIALLY_FAILED; PS_FAILED; PS_UNKNOWN; PS_CANCELLED].

(** The plan [q] settles the execution of [p] that returned [os]. *)
Record settles (p q : Plan) (os : list ExecutionOutcome) : Prop := {
  se_id : pl_id q = pl_id p;
  se_commands : pl_commands q = pl_commands p;
  se_execution : pl_execution q = Some os;
  se_status : pl_status q ∈ SETTLED_STATUSES;
  se_completed : pl_status q = PS_COMPLETED ->
    os <> [] /\ Forall (fun o => eo_status o = ES_CONFIRMED_SUCCESS) os
}.

Definition ends_settled (p : Plan) (os : list ExecutionOutcome) (w w' : World) : Prop :=
  exists t1 q t2, w_trace w' = w_trace w ++ t1 ++ E_settle q :: t2 /\ writes t2 = [] /\
    settles p q os.

Ltac settled := solve [done | by apply (bool_decide_eq_true_1 _)].

Lemma terminal_settled os :
  terminal_plan_status os ∈ SETTLED_STATUSES /\
  (terminal_plan_status os = PS_COMPLETED ->
   os <> [] /\ Forall (fun o => eo_status o = ES_CONFIRMED_SUCCESS) os).
Proof.
  unfold terminal_plan_status, SETTLED_STATUSES. split; [repeat case_match; settled|].
  destruct (_ && _) eqn:E; [|by repeat case_match]. intros _.
  apply andb_true_iff in E as [E1 E2]. rewrite negb_true_iff, bool_decide_eq_false in E1. split.
  - intros ->. by apply E1.
  - apply Forall_forall. intros o Ho. rewrite forallb_forall in E2.
    by apply (bool_decide_eq_true_1 _), E2, in_map, list_elem_of_In.
Qed.

Lemma emits {A} e (m : M A) w :
  keeps quiet m -> exists t, w_trace (snd ((emit e ≫= fun _ => m) w)) = w_trace w ++ e :: t /\
    writes t = [].
Proof.
  intros Hm. destruct (quiet_silent _ _ (Hm (w <| w_trace := w_trace w ++ [e] |>))) as (t & E & Hn).
  exists t. split; [|done].
  change ((emit e ≫= fun _ => m) w) with (m (w <| w_trace := w_trace w ++ [e] |>)). rewrite E. simpl.
  by rewrite <- app_assoc.
Qed.

Lemma settle_plan_event q w r w' :
  ex_plan_repository = true -> settle_plan q w = (r, w') ->
  exists t2, w_trace w' = w_trace w ++ E_settle q :: t2 /\ writes t2 = [].
Proof.
  intros Hr H. unfold settle_plan in H. rewrite Hr in H.
  destruct (emits (E_settle q) (database (on_records (port_settle_plan q))) w) as (t & E & Hn).
  - apply (database_keeps quiet), (settle_plan_port_keeps quiet).
  - rewrite H in E. eauto.
Qed.

Lemma ends_settled_before p os w0 w w' : grows w0 w -> ends_settled p os w w' -> ends_settled p os w0 w'.
Proof.
  intros [t0 E0] (t1 & q & t2 & E & Hw & Hs). exists (t0 ++ t1), q, t2.
  by rewrite E, E0, <- !app_assoc.
Qed.

Lemma settle_plan_settles p q os w w' u :
  settle_plan q w = (Ok u, w') -> settles p q os -> ex_plan_repository = true ->
  ends_settled p os w w'.
Proof.
  intros H Hs Hr. destruct (settle_plan_event _ _ _ _ Hr H) as (t2 & E & Hw). by exists [], q, t2.
Qed.

Lemma reject_plan_settles p st os w os' w' :
  reject_plan p st os w = (Ok os', w') -> st ∈ SETTLED_STATUSES ->
  (st = PS_COMPLETED -> os <> [] /\ Forall (fun o => eo_status o = ES_CONFIRMED_SUCCESS) os) ->
  os' = os /\ (ex_plan_repository = true -> ends_settled p os w w').
Proof.
  intros H Hst Hc. unfold reject_plan in H. apply stm_bind_ok in H as (u & w1 & H1 & H).
  apply stm_bind_ok in H as (u' & w2 & H2 & H). injection H as <- <-. split; [done|]. intros Hr.
  eapply ends_settled_before; [exact (keeps_at _ _ _ _ _ (save_outcomes_keeps grows _) H1)|].
  by eapply settle_plan_settles.
Qed.

Lemma settle_run_settles p d l os w os' w' :
  settle_run p d l os w = (Ok os', w') ->
  os' = os /\ (ex_plan_repository = true -> ends_settled p os w w').
Proof.
  intros H. unfold settle_run in H. apply stm_bind_ok in H as (released & w1 & H1 & H).
  change ((shared ≫= ?f) w1) with (f (w_shared w1) w1) in H. cbv beta in H.
  change ((attempt ≫= ?f) w1) with (f (w_attempt w1) w1) in H. cbv beta zeta in H.
  apply stm_bind_ok in H as (u & w2 & H2 & H). injection H as <- <-. split; [done|]. intros Hr.
  apply (ends_settled_before _ _ w w1).
  - assert (keeps grows (match dc_takeover_first d with
      | Some _ => release_control_lease | None => mret true end)) as Hk
      by (destruct (dc_takeover_first d); [apply release_control_lease_keeps, _|apply keeps_ret, _]).
    exact (keeps_at _ _ _ _ _ Hk H1).
  - eapply settle_plan_settles; [exact H2| |done].
    destruct (terminal_settled os) as [Ht Hc]. split; try done; simpl;
      destruct released; simpl; try settled; destruct (_ && _); done || settled.
Qed.

Definition reports_all (p : Plan) (os : list ExecutionOutcome) : Prop :=
  Forall2 (fun c o => eo_command_id o = cmd_id c /\ eo_plan_id o = pl_id p) (pl_commands p) os.

Lemma reports_all_map p (f : Command -> ExecutionOutcome) :
  (forall c, eo_command_id (f c) = cmd_id c /\ eo_plan_id (f c) = pl_id p) ->
  reports_all p (map f (pl_commands p)).
Proof. intros H. unfold reports_all. induction (pl_commands p); constructor; auto. Qed.

Lemma preflight_reports p now attempt s rs :
  preflight ex_max_age ex_safety_kernel s now p = Ok (Some rs) ->
  reports_all p (preflight_outcomes p now attempt rs).
Proof.
  intros H. destruct (proj2 (preflight_all_or_nothing _ _ _ _ _ _ H) rs attempt eq_refl) as (Hids & _).
  unfold reports_all, preflight_outcomes in *. revert Hids. generalize (failed_command_ids rs) (pl_commands p). clear H. intros ids.
  induction rs as [|r rs IH]; intros [|c l] E; try discriminate E; [constructor|].
  injection E as Ec E. constructor; [done|by apply IH].
Qed.

Lemma run_plan_reports p d l o w os w' :
  dispatch_of p d -> run_plan p d l o w = (Ok os, w') ->
  reports_all p os /\ (ex_plan_repository = true -> ends_settled p os w w').
Proof.
  intros Hd H. unfold run_plan in H.
  change ((local ?f ≫= ?g) w) with (g tt (snd (local f w))) in H. cbv beta in H.
  apply stm_bind_ok in H as (os' & w1 & H1 & H).
  destruct (settle_run_settles _ _ _ _ _ _ _ H) as [<- Hs]. split.
  - eapply Forall2_impl; [exact (run_commands_reports _ _ _ _ _ _ _ H1)|].
    intros c o' (? & ? & _). by rewrite <- (proj1 Hd).
  - intros Hr. eapply ends_settled_before; [|by apply Hs].
    exact (keeps_at _ _ _ _ _ (run_commands_grows p d 0 [] _ Hd eq_refl) H1).
Qed.

Lemma dispatch_of_new p adm id first :
  (adm = None -> ex_execution_admission = false) -> dispatch_of p (mkDispatchContext p adm id first).
Proof. by split. Qed.

Lemma execute_claimed_reports p adm l o w os w' :
  (adm = None -> ex_execution_admission = false) -> execute_claimed p adm l o w = (Ok os, w') ->
  reports_all p os /\ (ex_plan_repository = true -> ends_settled p os w w').
Proof.
  intros Ha H. unfold execute_claimed in H. apply stm_bind_ok in H as (id & w1 & H1 & H).
  pose proof (keeps_at _ _ _ _ _ (fresh_keeps grows _) H1) as G1.
  change ((shared ≫= ?f) w1) with (f (w_shared w1) w1) in H. cbv beta in H.
  rewrite stm_bind_lift in H. destruct (preflight _ _ _ _ _) as [[rs|]|] eqn:Ep; [| |done].
  - destruct (terminal_settled (preflight_outcomes p (sh_now (w_shared w1)) id rs)) as [Ht Hc].
    destruct (reject_plan_settles _ _ _ _ _ _ H Ht Hc) as [-> Hs].
    split; [by eapply preflight_reports|]. intros Hr. eapply ends_settled_before; eauto.
  - apply stm_bind_ok in H as (takeover & w2 & H2 & H).
    assert (grows w w2) as G2.
    { etransitivity; [exact G1|]. exact (keeps_at _ _ _ _ _ (acquire_control_keeps grows) H2). }
    destruct takeover as [t|]; [case_bool_decide|].
    + destruct (run_plan_reports p _ _ _ _ _ _ (dispatch_of_new p _ _ _ Ha) H) as [Hrep Hs]. split; [done|].
      intros Hr. eapply ends_settled_before; eauto.
    + apply stm_bind_ok in H as (at_ & w3 & H3 & H). injection H3 as <- <-.
      destruct (reject_plan_settles _ _ _ _ _ _ H) as [-> Hs]; [settled|done|].
      split; [by apply reports_all_map|]. intros Hr. eapply ends_settled_before; eauto.
    + destruct (run_plan_reports p _ _ _ _ _ _ (dispatch_of_new p _ _ _ Ha) H) as [Hrep Hs]. split; [done|].
      intros Hr. eapply ends_settled_before; eauto.
Qed.

(** C5: an execution that returns reports every command, and is settled.  It
    returns one outcome per command of the plan, in the plan's order.  With the
    plan repository, the plan was settled after the last write with exactly
    these outcomes and a terminal status, and as completed only when there is
    an outcome and every outcome is a confirmed success. *)
Theorem execution_reported p overrides capability w os w' :
  execute_owned p overrides capability w = (Ok os, w') ->
  reports_all p os /\ (ex_plan_repository = true -> ends_settled p os w w').
Proof.
  unfold execute_owned, try_catch. destruct (execute_impl p overrides capability w) as [[os'|e] wi] eqn:Ei.
  - intros [= <- <-]. unfold execute_impl in Ei. apply stm_bind_ok in Ei as (adm & w1 & H1 & H).
    apply stm_bind_ok in H as (lease & w2 & H2 & H). apply stm_bind_ok in H as ([] & w3 & H3 & H).
    assert (grows w w3) as G.
    { transitivity w1; [exact (keeps_at _ _ _ _ _ (admit_execution_keeps grows _ _ _) H1)|].
      transitivity w2; [exact (keeps_at _ _ _ _ _ (execution_lease_of_keeps grows _) H2)|].
      exact (keeps_at _ _ _ _ _ (claim_plan_keeps grows _ _) H3). }
    destruct (execute_claimed_reports p adm lease overrides w3 os' wi) as [Hrep Hs]; [|done|].
    + intros ->. by apply admitted_none in H1.
    + split; [done|]. intros Hr. eapply ends_settled_before; eauto.
  - intros H. exfalso. unfold after_exception in H.
    change ((attempt ≫= ?f) wi) with (f (w_attempt wi) wi) in H. cbv beta in H.
    by apply stm_bind_ok in H as (? & ? & _ & H).
Qed.

(** ** After an exception *)

Definition claimed (w w' : World) : Prop :=
  at_claimed (w_attempt w) = true -> at_claimed (w_attempt w') = true.
#[local] Instance claimed_preorder : PreOrder claimed.
Proof. split; unfold claimed; [by intros w|]. intros w1 w2 w3. eauto. Qed.
#[local] Instance claimed_steps : Steps claimed.
Proof.
  split; try (intros; intros Hw; exact Hw); [apply _|]. intros w f Hf. exact (proj2 (Hf (w_attempt w))).
Qed.

Lemma transmit_claimed c x : keeps claimed (transmit c x).
Proof.
  intros w Hw. unfold transmit. change ((attempt ≫= ?f) w) with (f (w_attempt w) w). cbv beta zeta.
  case_bool_decide as H1; [exact Hw|]. case_bool_decide as H2; [exact Hw|].
  change ((shared ≫= ?f) w) with (f (w_shared w) w). cbv beta. rewrite stm_bind_lift.
  destruct (sh_cancel_requested (w_shared w)); exact Hw.
Qed.

Lemma run_plan_claimed p d l o : dispatch_of p d -> keeps claimed (run_plan p d l o).
Proof.
  apply (run_plan_keeps claimed p); [|intros w Hw; exact Hw].
  apply (each_command claimed). intros. apply (keeps_bind claimed); [apply recheck_keeps, _|].
  intros x. apply transmit_claimed.
Qed.

Lemma claim_plan_claimed p l w u w' :
  claim_plan p l w = (Ok u, w') -> at_claimed (w_attempt w') = true.
Proof.
  unfold claim_plan. destruct ex_plan_repository; [|by intros [= _ <-]].
  intros H. apply stm_bind_ok in H as (b & w1 & _ & H). rewrite stm_bind_lift in H.
  by destruct b; [injection H as _ <-|].
Qed.

(** What follows an exception that left the execution in [w]: the plan is marked
    unknown under the lease of the execution, in the records themselves unless
    that call fails, and the release of physical control is asked for and
    answered. *)
Definition cleaned_up (p : Plan) (w : World) (t : list (event I R)) : Prop :=
  (ex_plan_repository = true -> exists sh t2,
     t = E_mark_unknown (pl_id p) :: E_saw sh :: t2 /\
     (env_database (w_tick w) = Ok tt ->
      exists sh' t3, t2 = E_saw sh' :: t3 /\
        sh_records sh' = snd (port_mark_unknown (pl_id p) (at_execution_lease (w_attempt w)) (sh_records sh)) /\
        (plan_executing (pl_id p) (at_execution_lease (w_attempt w)) (sh_records sh) ->
         plan_unknown (pl_id p) (sh_records sh')))) /\
  (ex_control_takeover = true -> exists t1 sh t2, t = t1 ++ E_release :: E_saw sh :: t2).

Lemma mark_unknown_effect id w : ex_plan_repository = true ->
  exists sh t, w_trace (snd (mark_unknown_after_exception id w)) =
      w_trace w ++ E_mark_unknown id :: E_saw sh :: t /\
    (env_database (w_tick w) = Ok tt -> exists sh', t = [E_saw sh'] /\
      sh_records sh' = snd (port_mark_unknown id (at_execution_lease (w_attempt w)) (sh_records sh))).
Proof.
  intros Hr. unfold mark_unknown_after_exception. rewrite Hr.
  change ((attempt ≫= ?f) w) with (f (w_attempt w) w). cbv beta.
  exists (env_step (w_tick w) (w_shared w)).
  destruct (env_database (w_tick w)) as [[]|e] eqn:Ed;
    unfold mbind, stm_bind, try_, emit, modify, database, await_result, await, await_with, lift, on_records;
    unfold mbind, stm_bind; simpl; rewrite Ed; simpl.
  - destruct (port_mark_unknown _ _ _) as [[b|e] t'] eqn:E; simpl;
      (eexists; split; [by rewrite <- !app_assoc|]; intros _; eexists; split; [done|]; done).
  - exists []. by rewrite <- app_assoc.
Qed.

Lemma bind_ret_snd {A B} (m : M A) (b : B) w : snd ((m ≫= fun _ => mret b) w) = snd (m w).
Proof. unfold mbind, stm_bind. by destruct (m w) as [[a|e] w']. Qed.

Lemma release_effect w : ex_control_takeover = true ->
  exists sh t, w_trace (snd (release_after_exception w)) = w_trace w ++ E_release :: E_saw sh :: t.
Proof.
  intros Hc. unfold release_after_exception, release_control_lease. rewrite Hc, bind_ret_snd.
  exists (env_step (w_tick w) (w_shared w)), [].
  unfold mbind, stm_bind, try_, emit, modify, await_result, await, await_with, lift. simpl.
  by destruct (env_release (w_tick w)); rewrite <- app_assoc.
Qed.

Lemma after_exception_cleans p e w r w' :
  after_exception p e w = (r, w') -> at_claimed (w_attempt w) = true ->
  exists t, w_trace w' = w_trace w ++ t /\ writes t = [] /\ cleaned_up p w t.
Proof.
  intros H Hc. destruct (quiet_silent _ _ (keeps_at _ _ _ _ _ (after_exception_keeps quiet p e) H))
    as (t & E & Hn). exists t. split_and!; [done|done|]. unfold after_exception in H.
  change ((attempt ≫= ?f) w) with (f (w_attempt w) w) in H. cbv beta in H. rewrite Hc in H.
  assert (mark_unknown_after_exception (pl_id p) w =
    (Ok tt, snd (mark_unknown_after_exception (pl_id p) w))) as Hm.
  { unfold mark_unknown_after_exception. destruct ex_plan_repository; [|done].
    change ((attempt ≫= ?f) w) with (f (w_attempt w) w). cbv beta.
    unfold emit, modify, mbind, stm_bind, try_. by destruct (database _ _). }
  set (w1 := snd (mark_unknown_after_exception (pl_id p) w)) in *.
  assert (w_trace w' = w_trace (snd (release_after_exception w1))) as Hw'.
  { revert H. unfold mbind, stm_bind at 1 2. rewrite Hm. destruct (release_after_exception w1) as [[u|e'] w2];
      by intros [= _ <-]. }
  pose proof (mark_unknown_after_exception_keeps grows (pl_id p) w) as [tm Etm]. fold w1 in Etm.
  pose proof (release_after_exception_keeps grows w1) as [tr Etr].
  rewrite Hw', Etr, Etm, <- app_assoc in E. apply app_inv_head in E as <-. split.
  - intros Hr. destruct (mark_unknown_effect (pl_id p) w Hr) as (sh & t' & E' & Heff). fold w1 in E'.
    rewrite Etm in E'. apply app_inv_head in E' as ->. exists sh, (t' ++ tr). split; [done|].
    intros Hok. destruct (Heff Hok) as (sh' & -> & Hrec). exists sh', tr. split_and!; [done|done|].
    rewrite Hrec. apply port_mark_unknown_marks.
  - intros Hk. destruct (release_effect w1 Hk) as (sh & t' & E').
    rewrite Etr in E'. apply app_inv_head in E' as ->. by exists tm, sh, t'.
Qed.

(** C6: an execution that fails after it wrote cleans up.  When an exception
    ends an execution that wrote a command, whatever raised it and wherever,
    then after the last write the plan is marked unknown under the execution's
    lease: unless that one call of the plan repository fails, a record that
    was still executing under the lease is unknown in the records.  And the
    release of physical control, if there is a takeover, is asked for and
    awaited. *)
Theorem failure_cleans_up p overrides capability w e w' :
  execute_owned p overrides capability w = (Err e, w') ->
  exists e' wi new t2, execute_impl p overrides capability w = (Err e', wi) /\
    w_trace wi = w_trace w ++ new /\ w_trace w' = w_trace wi ++ t2 /\ writes t2 = [] /\
    (writes new <> [] -> cleaned_up p wi t2).
Proof.
  unfold execute_owned, try_catch. destruct (execute_impl p overrides capability w) as [[os|e'] wi] eqn:Ei;
    [done|]. intros H. exists e', wi.
  pose proof (keeps_at _ _ _ _ _ (after_exception_keeps quiet p e') H) as Hquiet.
  destruct (execute_impl_cases _ _ _ _ _ _ Ei)
    as [Hq|(adm & lease & w0 & w1 & w2 & E1 & _ & E3 & E4 & Hrel)].
  - destruct (quiet_silent _ _ (Hq quiet _)) as (new & E & Hn).
    destruct (quiet_silent _ _ Hquiet) as (t2 & E2 & Hn2). by exists new, t2.
  - assert (at_claimed (w_attempt wi) = true) as Hc.
    { refine (keeps_at _ _ _ _ _ (execute_claimed_keeps claimed p overrides _ adm lease _) E4 _).
      - intros d l Hd. by apply run_plan_claimed.
      - intros ->. by apply admitted_none in E1.
      - by eapply claim_plan_claimed. }
    destruct (after_exception_cleans _ _ _ _ _ H Hc) as (t2 & E2 & Hn & Hclean).
    assert (grows w wi) as [t1 E1'].
    { transitivity w2; [etransitivity; apply (Hrel grows _)|].
      refine (keeps_at _ _ _ _ _ (execute_claimed_keeps grows p overrides _ adm lease _) E4).
      - intros d l Hd. by apply run_plan_grows.
      - intros ->. by apply admitted_none in E1. }
    by exists t1, t2.
Qed.
End Outcomes.

(** ** Witnesses: the desk lamp, with a good adapter and a broken one *)

#[local] Existing Instance example_canonical.

Lemma execution_reported_witness :
  exists os, fst (lamp_run lamp_world) = Ok os /\ reports_all lamp_plan os /\
    ends_settled lamp_plan os lamp_world (snd (lamp_run lamp_world)).
Proof.
  destruct (fst (lamp_run lamp_world)) as [os|e] eqn:E.
  - exists os. split; [reflexivity|].
    destruct (execution_reported (ex := lamp_executor) (env := lamp_environment) lamp_plan None None
      lamp_world os (snd (lamp_run lamp_world))) as [H1 H2].
    { rewrite <- E. apply surjective_pairing. }
    split; [exact H1|exact (H2 eq_refl)].
  - exfalso. pose proof lamp_confirmed as Hc. rewrite E in Hc. discriminate Hc.
Defined.

Lemma failure_cleans_up_witness :
  exists wi t2, w_trace (snd (lamp_run_in lamp_trouble lamp_world)) = w_trace wi ++ t2 /\
    cleaned_up (ex := lamp_executor) (env := lamp_trouble) lamp_plan wi t2.
Proof.
  destruct (failure_cleans_up (ex := lamp_executor) (env := lamp_trouble) lamp_plan None None
    lamp_world (ValueError "not an acknowledgement") (snd (lamp_run_in lamp_trouble lamp_world)))
    as (e' & wi & new & t2 & _ & E1 & E2 & Hn & H).
  { rewrite <- (proj1 lamp_fails). apply surjective_pairing. }
  exists wi, t2. split; [exact E2|]. apply H. intros Hnil.
  assert (fst <$> writes (w_trace (snd (lamp_run_in lamp_trouble lamp_world))) <> []) as Hw
    by (vm_compute; discriminate).
  apply Hw. rewrite E2, E1, !writes_app, Hnil, Hn. reflexivity.
Defined.
