(* ===== verification/ExecutionReadback.v ===== *)
(** * Readback (application/executor.py)

    The loop that polls a command's postcondition ends, and a confirmed success
    was accepted and then observed. *)

From S2P Require Import Prelude.
From S2P Require Import Values.
From S2P Require Import Models.
From S2P Require Import StateStore.
From S2P Require Import Digests.
From S2P Require Import ApprovalStore.
From S2P Require Import PlanService.
From S2P Require Import Coordination.
From S2P Require Import Admission.
From S2P Require Import Preflight.
From S2P Require Import Intents.
From S2P Require Import PlanRecords.
From S2P Require Import Ports.
From S2P Require Import Runtime.
From S2P Require Import Executor.
From S2P Require Import LampExecution.
From S2P Require Import ExecutionSteps.
From S2P Require Import ExecutionTrace.

Section Readback.
Context `{CJ : Canonical} {I R : Type} `{!PhysicalIntentPort I} `{!PlanRecordPort R}.
Context {ex : PlanExecutor} {env : Environment I R}.

Abbreviation M := (stm (World I R) exn).
Abbreviation World := (World I R).

(** ** The loop ends *)

Section Termination.
(** The clock does not run backwards, and a sleep takes time. *)
Context (delta : timedelta) (Hdelta : 0 < delta).
Context (Hstep : forall n (sh : Shared I R), sh_now sh <= sh_now (env_step n sh)).
Context (Hsleep : forall n d (sh : Shared I R), sh_now sh + delta <= sh_now (env_sleep n d sh)).

Definition later (w w' : World) : Prop := sh_now (w_shared w) <= sh_now (w_shared w').
#[local] Instance later_preorder : PreOrder later.
Proof using Type. split; unfold later; [by intros w|]. intros w1 w2 w3. lia. Qed.
#[local] Instance later_steps : Steps later.
Proof using Type*.
  split; try (intros; unfold later; simpl; lia); [apply _| |]; intros; unfold later; simpl.
  - apply Hstep.
  - pose proof (Hsleep n d (w_shared w)). lia.
Qed.

Lemma again_fuel n next next' timeout interval deadline latest error w :
  deadline <= sh_now (w_shared w) + delta * Z.of_nat n ->
  (forall m w', n = S m -> deadline <= sh_now (w_shared w') + delta * Z.of_nat m -> next w' = next' w') ->
  poll_again next timeout interval deadline latest error w =
  poll_again next' timeout interval deadline latest error w.
Proof using Type*.
  intros Hd Hn. unfold poll_again. change ((now ≫= ?f) w) with (f (sh_now (w_shared w)) w). cbv beta.
  destruct (_ || _) eqn:E; [done|]. apply orb_false_iff in E as [_ E]. apply Z.leb_gt in E.
  destruct n as [|n]; [lia|].
  match goal with |- context [sleep ?d] => set (dt := d) end.
  change (next (snd (sleep dt w)) = next' (snd (sleep dt w))). apply (Hn n); [done|]. simpl.
  pose proof (Hsleep (w_tick w) dt (w_shared w)). lia.
Qed.

Lemma poll_round m m' c name before timeout interval deadline latest w :
  (forall latest error w1, later w w1 ->
     poll_again (poll m c name before timeout interval deadline latest) timeout interval deadline
       latest error w1 =
     poll_again (poll m' c name before timeout interval deadline latest) timeout interval deadline
       latest error w1) ->
  poll (S m) c name before timeout interval deadline latest w =
  poll (S m') c name before timeout interval deadline latest w.
Proof using Type*.
  intros H. simpl. rewrite !try_bind. pose proof (readback_keeps later c name w) as Hl.
  destruct (readback c name w) as [r w1]. simpl in *. destruct r as [current|e]; [|destruct (_ || _); [by apply H|done]].
  rewrite !stm_bind_lift. destruct (postcondition_matches _ _ _ _) as [[]|]; [done|by apply H|done].
Qed.

(** [n] sleeps reach the deadline, so more fuel changes nothing. *)
Lemma poll_fuel n k c name before timeout interval deadline latest w :
  deadline <= sh_now (w_shared w) + delta * Z.of_nat n ->
  poll (S n + k) c name before timeout interval deadline latest w =
  poll (S n) c name before timeout interval deadline latest w.
Proof using Type*.
  revert latest w. induction n as [|n IH]; intros latest w Hd; apply poll_round;
    intros latest' error w1 Hl; unfold later in Hl.
  - apply (again_fuel 0); [lia|done].
  - apply (again_fuel (S n)); [lia|]. intros m w2 [= <-] Hw2. by apply IH.
Qed.

(** C28: the readback after a write ends.  If the clock does not run backwards
    and every sleep takes at least [delta], a readback never needs more polls
    than its settle timeout holds [delta]s, and one: with that much fuel, or
    any more, the loop gives one and the same answer in the same world, so the
    bound of the model is never what ends it. *)
Theorem readback_terminates c name before w fuel d :
  timedelta_seconds (NFloat (default (SpecFloat.S754_zero false)
    (List.head (cmd_postconditions c) ≫= post_settle_timeout_seconds))) = Ok d ->
  (env_fuel <= fuel)%nat -> Z.max 0 d + delta <= delta * Z.of_nat env_fuel ->
  readback_with fuel c name before w = readback_until_settled c name before w.
Proof using Type*.
  intros Ht Hf Hd. unfold readback_until_settled, readback_with.
  change ((now ≫= ?f) w) with (f (sh_now (w_shared w)) w). cbv beta zeta.
  rewrite !stm_bind_lift. rewrite Ht. destruct env_fuel as [|n] eqn:En; [lia|].
  replace fuel with (S n + (fuel - S n))%nat by lia. apply poll_fuel.
  rewrite Nat2Z.inj_succ in Hd. lia.
Qed.
End Termination.
End Readback.

#[local] Existing Instance example_canonical.

(** Three seconds of settle time, polled every second. *)
Definition lamp_patient : Command :=
  (lamp_command "c1" "k1") <| cmd_postconditions :=
    [mkCommandPostcondition "power" (Some (SBool true)) VERIFY_EQUALS None
       (Some (f64_of_Z 3)) (f64_of_Z 1) []] |>.

Lemma readback_terminates_witness :
  readback_with (env := lamp_environment) (ex := lamp_executor) 1000 lamp_patient None None lamp_world =
  readback_until_settled (env := lamp_environment) (ex := lamp_executor) lamp_patient None None lamp_world.
Proof.
  apply (readback_terminates (env := lamp_environment) (seconds 1)) with (d := seconds 3).
  - reflexivity.
  - intros n sh. simpl. lia.
  - intros n d sh. simpl. lia.
  - vm_compute. reflexivity.
  - simpl. lia.
  - vm_compute. discriminate.
Defined.
