(* ===== verification/ExecutionConfirm.v ===== *)
(** * What a confirmed success means (application/executor.py)

    A command reported as a confirmed success was accepted by the adapter, or
    answered by the ledger of intents, and after that a current reading that
    matches its postcondition was read back. *)

From S2P Require Import Prelude.
From S2P Require Import Values.
From S2P Require Import Models.
From S2P Require Import StateStore.
From S2P Require Import Registry.
From S2P Require Import Digests.
From S2P Require Import ApprovalStore.
From S2P Require Import PlanService.
From S2P Require Import Coordination.
From S2P Require Import Admission.
From S2P Require Import Preflight.
From S2P Require Import Intents.
From S2P Require Import PlanRecords.
From S2P Require Import Ports.
From S2P Require Import Runtime.
From S2P Require Import Executor.
From S2P Require Import LampExecution.
From S2P Require Import ExecutionSteps.
From S2P Require Import ExecutionTrace.
From S2P Require Import ExecutionOutcomes.

Section Confirm.
Context `{CJ : Canonical} {I R : Type} `{!PhysicalIntentPort I} `{!PlanRecordPort R}.
Context {ex : PlanExecutor} {env : Environment I R}.

Abbreviation M := (stm (World I R) exn).
Abbreviation World := (World I R).

(** The adapter accepted [c], and nothing was written after it; or the ledger
    answered with an intent that was acknowledged or confirmed. *)
Definition accepted_in (t : list (event I R)) (c : Command) : Prop :=
  (exists t1 x ack t2, t = t1 ++ E_write c x :: t2 /\ writes t2 = [] /\
     E_answer (Ok ack) ∈ t2 /\ ack_accepted ack = true) \/
  (exists i cl, E_claim i cl ∈ t /\ pi_idempotency_key i = cmd_idempotency_key c /\
     pi_command_id i = cmd_id c /\ cl_decision cl = CL_REPLAY /\
     pi_status (cl_intent cl) ∈ [PI_ACKNOWLEDGED; PI_CONFIRMED]).

(** The reading [s] was read and stored: it is the one of the capability that
    confirms [c] ([name] is the one it commands), from the source to which the
    inventory, as it was seen since [base], routes that capability of [c]'s
    device. *)
Definition observed_in (base t : list (event I R)) (c : Command) (name : option string)
    (s : StateSnapshot) : Prop :=
  E_readback s ∈ t /\ exists sh feedback route snapshots raw,
    seen_since (base ++ t) sh /\ feedback_capability c name = Some feedback /\
    readback_route (sh_plan_service sh) c feedback = Some route /\
    E_read (rt_source_ref route) (Ok snapshots) ∈ t /\ raw ∈ snapshots /\
    matching feedback (rt_source_ref route) raw = true /\
    s = raw <| ss_device_id := cmd_device_id c |>.

Definition saw_reading (c : Command) (name : option string) (s : StateSnapshot) (w w' : World) : Prop :=
  exists new, w_trace w' = w_trace w ++ new /\ writes new = [] /\
    observed_in [E_saw (w_shared w)] new c name s.

Lemma observed_app_l base t t' c name s :
  writes t' = [] -> observed_in base t c name s -> observed_in base (t ++ t') c name s.
Proof.
  intros Hn (H1 & sh & fb & rt & sn & raw & Hs & Hf & Hr & H2 & H3). split; [by apply elem_of_app; left|].
  exists sh, fb, rt, sn, raw. rewrite app_assoc.
  split_and!; [by apply seen_since_app|done|done|by apply elem_of_app; left|apply H3..].
Qed.
(** What was seen since the first state was seen since an earlier one. *)
Lemma observed_rebase base t0 sh0 t c name s :
  seen_since (base ++ t0) sh0 -> observed_in [E_saw sh0] t c name s -> observed_in base (t0 ++ t) c name s.
Proof.
  intros Hbase (H1 & sh & fb & rt & sn & raw & Hs & Hf & Hr & H2 & H3).
  split; [by apply elem_of_app; right|]. exists sh, fb, rt, sn, raw.
  split_and!; [|done|done|by apply elem_of_app; right|apply H3..]. rewrite app_assoc.
  by apply (seen_since_rebase _ sh0).
Qed.
Lemma observed_base base sh0 t0 t c name s :
  seen_since base sh0 -> observed_in (E_saw sh0 :: t0) t c name s -> observed_in (base ++ t0) t c name s.
Proof.
  intros Hbase (H1 & sh & fb & rt & sn & raw & Hs & H). split; [done|]. exists sh, fb, rt, sn, raw.
  split; [|done]. rewrite <- app_assoc. by apply (seen_since_rebase _ sh0).
Qed.

Lemma saw_before c name s w1 w2 w3 : quiet w1 w2 -> saw_reading c name s w2 w3 -> saw_reading c name s w1 w3.
Proof.
  intros (t1 & E1 & N1 & S1) (t2 & E2 & N2 & H). exists (t1 ++ t2).
  rewrite E2, E1, app_assoc, writes_app, N1, N2. split_and!; [done|done|].
  apply (observed_rebase _ _ (w_shared w2)); [|done].
  apply (seen_after [E_saw (w_shared w1)] w1 w2); [by exists [], []|done|done].
Qed.
Lemma saw_after c name s w1 w2 w3 : saw_reading c name s w1 w2 -> quiet w2 w3 -> saw_reading c name s w1 w3.
Proof.
  intros (t1 & E1 & N1 & H) (t2 & E2 & N2) %quiet_silent. exists (t1 ++ t2).
  rewrite E2, E1, app_assoc, writes_app, N1, N2. split_and!; [done|done|by apply observed_app_l].
Qed.

(** ** Readings *)

Lemma persist_snapshot_event s w w' :
  persist_snapshot s w = (Ok tt, w') ->
  exists t1 t2, w_trace w' = w_trace w ++ t1 ++ E_readback s :: t2.
Proof.
  unfold persist_snapshot. intros H. apply stm_bind_ok in H as (io & w1 & H1 & H).
  pose proof (keeps_at _ _ _ _ _ (await_keeps grows _) H1) as [t1 E1].
  apply stm_bind_ok in H as (r & w2 & H2 & H). unfold try_ in H2.
  destruct r as [[]|e]; [|by destruct e].
  injection H as <-. set (body := on_store _ ≫= _) in H2.
  destruct (body w1) as [r w3] eqn:Eb. injection H2 as -> ->. unfold body in Eb. clear body.
  apply stm_bind_ok in Eb as ([] & w3 & H3 & Eb).
  pose proof (keeps_at _ _ _ _ _ (on_store_keeps grows _) H3) as [t3 E3].
  change ((service ≫= ?f) w3) with (f (sh_plan_service (w_shared w3)) w3) in Eb. cbv beta in Eb.
  apply stm_bind_ok in Eb as ([] & w4 & H4 & Eb). injection H4 as <-.
  assert (grows (snd (record_version s (state_version (ps_state_store (sh_plan_service (w_shared w3)))
    (ss_device_id s) (ss_capability s)) w3)) w2) as [t4 E4].
  { revert Eb. destruct (_ && _); [|by intros [= <-]; apply grows_preorder].
    intros Eb. assert (keeps grows (database (mret tt : M unit))) as Hk
      by (apply (database_keeps grows), keeps_ret, _). exact (keeps_at _ _ _ _ _ Hk Eb). }
  exists (t1 ++ t3), t4. rewrite E4. simpl. rewrite E3, E1. by rewrite <- !app_assoc.
Qed.

Lemma readback_saw c name w s w' :
  readback c name w = (Ok (Some s), w') -> saw_reading c name s w w'.
Proof.
  intros H. destruct (quiet_silent _ _ (keeps_at _ _ _ _ _ (readback_keeps quiet c name) H))
    as (new & E & N). exists new. split_and!; [done|done|].
  unfold readback in H. destruct (feedback_capability c name) as [fb|] eqn:Efb; [|done].
  change ((service ≫= ?f) w) with (f (sh_plan_service (w_shared w)) w) in H. cbv beta in H.
  destruct (get_device _ _); [|done]. destruct (readback_route _ _ _) as [route|] eqn:Ert; [|done].
  apply stm_bind_ok in H as (snaps & w1 & H1 & H).
  destruct (find_first _ snaps) as [raw|] eqn:Ef; [|done].
  apply stm_bind_ok in H as ([] & w2 & H2 & H). injection H as <- <-.
  destruct (persist_snapshot_event _ _ _ H2) as (t1 & t2 & E2).
  unfold read_state in H1. apply stm_bind_ok in H1 as (answer & w3 & H3 & H1).
  apply stm_bind_ok in H1 as ([] & w4 & H4 & H1). apply lift_ok in H1 as [-> ->].
  injection H4 as <-. pose proof (keeps_at _ _ _ _ _ (await_keeps grows _) H3) as [t3 E3].
  rewrite E2 in E. simpl in E. rewrite E3, <- !app_assoc in E. apply app_inv_head in E as <-. split.
  - rewrite !elem_of_app. right. right. right. left.
  - apply find_first_some in Ef as [Hin Hm].
    exists (w_shared w), fb, route, snaps, raw. split_and!; try done.
    + eexists [], _. split; [reflexivity|exact N].
    + rewrite !elem_of_app. right. left. left.
Qed.
(** What a poll returns is what it was given or what it read. *)
Lemma poll_saw fuel c name before timeout interval deadline latest w s e w' :
  poll fuel c name before timeout interval deadline latest w = (Ok (Some s, e), w') ->
  latest = Some s \/ saw_reading c name s w w'.
Proof.
  revert latest w. induction fuel as [|fuel IH]; intros latest w; simpl; [done|]. rewrite try_bind.
  pose proof (readback_keeps quiet c name w) as Hq.
  destruct (readback c name w) as [r w1] eqn:Er. simpl in *.
  assert (forall latest' error,
    poll_again (poll fuel c name before timeout interval deadline latest') timeout interval deadline
      latest' error w1 = (Ok (Some s, e), w') ->
    quiet w1 w' /\ (latest' = Some s \/ saw_reading c name s w1 w')) as Hagain.
  { intros latest' error H. split.
    { exact (keeps_at _ _ _ _ _ (poll_again_keeps quiet _ _ _ _ _ _ (poll_keeps quiet _ _ _ _ _ _ _ _)) H). }
    unfold poll_again in H. change ((now ≫= ?f) w1) with (f (sh_now (w_shared w1)) w1) in H.
    cbv beta in H. destruct (_ || _); [injection H as -> _ <-; by left|].
    apply stm_bind_ok in H as ([] & w2 & H1 & H).
    pose proof (keeps_at _ _ _ _ _ (sleep_keeps quiet _) H1) as Q.
    destruct (IH _ _ H) as [?|?]; [by left|right]. by eapply saw_before. }
  destruct r as [current|err].
  - rewrite stm_bind_lift. destruct (postcondition_matches _ _ _ _) as [[]|]; [| |done].
    + intros [= -> _ <-]. right. by eapply readback_saw.
    + intros H. destruct (Hagain _ _ H) as [Q [Hl|Hs]].
      * destruct current as [s'|]; [injection Hl as ->; right|by left].
        eapply saw_after; [by eapply readback_saw|done].
      * right. by eapply saw_before.
  - destruct (_ || _); [|done]. intros H. destruct (Hagain _ _ H) as [Q [Hl|Hs]]; [by left|right].
    by eapply saw_before.
Qed.

(** ** The judgement *)

Lemma judge_confirmed c name before ack w after error w' :
  judge c name before ack w = (Ok (ES_CONFIRMED_SUCCESS, after, error), w') ->
  ack_accepted ack = true /\ error = None /\
  exists s, after = Some s /\ postcondition_matches c name (Some s) before = Ok true /\
    saw_reading c name s w w'.
Proof.
  unfold judge. destruct (ack_accepted ack); [|done]. intros H.
  apply stm_bind_ok in H as ([after' error'] & w1 & H1 & H). destruct error'; [done|].
  rewrite stm_bind_lift in H. destruct (postcondition_matches c name after' before) as [[]|] eqn:Em; [|done..].
  apply stm_bind_ok in H as (e & w2 & H2 & H). destruct e; [done|]. injection H as <- <- <-.
  split_and!; [done|done|]. destruct after' as [s|]; [|by simpl in Em]. exists s. split_and!; [done|done|].
  unfold readback_until_settled, readback_with in H1.
  change ((now ≫= ?f) w) with (f (sh_now (w_shared w)) w) in H1. cbv beta zeta in H1.
  rewrite stm_bind_lift in H1. destruct (timedelta_seconds _) as [d|]; [|done].
  apply poll_saw in H1 as [?|Hs]; [done|]. eapply saw_after; [exact Hs|].
  exact (keeps_at _ _ _ _ _ (reconcile_post_write_keeps quiet _) H2).
Qed.
(** ** The acceptance *)

(** The intents bound to the command stay as they are. *)
Definition untouched (w w' : World) : Prop := w_attempt w' = w_attempt w.
#[local] Instance untouched_preorder : PreOrder untouched.
Proof. split; unfold untouched; [by intros w|]. intros w1 w2 w3. congruence. Qed.

Lemma await_untouched {A} (answer : nat -> A) : keeps untouched (await answer).
Proof. by intros w. Qed.
Lemma on_issued_untouched {A} (m : Shared I R -> stm issued_capabilities exn A) :
  keeps untouched (on_issued m).
Proof. intros w. unfold on_issued. by destruct (m _ _). Qed.
Lemma on_intents_untouched {A} (m : stm I exn A) : keeps untouched (on_intents m).
Proof. intros w. unfold on_intents. by destruct (m _). Qed.

Ltac untouch := repeat first
  [ apply (keeps_ret untouched) | apply (keeps_lift untouched) | apply (keeps_raise untouched)
  | apply (keeps_shared untouched) | apply (keeps_attempt untouched)
  | apply await_untouched | apply on_issued_untouched | apply on_intents_untouched
  | apply (keeps_bind untouched); [|intros ?]
  | match goal with
    | |- keeps _ (match ?x with _ => _ end) => destruct x
    | |- keeps _ (if ?x then _ else _) => destruct x
    end ].

Lemma recheck_plan_untouched d i c cap : keeps untouched (recheck_plan d i c cap).
Proof. unfold recheck_plan, fencing_check. untouch. Qed.
Lemma check_ownership_untouched d : keeps untouched (check_ownership d).
Proof. unfold check_ownership, await_result. untouch. Qed.

(** A replay comes from the ledger. *)
Definition replays (c : Command) (answer : option PhysicalIntent) (t : list (event I R)) : Prop :=
  forall i, answer = Some i -> exists j cl, E_claim j cl ∈ t /\
    pi_idempotency_key j = cmd_idempotency_key c /\ pi_command_id j = cmd_id c /\
    cl_decision cl = CL_REPLAY /\ cl_intent cl = i.

Lemma claim_intent_replays d c token w u w' :
  claim_intent d c token w = (Ok u, w') -> at_replay_intent (w_attempt w) = None ->
  exists t, w_trace w' = w_trace w ++ t /\ replays c (at_replay_intent (w_attempt w')) t.
Proof.
  intros H Hn. destruct (keeps_at _ _ _ _ _ (claim_intent_keeps grows d c token) H) as [t E].
  exists t. split; [done|]. unfold claim_intent in H.
  destruct ex_physical_intents; [|injection H as _ <-; by rewrite Hn].
  destruct token as [tok|]; [|done].
  change ((now ≫= ?f) w) with (f (sh_now (w_shared w)) w) in H. cbv beta in H.
  rewrite stm_bind_lift in H. destruct (validate_intent _) as [[]|]; [|done].
  apply stm_bind_ok in H as (claim & w1 & H1 & H). apply stm_bind_ok in H as ([] & w2 & H2 & H).
  injection H2 as <-.
  assert (keeps untouched (database (on_intents
    (port_claim (intent_of d c tok (sh_now (w_shared w))))))) as Hk
    by (unfold database, await_result; untouch).
  pose proof (keeps_at _ _ _ _ _ Hk H1) as U.
  assert (keeps grows (database (on_intents
    (port_claim (intent_of d c tok (sh_now (w_shared w))))))) as Hg
    by apply (database_keeps grows), (claim_keeps grows).
  pose proof (keeps_at _ _ _ _ _ Hg H1) as [t1 E1]. unfold untouched in U.
  destruct (cl_decision claim) eqn:Ed; try discriminate H; injection H as _ <-; simpl in *;
    [rewrite U, Hn; by intros i|].
  all: rewrite E1, <- app_assoc in E; apply app_inv_head in E as <-.
  all: intros i [= <-]; exists (intent_of d c tok (sh_now (w_shared w))), claim; split_and!; try done.
  all: rewrite elem_of_app; right; left.
Qed.

Lemma recheck_replays d i c cap req w x w' :
  recheck d i c cap req w = (Ok x, w') -> at_replay_intent (w_attempt w) = None ->
  exists t, w_trace w' = w_trace w ++ t /\ replays c (at_replay_intent (w_attempt w')) t.
Proof.
  unfold recheck. intros H Hn. apply stm_bind_ok in H as (token & w1 & H1 & H).
  pose proof (keeps_at _ _ _ _ _ (recheck_plan_untouched d i c cap) H1) as U1.
  destruct (keeps_at _ _ _ _ _ (recheck_plan_keeps grows d i c cap) H1) as [t1 E1].
  rewrite stm_bind_lift in H. destruct (validate_context _) as [[]|]; [|done].
  apply stm_bind_ok in H as (u & w2 & H2 & H). apply stm_bind_ok in H as (u' & w3 & H3 & H).
  injection H as <- <-. unfold untouched in U1.
  destruct (claim_intent_replays _ _ _ _ _ _ H2) as (t2 & E2 & Hr); [by rewrite U1|].
  destruct (keeps_at _ _ _ _ _ (check_ownership_keeps grows d) H3) as [t3 E3].
  pose proof (keeps_at _ _ _ _ _ (check_ownership_untouched d) H3) as U3. unfold untouched in U3.
  exists (t1 ++ t2 ++ t3). split; [by rewrite E3, E2, E1, <- !app_assoc|]. rewrite U3.
  intros j Hj. destruct (Hr j Hj) as (k & cl & Hin & ?). exists k, cl. split; [|done].
  rewrite !elem_of_app. auto.
Qed.

Lemma dispatch_accepted d i c cap req w ack w' :
  dispatch d i c cap req w = (Ok ack, w') -> at_replay_intent (w_attempt w) = None ->
  ack_accepted ack = true -> exists t, w_trace w' = w_trace w ++ t /\ accepted_in t c.
Proof.
  unfold dispatch. intros H Hn Hack. apply stm_bind_ok in H as (x & w1 & H1 & H).
  destruct (recheck_replays _ _ _ _ _ _ _ _ H1 Hn) as (t1 & E1 & Hr).
  unfold transmit in H. change ((attempt ≫= ?f) w1) with (f (w_attempt w1) w1) in H. cbv beta zeta in H.
  case_bool_decide as Hd.
  - injection H as <- <-. exists t1. split; [done|right].
    change (pi_status <$> at_replay_intent (w_attempt w1) ∈ Some <$> [PI_ACKNOWLEDGED; PI_CONFIRMED])
      in Hd.
    apply list_elem_of_fmap in Hd as (st & Est & Hst).
    destruct (at_replay_intent (w_attempt w1)) as [j|] eqn:Ej; [injection Est as <-|done].
    destruct (Hr j eq_refl) as (k & cl & ? & ? & ? & ? & <-). by exists k, cl.
  - case_bool_decide; [by injection H as <- _|].
    change ((shared ≫= ?f) w1) with (f (w_shared w1) w1) in H. cbv beta in H.
    rewrite stm_bind_lift in H. destruct (sh_cancel_requested _); [done|]. simpl in H.
    injection H as Ha <-. simpl. eexists (t1 ++ _). rewrite E1, <- !app_assoc. split; [done|left].
    eexists t1, x, ack, [_; _]. split_and!; [done|done| |done]. rewrite <- Ha. right. left.
Qed.
(** ** From the command to the execution *)

(** Between [w] and [w'], [c], which commands the capability [name], was
    accepted and then seen to hold, as [o] says. *)
Definition confirms (c : Command) (name : option string) (o : ExecutionOutcome) (w w' : World) : Prop :=
  exists t1 t2 t3, w_trace w' = w_trace w ++ t1 ++ t2 ++ t3 /\ accepted_in t1 c /\
    writes t2 = [] /\ exists s, eo_after_state o = Some s /\ observed_in (E_saw (w_shared w) :: t1) t2 c name s /\
    postcondition_matches c name (Some s) (eo_before_state o) = Ok true.

Lemma accepted_before t t0 c : accepted_in t c -> accepted_in (t0 ++ t) c.
Proof.
  intros [(t1 & x & ack & t2 & -> & H)|(i & cl & Hin & H)]; [left|right].
  - exists (t0 ++ t1), x, ack, t2. by rewrite <- app_assoc.
  - exists i, cl. split; [by apply elem_of_app; right|done].
Qed.
Lemma confirms_before c name o w1 w2 w3 : sees w1 w2 -> confirms c name o w2 w3 -> confirms c name o w1 w3.
Proof.
  intros (t0 & E0 & S0) (t1 & t2 & t3 & E & Ha & Hn & s & Hs & Ho & Hm). exists (t0 ++ t1), t2, t3.
  rewrite E, E0, <- !app_assoc. split_and!; [done|by apply accepted_before|done|].
  exists s. split_and!; [done| |done]. by apply (observed_base (E_saw (w_shared w1) :: t0) (w_shared w2)).
Qed.
Lemma confirms_after c name o w1 w2 w3 : confirms c name o w1 w2 -> grows w2 w3 -> confirms c name o w1 w3.
Proof.
  intros (t1 & t2 & t3 & E & H) [t4 E4]. exists t1, t2, (t3 ++ t4).
  rewrite E4, E, <- !app_assoc. done.
Qed.

Lemma submit_ok h work w ack w' :
  submit h work w = (Ok ack, w') ->
  exists w1, sees w w1 /\ w_attempt w1 = w_attempt w /\ work w1 = (Ok ack, w').
Proof.
  unfold submit. destruct ex_work_queues; [|by exists w].
  intros H. rewrite stm_bind_lift in H. destruct (raise_if _ _) as [[]|]; [|done].
  apply stm_bind_ok in H as (answer & w1 & H1 & H).
  pose proof (keeps_at _ _ _ _ _ (await_keeps sees _) H1) as G.
  pose proof (keeps_at _ _ _ _ _ (await_untouched _) H1) as U.
  destruct answer; [by exists w1|done|]. by apply stm_bind_ok in H as (? & ? & _ & H).
Qed.

Lemma attempt_confirmed d i c cap b req w o w' :
  attempt_command d i c cap b req w = (Ok o, w') -> at_replay_intent (w_attempt w) = None ->
  eo_status o = ES_CONFIRMED_SUCCESS -> confirms c (cap_name <$> cap) o w w'.
Proof.
  unfold attempt_command. intros H Hn Hst. apply stm_bind_ok in H as (ack & w2 & H1 & H).
  destruct (submit_ok _ _ _ _ _ H1) as (w1 & G1 & U1 & Hd). rewrite <- U1 in Hn.
  unfold acknowledged in H. apply stm_bind_ok in H as (u & w3 & H3 & H).
  apply stm_bind_ok in H as ([[st after] error] & w4 & H4 & H). injection H as <- <-. simpl in Hst.
  subst st. destruct (judge_confirmed _ _ _ _ _ _ _ _ H4) as (Hack & _ & s & -> & Hm & t2 & E2 & N2 & Ho).
  destruct (dispatch_accepted _ _ _ _ _ _ _ _ Hd Hn Hack) as (t1 & E1 & Ha).
  destruct (keeps_at _ _ _ _ _ (settle_intent_keeps quiet _) H3) as (t3 & E3 & N3 & S3).
  destruct (keeps_at _ _ _ _ _ (dispatch_sees _ _ _ _ _) Hd) as (t1' & E1' & S1).
  rewrite E1 in E1'. apply app_inv_head in E1' as <-.
  apply (confirms_before _ _ _ w w1 w4 G1). exists t1, (t3 ++ t2), [].
  rewrite E2, E3, E1, app_nil_r, <- !app_assoc, writes_app, N2, N3. split_and!; [done|done|done|].
  exists s. split_and!; [done| |exact Hm].
  apply (observed_rebase _ _ (w_shared w3)); [|done].
  by apply (seen_after (E_saw (w_shared w1) :: t1) w2 w3).
Qed.

Definition unconfirmed (o : ExecutionOutcome) : Prop := eo_status o <> ES_CONFIRMED_SUCCESS.
Lemma outcome_unconfirmed p a id req st ref b af e :
  st <> ES_CONFIRMED_SUCCESS -> yields unconfirmed (outcome p a id req st ref b af e : M _).
Proof. intros Hst. unfold outcome. apply yields_after; intros t. by apply yields_ret. Qed.
Lemma rejected_unconfirmed p a c req b e : yields unconfirmed (rejected p a c req b e : M _).
Proof. by apply outcome_unconfirmed. Qed.
Lemma on_exception_unconfirmed d c b req e : yields unconfirmed (on_exception d c b req e : M _).
Proof.
  unfold on_exception. apply yields_after; intros a. cbv zeta.
  destruct e; try apply yields_raise; try apply rejected_unconfirmed;
    try (by apply outcome_unconfirmed);
    try (destruct (at_dispatching a); [apply yields_raise|apply rejected_unconfirmed]).
  apply yields_after; intros stopped. apply rejected_unconfirmed.
Qed.

Lemma physical_command_confirmed d i c cap b w o w' :
  physical_command d i c cap b w = (Ok o, w') -> eo_status o = ES_CONFIRMED_SUCCESS ->
  confirms c (cap_name <$> cap) o w w'.
Proof.
  unfold physical_command. intros H Hst. apply stm_bind_ok in H as (req & w1 & H1 & H).
  apply stm_bind_ok in H as (u & w2 & H2 & H). rewrite try_bind in H.
  assert (sees w w2) as G.
  { transitivity w1; [exact (keeps_at _ _ _ _ _ (fresh_keeps sees _) H1)|]. injection H2 as _ <-.
    apply quiet_sees. by apply quiet_same. }
  assert (at_replay_intent (w_attempt w2) = None) as Hn by by injection H2 as _ <-.
  destruct (attempt_command d i c cap b req w2) as [r w3] eqn:Ea. simpl in H. unfold resolved in H.
  apply stm_bind_ok in H as (o' & w4 & H4 & H). apply stm_bind_ok in H as (u' & w5 & H5 & H).
  injection H as <- <-. destruct r as [o|e].
  - injection H4 as <- <-. eapply confirms_before; [exact G|].
    eapply confirms_after; [by eapply attempt_confirmed|].
    exact (keeps_at _ _ _ _ _ (settle_intent_keeps grows _) H5).
  - by destruct (on_exception_unconfirmed _ _ _ _ _ _ _ _ H4).
Qed.

Lemma execute_command_confirmed d i c cap w o w' :
  execute_command d i c cap w = (Ok o, w') -> eo_status o = ES_CONFIRMED_SUCCESS ->
  confirms c (cap_name <$> cap) o w w'.
Proof.
  unfold execute_command. change ((shared ≫= ?f) w) with (f (w_shared w) w). cbv beta zeta.
  intros H Hst. case_bool_decide; [by destruct (rejected_unconfirmed _ _ _ _ _ _ _ _ _ H)|].
  rewrite stm_bind_lift in H. destruct (safety_check _ _ _) as [[e|]|]; [| |done].
  - by destruct (rejected_unconfirmed _ _ _ _ _ _ _ _ _ H).
  - by eapply physical_command_confirmed.
Qed.

(** [sh] was seen between [w] and [w']. *)
Definition seen_between (w w' : World) (sh : Shared I R) : Prop := exists new,
  w_trace w' = w_trace w ++ new /\ E_saw sh ∈ E_saw (w_shared w) :: new.

(** Between [w] and [w'] the command was validated into [c], which commands the
    capability [name]. *)
Definition validated (w w' : World) (command c : Command) (name : option string) : Prop :=
  exists sh v, seen_between w w' sh /\
    validate_command_semantics (sh_plan_service sh) command = Ok v /\ cv_errors v = [] /\
    c = cv_command v /\ name = cap_name <$> cv_capability v.

Lemma seen_between_grows w1 w2 w3 w4 sh :
  sees w1 w2 -> grows w3 w4 -> seen_between w2 w3 sh -> seen_between w1 w4 sh.
Proof.
  intros (t1 & E1 & (a & b & Ea & _)) [t4 E4] (new & E & Hin). exists (t1 ++ new ++ t4).
  rewrite E4, E, E1, <- !app_assoc. split; [done|].
  apply elem_of_cons in Hin as [Hin|Hin].
  - injection Hin as ->. change (E_saw (w_shared w2) ∈ (E_saw (w_shared w1) :: t1) ++ new ++ t4).
    rewrite Ea. set_solver.
  - right. set_solver.
Qed.

(** An outcome of the loop over [l]. *)
Definition justified (l : list Command) (w w' : World) (o : ExecutionOutcome) : Prop :=
  eo_status o = ES_CONFIRMED_SUCCESS -> exists command c name, command ∈ l /\
    validated w w' command c name /\ cmd_id command = eo_command_id o /\ confirms c name o w w'.

Lemma justified_grows l w1 w2 w3 w4 o :
  sees w1 w2 -> grows w3 w4 -> justified l w2 w3 o -> justified l w1 w4 o.
Proof.
  intros G1 G2 H Hst. destruct (H Hst) as (command & c & name & H0 & H1 & H2 & H3). exists command, c, name.
  split_and!; try done; [|eapply confirms_before; [done|]; by eapply confirms_after].
  destruct H1 as (sh & v & Hs & Hv). exists sh, v. split; [by eapply seen_between_grows|done].
Qed.
Lemma justified_unconfirmed l w w' o : unconfirmed o -> justified l w w' o.
Proof. by intros H ?. Qed.
Lemma not_sent_unconfirmed d c e : yields unconfirmed (not_sent d c e : M _).
Proof.
  apply (yields_bind unconfirmed); [apply rejected_unconfirmed|]. intros o Ho.
  apply yields_after; intros _. by apply yields_ret.
Qed.
Lemma block_all_unconfirmed d f l : yields (Forall unconfirmed) (block_all d f l : M _).
Proof.
  induction l as [|c l IH]; simpl; [by apply yields_ret|].
  apply (yields_bind unconfirmed).
  - apply (yields_bind unconfirmed); [apply rejected_unconfirmed|]. intros o Ho.
    apply yields_after; intros _. by apply yields_ret.
  - intros o Ho. apply (yields_bind _ _ _ _ IH). intros os Hos. apply yields_ret. by constructor.
Qed.

Lemma bind_grows_ok {A B} (m : M A) (f : A -> M B) w b w' :
  keeps sees m -> (m ≫= f) w = (Ok b, w') ->
  exists a w1, m w = (Ok a, w1) /\ sees w w1 /\ f a w1 = (Ok b, w').
Proof.
  intros Hm H. apply stm_bind_ok in H as (a & w1 & H1 & H). exists a, w1.
  split_and!; [done| |done]. exact (keeps_at _ _ _ _ _ Hm H1).
Qed.

Lemma rest_sees p d i first seen l (b : bool) :
  dispatch_of p d -> drop i (pl_commands p) = l ->
  keeps sees (if b then block_all d first l else run_commands d i seen l).
Proof. intros Hd Hl. destruct b; [apply (block_all_keeps sees)|by apply (run_commands_sees p)]. Qed.

Lemma run_commands_justified p d i seen l w os w' :
  dispatch_of p d -> drop i (pl_commands p) = l -> run_commands d i seen l w = (Ok os, w') ->
  Forall (justified l w w') os.
Proof.
  intros Hd. revert i seen w os. induction l as [|c l IH]; intros i seen w os Hl H; simpl in H.
  { injection H as <- <-. constructor. }
  assert (pl_commands p !! i = Some c) as Hc.
  { rewrite <- (Nat.add_0_r i), <- lookup_drop, Hl. done. }
  assert (drop (S i) (pl_commands p) = l) as Hl' by (rewrite (drop_S _ _ _ Hc) in Hl; congruence).
  assert (forall seen' w1 os', sees w w1 -> run_commands d (S i) seen' l w1 = (Ok os', w') ->
    Forall (justified (c :: l) w w') os') as Hrest.
  { intros seen' w1 os' G H1. eapply Forall_impl; [exact (IH _ _ _ _ Hl' H1)|]. intros o Ho Hst.
    destruct (justified_grows _ _ _ _ _ _ G ltac:(reflexivity) Ho Hst) as (command & c' & name & Hin & H0).
    exists command, c', name. split; [by right|done]. }
  assert (forall e c', (not_sent d c' e ≫= fun o => run_commands d (S i) seen l ≫= fun os =>
    mret (o :: os)) w = (Ok os, w') -> Forall (justified (c :: l) w w') os) as Hskip.
  { intros e c' H1. apply bind_grows_ok in H1 as (o & w1 & H1 & G & H2); [|apply not_sent_keeps, _].
    apply stm_bind_ok in H2 as (os' & w2 & H2 & H3). injection H3 as <- <-.
    constructor; [|by eapply Hrest]. by apply justified_unconfirmed, (not_sent_unconfirmed _ _ _ _ _ _ H1). }
  change ((shared ≫= ?f) w) with (f (w_shared w) w) in H. cbv beta in H.
  destruct (sh_cancel_requested _); [by eapply Hskip|]. rewrite stm_bind_lift in H.
  destruct (validate_command_semantics _ c) as [v|] eqn:Ev; [|done].
  destruct (cv_errors v) as [|e es] eqn:Ee; [|by eapply Hskip].
  rewrite stm_bind_lift in H. destruct (raise_if _ _) as [[]|]; [|done].
  destruct (normalizes_fields _ _ (semantics_normalizes _ _ _ Ev)) as [Hid _].
  apply bind_grows_ok in H as (o & w1 & H1 & G1 & H).
  2: { apply (execute_command_keeps sees). intros; apply dispatch_sees. }
  apply bind_grows_ok in H as (u & w2 & H2 & G2 & H); [|by apply (local_keeps sees)].
  apply bind_grows_ok in H as (u' & w3 & H3 & G3 & H); [|apply save_outcome_keeps, _].
  apply stm_bind_ok in H as (os' & w4 & H4 & H). injection H as <- <-.
  assert (sees w w3) as G by (etransitivity; [exact G1|by etransitivity]).
  pose proof (keeps_at _ _ _ _ _ (rest_sees p d _ _ _ _ _ Hd Hl') H4) as G4.
  constructor.
  - intros Hst. exists c, (cv_command v), (cap_name <$> cv_capability v).
    split_and!; [by left| | |].
    + exists (w_shared w), v. split; [|done].
      assert (grows w w4) as [new Enew]; [|exists new; split; [done|by left]].
      apply sees_grows. by etransitivity.
    + destruct (execute_command_reports _ _ _ _ _ _ _ H1) as [-> _]. done.
    + eapply confirms_after; [by eapply execute_command_confirmed|].
      apply sees_grows. etransitivity; [by etransitivity|done].
  - revert H4. destruct (_ && _); intros H4; [|by eapply Hrest].
    eapply Forall_impl; [exact (block_all_unconfirmed _ _ _ _ _ _ H4)|].
    intros o' Ho'. by apply justified_unconfirmed.
Qed.

Lemma execute_claimed_justified p adm l o w os w' :
  (adm = None -> ex_execution_admission = false) -> execute_claimed p adm l o w = (Ok os, w') ->
  Forall (justified (pl_commands p) w w') os.
Proof.
  intros Ha H. unfold execute_claimed in H.
  apply bind_grows_ok in H as (id & w1 & _ & G1 & H); [|apply fresh_keeps, _].
  change ((shared ≫= ?f) w1) with (f (w_shared w1) w1) in H. cbv beta in H.
  assert (forall d w2 os', dispatch_of p d -> sees w w2 -> run_plan p d l o w2 = (Ok os', w') ->
    Forall (justified (pl_commands p) w w') os') as Hrun.
  { intros d w2 os' Hd G2 H2. unfold run_plan in H2.
    change ((local ?f ≫= ?g) w2) with (g tt (snd (local f w2))) in H2. cbv beta in H2.
    apply stm_bind_ok in H2 as (os2 & w3 & H3 & H4).
    pose proof (keeps_at _ _ _ _ _ (settle_run_keeps grows _ _ _ _) H4) as G4.
    destruct (settle_run_settles _ _ _ _ _ _ _ H4) as [-> _].
    eapply Forall_impl; [exact (run_commands_justified p d 0 [] _ _ _ _ Hd eq_refl H3)|].
    intros x. by apply justified_grows. }
  rewrite stm_bind_lift in H. destruct (preflight _ _ _ _ _) as [[rs|]|]; [| |done].
  - apply stm_bind_ok in H as (u & w2 & _ & H). apply stm_bind_ok in H as (u' & w3 & _ & H).
    injection H as <- _. unfold preflight_outcomes. apply Forall_fmap, Forall_true.
    intros r. by apply justified_unconfirmed.
  - apply bind_grows_ok in H as (t & w2 & _ & G2 & H); [|apply acquire_control_keeps, _].
    assert (sees w w2) as G by by etransitivity.
    destruct t as [t|]; [case_bool_decide|].
    + by apply (Hrun _ _ _ (dispatch_of_new p _ _ _ Ha) G H).
    + apply stm_bind_ok in H as (at_ & w3 & _ & H). apply stm_bind_ok in H as (u & w4 & _ & H).
      apply stm_bind_ok in H as (u' & w5 & _ & H). injection H as <- _.
      apply Forall_fmap, Forall_true. intros c. by apply justified_unconfirmed.
    + by apply (Hrun _ _ _ (dispatch_of_new p _ _ _ Ha) G H).
Qed.

(** C4: a confirmed success was accepted and observed.  For every outcome an
    execution reports as a confirmed success, the trace shows: its command's
    validated form was written and accepted by the adapter (or the ledger of
    intents answered that it already had been), and afterwards, before
    anything else was written, a reading was stored that is the outcome's
    after-state and matches the command's postcondition; it was read from the
    very source to which the inventory routed the confirming capability of the
    command's device, as that source's reading of that capability. *)
Theorem confirmed_success_observed p overrides capability w os w' o :
  execute_owned p overrides capability w = (Ok os, w') -> o ∈ os ->
  eo_status o = ES_CONFIRMED_SUCCESS ->
  exists command c name, command ∈ pl_commands p /\ validated w w' command c name /\
    cmd_id command = eo_command_id o /\ confirms c name o w w'.
Proof.
  unfold execute_owned, try_catch. destruct (execute_impl p overrides capability w) as [[os'|e] wi] eqn:Ei.
  2: { intros H. exfalso. unfold after_exception in H.
       change ((attempt ≫= ?f) wi) with (f (w_attempt wi) wi) in H. cbv beta in H.
       by apply stm_bind_ok in H as (? & ? & _ & H). }
  intros [= <- <-] Hin Hst. unfold execute_impl in Ei.
  apply bind_grows_ok in Ei as (adm & w1 & H1 & G1 & H); [|apply admit_execution_keeps, _].
  apply bind_grows_ok in H as (lease & w2 & H2 & G2 & H); [|apply execution_lease_of_keeps, _].
  apply bind_grows_ok in H as (u & w3 & H3 & G3 & H); [|apply claim_plan_keeps, _].
  assert (adm = None -> ex_execution_admission = false) as Ha
    by (intros ->; by apply admitted_none in H1).
  pose proof (proj1 (Forall_forall _ _) (execute_claimed_justified _ _ _ _ _ _ _ Ha H) o Hin) as Hj.
  revert Hst. change (justified (pl_commands p) w wi o).
  apply (justified_grows _ w w3 wi wi); [|reflexivity|done].
  etransitivity; [exact G1|by etransitivity].
Qed.
End Confirm.

(** ** Witness: the desk lamp *)

#[local] Existing Instance example_canonical.

Lemma confirmed_success_observed_witness :
  exists command c name o, command ∈ pl_commands lamp_plan /\ validated (I := intents) (R := plans) lamp_world (snd (lamp_run lamp_world)) command c name /\
    confirms (I := intents) (R := plans) c name o lamp_world (snd (lamp_run lamp_world)).
Proof.
  pose proof lamp_confirmed as Hc. destruct (fst (lamp_run lamp_world)) as [os|e] eqn:E; [|discriminate Hc].
  destruct os as [|o os]; [discriminate Hc|]. injection Hc as Hst _.
  destruct (confirmed_success_observed (ex := lamp_executor) (env := lamp_environment) lamp_plan None None
    lamp_world (o :: os) (snd (lamp_run lamp_world)) o) as (command & c & name & H1 & H2 & _ & H3).
  - rewrite <- E. apply surjective_pairing.
  - left.
  - exact Hst.
  - exists command, c, name, o. split; [exact H1|split; [exact H2|exact H3]].
Defined.
