(* ===== verification/Projection.v ===== *)
(** * The result of an execution (application/execution_projection.py)

    What callers are told about an execution, and the digest of its outcomes
    ([execution_outcome_digest] of domain/models.py). *)

From S2P Require Import Prelude.
From S2P Require Import Values.
From S2P Require Import Models.
From S2P Require Import Digests.
From S2P Require Import Admission.

(** How [model_dump(mode="json")] renders an instant and a time of day, and the
    text of a message. *)
Class Rendering := {
  json_instant : datetime -> string;
  json_time : Z -> string;
  render_message : message -> string
}.

Definition ErrorCode_value (c : ErrorCode) : string :=
  match c with
  | INVALID_TRANSITION => "invalid_transition"
  | INVALID_CAPABILITY => "invalid_capability"
  | DEVICE_NOT_FOUND => "device_not_found"
  | UNSUPPORTED_COMMAND => "unsupported_command"
  | VALUE_OUT_OF_RANGE => "value_out_of_range"
  | DUPLICATE_COMMAND => "duplicate_command"
  | STALE_PLAN => "stale_plan"
  | APPROVAL_REQUIRED => "approval_required"
  | APPROVAL_ASSERTION_REQUIRED => "approval_assertion_required"
  | APPROVAL_ASSERTION_INVALID => "approval_assertion_invalid"
  | APPROVAL_ASSERTION_REPLAYED => "approval_assertion_replayed"
  | APPROVAL_ASSERTION_EXPIRED => "approval_assertion_expired"
  | OPERATOR_AUTHENTICATION_FAILED => "operator_authentication_failed"
  | POLICY_DENIED => "policy_denied"
  | CONFIRMATION_REQUIRED => "confirmation_required"
  | ADAPTER_UNAVAILABLE => "adapter_unavailable"
  | ROUTE_AMBIGUOUS => "route_ambiguous"
  | ROUTE_NOT_FOUND => "route_not_found"
  | SOURCE_UNAVAILABLE => "source_unavailable"
  | DELIVERY_FENCE_UNAVAILABLE => "delivery_fence_unavailable"
  | EXECUTION_FAILED => "execution_failed"
  | VALIDATION_ERROR => "validation_error"
  | PRECONDITION_FAILED => "precondition_failed"
  | NOT_YET_DUE => "not_yet_due"
  | SAFETY_LIMIT_EXCEEDED => "safety_limit_exceeded"
  | POST_WRITE_RECONCILIATION_FAILED => "post_write_reconciliation_failed"
  | PLAN_IDENTITY_CONFLICT => "plan_identity_conflict"
  | RESCHEDULE_REQUIRES_REVALIDATION => "reschedule_requires_revalidation"
  | BUNDLE_MEMBER_RESCHEDULE_FORBIDDEN => "bundle_member_reschedule_forbidden"
  | BUNDLE_MEMBER_EXECUTION_FORBIDDEN => "bundle_member_execution_forbidden"
  | BUNDLE_MEMBER_CANCEL_FORBIDDEN => "bundle_member_cancel_forbidden"
  | SCHEDULE_EVIDENCE_MISMATCH => "schedule_evidence_mismatch"
  | INVALID_COMMAND_VALUE => "invalid_command_value"
  | CONTROL_TAKEOVER_FAILED => "control_takeover_failed"
  | ACTUATOR_AUTHORIZATION_REQUIRED => "actuator_authorization_required"
  | INSUFFICIENT_SCOPE => "insufficient_scope"
  | AGGREGATE_CAPABILITY_INVALID => "aggregate_capability_invalid"
  | FENCING_VIOLATION => "fencing_violation"
  | PREFERENCE_CONFLICT => "preference_conflict"
  | IDEMPOTENCY_CONFLICT => "idempotency_conflict"
  | RESOLUTION_REQUIRED => "resolution_required"
  | HISTORY_UNAVAILABLE => "history_unavailable"
  | UNSUPPORTED_BINDING => "unsupported_binding"
  | INVALID_PREFERENCE => "invalid_preference"
  | STALE_CURSOR => "stale_cursor"
  | CONSENT_REVOKED => "consent_revoked"
  | CONSENT_CONFLICT => "consent_conflict"
  | HUMAN_CONFIRMATION_UNAVAILABLE => "human_confirmation_unavailable"
  end.

Section Projection.
Context `{CJ : Canonical} `{RN : Rendering}.

(** ** [execution_outcome_digest] *)

Definition cursor_dump (c : SourceCursor) : json :=
  JObj [("source_id", JStr (cu_source_id c)); ("stream_id", JStr (cu_stream_id c));
        ("epoch", JStr (cu_epoch c)); ("sequence", json_int (cu_sequence c));
        ("resync", JBool (cu_resync c))].

Definition snapshot_dump (s : StateSnapshot) : json :=
  JObj [("authority", authority_dump (ss_authority s)); ("device_id", JStr (ss_device_id s));
        ("capability", JStr (ss_capability s)); ("value", json_of_opt json_of_scalar (ss_value s));
        ("unit", json_opt_str (ss_unit s));
        ("observed_at", JStr (json_instant (ss_observed_at s)));
        ("received_at", JStr (json_instant (ss_received_at s)));
        ("status", JStr (StateStatus_value (ss_status s)));
        ("source_ref", source_ref_dump (ss_source_ref s));
        ("source_cursor", json_of_opt cursor_dump (ss_source_cursor s))].

Definition error_dump (e : ErrorDetail) : json :=
  JObj [("code", JStr (ErrorCode_value (er_code e)));
        ("message", JStr (render_message (er_message e))); ("field", json_opt_str (er_field e));
        ("device_id", json_opt_str (er_device_id e));
        ("capability", json_opt_str (er_capability e)); ("retryable", JBool (er_retryable e));
        ("details", JObj (er_details e))].

Definition outcome_dump (o : ExecutionOutcome) : json :=
  JObj [("authority", authority_dump (eo_authority o)); ("plan_id", JStr (eo_plan_id o));
        ("command_id", JStr (eo_command_id o));
        ("execution_attempt_id", JStr (eo_execution_attempt_id o));
        ("adapter_request_id", json_opt_str (eo_adapter_request_id o));
        ("status", JStr (ExecutionStatus_value (eo_status o)));
        ("adapter_ref", json_of_opt source_ref_dump (eo_adapter_ref o));
        ("before_state", json_of_opt snapshot_dump (eo_before_state o));
        ("after_state", json_of_opt snapshot_dump (eo_after_state o));
        ("error", json_of_opt error_dump (eo_error o));
        ("completed_at", JStr (json_instant (eo_completed_at o)))].

Definition execution_outcome_digest (outcomes : list ExecutionOutcome) : string :=
  digest_ascii (JList (map outcome_dump outcomes)).
End Projection.

(** ** [project_execution_summary] *)

Definition statuses_of (outcomes : list ExecutionOutcome) : list ExecutionStatus :=
  dedup (map eo_status outcomes).

(** [statuses & {...}] *)
Definition meets (a b : list ExecutionStatus) : bool := existsb (fun s => bool_decide (s ∈ b)) a.

Definition project_execution_summary (outcomes : list ExecutionOutcome) : string * string :=
  let statuses := statuses_of outcomes in
  if bool_decide (statuses = []) then ("unknown", "no_execution_outcomes")
  else if meets statuses [ES_UNKNOWN; ES_UNAVAILABLE] then ("unknown", "execution_unknown")
  else
    let failures := meets statuses [ES_REJECTED; ES_FAILED; ES_CANCELLED] in
    if failures && bool_decide (ES_CONFIRMED_SUCCESS ∈ statuses) then ("partial", "execution_partial")
    else if failures then ("failed", "execution_failed")
    else if bool_decide (statuses = [ES_CONFIRMED_SUCCESS]) then ("executed", "plan_executed")
    else ("unknown", "execution_not_terminal").

Lemma meets_ok a b : meets a b = true <-> exists s, s ∈ a /\ s ∈ b.
Proof.
  unfold meets. rewrite existsb_exists. setoid_rewrite bool_decide_eq_true.
  by setoid_rewrite list_elem_of_In.
Qed.

(** [statuses == {CONFIRMED_SUCCESS}] *)
Lemma dedup_singleton {A} `{EqDecision A} (l : list A) x :
  dedup l = [x] <-> l <> [] /\ Forall (eq x) l.
Proof.
  split.
  - intros H. split; [by intros ->|]. apply Forall_forall. intros y. rewrite <- elem_of_dedup. intros Hy.
    rewrite H in Hy. by apply list_elem_of_singleton in Hy.
  - intros [Hn Hall]. rewrite Forall_forall in Hall. pose proof (NoDup_dedup l) as Hd.
    destruct l as [|y l]; [done|]. assert (y ∈ dedup (y :: l)) as Hy by (apply elem_of_dedup; left).
    assert (forall z, z ∈ dedup (y :: l) -> z = x) as Hz
      by (intros z; rewrite elem_of_dedup; intros Hz; symmetry; by apply Hall).
    destruct (dedup (y :: l)) as [|a [|b t]]; [by inversion Hy|f_equal; apply Hz; left|].
    apply NoDup_cons in Hd as [Hab _]. rewrite (Hz a), (Hz b) in Hab by (repeat constructor).
    exfalso. apply Hab. left.
Qed.

Lemma all_confirmed_ok outcomes : statuses_of outcomes = [ES_CONFIRMED_SUCCESS] <->
  outcomes <> [] /\ Forall (fun o => eo_status o = ES_CONFIRMED_SUCCESS) outcomes.
Proof.
  unfold statuses_of. rewrite dedup_singleton, Forall_map. split; intros [H1 H2]; (split; [by destruct outcomes|]).
  - eapply Forall_impl; [exact H2|]. simpl. done.
  - eapply Forall_impl; [exact H2|]. simpl. done.
Qed.

(** Executed, if there is an outcome and every one is a confirmed success;
    partial, if some are and others failed, but nothing is uncertain. *)
Lemma projection_executed outcomes : fst (project_execution_summary outcomes) = "executed" <->
  outcomes <> [] /\ Forall (fun o => eo_status o = ES_CONFIRMED_SUCCESS) outcomes.
Proof.
  rewrite <- all_confirmed_ok. unfold project_execution_summary. split.
  - repeat case_match; try done. intros _. by case_bool_decide.
  - by intros ->.
Qed.
