(* ===== verification/Zones.v ===== *)
(** * Civil time: [datetime] and [zoneinfo]

    What Python's [datetime.astimezone] and [ZoneInfo.utcoffset] compute from
    the transitions of a time zone (PEP 495).  A [Zone] is the offset before
    the first transition and the transitions in order, an instant with the
    offset from then on; the rule for the far future is unrolled.  [ZoneInfo]
    bisects its sorted tables, the scans below stop at the same entry.

    The clock reading of an instant jumps at a transition; [wall_before_lt] is
    what makes it comparable: it is strictly increasing up to every instant
    that is no repetition ([fold]). *)

From S2P Require Import Prelude.
From S2P Require Import Models.

Definition day : timedelta := hours 24.

(** [date.min] and [date.max] as days since 1970-01-01. *)
Definition MIN_DATE : Z := -719162.
Definition MAX_DATE : Z := 2932896.

(** [OverflowError: date value out of range] *)
Definition in_range (t : Z) : bool := (MIN_DATE * day <=? t) && (t <? (MAX_DATE + 1) * day).
Definition check_range (t : Z) : result exn Z := if in_range t then Ok t else Err OverflowError.

Record Zone := mkZone { z_before : timedelta; z_transitions : list (datetime * timedelta) }.

(** A [datetime] of a zone: the clock reading (its microseconds since
    1970-01-01T00:00) and the [fold]. *)
Record local_time := mkLocal { lt_wall : Z; lt_fold : bool }.

(** The offset at an instant, and whether its reading is a repetition. *)
Fixpoint type_at (cur : timedelta) (fold : bool) (ts : list (datetime * timedelta)) (t : datetime)
    : timedelta * bool :=
  match ts with
  | [] => (cur, fold)
  | (u, o) :: ts => if u <=? t then type_at o (t - u <? cur - o) ts t else (cur, fold)
  end.

(** [utcoffset] of a reading. *)
Fixpoint offset_of_wall (fold : bool) (cur : timedelta) (ts : list (datetime * timedelta)) (w : Z)
    : timedelta :=
  match ts with
  | [] => cur
  | (u, o) :: ts =>
      if u + (if fold then Z.min cur o else Z.max cur o) <=? w then offset_of_wall fold o ts w else cur
  end.

Definition reading (z : Zone) (t : datetime) : local_time :=
  let '(o, fold) := type_at (z_before z) false (z_transitions z) t in mkLocal (t + o) fold.
Definition wall (z : Zone) (t : datetime) : Z := lt_wall (reading z t).
Definition fold_at (z : Zone) (t : datetime) : bool := lt_fold (reading z t).
Definition instant (z : Zone) (l : local_time) : datetime :=
  lt_wall l - offset_of_wall (lt_fold l) (z_before z) (z_transitions z) (lt_wall l).

(** [t.astimezone(zone)] and back. *)
Definition to_zone (z : Zone) (t : datetime) : result exn local_time :=
  check_range (wall z t) ≫= fun _ => Ok (reading z t).
Definition to_utc (z : Zone) (l : local_time) : result exn datetime := check_range (instant z l).

(** ** The tables of time zones

    Every zone of the tz database: transitions are in order, one is over before
    the next, the clock is moved by a day at most, and an offset is less than a
    day. *)
Fixpoint regular_from (cur : timedelta) (ts : list (datetime * timedelta)) : Prop :=
  Z.abs cur < day /\
  match ts with
  | [] => True
  | (u, o) :: rest =>
      Z.abs (o - cur) <= day /\
      match rest with (u', _) :: _ => u + Z.abs (o - cur) <= u' | [] => True end /\
      regular_from o rest
  end.
Definition zone_regular (z : Zone) : Prop := regular_from (z_before z) (z_transitions z).

#[global] Instance regular_from_dec cur ts : Decision (regular_from cur ts).
Proof.
  revert cur. induction ts as [|[u o] ts IH]; intros cur; [apply _|].
  apply and_dec; [apply _|]. apply and_dec; [apply _|]. apply and_dec; [destruct ts as [|[]]; apply _|apply IH].
Defined.

(** ** Readings *)

(** The next transition is not before [u]. *)
Definition after_instant (u : datetime) (ts : list (datetime * timedelta)) : Prop :=
  match ts with [] => True | (u', _) :: _ => u <= u' end.

Lemma regular_cons cur u o ts : regular_from cur ((u, o) :: ts) ->
  Z.abs (o - cur) <= day /\ after_instant (u + Z.abs (o - cur)) ts /\ regular_from o ts.
Proof. intros (_ & H1 & H2 & H3). split; [done|]. split; [|done]. by destruct ts as [|[]]. Qed.

Lemma offset_bound cur fold ts t : regular_from cur ts -> Z.abs (fst (type_at cur fold ts t)) < day.
Proof.
  revert cur fold. induction ts as [|[u o] ts IH]; intros cur fold Hr; simpl; [apply Hr|].
  case_match; [|apply Hr]. by apply IH, (regular_cons _ _ _ _ Hr).
Qed.

Lemma wall_offset_bound cur ts w : regular_from cur ts -> Z.abs (offset_of_wall false cur ts w) < day.
Proof.
  revert cur. induction ts as [|[u o] ts IH]; intros cur Hr; simpl; [apply Hr|].
  case_match; [|apply Hr]. by apply IH, (regular_cons _ _ _ _ Hr).
Qed.

Lemma type_at_fold_irrelevant cur f f' ts t : fst (type_at cur f ts t) = fst (type_at cur f' ts t).
Proof. destruct ts as [|[u o] ts]; simpl; [done|]. by case_match. Qed.

(** A reading that is no repetition is past what the clock showed around the
    transitions before it. *)
Lemma past_transition ts : forall prev cur u c, regular_from cur ts ->
  after_instant (u + Z.abs (cur - prev)) ts -> u <= c ->
  snd (type_at cur (c - u <? prev - cur) ts c) = false ->
  u + Z.max prev cur <= c + fst (type_at cur (c - u <? prev - cur) ts c).
Proof.
  induction ts as [|[u' o] ts IH]; intros prev cur u c Hr Ha Huc; simpl in *.
  - intros ?%Z.ltb_ge. lia.
  - destruct (u' <=? c) eqn:E; simpl; [|intros ?%Z.ltb_ge; lia]. apply Z.leb_le in E.
    intros Hf. apply regular_cons in Hr as (_ & Ha' & Hr). pose proof (IH cur o u' c Hr Ha' E Hf). lia.
Qed.

Lemma reading_increasing ts : forall cur f f' a c, regular_from cur ts -> a < c ->
  snd (type_at cur f ts c) = false -> a + fst (type_at cur f' ts a) < c + fst (type_at cur f ts c).
Proof.
  induction ts as [|[u o] ts IH]; intros cur f f' a c Hr Hac; simpl; [lia|].
  apply regular_cons in Hr as (_ & Ha & Hr).
  destruct (u <=? a) eqn:Ea, (u <=? c) eqn:Ec; simpl; try lia.
  - by apply IH.
  - apply Z.leb_le in Ec. intros Hf. pose proof (past_transition ts cur o u c Hr Ha Ec Hf). lia.
Qed.

(** The offset of the reading of an instant, if it is no repetition. *)
Lemma offset_of_reading ts : forall cur f t, regular_from cur ts -> snd (type_at cur f ts t) = false ->
  offset_of_wall false cur ts (t + fst (type_at cur f ts t)) = fst (type_at cur f ts t).
Proof.
  induction ts as [|[u o] ts IH]; intros cur f t Hr; simpl; [done|].
  apply regular_cons in Hr as (_ & Ha & Hr). destruct (u <=? t) eqn:E; simpl.
  - apply Z.leb_le in E. intros Hf. pose proof (past_transition ts cur o u t Hr Ha E Hf).
    rewrite (proj2 (Z.leb_le _ _)) by done. by apply IH.
  - intros _. destruct (u + Z.max cur o <=? t + cur) eqn:E2; [lia|done].
Qed.

Lemma wall_past_transition ts : forall prev cur u w, regular_from cur ts ->
  after_instant (u + Z.abs (cur - prev)) ts -> u + Z.max prev cur <= w ->
  u + Z.max prev cur - cur <= w - offset_of_wall false cur ts w.
Proof.
  induction ts as [|[u' o] ts IH]; intros prev cur u w Hr Ha Hw; simpl in *; [lia|].
  destruct (u' + Z.max cur o <=? w) eqn:E; [|lia]. apply regular_cons in Hr as (_ & Ha' & Hr).
  apply Z.leb_le in E. pose proof (IH cur o u' w Hr Ha' E). lia.
Qed.

Lemma first_reading ts : forall cur w, regular_from cur ts ->
  let c := w - offset_of_wall false cur ts w in
  snd (type_at cur false ts c) = false /\ w <= c + fst (type_at cur false ts c) <= w + day.
Proof.
  assert (0 < day) by done.
  induction ts as [|[u o] ts IH]; intros cur w Hr; simpl; [split; [done|lia]|].
  apply regular_cons in Hr as (Hd & Ha & Hr). destruct (u + Z.max cur o <=? w) eqn:E.
  - apply Z.leb_le in E. pose proof (wall_past_transition ts cur o u w Hr Ha E).
    specialize (IH o w Hr). simpl in IH.
    destruct (u <=? _) eqn:E1; [|lia]. by destruct (_ - u <? _) eqn:E2; [lia|].
  - destruct (u <=? w - cur) eqn:E1; simpl; [|split; [done|lia]].
    destruct (w - cur - u <? cur - o) eqn:E2; [lia|].
    destruct ts as [|[u' o'] ts]; simpl in *; [split; [done|lia]|].
    destruct (u' <=? w - cur) eqn:E3; [lia|]. simpl. split; [done|lia].
Qed.

Section zone.
Context (z : Zone) (Hz : zone_regular z).

Lemma wall_eq t : wall z t = t + fst (type_at (z_before z) false (z_transitions z) t).
Proof. unfold wall, reading. by destruct (type_at _ _ _ t). Qed.
Lemma fold_eq t : fold_at z t = snd (type_at (z_before z) false (z_transitions z) t).
Proof. unfold fold_at, reading. by destruct (type_at _ _ _ t). Qed.

Lemma wall_near t : t - day < wall z t < t + day.
Proof using Hz. rewrite wall_eq. pose proof (offset_bound _ false _ t Hz). lia. Qed.

Lemma wall_before_lt a c : fold_at z c = false -> a < c -> wall z a < wall z c.
Proof using Hz. rewrite !wall_eq, fold_eq. intros Hf Hac. by apply reading_increasing. Qed.

Lemma wall_before_le a c : fold_at z c = false -> a <= c -> wall z a <= wall z c.
Proof using Hz.
  intros Hf ?. destruct (decide (a = c)) as [->|]; [done|].
  pose proof (wall_before_lt a c Hf). lia.
Qed.

(** Unless the clock repeats itself, a later reading is a later instant. *)
Lemma wall_lt_before a c : fold_at z a = false -> wall z a < wall z c -> a < c.
Proof using Hz.
  intros Hf Hlt. apply Z.nle_gt. intros Hle. pose proof (wall_before_le c a Hf Hle). lia.
Qed.

(** The first instant that shows [w], or the instant so far after the gap as
    [w] is after its beginning. *)
Definition first_instant (w : Z) : datetime := instant z (mkLocal w false).

Lemma first_instant_spec w : fold_at z (first_instant w) = false /\
  w <= wall z (first_instant w) <= w + day.
Proof using Hz. rewrite fold_eq, wall_eq. by apply first_reading. Qed.

Lemma first_instant_near w : w - day < first_instant w < w + day.
Proof using Hz. pose proof (wall_offset_bound _ _ w Hz). unfold first_instant, instant. simpl. lia. Qed.

(** No repetition: the instant of its own reading. *)
Lemma instant_reading t : fold_at z t = false -> instant z (reading z t) = t.
Proof using Hz.
  rewrite fold_eq. intros Hf. pose proof (offset_of_reading _ _ _ _ Hz Hf) as Ho.
  unfold instant, reading. destruct (type_at _ _ _ t) as [o f]. simpl in *. subst f. rewrite Ho. lia.
Qed.
End zone.
