(* ===== verification/Recurrence.v ===== *)
(** * The next run of a recurring schedule (application/recurrence.py)

    A rule names a time of day in a time zone and the weekdays it runs on.
    [next_occurrence] walks the local calendar for at most eight days.  The time
    zone database is [zone_info]; what [datetime] does with a zone is
    [Zones.v]. *)

From S2P Require Import Prelude.
From S2P Require Import Values.
From S2P Require Import Models.
From S2P Require Import Digests.
From S2P Require Import Projection.
From S2P Require Import Zones.

(** A [time] is the microseconds since midnight. *)
Record RecurrenceRule := mkRecurrenceRule {
  rec_authority : AuthorityContext;
  rec_time_of_day : Z;
  rec_timezone : string;
  rec_days_of_week : option (list Z);
  rec_expires_at : option datetime
}.
#[global] Instance RecurrenceRule_eq_dec : EqDecision RecurrenceRule.
Proof. solve_decision. Defined.

(** The field constraints and [validate_days_of_week]; an instant is aware. *)
Definition validate_rule (r : RecurrenceRule) : result exn unit :=
  validate_authority (rec_authority r) ≫= fun _ =>
  raise_if (negb ((0 <=? rec_time_of_day r) && (rec_time_of_day r <? day)))
    (ValueError "Input should be in a valid time format") ≫= fun _ =>
  raise_if (is_empty (rec_timezone r)) (ValueError "String should have at least 1 character")
    ≫= fun _ =>
  match rec_days_of_week r with
  | None => Ok tt
  | Some days =>
      raise_if (bool_decide (days = [])) (ValueError "days_of_week, if provided, must not be empty")
        ≫= fun _ =>
      raise_if (existsb (fun d => (d <? 0) || (d >? 6)) days)
        (ValueError "days_of_week entries must be in 0..6 (0=Monday)")
  end.

(** [date.weekday()] of a day since 1970-01-01, a Thursday. *)
Definition weekday (date : Z) : Z := (date + 3) mod 7.

Definition MAX_DAYS_SEARCHED : nat := 8.

Definition runs_on (r : RecurrenceRule) (date : Z) : bool :=
  match rec_days_of_week r with
  | None => true
  | Some days => bool_decide (weekday date ∈ days)
  end.

(** [datetime.combine(...)] with the first reading after a gap in its place. *)
Definition candidate_on (z : Zone) (r : RecurrenceRule) (date : Z) : result exn local_time :=
  let candidate := mkLocal (date * day + rec_time_of_day r) false in
  utc ← to_utc z candidate;
  round_trip ← to_zone z utc;
  Ok (if negb (lt_wall round_trip =? lt_wall candidate) then round_trip else candidate).

(** The loop; two datetimes of one zone are compared by their readings. *)
Fixpoint search_days (n : nat) (z : Zone) (r : RecurrenceRule) (local_after : local_time) (date : Z)
    : result exn datetime :=
  match n with
  | O => Err (ValueError "No matching occurrence found within the search window")
  | S n =>
      let next_day :=
        if MAX_DATE <? date + 1 then Err OverflowError else search_days n z r local_after (date + 1) in
      if runs_on r date then
        candidate ← candidate_on z r date;
        if lt_wall candidate >? lt_wall local_after then to_utc z candidate else next_day
      else next_day
  end.

Section Recurrence.
Context (zone_info : string -> result exn Zone).

Definition next_occurrence (r : RecurrenceRule) (after : datetime) : result exn datetime :=
  z ← zone_info (rec_timezone r);
  local_after ← to_zone z after;
  search_days MAX_DAYS_SEARCHED z r local_after (lt_wall local_after / day).
End Recurrence.

(** ** Digests *)

Section RecurrenceDigests.
Context `{CJ : Canonical} `{RN : Rendering}.

Definition rule_dump (r : RecurrenceRule) : json :=
  JObj [("authority", authority_dump (rec_authority r));
        ("time_of_day", JStr (json_time (rec_time_of_day r)));
        ("timezone", JStr (rec_timezone r));
        ("days_of_week", json_of_opt (fun l => JList (map json_int l)) (rec_days_of_week r));
        ("expires_at", json_opt_str (json_instant <$> rec_expires_at r))].

Definition recurring_template_digest (commands : list Command) : string :=
  digest_ascii (JObj [("schema", JStr "standing-automation-template-v1");
                      ("commands", JList (map command_dump commands))]).

Definition recurrence_digest (plan_id : string) (r : RecurrenceRule)
    (template_digest : option string) : string :=
  digest_ascii (JObj ([("schema", JStr "standing-automation-v1"); ("plan_id", JStr plan_id);
                       ("rule", rule_dump r)] ++
                      match template_digest with
                      | Some d => [("template_digest", JStr d)]
                      | None => []
                      end)).

Definition occurrence_idempotency_key (household_id automation_id definition_digest occurrence_id
    command_id : string) (command_index : Z) : string :=
  "automation:v1:" +:+ sha256_hex (dumps_ascii
    (JObj [("schema", JStr "automation-occurrence-idempotency-v1");
           ("household_id", JStr household_id); ("automation_id", JStr automation_id);
           ("definition_digest", JStr definition_digest); ("occurrence_id", JStr occurrence_id);
           ("command_id", JStr command_id); ("command_index", json_int command_index)])).
End RecurrenceDigests.

(** ** The next occurrence *)

(** The instant a rule runs at on a date. *)
Definition occurrence_on (z : Zone) (r : RecurrenceRule) (date : Z) : datetime :=
  first_instant z (date * day + rec_time_of_day r).

(** Far enough from the ends of the calendar for the search. *)
Definition searchable (t : datetime) : Prop := (MIN_DATE + 3) * day <= t < (MAX_DATE - 11) * day.

Lemma validate_rule_ok r : validate_rule r = Ok tt ->
  0 <= rec_time_of_day r < day /\
  match rec_days_of_week r with None => True | Some l => exists d, d ∈ l /\ 0 <= d <= 6 end.
Proof.
  unfold validate_rule. intros ([] & _ & H)%result_bind_ok.
  apply result_bind_ok in H as ([] & Ht & H). apply result_bind_ok in H as ([] & _ & H).
  apply raise_if_ok, negb_false_iff in Ht. split; [lia|].
  destruct (rec_days_of_week r) as [l|]; [|done].
  apply result_bind_ok in H as ([] & Hn & H). apply raise_if_ok, bool_decide_eq_false in Hn.
  apply raise_if_ok in H. destruct l as [|d l]; [done|]. exists d. split; [left|].
  simpl in H. lia.
Qed.

Lemma weekday_exists date d : 0 <= d <= 6 -> exists k, 1 <= k <= 7 /\ weekday (date + k) = d.
Proof.
  intros Hd. exists (1 + (d - 4 - date) mod 7). unfold weekday.
  pose proof (Z.mod_pos_bound (d - 4 - date) 7 ltac:(lia)). split; [lia|].
  rewrite (Z.add_assoc date 1), <- Z.add_assoc, (Z.add_comm _ 3), Z.add_assoc.
  rewrite Zplus_mod_idemp_r. replace (date + 1 + 3 + (d - 4 - date)) with d by lia.
  apply Z.mod_small. lia.
Qed.

Lemma check_range_ok t : in_range t = true -> check_range t = Ok t.
Proof. unfold check_range. by intros ->. Qed.

Section search.
Context (z : Zone) (Hz : zone_regular z) (r : RecurrenceRule) (Ht : 0 <= rec_time_of_day r < day).

Lemma occurrence_on_spec date : fold_at z (occurrence_on z r date) = false /\
  date * day <= wall z (occurrence_on z r date) < (date + 2) * day.
Proof using Hz Ht.
  destruct (first_instant_spec z Hz (date * day + rec_time_of_day r)). unfold occurrence_on. split; [done|lia].
Qed.

Lemma occurrence_on_mono d d' : d <= d' -> occurrence_on z r d <= occurrence_on z r d'.
Proof using Hz Ht.
  intros Hd. destruct (decide (d = d')) as [->|]; [done|]. apply Z.nlt_ge. intros Hlt.
  destruct (first_instant_spec z Hz (d * day + rec_time_of_day r)) as [Hf [_ H]].
  destruct (first_instant_spec z Hz (d' * day + rec_time_of_day r)) as [_ [H' _]].
  pose proof (wall_before_lt z Hz _ _ Hf Hlt). assert (0 < day) by done.
  unfold occurrence_on in *. nia.
Qed.

Definition calendar_date (date : Z) : Prop := MIN_DATE + 2 <= date <= MAX_DATE - 3.

Lemma candidate_on_spec date : calendar_date date -> exists l, candidate_on z r date = Ok l /\
  lt_wall l = wall z (occurrence_on z r date) /\ to_utc z l = Ok (occurrence_on z r date).
Proof using Hz Ht.
  intros [Hlo Hhi]. assert (0 < day) by done.
  destruct (occurrence_on_spec date) as [Hf Hw].
  pose proof (first_instant_near z Hz (date * day + rec_time_of_day r)) as Hn.
  change (instant z (mkLocal (date * day + rec_time_of_day r) false)) with (occurrence_on z r date) in *.
  fold (occurrence_on z r date) in Hn.
  assert (Hr : check_range (occurrence_on z r date) = Ok (occurrence_on z r date)).
  { apply check_range_ok. unfold in_range. nia. }
  assert (Hrw : check_range (wall z (occurrence_on z r date)) = Ok (wall z (occurrence_on z r date))).
  { apply check_range_ok. unfold in_range. nia. }
  unfold candidate_on, to_utc at 1, to_zone.
  change (instant z (mkLocal (date * day + rec_time_of_day r) false)) with (occurrence_on z r date).
  rewrite Hr. cbn [mbind result_bind]. rewrite Hrw. cbn [mbind result_bind].
  fold (wall z (occurrence_on z r date)). cbn [lt_wall].
  destruct (Z.eqb_spec (wall z (occurrence_on z r date)) (date * day + rec_time_of_day r)) as [E|E];
    cbn [negb]; eexists; (split; [reflexivity|]).
  - by split.
  - split; [done|]. unfold to_utc. by rewrite instant_reading.
Qed.

(** The search stops at the first date whose occurrence reads later. *)
Lemma search_days_spec n local_after date :
  calendar_date date -> calendar_date (date + Z.of_nat n) ->
  (exists k, 0 <= k < Z.of_nat n /\ runs_on r (date + k) = true /\
     lt_wall local_after < wall z (occurrence_on z r (date + k))) ->
  exists d, search_days n z r local_after date = Ok (occurrence_on z r d) /\ date <= d /\
    runs_on r d = true /\ lt_wall local_after < wall z (occurrence_on z r d) /\
    forall d', date <= d' < d -> runs_on r d' = true ->
      wall z (occurrence_on z r d') <= lt_wall local_after.
Proof using Hz Ht.
  revert date. induction n as [|n IH]; intros date Hc Hc' (k & Hk & Hrun & Hlt); [lia|].
  destruct (runs_on r date && (wall z (occurrence_on z r date) >? lt_wall local_after)) eqn:E.
  - apply andb_true_iff in E as [E1 E2]. exists date. simpl. rewrite E1.
    destruct (candidate_on_spec date Hc) as (l & -> & Hw & Hu). simpl. rewrite Hw, E2.
    split; [done|]. split; [lia|]. split; [done|]. split; [lia|]. lia.
  - assert (k <> 0).
    { intros ->. rewrite Z.add_0_r in *. rewrite Hrun in E. simpl in E. lia. }
    destruct (IH (date + 1)) as (d & Hs & Hd & Hr & Hw & Hmin).
    { unfold calendar_date in *. lia. } { unfold calendar_date in *. lia. }
    { exists (k - 1). replace (date + 1 + (k - 1)) with (date + k) by lia. repeat split; [lia|lia|done|done]. }
    exists d. simpl. rewrite Hs. unfold calendar_date in *.
    destruct (MAX_DATE <? date + 1) eqn:Em; [lia|].
    split; [|split; [lia|split; [done|split; [done|]]]].
    + destruct (runs_on r date); [|done]. destruct (candidate_on_spec date Hc) as (l & -> & Hl & _).
      simpl in *. rewrite Hl. by rewrite E.
    + intros d' Hd' Hr'. destruct (decide (d' = date)) as [->|]; [|apply Hmin; [lia|done]].
      rewrite Hr' in E. simpl in E. lia.
Qed.

(** Within a week there is one. *)
Lemma some_day_runs a : validate_rule r = Ok tt ->
  exists k, 1 <= k <= 7 /\ runs_on r (a / day + k) = true /\
    a < wall z (occurrence_on z r (a / day + k)).
Proof using Hz Ht.
  intros [_ Hd]%validate_rule_ok.
  assert (exists k, 1 <= k <= 7 /\ runs_on r (a / day + k) = true) as (k & Hk & Hr).
  { unfold runs_on. destruct (rec_days_of_week r) as [l|]; [|by exists 1].
    destruct Hd as (d & Hin & Hd). destruct (weekday_exists (a / day) d Hd) as (k & Hk & <-).
    exists k. split; [done|]. by apply bool_decide_eq_true. }
  exists k. split; [done|]. split; [done|].
  destruct (occurrence_on_spec (a / day + k)) as [_ Hw]. assert (0 < day) by done.
  pose proof (Z.mod_pos_bound a day ltac:(done)). pose proof (Z.div_mod a day ltac:(done)). nia.
Qed.
End search.

(** What the search answers, by the readings of the clock. *)
Lemma next_occurrence_search zone_info r after z :
  zone_info (rec_timezone r) = Ok z -> zone_regular z -> validate_rule r = Ok tt -> searchable after ->
  exists d, next_occurrence zone_info r after = Ok (occurrence_on z r d) /\ runs_on r d = true /\
    wall z after < wall z (occurrence_on z r d) /\
    forall d', wall z after / day <= d' < d -> runs_on r d' = true ->
      wall z (occurrence_on z r d') <= wall z after.
Proof.
  intros Hi Hz Hv [Hlo Hhi]. pose proof (proj1 (validate_rule_ok r Hv)) as Ht.
  assert (0 < day) by done. pose proof (wall_near z Hz after) as Hn.
  pose proof (Z.mod_pos_bound (wall z after) day ltac:(done)).
  pose proof (Z.div_mod (wall z after) day ltac:(done)).
  unfold next_occurrence. rewrite Hi. cbn [mbind result_bind]. unfold to_zone.
  rewrite check_range_ok by (unfold in_range; nia). cbn [mbind result_bind].
  fold (wall z after).
  destruct (search_days_spec z Hz r Ht MAX_DAYS_SEARCHED (reading z after) (wall z after / day))
    as (d & Hs & Hd & Hr & Hw & Hmin); [unfold calendar_date; nia|unfold calendar_date, MAX_DAYS_SEARCHED; nia| |].
  { destruct (some_day_runs z Hz r Ht (wall z after) Hv) as (k & Hk & Hr & Hw).
    exists k. unfold MAX_DAYS_SEARCHED. split; [lia|done]. }
  by exists d.
Qed.

Lemma next_occurrence_after zone_info r after z :
  zone_info (rec_timezone r) = Ok z -> zone_regular z -> validate_rule r = Ok tt -> searchable after ->
  fold_at z after = false -> exists t, next_occurrence zone_info r after = Ok t /\ after < t.
Proof.
  intros Hi Hz Hv Hs Hf. destruct (next_occurrence_search zone_info r after z Hi Hz Hv Hs) as (d & Hn & _ & Hw & _).
  exists (occurrence_on z r d). split; [done|]. by apply (wall_lt_before z Hz).
Qed.

(** C23: A recurring schedule has a next run, and it is the right one: for every
    valid rule in a zone of the tz database and every instant that is not a
    repeated reading of the clock, [next_occurrence] answers the occurrence of
    a day the rule runs on, strictly after that instant, and no occurrence
    whose day did not end inside a gap of the clock comes between.  At a
    repeated reading it still skips none. *)
Theorem next_occurrence_first zone_info r after z :
  zone_info (rec_timezone r) = Ok z -> zone_regular z -> validate_rule r = Ok tt -> searchable after ->
  exists d, next_occurrence zone_info r after = Ok (occurrence_on z r d) /\ runs_on r d = true /\
    (fold_at z after = false -> after < occurrence_on z r d) /\
    forall d', runs_on r d' = true -> wall z (occurrence_on z r d') / day = d' ->
      after < occurrence_on z r d' -> occurrence_on z r d <= occurrence_on z r d'.
Proof.
  intros Hi Hz Hv Hs. pose proof (proj1 (validate_rule_ok r Hv)) as Ht.
  destruct (next_occurrence_search zone_info r after z Hi Hz Hv Hs) as (d & Hn & Hr & Hw & Hmin).
  exists d. split; [done|]. split; [done|]. split; [intros Hf; by apply (wall_lt_before z Hz)|].
  intros d' Hr' Hdate Hlt. destruct (occurrence_on_spec z Hz r Ht d') as [Hf' _].
  pose proof (wall_before_lt z Hz _ _ Hf' Hlt) as Hw'.
  apply (occurrence_on_mono z Hz r Ht). apply Z.nlt_ge. intros Hdd.
  assert (wall z after / day <= d') by (rewrite <- Hdate; apply Z.div_le_mono; [done|lia]).
  pose proof (Hmin d' ltac:(lia) Hr') as Hb. lia.
Qed.

(** ** At the edges *)

(** The clock of Madrid around 2026, of Nuuk around 2025. *)
Definition Madrid : Zone :=
  mkZone (hours 1) [(seconds 1774746000, hours 2); (seconds 1792890000, hours 1)].
Definition Nuuk : Zone :=
  mkZone (hours (-2)) [(seconds 1743296400, hours (-1)); (seconds 1761440400, hours (-2))].
Definition some_zones (name : string) : result exn Zone :=
  if String.eqb name "Europe/Madrid" then Ok Madrid
  else if String.eqb name "America/Nuuk" then Ok Nuuk else Err KeyError.

Definition nightly : RecurrenceRule :=
  mkRecurrenceRule default_authority (minutes (2 * 60 + 30)) "Europe/Madrid" None None.
Definition saturdays : RecurrenceRule :=
  mkRecurrenceRule default_authority (minutes (23 * 60 + 30)) "America/Nuuk" (Some [5]) None.

(** 2026-03-29, 03:10 in Madrid: the run of 02:30 comes at 03:30. *)
Example shifted_out_of_gap :
  next_occurrence some_zones nightly (seconds (1774746000 + 600)) = Ok (seconds (1774746000 + 1800)).
Proof. reflexivity. Qed.

(** The same instant belongs to Saturday 23:30 in Nuuk, which reads Sunday
    00:30; ten past midnight the next Saturday is found instead. *)
Example skipped_across_midnight :
  let ten_past := seconds (1743296400 + 600) in
  next_occurrence some_zones saturdays (seconds (1743296400 - 600)) = Ok (seconds (1743296400 + 1800)) /\
  next_occurrence some_zones saturdays ten_past = Ok (seconds 1743899400) /\
  ten_past < seconds (1743296400 + 1800) < seconds 1743899400.
Proof. vm_compute. done. Qed.

(** 2026-10-25, 02:10 for the second time: the run of 02:30 is over, and is
    found again. *)
Example found_again_in_fold :
  let second_pass := seconds (1792890000 + 600) in
  next_occurrence some_zones nightly second_pass = Ok (seconds (1792890000 - 1800)) /\
  seconds (1792890000 - 1800) < second_pass /\ fold_at Madrid second_pass = true.
Proof. vm_compute. done. Qed.

Definition one_noon : datetime := seconds 1790000000.
Lemma next_occurrence_first_witness :
  exists d, next_occurrence some_zones nightly one_noon = Ok (occurrence_on Madrid nightly d) /\
    runs_on nightly d = true /\
    (fold_at Madrid one_noon = false -> one_noon < occurrence_on Madrid nightly d) /\
    forall d', runs_on nightly d' = true -> wall Madrid (occurrence_on Madrid nightly d') / day = d' ->
      one_noon < occurrence_on Madrid nightly d' ->
      occurrence_on Madrid nightly d <= occurrence_on Madrid nightly d'.
Proof.
  apply (next_occurrence_first some_zones nightly one_noon Madrid); [reflexivity| |reflexivity|].
  - vm_compute. repeat split; discriminate.
  - vm_compute. split; [discriminate|reflexivity].
Defined.
