(* ===== verification/ScheduleRecords.v ===== *)
(** * Durable schedules (persistence/repositories.py)

    [ScheduledPlanRepository] and [RecurringScheduleRepository]: the tables
    [scheduled_plans] and [recurring_schedules] in the order of their rows.  A
    payload is the value its JSON text decodes to, an instant in a column its
    ISO text; the columns [updated_at] are never read and left out.  A call is
    one step; that the database may fail is the scheduler's affair. *)

From S2P Require Import Prelude.
From S2P Require Import Values.
From S2P Require Import Models.
From S2P Require Import Digests.
From S2P Require Import ApprovalStore.
From S2P Require Import PlanService.
From S2P Require Import PlanRecords.
From S2P Require Import Projection.
From S2P Require Import Recurrence.

Inductive ScheduleStatus := SS_PENDING | SS_EXECUTED | SS_FAILED | SS_UNKNOWN | SS_CANCELLED | SS_MISSED.
#[global] Instance ScheduleStatus_eq_dec : EqDecision ScheduleStatus.
Proof. solve_decision. Defined.
Definition ScheduleStatus_value (s : ScheduleStatus) : string :=
  match s with
  | SS_PENDING => "pending" | SS_EXECUTED => "executed" | SS_FAILED => "failed"
  | SS_UNKNOWN => "unknown" | SS_CANCELLED => "cancelled" | SS_MISSED => "missed"
  end.

Record scheduled_row := mkScheduledRow {
  sr_execute_at : string;
  sr_status : ScheduleStatus;
  sr_payload : Plan
}.
#[global] Instance scheduled_row_eta : Eta scheduled_row := fun r =>
  mkScheduledRow (sr_execute_at r) (sr_status r) (sr_payload r).
Abbreviation scheduled_plans := (odict string scheduled_row).

Definition RECONCILABLE_STATUSES : list ScheduleStatus :=
  [SS_EXECUTED; SS_FAILED; SS_UNKNOWN; SS_CANCELLED].

Definition validation_digest (p : Plan) : option string := vr_digest <$> pl_validation p.

Section ScheduledPlans.
Context `{CJ : Canonical}.

Definition execute_at_text (p : Plan) (t : datetime) : string := isoformat t (pl_execute_tz p).

(** [INSERT INTO scheduled_plans ... 'pending']: the plan id is the key. *)
Definition insert_pending (p : Plan) (execute_at : datetime) (payload : Plan)
    : stm scheduled_plans exn unit :=
  t ← get_st;
  if od_mem (pl_id p) t then raise IntegrityError
  else put_st (od_set (pl_id p) (mkScheduledRow (execute_at_text p execute_at) SS_PENDING payload) t).

(** The window that is exactly the instant, for a plan that has none. *)
Definition point_window (p : Plan) (execute_at : datetime) : ExecutionWindow :=
  mkExecutionWindow execute_at execute_at execute_at
    (match pl_execute_tz p with
     | Some tz => if is_empty tz then "UTC" else tz | None => "UTC" end)
    (pl_schedule_revision p).

Definition schedule_plan (p : Plan) : stm scheduled_plans exn unit :=
  match pl_execute_at p with
  | None => raise (ValueError "plan.execute_at is required to schedule a plan")
  | Some execute_at =>
      match pl_execution_window p with
      | Some _ => insert_pending p execute_at p
      | None =>
          lift (raise_if (pl_schedule_revision p <? 0)
            (ValueError "Input should be greater than or equal to 0")) ≫= fun _ =>
          lift (validate_window (point_window p execute_at)) ≫= fun _ =>
          insert_pending p execute_at
            (p <| pl_execution_window := Some (point_window p execute_at) |>)
      end
  end.

Definition get_scheduled (t : scheduled_plans) (id : string)
    : result exn (option (Plan * ScheduleStatus)) :=
  match od_get id t with
  | None => Ok None
  | Some row => (fun p => Some (p, sr_status row)) <$> read_active_plan (sr_payload row) None
  end.

(** Rows that do not validate are skipped. *)
Definition list_pending (t : scheduled_plans) : list Plan :=
  omap (fun '(_, row) =>
          match read_active_plan (sr_payload row) None with Ok p => Some p | Err _ => None end)
    (isort (fun a b => String.leb (sr_execute_at (snd a)) (sr_execute_at (snd b)))
       (List.filter (fun '(_, row) => bool_decide (sr_status row = SS_PENDING)) t)).

(** [_transition]: [UPDATE ... WHERE plan_id = ? AND status = 'pending'] *)
Definition transition (id : string) (status : ScheduleStatus) : stm scheduled_plans exn bool :=
  t ← get_st;
  match od_get id t with
  | Some row =>
      if bool_decide (sr_status row = SS_PENDING)
      then put_st (od_set id (row <| sr_status := status |>) t) ≫= fun _ => mret true
      else mret false
  | None => mret false
  end.

Definition reconcile_terminal (id : string) (status : ScheduleStatus) : stm scheduled_plans exn bool :=
  lift (raise_if (negb (bool_decide (status ∈ RECONCILABLE_STATUSES)))
    (ValueError "Unsupported terminal scheduled-plan status")) ≫= fun _ =>
  moved ← transition id status;
  if moved : bool then mret true
  else
    t ← get_st;
    existing ← lift (get_scheduled t id);
    mret (bool_decide ((snd <$> existing) = Some status)).

Definition mark_executed (id : string) : stm scheduled_plans exn bool :=
  reconcile_terminal id SS_EXECUTED.
Definition mark_missed (id : string) : stm scheduled_plans exn unit :=
  transition id SS_MISSED ≫= fun _ => mret tt.
Definition cancel_scheduled (id : string) : stm scheduled_plans exn bool := transition id SS_CANCELLED.

(** What the transaction of [reschedule] checks of the stored row. *)
Definition replaces (stored replacement : Plan) (expected_revision : Z)
    (expected_validation_digest : string) : bool :=
  (pl_schedule_revision stored =? expected_revision) &&
  bool_decide (validation_digest stored = Some expected_validation_digest) &&
  (pl_schedule_revision replacement =? pl_schedule_revision stored + 1) &&
  negb (bool_decide (validation_digest replacement = validation_digest stored)).

Definition reschedule_plan (id : string) (execute_at : datetime) (expected_revision : option Z)
    (expected_validation_digest : option string) (replacement : option Plan)
    : stm scheduled_plans exn bool :=
  match expected_revision, expected_validation_digest, replacement with
  | Some revision, Some digest, Some p =>
      if negb (String.eqb (pl_id p) id) || negb (bool_decide (pl_execute_at p = Some execute_at))
         || negb (opt_bool (pl_execution_window p)) || negb (opt_bool (pl_validation p))
      then mret false
      else
        t ← get_st;
        match od_get id t with
        | Some row =>
            if negb (bool_decide (sr_status row = SS_PENDING)) then mret false
            else
              lift (model_validate (sr_payload row)) ≫= fun _ =>
              if replaces (sr_payload row) p revision digest
              then put_st (od_set id (mkScheduledRow (execute_at_text p execute_at) SS_PENDING p) t)
                     ≫= fun _ => mret true
              else mret false
        | None => mret false
        end
  | _, _, _ => mret false
  end.
End ScheduledPlans.

(** ** [RecurringScheduleRepository] *)

Record recurring_row := mkRecurringRow {
  rr_template : list Command;
  rr_rule : RecurrenceRule;
  rr_next_execute_at : datetime;
  rr_active : bool;  (* 'active' or 'cancelled' *)
  rr_authority : list (string * json)
}.
#[global] Instance recurring_row_eta : Eta recurring_row := fun r =>
  mkRecurringRow (rr_template r) (rr_rule r) (rr_next_execute_at r) (rr_active r) (rr_authority r).
Abbreviation recurring_schedules := (odict string recurring_row).

Section RecurringSchedules.
Context `{CJ : Canonical} `{RN : Rendering}.

(** [datetime.isoformat()] of an instant in UTC *)
Definition utc_text (t : datetime) : string := isoformat t (Some "UTC").

(** Two texts of [json.dumps(..., sort_keys=True)], or two decoded objects. *)
Definition same_json (a b : json) : bool := String.eqb (dumps_ascii a) (dumps_ascii b).
Definition template_dump (l : list Command) : json := JList (map command_dump l).

Definition create_recurring (id : string) (commands : list Command) (rule : RecurrenceRule)
    (next_execute_at : datetime) (authority : option (list (string * json)))
    : stm recurring_schedules exn unit :=
  t ← get_st;
  let row := mkRecurringRow commands rule next_execute_at true (default [] authority) in
  match od_get id t with
  | Some existing =>
      lift (raise_if
        ((negb (same_json (JObj (rr_authority existing)) (JObj (rr_authority row))) ||
          negb (same_json (template_dump (rr_template existing)) (template_dump commands)) ||
          negb (same_json (rule_dump (rr_rule existing)) (rule_dump rule))) && rr_active existing)
        (ValueError "recurring schedule intent conflicts with existing schedule")) ≫= fun _ =>
      if rr_active existing then mret tt else put_st (od_set id row t)
  | None => put_st (od_set id row t)
  end.

Definition get_recurring (t : recurring_schedules) (id : string)
    : option (list Command * RecurrenceRule * datetime * bool) :=
  (fun r => (rr_template r, rr_rule r, rr_next_execute_at r, rr_active r)) <$> od_get id t.
Definition get_authority (t : recurring_schedules) (id : string) : option (list (string * json)) :=
  rr_authority <$> od_get id t.

Definition list_active (t : recurring_schedules)
    : list (string * list Command * RecurrenceRule * datetime) :=
  map (fun '(id, r) => (id, rr_template r, rr_rule r, rr_next_execute_at r))
    (isort (fun a b => String.leb (utc_text (rr_next_execute_at (snd a)))
                         (utc_text (rr_next_execute_at (snd b))))
       (List.filter (fun '(_, r) => rr_active r) t)).

Definition advance_recurring (id : string) (next_execute_at : datetime)
    : stm recurring_schedules exn unit :=
  modify (fun t => match od_get id t with
                   | Some r => if rr_active r
                               then od_set id (r <| rr_next_execute_at := next_execute_at |>) t else t
                   | None => t
                   end).

Definition cancel_recurring_row (id : string) : stm recurring_schedules exn bool :=
  t ← get_st;
  match od_get id t with
  | Some r => if rr_active r
              then put_st (od_set id (r <| rr_active := false |>) t) ≫= fun _ => mret true
              else mret false
  | None => mret false
  end.
End RecurringSchedules.

(** ** Histories of the scheduled plans *)

Section ScheduleHistories.
Context `{CJ : Canonical}.

Inductive schedule_call :=
  | C_schedule (p : Plan)
  | C_reconcile_terminal (id : string) (status : ScheduleStatus)
  | C_mark_missed (id : string)
  | C_cancel (id : string)
  | C_reschedule (id : string) (execute_at : datetime) (expected_revision : option Z)
      (expected_validation_digest : option string) (replacement : option Plan).

Definition schedule_call_step (t : scheduled_plans) (c : schedule_call) : scheduled_plans :=
  match c with
  | C_schedule p => snd (schedule_plan p t)
  | C_reconcile_terminal id s => snd (reconcile_terminal id s t)
  | C_mark_missed id => snd (mark_missed id t)
  | C_cancel id => snd (cancel_scheduled id t)
  | C_reschedule id at_ r d p => snd (reschedule_plan id at_ r d p t)
  end.
Definition run_schedule (cs : list schedule_call) (t : scheduled_plans) : scheduled_plans :=
  fold_left schedule_call_step cs t.

(** What the life of a row keeps: once it left 'pending' it is final; until
    then its plan is only replaced by a later revision with other evidence. *)
Record row_advances (a b : scheduled_row) : Prop := {
  ra_final : sr_status a <> SS_PENDING -> b = a;
  ra_revision : sr_payload b = sr_payload a /\ sr_execute_at b = sr_execute_at a \/
    pl_schedule_revision (sr_payload a) < pl_schedule_revision (sr_payload b)
}.

#[export] Instance row_advances_preorder : PreOrder row_advances.
Proof.
  split; [intros a; split; [done|by left]|]. intros a b c [F1 R1] [F2 R2]. split.
  - intros Ha. pose proof (F1 Ha). subst b. by apply F2.
  - destruct R1 as [[E1 E2]|?], R2 as [[E3 E4]|?].
    + left. by rewrite E3, E4.
    + right. by rewrite <- E1.
    + right. by rewrite E3.
    + right. lia.
Qed.

(** Every row there was is there, and advanced. *)
Definition rows_advance (t t' : scheduled_plans) : Prop :=
  forall id row, od_get id t = Some row -> exists row', od_get id t' = Some row' /\ row_advances row row'.

#[export] Instance rows_advance_preorder : PreOrder rows_advance.
Proof.
  split; [intros t id row H; by exists row|]. intros t1 t2 t3 H12 H23 id row H.
  destruct (H12 _ _ H) as (r2 & H2 & A2). destruct (H23 _ _ H2) as (r3 & H3 & A3).
  exists r3. split; [done|]. by etransitivity.
Qed.

Lemma rows_advance_set t id row row' : od_get id t = Some row -> row_advances row row' ->
  rows_advance t (od_set id row' t).
Proof.
  intros Hk Ha id' r H. rewrite od_get_set. case_decide as E; [|by exists r].
  subst id'. exists row'. split; [done|]. congruence.
Qed.

Lemma insert_advances p at_ payload t : rows_advance t (snd (insert_pending p at_ payload t)).
Proof.
  unfold insert_pending. rewrite stm_bind_get. destruct (od_mem (pl_id p) t) eqn:E; [done|].
  intros id r H. simpl. rewrite od_get_set. case_decide as Ei; [|by exists r].
  subst id. unfold od_mem in E. by rewrite H in E.
Qed.

Lemma transition_advances id s t : rows_advance t (snd (transition id s t)).
Proof.
  unfold transition. rewrite stm_bind_get. destruct (od_get id t) as [row|] eqn:Hk; [|done].
  case_bool_decide as Hp; [|done]. simpl. eapply rows_advance_set; [done|]. split; [done|by left].
Qed.

Lemma reconcile_advances id s t : rows_advance t (snd (reconcile_terminal id s t)).
Proof.
  unfold reconcile_terminal. rewrite stm_bind_lift. destruct (raise_if _ _); [|done].
  pose proof (transition_advances id s t) as H. unfold mbind, stm_bind.
  destruct (transition id s t) as [[[]|] t']; [done| |done]. simpl in *.
  destruct (get_scheduled t' id); done.
Qed.

Lemma reschedule_cases id at_ r d q t :
  (exists e, reschedule_plan id at_ r d q t = (Err e, t)) \/
  reschedule_plan id at_ r d q t = (Ok false, t) \/
  exists p row rev dig, r = Some rev /\ d = Some dig /\ q = Some p /\ od_get id t = Some row /\
    sr_status row = SS_PENDING /\ replaces (sr_payload row) p rev dig = true /\
    pl_id p = id /\ pl_execute_at p = Some at_ /\
    pl_execution_window p <> None /\ pl_validation p <> None /\
    reschedule_plan id at_ r d q t =
      (Ok true, od_set id (mkScheduledRow (execute_at_text p at_) SS_PENDING p) t).
Proof.
  unfold reschedule_plan. destruct r as [rev|], d as [dig|], q as [p|]; auto.
  destruct (negb (String.eqb (pl_id p) id) || _ || _ || _) eqn:Eg; [auto|].
  rewrite stm_bind_get. destruct (od_get id t) as [row|] eqn:Hk; [|auto].
  destruct (negb (bool_decide (sr_status row = SS_PENDING))) eqn:Es; [auto|].
  rewrite stm_bind_lift. destruct (model_validate (sr_payload row)) as [[]|e]; [|left; by eexists].
  destruct (replaces (sr_payload row) p rev dig) eqn:Er; [|auto].
  right. right. destruct_ands. exists p, row, rev, dig. split_and!; try done.
  - by apply String.eqb_eq.
  - by destruct (pl_execution_window p).
  - by destruct (pl_validation p).
Qed.

Lemma replaces_ok stored p rev dig : replaces stored p rev dig = true <->
  pl_schedule_revision stored = rev /\ validation_digest stored = Some dig /\
  pl_schedule_revision p = rev + 1 /\ validation_digest p <> Some dig.
Proof.
  unfold replaces. rewrite !andb_true_iff, negb_true_iff, !Z.eqb_eq, bool_decide_eq_true, bool_decide_eq_false.
  split; [intros (((<- & Hd) & Hr) & Hn)|intros (<- & Hd & Hr & Hn)]; rewrite Hd in *; done.
Qed.

Lemma reschedule_advances id at_ r d q t : rows_advance t (snd (reschedule_plan id at_ r d q t)).
Proof.
  destruct (reschedule_cases id at_ r d q t) as [[e ->]|[->|(p & row & rev & dig & H)]]; [done|done|].
  destruct H as (-> & -> & -> & Hk & Hs & Hr & _ & _ & _ & _ & ->). simpl.
  eapply rows_advance_set; [done|]. apply replaces_ok in Hr as (Hrev & _ & Hr & _).
  split; [congruence|]. right. simpl. lia.
Qed.

Lemma schedule_advances p t : rows_advance t (snd (schedule_plan p t)).
Proof.
  unfold schedule_plan. destruct (pl_execute_at p) as [at_|]; [|done].
  destruct (pl_execution_window p); [apply insert_advances|]. rewrite stm_bind_lift.
  destruct (raise_if _ _); [|done]. rewrite stm_bind_lift. destruct (validate_window _); [|done].
  apply insert_advances.
Qed.

Lemma schedule_step_advances t c : rows_advance t (schedule_call_step t c).
Proof.
  destruct c; simpl; [apply schedule_advances|apply reconcile_advances| | |apply reschedule_advances].
  - unfold mark_missed. pose proof (transition_advances id SS_MISSED t) as H.
    unfold mbind, stm_bind. by destruct (transition id SS_MISSED t) as [[]].
  - apply transition_advances.
Qed.

Lemma run_schedule_advances cs t : rows_advance t (run_schedule cs t).
Proof.
  revert t. induction cs as [|c cs IH]; intros t; [reflexivity|].
  etransitivity; [apply schedule_step_advances|apply IH].
Qed.

(** A scheduled plan is decided once: over any history of calls of the
    repository (also failing ones), a row is never lost, a row that was
    executed, failed, unknown, cancelled or missed never changes again, and the
    plan of a pending row is only replaced by a later schedule revision. *)
Theorem scheduled_plan_decided_once cs t id row : od_get id t = Some row ->
  exists row', od_get id (run_schedule cs t) = Some row' /\
    (sr_status row <> SS_PENDING -> row' = row) /\
    (sr_payload row' = sr_payload row /\ sr_execute_at row' = sr_execute_at row \/
     pl_schedule_revision (sr_payload row) < pl_schedule_revision (sr_payload row')).
Proof.
  intros Hk. destruct (run_schedule_advances cs t _ _ Hk) as (row' & Hk' & [HF HR]). by exists row'.
Qed.

(** Rescheduling is a compare-and-swap on the evidence the caller saw. *)
Lemma reschedule_exact id at_ r d q t t' :
  reschedule_plan id at_ r d q t = (Ok true, t') <->
  exists p row rev dig, r = Some rev /\ d = Some dig /\ q = Some p /\ od_get id t = Some row /\
    sr_status row = SS_PENDING /\ model_validate (sr_payload row) = Ok tt /\
    pl_schedule_revision (sr_payload row) = rev /\
    validation_digest (sr_payload row) = Some dig /\
    pl_schedule_revision p = rev + 1 /\ validation_digest p <> Some dig /\
    pl_id p = id /\ pl_execute_at p = Some at_ /\
    pl_execution_window p <> None /\ pl_validation p <> None /\
    t' = od_set id (mkScheduledRow (execute_at_text p at_) SS_PENDING p) t.
Proof.
  split.
  - intros H. destruct (reschedule_cases id at_ r d q t) as [[e E]|[E|(p & row & rev & dig & Hc)]];
      [by rewrite E in H|by rewrite E in H|].
    destruct Hc as (-> & -> & -> & Hk & Hs & Hr & Hid & Hat & Hw & Hv & E).
    rewrite E in H. injection H as <-. pose proof Hr as (H1 & H2 & H3 & H4)%replaces_ok.
    exists p, row, rev, dig. split_and!; try done.
    revert E. unfold reschedule_plan. rewrite Hid, Hat, String.eqb_refl, bool_decide_eq_true_2 by done.
    destruct (pl_execution_window p), (pl_validation p); try done. simpl.
    rewrite stm_bind_get, Hk, Hs. simpl. rewrite stm_bind_lift. by destruct (model_validate _) as [[]|].
  - intros (p & row & rev & dig & -> & -> & -> & Hk & Hs & Hm & H1 & H2 & H3 & H4 & Hid & Hat & Hw & Hv & ->).
    unfold reschedule_plan. rewrite Hid, Hat, String.eqb_refl, bool_decide_eq_true_2 by done.
    destruct (pl_execution_window p), (pl_validation p) eqn:Ev; try done. simpl.
    rewrite stm_bind_get, Hk, Hs. simpl. rewrite stm_bind_lift, Hm.
    by rewrite (proj2 (replaces_ok (sr_payload row) p rev dig)).
Qed.
End ScheduleHistories.

(** ** Witness: the plan of the desk lamp, moved and cancelled *)

Definition at_six : Plan := example_ready <| pl_execute_at := Some (hours 18) |>.
Definition scheduled_lamp : scheduled_plans :=
  snd (schedule_plan (CJ := example_canonical) at_six []).
Definition lamp_history : list schedule_call :=
  [C_schedule at_six; C_reschedule "plan-1" (hours 19) None None None; C_cancel "plan-1";
   C_reconcile_terminal "plan-1" SS_EXECUTED; C_mark_missed "plan-1"].

Lemma scheduled_plan_decided_once_witness :
  exists row row', od_get "plan-1" scheduled_lamp = Some row /\ sr_status row = SS_PENDING /\
    od_get "plan-1" (run_schedule (CJ := example_canonical) lamp_history scheduled_lamp) = Some row' /\
    sr_status row' = SS_CANCELLED /\
    (sr_payload row' = sr_payload row /\ sr_execute_at row' = sr_execute_at row \/
     pl_schedule_revision (sr_payload row) < pl_schedule_revision (sr_payload row')).
Proof.
  destruct (od_get "plan-1" scheduled_lamp) as [row|] eqn:Hk; [|vm_compute in Hk; discriminate].
  destruct (scheduled_plan_decided_once (CJ := example_canonical) lamp_history scheduled_lamp "plan-1" row Hk)
    as (row' & Hk' & _ & Hr).
  exists row, row'. split; [done|]. split; [vm_compute in Hk; injection Hk as <-; reflexivity|].
  split; [done|]. split; [vm_compute in Hk'; injection Hk' as <-; reflexivity|exact Hr].
Defined.
