(* ===== verification/BundleRecords.v ===== *)
(** * Durable bundle commits (persistence/repositories.py)

    [BundleCommitRepository]: the table [bundle_commits] in the order of its
    rows, a row the bundle its payload decodes to; the columns [status],
    [bundle_digest] and [updated_at] repeat the payload.  A transaction is one
    step that leaves everything as it was when it raises. *)

From S2P Require Import Prelude.
From S2P Require Import Values.
From S2P Require Import Models.
From S2P Require Import Digests.
From S2P Require Import Admission.
From S2P Require Import Projection.
From S2P Require Import ScheduleRecords.

#[global] Instance BundleCommit_eta : Eta BundleCommit := fun r =>
  mkBundleCommit (bc_authority r) (bc_id r) (bc_bundle_digest r) (bc_scenario_id r) (bc_status r)
    (bc_approval_reservation_id r) (bc_members r) (bc_created_at r) (bc_updated_at r) (bc_failure r).

Abbreviation bundle_commits := (odict string BundleCommit).

(** [INSERT ... ON CONFLICT(id) DO UPDATE]; the digest is unique as well. *)
Definition save_bundle (now : datetime) (b : BundleCommit) : stm bundle_commits exn BundleCommit :=
  let updated := b <| bc_updated_at := now |> in
  t ← get_st;
  if existsb (fun x => String.eqb (bc_bundle_digest x) (bc_bundle_digest b) && negb (String.eqb (bc_id x) (bc_id b)))
       (od_values t)
  then raise IntegrityError
  else put_st (od_set (bc_id b) updated t) ≫= fun _ => mret updated.

Definition get_bundle (t : bundle_commits) (id : string) : option BundleCommit := od_get id t.
Definition get_by_digest (t : bundle_commits) (digest : string) : option BundleCommit :=
  find_first (fun b => String.eqb (bc_bundle_digest b) digest) (od_values t).

Definition has_member (plan_id : string) (b : BundleCommit) : bool :=
  existsb (fun m => String.eqb (bm_plan_id m) plan_id) (bc_members b).
Definition get_for_plan (t : bundle_commits) (plan_id : string) : option BundleCommit :=
  find_first (has_member plan_id) (od_values t).

(** The terminal statuses of a member. *)
Definition settled_statuses : list BundleMemberCommitStatus :=
  [BM_EXECUTED; BM_FAILED; BM_UNKNOWN; BM_MISSED; BM_DEPENDENCY_FAILED].

(** [_aggregate_fulfillment_status] *)
Definition aggregate_fulfillment_status (members : list BundleMemberCommit) : BundleCommitStatus :=
  let statuses := dedup (map bm_status members) in
  let some s := bool_decide (s ∈ statuses) in
  if bool_decide (statuses = [BM_EXECUTED]) then BC_COMPLETED
  else if some BM_PENDING then BC_COMMITTING
  else if some BM_SCHEDULED then BC_SCHEDULED
  else if some BM_UNKNOWN then if some BM_EXECUTED then BC_PARTIALLY_COMMITTED else BC_UNKNOWN
  else if some BM_MISSED
  then if bool_decide (statuses = [BM_MISSED]) then BC_MISSED else BC_PARTIALLY_COMMITTED
  else if some BM_FAILED || some BM_DEPENDENCY_FAILED
  then if some BM_EXECUTED then BC_PARTIALLY_COMMITTED else BC_FAILED
  else BC_UNKNOWN.

(** [members[index] = members[index].model_copy(...)] of the first member of
    this plan *)
Fixpoint settle_first (plan_id : string) (f : BundleMemberCommit -> BundleMemberCommit)
    (l : list BundleMemberCommit) : list BundleMemberCommit :=
  match l with
  | [] => []
  | m :: l => if String.eqb (bm_plan_id m) plan_id then f m :: l else m :: settle_first plan_id f l
  end.

Definition settled_member (status : BundleMemberCommitStatus)
    (execution_status : option ExecutionStatus) (evidence : option ExecutionDependencyEvidence)
    (m : BundleMemberCommit) : BundleMemberCommit :=
  m <| bm_status := status |> <| bm_execution_status := execution_status |>
    <| bm_evidence := evidence |> <| bm_scheduled := true |>.

(** [record_member_outcome]; of [details] only the evidence is read back. *)
Definition record_member_outcome (now : datetime) (plan_id : string)
    (status : BundleMemberCommitStatus) (execution_status : option ExecutionStatus)
    (evidence : option ExecutionDependencyEvidence) : stm bundle_commits exn (option BundleCommit) :=
  t ← get_st;
  match get_for_plan t plan_id with
  | None => mret None
  | Some stored =>
      match member_of stored plan_id with
      | None => mret None  (* [get_for_plan] found a member *)
      | Some current =>
          if bool_decide (bm_status current ∈ settled_statuses) then
            if bool_decide (bm_status current = status) &&
               bool_decide (bm_execution_status current = execution_status)
            then mret (Some stored)
            else raise (ValueError "bundle member is already terminal")
          else
            let members := settle_first plan_id (settled_member status execution_status evidence)
                             (bc_members stored) in
            let updated := stored <| bc_members := members |>
                             <| bc_status := aggregate_fulfillment_status members |>
                             <| bc_updated_at := now |> in
            if bool_decide (bc_status stored ∈ [BC_SCHEDULED; BC_PARTIALLY_COMMITTED; BC_COMMITTING])
            then put_st (od_set (bc_id stored) updated t) ≫= fun _ => mret (Some updated)
            else raise (ValueError "bundle fulfillment CAS failed")
      end
  end.

Section Bundles.
Context `{CJ : Canonical}.

Definition list_non_terminal (t : bundle_commits) : list BundleCommit :=
  isort (fun a b => String.leb (utc_text (bc_updated_at a)) (utc_text (bc_updated_at b)))
    (List.filter (fun b => bool_decide (bc_status b ∈ [BC_COMMITTING; BC_SCHEDULED; BC_PARTIALLY_COMMITTED]))
       (od_values t)).

Definition is_scheduled_member (t : bundle_commits) (plan_id : string) : bool :=
  existsb (fun b => bool_decide (bc_status b = BC_SCHEDULED) &&
    existsb (fun m => String.eqb (bm_plan_id m) plan_id && bool_decide (bm_status m = BM_SCHEDULED))
      (bc_members b)) (od_values t).

(** ** [schedule_members_transaction] *)

Fixpoint insert_members (plans : list Plan) : stm scheduled_plans exn unit :=
  match plans with
  | [] => mret tt
  | p :: plans =>
      match pl_execute_at p with
      | None => raise (ValueError "future bundle members require execute_at")
      | Some execute_at => insert_pending p execute_at p ≫= fun _ => insert_members plans
      end
  end.

Fixpoint schedule_indexes (indexes : list nat) (members : list BundleMemberCommit)
    : result exn (list BundleMemberCommit) :=
  match indexes with
  | [] => Ok members
  | i :: indexes =>
      match members !! i with
      | None => Err IndexError
      | Some m => schedule_indexes indexes
                    (<[i := m <| bm_status := BM_SCHEDULED |> <| bm_scheduled := true |>]> members)
      end
  end.

(** Both tables at once, or neither. *)
Definition schedule_members_transaction (now : datetime) (b : BundleCommit) (plans : list Plan)
    (indexes : list nat) (final_status : BundleCommitStatus)
    : stm (scheduled_plans * bundle_commits) exn BundleCommit :=
  if negb (Nat.eqb (List.length plans) (List.length indexes))
  then raise (ValueError "plans and member_indexes must have the same length")
  else fun '(scheduled, bundles) =>
    match insert_members plans scheduled with
    | (Err e, _) => (Err e, (scheduled, bundles))
    | (Ok _, scheduled') =>
        match schedule_indexes indexes (bc_members b) with
        | Err e => (Err e, (scheduled, bundles))
        | Ok members =>
            let updated := b <| bc_members := members |> <| bc_status := final_status |>
                             <| bc_updated_at := now |> in
            (Ok updated,
             (scheduled', if od_mem (bc_id b) bundles then od_set (bc_id b) updated bundles else bundles))
        end
    end.
End Bundles.

(** ** The fulfillment ledger *)

Lemma aggregate_completed members : aggregate_fulfillment_status members = BC_COMPLETED <->
  members <> [] /\ Forall (fun m => bm_status m = BM_EXECUTED) members.
Proof.
  transitivity (dedup (map bm_status members) = [BM_EXECUTED]).
  - unfold aggregate_fulfillment_status. case_bool_decide as E; [done|]. split; [|done].
    repeat case_match; done.
  - rewrite dedup_singleton, Forall_map. split; intros [H1 H2]; (split; [by destruct members|]);
      (eapply Forall_impl; [exact H2|]); simpl; done.
Qed.

Definition member_open (m : BundleMemberCommit) : Prop :=
  bm_status m = BM_PENDING \/ bm_status m = BM_SCHEDULED.

Lemma aggregate_open members :
  aggregate_fulfillment_status members ∈ [BC_COMMITTING; BC_SCHEDULED] <-> Exists member_open members.
Proof.
  unfold aggregate_fulfillment_status. set (statuses := dedup (map bm_status members)).
  assert (forall s, s ∈ statuses <-> Exists (fun m => bm_status m = s) members) as Hs.
  { intros s. unfold statuses. rewrite elem_of_dedup, list_elem_of_fmap, Exists_exists.
    split; intros (m & H1 & H2); exists m; split; congruence || done. }
  clearbody statuses.
  assert (Exists member_open members <-> BM_PENDING ∈ statuses \/ BM_SCHEDULED ∈ statuses) as ->.
  { rewrite !Hs, !Exists_exists. unfold member_open. naive_solver. }
  clear Hs. case_bool_decide as E1.
  { rewrite E1. split; [by rewrite !elem_of_cons, elem_of_nil; intros [?|[?|?]]|].
    intros [?%list_elem_of_singleton|?%list_elem_of_singleton]; done. }
  case_bool_decide as Hp; [split; [by left|by left]|]. case_bool_decide as Hsc; [split; [by right|by right; left]|].
  split; [|tauto]. rewrite !elem_of_cons, elem_of_nil.
  repeat case_match; intros [?|[?|?]]; done.
Qed.

(** What a settlement keeps of a member: who it is, and everything once it is
    settled. *)
Record member_advances (a b : BundleMemberCommit) : Prop := {
  ma_plan : bm_plan_id b = bm_plan_id a;
  ma_digest : bm_validation_digest b = bm_validation_digest a;
  ma_order : bm_predecessor_plan_ids b = bm_predecessor_plan_ids a;
  ma_settled : bm_status a ∈ settled_statuses -> b = a
}.

#[export] Instance member_advances_preorder : PreOrder member_advances.
Proof.
  split; [by intros a|]. intros a b c [P1 D1 O1 S1] [P2 D2 O2 S2].
  split; [congruence..|]. intros Ha. pose proof (S1 Ha). subst b. by apply S2.
Qed.

(** Of a bundle: which one it is, its members in order, and that its status
    is the aggregate of its members whenever it changed. *)
Record bundle_advances (a b : BundleCommit) : Prop := {
  ba_id : bc_id b = bc_id a;
  ba_digest : bc_bundle_digest b = bc_bundle_digest a;
  ba_authority : bc_authority b = bc_authority a;
  ba_members : Forall2 member_advances (bc_members a) (bc_members b);
  ba_status : b = a \/ bc_status b = aggregate_fulfillment_status (bc_members b)
}.

#[export] Instance bundle_advances_preorder : PreOrder bundle_advances.
Proof.
  split; [intros a; split; [done..| |by left]; reflexivity|].
  intros a b c [I1 D1 A1 M1 S1] [I2 D2 A2 M2 S2]. split; [congruence..| |].
  - by etransitivity.
  - destruct S2 as [->|]; [done|by right].
Qed.

Definition ledger_wf (t : bundle_commits) : Prop :=
  NoDup (od_keys t) /\ forall id b, od_get id t = Some b -> bc_id b = id.

Definition ledger_advances (t t' : bundle_commits) : Prop :=
  forall id b, od_get id t = Some b -> exists b', od_get id t' = Some b' /\ bundle_advances b b'.

#[export] Instance ledger_advances_preorder : PreOrder ledger_advances.
Proof.
  split; [intros t id b H; by exists b|]. intros t1 t2 t3 H12 H23 id b H.
  destruct (H12 _ _ H) as (b2 & H2 & A2). destruct (H23 _ _ H2) as (b3 & H3 & A3).
  exists b3. split; [done|]. by etransitivity.
Qed.

Lemma get_for_plan_stored t plan_id b : ledger_wf t -> get_for_plan t plan_id = Some b ->
  od_get (bc_id b) t = Some b /\ has_member plan_id b = true.
Proof.
  intros [Hn Hid] [Hin Hm]%find_first_some. split; [|done].
  apply list_elem_of_fmap in Hin as ([id b'] & -> & Hin). simpl in *.
  pose proof (od_elem_get _ _ _ Hn Hin) as Hk. by rewrite (Hid _ _ Hk).
Qed.

Lemma settle_first_advances plan_id f l :
  (forall m, find_first (fun m => String.eqb (bm_plan_id m) plan_id) l = Some m -> member_advances m (f m)) ->
  Forall2 member_advances l (settle_first plan_id f l).
Proof.
  induction l as [|m l IH]; simpl; [done|]. destruct (String.eqb (bm_plan_id m) plan_id).
  - intros Hf. constructor; [by apply Hf|reflexivity].
  - intros Hf. constructor; [reflexivity|by apply IH].
Qed.

(** The cases of a settlement. *)
Lemma record_member_outcome_cases now plan_id s es ev t :
  snd (record_member_outcome now plan_id s es ev t) = t \/
  exists b m, get_for_plan t plan_id = Some b /\ member_of b plan_id = Some m /\
    bm_status m ∉ settled_statuses /\ bc_status b ∈ [BC_SCHEDULED; BC_PARTIALLY_COMMITTED; BC_COMMITTING] /\
    let members := settle_first plan_id (settled_member s es ev) (bc_members b) in
    let b' := b <| bc_members := members |> <| bc_status := aggregate_fulfillment_status members |>
                <| bc_updated_at := now |> in
    record_member_outcome now plan_id s es ev t = (Ok (Some b'), od_set (bc_id b) b' t).
Proof.
  unfold record_member_outcome. rewrite stm_bind_get.
  destruct (get_for_plan t plan_id) as [b|]; [|by left].
  destruct (member_of b plan_id) as [m|] eqn:Em; [|by left].
  case_bool_decide as Hs; [left; by case_match|].
  case_bool_decide as Hb; [|by left]. right. by exists b, m.
Qed.

Lemma record_advances now plan_id s es ev t : ledger_wf t ->
  ledger_wf (snd (record_member_outcome now plan_id s es ev t)) /\
  ledger_advances t (snd (record_member_outcome now plan_id s es ev t)).
Proof.
  intros Hwf. destruct (record_member_outcome_cases now plan_id s es ev t) as [->|(b & m & Hg & Hm & Hs & _ & H)];
    [by split|].
  apply get_for_plan_stored in Hg as [Hk _]; [|done]. cbv zeta in H. rewrite H. simpl.
  destruct Hwf as [Hn Hid]. split; [split; [by apply od_keys_set_NoDup|]|].
  - intros id b0. rewrite od_get_set. case_decide; [|apply Hid]. by intros [= <-].
  - intros id b0 H0. rewrite od_get_set. case_decide; [|by exists b0]. subst id.
    rewrite Hk in H0. injection H0 as <-. eexists. split; [done|].
    split; [done..| |by right]. apply settle_first_advances.
    intros m' Hm'. unfold member_of in Hm. rewrite Hm in Hm'. injection Hm' as <-.
    split; [done..|]. by intros ?.
Qed.

Record settlement := mkSettlement {
  st_now : datetime;
  st_plan_id : string;
  st_status : BundleMemberCommitStatus;
  st_execution_status : option ExecutionStatus;
  st_evidence : option ExecutionDependencyEvidence
}.
Definition settle_step (t : bundle_commits) (x : settlement) : bundle_commits :=
  snd (record_member_outcome (st_now x) (st_plan_id x) (st_status x) (st_execution_status x)
         (st_evidence x) t).
Definition run_settlements (l : list settlement) (t : bundle_commits) : bundle_commits :=
  fold_left settle_step l t.

Lemma run_settlements_advances l t : ledger_wf t ->
  ledger_wf (run_settlements l t) /\ ledger_advances t (run_settlements l t).
Proof.
  unfold run_settlements. revert t. induction l as [|x l IH]; intros t Hwf; [done|]. simpl.
  destruct (record_advances (st_now x) (st_plan_id x) (st_status x) (st_execution_status x) (st_evidence x) t Hwf)
    as [Hwf1 H1].
  destruct (IH (settle_step t x) Hwf1) as [Hwf2 H2]. split; [done|]. by etransitivity.
Qed.

(** The members of a committed bundle are settled once: over any sequence
    of reported outcomes (repeated, late or contradicting ones included) a
    bundle keeps its identity, a settled member never changes again, and the
    status of a bundle that changed is completed exactly when every member was
    executed, and still open exactly while a member is. *)
Theorem bundle_member_settled_once l t id b : ledger_wf t -> od_get id t = Some b ->
  exists b', od_get id (run_settlements l t) = Some b' /\ bc_id b' = bc_id b /\
    bc_bundle_digest b' = bc_bundle_digest b /\ bc_authority b' = bc_authority b /\
    map bm_plan_id (bc_members b') = map bm_plan_id (bc_members b) /\
    (forall i m, bc_members b !! i = Some m -> bm_status m ∈ settled_statuses -> bc_members b' !! i = Some m) /\
    (b' = b \/
     (bc_status b' = BC_COMPLETED <->
        bc_members b' <> [] /\ Forall (fun m => bm_status m = BM_EXECUTED) (bc_members b')) /\
     (bc_status b' ∈ [BC_COMMITTING; BC_SCHEDULED] <-> Exists member_open (bc_members b'))).
Proof.
  intros Hwf Hk. destruct (run_settlements_advances l t Hwf) as [_ Ha].
  destruct (Ha _ _ Hk) as (b' & Hk' & [Hid Hd Hau HM HS]). exists b'. split_and!; try done.
  - apply list_eq_Forall2, Forall2_fmap, Forall2_flip. eapply Forall2_impl; [exact HM|].
    intros x y [? _ _ _]. unfold flip. congruence.
  - intros i m Hm Hs. destruct (Forall2_lookup_l _ _ _ _ _ HM Hm) as (m' & Hm' & [_ _ _ Hf]).
    by rewrite Hf in Hm'.
  - destruct HS as [->|HS]; [by left|right]. rewrite HS. split; [apply aggregate_completed|apply aggregate_open].
Qed.

(** ** Witness: a charge and the discharge that needs it *)

Definition example_member (plan_id : string) (predecessors : list string) : BundleMemberCommit :=
  mkBundleMemberCommit plan_id "sha256:v" (Some (hours 18)) BM_SCHEDULED None true None None None
    predecessors None.
Definition example_commit : BundleCommit :=
  mkBundleCommit default_authority "bundle-1" "sha256:b" "scenario-1" BC_SCHEDULED None
    [example_member "charge" []; example_member "discharge" ["charge"]] 0 0 None.
Definition example_ledger : bundle_commits := [("bundle-1", example_commit)].

Lemma example_ledger_wf : ledger_wf example_ledger.
Proof.
  split; [repeat constructor; by intros ?%elem_of_nil|].
  intros id b. simpl. case_decide; [|done]. by intros [= <-].
Qed.

(** The charge is missed, reported again as executed, and the discharge is
    refused. *)
Definition example_settlements : list settlement :=
  [mkSettlement 1 "charge" BM_MISSED None None;
   mkSettlement 2 "charge" BM_EXECUTED (Some ES_CONFIRMED_SUCCESS) None;
   mkSettlement 3 "discharge" BM_DEPENDENCY_FAILED None None].

(** Nothing of the bundle was executed, and it is partially committed. *)
Example missed_chain_partially_committed :
  ((fun b => (bc_status b, map bm_status (bc_members b))) <$>
    od_get "bundle-1" (run_settlements example_settlements example_ledger))
  = Some (BC_PARTIALLY_COMMITTED, [BM_MISSED; BM_DEPENDENCY_FAILED]).
Proof. reflexivity. Qed.

Lemma bundle_member_settled_once_witness : exists b b',
  od_get "bundle-1" (run_settlements (take 1 example_settlements) example_ledger) = Some b /\
  od_get "bundle-1" (run_settlements (drop 1 example_settlements)
                       (run_settlements (take 1 example_settlements) example_ledger)) = Some b' /\
  (bm_status <$> bc_members b !! 0%nat) = Some BM_MISSED /\
  (forall i m, bc_members b !! i = Some m -> bm_status m ∈ settled_statuses -> bc_members b' !! i = Some m).
Proof.
  set (t := run_settlements (take 1 example_settlements) example_ledger).
  assert (ledger_wf t) as Hwf by apply run_settlements_advances, example_ledger_wf.
  destruct (od_get "bundle-1" t) as [b|] eqn:Hk; [|vm_compute in Hk; discriminate].
  destruct (bundle_member_settled_once (drop 1 example_settlements) t "bundle-1" b Hwf Hk)
    as (b' & Hk' & _ & _ & _ & _ & Hs & _).
  exists b, b'. split; [reflexivity|]. split; [exact Hk'|]. split; [|exact Hs].
  vm_compute in Hk. injection Hk as <-. reflexivity.
Defined.
