(* ===== verification/Scheduler.v ===== *)
(** * The scheduler (application/scheduler.py)

    [run_due] executes the scheduled plans that are due, [run_due_recurring] the
    occurrences of the recurring ones.  The methods are coroutines
    ([Coroutines.v]): they yield where the executor, the admission or a runner
    is awaited, and twice in every call of a repository ([db]), which the
    thread of the storage makes for them: others may act before the call and
    between the call and its answer, and either wait may fail.  The audit log
    is output and left out. *)

From S2P Require Import Prelude.
From S2P Require Import Values.
From S2P Require Import Models.
From S2P Require Import StateStore.
From S2P Require Import Digests.
From S2P Require Import ApprovalStore.
From S2P Require Import PlanService.
From S2P Require Import Admission.
From S2P Require Import Preflight.
From S2P Require Import PlanRecords.
From S2P Require Import Coroutines.
From S2P Require Import Projection.
From S2P Require Import Recurrence.
From S2P Require Import Zones.
From S2P Require Import ScheduleRecords.
From S2P Require Import BundleRecords.

(** Of the interpreter: the parser of timestamps, the time zone database, the
    order of a set, [str] of a decoded value, what [token_urlsafe] draws. *)
Class Interpreter := {
  fromisoformat : string -> option (datetime * bool);
  zone_info : string -> result exn Zone;
  set_order : list ExecutionStatus -> list ExecutionStatus;
  json_str : json -> string;
  token_urlsafe : nat -> string
}.

(** What a scheduler was built with. *)
Record Scheduler := mkScheduler {
  sc_grace_window : timedelta;
  sc_poll_interval : timedelta;
  sc_plan_repository : bool;
  sc_recurring_repository : bool;
  sc_bundle_repository : bool;
  sc_execution_admission : bool;
  sc_recovery_runner : bool;
  sc_local_automation_runner : bool
}.

(** What is awaited: the storage and its answer, the admission, the executor,
    the runners, the sleep. *)
Inductive scheduler_call : Type -> Type :=
  | ask_storage : scheduler_call unit
  | ask_answer : scheduler_call unit
  | ask_admit (p : Plan) (op : AdmissionOperation) : scheduler_call unit
  | ask_execute (p : Plan) (overrides : option (gmap string Z))
      (capability : option AggregateExecutionCapability) : scheduler_call (list ExecutionOutcome)
  | ask_automation (now : datetime) : scheduler_call unit
  | ask_recovery : scheduler_call unit
  | ask_sleep (d : timedelta) : scheduler_call unit.

Section Scheduling.
Context {R : Type}.

(** The tables, the plan service, the issued capabilities and the clock of the
    runtime; and the counters of the scheduler. *)
Record Scheduling := mkScheduling {
  sd_now : datetime;
  sd_scheduled : scheduled_plans;
  sd_recurring : recurring_schedules;
  sd_bundles : bundle_commits;
  sd_issued : issued_capabilities;
  sd_tokens : nat;
  sd_records : R;
  sd_service : PlanService;
  sd_alive : bool;
  sd_last_lateness : option f64;
  sd_max_lateness : num;
  sd_missed_total : Z;
  sd_execution_unknown_total : Z;
  sd_execution_unavailable_total : Z;
  sd_execution_failed_total : Z;
  sd_execution_partial_total : Z
}.
#[global] Instance Scheduling_eta : Eta Scheduling := fun r =>
  mkScheduling (sd_now r) (sd_scheduled r) (sd_recurring r) (sd_bundles r)
    (sd_issued r) (sd_tokens r) (sd_records r) (sd_service r) (sd_alive r) (sd_last_lateness r)
    (sd_max_lateness r) (sd_missed_total r) (sd_execution_unknown_total r) (sd_execution_unavailable_total r)
    (sd_execution_failed_total r) (sd_execution_partial_total r).

Abbreviation C := (coro Scheduling scheduler_call).

(** ** Calls of the repositories *)

(** [SerializedRepositoryProxy]: the call waits for the thread of the storage,
    and its caller for the answer. *)
Definition db {A} (m : stm Scheduling exn A) : C A :=
  await ask_storage ≫= fun _ =>
  r ← perform (fun s => let '(r, s) := m s in (Ok r, s));
  await ask_answer ≫= fun _ =>
  of_result r.

Definition on_scheduled {A} (m : stm scheduled_plans exn A) : C A := db (fun s =>
  let '(r, t) := m (sd_scheduled s) in (r, s <| sd_scheduled := t |>)).
Definition on_recurring {A} (m : stm recurring_schedules exn A) : C A := db (fun s =>
  let '(r, t) := m (sd_recurring s) in (r, s <| sd_recurring := t |>)).
Definition on_records {A} (m : stm R exn A) : C A := db (fun s =>
  let '(r, t) := m (sd_records s) in (r, s <| sd_records := t |>)).

(** A query. *)
Definition query {A} (f : Scheduling -> result exn A) : C A := db (fun s => (f s, s)).

Definition raise_when (b : bool) (e : exn) : C unit := if b then Raise e else Ret tt.
Definition clock : C datetime := s ← look; mret (sd_now s).

(** ** Requests of a schedule *)

Section Methods.
Context `{CJ : Canonical} `{RN : Rendering} `{PY : Interpreter} `{!PlanRecordPort R}.
Context (sc : Scheduler).

Definition admitted (p : Plan) (op : AdmissionOperation) : C unit :=
  if sc_execution_admission sc then await (ask_admit p op) else mret tt.

Definition schedule (p : Plan) : C unit :=
  admitted p AO_SCHEDULE ≫= fun _ => on_scheduled (schedule_plan p).

Definition scheduled_pending (id : string) : C (option Plan) :=
  scheduled ← query (fun s => get_scheduled (sd_scheduled s) id);
  mret (match scheduled with Some (p, SS_PENDING) => Some p | _ => None end).

Definition cancel (id : string) : C bool :=
  scheduled ← scheduled_pending id;
  match scheduled with
  | None => mret false
  | Some p => admitted p AO_CANCEL ≫= fun _ => on_scheduled (cancel_scheduled id)
  end.

Definition reschedule (id : string) (execute_at : datetime) (expected_revision : option Z)
    (expected_validation_digest : option string) (replacement : option Plan) : C bool :=
  scheduled ← scheduled_pending id;
  match scheduled with
  | None => mret false
  | Some p =>
      admitted p AO_RESCHEDULE ≫= fun _ =>
      on_scheduled (reschedule_plan id execute_at expected_revision expected_validation_digest replacement)
  end.

Definition pending_plans : C (list Plan) := query (fun s => Ok (list_pending (sd_scheduled s))).

(** ** Evidence of an earlier run *)

(** [_PLAN_TO_SCHEDULE_STATUS] *)
Definition schedule_status_for_plan (s : PlanStatus) : option ScheduleStatus :=
  match s with
  | PS_COMPLETED => Some SS_EXECUTED
  | PS_FAILED | PS_PARTIALLY_FAILED => Some SS_FAILED
  | PS_UNKNOWN => Some SS_UNKNOWN
  | PS_CANCELLED => Some SS_CANCELLED
  | _ => None
  end.

(** [plan_repository.get]; there may be none. *)
Definition persisted_plan (id : string) : C (option Plan) :=
  if sc_plan_repository sc then query (fun s => port_get_plan id (sd_records s)) else mret None.

Definition terminal_plan_evidence (id : string) : C (option (PlanStatus * ScheduleStatus)) :=
  persisted ← persisted_plan id;
  mret (persisted ≫= fun p =>
        (fun s => (pl_status p, s)) <$> schedule_status_for_plan (pl_status p)).

Definition reconcile_scheduled_plan (id : string) : C (option ScheduleStatus) :=
  evidence ← terminal_plan_evidence id;
  match evidence with
  | None => mret None
  | Some (_, status) =>
      settled ← on_scheduled (reconcile_terminal id status);
      raise_when (negb settled) (RuntimeError "Could not reconcile scheduled plan") ≫= fun _ =>
      mret (Some status)
  end.

(** An execution that never settled is never repeated: it becomes unknown. *)
Definition reconcile_inflight_plan (id : string) (settle_scheduled_row : bool) : C bool :=
  persisted ← persisted_plan id;
  if negb (bool_decide ((pl_status <$> persisted) = Some PS_EXECUTING)) then mret false
  else
    marked ← on_records (port_mark_unknown id None);
    if negb marked then mret false
    else
      settled ← (if settle_scheduled_row then on_scheduled (reconcile_terminal id SS_UNKNOWN)
                 else mret true);
      raise_when (negb settled) (RuntimeError "Could not settle uncertain scheduled plan") ≫= fun _ =>
      mret true.

(** ** Settling an execution *)

(** The status of a row without a plan repository. *)
Definition derived_schedule_status (execution : option (list ExecutionOutcome)) : ScheduleStatus :=
  match execution with
  | None => SS_EXECUTED
  | Some outcomes =>
      if meets (statuses_of outcomes) [ES_UNKNOWN; ES_UNAVAILABLE] then SS_UNKNOWN
      else if bool_decide (statuses_of outcomes = [ES_CONFIRMED_SUCCESS]) then SS_EXECUTED
      else SS_FAILED
  end.

Definition settle_row (id : string) (status : ScheduleStatus) : C ScheduleStatus :=
  settled ← on_scheduled (if bool_decide (status = SS_EXECUTED) then mark_executed id
                          else reconcile_terminal id status);
  raise_when (negb settled) (RuntimeError "Could not settle scheduled plan") ≫= fun _ =>
  mret status.

Definition complete_scheduled_plan (id : string) (execution : option (list ExecutionOutcome))
    : C ScheduleStatus :=
  if negb (sc_plan_repository sc) then settle_row id (derived_schedule_status execution)
  else
    persisted ← persisted_plan id;
    match persisted with
    | None => Raise (RuntimeError "Execution returned without a persisted plan")
    | Some p =>
        match schedule_status_for_plan (pl_status p) with
        | None => Raise (RuntimeError "Execution returned with non-terminal persisted status")
        | Some status => settle_row id status
        end
    end.

(** ** The gates of an execution *)

(** The temporal evidence of two copies of a plan. *)
Definition same_evidence (a b : Plan) : bool :=
  bool_decide (pl_execute_at a = pl_execute_at b) &&
  (pl_schedule_revision a =? pl_schedule_revision b) &&
  bool_decide (plan_window_digest a = plan_window_digest b) &&
  bool_decide (validation_digest a = validation_digest b).

Definition evidence_mismatch (m : string) : exn := domain_error SCHEDULE_EVIDENCE_MISMATCH m.

Definition assert_schedule_evidence (p : Plan) : C unit :=
  scheduled ← scheduled_pending (pl_id p);
  match scheduled with
  | None => Raise (evidence_mismatch "Scheduled plan is no longer pending")
  | Some stored =>
      raise_when (negb (same_evidence stored p))
        (evidence_mismatch "Scheduled row evidence differs from the claimed plan") ≫= fun _ =>
      persisted ← persisted_plan (pl_id p);
      raise_when (match persisted with Some q => negb (same_evidence q p) | None => false end)
        (evidence_mismatch "Plan repository evidence differs from the scheduled intent")
  end.

Record PredecessorGateResult := mkGate {
  gr_allowed : bool;
  gr_predecessor_plan_id : option string;
  gr_predecessor_plan_ids : list string;
  gr_state_version_overrides : gmap string Z
}.
Definition gate_open : PredecessorGateResult := mkGate true None [] ∅.

(** What the bundle says of a predecessor: the evidence it left. *)
Definition confirmed_evidence (b : BundleCommit) (id : string) : option ExecutionDependencyEvidence :=
  match member_of b id with
  | Some m =>
      if bool_decide (bm_status m = BM_EXECUTED) then
        match member_evidence m with
        | Some v => if String.eqb (ede_bundle_id v) (bc_id b) && String.eqb (ede_member_plan_id v) id
                       && String.eqb (ede_predecessor_plan_id v) id
                       && bool_decide (ede_status v = ES_CONFIRMED_SUCCESS)
                    then Some v else None
        | None => None
        end
      else None
  | None => None
  end.

(** What the plan record says of it. *)
Definition outcomes_match (v : ExecutionDependencyEvidence) (p : Plan) : bool :=
  match pl_execution p with
  | None => false
  | Some outcomes =>
      bool_decide (map eo_command_id outcomes = ede_predecessor_command_ids v) &&
      bool_decide (map cmd_id (pl_commands p) = ede_predecessor_command_ids v) &&
      forallb (fun o => bool_decide (eo_status o = ES_CONFIRMED_SUCCESS)) outcomes &&
      String.eqb (execution_outcome_digest outcomes) (ede_outcome_digest v)
  end.

Definition add_overrides (p : Plan) (v : ExecutionDependencyEvidence) (m : gmap string Z)
    : gmap string Z :=
  match pl_validation p ≫= vr_dependencies with
  | None => m
  | Some d =>
      fold_left (fun m '(k, n) => if bool_decide (is_Some (dep_state_versions d !! k))
                                  then <[k := n]> m else m) (ede_state_versions v) m
  end.

Fixpoint check_predecessors (p : Plan) (b : BundleCommit) (all ids : list string)
    (overrides : gmap string Z) : C PredecessorGateResult :=
  match ids with
  | [] => mret (mkGate true (List.head all) all overrides)
  | id :: ids =>
      let refused := mkGate false (Some id) all ∅ in
      match confirmed_evidence b id with
      | None => mret refused
      | Some v =>
          if negb (sc_plan_repository sc) then mret refused
          else
            persisted ← persisted_plan id;
            match persisted with
            | Some q => if outcomes_match v q
                        then check_predecessors p b all ids (add_overrides p v overrides)
                        else mret refused
            | None => mret refused
            end
      end
  end.

Definition bundle_of (id : string) : C (option BundleCommit) :=
  if sc_bundle_repository sc then query (fun s => Ok (get_for_plan (sd_bundles s) id)) else mret None.

(** [_predecessor_gate] *)
Definition predecessor_gate (p : Plan) : C PredecessorGateResult :=
  bundle ← bundle_of (pl_id p);
  match bundle with
  | None => mret gate_open
  | Some b =>
      match member_of b (pl_id p) with
      | None => mret gate_open
      | Some m =>
          match bm_predecessor_plan_ids m with
          | [] => mret gate_open
          | ids => check_predecessors p b ids ids ∅
          end
      end
  end.

(** ** The fulfillment of a bundle *)

Definition member_result (statuses : list ExecutionStatus) : BundleMemberCommitStatus * ExecutionStatus :=
  if bool_decide (statuses = [ES_CONFIRMED_SUCCESS]) then (BM_EXECUTED, ES_CONFIRMED_SUCCESS)
  else if bool_decide (ES_UNKNOWN ∈ statuses) then (BM_UNKNOWN, ES_UNKNOWN)
  else if bool_decide (ES_UNAVAILABLE ∈ statuses) then (BM_UNKNOWN, ES_UNAVAILABLE)
  else (BM_FAILED, default ES_FAILED (List.head (set_order statuses))).

(** The state versions after the execution, of what its plan rests on and of
    what it wrote. *)
Definition touched_keys (s : PlanService) (p : Plan) : list string :=
  dedup (match pl_validation p ≫= vr_dependencies with
         | Some d => map fst (map_to_list (dep_state_versions d))
         | None => []
         end ++
         omap (fun c => (fun cap => dep_key (cmd_device_id c) (cap_name cap)) <$> capability_for_command s c)
           (pl_commands p)).
Definition state_versions_of (s : PlanService) (p : Plan) : list (string * Z) :=
  map (fun k => let '(device, capability) := partition_key k in
                (k, state_version (ps_state_store s) device capability)) (touched_keys s p).

Definition evidence_of (b : BundleCommit) (p : Plan) (outcomes : list ExecutionOutcome)
    (status : ExecutionStatus) (versions : list (string * Z)) (captured_at : datetime)
    : ExecutionDependencyEvidence :=
  let v digest := mkExecutionDependencyEvidence (bc_id b) (pl_id p) (pl_id p)
                    (map eo_command_id outcomes) status versions captured_at
                    (execution_outcome_digest outcomes) digest in
  v (execution_dependency_evidence_digest (v "")).

Definition record_outcome (id : string) (status : BundleMemberCommitStatus)
    (execution_status : option ExecutionStatus) (evidence : option ExecutionDependencyEvidence) : C unit :=
  db (fun s =>
    let '(r, t) := record_member_outcome (sd_now s) id status execution_status evidence (sd_bundles s) in
    (r, s <| sd_bundles := t |>)) ≫= fun _ => mret tt.

(** [_record_bundle_outcome] *)
Definition record_bundle_outcome (p : Plan) (outcomes : list ExecutionOutcome) : C unit :=
  if negb (sc_bundle_repository sc) then mret tt
  else
    let '(status, execution_status) := member_result (statuses_of outcomes) in
    s ← look;
    if bool_decide (status = BM_EXECUTED) then
      bundle ← bundle_of (pl_id p);
      match bundle with
      | None => mret tt
      | Some b =>
          t ← clock;
          let v := evidence_of b p outcomes execution_status (state_versions_of (sd_service s) p) t in
          of_result (validate_evidence v) ≫= fun _ =>
          record_outcome (pl_id p) status (Some execution_status) (Some v)
      end
    else record_outcome (pl_id p) status (Some execution_status) None.

(** ** [run_due] *)

Abbreviation sweep_result := (string * string)%type.

Definition note_lateness (lateness : f64) : C unit := alter_st (fun s =>
  s <| sd_last_lateness := Some lateness |>
    <| sd_max_lateness := num_max (sd_max_lateness s) (NFloat lateness) |>).

(** [max(0.0, overdue.total_seconds())] *)
Definition lateness_of (overdue : timedelta) : f64 :=
  match num_max (NFloat (SpecFloat.S754_zero false)) (NFloat (total_seconds overdue)) with
  | NFloat x => x
  | NInt _ => SpecFloat.S754_zero false
  end.

Definition miss (p : Plan) : C (option sweep_result) :=
  alter_st (fun s => s <| sd_missed_total := sd_missed_total s + 1 |>) ≫= fun _ =>
  on_scheduled (mark_missed (pl_id p)) ≫= fun _ =>
  (if sc_bundle_repository sc then record_outcome (pl_id p) BM_MISSED None None else mret tt) ≫= fun _ =>
  mret (Some (pl_id p, "missed")).

(** The predecessors did not happen as planned: nothing is sent. *)
Definition refuse_dependent (p : Plan) : C string :=
  on_scheduled (reconcile_terminal (pl_id p) SS_FAILED) ≫= fun _ =>
  (if sc_bundle_repository sc then record_outcome (pl_id p) BM_DEPENDENCY_FAILED None None else mret tt)
    ≫= fun _ =>
  mret "dependency_failed".

Definition count_outcomes (outcomes : list ExecutionOutcome) (s : Scheduling) : Scheduling :=
  let statuses := statuses_of outcomes in
  let one b := if b : bool then 1 else 0 in
  s <| sd_execution_unknown_total := sd_execution_unknown_total s + one (bool_decide (ES_UNKNOWN ∈ statuses)) |>
    <| sd_execution_unavailable_total :=
         sd_execution_unavailable_total s + one (bool_decide (ES_UNAVAILABLE ∈ statuses)) |>
    <| sd_execution_failed_total := sd_execution_failed_total s +
         one (negb (bool_decide (statuses = [])) && negb (bool_decide (statuses = [ES_CONFIRMED_SUCCESS]))) |>
    <| sd_execution_partial_total := sd_execution_partial_total s + one (Nat.ltb 1 (List.length statuses)) |>.

(** The admission boundary, over the bundle it read from the same table. *)
Definition admission_of (bundle : option BundleCommit) : ExecutionAdmission :=
  mkExecutionAdmission (if sc_bundle_repository sc then Some (fun _ => bundle) else None) None None.

Definition issue_capability (bundle_id plan_id : string) : C AggregateExecutionCapability :=
  bundle ← bundle_of plan_id;
  perform (fun s =>
    let '(r, issued) := issue_aggregate_capability (admission_of bundle) (token_urlsafe (sd_tokens s))
                          (sd_now s) bundle_id plan_id (NInt 60) (sd_issued s) in
    (r, s <| sd_issued := issued |> <| sd_tokens := S (sd_tokens s) |>)).

Definition aggregate_capability_for (p : Plan) : C (option AggregateExecutionCapability) :=
  bundle ← bundle_of (pl_id p);
  match bundle with
  | Some b => if sc_execution_admission sc && has_member (pl_id p) b
              then c ← issue_capability (bc_id b) (pl_id p); mret (Some c)
              else mret None
  | None => mret None
  end.

Definition overrides_of (g : PredecessorGateResult) : option (gmap string Z) :=
  if bool_decide (gr_state_version_overrides g = ∅) then None else Some (gr_state_version_overrides g).

(** The execution of a due plan, with its gates. *)
Definition execute_due (p : Plan) : C string :=
  assert_schedule_evidence p ≫= fun _ =>
  gate ← predecessor_gate p;
  if negb (gr_allowed gate) then refuse_dependent p
  else
    capability ← aggregate_capability_for p;
    outcomes ← await (ask_execute p (overrides_of gate) capability);
    alter_st (count_outcomes outcomes) ≫= fun _ =>
    status ← complete_scheduled_plan (pl_id p) (Some outcomes);
    record_bundle_outcome p outcomes ≫= fun _ =>
    mret (ScheduleStatus_value status).

(** [except DomainError] and [except Exception] *)
Definition after_error (p : Plan) (e : exn) : C (option sweep_result) :=
  match e with
  | DomainError d =>
      if bool_decide (er_code d = SCHEDULE_EVIDENCE_MISMATCH)
      then on_scheduled (reconcile_terminal (pl_id p) SS_FAILED) ≫= fun _ => mret (Some (pl_id p, "failed"))
      else mret (Some (pl_id p, "error"))
  | _ =>
      reconciled ← coro_attempt (reconcile_scheduled_plan (pl_id p));
      mret (Some (pl_id p, match reconciled with Ok (Some _) => "reconciled" | _ => "error" end))
  end.

Definition execute_or_report (p : Plan) : C (option sweep_result) :=
  r ← coro_attempt (execute_due p);
  match r with
  | Ok outcome => mret (Some (pl_id p, outcome))
  | Err e => after_error p e
  end.

(** What an earlier run left behind. *)
Definition reconcile_due (p : Plan) : C (option sweep_result) :=
  reconciled ← coro_attempt (reconcile_scheduled_plan (pl_id p));
  match reconciled with
  | Err _ => mret (Some (pl_id p, "error"))
  | Ok (Some _) => mret (Some (pl_id p, "reconciled"))
  | Ok None =>
      inflight ← coro_attempt (reconcile_inflight_plan (pl_id p) true);
      mret (match inflight with
            | Err _ => Some (pl_id p, "error")
            | Ok true => Some (pl_id p, "reconciled")
            | Ok false => None
            end)
  end.

Definition run_plan (sweep_time : datetime) (p : Plan) : C (option sweep_result) :=
  match pl_execute_at p with
  | None => Raise AssertionError
  | Some execute_at =>
      if execute_at >? sweep_time then mret None
      else
        settled ← reconcile_due p;
        match settled with
        | Some r => mret (Some r)
        | None =>
            note_lateness (lateness_of (sweep_time - execute_at)) ≫= fun _ =>
            if sweep_time - execute_at >? sc_grace_window sc then miss p else execute_or_report p
        end
  end.

Definition run_due (now : option datetime) : C (list sweep_result) :=
  t ← clock;
  plans ← pending_plans;
  coro_collect (run_plan (default t now)) plans.

(** ** Recurring schedules *)

Definition unavailable_error : exn := ValueError "Recurring scheduling is unavailable in this deployment".

Definition schedule_recurring (id : string) (commands : list Command) (rule : RecurrenceRule)
    (p : option Plan) (authority : option (list (string * json))) : C datetime :=
  raise_when (negb (sc_recurring_repository sc)) unavailable_error ≫= fun _ =>
  match p with Some p => admitted p AO_STANDING_AUTOMATION | None => mret tt end ≫= fun _ =>
  t ← clock;
  first ← of_result (next_occurrence zone_info rule t);
  raise_when (match rec_expires_at rule with Some e => first >? e | None => false end)
    (ValueError "Recurring schedule expires_at is before its first occurrence") ≫= fun _ =>
  on_recurring (create_recurring id commands rule first authority) ≫= fun _ =>
  mret first.

Definition cancel_recurring (id : string) : C bool :=
  raise_when (negb (sc_recurring_repository sc)) unavailable_error ≫= fun _ =>
  on_recurring (cancel_recurring_row id).

Definition active_schedules : C (list (string * list Command * RecurrenceRule * datetime)) :=
  query (fun s => Ok (list_active (sd_recurring s))).
Definition list_recurring : C (list (string * list Command * RecurrenceRule * datetime)) :=
  raise_when (negb (sc_recurring_repository sc)) unavailable_error ≫= fun _ => active_schedules.

(** [not x] of a decoded value *)
Definition json_truthy (j : json) : bool :=
  match j with
  | JNull => false
  | JBool b => b
  | JNum (NInt z) => negb (z =? 0)
  | JNum (NFloat f) => negb (num_eq (NFloat f) (NInt 0))
  | JStr s => negb (is_empty s)
  | JList l => negb (bool_decide (l = []))
  | JObj l => negb (bool_decide (l = []))
  end.
Definition entry_truthy (k : string) (a : list (string * json)) : bool :=
  match json_get k a with Some j => json_truthy j | None => false end.
Definition entry_is (k v : string) (a : list (string * json)) : bool :=
  bool_decide (json_get k a = Some (JStr v)).

(** The stored authority is for exactly this template and this rule. *)
Definition authority_matches (commands : list Command) (rule : RecurrenceRule)
    (a : list (string * json)) : bool :=
  let template := recurring_template_digest commands in
  let plan_id := match json_get "plan_id" a with
                 | Some (JStr s) => s | Some j => json_str j | None => "" end in
  entry_is "schema" "standing-automation-authority-v1" a &&
  entry_is "template_digest" template a &&
  entry_is "recurrence_digest" (recurrence_digest plan_id rule (Some template)) a &&
  entry_truthy "validation_digest" a && entry_truthy "owner" a && entry_truthy "approval_id" a.

(** An expiry that cannot be read is over. *)
Definition authority_expired (now : datetime) (a : list (string * json)) : bool :=
  match json_get "expires_at" a with
  | None | Some JNull => false
  | Some (JStr text) =>
      match fromisoformat text with
      | Some (expiry, true) => expiry <=? now
      | _ => true
      end
  | Some _ => true
  end.

Definition end_schedule (id outcome : string) : C (option sweep_result) :=
  on_recurring (cancel_recurring_row id) ≫= fun _ => mret (Some (id, outcome)).

Definition occurrence_command (id : string) (rule : RecurrenceRule) (commands : list Command)
    (execute_at : datetime) (index : nat) (c : Command) : Command :=
  c <| cmd_idempotency_key :=
    occurrence_idempotency_key (au_household_id (rec_authority rule)) id
      (recurring_template_digest commands) (utc_text execute_at) (cmd_id c) (Z.of_nat index) |>.

(** [Plan(...)] of an occurrence *)
Definition occurrence_plan (now : datetime) (id : string) (commands : list Command)
    (rule : RecurrenceRule) (execute_at : datetime) : Plan :=
  mkPlan (rec_authority rule) (id +:+ "@" +:+ utc_text execute_at)
    (expected_schema_version None None) now (rec_expires_at rule) None None None 0
    (imap (occurrence_command id rule commands execute_at) commands) PS_DRAFT None None None None []
    None None (Some (au_principal_id (rec_authority rule))).

Definition advance_schedule (id : string) (rule : RecurrenceRule) (sweep_time : datetime) : C unit :=
  next ← of_result (next_occurrence zone_info rule sweep_time);
  on_recurring (advance_recurring id next).

(** The occurrence is validated as it is now, and executed if nothing is
    missing. *)
Definition run_validated (p : Plan) : C string :=
  s ← look;
  validated ← of_result (validate (sd_service s) (sd_now s) p);
  if bool_decide (pl_status validated = PS_READY) then
    outcomes ← await (ask_execute validated None None);
    mret (fst (project_execution_summary outcomes))
  else mret "skipped".

Definition run_occurrence (id : string) (rule : RecurrenceRule) (sweep_time : datetime) (p : Plan)
    : C string :=
  inflight ← reconcile_inflight_plan (pl_id p) false;
  if inflight : bool then advance_schedule id rule sweep_time ≫= fun _ => mret "reconciled"
  else
    evidence ← terminal_plan_evidence (pl_id p);
    match evidence with
    | Some _ => advance_schedule id rule sweep_time ≫= fun _ => mret "reconciled"
    | None =>
        outcome ← run_validated p;
        advance_schedule id rule sweep_time ≫= fun _ =>
        mret outcome
    end.

(** The occurrence of a schedule whose authority stands. *)
Definition run_schedule_at (sweep_time : datetime) (id : string) (commands : list Command)
    (rule : RecurrenceRule) (execute_at : datetime) : C (option sweep_result) :=
  if match rec_expires_at rule with
     | Some e => (execute_at >? e) || (e <=? sweep_time) | None => false end
  then end_schedule id "expired"
  else if execute_at >? sweep_time then mret None
  else
    t ← clock;
    let p := occurrence_plan t id commands rule execute_at in
    of_result (model_validate p) ≫= fun _ =>
    outcome ← coro_attempt (run_occurrence id rule sweep_time p);
    mret (Some (id, match outcome with Ok o => o | Err _ => "error" end)).

Definition run_recurring (sweep_time : datetime)
    (entry : string * list Command * RecurrenceRule * datetime) : C (option sweep_result) :=
  let '(id, commands, rule, execute_at) := entry in
  authority ← query (fun s => Ok (get_authority (sd_recurring s) id));
  t ← clock;
  let a := default [] authority in
  if negb (bool_decide (a = [])) && negb (authority_matches commands rule a)
  then end_schedule id "authority_rejected"
  else if authority_expired t a then end_schedule id "authority_expired"
  else run_schedule_at sweep_time id commands rule execute_at.

Definition run_due_recurring (now : option datetime) : C (list sweep_result) :=
  if negb (sc_recurring_repository sc) then mret []
  else
    t ← clock;
    active ← active_schedules;
    coro_collect (run_recurring (default t now)) active.

(** ** The loop *)

Definition set_alive (b : bool) : C unit := alter_st (fun s => s <| sd_alive := b |>).
Definition guarded {A} (c : C A) : C unit := coro_attempt c ≫= fun _ => mret tt.

Definition sweep_once : C unit :=
  await (ask_sleep (sc_poll_interval sc)) ≫= fun _ =>
  guarded (run_due None) ≫= fun _ =>
  guarded (run_due_recurring None) ≫= fun _ =>
  (if sc_local_automation_runner sc
   then guarded (t ← clock; await (ask_automation t)) else mret tt) ≫= fun _ =>
  if sc_recovery_runner sc then guarded (await ask_recovery) else mret tt.

(** [run], for [n] rounds of its loop. *)
Definition run_loop (n : nat) : C unit :=
  set_alive true ≫= fun _ =>
  coro_catch (fun e => set_alive false ≫= fun _ => Raise e)
    (coro_iter (fun _ => sweep_once) (repeat tt n) ≫= fun _ => Raise OutOfFuel).
End Methods.
End Scheduling.
