(* ===== verification/LampSchedule.v ===== *)
(** * The desk lamp on a schedule

    A scheduler over the tables of one home: a plan due at six whose
    predecessor in its bundle was executed, and two recurring schedules.  The
    executor is the oracle: it confirms every command, and [during] is what
    others do while it works. *)

From S2P Require Import Prelude.
From S2P Require Import Values.
From S2P Require Import Models.
From S2P Require Import Digests.
From S2P Require Import ApprovalStore.
From S2P Require Import PlanService.
From S2P Require Import Admission.
From S2P Require Import PlanRecords.
From S2P Require Import Coroutines.
From S2P Require Import Projection.
From S2P Require Import Recurrence.
From S2P Require Import Zones.
From S2P Require Import ScheduleRecords.
From S2P Require Import BundleRecords.
From S2P Require Import Scheduler.

#[local] Existing Instance example_canonical.
#[export] Instance plain_rendering : Rendering :=
  {| json_instant t := pretty t; json_time t := pretty t; render_message _ := "message" |}.
#[export] Instance plain_interpreter : Interpreter :=
  {| fromisoformat _ := None; zone_info := some_zones; set_order l := l; json_str _ := "json";
     token_urlsafe n := "token-" +:+ pretty (N.of_nat n) |}.
#[export] Instance home_records : PlanRecordPort plans := plans_port (Some "home-1").

Abbreviation Home := (Scheduling (R := plans)).

Definition confirmed_outcome (plan_id command_id : string) : ExecutionOutcome :=
  mkExecutionOutcome default_authority plan_id command_id "attempt-1" None ES_CONFIRMED_SUCCESS None None
    None None 0.
Definition confirmed_outcomes (p : Plan) : list ExecutionOutcome :=
  map (fun c => confirmed_outcome (pl_id p) (cmd_id c)) (pl_commands p).

(** A plan the executor is done with. *)
Definition executed_row (p : Plan) : plan_row :=
  mkPlanRow PS_COMPLETED (p <| pl_status := PS_COMPLETED |> <| pl_execution := Some (confirmed_outcomes p) |>).

(** ** The tables *)

Definition six : datetime := hours 18.
Definition six_window : ExecutionWindow := mkExecutionWindow six six six "UTC" 0.
Definition six_plan : Plan :=
  example_ready <| pl_execute_at := Some six |> <| pl_execution_window := Some six_window |>.
Definition charge_plan : Plan := example_ready <| pl_id := "charge" |>.

Definition home_members (evidence : option ExecutionDependencyEvidence) : BundleCommit :=
  mkBundleCommit default_authority "bundle-1" "sha256:b" "scenario-1" BC_SCHEDULED None
    [mkBundleMemberCommit "charge" "sha256:v" None BM_EXECUTED (Some ES_CONFIRMED_SUCCESS) true None
       evidence None [] None;
     mkBundleMemberCommit "plan-1" "sha256:v" (Some six) BM_SCHEDULED None true None None (Some "charge")
       ["charge"] None] 0 0 None.
Definition charge_evidence : ExecutionDependencyEvidence :=
  evidence_of (home_members None) charge_plan (confirmed_outcomes charge_plan) ES_CONFIRMED_SUCCESS [] 0.
Definition home_bundle : BundleCommit := home_members (Some charge_evidence).

Definition lamp_schedule_row (at_ : datetime) : recurring_row :=
  mkRecurringRow [example_lamp_command "turn_on"] nightly at_ true [].

Definition home_scheduler : Scheduler :=
  mkScheduler (seconds 900) (seconds 30) true true true true true true.
Definition home_at (now : datetime) : Home :=
  mkScheduling now (snd (schedule_plan six_plan []))
    [("a", lamp_schedule_row (minutes 2)); ("b", lamp_schedule_row (minutes 3))]
    [("bundle-1", home_bundle)] ∅ 0 {["charge" := executed_row charge_plan]} example_service false None
    (NInt 0) 0 0 0 0 0.

(** ** The executor *)

Definition home_oracle (during : Home -> Home) : oracle Home scheduler_call :=
  fun n B q s =>
    match q in scheduler_call B return result exn B * Home with
    | ask_execute p _ _ =>
        (Ok (confirmed_outcomes p), during (s <| sd_records := <[pl_id p := executed_row p]> (sd_records s) |>))
    | ask_sleep d => (Ok tt, s <| sd_now := sd_now s + d |>)
    | ask_storage | ask_answer | ask_admit _ _ | ask_automation _ | ask_recovery => (Ok tt, s)
    end.

Definition home_run {A} (during : Home -> Home) (c : coro Home scheduler_call A) (s : Home)
    : result exn A * Home :=
  let '(r, _, s') := run (home_oracle during) c 0 s in (r, s').
Definition quietly {A} (c : coro Home scheduler_call A) (s : Home) : result exn A * Home := home_run id c s.
Definition row_status (id : string) (s : Home) : option ScheduleStatus := sr_status <$> od_get id (sd_scheduled s).

(** ** Runs *)

(** Ten seconds after six the lamp is switched on, once. *)
Definition after_six : Home := home_at (six + seconds 10).
Example lamp_executed :
  let '(r, s) := quietly (run_due home_scheduler None) after_six in
  r = Ok [("plan-1", "executed")] /\ row_status "plan-1" s = Some SS_EXECUTED /\
  (bc_status <$> od_get "bundle-1" (sd_bundles s)) = Some BC_COMPLETED /\
  fst (quietly (run_due home_scheduler None) s) = Ok [].
Proof. vm_compute. done. Qed.

(** A quarter of an hour and a second too late. *)
Example lamp_missed :
  fst (quietly (run_due home_scheduler (Some (six + seconds 901))) after_six) = Ok [("plan-1", "missed")].
Proof. vm_compute. done. Qed.

(** The evidence of the charge is gone: nothing is sent. *)
Example lamp_refused :
  fst (quietly (run_due home_scheduler None)
         (after_six <| sd_bundles := [("bundle-1", home_members None)] |>)) = Ok [("plan-1", "dependency_failed")].
Proof. vm_compute. done. Qed.

(** ** What others do while the executor works *)

(** A plan is cancelled while it is executed: the cancellation answers yes, the
    plan was executed, and the row says it was cancelled. *)
Definition cancel_meanwhile (s : Home) : Home := snd (quietly (cancel home_scheduler "plan-1") s).
Example cancelled_while_executing :
  fst (quietly (cancel home_scheduler "plan-1") after_six) = Ok true /\
  let '(r, s) := home_run cancel_meanwhile (run_due home_scheduler None) after_six in
  r = Ok [("plan-1", "error")] /\ row_status "plan-1" s = Some SS_CANCELLED /\
  (pr_status <$> sd_records s !! "plan-1") = Some PS_COMPLETED /\
  (map bm_status ∘ bc_members <$> od_get "bundle-1" (sd_bundles s)) = Some [BM_EXECUTED; BM_SCHEDULED].
Proof. vm_compute. done. Qed.

(** The plan is cancelled after the sweep saw its row pending and while it
    waits for the record of the predecessor: the cancellation answers yes, and
    the plan is executed all the same. *)
Definition meddling (k : nat) (act : Home -> Home) : oracle Home scheduler_call := fun n B q s =>
  let '(r, s') := home_oracle id n B q s in (r, if Nat.eqb n k then act s' else s').
Example cancelled_after_its_check :
  let '(r, n, s) := run (meddling 12 cancel_meanwhile) (run_due home_scheduler None) 0 after_six in
  r = Ok [("plan-1", "error")] /\ row_status "plan-1" s = Some SS_CANCELLED /\
  (pr_status <$> sd_records s !! "plan-1") = Some PS_COMPLETED.
Proof. vm_compute. done. Qed.

(** Two schedules are due; while the occurrence of the first is executed, the
    second is cancelled, and is executed all the same. *)
Definition night : Home := home_at (minutes 4).
Definition cancel_second (s : Home) : Home := snd (quietly (cancel_recurring home_scheduler "b") s).
Example cancelled_schedule_executed :
  fst (quietly (cancel_recurring home_scheduler "b") night) = Ok true /\
  let '(r, s) := home_run cancel_second (run_due_recurring home_scheduler None) night in
  r = Ok [("a", "executed"); ("b", "executed")] /\
  (rr_active <$> od_get "b" (sd_recurring s)) = Some false /\
  (pr_status <$> sd_records s !! ("b@" +:+ utc_text (minutes 3))) = Some PS_COMPLETED.
Proof. vm_compute. done. Qed.

(** The execution status of a failed member is whichever comes first in a set. *)
Example failed_member_confirmed :
  member_result [ES_CONFIRMED_SUCCESS; ES_FAILED] = (BM_FAILED, ES_CONFIRMED_SUCCESS).
Proof. reflexivity. Qed.
