(* ===== verification/SchedulerSafety.v ===== *)
(** * What the scheduler sends to the executor

    The proof principles of the scheduler's methods: [checks] are the stretches
    that ask for no execution, with what they saw and did in order; [gated]
    those that ask for one only after a stretch that clears it.  Then the
    theorems on what a sweep executes, for any answers and anything others do
    at the awaits of the executor and of the storage. *)

From S2P Require Import Prelude.
From S2P Require Import Values.
From S2P Require Import Models.
From S2P Require Import Digests.
From S2P Require Import ApprovalStore.
From S2P Require Import PlanService.
From S2P Require Import Coordination.
From S2P Require Import Admission.
From S2P Require Import PlanRecords.
From S2P Require Import Coroutines.
From S2P Require Import Projection.
From S2P Require Import Recurrence.
From S2P Require Import Zones.
From S2P Require Import ScheduleRecords.
From S2P Require Import BundleRecords.
From S2P Require Import Scheduler.
From S2P Require Import LampSchedule.

(** What the executor is asked for. *)
Abbreviation execution := (Plan * option (gmap string Z) * option AggregateExecutionCapability)%type.

Section Principles.
Context {R : Type}.
Abbreviation S := (Scheduling (R := R)).
Abbreviation C := (coro S scheduler_call).
Abbreviation happened := (list (happening S scheduler_call)).

(** ** Executions *)

Definition asked_execution {B} (q : scheduler_call B) : result exn B -> option execution :=
  match q in scheduler_call B return result exn B -> option execution with
  | ask_execute p overrides capability => fun _ => Some (p, overrides, capability)
  | _ => fun _ => None
  end.
Definition executions : happened -> list execution := picked (@asked_execution).

Lemma sweep_executions_app l1 l2 : executions (l1 ++ l2) = executions l1 ++ executions l2.
Proof. apply picked_app. Qed.
Lemma executions_app_nil l1 l2 : executions l1 = [] -> executions l2 = [] -> executions (l1 ++ l2) = [].
Proof. intros H1 H2. by rewrite sweep_executions_app, H1, H2. Qed.

(** Methods that ask for no execution. *)
Definition quiet {A} : C A -> Prop := avoids (@asked_execution).

Lemma quiet_db {A} (m : stm S exn A) : quiet (db m).
Proof.
  apply avoids_bind; [split; [done|]; intros r; apply avoids_of_result|intros _].
  apply avoids_bind; [apply avoids_perform|intros r].
  apply avoids_bind; [split; [done|]; intros r'; apply avoids_of_result|intros _; apply avoids_of_result].
Qed.
Lemma quiet_raise_when b e : quiet (raise_when b e).
Proof. by destruct b. Qed.

(** ** Checks *)

(** Without asking for an execution, [c] answers [a] only after [P a]. *)
Definition checks {A} (c : C A) (P : A -> happened -> Prop) : Prop :=
  does (fun _ => True) c (fun r l _ => executions l = [] /\ forall a, r = Ok a -> P a l).

Lemma checks_quiet {A} (c : C A) : quiet c -> checks c (fun _ _ => True).
Proof. intros H. eapply does_conseq; [by apply (does_avoids (@asked_execution) (fun _ => True))|done|]. intros r l s Hl. by split. Qed.

Lemma checks_ret {A} (a : A) (P : A -> happened -> Prop) : P a [] -> checks (mret a) P.
Proof. intros HP. apply does_ret. intros s _. split; [done|]. by intros ? [= <-]. Qed.
Lemma checks_raise {A} e (P : A -> happened -> Prop) : checks (Raise e) P.
Proof. apply does_raise. intros s _. split; [done|]. by intros ? [=]. Qed.

Lemma checks_mono {A} (c : C A) (P Q : A -> happened -> Prop) :
  checks c P -> (forall a l, P a l -> Q a l) -> checks c Q.
Proof. intros H HPQ. eapply does_conseq; [exact H|done|]. intros r l s [Hl HP]. split; eauto. Qed.

(** One stretch after the other. *)
Definition chop (P Q : happened -> Prop) (l : happened) : Prop :=
  exists l1 l2, l = l1 ++ l2 /\ P l1 /\ Q l2.

Lemma checks_bind {A B} (c : C A) (f : A -> C B) P Q :
  checks c P -> (forall a, checks (f a) (Q a)) -> checks (c ≫= f) (fun b l => exists a, chop (P a) (Q a b) l).
Proof.
  intros Hc Hf. eapply does_bind with (M := fun a l _ => executions l = [] /\ P a l).
  - eapply does_conseq; [exact Hc|done|]. intros [a|e] l s [Hl HP]; [split; [done|by apply HP]|by split; [|intros ? [=]]].
  - intros a l1 s1 [Hl1 HP]. eapply does_conseq; [apply Hf|done|]. intros r l2 s [Hl2 HQ].
    split; [by apply executions_app_nil|]. intros b Hb. exists a, l1, l2. auto.
Qed.

Lemma checks_db {A} (m : stm S exn A) :
  checks (db m) (fun a l => in_order [did (fun s s' => m s = (Ok a, s'))] l).
Proof.
  eapply does_bind with (M := fun _ l _ => executions l = []).
  { apply does_await. intros [u|e] s; [done|]. split; [done|]. by intros ? [=]. }
  intros _ l1 s1 Hl1. eapply does_bind with (M := fun r l _ => executions l = [] /\
    exists s, l = [Acted s (snd (m s))] /\ r = fst (m s)).
  { apply does_perform. intros s _. destruct (m s) as [r s'] eqn:E. simpl. split; [done|]. exists s. by rewrite E. }
  intros r l2 s2 (Hl2 & s & -> & ->). eapply does_bind with (M := fun _ l _ => executions l = []).
  { apply does_await. intros [u|e] s'; [done|]. split; [|by intros ? [=]]. by apply executions_app_nil. }
  intros _ l3 s3 Hl3. assert (forall l4 a, fst (m s) = Ok a -> executions l4 = [] ->
    executions (l1 ++ [Acted s (snd (m s))] ++ l3 ++ l4) = [] /\
    in_order [did (fun s s' => m s = (Ok a, s'))] (l1 ++ [Acted s (snd (m s))] ++ l3 ++ l4)) as H.
  { intros l4 a Ha Hl4. split; [by repeat apply executions_app_nil|].
    exists l1, (Acted s (snd (m s))), (l3 ++ l4). split_and!; [done| |done]. simpl. rewrite <- Ha. by destruct (m s). }
  destruct (fst (m s)) as [a|e] eqn:Ea.
  - apply does_ret. intros s' _. destruct (H [] a eq_refl eq_refl) as [? ?]. split; [done|]. by intros ? [= <-].
  - apply does_raise. intros s' _. split; [|by intros ? [=]]. rewrite app_nil_r. by repeat apply executions_app_nil.
Qed.

Lemma checks_query {A} (f : S -> result exn A) :
  checks (query f) (fun a l => in_order [saw (fun s => f s = Ok a)] l).
Proof.
  eapply checks_mono; [apply checks_db|]. intros a l. apply in_order_mono.
  intros [s s'|B q r]; [|done]. by intros [= Hf _].
Qed.
Lemma checks_look {A} (f : S -> C A) P :
  (forall s, checks (f s) (fun a l => P a (Acted s s :: l))) -> checks (look ≫= f) P.
Proof.
  intros H. apply does_look. intros s _. eapply does_conseq; [apply H|done|].
  intros r l s' [Hl HP]. by split.
Qed.
Lemma checks_raise_when b e : checks (raise_when b e) (fun _ l => l = [] /\ b = false).
Proof. destruct b; simpl; [apply checks_raise|by apply checks_ret]. Qed.

Lemma checks_of_result {A} (r : result exn A) : checks (of_result r) (fun a l => l = [] /\ r = Ok a).
Proof. destruct r as [a|e]; simpl; [by apply checks_ret|apply checks_raise]. Qed.
Lemma checks_clock : checks clock (fun t l => in_order [saw (fun s => sd_now s = t)] l).
Proof.
  apply checks_look. intros s. apply checks_ret. by exists [], (Acted s s), [].
Qed.

(** ** Executions after checks *)

Section gated.
Context (cleared : execution -> happened -> Prop).

(** After a stretch with [P] that asked for nothing, [c] asks for an execution
    only where the stretch since the last one clears it. *)
Definition gated {A} (P : happened -> Prop) (c : C A) : Prop := forall l0, executions l0 = [] -> P l0 ->
  does (fun _ => True) c (fun _ l _ => preceded (@asked_execution) cleared (l0 ++ l)).

Lemma sweep_gated_quiet {A} P (c : C A) : quiet c -> gated P c.
Proof.
  intros Hc l0 Hl0 _. eapply does_conseq; [by apply (does_avoids (@asked_execution) (fun _ => True))|done|]. intros r l s Hl.
  apply preceded_none. by apply executions_app_nil.
Qed.
Lemma sweep_gated_mono {A} (P Q : happened -> Prop) (c : C A) : gated Q c -> (forall l, P l -> Q l) -> gated P c.
Proof. intros H HPQ l0 Hl0 HP. apply H; auto. Qed.
Lemma gated_checks {A B} P (c : C A) (f : A -> C B) Q :
  checks c Q -> (forall a, gated (chop P (Q a)) (f a)) -> gated P (c ≫= f).
Proof.
  intros Hc Hf l0 Hl0 HP. eapply does_bind with (M := fun a l _ => executions l = [] /\ Q a l).
  - eapply does_conseq; [exact Hc|done|]. intros [a|e] l s [Hl HQ]; [split; [done|by apply HQ]|].
    apply preceded_none. by apply executions_app_nil.
  - intros a l1 s1 [Hl1 HQ]. eapply does_conseq; [apply (Hf a (l0 ++ l1)); [by apply executions_app_nil|by exists l0, l1]|done|].
    intros r l2 s. cbv beta. by rewrite <- app_assoc.
Qed.
Lemma gated_execute {B} P p overrides capability (f : list ExecutionOutcome -> C B) :
  (forall l, P l -> cleared (p, overrides, capability) l) -> (forall a, quiet (f a)) ->
  gated P (await (ask_execute p overrides capability) ≫= f).
Proof.
  intros HP Hf l0 Hl0 HPl.
  assert (forall r, preceded (@asked_execution) cleared (l0 ++ [Asked (ask_execute p overrides capability) r])) as Hlast.
  { intros r. apply preceded_last; [done|]. intros y [= <-]. by apply HP. }
  eapply does_bind with (M := fun _ l _ => preceded (@asked_execution) cleared (l0 ++ l)).
  { apply does_await. intros r s. destruct r; apply Hlast. }
  intros a l1 s1 Hl1. eapply does_conseq; [apply (does_avoids (@asked_execution) (fun _ => True)), Hf|done|]. intros r l2 s Hl2.
  rewrite app_assoc. apply preceded_app; [done|]. by apply preceded_none.
Qed.
Lemma gated_attempt {A B} P (c : C A) (f : result exn A -> C B) :
  gated P c -> (forall a, quiet (f a)) -> gated P (coro_attempt c ≫= f).
Proof.
  intros Hc Hf l0 Hl0 HP. eapply does_bind with (M := fun _ l _ => preceded (@asked_execution) cleared (l0 ++ l)).
  { apply does_attempt. eapply does_conseq; [by apply Hc|done|]. intros [a|e] l s Hl; [done|]. by destruct (is_exception e). }
  intros a l1 s1 Hl1. eapply does_conseq; [apply (does_avoids (@asked_execution) (fun _ => True)), Hf|done|]. intros r l2 s Hl2.
  rewrite app_assoc. apply preceded_app; [done|]. by apply preceded_none.
Qed.
Lemma gated_after {A B} P (c : C A) (f : A -> C B) :
  gated P c -> (forall a, quiet (f a)) -> gated P (c ≫= f).
Proof.
  intros Hc Hf l0 Hl0 HP. eapply does_bind with (M := fun _ l _ => preceded (@asked_execution) cleared (l0 ++ l)).
  { eapply does_conseq; [by apply Hc|done|]. by intros []. }
  intros a l1 s1 Hl1. eapply does_conseq; [apply (does_avoids (@asked_execution) (fun _ => True)), Hf|done|]. intros r l2 s Hl2.
  rewrite app_assoc. apply preceded_app; [done|]. by apply preceded_none.
Qed.
Lemma gated_look {A} P (f : S -> C A) :
  (forall s, gated (chop P (eq [Acted s s])) (f s)) -> gated P (look ≫= f).
Proof.
  intros H l0 Hl0 HP. apply does_look. intros s _. eapply does_conseq; [apply (H s (l0 ++ [Acted s s]))|done|].
  - by apply executions_app_nil.
  - by exists l0, [Acted s s].
  - intros r l s'. cbv beta. by rewrite <- app_assoc.
Qed.
End gated.

(** ** A sweep: a list from the tables, and one stretch for each entry *)

(** Every execution of [h] was cleared for an entry that the tables listed. *)
Definition all_cleared {X} (f : S -> list X) (cleared : X -> execution -> happened -> Prop) (h : happened) : Prop :=
  forall h1 p overrides capability r h2, h = h1 ++ Asked (ask_execute p overrides capability) r :: h2 ->
  exists s s' x h0 l, Acted s s' ∈ h1 /\ x ∈ f s /\ h1 = h0 ++ l /\ executions l = [] /\
    cleared x (p, overrides, capability) l.

Lemma all_cleared_none {X} f (cleared : X -> execution -> happened -> Prop) h :
  executions h = [] -> all_cleared f cleared h.
Proof.
  intros H h1 p o c r h2 ->. rewrite sweep_executions_app in H. by apply app_eq_nil in H as [_ ?].
Qed.

Lemma all_cleared_listed {X} f (cleared : X -> execution -> happened -> Prop) xs l1 l2 :
  executions l1 = [] -> in_order [saw (fun s => f s = xs)] l1 ->
  preceded (@asked_execution) (fun y l => exists x, x ∈ xs /\ cleared x y l) l2 ->
  all_cleared f cleared (l1 ++ l2).
Proof.
  intros Hl1 (k1 & x0 & k2 & -> & Hs & _) H h1 p o c r h2 E. destruct x0 as [s s'|]; [|done]. simpl in Hs. subst xs.
  apply app_eq_inv in E as [(k & Ek & E)|(k & -> & E)].
  - destruct k as [|y k].
    + rewrite app_nil_r in Ek. subst h1. simpl in E.
      destruct (H [] _ h2 (p, o, c) (eq_sym E) eq_refl) as (h0 & l & El & Hl & x & Hx & Hc).
      symmetry in El. apply app_eq_nil in El as [-> ->].
      exists s, s', x, (k1 ++ Acted s s' :: k2), []. split_and!; [set_solver|done|by rewrite app_nil_r|done|done].
    + injection E as <- _. exfalso. rewrite Ek, sweep_executions_app in Hl1. by apply app_eq_nil in Hl1 as [_ ?].
  - destruct (H k _ h2 (p, o, c) E eq_refl) as (h0 & l & -> & Hl & x & Hx & Hc).
    exists s, s', x, ((k1 ++ Acted s s' :: k2) ++ h0), l.
    split_and!; [set_solver|done|by rewrite app_assoc|done|done].
Qed.

Lemma all_cleared_before {X} f (cleared : X -> execution -> happened -> Prop) h0 h :
  executions h0 = [] -> all_cleared f cleared h -> all_cleared f cleared (h0 ++ h).
Proof.
  intros H0 H h1 p o c r h2 E. apply app_eq_inv in E as [(k & -> & E)|(k & -> & E)].
  - destruct k as [|y k].
    + destruct (H [] p o c r h2 (eq_sym E)) as (? & ? & ? & ? & ? & []%not_elem_of_nil & _).
    + injection E as <- _. exfalso. rewrite sweep_executions_app in H0. by apply app_eq_nil in H0 as [_ ?].
  - destruct (H k p o c r h2 E) as (s & s' & x & k0 & l & Hs & Hx & -> & Hl & Hc).
    exists s, s', x, (h0 ++ k0), l. split_and!; [apply elem_of_app; by right|done|by rewrite app_assoc|done|done].
Qed.

Lemma sweep_cleared {X Y} (f : S -> list X) (g : X -> C (option Y)) cleared P :
  (forall x, gated (cleared x) (fun _ => True) (g x)) ->
  does P (query (fun s => Ok (f s)) ≫= coro_collect g) (fun _ l _ => all_cleared f cleared l).
Proof.
  intros Hg. eapply does_bind with (M := fun xs l _ => executions l = [] /\ in_order [saw (fun s => f s = xs)] l).
  - eapply (does_conseq (fun _ => True)); [apply checks_query|done|]. intros [xs|e] l s [Hl H]; [|by apply all_cleared_none].
    split; [done|]. eapply in_order_mono; [|by apply H]. intros [s1 s2|]; [|done]. by intros [= Hx].
  - intros xs l1 s1 [Hl1 H1]. eapply (does_conseq (fun _ => True)); [|done|intros r l s; by apply all_cleared_listed].
    apply does_collect; [by apply preceded_none|by apply preceded_app|]. intros x Hx.
    eapply does_conseq; [by apply (Hg x [])|done|]. intros r l s Hl h1 z h2 y E Hy.
    destruct (Hl h1 z h2 y E Hy) as (h0 & l' & -> & Hl' & Hc). exists h0, l'. eauto.
Qed.

(** A sweep reads the clock first. *)
Lemma clocked_sweep_cleared {X Y} (f : S -> list X) (g : datetime -> X -> C (option Y)) cleared s :
  (forall t x, gated (cleared t x) (fun _ => True) (g t x)) ->
  does (fun s' => s' = s) (t ← clock; query (fun s => Ok (f s)) ≫= coro_collect (g t))
    (fun _ l _ => all_cleared f (cleared (sd_now s)) l).
Proof.
  intros Hg. apply (does_look _ (fun s => query (fun s => Ok (f s)) ≫= coro_collect (g (sd_now s)))).
  intros s0 ->. eapply does_conseq; [by apply (sweep_cleared f (g (sd_now s)) (cleared (sd_now s)) (fun _ => True))|done|].
  intros r l s'. by apply (all_cleared_before _ _ [_]).
Qed.

(** Where an execution is, in a history. *)
Lemma executions_split (h : happened) p overrides capability : (p, overrides, capability) ∈ executions h ->
  exists h1 r h2, h = h1 ++ Asked (ask_execute p overrides capability) r :: h2.
Proof.
  intros ([s s'|B q r] & Hin & Hx)%list_elem_of_omap; [done|]. destruct q; try done. injection Hx as -> -> ->.
  apply list_elem_of_split in Hin as (h1 & h2 & ->). by exists h1, r, h2.
Qed.
End Principles.

Create HintDb quiet.

(** Methods that only call the storage. *)
Ltac quieten :=
  intros; repeat match goal with
  | |- quiet (_ ≫= _) => apply avoids_bind; intros
  | |- quiet (coro_bind _ _) => apply avoids_bind; intros
  | |- quiet (coro_attempt _) => apply avoids_attempt
  | |- quiet (of_result _) => apply avoids_of_result
  | |- quiet (db _) => apply quiet_db
  | |- quiet (query _) => apply quiet_db
  | |- quiet (on_scheduled _) => apply quiet_db
  | |- quiet (on_recurring _) => apply quiet_db
  | |- quiet (on_records _) => apply quiet_db
  | |- quiet (raise_when _ _) => apply quiet_raise_when
  | |- quiet (perform _) => apply avoids_perform
  | |- avoids _ ?c => change (quiet c)
  | |- quiet (match ?x with _ => _ end) => destruct x
  | |- quiet (mret _) => exact I
  | |- quiet (Ret _) => exact I
  | |- quiet (Raise _) => exact I
  | |- quiet look => intros ?; exact I
  | |- quiet (alter_st _) => intros ?; exact I
  end; auto with quiet.

Section Gates.
Context {R : Type} `{CJ : Canonical} `{RN : Rendering} `{PY : Interpreter} `{!PlanRecordPort R}.
Context (sc : Scheduler).
Abbreviation S := (Scheduling (R := R)).
Abbreviation happened := (list (happening S scheduler_call)).

(** ** What the checks read *)

Definition bundle_is (id : string) (o : option BundleCommit) (s : S) : Prop := get_for_plan (sd_bundles s) id = o.

Lemma checks_scheduled_pending id : checks (R := R) (scheduled_pending id)
  (fun o l => forall p, o = Some p ->
     in_order [saw (fun s => get_scheduled (sd_scheduled s) id = Ok (Some (p, SS_PENDING)))] l).
Proof.
  unfold scheduled_pending. eapply checks_mono.
  - apply checks_bind; [apply checks_query|]. intros o.
    apply (checks_ret _ (fun a l => a = match o with Some (p, SS_PENDING) => Some p | _ => None end)). done.
  - intros a l (o & l1 & l2 & -> & Ho & ->) p Hp. destruct o as [[q []]|]; try done. injection Hp as ->.
    by apply in_order_after.
Qed.

Lemma checks_persisted_plan id : checks (persisted_plan sc id)
  (fun o l => if sc_plan_repository sc then in_order [saw (fun s => port_get_plan id (sd_records s) = Ok o)] l
              else o = None).
Proof.
  unfold persisted_plan. destruct (sc_plan_repository sc); [apply checks_query|by apply checks_ret].
Qed.

Lemma checks_bundle_of id : checks (R := R) (bundle_of sc id)
  (fun o l => if sc_bundle_repository sc then in_order [saw (bundle_is id o)] l else o = None).
Proof.
  unfold bundle_of. destruct (sc_bundle_repository sc); [|by apply checks_ret].
  eapply checks_mono; [apply checks_query|]. intros a l. apply in_order_mono. intros [s s'|]; [|done].
  by intros [= H].
Qed.

(** The row is pending, and it and the plan record carry the evidence of [p]. *)
Definition row_stands (p : Plan) (s : S) : Prop := exists stored,
  get_scheduled (sd_scheduled s) (pl_id p) = Ok (Some (stored, SS_PENDING)) /\ same_evidence stored p = true.
Definition record_stands (p : Plan) (s : S) : Prop := exists o,
  port_get_plan (pl_id p) (sd_records s) = Ok o /\ forall q, o = Some q -> same_evidence q p = true.
Definition evidence_checks (p : Plan) : list (happening S scheduler_call -> Prop) :=
  saw (row_stands p) :: (if sc_plan_repository sc then [saw (record_stands p)] else []).

Lemma checks_evidence p : checks (assert_schedule_evidence sc p) (fun _ l => in_order (evidence_checks p) l).
Proof.
  unfold assert_schedule_evidence. eapply checks_mono.
  - apply checks_bind; [apply checks_scheduled_pending|]. intros o.
    instantiate (1 := fun o _ l => exists stored, o = Some stored /\ same_evidence stored p = true /\
      in_order (if sc_plan_repository sc then [saw (record_stands p)] else []) l).
    destruct o as [stored|]; [|apply checks_raise]. eapply checks_mono.
    + apply checks_bind; [apply checks_raise_when|]. intros u. apply checks_bind; [apply checks_persisted_plan|].
      intros r. apply checks_raise_when.
    + intros [] l ([] & l1 & l2 & -> & [-> Hst] & r & l3 & l4 & -> & Hr & -> & Hq). exists stored. split; [done|].
      split; [by apply negb_false_iff|]. destruct (sc_plan_repository sc); [|done].
      cbn [app]. apply in_order_after. eapply in_order_mono; [|exact Hr]. intros [s s'|]; [|done]. intros Hs. exists r.
      split; [exact Hs|]. intros q ->. by apply negb_false_iff.
  - intros [] l (o & l1 & l2 & -> & Ho & stored & -> & Hst & Hq).
    apply (in_order_app [saw (row_stands p)]); [|exact Hq]. eapply in_order_mono; [|by apply Ho]. intros [s s'|]; [|done].
    intros Hs. exists stored. by split.
Qed.

(** What the bundle and the plan records say of a predecessor. *)
Definition predecessor_happened (b : BundleCommit) (id : string) (s : S) : Prop :=
  exists v q, confirmed_evidence b id = Some v /\ port_get_plan id (sd_records s) = Ok (Some q) /\
    outcomes_match v q = true.

Lemma checks_predecessors p b all ids overrides : checks (check_predecessors sc p b all ids overrides)
  (fun g l => gr_allowed g = true -> in_order (map (fun id => saw (predecessor_happened b id)) ids) l).
Proof.
  revert overrides. induction ids as [|id ids IH]; intros overrides; [by apply checks_ret|]. cbn [check_predecessors map].
  destruct (confirmed_evidence b id) as [v|] eqn:Ev; [|by apply checks_ret].
  destruct (sc_plan_repository sc) eqn:Er; cbn [negb]; [|by apply checks_ret].
  eapply checks_mono.
  - apply checks_bind; [apply checks_persisted_plan|]. intros o.
    instantiate (1 := fun o g l => gr_allowed g = true -> exists q, o = Some q /\ outcomes_match v q = true /\
      in_order (map (fun id => saw (predecessor_happened b id)) ids) l).
    destruct o as [q|]; [|by apply checks_ret]. destruct (outcomes_match v q) eqn:Em; [|by apply checks_ret].
    eapply checks_mono; [apply IH|]. intros g l Hg Ha. exists q. auto.
  - intros g l (o & l1 & l2 & -> & Ho & H) Ha. rewrite Er in Ho. destruct (H Ha) as (q & -> & Hm & Hids).
    apply (in_order_app [_]); [|done]. eapply in_order_mono; [|exact Ho]. intros [s s'|]; [|done].
    intros Hs. by exists v, q.
Qed.

(** The bundle of the plan was read, and then each predecessor's record. *)
Definition predecessors_of (o : option BundleCommit) (id : string) : list string :=
  match o ≫= fun b => member_of b id with Some m => bm_predecessor_plan_ids m | None => [] end.
Definition predecessor_checks (o : option BundleCommit) (p : Plan) : list (happening S scheduler_call -> Prop) :=
  saw (bundle_is (pl_id p) o) ::
  map (fun id => saw (fun s => exists b, o = Some b /\ predecessor_happened b id s)) (predecessors_of o (pl_id p)).
Definition predecessors_seen (p : Plan) (l : happened) : Prop :=
  sc_bundle_repository sc = true -> exists o, in_order (predecessor_checks o p) l.

Lemma in_order_map {X} (P Q : X -> S -> Prop) xs : forall l : happened, (forall x s, P x s -> Q x s) ->
  in_order (map (fun x => saw (P x)) xs) l -> in_order (map (fun x => saw (Q x)) xs) l.
Proof.
  induction xs as [|x xs IH]; intros l H; [done|]. intros (h1 & y & h2 & -> & Hy & Hl).
  exists h1, y, h2. split_and!; [done| |by apply IH]. destruct y; [|done]. by apply H.
Qed.

Lemma checks_gate p : checks (predecessor_gate sc p) (fun g l => gr_allowed g = true -> predecessors_seen p l).
Proof.
  unfold predecessor_gate. eapply checks_mono.
  - apply checks_bind; [apply checks_bundle_of|]. intros o.
    instantiate (1 := fun o g l => gr_allowed g = true ->
      in_order (map (fun id => saw (fun s => exists b, o = Some b /\ predecessor_happened b id s)) (predecessors_of o (pl_id p))) l).
    unfold predecessors_of. destruct o as [b|]; [|by apply checks_ret]. simpl.
    destruct (member_of b (pl_id p)) as [m|]; [|by apply checks_ret].
    destruct (bm_predecessor_plan_ids m) as [|id ids] eqn:Ei; [by apply checks_ret|].
    eapply checks_mono; [exact (checks_predecessors p b (id :: ids) (id :: ids) ∅)|]. intros g l Hg Ha. specialize (Hg Ha).
    eapply in_order_map; [|exact Hg]. intros x s Hx. by exists b.
  - intros g l (o & l1 & l2 & -> & Ho & H) Ha Hrepo. rewrite Hrepo in Ho. exists o.
    apply (in_order_app [_]); [exact Ho|by apply H].
Qed.

(** A member of a bundle runs with a capability that was issued for it. *)
Definition capability_given (p : Plan) (capability : option AggregateExecutionCapability) (l : happened) : Prop :=
  match capability with
  | Some c => exists b b', in_order
      [saw (bundle_is (pl_id p) (Some b)); saw (bundle_is (pl_id p) (Some b'));
       did (fun _ s => capability_holds (sd_issued s) (sd_now s) c b' (pl_id p))] l
  | None => sc_bundle_repository sc = true -> sc_execution_admission sc = true ->
            in_order [saw (bundle_is (pl_id p) None)] l
  end.

Lemma has_member_member b id : has_member id b = opt_bool (member_of b id).
Proof.
  unfold has_member, member_of. induction (bc_members b) as [|m l IH]; simpl; [done|].
  by destruct (String.eqb (bm_plan_id m) id).
Qed.

Lemma get_for_plan_member t id b : get_for_plan t id = Some b -> has_member id b = true.
Proof. by intros [_ H]%find_first_some. Qed.

(** What [issue_capability] answers is issued, for this member, and alive. *)
Lemma issue_capability_holds o now token bundle_id id c (issued issued' : issued_capabilities) :
  issue_aggregate_capability (admission_of sc o) token now bundle_id id (NInt 60) issued = (Ok c, issued') ->
  exists b, o = Some b /\ sc_bundle_repository sc = true /\ capability_holds issued' now c b id.
Proof.
  unfold issue_aggregate_capability, admission_of. simpl. destruct (sc_bundle_repository sc); [|done].
  destruct o as [b|]; [|done]. intros H. ok_inv. destruct_ands. subst.
  exists b. split; [done|]. split; [done|]. destruct_ands. repeat ok_inv. subst. split; simpl; try done.
  - by rewrite lookup_insert_eq.
  - lia.
Qed.

Lemma checks_perform {A} (m : stm S exn A) : checks (perform m)
  (fun a l => in_order [did (fun s s' => m s = (Ok a, s'))] l).
Proof.
  apply does_perform. intros s _. split; [done|]. intros a Ha. exists [], (Acted s (snd (m s))), [].
  split_and!; [done| |done]. simpl. rewrite <- Ha. by destruct (m s).
Qed.

Lemma checks_issue bundle_id id : checks (R := R) (issue_capability sc bundle_id id)
  (fun c l => exists b, in_order [saw (bundle_is id (Some b));
                                  did (fun _ s => capability_holds (sd_issued s) (sd_now s) c b id)] l).
Proof.
  unfold issue_capability. eapply checks_mono.
  - apply checks_bind; [apply checks_bundle_of|]. intros o. apply checks_perform.
  - intros c l (o & l1 & l2 & -> & Ho & (h1 & x & h2 & -> & Hx & _)). destruct x as [s s'|]; [|done].
    simpl in Hx. destruct (issue_aggregate_capability _ _ _ _ _ _ _) as [r issued] eqn:Ei.
    injection Hx as -> <-. apply issue_capability_holds in Ei as (b & -> & Hb & Hc). rewrite Hb in Ho.
    exists b. apply (in_order_app [_] [_]); [exact Ho|]. eexists h1, _, h2. by split_and!.
Qed.

Lemma checks_capability p : checks (R := R) (aggregate_capability_for sc p) (fun c l => capability_given p c l).
Proof.
  unfold aggregate_capability_for. eapply checks_mono.
  - apply checks_bind; [apply checks_bundle_of|]. intros o.
    instantiate (1 := fun o c l => match c with
      | Some c => exists b0 b, o = Some b0 /\ in_order [saw (bundle_is (pl_id p) (Some b));
          did (fun _ s => capability_holds (sd_issued s) (sd_now s) c b (pl_id p))] l
      | None => sc_execution_admission sc = true -> match o with Some b => has_member (pl_id p) b = false | None => True end
      end).
    destruct o as [b|]; [|by apply checks_ret].
    destruct (sc_execution_admission sc && has_member (pl_id p) b) eqn:E.
    + eapply checks_mono; [apply checks_bind; [apply checks_issue|intros c]|].
      { apply (checks_ret _ (fun x l => x = Some c /\ l = [])). done. }
      intros x l (c & l1 & l2 & -> & (b' & H) & -> & ->). rewrite app_nil_r. by exists b, b'.
    + apply checks_ret. intros Ha. by rewrite Ha in E.
  - intros c l (o & l1 & l2 & -> & Ho & H). unfold capability_given. destruct c as [c|].
    + destruct H as (b0 & b & -> & H). exists b0, b. destruct (sc_bundle_repository sc); [|done].
      by apply (in_order_app [_] [_; _]).
    + intros Hrepo Ha. rewrite Hrepo in Ho. specialize (H Ha). destruct o as [b|]; [|by apply in_order_after].
      exfalso. destruct Ho as (h1 & [s s'|] & h2 & _ & Hs & _); [|done]. apply get_for_plan_member in Hs. congruence.
Qed.

(** ** The methods that execute nothing *)

Tactic Notation "by_calls" reference(f) := intros; unfold f; quieten.

Lemma quiet_clock : quiet (R := R) clock.
Proof. by_calls clock. Qed.
#[local] Hint Resolve quiet_clock : quiet.
Lemma quiet_persisted_plan id : quiet (persisted_plan sc id).
Proof. by_calls persisted_plan. Qed.
Lemma quiet_bundle_of id : quiet (R := R) (bundle_of sc id).
Proof. by_calls bundle_of. Qed.
#[local] Hint Resolve quiet_persisted_plan quiet_bundle_of : quiet.
Lemma quiet_terminal_evidence id : quiet (terminal_plan_evidence sc id).
Proof. by_calls terminal_plan_evidence. Qed.
Lemma quiet_record_outcome id s es v : quiet (R := R) (record_outcome id s es v).
Proof. by_calls record_outcome. Qed.
#[local] Hint Resolve quiet_terminal_evidence quiet_record_outcome : quiet.
Lemma quiet_reconcile_scheduled id : quiet (reconcile_scheduled_plan sc id).
Proof. by_calls reconcile_scheduled_plan. Qed.
Lemma quiet_reconcile_inflight id b : quiet (reconcile_inflight_plan sc id b).
Proof. by_calls reconcile_inflight_plan. Qed.
Lemma quiet_settle_row id s : quiet (R := R) (settle_row id s).
Proof. by_calls settle_row. Qed.
#[local] Hint Resolve quiet_reconcile_scheduled quiet_reconcile_inflight quiet_settle_row : quiet.
Lemma quiet_complete id e : quiet (complete_scheduled_plan sc id e).
Proof. by_calls complete_scheduled_plan. Qed.
Lemma quiet_record_bundle p l : quiet (record_bundle_outcome (R := R) sc p l).
Proof. by_calls record_bundle_outcome. Qed.
Lemma quiet_refuse p : quiet (R := R) (refuse_dependent sc p).
Proof. by_calls refuse_dependent. Qed.
Lemma quiet_miss p : quiet (R := R) (miss sc p).
Proof. by_calls miss. Qed.
Lemma quiet_after_error p e : quiet (after_error (R := R) sc p e).
Proof. by_calls after_error. Qed.
Lemma quiet_reconcile_due p : quiet (reconcile_due sc p).
Proof. by_calls reconcile_due. Qed.
Lemma quiet_advance id rule t : quiet (R := R) (advance_schedule id rule t).
Proof. by_calls advance_schedule. Qed.
Lemma quiet_end id o : quiet (R := R) (end_schedule id o).
Proof. by_calls end_schedule. Qed.
#[local] Hint Resolve quiet_complete quiet_record_bundle quiet_refuse quiet_miss quiet_after_error
  quiet_reconcile_due quiet_advance quiet_end : quiet.

(** ** [run_due] *)

(** The plan is due; since the last execution its evidence and its
    predecessors' were read, in this order, and then its capability issued. *)
Record due_cleared (sweep_time : datetime) (p : Plan) (capability : option AggregateExecutionCapability)
    (l : happened) : Prop := {
  dc_due : exists t, pl_execute_at p = Some t /\ t <= sweep_time /\ sweep_time - t <= sc_grace_window sc;
  dc_checks : exists l1 l2 l3, l = l1 ++ l2 ++ l3 /\ in_order (evidence_checks p) l1 /\
    predecessors_seen p l2 /\ capability_given p capability l3
}.

Definition due_for (sweep_time : datetime) (p : Plan) (x : execution) (l : happened) : Prop :=
  let '(q, _, capability) := x in q = p /\ due_cleared sweep_time p capability l.

Lemma gated_execute_due sweep_time p t :
  pl_execute_at p = Some t -> t <= sweep_time -> sweep_time - t <= sc_grace_window sc ->
  gated (due_for sweep_time p) (fun _ => True) (execute_due sc p).
Proof.
  intros Ht H1 H2. unfold execute_due. eapply gated_checks; [apply checks_evidence|]. intros [].
  eapply gated_checks; [apply checks_gate|]. intros g.
  destruct (gr_allowed g) eqn:Ea; cbn [negb]; [|apply sweep_gated_quiet, quiet_refuse].
  eapply gated_checks; [apply checks_capability|]. intros c. apply gated_execute; [|intros; quieten].
  intros l (l1 & l3 & -> & (l0 & l2 & -> & (k0 & k1 & -> & _ & He) & Hp) & Hc). split; [done|]. split; [by exists t|].
  exists (k0 ++ k1), l2, l3. rewrite !app_assoc. split_and!; [done|by apply in_order_before|by apply Hp|done].
Qed.

Lemma gated_run_plan sweep_time p : gated (due_for sweep_time p) (fun _ => True) (run_plan sc sweep_time p).
Proof.
  unfold run_plan. destruct (pl_execute_at p) as [t|] eqn:Ht; [|by apply sweep_gated_quiet].
  destruct (t >? sweep_time) eqn:E1; [by apply sweep_gated_quiet|].
  eapply gated_checks; [apply checks_quiet, quiet_reconcile_due|]. intros [r|]; [by apply sweep_gated_quiet|].
  eapply gated_checks; [apply checks_quiet; unfold note_lateness; quieten|]. intros [].
  destruct (sweep_time - t >? sc_grace_window sc) eqn:E2; [apply sweep_gated_quiet, quiet_miss|].
  apply gated_attempt; [|intros; quieten]. eapply sweep_gated_mono; [by apply (gated_execute_due _ _ t); [|lia|lia]|done].
Qed.

(** C16: The scheduler hands a plan to the executor only through its gates,
    read in order since the execution before: whatever is answered and whatever
    others do at any await (those of the storage included), each execution a
    sweep asks for is of a plan that the sweep listed as pending, due and within
    the grace window; after the last execution the row of the plan was read
    pending with the very evidence (time, revision, window, validation) of the
    plan, then its record with the same, then its bundle and for each
    predecessor the intact evidence of a confirmed success that its own plan
    record bears out, command by command; and then, for a member of a bundle, a
    capability was issued that names it and its bundle and is alive at that
    moment, and the execution carries it. *)
Theorem due_execution_gated o n now s h1 p overrides capability r h2 :
  history_of o (run_due sc now) n s = h1 ++ Asked (ask_execute p overrides capability) r :: h2 ->
  exists s1 s2 h0 l, Acted s1 s2 ∈ h1 /\ p ∈ list_pending (sd_scheduled s1) /\ h1 = h0 ++ l /\
    executions l = [] /\ due_cleared (default (sd_now s) now) p capability l.
Proof.
  pose proof (does_sound _ _ o n s (clocked_sweep_cleared (fun s => list_pending (sd_scheduled s))
    (fun t => run_plan sc (default t now)) (fun t => due_for (default t now)) s
    (fun t p => gated_run_plan (default t now) p))) as H.
  intros E. destruct (H _ _ _ _ _ _ E) as (s1 & s2 & q & h0 & l & Hs & Hq & -> & Hl & -> & Hc).
  by exists s1, s2, h0, l.
Qed.

(** ** [run_due_recurring] *)

(** The stored authority covers the template and the rule, and is alive. *)
Definition authority_stands (commands : list Command) (rule : RecurrenceRule) (a : list (string * json))
    (now : datetime) : Prop :=
  a = [] \/ authority_matches commands rule a = true /\ authority_expired now a = false.

Definition in_flight (id : string) (s : S) : Prop :=
  exists q, port_get_plan id (sd_records s) = Ok (Some q) /\ pl_status q = PS_EXECUTING.
Definition not_in_flight (id : string) (s : S) : Prop :=
  exists o, port_get_plan id (sd_records s) = Ok o /\ (pl_status <$> o) <> Some PS_EXECUTING.
Definition unsettled (id : string) (s s' : S) : Prop :=
  port_mark_unknown id None (sd_records s) = (Ok false, sd_records s').
Definition not_ended (id : string) (s : S) : Prop :=
  exists o, port_get_plan id (sd_records s) = Ok o /\
    forall q, o = Some q -> schedule_status_for_plan (pl_status q) = None.

(** No run of the occurrence is in flight, or its record could not be settled. *)
Definition flight_checked (id : string) (l : happened) : Prop :=
  sc_plan_repository sc = true ->
  in_order [saw (not_in_flight id)] l \/ in_order [saw (in_flight id); did (unsettled id)] l.
(** None came to an end. *)
Definition end_checked (id : string) (l : happened) : Prop :=
  sc_plan_repository sc = true -> in_order [saw (not_ended id)] l.

(** An occurrence that is due, of a schedule within its rule; since the last
    execution its authority, then its record, and then its plan were checked. *)
Record occurrence_cleared (sweep_time : datetime) (entry : string * list Command * RecurrenceRule * datetime)
    (x : execution) (l : happened) : Prop := {
  oc_ready : let '(p, overrides, capability) := x in
    pl_status p = PS_READY /\ overrides = None /\ capability = None;
  oc_due : let '(id, commands, rule, execute_at) := entry in
    execute_at <= sweep_time /\ forall e, rec_expires_at rule = Some e -> execute_at <= e /\ sweep_time < e;
  oc_checks : let '(id, commands, rule, execute_at) := entry in
    exists a t l1 l2 l3 l4, l = l1 ++ l2 ++ l3 ++ l4 /\
      let draft := occurrence_plan t id commands rule execute_at in
      in_order [saw (fun s => get_authority (sd_recurring s) id = a);
                saw (fun s => authority_stands commands rule (default [] a) (sd_now s));
                saw (fun s => sd_now s = t)] l1 /\
      flight_checked (pl_id draft) l2 /\ end_checked (pl_id draft) l3 /\
      in_order [saw (fun s => validate (sd_service s) (sd_now s) draft = Ok x.1.1)] l4
}.

Lemma checks_reconcile_inflight id : checks (reconcile_inflight_plan sc id false)
  (fun b l => b = false -> flight_checked id l).
Proof.
  unfold reconcile_inflight_plan. eapply checks_mono.
  - apply checks_bind; [apply checks_persisted_plan|]. intros o.
    instantiate (1 := fun o b l => b = false -> (pl_status <$> o) <> Some PS_EXECUTING \/
      (pl_status <$> o) = Some PS_EXECUTING /\ in_order [did (unsettled id)] l).
    case_bool_decide as E; cbn [negb]; [|apply checks_ret; by left]. eapply checks_mono.
    + apply checks_bind; [apply checks_db|]. intros m.
      instantiate (1 := fun m b _ => b = false -> m = false). destruct m; cbn [negb]; [|by apply checks_ret].
      eapply checks_mono; [apply checks_bind; [by apply (checks_ret _ (fun _ _ => True))|]|].
      * intros b. instantiate (1 := fun _ b _ => b = true).
        eapply checks_mono; [apply checks_bind; [apply checks_raise_when|intros u; by apply (checks_ret _ (fun b _ => b = true))]|].
        by intros b' l (u & l1 & l2 & _ & _ & H).
      * by intros b l (m & l1 & l2 & _ & _ & ->).
    + intros b l (m & l1 & l2 & -> & Hm & H) Hb. specialize (H Hb). subst m. right. split; [done|].
      apply in_order_after. eapply in_order_mono; [|exact Hm]. intros [s s'|]; [|done]. simpl.
      destruct (port_mark_unknown id None (sd_records s)) as [r t] eqn:Em. intros [= -> <-]. exact Em.
  - intros b l (o & l1 & l2 & -> & Ho & H) Hb Hrepo. rewrite Hrepo in Ho. destruct (H Hb) as [Hn|[Hf Hu]].
    + left. apply in_order_after. eapply in_order_mono; [|exact Ho]. intros [s s'|]; [|done]. by exists o.
    + right. apply (in_order_app [_] [_]); [|exact Hu]. eapply in_order_mono; [|exact Ho].
      intros [s s'|]; [|done]. intros Hs. destruct o as [q|]; [|done]. injection Hf as Hf. by exists q.
Qed.

Lemma checks_terminal_evidence id : checks (terminal_plan_evidence sc id)
  (fun e l => e = None -> end_checked id l).
Proof.
  unfold terminal_plan_evidence. eapply checks_mono.
  - apply checks_bind; [apply checks_persisted_plan|]. intros o.
    by apply (checks_ret _ (fun e _ => e = (o ≫= fun p =>
      (fun s => (pl_status p, s)) <$> schedule_status_for_plan (pl_status p)))).
  - intros e l (o & l1 & l2 & -> & Ho & ->) Hn Hrepo. rewrite Hrepo in Ho. apply in_order_after.
    eapply in_order_mono; [|exact Ho]. intros [s s'|]; [|done]. intros Hs. exists o. split; [exact Hs|].
    intros q ->. simpl in Hn. by destruct (schedule_status_for_plan (pl_status q)).
Qed.

(** A cleared stretch is followed by its validation and its execution. *)
Lemma gated_run_validated cleared (P : happened -> Prop) draft :
  (forall p l1 l2, P l1 -> pl_status p = PS_READY ->
     in_order [saw (fun s => validate (sd_service s) (sd_now s) draft = Ok p)] l2 ->
     cleared (p, None, None) (l1 ++ l2)) ->
  gated cleared P (run_validated (R := R) draft).
Proof.
  intros HP. unfold run_validated. apply gated_look. intros s.
  eapply gated_checks; [apply checks_of_result|]. intros p.
  case_bool_decide as Hready; [|by apply sweep_gated_quiet]. apply gated_execute; [|intros; quieten].
  intros l (l1 & l2 & -> & (k1 & k2 & -> & Hk & <-) & -> & Hv). rewrite app_nil_r. apply HP; [done..|].
  by exists [], (Acted s s), [].
Qed.

Lemma gated_run_occurrence cleared (P : happened -> Prop) id rule sweep_time draft :
  (forall p l1 l2 l3 l4, P l1 -> flight_checked (pl_id draft) l2 -> end_checked (pl_id draft) l3 ->
     in_order [saw (fun s => validate (sd_service s) (sd_now s) draft = Ok p)] l4 -> pl_status p = PS_READY ->
     cleared (p, None, None) (l1 ++ l2 ++ l3 ++ l4)) ->
  gated cleared P (run_occurrence sc id rule sweep_time draft).
Proof.
  intros HP. unfold run_occurrence. eapply gated_checks; [apply checks_reconcile_inflight|]. intros [];
    [apply sweep_gated_quiet; quieten|].
  eapply gated_checks; [apply checks_terminal_evidence|]. intros [e|]; [apply sweep_gated_quiet; quieten|].
  apply gated_after; [|intros; quieten]. apply gated_run_validated.
  intros p l l4 (l' & l3 & -> & (l1 & l2 & -> & H1 & H2) & H3) Hready H4. rewrite <- !app_assoc. by apply HP; auto.
Qed.

Lemma gated_run_recurring sweep_time entry :
  gated (occurrence_cleared sweep_time entry) (fun _ => True) (run_recurring sc sweep_time entry).
Proof.
  destruct entry as [[[id commands] rule] execute_at]. unfold run_recurring.
  eapply gated_checks; [apply checks_query|]. intros authority. eapply gated_checks; [apply checks_clock|]. intros t.
  set (a := default [] authority).
  destruct (negb (bool_decide (a = [])) && negb (authority_matches commands rule a)) eqn:E1;
    [apply sweep_gated_quiet, quiet_end|].
  destruct (authority_expired t a) eqn:E2; [apply sweep_gated_quiet, quiet_end|].
  unfold run_schedule_at.
  destruct (match rec_expires_at rule with Some _ => _ | None => _ end) eqn:E3; [apply sweep_gated_quiet, quiet_end|].
  destruct (execute_at >? sweep_time) eqn:E4; [by apply sweep_gated_quiet|].
  eapply gated_checks; [apply checks_clock|]. intros t'. eapply gated_checks; [apply checks_of_result|]. intros [].
  apply gated_attempt; [|intros; quieten]. apply gated_run_occurrence.
  intros p l l2 l3 l4 (k & k' & -> & (k1 & k2 & -> & (k3 & k4 & -> & (k5 & k6 & -> & _ & Ha) & Ht) & Ht') & -> & _) H2 H3 H4 Hready.
  split; [done| |].
  - split; [lia|]. intros e He. rewrite He in E3. lia.
  - exists authority, t', ((((k5 ++ k6) ++ k4) ++ k2) ++ []), l2, l3, l4. split; [done|]. cbv zeta. split; [|done].
    apply in_order_after. apply (in_order_app [_; _] [_]); [|exact Ht'].
    apply (in_order_app [_] [_]); [|].
    + apply in_order_before. eapply in_order_mono; [|exact Ha]. intros [s s'|]; [|done]. by intros [= H].
    + eapply in_order_mono; [|exact Ht]. intros [s s'|]; [|done]. simpl. intros ->. unfold authority_stands. fold a.
      destruct (decide (a = [])) as [->|Hne]; [by left|right]. split; [|exact E2].
      rewrite (bool_decide_eq_false_2 _ Hne) in E1. simpl in E1. by apply negb_false_iff.
Qed.

(** C17: A recurring schedule runs only where it may, its gates read in order
    since the execution before: whatever is answered and whatever others do at
    any await, each execution a sweep asks for is an occurrence of a schedule
    that the sweep listed as active, due and not past the end of its rule.
    After the last execution the authority stored with the schedule was read,
    and there was none or it named this template and rule and was alive at that
    moment; then, with a plan repository, no run of the very occurrence was
    recorded as in flight (or one was that the repository refused to settle as
    unknown), and then none that ended; and then validation of the occurrence
    as it was at that moment made the plan that is executed, ready without
    confirmation. *)
Theorem occurrence_execution_gated o n now s h1 p overrides capability r h2 :
  history_of o (run_due_recurring sc now) n s = h1 ++ Asked (ask_execute p overrides capability) r :: h2 ->
  exists s1 s2 entry h0 l, Acted s1 s2 ∈ h1 /\ entry ∈ list_active (sd_recurring s1) /\ h1 = h0 ++ l /\
    executions l = [] /\ occurrence_cleared (default (sd_now s) now) entry (p, overrides, capability) l.
Proof.
  unfold run_due_recurring. destruct (sc_recurring_repository sc); cbn [negb]; [|intros E; by destruct h1].
  pose proof (does_sound _ _ o n s (clocked_sweep_cleared (fun s => list_active (sd_recurring s))
    (fun t => run_recurring sc (default t now)) (fun t => occurrence_cleared (default t now)) s
    (fun t => gated_run_recurring (default t now)))) as H.
  intros E. exact (H _ _ _ _ _ _ E).
Qed.
End Gates.

(** ** Witnesses: the lamp at six, and at night *)

#[local] Existing Instance example_canonical.

Definition six_history : list (happening Home scheduler_call) :=
  history_of (home_oracle id) (run_due home_scheduler None) 0 after_six.
Definition night_history : list (happening Home scheduler_call) :=
  history_of (home_oracle cancel_second) (run_due_recurring home_scheduler None) 0 night.

Lemma some_execution {X} (f : execution -> X) (h : list (happening Home scheduler_call)) i x :
  List.nth_error (map f (executions h)) i = Some x ->
  exists p overrides capability, (p, overrides, capability) ∈ executions h /\ f (p, overrides, capability) = x.
Proof.
  intros H%nth_error_In. apply list_elem_of_In, list_elem_of_fmap in H as ([[p o] c] & -> & H). by exists p, o, c.
Qed.

Lemma due_execution_gated_witness : exists h1 p overrides capability r h2,
  six_history = h1 ++ Asked (ask_execute p overrides (Some capability)) r :: h2 /\ pl_id p = "plan-1" /\
  exists s1 s2 h0 l, Acted s1 s2 ∈ h1 /\ p ∈ list_pending (sd_scheduled s1) /\ h1 = h0 ++ l /\
    executions l = [] /\ due_cleared home_scheduler (six + seconds 10) p (Some capability) l.
Proof.
  assert (List.nth_error (map (fun x => (pl_id x.1.1, opt_bool x.2)) (executions six_history)) 0 = Some ("plan-1", true)) as H
    by (vm_compute; reflexivity).
  apply some_execution in H as (p & overrides & capability & H & Hx). injection Hx as Hid Hc.
  destruct capability as [capability|]; [|discriminate].
  apply executions_split in H as (h1 & r & h2 & E). exists h1, p, overrides, capability, r, h2.
  split; [exact E|]. split; [exact Hid|].
  exact (due_execution_gated home_scheduler (home_oracle id) 0 None after_six h1 p overrides (Some capability) r h2 E).
Defined.

Lemma occurrence_execution_gated_witness : exists h1 p overrides capability r h2,
  night_history = h1 ++ Asked (ask_execute p overrides capability) r :: h2 /\
  pl_id p = "b@" +:+ utc_text (minutes 3) /\
  exists s1 s2 entry h0 l, Acted s1 s2 ∈ h1 /\ entry ∈ list_active (sd_recurring s1) /\ h1 = h0 ++ l /\
    executions l = [] /\ occurrence_cleared home_scheduler (minutes 4) entry (p, overrides, capability) l.
Proof.
  assert (List.nth_error (map (fun x => pl_id x.1.1) (executions night_history)) 1 = Some ("b@" +:+ utc_text (minutes 3))) as H
    by (vm_compute; reflexivity).
  apply some_execution in H as (p & overrides & capability & H & Hid).
  apply executions_split in H as (h1 & r & h2 & E). exists h1, p, overrides, capability, r, h2.
  split; [exact E|]. split; [exact Hid|].
  exact (occurrence_execution_gated home_scheduler (home_oracle cancel_second) 0 None night h1 p overrides capability r h2 E).
Defined.
