(* ===== verification/SchedulerOutcomes.v ===== *)
(** * What a sweep leaves of a recurring schedule

    A recurring schedule whose occurrence was handled has moved on, and one
    that cannot run any more has ended: the last step of the sweep on it, after
    any execution, wrote so. *)

From S2P Require Import Prelude.
From S2P Require Import Values.
From S2P Require Import Models.
From S2P Require Import Digests.
From S2P Require Import ApprovalStore.
From S2P Require Import PlanService.
From S2P Require Import Admission.
From S2P Require Import PlanRecords.
From S2P Require Import Coroutines.
From S2P Require Import Projection.
From S2P Require Import Recurrence.
From S2P Require Import Zones.
From S2P Require Import ScheduleRecords.
From S2P Require Import BundleRecords.
From S2P Require Import Scheduler.
From S2P Require Import LampSchedule.
From S2P Require Import SchedulerSafety.

Section Results.
Context {R : Type}.
Abbreviation S := (Scheduling (R := R)).
Abbreviation C := (coro S scheduler_call).
Abbreviation happened := (list (happening S scheduler_call)).

(** ** The end of a method

    [c] answers [a] only at the end of a stretch with [Q a], after its last
    execution. *)
Definition ends_with {A} (c : C A) (Q : A -> happened -> Prop) : Prop :=
  does (fun _ => True) c (fun r l _ => forall a, r = Ok a ->
    exists l1 l2, l = l1 ++ l2 /\ executions l2 = [] /\ Q a l2).

Lemma ends_checks {A} (c : C A) Q : checks c Q -> ends_with c Q.
Proof.
  intros H. eapply does_conseq; [exact H|done|]. intros r l s [Hl HQ] a Ha. exists [], l. auto.
Qed.
Lemma ending_bind {A B} (c : C A) (f : A -> C B) (V : A -> Prop) Q :
  does (fun _ => True) c (fun r _ _ => forall a, r = Ok a -> V a) -> (forall a, V a -> ends_with (f a) Q) ->
  ends_with (c ≫= f) Q.
Proof.
  intros Hc Hf. eapply does_bind with (M := fun a _ _ => V a).
  { eapply does_conseq; [exact Hc|done|]. intros [a|e] l s H; [by apply H|by intros ? [=]]. }
  intros a l s Ha. eapply does_conseq; [by apply Hf|done|]. intros r l2 s' H b Hb.
  destruct (H b Hb) as (k1 & k2 & -> & Hk & HQ). exists (l ++ k1), k2. by rewrite app_assoc.
Qed.
Lemma ends_after {A B} (c : C A) (f : A -> C B) Q : (forall a, ends_with (f a) Q) -> ends_with (c ≫= f) Q.
Proof.
  intros Hf. apply (ending_bind _ _ (fun _ => True)); [|auto].
  eapply does_conseq; [apply (does_avoids (fun _ _ _ => @None unit) (fun _ => True))|done|done].
  induction c; simpl; auto.
Qed.
Lemma ending_mono {A} (c : C A) (Q Q' : A -> happened -> Prop) :
  ends_with c Q -> (forall a l, Q a l -> Q' a l) -> ends_with c Q'.
Proof.
  intros H HQ. eapply does_conseq; [exact H|done|]. intros r l s Hr a Ha.
  destruct (Hr a Ha) as (l1 & l2 & -> & Hl & Hq). exists l1, l2. auto.
Qed.

(** Or it fails. *)
Lemma ends_attempt {A B} (c : C A) (g : result exn A -> B) Q :
  ends_with c (fun a l => Q (g (Ok a)) l) -> (forall e, Q (g (Err e)) []) ->
  ends_with (r ← coro_attempt c; mret (g r)) Q.
Proof.
  intros Hc He. eapply does_bind with (M := fun r l _ => exists l1 l2, l = l1 ++ l2 /\ executions l2 = [] /\ Q (g r) l2).
  - apply does_attempt. eapply does_conseq; [exact Hc|done|]. intros [a|e] l s H; [by apply H|].
    destruct (is_exception e); [|by intros ? [=]]. exists l, []. by rewrite app_nil_r.
  - intros r l s (l1 & l2 & -> & Hl & HQ). apply does_ret. intros s' _ b [= <-]. exists l1, l2. by rewrite app_nil_r.
Qed.

Context `{CJ : Canonical} `{RN : Rendering} `{PY : Interpreter} `{!PlanRecordPort R}.
Context (sc : Scheduler).

(** ** The step that settles a schedule *)

(** The reports of a schedule that is over. *)
Definition ended_schedule : list string := ["expired"; "authority_rejected"; "authority_expired"].

(** The row, if there is one, is not active any more; the others stay. *)
Definition schedule_ended (id : string) (s s' : S) : Prop :=
  (forall row, od_get id (sd_recurring s') = Some row -> rr_active row = false) /\
  forall k, k <> id -> od_get k (sd_recurring s') = od_get k (sd_recurring s).
(** The row, if it is active, waits for [next]; the others stay. *)
Definition schedule_waits (id : string) (next : datetime) (s s' : S) : Prop :=
  (forall row, od_get id (sd_recurring s') = Some row -> rr_active row = true -> rr_next_execute_at row = next) /\
  (rr_active <$> od_get id (sd_recurring s')) = (rr_active <$> od_get id (sd_recurring s)) /\
  forall k, k <> id -> od_get k (sd_recurring s') = od_get k (sd_recurring s).

Lemma cancel_ends id t r t' : cancel_recurring_row id t = (Ok r, t') ->
  (forall row, od_get id t' = Some row -> rr_active row = false) /\ forall k, k <> id -> od_get k t' = od_get k t.
Proof.
  unfold cancel_recurring_row. rewrite stm_bind_get. destruct (od_get id t) as [row|] eqn:E.
  - destruct (rr_active row) eqn:Ea.
    + intros [= _ <-]. split; [|intros k Hk; by rewrite od_get_set_ne]. intros row'. rewrite od_get_set_eq.
      by intros [= <-].
    + intros [= _ <-]. split; [|done]. rewrite E. by intros row' [= <-].
  - intros [= _ <-]. split; [|done]. by rewrite E.
Qed.
Lemma advance_waits id next t : forall t', snd (advance_recurring id next t) = t' ->
  (forall row, od_get id t' = Some row -> rr_active row = true -> rr_next_execute_at row = next) /\
  (rr_active <$> od_get id t') = (rr_active <$> od_get id t) /\ forall k, k <> id -> od_get k t' = od_get k t.
Proof.
  intros t' <-. simpl. destruct (od_get id t) as [row|] eqn:E; [|rewrite E; split_and!; done].
  destruct (rr_active row) eqn:Ea.
  - rewrite od_get_set_eq. split_and!; [|by simpl; rewrite Ea|]; [by intros row' [= <-]|].
    intros k Hk. by rewrite od_get_set_ne.
  - rewrite E. split_and!; [|done|done]. intros row' [= <-]. congruence.
Qed.

Definition ended_last (id : string) (l : happened) : Prop := in_order [did (schedule_ended id)] l.
Definition waits_last (id : string) (rule : RecurrenceRule) (sweep_time : datetime) (l : happened) : Prop :=
  exists next, next_occurrence zone_info rule sweep_time = Ok next /\ in_order [did (schedule_waits id next)] l.

Lemma checks_end_schedule id o : checks (R := R) (end_schedule id o) (fun x l => x = Some (id, o) /\ ended_last id l).
Proof.
  unfold end_schedule. eapply checks_mono.
  - apply checks_bind; [apply checks_db|]. intros b. by apply (checks_ret _ (fun x l => x = Some (id, o) /\ l = [])).
  - intros x l (b & l1 & l2 & -> & H & -> & ->). split; [done|]. rewrite app_nil_r.
    eapply in_order_mono; [|exact H]. intros [s s'|]; [|done]. simpl.
    destruct (cancel_recurring_row id (sd_recurring s)) as [r t] eqn:E. intros [= -> <-]. exact (cancel_ends _ _ _ _ E).
Qed.

Lemma checks_advance id rule t : checks (R := R) (advance_schedule id rule t) (fun _ l => waits_last id rule t l).
Proof.
  unfold advance_schedule. eapply checks_mono.
  - apply checks_bind; [apply checks_of_result|]. intros next. apply checks_db.
  - intros u l (next & l1 & l2 & -> & [-> Hn] & H). exists next. split; [done|].
    apply in_order_before. eapply in_order_mono; [|exact H]. intros [s s'|]; [|done]. simpl.
    intros E. injection E as E. subst s'. exact (advance_waits id next (sd_recurring s) _ eq_refl).
Qed.

(** ** The sweep of one schedule *)

(** What a report means: an error says nothing. *)
Definition settled (id : string) (rule : RecurrenceRule) (sweep_time : datetime)
    (x : option (string * string)) (l : happened) : Prop :=
  match x with
  | None => True
  | Some (id', o) => id' = id /\
      (o = "error" \/ o ∈ ended_schedule /\ ended_last id l \/ o ∉ ended_schedule /\ waits_last id rule sweep_time l)
  end.

Lemma summary_handled outcomes : fst (project_execution_summary outcomes) ∉ ended_schedule.
Proof. apply (bool_decide_unpack _). unfold project_execution_summary. by repeat case_match. Qed.

Lemma run_validated_handled p : does (fun _ => True) (run_validated (R := R) p)
  (fun r _ _ => forall o, r = Ok o -> o ∉ ended_schedule).
Proof.
  unfold run_validated. apply does_look. intros s _.
  eapply does_bind with (M := fun _ _ _ => True); [destruct (validate _ _ _); [by apply does_ret|by apply does_raise]|].
  intros v l s1 _. case_bool_decide.
  - eapply does_bind with (M := fun _ _ _ => True); [apply does_await; by intros []|].
    intros outcomes l2 s2 _. apply does_ret. intros s3 _ o [= <-]. apply summary_handled.
  - apply does_ret. intros s3 _ o [= <-]. by apply (bool_decide_unpack _).
Qed.

Lemma ends_run_occurrence id rule sweep_time p : ends_with (run_occurrence sc id rule sweep_time p)
  (fun o l => o ∉ ended_schedule /\ waits_last id rule sweep_time l).
Proof.
  assert (forall o, o ∉ ended_schedule -> ends_with (advance_schedule id rule sweep_time ≫= fun _ => mret o)
    (fun o l => o ∉ ended_schedule /\ waits_last id rule sweep_time l)) as H.
  { intros o Ho. apply ends_checks. eapply checks_mono.
    - apply checks_bind; [apply checks_advance|]. intros u. by apply (checks_ret _ (fun x l => x = o /\ l = [])).
    - intros x l (u & l1 & l2 & -> & Hw & -> & ->). by rewrite app_nil_r. }
  unfold run_occurrence. apply ends_after. intros [].
  - apply H. by apply (bool_decide_unpack _).
  - apply ends_after. intros [e|]; [apply H; by apply (bool_decide_unpack _)|].
    eapply ending_bind; [apply run_validated_handled|]. intros o Ho. by apply H.
Qed.

Lemma ends_run_recurring id commands rule execute_at sweep_time :
  ends_with (run_recurring sc sweep_time (id, commands, rule, execute_at)) (settled id rule sweep_time).
Proof.
  assert (forall o, o ∈ ended_schedule -> ends_with (end_schedule (R := R) id o) (settled id rule sweep_time)) as H.
  { intros o Ho. eapply ending_mono; [apply ends_checks, checks_end_schedule|]. intros x l [-> Hl]. simpl. auto. }
  unfold run_recurring. apply ends_after. intros a. apply ends_after. intros t.
  destruct (_ && _); [apply H; by apply (bool_decide_unpack _)|].
  destruct (authority_expired _ _); [apply H; by apply (bool_decide_unpack _)|].
  unfold run_schedule_at.
  destruct (match rec_expires_at rule with Some _ => _ | None => _ end); [apply H; by apply (bool_decide_unpack _)|].
  destruct (execute_at >? sweep_time); [by apply ends_checks, checks_ret|].
  apply ends_after. intros t'. apply ends_after. intros [].
  apply (ends_attempt _ (fun r => Some (id, match r with Ok o => o | Err _ => "error" end))).
  - eapply ending_mono; [apply ends_run_occurrence|]. intros o l [Ho Hl]. simpl. auto.
  - intros e. simpl. auto.
Qed.

(** C18: An occurrence is not due twice: whatever is answered and whatever
    others do at any await, when the sweep of a recurring schedule reports
    anything but an error, there is a step after which it asked for no
    execution and that settled the row of this schedule, and of no other.
    Reported as expired or with its authority rejected or expired, the row is
    not active any more; otherwise (handled, whatever came of it) the row, if
    it is active, waits for the first occurrence of its rule after the sweep,
    which is later than the sweep unless the clock read that hour for the
    second time (in a regular time zone, for a valid rule and a sweep the
    calendar has years after). *)
Theorem recurring_moves_on o n sweep_time id commands rule execute_at s id' outcome n' s' z :
  run o (run_recurring sc sweep_time (id, commands, rule, execute_at)) n s = (Ok (Some (id', outcome)), n', s') ->
  outcome <> "error" ->
  zone_info (rec_timezone rule) = Ok z -> zone_regular z -> validate_rule rule = Ok tt -> searchable sweep_time ->
  id' = id /\ exists h1 s1 s2 h2,
    history_of o (run_recurring sc sweep_time (id, commands, rule, execute_at)) n s = h1 ++ Acted s1 s2 :: h2 /\
    executions h2 = [] /\
    if bool_decide (outcome ∈ ended_schedule) then schedule_ended id s1 s2
    else exists next, schedule_waits id next s1 s2 /\ next_occurrence zone_info rule sweep_time = Ok next /\
           (fold_at z sweep_time = false -> sweep_time < next).
Proof.
  intros Hrun Hout Hi Hz Hv Hs.
  pose proof (does_sound _ _ o n s (does_conseq (fun _ => True) (fun s' => s' = s) _ _ _
    (ends_run_recurring id commands rule execute_at sweep_time) (fun _ _ => I) (fun _ _ _ H => H))) as H.
  cbv beta in H. rewrite Hrun in H. destruct (H _ eq_refl) as (l1 & l2 & -> & Hl & -> & Hset). split; [done|].
  assert (forall P : S -> S -> Prop, in_order [did P] l2 -> exists h1 s1 s2 h2,
    l1 ++ l2 = h1 ++ Acted s1 s2 :: h2 /\ executions h2 = [] /\ P s1 s2) as Hstep.
  { intros P (k1 & [s1 s2|] & k2 & -> & HP & _); [|done]. exists (l1 ++ k1), s1, s2, k2.
    rewrite <- app_assoc. split_and!; [done| |exact HP]. rewrite sweep_executions_app in Hl. by apply app_eq_nil in Hl as [_ ?]. }
  destruct Hset as [?|[[Ho Hlast]|[Ho (next & Hn & Hlast)]]]; [done|..].
  - rewrite bool_decide_eq_true_2 by done. by apply Hstep.
  - rewrite bool_decide_eq_false_2 by done. destruct (Hstep _ Hlast) as (h1 & s1 & s2 & h2 & E & Hh & Hw).
    exists h1, s1, s2, h2. split_and!; [done|done|]. exists next. split_and!; [done|done|]. intros Hf.
    pose proof (next_occurrence_after zone_info rule sweep_time z Hi Hz Hv Hs Hf) as (t & Ht & Hlt). congruence.
Qed.
End Results.

(** ** Witness: the schedules of the night *)

#[local] Existing Instance example_canonical.

Lemma recurring_moves_on_witness : exists h1 s1 s2 h2 next,
  history_of (home_oracle id) (run_recurring home_scheduler (minutes 4)
    ("a", [example_lamp_command "turn_on"], nightly, minutes 2)) 0 night = h1 ++ Acted s1 s2 :: h2 /\
  executions h2 = [] /\ schedule_waits "a" next s1 s2 /\
  next_occurrence zone_info nightly (minutes 4) = Ok next /\
  (fold_at Madrid (minutes 4) = false -> minutes 4 < next).
Proof.
  destruct (run (home_oracle id) (run_recurring home_scheduler (minutes 4)
    ("a", [example_lamp_command "turn_on"], nightly, minutes 2)) 0 night) as [[r n'] s'] eqn:E.
  assert (r = Ok (Some ("a", "executed"))) as Hr.
  { change r with (fst (fst (r, n', s'))). rewrite <- E. vm_compute. reflexivity. }
  subst r.
  destruct (recurring_moves_on home_scheduler (home_oracle id) 0 (minutes 4) "a" [example_lamp_command "turn_on"]
    nightly (minutes 2) night "a" "executed" n' s' Madrid E) as [_ (h1 & s1 & s2 & h2 & Hh & Hl & Hs)].
  - discriminate.
  - reflexivity.
  - vm_compute. repeat split; discriminate.
  - reflexivity.
  - vm_compute. split; [discriminate|reflexivity].
  - destruct Hs as (next & Hw & Hn & Hlt). exists h1, s1, s2, h2, next. auto.
Defined.
