(* ===== verification/CommitService.v ===== *)
(** * The commit of a bundle (application/bundle_commit.py)

    [BundleCommitService]: every member is checked, the bundle is stored, its
    approvals are reserved and then consumed, the members that are due are
    executed one after the other and the others are scheduled.  [commit] is a
    coroutine: it yields whenever it asks the storage for a call of a
    repository ([ask_storage]; the answer may be an exception) and while the
    executor runs a member ([ask_member]); the plan service and the in-process
    ledger of approvals answer at once.  The audit log and the metrics are
    output and left out. *)

From S2P Require Import Prelude.
From S2P Require Import Values.
From S2P Require Import Models.
From S2P Require Import Registry.
From S2P Require Import StateStore.
From S2P Require Import Digests.
From S2P Require Import ApprovalStore.
From S2P Require Import PlanService.
From S2P Require Import Admission.
From S2P Require Import PlanRecords.
From S2P Require Import Coroutines.
From S2P Require Import Projection.
From S2P Require Import ScheduleRecords.
From S2P Require Import BundleRecords.
From S2P Require Import Scheduler.

(** ** The request *)

Record BundleCommitRequestMember := mkRequestMember {
  rm_plan_id : string;
  rm_validation_digest : string;
  rm_execute_at : option datetime;
  rm_execute_tz : option string;
  rm_approval_id : option string;
  rm_predecessor_plan_id : option string;
  rm_predecessor_plan_ids : list string
}.
#[global] Instance BundleCommitRequestMember_eta : Eta BundleCommitRequestMember := fun r =>
  mkRequestMember (rm_plan_id r) (rm_validation_digest r) (rm_execute_at r) (rm_execute_tz r)
    (rm_approval_id r) (rm_predecessor_plan_id r) (rm_predecessor_plan_ids r).
#[global] Instance BundleCommitRequestMember_eq_dec : EqDecision BundleCommitRequestMember.
Proof. solve_decision. Defined.

Record BundleCommitRequest := mkRequest {
  rq_bundle_digest : string;
  rq_scenario_id : string;
  rq_members : list BundleCommitRequestMember
}.

(** A member with its index and its plan. *)
Abbreviation entry := (nat * BundleCommitRequestMember * Plan)%type.

(** The fields and [validate_timestamp], which rewrites the predecessors. *)
Definition new_request_member (m : BundleCommitRequestMember) : result exn BundleCommitRequestMember :=
  raise_if (is_empty (rm_plan_id m) || is_empty (rm_validation_digest m) ||
            Nat.ltb 50 (List.length (rm_predecessor_plan_ids m)))
    (ValueError "invalid bundle member") ≫= fun _ =>
  let ids := dedup (rm_predecessor_plan_ids m) in
  let normalized :=
    match rm_predecessor_plan_id m with
    | Some p => if bool_decide (p ∈ ids) then ids else p :: ids
    | None => ids
    end in
  raise_if (existsb is_blank normalized)
    (ValueError "predecessor plan IDs must be non-empty") ≫= fun _ =>
  Ok (m <| rm_predecessor_plan_ids := normalized |>).

Definition new_request (digest scenario : string) (members : list BundleCommitRequestMember)
    : result exn BundleCommitRequest :=
  members ← result_map new_request_member members;
  raise_if (is_empty digest || is_empty scenario || bool_decide (members = []) ||
            Nat.ltb 50 (List.length members))
    (ValueError "invalid bundle request") ≫= fun _ =>
  Ok (mkRequest digest scenario members).

Definition request_member_payload `{CJ : Canonical} (m : BundleCommitRequestMember) : json :=
  JObj ([("plan_id", JStr (rm_plan_id m)); ("validation_digest", JStr (rm_validation_digest m));
         ("execute_at", json_opt_str ((fun t => isoformat t (rm_execute_tz m)) <$> rm_execute_at m))] ++
        if bool_decide (rm_predecessor_plan_ids m = []) then []
        else [("predecessor_plan_ids", json_strings (rm_predecessor_plan_ids m))]).

Definition bundle_approval_digest `{CJ : Canonical} (scenario : string)
    (members : list BundleCommitRequestMember) : string :=
  digest_ascii (JObj [("schema", JStr "bundle-approval-v1"); ("scenario_id", JStr scenario);
                      ("members", JList (map request_member_payload members))]).

(** ** The service *)

Record BundleCommitService := mkBundleCommitService {
  bs_plan_repository : bool;
  bs_execution_admission : bool
}.

Inductive commit_call : Type -> Type :=
  | ask_storage : commit_call unit
  | ask_member (p : Plan) (overrides : option (gmap string Z))
      (capability : AggregateExecutionCapability) : commit_call (list ExecutionOutcome).

Section Commit.
Context {R : Type}.

(** The plans in memory, the ledger of approvals, the tables, the plan
    service, the capabilities issued and the clock; [cm_draws] counts what was
    drawn at random. *)
Record Committing := mkCommitting {
  cm_now : datetime;
  cm_draws : nat;
  cm_plans : gmap string Plan;
  cm_approvals : ApprovalStore;
  cm_scheduled : scheduled_plans;
  cm_bundles : bundle_commits;
  cm_records : R;
  cm_service : PlanService;
  cm_issued : issued_capabilities
}.
#[global] Instance Committing_eta : Eta Committing := fun r =>
  mkCommitting (cm_now r) (cm_draws r) (cm_plans r) (cm_approvals r) (cm_scheduled r) (cm_bundles r)
    (cm_records r) (cm_service r) (cm_issued r).

Abbreviation C := (coro Committing commit_call).

(** A call of a repository, on the thread of the storage. *)
Definition storage {A} (m : stm Committing exn A) : C A :=
  await ask_storage ≫= fun _ => perform m.

Definition on_ledger {A} (m : stm ApprovalStore exn A) : stm Committing exn A := fun s =>
  let '(r, t) := m (cm_approvals s) in (r, s <| cm_approvals := t |>).
Definition on_bundle_table {A} (m : datetime -> stm bundle_commits exn A) : stm Committing exn A := fun s =>
  let '(r, t) := m (cm_now s) (cm_bundles s) in (r, s <| cm_bundles := t |>).
Definition on_schedule_table {A} (m : stm scheduled_plans exn A) : stm Committing exn A := fun s =>
  let '(r, t) := m (cm_scheduled s) in (r, s <| cm_scheduled := t |>).
Definition on_plan_records {A} (m : stm R exn A) : stm Committing exn A := fun s =>
  let '(r, t) := m (cm_records s) in (r, s <| cm_records := t |>).
Definition on_both_tables {A} (m : datetime -> stm (scheduled_plans * bundle_commits) exn A)
    : stm Committing exn A := fun s =>
  let '(r, (t, b)) := m (cm_now s) (cm_scheduled s, cm_bundles s) in
  (r, s <| cm_scheduled := t |> <| cm_bundles := b |>).
Definition remember (p : Plan) : C unit := alter_st (fun s => s <| cm_plans := <[pl_id p := p]> (cm_plans s) |>).

Section Service.
Context `{CJ : Canonical} `{RN : Rendering} `{PY : Interpreter} `{!PlanRecordPort R}.
Context (uuid4_hex : nat -> string) (bs : BundleCommitService).

Definition draw : C string := perform (fun s =>
  (Ok ("bundle-commit-" +:+ uuid4_hex (cm_draws s)), s <| cm_draws := S (cm_draws s) |>)).

Definition find_bundle (digest : string) : C (option BundleCommit) :=
  storage (fun s => (Ok (get_by_digest (cm_bundles s) digest), s)).
Definition store_bundle (b : BundleCommit) : C BundleCommit :=
  storage (on_bundle_table (fun now => save_bundle now b)).

(** ** Preflight *)

Definition route_error_code (reason : string) : ErrorCode :=
  if String.eqb reason "device_not_found" then DEVICE_NOT_FOUND
  else if String.eqb reason "unsupported_command" then UNSUPPORTED_COMMAND
  else if String.eqb reason "ambiguous_route" then ROUTE_AMBIGUOUS
  else if String.eqb reason "source_unavailable" then SOURCE_UNAVAILABLE
  else ROUTE_NOT_FOUND.

(** [_assert_current_route] *)
Definition assert_current_route (s : PlanService) (p : Plan) : result exn unit :=
  result_iter (fun c =>
    match rr_reason (resolve_command_route (ps_registry s) (cmd_device_id c) (cmd_command c)) with
    | None => Ok tt
    | Some reason => Err (DomainError (mkErrorDetail (route_error_code reason)
        (msg "No executable route for command") None (Some (cmd_device_id c)) None false []))
    end) (pl_commands p).

Definition invalid (m : string) : exn := domain_error VALIDATION_ERROR m.

(** What [_preflight_member] asks of a plan and its approval. *)
Definition check_member (s : Committing) (bundle_digest : string) (m : BundleCommitRequestMember)
    (p : Plan) : result exn unit :=
  raise_if (negb (bool_decide (validation_digest p = Some (rm_validation_digest m))))
    (invalid "Member validation digest mismatch") ≫= fun _ =>
  raise_if (negb (bool_decide (pl_execute_at p = rm_execute_at m)))
    (invalid "Member execute_at mismatch") ≫= fun _ =>
  raise_if (negb (bool_decide (pl_status p ∈ [PS_READY; PS_APPROVED; PS_REQUIRES_CONFIRMATION])))
    (domain_error INVALID_TRANSITION "Member plan is not executable") ≫= fun _ =>
  match pl_approval p with
  | Some a =>
      raise_if (bool_decide (pl_status p = PS_APPROVED) &&
                (negb (bundle_scoped a) || negb (bool_decide (ap_bundle_digest a = Some bundle_digest))))
        (approval_required "Approved member authority does not match the committed bundle")
  | None => Ok tt
  end ≫= fun _ =>
  (if bool_decide (pl_status p = PS_REQUIRES_CONFIRMATION) then
     match rm_approval_id m with
     | None => Err (approval_required "Member approval is required")
     | Some id => validate_approval_id (cm_now s) (cm_approvals s) id p (Some bundle_digest) None
                    ≫= fun _ => Ok tt
     end
   else Ok tt) ≫= fun _ =>
  assert_current_route (cm_service s) p.

(** The plan in memory, or in the repository. *)
Definition member_plan (id : string) : C (option Plan) :=
  s ← look;
  match cm_plans s !! id with
  | Some p => mret (Some p)
  | None =>
      if bs_plan_repository bs then
        stored ← storage (fun s => (port_get_plan id (cm_records s), s));
        match stored with
        | Some p => remember p ≫= fun _ => mret (Some p)
        | None => mret None
        end
      else mret None
  end.

Definition preflight_member (bundle_digest : string) (m : BundleCommitRequestMember) : C Plan :=
  plan ← member_plan (rm_plan_id m);
  match plan with
  | None => Raise (invalid "Unknown plan")
  | Some p => inspect (fun s => check_member s bundle_digest m p) ≫= fun _ => mret p
  end.

Definition household_of (p : Plan) : string * string :=
  (au_tenant_id (pl_authority p), au_household_id (pl_authority p)).
Definition one_household (plans : list Plan) : bool :=
  Nat.eqb (List.length (dedup (map household_of plans))) 1.

(** Every predecessor is an earlier member; [seen] are the ids before. *)
Fixpoint predecessors_earlier (seen : list string) (l : list BundleCommitRequestMember) : bool :=
  match l with
  | [] => true
  | m :: l => forallb (fun id => bool_decide (id ∈ seen)) (rm_predecessor_plan_ids m)
              && predecessors_earlier (seen ++ [rm_plan_id m]) l
  end.

Definition new_member (m : BundleCommitRequestMember) : result exn BundleMemberCommit :=
  validate_member (mkBundleMemberCommit (rm_plan_id m) (rm_validation_digest m) (rm_execute_at m)
    BM_PENDING None false None None (rm_predecessor_plan_id m) (rm_predecessor_plan_ids m) None).

Definition new_bundle (s : Committing) (rq : BundleCommitRequest) (plans : list Plan)
    (id reservation_id : string) : result exn BundleCommit :=
  match plans with
  | [] => Err IndexError
  | p :: _ =>
      members ← result_map new_member (rq_members rq);
      Ok (mkBundleCommit ((pl_authority p) <| au_principal_id := "runtime" |>) id (rq_bundle_digest rq)
            (rq_scenario_id rq) BC_COMMITTING (Some reservation_id) members (cm_now s) (cm_now s) None)
  end.

(** ** Failures *)

(** [str(error)] *)
Definition error_text (e : exn) : message :=
  match e with
  | DomainError d => er_message d
  | ValueError m | RuntimeError m | OSError m => msg m
  | _ => []
  end.

Definition reservation_of (b : BundleCommit) : string :=
  match bc_approval_reservation_id b with
  | Some id => if is_empty id then bc_id b else id
  | None => bc_id b
  end.

Definition release_approvals (reservation_id : string) : C unit :=
  perform (on_ledger (release_reservation reservation_id [])).

Definition failure_status (committed unknown : bool) : BundleCommitStatus :=
  if unknown && negb committed then BC_UNKNOWN
  else if committed then BC_PARTIALLY_COMMITTED else BC_FAILED.

Definition failure_detail (e : exn) (unknown : bool) : CommitFailure :=
  mkCommitFailure (if unknown then "bundle_commit_unknown" else "bundle_commit_failed")
    (match error_text e with [] => msg "Bundle commit failed" | m => m end) unknown.

(** [_finish_failure] *)
Definition finish_failure (b : BundleCommit) (e : exn) (committed reservation_committed unknown : bool)
    : C BundleCommit :=
  (if reservation_committed then mret tt else release_approvals (reservation_of b)) ≫= fun _ =>
  store_bundle (b <| bc_status := failure_status committed unknown |>
                  <| bc_failure := Some (failure_detail e unknown) |>).

(** ** Approvals *)

Definition reserve_approval (bundle_digest reservation_id : string) (id : string) (p : Plan)
    : C ApprovalGrant :=
  perform (fun s => on_ledger (reserve (cm_now s) id p reservation_id (Some bundle_digest) None) s).

(** The grants of the members that name one, and [None] for the others. *)
Fixpoint reserve_all (bundle_digest reservation_id : string)
    (l : list (BundleCommitRequestMember * Plan)) : C (list (Plan * option ApprovalGrant)) :=
  match l with
  | [] => mret []
  | (m, p) :: l =>
      grant ← (match rm_approval_id m with
               | None => mret None
               | Some id => g ← reserve_approval bundle_digest reservation_id id p; mret (Some g)
               end);
      rest ← reserve_all bundle_digest reservation_id l;
      mret ((p, grant) :: rest)
  end.

Definition approve_member (x : Plan * option ApprovalGrant) : C Plan :=
  let '(p, grant) := x in
  match grant with
  | None => mret p
  | Some g =>
      approved ← inspect (fun s => approve (cm_now s) p g);
      remember approved ≫= fun _ =>
      (if bs_plan_repository bs then storage (on_plan_records (port_save_approval approved)) else mret tt)
        ≫= fun _ =>
      mret approved
  end.

(** [_reserve_approvals] *)
Definition reserve_approvals (bundle_digest reservation_id : string)
    (members : list BundleCommitRequestMember) (plans : list Plan) : C (list Plan) :=
  grants ← coro_attempt (reserve_all bundle_digest reservation_id (zip members plans));
  match grants with
  | Err e => release_approvals reservation_id ≫= fun _ => Raise e
  | Ok grants => coro_map approve_member grants
  end.

Definition assert_all_executable (plans : list Plan) : C unit := inspect (fun s =>
  result_iter (fun p => assert_executable (cm_service s) (cm_now s) p None) plans).

(** ** Executing the members that are due *)

Definition is_due (now : datetime) (m : BundleCommitRequestMember) : bool :=
  match rm_execute_at m with None => true | Some t => t <=? now end.

Definition entries (members : list BundleCommitRequestMember) (plans : list Plan) : list entry :=
  imap (fun i '(m, p) => (i, m, p)) (zip members plans).
Definition entry_index (x : entry) : nat := fst (fst x).
Definition entry_member (x : entry) : BundleCommitRequestMember := snd (fst x).
Definition entry_plan (x : entry) : Plan := snd x.

(** [members.index(member)] *)
Definition first_index (f : BundleCommitRequestMember -> bool) (members : list BundleCommitRequestMember)
    : option nat :=
  fst <$> list_find (fun m => f m = true) members.

(** The devices the predecessors wrote to. *)
Definition predecessor_devices (members : list BundleCommitRequestMember) (plans : list Plan)
    (ids : list string) : list string :=
  flat_map (fun id =>
    match first_index (fun m => String.eqb (rm_plan_id m) id) members ≫= (plans !!.) with
    | Some p => map cmd_device_id (pl_commands p)
    | None => []
    end) ids.

(** [_predecessor_state_version_overrides] *)
Definition predecessor_overrides (s : PlanService) (members : list BundleCommitRequestMember)
    (plans : list Plan) (due : list nat) (m : BundleCommitRequestMember) (p : Plan) : gmap string Z :=
  if bool_decide (rm_predecessor_plan_ids m = []) ||
     negb (match first_index (fun x => bool_decide (x = m)) members with
           | Some i => bool_decide (i ∈ due) | None => false end)
  then ∅
  else
    let devices := predecessor_devices members plans (rm_predecessor_plan_ids m) in
    match pl_validation p ≫= vr_dependencies with
    | None => ∅
    | Some d =>
        map_imap (fun k _ => let '(device, capability) := partition_key k in
          if bool_decide (device ∈ devices)
          then Some (state_version (ps_state_store s) device capability) else None)
          (dep_state_versions d)
    end.

(** [_execute_member], with the capability of [issue_aggregate_capability]. *)
Definition issue_member_capability (b : BundleCommit) (p : Plan) : C AggregateExecutionCapability :=
  storage (fun s =>
    let '(r, issued) := issue_aggregate_capability
        (mkExecutionAdmission (Some (get_for_plan (cm_bundles s))) None None)
        (token_urlsafe (cm_draws s)) (cm_now s) (bc_id b) (pl_id p) (NInt 60) (cm_issued s) in
    (r, s <| cm_issued := issued |> <| cm_draws := S (cm_draws s) |>)).

Definition execute_member (b : BundleCommit) (p : Plan) (overrides : gmap string Z)
    : C (list ExecutionOutcome) :=
  reject_when (negb (bs_execution_admission bs))
    (domain_error AGGREGATE_CAPABILITY_INVALID "Bundle execution requires the authoritative admission boundary")
    ≫= fun _ =>
  capability ← issue_member_capability b p;
  await (ask_member p (if bool_decide (overrides = ∅) then None else Some overrides) capability).

(** [_classify_execution] *)
Definition classify_execution (statuses : list ExecutionStatus)
    : BundleMemberCommitStatus * option ExecutionStatus :=
  if bool_decide (statuses = [ES_CONFIRMED_SUCCESS]) then (BM_EXECUTED, Some ES_CONFIRMED_SUCCESS)
  else match find_first (fun st => bool_decide (st ∈ statuses)) [ES_UNKNOWN; ES_UNAVAILABLE] with
  | Some st => (BM_UNKNOWN, Some st)
  | None =>
      (BM_FAILED, find_first (fun st => bool_decide (st ∈ statuses))
                    [ES_FAILED; ES_REJECTED; ES_CANCELLED; ES_ACCEPTED])
  end.

(** What [_dependency_evidence] pins: what the commands wrote and required. *)
Definition evidence_keys (s : PlanService) (p : Plan) : list (string * string) :=
  flat_map (fun c =>
    match capability_for_command s c with
    | Some cap => [(cmd_device_id c, cap_name cap)]
    | None => []
    end ++ map (fun r => (pre_device_id r, pre_capability r)) (cmd_preconditions c)) (pl_commands p).
Definition evidence_versions (s : PlanService) (p : Plan) : odict string Z :=
  fold_left (fun d '(device, capability) =>
    od_set (dep_key device capability) (state_version (ps_state_store s) device capability) d)
    (evidence_keys s p) [].

Definition dependency_evidence (s : Committing) (b : BundleCommit) (p : Plan)
    (outcomes : list ExecutionOutcome) : result exn ExecutionDependencyEvidence :=
  match outcomes with
  | [] => Err IndexError
  | o :: _ =>
      let v := evidence_of b p outcomes (eo_status o) (evidence_versions (cm_service s) p) (cm_now s) in
      validate_evidence v ≫= fun _ => Ok v
  end.

(** [_mark_member] *)
Definition marked (b : BundleCommit) (index : nat) (status : BundleMemberCommitStatus)
    (execution_status : option ExecutionStatus) (error_code : option string)
    (evidence : option ExecutionDependencyEvidence) : BundleCommit :=
  b <| bc_members := alter (fun m => m <| bm_status := status |> <| bm_execution_status := execution_status |>
                                       <| bm_error_code := error_code |> <| bm_evidence := evidence |>)
                       index (bc_members b) |>.

Definition any_executed (b : BundleCommit) : bool :=
  existsb (fun m => bool_decide (bm_status m = BM_EXECUTED)) (bc_members b).

(** An execution that raised. *)
Definition member_raised (b : BundleCommit) (index : nat) (e : exn) : C BundleCommit :=
  b ← store_bundle (marked b index BM_UNKNOWN None (Some "execution_unknown") None);
  finish_failure b e (any_executed b) true true.

(** An execution that returned; [inl] is what [commit] returns. *)
Definition member_returned (b : BundleCommit) (x : entry) (outcomes : list ExecutionOutcome)
    : C (BundleCommit + BundleCommit) :=
  let '(status, execution_status) := classify_execution (statuses_of outcomes) in
  evidence ← (if bool_decide (status = BM_EXECUTED)
              then v ← inspect (fun s => dependency_evidence s b (entry_plan x) outcomes); mret (Some v)
              else mret None);
  b ← store_bundle (marked b (entry_index x) status execution_status None evidence);
  if bool_decide (status = BM_EXECUTED) then mret (inr b)
  else
    b ← finish_failure b (RuntimeError "bundle member execution was not confirmed") (any_executed b) true
          (bool_decide (status = BM_UNKNOWN));
    mret (inl b).

(** The loop over the due members; [inr] when all of them were confirmed. *)
Fixpoint execute_due_members (rq : BundleCommitRequest) (plans : list Plan) (due : list nat)
    (l : list entry) (b : BundleCommit) : C (BundleCommit + BundleCommit) :=
  match l with
  | [] => mret (inr b)
  | x :: l =>
      s ← look;
      outcomes ← coro_attempt (execute_member b (entry_plan x)
        (predecessor_overrides (cm_service s) (rq_members rq) plans due (entry_member x) (entry_plan x)));
      match outcomes with
      | Err e => b ← member_raised b (entry_index x) e; mret (inl b)
      | Ok outcomes =>
          r ← member_returned b x outcomes;
          match r with
          | inl b => mret (inl b)
          | inr b => execute_due_members rq plans due l b
          end
      end
  end.

(** ** [commit] *)

Definition schedule_entries (b : BundleCommit) (l : list entry) : C BundleCommit :=
  storage (on_both_tables (fun now =>
    schedule_members_transaction now b (map entry_plan l) (map entry_index l) BC_SCHEDULED)).

Definition consume_approvals (b : BundleCommit) : C unit :=
  perform (on_ledger (commit_reservation (reservation_of b) [])).

(** Nothing is due: the rows first, then the approvals. *)
Definition commit_future (b : BundleCommit) (l : list entry) : C BundleCommit :=
  scheduled ← coro_attempt (schedule_entries b l);
  match scheduled with
  | Err e => finish_failure b e false false false
  | Ok scheduled =>
      consumed ← coro_attempt (consume_approvals b);
      match consumed with
      | Ok _ => mret scheduled
      | Err e =>
          coro_iter (fun x => coro_attempt (storage (on_schedule_table (cancel_scheduled (pl_id (entry_plan x)))))
                                ≫= fun _ => mret tt) l ≫= fun _ =>
          finish_failure scheduled e false false true
      end
  end.

(** Something is due: the approvals first. *)
Definition commit_due (rq : BundleCommitRequest) (plans : list Plan) (b : BundleCommit)
    (due future : list entry) : C BundleCommit :=
  consumed ← coro_attempt (consume_approvals b);
  match consumed with
  | Err e => finish_failure b e false false true
  | Ok _ =>
      r ← execute_due_members rq plans (map entry_index due) due b;
      match r with
      | inl b => mret b
      | inr b =>
          if bool_decide (future = []) then store_bundle (b <| bc_status := BC_COMPLETED |>)
          else
            scheduled ← coro_attempt (schedule_entries b future);
            match scheduled with
            | Ok scheduled => mret scheduled
            | Err e => finish_failure b e true true false
            end
      end
  end.

(** The bundle is stored: its approvals are reserved and its members carried
    out. *)
Definition carry_out (rq : BundleCommitRequest) (plans : list Plan) (b : BundleCommit) : C BundleCommit :=
  approved ← coro_attempt (reserve_approvals (rq_bundle_digest rq) (reservation_of b) (rq_members rq) plans);
  match approved with
  | Err e => finish_failure b e false false false
  | Ok plans =>
      executable ← coro_attempt (assert_all_executable plans);
      match executable with
      | Err e => finish_failure b e false false false
      | Ok _ =>
          s ← look;
          let l := entries (rq_members rq) plans in
          let due := List.filter (fun x => is_due (cm_now s) (entry_member x)) l in
          let future := List.filter (fun x => negb (is_due (cm_now s) (entry_member x))) l in
          if bool_decide (due = []) then commit_future b future else commit_due rq plans b due future
      end
  end.

(** The checks of the members and of the request; the new bundle. *)
Definition prepare (rq : BundleCommitRequest) : C (BundleCommit * list Plan) :=
  plans ← coro_map (preflight_member (rq_bundle_digest rq)) (rq_members rq);
  reject_when (negb (one_household plans))
    (invalid "All bundle members must belong to one tenant and household") ≫= fun _ =>
  reject_when (negb (predecessors_earlier [] (rq_members rq)))
    (invalid "A predecessor must refer to an earlier bundle member") ≫= fun _ =>
  id ← draw;
  reservation_id ← draw;
  b ← inspect (fun s => new_bundle s rq plans id reservation_id);
  mret (b, plans).

Definition commit (rq : BundleCommitRequest) : C BundleCommit :=
  reject_when (negb (String.eqb (rq_bundle_digest rq) (bundle_approval_digest (rq_scenario_id rq) (rq_members rq))))
    (invalid "Bundle digest does not match the ordered member evidence") ≫= fun _ =>
  existing ← find_bundle (rq_bundle_digest rq);
  match existing with
  | Some b => mret b
  | None =>
      '(b, plans) ← prepare rq;
      saved ← coro_attempt (store_bundle b);
      match saved with
      | Ok b => carry_out rq plans b
      | Err e =>
          existing ← find_bundle (rq_bundle_digest rq);
          match existing with
          | Some b => mret b
          | None => Raise e
          end
      end
  end.

Definition is_bundle_member (plan_id : string) : C bool :=
  storage (fun s => (Ok (opt_bool (get_for_plan (cm_bundles s) plan_id)), s)).
Definition is_scheduled_bundle_member (plan_id : string) : C bool :=
  storage (fun s => (Ok (is_scheduled_member (cm_bundles s) plan_id), s)).
End Service.
End Commit.
