(* ===== verification/CommitRecovery.v ===== *)
(** * Recovery of bundles and plans (application/bundle_commit.py, application/recovery.py)

    [BundleRecoveryService] takes the members of every bundle that is not
    settled from the tables of schedules and plans; [PlanRecoveryService]
    turns plans that an earlier run left executing into unknown ones.  The
    runtime calls both when it starts and after every sweep of the scheduler.
    Neither asks for an execution. *)

From S2P Require Import Prelude.
From S2P Require Import Values.
From S2P Require Import Models.
From S2P Require Import Digests.
From S2P Require Import ApprovalStore.
From S2P Require Import PlanService.
From S2P Require Import PlanRecords.
From S2P Require Import Coroutines.
From S2P Require Import ScheduleRecords.
From S2P Require Import BundleRecords.
From S2P Require Import Scheduler.
From S2P Require Import CommitService.

(** ** Members *)

(** What the tables say of a member: its row and its plan. *)
Definition observation : Type := option (Plan * ScheduleStatus) * option Plan.

Record tally := mkTally {
  tl_committed : nat;
  tl_has_unknown : bool;
  tl_has_failed : bool;
  tl_has_missed : bool;
  tl_all_scheduled : bool
}.
#[global] Instance tally_eta : Eta tally := fun r =>
  mkTally (tl_committed r) (tl_has_unknown r) (tl_has_failed r) (tl_has_missed r) (tl_all_scheduled r).
Definition nothing_seen : tally := mkTally 0 false false false true.

Definition one_committed (t : tally) : tally := t <| tl_committed := S (tl_committed t) |>.
Definition not_scheduled (t : tally) : tally := t <| tl_all_scheduled := false |>.

(** The body of the loop over the members. *)
Definition recover_member (o : observation) (m : BundleMemberCommit) (t : tally)
    : BundleMemberCommit * tally :=
  if bool_decide (bm_status m = BM_DEPENDENCY_FAILED) then
    (m, not_scheduled (t <| tl_has_failed := true |>))
  else
    match fst o with
    | Some (_, SS_PENDING) =>
        (m <| bm_status := BM_SCHEDULED |> <| bm_scheduled := true |>, one_committed t)
    | Some (_, SS_EXECUTED) =>
        (m <| bm_status := BM_EXECUTED |> <| bm_scheduled := true |>
           <| bm_execution_status := Some ES_CONFIRMED_SUCCESS |>, not_scheduled (one_committed t))
    | Some (_, SS_MISSED) =>
        (m <| bm_status := BM_MISSED |> <| bm_scheduled := true |>,
         not_scheduled (t <| tl_has_missed := true |>))
    | Some _ =>
        (m <| bm_status := BM_FAILED |> <| bm_scheduled := true |>,
         not_scheduled (t <| tl_has_failed := true |>))
    | None =>
        match pl_status <$> snd o with
        | Some PS_COMPLETED =>
            (m <| bm_status := BM_EXECUTED |> <| bm_execution_status := Some ES_CONFIRMED_SUCCESS |>,
             not_scheduled (one_committed t))
        | Some (PS_FAILED | PS_PARTIALLY_FAILED | PS_CANCELLED) =>
            (m <| bm_status := BM_FAILED |>, not_scheduled (t <| tl_has_failed := true |>))
        | _ => (m <| bm_status := BM_UNKNOWN |>, not_scheduled (t <| tl_has_unknown := true |>))
        end
    end.

Fixpoint recover_members (seen : string -> observation) (l : list BundleMemberCommit) (t : tally)
    : list BundleMemberCommit * tally :=
  match l with
  | [] => ([], t)
  | m :: l =>
      let '(m, t) := recover_member (seen (bm_plan_id m)) m t in
      let '(l, t) := recover_members seen l t in
      (m :: l, t)
  end.

Definition recovered_status (members : list BundleMemberCommit) (t : tally) : BundleCommitStatus :=
  let some := negb (Nat.eqb (tl_committed t) 0) in
  if tl_has_unknown t then if some then BC_PARTIALLY_COMMITTED else BC_UNKNOWN
  else if tl_has_missed t then
    if forallb (fun m => bool_decide (bm_status m = BM_MISSED)) members
    then BC_MISSED else BC_PARTIALLY_COMMITTED
  else if tl_has_failed t then if some then BC_PARTIALLY_COMMITTED else BC_FAILED
  else if Nat.eqb (tl_committed t) (List.length members)
  then if tl_all_scheduled t then BC_SCHEDULED else BC_COMPLETED
  else BC_UNKNOWN.

Definition recovered (seen : string -> observation) (b : BundleCommit) : BundleCommit :=
  let '(members, t) := recover_members seen (bc_members b) nothing_seen in
  b <| bc_members := members |> <| bc_status := recovered_status members t |>.

(** A member that may have started keeps its approvals spent. *)
Definition authority_required (b : BundleCommit) : bool :=
  existsb (fun m => bool_decide (bm_status m ∈ [BM_EXECUTED; BM_UNKNOWN; BM_SCHEDULED])) (bc_members b).

(** ** [BundleRecoveryService] *)

Record BundleRecoveryService := mkBundleRecoveryService {
  br_plan_repository : bool;
  br_approval_store : bool
}.

Section Recovery.
Context {R : Type} `{CJ : Canonical} `{!PlanRecordPort R}.
Abbreviation C := (coro (Committing (R := R)) commit_call).

Section Bundles.
Context (br : BundleRecoveryService).

Definition observe (m : BundleMemberCommit) : C observation :=
  scheduled ← storage (fun s => (get_scheduled (cm_scheduled s) (bm_plan_id m), s));
  plan ← (if br_plan_repository br
          then storage (fun s => (port_get_plan (bm_plan_id m) (cm_records s), s)) else mret None);
  mret (scheduled, plan).

(** The dictionary of observations, by plan. *)
Fixpoint observe_all (l : list BundleMemberCommit) (d : odict string observation)
    : C (odict string observation) :=
  match l with
  | [] => mret d
  | m :: l => o ← observe m; observe_all l (od_set (bm_plan_id m) o d)
  end.
Definition observation_of (d : odict string observation) (id : string) : observation :=
  default (None, None) (od_get id d).

(** A member that can only be read historically blocks its bundle. *)
Definition recovery_blocked (e : exn) : bool :=
  match e with
  | DomainError d =>
      match json_get "reason" (er_details d) with
      | Some (JStr r) => bool_decide (r ∈ ["revalidation_required"; "historical_only"])
      | _ => false
      end
  | _ => false
  end.

Definition settle_approvals (b : BundleCommit) : C unit :=
  if negb (br_approval_store br) then mret tt
  else perform (on_ledger (if authority_required b then commit_reservation (reservation_of b) []
                           else release_reservation (reservation_of b) [])).

Definition recover_bundle (b : BundleCommit) : C (option string) :=
  observed ← coro_catch (fun e => if recovery_blocked e then Ret None else Raise e)
               (d ← observe_all (bc_members b) []; mret (Some d));
  match observed with
  | None => mret None
  | Some d =>
      updated ← store_bundle (recovered (observation_of d) b);
      settle_approvals updated ≫= fun _ =>
      mret (Some (bc_id updated))
  end.

Definition recover_orphaned_bundles : C (list string) :=
  bundles ← storage (fun s => (Ok (list_non_terminal (cm_bundles s)), s));
  coro_collect recover_bundle bundles.
End Bundles.
End Recovery.

(** ** [PlanRecoveryService] *)

Record PlanRecoveryService := mkPlanRecoveryService {
  pr_deployment_id : option string;
  pr_fencing_epoch : option Z
}.

Definition new_plan_recovery (deployment_id : option string) (fencing_epoch : option Z)
    : result exn PlanRecoveryService :=
  raise_if (match fencing_epoch with Some e => e <=? 0 | None => false end)
    (ValueError "fencing_epoch must be positive") ≫= fun _ =>
  raise_if (opt_bool fencing_epoch && negb (opt_bool deployment_id))
    (ValueError "fencing recovery requires a deployment scope") ≫= fun _ =>
  Ok (mkPlanRecoveryService deployment_id fencing_epoch).

Section PlanRecovery.
Context `{CJ : Canonical} (repository_deployment : option string) (pr : PlanRecoveryService).
Abbreviation C := (coro (Committing (R := plans)) commit_call).

(** The lease of a dead predecessor of this deployment. *)
Definition lease_superseded (now : datetime) (epoch : Z) (l : PlanExecutionLease) : bool :=
  bool_decide (Some (pel_deployment_id l) = pr_deployment_id pr) && (pel_expires_at l <=? now) &&
  (pel_fencing_epoch l <? epoch).

Definition may_recover (now : datetime) (p : Plan) : bool :=
  match pr_fencing_epoch pr with
  | None => true
  | Some epoch => match pl_execution_lease p with
                  | None => false
                  | Some l => lease_superseded now epoch l
                  end
  end.

Definition recover_plan (p : Plan) : C (option string) :=
  s ← look;
  if negb (may_recover (cm_now s) p) then mret None
  else
    marked ← storage (on_plan_records (mark_unknown_if_executing repository_deployment (pl_id p)
      (if opt_bool (pr_fencing_epoch pr) then pl_execution_lease p else None)
      (negb (opt_bool (pr_fencing_epoch pr)))));
    mret (if marked : bool then Some (pl_id p) else None).

(** [reconcile] *)
Definition reconcile : C (list string) :=
  orphaned ← storage (fun s => (Ok (list_by_status (cm_records s) [PS_EXECUTING] (pr_deployment_id pr)
                                      (negb (opt_bool (pr_fencing_epoch pr)))), s));
  coro_collect recover_plan orphaned.
End PlanRecovery.
