(* ===== verification/LampCommit.v ===== *)
(** * The desk lamp in a bundle

    One home commits a bundle of two plans of the lamp, one for now and one for
    six.  The storage answers at once, the executor confirms every command. *)

From S2P Require Import Prelude.
From S2P Require Import Values.
From S2P Require Import Models.
From S2P Require Import Digests.
From S2P Require Import ApprovalStore.
From S2P Require Import PlanService.
From S2P Require Import PlanRecords.
From S2P Require Import Coroutines.
From S2P Require Import ScheduleRecords.
From S2P Require Import BundleRecords.
From S2P Require Import Scheduler.
From S2P Require Import LampSchedule.
From S2P Require Import CommitService.
From S2P Require Import CommitRecovery.

#[local] Existing Instance example_canonical.

Abbreviation Hearth := (Committing (R := plans)).

(** ** The home *)

Definition evening_plan : Plan := six_plan <| pl_id := "evening" |>.
Definition stored_row (p : Plan) : plan_row := mkPlanRow (pl_status p) p.
Definition lamp_hearth : Hearth :=
  mkCommitting (minutes 2) 0 {["plan-1" := example_ready]} empty_ledger [] []
    {["plan-1" := stored_row example_ready; "evening" := stored_row evening_plan]} example_service ∅.

Definition request_of (p : Plan) (predecessors : list string) : BundleCommitRequestMember :=
  mkRequestMember (pl_id p) (default "" (validation_digest p)) (pl_execute_at p) (pl_execute_tz p) None
    None predecessors.
Definition lamp_members : list BundleCommitRequestMember :=
  [request_of example_ready []; request_of evening_plan ["plan-1"]].
Definition lamp_request : BundleCommitRequest :=
  mkRequest (bundle_approval_digest "scenario-1" lamp_members) "scenario-1" lamp_members.

Definition lamp_service : BundleCommitService := mkBundleCommitService true true.
Definition lamp_uuid (n : nat) : string := pretty (N.of_nat n).

(** ** The executor *)

Definition hearth_oracle (answer : Plan -> result exn (list ExecutionOutcome)) : oracle Hearth commit_call :=
  fun n B q s =>
    match q in commit_call B return result exn B * Hearth with
    | ask_storage => (Ok tt, s)
    | ask_member p _ _ =>
        (answer p, s <| cm_records := <[pl_id p := executed_row p]> (cm_records s) |>)
    end.
Definition confirm (p : Plan) : result exn (list ExecutionOutcome) := Ok (confirmed_outcomes p).
Definition hearth_run {A} (answer : Plan -> result exn (list ExecutionOutcome)) (c : coro Hearth commit_call A)
    (s : Hearth) : result exn A * Hearth :=
  let '(r, _, s') := run (hearth_oracle answer) c 0 s in (r, s').
Definition lamp_commit : coro Hearth commit_call BundleCommit := commit lamp_uuid lamp_service lamp_request.
Definition bundle_view (b : BundleCommit) : BundleCommitStatus * list BundleMemberCommitStatus :=
  (bc_status b, map bm_status (bc_members b)).

(** ** Runs *)

(** The lamp is switched on and its evening is scheduled; committing the same
    bundle again answers the stored one. *)
Example lamp_committed :
  let '(r, s) := hearth_run confirm lamp_commit lamp_hearth in
  (bundle_view <$> r) = Ok (BC_SCHEDULED, [BM_EXECUTED; BM_SCHEDULED]) /\
  (sr_status <$> od_get "evening" (cm_scheduled s)) = Some SS_PENDING /\
  fst (hearth_run confirm lamp_commit s) = r.
Proof. vm_compute. done. Qed.

(** The lamp does not answer: the bundle is unknown and the evening is not
    scheduled. *)
Example lamp_unknown :
  let '(r, s) := hearth_run (fun _ => Err (OSError "timeout")) lamp_commit lamp_hearth in
  (bundle_view <$> r) = Ok (BC_UNKNOWN, [BM_UNKNOWN; BM_PENDING]) /\ cm_scheduled s = [].
Proof. vm_compute. done. Qed.

(** ** Recovery *)

Definition lamp_recovery : BundleRecoveryService := mkBundleRecoveryService true true.
Definition recover_hearth (s : Hearth) : result exn (list string) * Hearth :=
  hearth_run confirm (recover_orphaned_bundles lamp_recovery) s.
Definition committed_hearth : Hearth := snd (hearth_run confirm lamp_commit lamp_hearth).
Definition views (s : Hearth) : list (BundleCommitStatus * list BundleMemberCommitStatus) :=
  map bundle_view (od_values (cm_bundles s)).

(** The same home under the scheduler at six. *)
Definition home_of (now : datetime) (s : Hearth) : Home :=
  mkScheduling now (cm_scheduled s) [] (cm_bundles s) (cm_issued s) (cm_draws s) (cm_records s)
    (cm_service s) false None (NInt 0) 0 0 0 0 0.
Definition after_sweep (s : Hearth) : result exn (list (string * string)) * list (BundleCommitStatus * list BundleMemberCommitStatus) :=
  let '(r, h) := quietly (run_due home_scheduler None) (home_of (six + seconds 10) s) in
  (r, map bundle_view (od_values (sd_bundles h))).

(** Recovery calls the bundle completed while its evening is still scheduled;
    the evening is then executed, but the bundle does not take its outcome and
    the sweep reports it as reconciled.  Without the recovery all is well. *)
Example completed_before_its_evening :
  views (snd (recover_hearth committed_hearth)) = [(BC_COMPLETED, [BM_EXECUTED; BM_SCHEDULED])] /\
  after_sweep (snd (recover_hearth committed_hearth))
    = (Ok [("evening", "reconciled")], [(BC_COMPLETED, [BM_EXECUTED; BM_SCHEDULED])]) /\
  after_sweep committed_hearth = (Ok [("evening", "executed")], [(BC_COMPLETED, [BM_EXECUTED; BM_EXECUTED])]).
Proof. vm_compute. done. Qed.

(** The evening was in flight when the scheduler died, its row is unknown:
    recovery calls the member failed. *)
Definition unknown_hearth : Hearth :=
  committed_hearth <| cm_scheduled := snd (reconcile_terminal "evening" SS_UNKNOWN (cm_scheduled committed_hearth)) |>.
Example unknown_member_called_failed :
  views (snd (recover_hearth unknown_hearth)) = [(BC_PARTIALLY_COMMITTED, [BM_EXECUTED; BM_FAILED])].
Proof. vm_compute. done. Qed.

(** Without a fencing epoch the recovery of plans takes a plan that is being
    executed for an orphan. *)
Definition running_hearth : Hearth :=
  lamp_hearth <| cm_records := {["plan-1" := stored_row (example_ready <| pl_status := PS_EXECUTING |>)]} |>.
Example running_plan_called_unknown :
  let '(r, s) := hearth_run confirm (reconcile (Some "home-1") (mkPlanRecoveryService (Some "home-1") None))
                   running_hearth in
  r = Ok ["plan-1"] /\ (pr_status <$> cm_records s !! "plan-1") = Some PS_UNKNOWN.
Proof. vm_compute. done. Qed.
