(* ===== verification/CommitSteps.v ===== *)
(** * What a commit did (application/bundle_commit.py)

    The calls of the storage in the logic [does], and [executions]: the members
    a commit asked the executor for, with the answers. *)

From S2P Require Import Prelude.
From S2P Require Import Values.
From S2P Require Import Models.
From S2P Require Import Digests.
From S2P Require Import ApprovalStore.
From S2P Require Import PlanService.
From S2P Require Import Admission.
From S2P Require Import PlanRecords.
From S2P Require Import Coroutines.
From S2P Require Import Projection.
From S2P Require Import ScheduleRecords.
From S2P Require Import BundleRecords.
From S2P Require Import Scheduler.
From S2P Require Import CommitService.

Section Steps.
Context {R : Type}.
Abbreviation S := (Committing (R := R)).
Abbreviation C := (coro S commit_call).
Abbreviation happened := (list (happening S commit_call)).

(** ** Executions *)

Record execution := mkExecution {
  ex_plan : Plan;
  ex_capability : AggregateExecutionCapability;
  ex_answer : result exn (list ExecutionOutcome)
}.

Definition asked_member {B} (q : commit_call B) : result exn B -> option execution :=
  match q in commit_call B return result exn B -> option execution with
  | ask_storage => fun _ => None
  | ask_member p _ capability => fun r => Some (mkExecution p capability r)
  end.
Definition executions : happened -> list execution := picked (@asked_member).

Lemma executions_app l1 l2 : executions (l1 ++ l2) = executions l1 ++ executions l2.
Proof. apply picked_app. Qed.

(** Every command of the member was confirmed. *)
Definition confirmed (x : execution) : Prop :=
  exists outcomes, ex_answer x = Ok outcomes /\ statuses_of outcomes = [ES_CONFIRMED_SUCCESS].

Lemma does_storage {A} (P : S -> Prop) (m : stm S exn A) Q :
  (forall e s, Q (Err e) [Asked ask_storage (Err e)] s) ->
  (forall s, Q (fst (m s)) [Asked ask_storage (Ok tt); Acted s (snd (m s))] (snd (m s))) ->
  does P (storage m) Q.
Proof.
  intros He Hm h s _. simpl. intros [[]|e] s' _; simpl; [|eexists; split; [done|apply He]].
  specialize (Hm s'). rewrite <- app_assoc. destruct (fst (m s')); simpl; eexists; (split; [done|exact Hm]).
Qed.

(** ** Stretches that execute nothing *)

Definition quiet {A} : C A -> Prop := avoids (@asked_member).

Lemma quiet_storage {A} (m : stm S exn A) : quiet (storage m).
Proof. apply avoids_bind; [|intros; apply avoids_perform]. split; [done|]. intros r. apply avoids_of_result. Qed.
Lemma does_quiet {A} (P : S -> Prop) (c : C A) : quiet c -> does P c (fun _ l _ => executions l = []).
Proof. apply does_avoids. Qed.

End Steps.
