(* ===== verification/CommitOutcomes.v ===== *)
(** * What a commit answers (application/bundle_commit.py)

    The executions of a bundle in the order of its members, and the status of
    the bundle that is stored and returned for them. *)

From S2P Require Import Prelude.
From S2P Require Import Values.
From S2P Require Import Models.
From S2P Require Import Digests.
From S2P Require Import ApprovalStore.
From S2P Require Import PlanService.
From S2P Require Import Admission.
From S2P Require Import PlanRecords.
From S2P Require Import Coroutines.
From S2P Require Import Projection.
From S2P Require Import ScheduleRecords.
From S2P Require Import BundleRecords.
From S2P Require Import Scheduler.
From S2P Require Import CommitService.
From S2P Require Import CommitSteps.
From S2P Require Import LampSchedule.
From S2P Require Import LampCommit.

Section Outcomes.
Context {R : Type} `{CJ : Canonical} `{RN : Rendering} `{PY : Interpreter} `{!PlanRecordPort R}.
Context (bs : BundleCommitService).
Abbreviation S := (Committing (R := R)).
Abbreviation C := (coro S commit_call).
Abbreviation happened := (list (happening S commit_call)).

(** ** Storing a bundle *)

Definition stored (b : BundleCommit) (s : S) : Prop := od_get (bc_id b) (cm_bundles s) = Some b.

(** Another copy of the bundle, with the members [b] has. *)
Record rewritten (b b' : BundleCommit) : Prop := {
  rw_id : bc_id b' = bc_id b;
  rw_digest : bc_bundle_digest b' = bc_bundle_digest b;
  rw_reservation : reservation_of b' = reservation_of b;
  rw_members : bc_members b' = bc_members b
}.

Lemma save_bundle_spec now b t :
  match save_bundle now b t with
  | (Ok b', t') => b' = b <| bc_updated_at := now |> /\ od_get (bc_id b) t' = Some b'
  | (Err _, t') => t' = t
  end.
Proof.
  unfold save_bundle. rewrite stm_bind_get. destruct (existsb _ _); [done|].
  simpl. by rewrite od_get_set_eq.
Qed.

Lemma store_bundle_does P (b : BundleCommit) :
  does P (store_bundle (R := R) b) (fun r l s => executions l = [] /\
    forall b', r = Ok b' -> stored b' s /\ bc_status b' = bc_status b /\ rewritten b b').
Proof.
  apply does_storage; [intros; split; [done|by intros ? [=]]|]. intros s. unfold on_bundle_table.
  pose proof (save_bundle_spec (cm_now s) b (cm_bundles s)) as H.
  destruct (save_bundle _ _ _) as [[b'|e] t]; simpl; (split; [done|]).
  2: by intros ? [=].
  destruct H as [-> H]. intros ? [= <-]. split; [exact H|]. done.
Qed.

Lemma quiet_release id : quiet (release_approvals (R := R) id).
Proof. apply avoids_perform. Qed.

Lemma finish_failure_does P (b : BundleCommit) e committed consumed unknown :
  does P (finish_failure (R := R) b e committed consumed unknown) (fun r l s => executions l = [] /\
    forall b', r = Ok b' -> stored b' s /\ bc_status b' = failure_status committed unknown /\ rewritten b b').
Proof.
  eapply does_bind with (M := fun _ l _ => executions l = []).
  - eapply does_conseq; [apply does_quiet; destruct consumed; [done|apply quiet_release]|done|].
    intros [] l s Hl; [exact Hl|]. split; [exact Hl|by intros ? [=]].
  - intros _ l1 s1 Hl1. eapply does_conseq; [apply (store_bundle_does (fun _ => True))|done|].
    intros r l s [Hl H]. rewrite executions_app, Hl1, Hl. split; [done|]. intros b' Hb.
    destruct (H b' Hb) as (? & ? & [H1 H2 H3 H4]). split; [done|]. split; [done|]. by split.
Qed.

(** ** One member *)

Lemma classify_executed statuses :
  fst (classify_execution statuses) = BM_EXECUTED <-> statuses = [ES_CONFIRMED_SUCCESS].
Proof. unfold classify_execution. case_bool_decide; simpl; [done|]. by case_match. Qed.

(** A member was asked for at most once, and the answer is the result. *)
Definition asked_once (b : BundleCommit) (p : Plan) (r : result exn (list ExecutionOutcome)) (l : happened) : Prop :=
  (exists e, r = Err e /\ executions l = []) \/
  exists capability, executions l = [mkExecution p capability r] /\
    aec_bundle_id capability = bc_id b /\ aec_member_plan_id capability = pl_id p.

Lemma issue_capability_for e nonce now bundle_id id ttl issued :
  match issue_aggregate_capability e nonce now bundle_id id ttl issued with
  | (Ok c, _) => aec_bundle_id c = bundle_id /\ aec_member_plan_id c = id
  | (Err _, _) => True
  end.
Proof.
  unfold issue_aggregate_capability. destruct (ea_bundle_repository e) as [get|]; [|done].
  destruct (get id) as [b|]; [|done].
  rewrite stm_bind_lift. destruct (String.eqb (bc_id b) bundle_id) eqn:Eb; [simpl|done].
  apply String.eqb_eq in Eb.
  rewrite stm_bind_lift. destruct (raise_if _ _); [|done].
  rewrite stm_bind_lift. destruct (raise_if _ _); [|done].
  rewrite stm_bind_lift. destruct (Coordination.timedelta_seconds ttl); [|done].
  rewrite stm_bind_lift. destruct (raise_if _ _); [|done]. done.
Qed.

Lemma execute_member_does P (b : BundleCommit) (p : Plan) overrides :
  does P (execute_member (R := R) bs b p overrides) (fun r l _ => asked_once b p r l).
Proof.
  eapply does_bind with (M := fun _ l _ => l = []).
  { destruct (bs_execution_admission bs); [by apply does_ret|]. apply does_raise. intros s _. left. eauto. }
  intros _ ? s1 ->.
  eapply does_bind with (M := fun c l _ => executions l = [] /\ aec_bundle_id c = bc_id b /\ aec_member_plan_id c = pl_id p).
  { apply does_storage; [intros e s; left; eauto|]. intros s.
    pose proof (issue_capability_for (mkExecutionAdmission (Some (get_for_plan (cm_bundles s))) None None)
      (token_urlsafe (cm_draws s)) (cm_now s) (bc_id b) (pl_id p) (NInt 60) (cm_issued s)) as H.
    destruct (issue_aggregate_capability _ _ _ _ _ _ _) as [[c|e] i]; simpl; [done|]. left. eauto. }
  intros c l1 s2 (Hl1 & H1 & H2) h s _. simpl. intros r s' _. destruct r as [o|e]; simpl;
    eexists; (split; [done|]); right; exists c; by rewrite executions_app, Hl1.
Qed.

(** ** Which members are executed *)

Definition executed_at (b : BundleCommit) (i : nat) : Prop :=
  exists m, bc_members b !! i = Some m /\ bm_status m = BM_EXECUTED.
Definition executed_exactly (b : BundleCommit) (l : list nat) : Prop := forall i, executed_at b i <-> i ∈ l.

Lemma any_executed_ok b : any_executed b = true <-> exists i, executed_at b i.
Proof.
  unfold any_executed, executed_at. rewrite existsb_exists. setoid_rewrite bool_decide_eq_true.
  split.
  - intros (m & [i Hi]%list_elem_of_In%list_elem_of_lookup & Hm). eauto.
  - intros (i & m & Hi & Hm). exists m. split; [|done]. by apply list_elem_of_In, (list_elem_of_lookup_2 _ i).
Qed.

Lemma any_executed_exactly b l : executed_exactly b l -> any_executed b = true <-> l <> [].
Proof.
  intros H. rewrite any_executed_ok. setoid_rewrite (H _). split; [intros (i & Hi) ->; by apply not_elem_of_nil in Hi|].
  destruct l as [|i l]; [done|]. intros _. exists i. apply list_elem_of_here.
Qed.

(** The same bundle, with other members or another status. *)
Record same_bundle (b b' : BundleCommit) : Prop := {
  sb_id : bc_id b' = bc_id b;
  sb_digest : bc_bundle_digest b' = bc_bundle_digest b;
  sb_size : List.length (bc_members b') = List.length (bc_members b)
}.
Lemma same_bundle_trans b1 b2 b3 : same_bundle b1 b2 -> same_bundle b2 b3 -> same_bundle b1 b3.
Proof. intros [? ? ?] [? ? ?]. split; congruence. Qed.
Lemma rewritten_same b b' : rewritten b b' -> same_bundle b b'.
Proof. intros [? ? _ Hm]. split; [done..|]. by rewrite Hm. Qed.
Lemma marked_same b i st es ec ev : same_bundle b (marked b i st es ec ev).
Proof. split; [done..|]. simpl. by rewrite length_alter. Qed.

Lemma rewritten_executed b b' i : rewritten b b' -> executed_at b' i <-> executed_at b i.
Proof. intros [_ _ _ Hm]. unfold executed_at. by rewrite Hm. Qed.

Lemma marked_executed b i st es ec ev j : (i < List.length (bc_members b))%nat ->
  executed_at (marked b i st es ec ev) j <-> if decide (j = i) then st = BM_EXECUTED else executed_at b j.
Proof.
  intros Hi. unfold executed_at. simpl. case_decide as Hj.
  - subst. rewrite list_lookup_alter_eq. destruct (lookup_lt_is_Some_2 _ _ Hi) as [m ->]. simpl.
    split; [by intros (? & [= <-] & ?)|]. intros ->. eauto.
  - by rewrite list_lookup_alter_ne.
Qed.

Lemma marked_exactly b b' l i st es ec ev : (i < List.length (bc_members b))%nat -> i ∉ l ->
  executed_exactly b l -> rewritten (marked b i st es ec ev) b' ->
  executed_exactly b' (if bool_decide (st = BM_EXECUTED) then l ++ [i] else l).
Proof.
  intros Hi Hl H Hr j. rewrite (rewritten_executed _ _ _ Hr), marked_executed by done.
  pose proof (H j) as Hx. case_decide as Hj; case_bool_decide as Hs; subst.
  - rewrite elem_of_app, list_elem_of_singleton. tauto.
  - tauto.
  - rewrite Hx, elem_of_app, list_elem_of_singleton. tauto.
  - done.
Qed.

(** The commit gave up: what [_finish_failure] stored. *)
Record ended (b b' : BundleCommit) (l : list nat) (s : S) : Prop := {
  en_stored : stored b' s;
  en_same : same_bundle b b';
  en_status : exists unknown, bc_status b' = failure_status (negb (bool_decide (l = []))) unknown;
  en_executed : executed_exactly b' l
}.

Lemma any_executed_is b l : executed_exactly b l -> any_executed b = negb (bool_decide (l = [])).
Proof.
  intros H. apply any_executed_exactly in H. apply eq_bool_prop_intro.
  rewrite !Is_true_true, negb_true_iff, bool_decide_eq_false. exact H.
Qed.

Lemma finish_failure_ended P b e l consumed unknown : executed_exactly b l ->
  does P (finish_failure (R := R) b e (any_executed b) consumed unknown) (fun r h s => executions h = [] /\
    forall b', r = Ok b' -> ended b b' l s).
Proof.
  intros Hl. eapply does_conseq; [apply (finish_failure_does (fun _ => True))|done|].
  intros r h s [Hh H]. split; [done|]. intros b' Hb. destruct (H b' Hb) as (Hs & Hst & Hr).
  split; [done|by apply rewritten_same| |].
  - exists unknown. by rewrite Hst, (any_executed_is _ _ Hl).
  - intros i. rewrite (rewritten_executed _ _ _ Hr). apply Hl.
Qed.

Lemma ended_same b b1 b2 l s : same_bundle b b1 -> ended b1 b2 l s -> ended b b2 l s.
Proof. intros Hs [? ? ? ?]. split; try done. by eapply same_bundle_trans. Qed.

Section Member.
Context (b : BundleCommit) (l : list nat) (i : nat).
Context (Hexec : executed_exactly b l) (Hi : i ∉ l) (Hlen : (i < List.length (bc_members b))%nat).

Lemma store_marked_does P st es ec ev :
  does P (store_bundle (R := R) (marked b i st es ec ev)) (fun r h s => executions h = [] /\
    forall b', r = Ok b' -> same_bundle b b' /\
      executed_exactly b' (if bool_decide (st = BM_EXECUTED) then l ++ [i] else l)).
Proof using Hexec Hi Hlen.
  eapply does_conseq; [apply (store_bundle_does (fun _ => True))|done|].
  intros r h s [Hh H]. split; [done|]. intros b' Hb. destruct (H b' Hb) as (_ & _ & Hr). split.
  - eapply same_bundle_trans; [apply marked_same|by apply rewritten_same].
  - by eapply marked_exactly.
Qed.

Lemma member_raised_does P e :
  does P (member_raised (R := R) b i e) (fun r h s => executions h = [] /\
    forall b', r = Ok b' -> ended b b' l s).
Proof using Hexec Hi Hlen.
  eapply does_bind with (M := fun b1 h _ => executions h = [] /\ same_bundle b b1 /\ executed_exactly b1 l).
  - eapply does_conseq; [apply (store_marked_does (fun _ => True))|done|].
    intros [b1|e'] h s [Hh H]; [by destruct (H b1 eq_refl)|]. split; [done|by intros ? [=]].
  - intros b1 h1 s1 (Hh1 & Hs & Hx).
    eapply does_conseq; [apply (finish_failure_ended (fun _ => True) b1 e l true true Hx)|done|].
    intros r h s [Hh H]. rewrite executions_app, Hh1, Hh. split; [done|]. intros b' Hb.
    eapply ended_same; [done|by apply H].
Qed.

(** How an execution that returned goes on. *)
Lemma member_returned_does P x outcomes : entry_index x = i ->
  does P (member_returned (R := R) b x outcomes) (fun r h s => executions h = [] /\
    (forall b', r = Ok (inr b') -> statuses_of outcomes = [ES_CONFIRMED_SUCCESS] /\ same_bundle b b' /\
       executed_exactly b' (l ++ [i])) /\
    (forall b', r = Ok (inl b') -> statuses_of outcomes <> [ES_CONFIRMED_SUCCESS] /\ ended b b' l s)).
Proof using Hexec Hi Hlen.
  intros Hx. unfold member_returned. rewrite Hx. pose proof (classify_executed (statuses_of outcomes)) as Hc.
  destruct (classify_execution _) as [st es]. simpl in Hc.
  eapply does_bind with (M := fun _ h _ => executions h = []).
  { eapply does_conseq; [apply does_quiet|done|].
    - destruct (bool_decide _); [|done]. apply avoids_bind; [apply avoids_perform|done].
    - intros [] h s Hh; [done|]. split; [done|]. by split; intros ? [=]. }
  intros ev h1 s1 Hh1.
  eapply does_bind with (M := fun b1 h _ => executions h = [] /\ same_bundle b b1 /\
    executed_exactly b1 (if bool_decide (st = BM_EXECUTED) then l ++ [i] else l)).
  { eapply does_conseq; [apply (store_marked_does (fun _ => True))|done|].
    intros [b1|e'] h s [Hh H]; [by destruct (H b1 eq_refl)|]. rewrite executions_app, Hh1, Hh.
    split; [done|]. by split; intros ? [=]. }
  intros b1 h2 s2 (Hh2 & Hs & Hx1). revert Hx1. case_bool_decide as Hst; intros Hx1.
  - apply does_ret. intros s ->. rewrite !executions_app, Hh1, Hh2. split; [done|].
    split; [|by intros ? [=]]. intros b' [= <-]. by split; [apply Hc|].
  - eapply does_bind with (M := fun b2 h s => executions h = [] /\ ended b b2 l s).
    { eapply does_conseq; [apply (finish_failure_ended (fun _ => True) b1 _ l true _ Hx1)|done|].
      intros [b2|e'] h s [Hh H]; [split; [done|]; eapply ended_same; [done|by apply H]|].
      rewrite !executions_app, Hh1, Hh2, Hh. split; [done|]. by split; intros ? [=]. }
    intros b2 h3 s3 [Hh3 Hen]. apply does_ret. intros s ->. rewrite !executions_app, Hh1, Hh2, Hh3.
    split; [done|]. split; [by intros ? [=]|]. intros b' [= <-]. split; [|done]. intros Hq. by apply Hst, Hc.
Qed.
End Member.

(** ** The due members, in order *)

(** The members asked for are the first of [l], all but the last one were
    confirmed, and each carries the capability issued for it in this bundle. *)
Record carried (b : BundleCommit) (l : list entry) (xs : list execution) : Prop := {
  ca_prefix : map ex_plan xs `prefix_of` map entry_plan l;
  ca_confirmed : Forall confirmed (removelast xs);
  ca_capability : Forall (fun x => aec_bundle_id (ex_capability x) = bc_id b /\
                                   aec_member_plan_id (ex_capability x) = pl_id (ex_plan x)) xs
}.

Lemma carried_nil b l : carried b l [].
Proof. split; [apply prefix_nil|done..]. Qed.

Lemma carried_once b x l r h : asked_once b (entry_plan x) r h -> carried b (x :: l) (executions h).
Proof.
  intros [(e & _ & ->)|(c & -> & H1 & H2)]; [apply carried_nil|]. split; simpl; [|done|by repeat constructor].
  apply prefix_cons, prefix_nil.
Qed.

Lemma carried_cons b b' x l c outcomes xs : bc_id b' = bc_id b -> statuses_of outcomes = [ES_CONFIRMED_SUCCESS] ->
  aec_bundle_id c = bc_id b -> aec_member_plan_id c = pl_id (entry_plan x) -> carried b' l xs ->
  carried b (x :: l) (mkExecution (entry_plan x) c (Ok outcomes) :: xs).
Proof.
  intros Hid Hc H1 H2 [Hp Hf Hcap]. split.
  - by apply prefix_cons.
  - destruct xs as [|y xs]; [done|]. change (Forall confirmed (mkExecution (entry_plan x) c (Ok outcomes) :: removelast (y :: xs))).
    constructor; [by exists outcomes|done].
  - constructor; [done|]. rewrite <- Hid. exact Hcap.
Qed.

Definition unconfirmed_once (r : result exn (list ExecutionOutcome)) : Prop :=
  forall outcomes, r = Ok outcomes -> statuses_of outcomes <> [ES_CONFIRMED_SUCCESS].

Lemma asked_unconfirmed b p r h : asked_once b p r h -> unconfirmed_once r -> ~ Exists confirmed (executions h).
Proof.
  intros [(e & _ & ->)|(c & -> & _)] Hr He; [by apply Exists_nil in He|].
  apply Exists_cons in He as [(o & Ho & Hs)|He]; [|by apply Exists_nil in He]. by eapply Hr.
Qed.

(** What the loop leaves behind, [l] being executed before it. *)
Record loop_result (b : BundleCommit) (l : list nat) (todo : list entry)
    (r : result exn (BundleCommit + BundleCommit)) (xs : list execution) (s : S) : Prop := {
  lr_carried : carried b todo xs;
  lr_all : forall b', r = Ok (inr b') -> Forall confirmed xs /\ map ex_plan xs = map entry_plan todo /\
    same_bundle b b' /\ executed_exactly b' (l ++ map entry_index todo);
  lr_ended : forall b', r = Ok (inl b') -> exists l', ended b b' l' s /\ (l' <> [] <-> l <> [] \/ Exists confirmed xs)
}.

Lemma loop_failed b l x todo e r h s : asked_once b (entry_plan x) r h ->
  loop_result b l (x :: todo) (Err e) (executions h) s.
Proof. intros H. split; [by eapply carried_once|by intros ? [=]..]. Qed.

Lemma loop_stopped b b' l x todo r h s : asked_once b (entry_plan x) r h -> unconfirmed_once r ->
  ended b b' l s -> loop_result b l (x :: todo) (Ok (inl b')) (executions h) s.
Proof.
  intros Hask Hr Hen. split; [by eapply carried_once|by intros ? [=]|]. intros b2 [= <-]. exists l. split; [done|].
  split; [by left|]. intros [?|Hex]; [done|]. exfalso. by eapply asked_unconfirmed.
Qed.

Lemma loop_continued b b' l x todo c outcomes r xs s : same_bundle b b' ->
  statuses_of outcomes = [ES_CONFIRMED_SUCCESS] -> aec_bundle_id c = bc_id b ->
  aec_member_plan_id c = pl_id (entry_plan x) -> loop_result b' (l ++ [entry_index x]) todo r xs s ->
  loop_result b l (x :: todo) r (mkExecution (entry_plan x) c (Ok outcomes) :: xs) s.
Proof.
  intros Hsame Hs H1 H2 [Hca Hall Hend]. split.
  - by apply (carried_cons b b'); [apply Hsame|..].
  - intros b2 Hb. destruct (Hall b2 Hb) as (Hf & Hm & Hs2 & Hx2). split_and!.
    + constructor; [by exists outcomes|done].
    + change (entry_plan x :: map ex_plan xs = entry_plan x :: map entry_plan todo). by rewrite Hm.
    + by eapply same_bundle_trans.
    + by rewrite <- app_assoc in Hx2.
  - intros b2 Hb. destruct (Hend b2 Hb) as (l' & Hen & Hl'). exists l'. split; [by eapply ended_same|].
    rewrite Hl', Exists_cons. split; [|left; by destruct l]. intros _. right. left. by exists outcomes.
Qed.

Lemma execute_due_does rq plans due todo : forall P b l,
  executed_exactly b l -> NoDup (l ++ map entry_index todo) ->
  Forall (fun x => entry_index x < List.length (bc_members b))%nat todo ->
  does P (execute_due_members (R := R) bs rq plans due todo b)
    (fun r h s => loop_result b l todo r (executions h) s).
Proof.
  induction todo as [|x todo IH]; intros P b l Hl Hnd Hlen.
  { apply does_ret. intros s _. split; [apply carried_nil| |by intros ? [=]].
    intros b' [= <-]. simpl. rewrite app_nil_r. by split_and!. }
  apply Forall_cons in Hlen as [Hx Hlen].
  assert (Hi : entry_index x ∉ l).
  { intros Hin. rewrite NoDup_app in Hnd. destruct Hnd as (_ & Hd & _). eapply Hd, list_elem_of_here. exact Hin. }
  apply does_look. intros s0 _.
  eapply does_conseq with (P := fun _ => True);
    [eapply does_bind with (M := fun r h _ => asked_once b (entry_plan x) r h)|done|
     intros r h s H; exact (H : loop_result b l (x :: todo) r (executions h) s)].
  { apply does_attempt. eapply does_conseq; [apply (execute_member_does (fun _ => True))|done|].
    intros [o|e] h s H; [done|]. destruct (is_exception e); [done|by eapply loop_failed]. }
  intros [outcomes|e] h1 s1 Hask.
  - eapply does_bind with (M := fun r h s => executions h = [] /\
      (forall b', r = inr b' -> statuses_of outcomes = [ES_CONFIRMED_SUCCESS] /\ same_bundle b b' /\
         executed_exactly b' (l ++ [entry_index x])) /\
      (forall b', r = inl b' -> statuses_of outcomes <> [ES_CONFIRMED_SUCCESS] /\ ended b b' l s)).
    { eapply does_conseq; [apply (member_returned_does b l (entry_index x) Hl Hi Hx (fun _ => True) x outcomes eq_refl)|done|].
      intros [r|e] h s (Hh & Hr & He).
      - split; [done|]. split; intros b' ->; [by apply Hr|by apply He].
      - rewrite executions_app, Hh, app_nil_r. by eapply loop_failed. }
    intros [b'|b'] h2 s2 (Hh2 & Hr & He).
    + destruct (He b' eq_refl) as [Hs Hen]. apply does_ret. intros s ->.
      rewrite !executions_app, Hh2, !app_nil_r. eapply loop_stopped; [done| |done]. by intros o [= <-].
    + destruct (Hr b' eq_refl) as (Hs & Hsame & Hex). clear Hr He.
      destruct Hask as [(e & [=] & _)|(c & Hh1 & Hc1 & Hc2)].
      eapply does_conseq; [apply (IH (fun _ => True) b' (l ++ [entry_index x]) Hex)|done|].
      * by rewrite <- app_assoc.
      * eapply Forall_impl; [exact Hlen|]. intros y Hy. by rewrite (sb_size _ _ Hsame).
      * intros r h s H. rewrite !executions_app, Hh1, Hh2. by eapply loop_continued.
  - eapply does_bind with (M := fun b2 h s => executions h = [] /\ ended b b2 l s).
    { eapply does_conseq; [apply (member_raised_does b l (entry_index x) Hl Hi Hx (fun _ => True) e)|done|].
      intros [b2|e'] h s [Hh H]; [split; [done|by apply H]|].
      rewrite executions_app, Hh, app_nil_r. by eapply loop_failed. }
    intros b2 h2 s2 [Hh2 Hen]. apply does_ret. intros s ->. rewrite !executions_app, Hh2, !app_nil_r.
    eapply loop_stopped; [done| |done]. by intros o [=].
Qed.

(** ** Entries *)

Lemma entries_plans members plans : List.length members = List.length plans ->
  map entry_plan (entries members plans) = plans.
Proof.
  intros Hl. transitivity ((zip members plans).*2).
  - apply list_eq. intros i. unfold entries. change (map entry_plan) with (fmap (M := list) entry_plan).
    rewrite !list_lookup_fmap, list_lookup_imap. by destruct (zip members plans !! i) as [[]|].
  - apply snd_zip. lia.
Qed.

Lemma entries_indexes members plans i x : entries members plans !! i = Some x -> entry_index x = i.
Proof.
  unfold entries. rewrite list_lookup_imap. destruct (zip members plans !! i) as [[m p]|]; [|done].
  by intros [= <-].
Qed.

Lemma entries_NoDup members plans : NoDup (map entry_index (entries members plans)).
Proof.
  apply NoDup_alt. change (map entry_index) with (fmap (M := list) entry_index). intros i j k.
  rewrite !list_lookup_fmap, !fmap_Some. intros (x & Hx & ->) (y & Hy & Heq).
  apply entries_indexes in Hx, Hy. congruence.
Qed.

Lemma entries_bounded members plans x : x ∈ entries members plans -> (entry_index x < List.length members)%nat.
Proof.
  intros [i Hi]%list_elem_of_lookup. rewrite (entries_indexes members plans i x Hi).
  apply lookup_lt_Some in Hi. unfold entries in Hi. rewrite length_imap, length_zip_with in Hi. lia.
Qed.

Lemma filter_entries_NoDup (f : entry -> bool) l : NoDup (map entry_index l) ->
  NoDup (map entry_index (List.filter f l)).
Proof.
  induction l as [|x l IH]; simpl; [done|]. rewrite NoDup_cons. intros [Hx Hl].
  destruct (f x); [simpl; apply NoDup_cons|by apply IH]. split; [|by apply IH].
  rewrite !list_elem_of_In, !in_map_iff in *. intros (y & Hy & [Hin _]%filter_In). apply Hx. by exists y.
Qed.

(** ** Scheduling the others *)

Definition row_pending (p : Plan) (t : scheduled_plans) : Prop :=
  exists row, od_get (pl_id p) t = Some row /\ sr_status row = SS_PENDING /\ sr_payload row = p.

Lemma insert_members_rows plans : forall t t', insert_members plans t = (Ok tt, t') ->
  Forall (fun p => row_pending p t') plans /\ (forall q, row_pending q t -> row_pending q t').
Proof.
  induction plans as [|p plans IH]; intros t t'; simpl; [by intros [= <-]|].
  destruct (pl_execute_at p) as [at_|]; [|done].
  rewrite stm_bind_ok. intros (u & t1 & H1 & H2). unfold insert_pending in H1.
  rewrite stm_bind_get in H1. destruct (od_mem (pl_id p) t) eqn:Em; [done|].
  injection H1 as _ <-. destruct (IH _ _ H2) as [Hf Hk]. clear IH H2.
  assert (forall q, row_pending q t -> row_pending q (od_set (pl_id p) (mkScheduledRow (execute_at_text p at_) SS_PENDING p) t)) as Hq.
  { intros q (row & Hr & ? & ?). exists row. split; [|done]. rewrite od_get_set_ne; [done|].
    intros He. unfold od_mem in Em. rewrite <- He, Hr in Em. done. }
  split; [constructor; [|done]|by intros; apply Hk, Hq].
  apply Hk. eexists. by rewrite od_get_set_eq.
Qed.

(** ** The answer *)

(** What the status of the answer says of the executions. *)
Definition status_fits (plans : list Plan) (due future : list entry) (b : BundleCommit) (xs : list execution) (s : S) : Prop :=
  match bc_status b with
  | BC_COMPLETED => Forall confirmed xs /\ map ex_plan xs = plans /\
      Forall (fun m => bm_status m = BM_EXECUTED) (bc_members b)
  | BC_SCHEDULED => Forall confirmed xs /\ map ex_plan xs = map entry_plan due /\
      Forall (fun x => row_pending (entry_plan x) (cm_scheduled s)) future
  | BC_PARTIALLY_COMMITTED => Exists confirmed xs
  | BC_FAILED | BC_UNKNOWN => ~ Exists confirmed xs
  | _ => False
  end.

(** What a bundle [b] with these members comes to. *)
Record settled (b : BundleCommit) (plans : list Plan) (due future : list entry)
    (r : result exn BundleCommit) (xs : list execution) (s : S) : Prop := {
  se_carried : carried b due xs;
  se_answer : forall b', r = Ok b' -> same_bundle b b' /\ status_fits plans due future b' xs s /\
    (od_mem (bc_id b') (cm_bundles s) = true -> stored b' s)
}.

Lemma settled_failed b plans due future e xs s : carried b due xs -> settled b plans due future (Err e) xs s.
Proof. intros H. by split; [|intros ? [=]]. Qed.

Lemma failure_fits plans due future b xs s committed unknown : bc_status b = failure_status committed unknown ->
  (committed = true <-> Exists confirmed xs) -> status_fits plans due future b xs s.
Proof.
  unfold status_fits, failure_status. intros ->. destruct committed, unknown; simpl; intros H; try (by apply H); intros Hx; by apply H in Hx.
Qed.

(** [_finish_failure] when the executions were confirmed, or not. *)
Lemma finish_failure_settled P (b b1 : BundleCommit) plans due future e committed consumed unknown xs :
  same_bundle b b1 -> carried b due xs -> (committed = true <-> Exists confirmed xs) ->
  does P (finish_failure (R := R) b1 e committed consumed unknown) (fun r h s =>
    executions h = [] /\ settled b plans due future r xs s).
Proof.
  intros Hs Hc He. eapply does_conseq; [apply (finish_failure_does (fun _ => True))|done|].
  intros r h s [Hh H]. split; [done|]. split; [done|]. intros b' Hb. destruct (H b' Hb) as (Hst & Hf & Hr).
  split; [eapply same_bundle_trans; [done|by apply rewritten_same]|]. split; [by eapply failure_fits|done].
Qed.

Lemma schedule_entries_does P (b b1 : BundleCommit) plans due l xs :
  same_bundle b b1 -> carried b due xs -> Forall confirmed xs -> map ex_plan xs = map entry_plan due ->
  does P (schedule_entries (R := R) b1 l) (fun r h s => executions h = [] /\
    forall b', r = Ok b' -> settled b plans due l (Ok b') xs s).
Proof.
  intros Hs Hc Hf Hm. apply does_storage; [intros e s; split; [done|by intros ? [=]]|].
  intros s. unfold on_both_tables, schedule_members_transaction. destruct (negb _); [by split; [|intros ? [=]]|].
  destruct (insert_members (map entry_plan l) (cm_scheduled s)) as [[[]|e] t] eqn:Ei; simpl;
    [|by split; [|intros ? [=]]].
  destruct (schedule_indexes _ _) as [members|e] eqn:Ex; simpl; [|by split; [|intros ? [=]]].
  split; [done|]. intros b' [= <-]. split; [done|]. intros ? [= <-]. split; [|split].
  - eapply same_bundle_trans; [done|]. split; [done..|]. simpl. clear -Ex. revert members Ex.
    generalize (bc_members b1). induction (map entry_index l) as [|i il IH]; intros l0 members; simpl.
    + by intros [= ->].
    + destruct (l0 !! i); [|done]. intros H%IH. by rewrite H, length_insert.
  - unfold status_fits. simpl. split_and!; [done..|]. pose proof (proj1 (insert_members_rows _ _ _ Ei)) as H. by rewrite Forall_map in H.
  - unfold stored. simpl. destruct (od_mem (bc_id b1) (cm_bundles s)) eqn:Em; [intros _; apply od_get_set_eq|].
    by rewrite Em.
Qed.

(** The approvals reserved for the bundle were consumed, before any execution:
    the step wrote the ledger. *)
Definition approvals_consumed (b : BundleCommit) (h : happened) : Prop :=
  exists h0 s s' h1, h = h0 ++ Acted s s' :: h1 /\ executions h0 = [] /\
    commit_reservation (reservation_of b) [] (cm_approvals s) = (Ok tt, cm_approvals s').

Lemma approvals_consumed_before b h0 h : executions h0 = [] -> approvals_consumed b h -> approvals_consumed b (h0 ++ h).
Proof.
  intros H0 (k & s & s' & k1 & -> & Hk & Hc). exists (h0 ++ k), s, s', k1.
  by rewrite executions_app, H0, Hk, <- app_assoc.
Qed.
Lemma approvals_consumed_after b h h' : approvals_consumed b h -> approvals_consumed b (h ++ h').
Proof.
  intros (k & s & s' & k1 & -> & Hk & Hc). exists k, s, s', (k1 ++ h'). by rewrite <- app_assoc.
Qed.

(** A result of [consume_approvals] under [try]: an exception that is none of
    [Exception] ends the commit. *)
Definition consumption (b : BundleCommit) (r : result exn (result exn unit)) (h : happened) : Prop :=
  executions h = [] /\ forall u, r = Ok (Ok u) -> approvals_consumed b h.

Lemma consume_approvals_does (P : S -> Prop) (b : BundleCommit) (keep : S -> Prop) :
  (forall s, P s -> keep s) -> (forall s t, keep s -> keep (s <| cm_approvals := t |>)) ->
  does P (coro_attempt (consume_approvals (R := R) b)) (fun r h s => consumption b r h /\ keep s).
Proof.
  intros Hk Ha. apply does_attempt, does_perform. intros s Hs. unfold on_ledger.
  destruct (commit_reservation _ _ _) as [[[]|e] t] eqn:E; simpl.
  - split; [|apply Ha; auto]. split; [done|]. intros u _.
    exists [], s, (s <| cm_approvals := t |>), []. split; [done|]. split; [done|exact E].
  - destruct (is_exception e); (split; [split; [done|by intros ? [=]]|apply Ha; auto]).
Qed.

Lemma settled_ledger b plans due future r xs s t : settled b plans due future r xs s ->
  settled b plans due future r xs (s <| cm_approvals := t |>).
Proof. intros [H1 H2]. split; [exact H1|exact H2]. Qed.

Lemma no_execution : (false = true) <-> Exists confirmed [].
Proof. split; [done|]. by intros H%Exists_nil. Qed.

(** Nothing is due. *)
Lemma commit_future_does P (b : BundleCommit) plans l :
  does P (commit_future (R := R) b l) (fun r h s => executions h = [] /\ settled b plans [] l r [] s).
Proof.
  assert (Hb : same_bundle b b) by done. pose proof (carried_nil b []) as Hc.
  eapply does_bind with (M := fun r h s => executions h = [] /\
    forall b', r = Ok b' -> settled b plans [] l (Ok b') [] s).
  { apply does_attempt. eapply does_conseq; [by apply (schedule_entries_does (fun _ => True) b b plans [] l [])|done|].
    intros [b1|e] h s [Hh H]; [split; [done|]; by intros b' [= <-]; apply H|].
    destruct (is_exception e); (split; [done|]); [by intros ? [=]|by apply settled_failed]. }
  intros [b1|e] h1 s1 [Hh1 H1].
  - specialize (H1 b1 eq_refl). assert (Hs : same_bundle b b1) by by apply H1.
    eapply does_bind with (M := fun r h s => executions h = [] /\ settled b plans [] l (Ok b1) [] s).
    { eapply does_conseq; [apply (consume_approvals_does (fun s => s = s1) b (settled b plans [] l (Ok b1) []))|done|].
      - by intros s ->.
      - intros s t. apply settled_ledger.
      - intros [r|e] h s [[Hh _] Hk]; [done|]. rewrite executions_app, Hh1, Hh. split; [done|by apply settled_failed]. }
    intros [u|e] h2 s2 [Hh2 H2].
    + apply does_ret. intros s ->. by rewrite !executions_app, Hh1, Hh2.
    + eapply does_bind with (M := fun _ h _ => executions h = []).
      { eapply does_conseq; [apply (does_quiet (fun _ => True)), avoids_iter|done|].
        - intros x. apply avoids_bind; [apply avoids_attempt, quiet_storage|done].
        - intros [] h s Hh; [done|]. rewrite !executions_app, Hh1, Hh2, Hh. split; [done|by apply settled_failed]. }
      intros _ h3 s3 Hh3. eapply does_conseq;
        [apply (finish_failure_settled (fun _ => True) b b1 plans [] l e false false true [] Hs Hc no_execution)|done|].
      intros r h s [Hh H]. by rewrite !executions_app, Hh1, Hh2, Hh3, Hh.
  - eapply does_conseq;
      [apply (finish_failure_settled (fun _ => True) b b plans [] l e false false false [] Hb Hc no_execution)|done|].
    intros r h s [Hh H]. by rewrite executions_app, Hh1, Hh.
Qed.

(** Something is due; nothing was executed of [b] before. *)
Section Due.
Context (rq : BundleCommitRequest) (plans : list Plan) (b : BundleCommit) (due future : list entry).
Context (Hnone : executed_exactly b []) (Hnd : NoDup (map entry_index due)).
Context (Hlen : Forall (fun x => entry_index x < List.length (bc_members b))%nat due) (Hdue : due <> []).
Context (Hall : future = [] -> map entry_plan due = plans /\
  forall i, (i < List.length (bc_members b))%nat -> i ∈ map entry_index due).

Lemma all_executed b' : same_bundle b b' -> executed_exactly b' (map entry_index due) -> future = [] ->
  Forall (fun m => bm_status m = BM_EXECUTED) (bc_members b').
Proof using Hall.
  intros Hs He Hf. apply Forall_lookup_2. intros i m Hm.
  destruct (proj2 (He i)) as (m' & Hm' & ?); [|congruence].
  apply (Hall Hf). rewrite <- (sb_size _ _ Hs). by eapply lookup_lt_Some.
Qed.

Lemma ended_settled b' l s xs : carried b due xs -> ended b b' l s -> (l <> [] <-> Exists confirmed xs) ->
  settled b plans due future (Ok b') xs s.
Proof.
  intros Hc [Hst Hs [unknown Hu] He] Hl. split; [done|]. intros ? [= <-]. split; [done|]. split; [|done].
  eapply failure_fits; [exact Hu|]. rewrite negb_true_iff, bool_decide_eq_false. exact Hl.
Qed.

(** The last of them was confirmed too. *)
Lemma after_due_does P b1 xs : carried b due xs -> Forall confirmed xs -> map ex_plan xs = map entry_plan due ->
  same_bundle b b1 -> executed_exactly b1 (map entry_index due) ->
  does P (if bool_decide (future = []) then store_bundle (b1 <| bc_status := BC_COMPLETED |>)
          else scheduled ← coro_attempt (schedule_entries b1 future);
               match scheduled with
               | Ok scheduled => mret scheduled
               | Err e => finish_failure b1 e true true false
               end : C BundleCommit)
    (fun r h s => executions h = [] /\ settled b plans due future r xs s).
Proof using Hnd Hlen Hdue Hall.
  intros Hc Hf Hm Hs He. case_bool_decide as Hfut.
  - eapply does_conseq; [apply (store_bundle_does (fun _ => True))|done|].
    intros r h s [Hh H]. split; [done|]. split; [done|]. intros b' Hb. destruct (H b' Hb) as (Hst & Hcomp & Hr).
    assert (same_bundle b b') as Hs' by by (apply (same_bundle_trans _ _ _ Hs); destruct (rewritten_same _ _ Hr); by split).
    split; [done|]. split; [|done]. unfold status_fits. rewrite Hcomp. simpl. split_and!; [done| |].
    + rewrite Hm. by apply Hall.
    + apply all_executed; [done| |done]. intros i. rewrite <- (He i). exact (rewritten_executed _ _ i Hr).
  - eapply does_bind with (M := fun r h s => executions h = [] /\
      forall b', r = Ok b' -> settled b plans due future (Ok b') xs s).
    { apply does_attempt. eapply does_conseq; [by apply (schedule_entries_does (fun _ => True) b b1 plans due future xs)|done|].
      intros [b2|e] h s [Hh H]; [split; [done|]; by intros b' [= <-]; apply H|].
      destruct (is_exception e); (split; [done|]); [by intros ? [=]|by apply settled_failed]. }
    intros [b2|e] h1 s1 [Hh1 H1].
    + apply does_ret. intros s ->. rewrite app_nil_r. split; [done|]. by apply H1.
    + eapply does_conseq; [apply (finish_failure_settled (fun _ => True) b b1 plans due future e true true false xs Hs Hc)|done|].
      * split; [|done]. intros _. destruct xs as [|x xs]; [|by apply Exists_cons_hd; apply Forall_cons in Hf as [? _]].
        simpl in Hm. by destruct due.
      * intros r h s [Hh H]. by rewrite executions_app, Hh1, Hh.
Qed.

Lemma commit_due_does P :
  does P (commit_due (R := R) bs rq plans b due future) (fun r h s =>
    settled b plans due future r (executions h) s /\ (executions h <> [] -> approvals_consumed b h)).
Proof using Hnone Hnd Hlen Hdue Hall.
  eapply does_bind with (M := fun r h _ => consumption b (Ok r) h).
  { eapply does_conseq; [apply (consume_approvals_does P b (fun _ => True)); done|done|].
    intros [r|e] h s [[Hh H] _]; [split; [done|exact H]|]. rewrite Hh. split; [|done].
    apply settled_failed, carried_nil. }
  intros [u|e] h1 s1 [Hh1 H1].
  - assert (forall h, executions h <> [] -> approvals_consumed b (h1 ++ h)) as Hcons.
    { intros h _. by apply approvals_consumed_after, (H1 u). }
    eapply does_bind with (M := fun r h s => loop_result b [] due (Ok r) (executions h) s).
    { eapply does_conseq; [apply (execute_due_does rq plans (map entry_index due) due (fun _ => True) b [] Hnone Hnd Hlen)|done|].
      intros [r|e] h s H; [done|]. rewrite executions_app, Hh1. split; [|apply Hcons].
      apply settled_failed, H. }
    intros [b1|b1] h2 s2 [Hca Hok Hend].
    + apply does_ret. intros s ->. rewrite app_nil_r, executions_app, Hh1. split; [|apply Hcons].
      destruct (Hend b1 eq_refl) as (l & Hen & Hl). eapply ended_settled; [done|done|].
      rewrite Hl. split; [|by right]. by intros [?|?].
    + destruct (Hok b1 eq_refl) as (Hf & Hm & Hs & He).
      eapply does_conseq; [apply (after_due_does (fun _ => True) b1 (executions h2) Hca Hf Hm Hs He)|done|].
      intros r h s [Hh H]. rewrite !executions_app, Hh1, Hh, app_nil_r. split; [exact H|].
      intros Hx. apply (Hcons (h2 ++ h)). by rewrite executions_app, Hh, app_nil_r.
  - eapply does_conseq; [apply (finish_failure_settled (fun _ => True) b b plans due future e false false true []
      ltac:(done) (carried_nil b due) no_execution)|done|].
    intros r h s [Hh H]. rewrite executions_app, Hh1, Hh. by split.
Qed.
End Due.

(** ** Plans *)

(** The plan of a member, before and after its approval. *)
Definition member_checked (m : BundleCommitRequestMember) (p : Plan) : Prop :=
  validation_digest p = Some (rm_validation_digest m) /\ pl_execute_at p = rm_execute_at m.

Definition approved_from (p p' : Plan) : Prop :=
  validation_digest p' = validation_digest p /\ pl_execute_at p' = pl_execute_at p.

Lemma does_map {A B} (f : A -> C B) (Q : A -> B -> Prop) l :
  (forall x P, does P (f x) (fun r h s => executions h = [] /\ forall y, r = Ok y -> Q x y)) ->
  forall P, does P (coro_map f l) (fun r h s => executions h = [] /\ forall ys, r = Ok ys -> Forall2 Q l ys).
Proof.
  intros Hf. induction l as [|x l IH]; intros P; simpl.
  { apply does_ret. intros s _. split; [done|]. by intros ys [= <-]. }
  eapply does_bind with (M := fun y h _ => executions h = [] /\ Q x y).
  { eapply does_conseq; [apply (Hf x (fun _ => True))|done|].
    intros [y|e] h s [Hh H]; (split; [done|]); [by apply H|by intros ? [=]]. }
  intros y h1 s1 [Hh1 Hy]. eapply does_bind with (M := fun ys h _ => executions h = [] /\ Forall2 Q l ys).
  { eapply does_conseq; [apply (IH (fun _ => True))|done|].
    intros [ys|e] h s [Hh H]; [split; [done|by apply H]|].
    rewrite executions_app, Hh1, Hh. split; [done|by intros ? [=]]. }
  intros ys h2 s2 [Hh2 Hys]. apply does_ret. intros s _. rewrite !executions_app, Hh1, Hh2.
  split; [done|]. intros ? [= <-]. by constructor.
Qed.

Lemma quiet_inspect {A} (f : S -> result exn A) : quiet (inspect f).
Proof. apply avoids_perform. Qed.

Lemma inspect_does {A} P (f : S -> result exn A) (Q : A -> Prop) : (forall s a, f s = Ok a -> Q a) ->
  does P (inspect f) (fun r h s => executions h = [] /\ forall a, r = Ok a -> Q a).
Proof. intros H. apply does_perform. intros s _. split; [done|]. apply H. Qed.

Lemma check_member_checked (s : S) digest m p : check_member s digest m p = Ok tt -> member_checked m p.
Proof.
  unfold check_member. intros (u & H1 & H)%result_bind_ok. apply result_bind_ok in H as (v & H2 & _).
  apply raise_if_ok, negb_false_iff, bool_decide_eq_true in H1, H2. done.
Qed.

Lemma quiet_member_plan id : quiet (member_plan (R := R) bs id).
Proof.
  apply avoids_bind; [done|]. intros s. destruct (cm_plans s !! id); [done|].
  destruct (bs_plan_repository bs); [|done].
  apply avoids_bind; [apply quiet_storage|]. by intros [p|].
Qed.

Lemma preflight_does digest P m :
  does P (preflight_member (R := R) bs digest m) (fun r h s => executions h = [] /\ forall p, r = Ok p -> member_checked m p).
Proof.
  eapply does_bind with (M := fun _ h _ => executions h = []).
  { eapply does_conseq; [apply (does_quiet (fun _ => True)), quiet_member_plan|done|].
    intros [] h s Hh; [done|]. split; [done|by intros ? [=]]. }
  intros [p|] h1 s1 Hh1; [|apply does_raise; intros s _; rewrite app_nil_r; split; [done|by intros ? [=]]].
  eapply does_bind with (M := fun _ h _ => executions h = [] /\ member_checked m p).
  { eapply does_conseq; [apply (inspect_does (fun _ => True) _ (fun _ => member_checked m p));
      intros s [] H; by eapply check_member_checked|done|].
    intros [u|e] h s [Hh H]; [split; [done|by apply (H u)]|]. rewrite executions_app, Hh1, Hh. split; [done|by intros ? [=]]. }
  intros _ h2 s2 [Hh2 H]. apply does_ret. intros s _. rewrite !executions_app, Hh1, Hh2. split; [done|].
  by intros ? [= <-].
Qed.

Lemma approved_from_refl p : approved_from p p.
Proof. done. Qed.

Lemma approve_from now p g p' : approve now p g = Ok p' -> approved_from p p'.
Proof. intros (v & Hv & _ & _ & _ & _ & _ & _ & _ & _ & ->)%approve_ok. done. Qed.

Lemma approve_member_does P (x : Plan * option ApprovalGrant) :
  does P (approve_member (R := R) bs x) (fun r h s => executions h = [] /\ forall p, r = Ok p -> approved_from (fst x) p).
Proof.
  destruct x as [p [g|]]; [|apply does_ret; intros s _; split; [done|]; by intros ? [= <-]].
  eapply does_bind with (M := fun p' h _ => executions h = [] /\ approved_from p p').
  { eapply does_conseq; [apply (inspect_does (fun _ => True) _ (approved_from p)); intros s p'; apply approve_from|done|].
    intros [p'|e] h s [Hh H]; (split; [done|]); [by apply H|by intros ? [=]]. }
  intros p' h1 s1 [Hh1 H]. eapply does_bind with (M := fun _ h _ => executions h = []).
  { eapply does_conseq; [apply (does_quiet (fun _ => True)); done|done|]. intros [] h s Hh; [done|].
    rewrite executions_app, Hh1, Hh. split; [done|by intros ? [=]]. }
  intros _ h2 s2 Hh2. eapply does_bind with (M := fun _ h _ => executions h = []).
  { eapply does_conseq; [apply (does_quiet (fun _ => True)), avoids_if; [apply quiet_storage|done]|done|].
    intros [] h s Hh; [done|]. rewrite !executions_app, Hh1, Hh2, Hh. split; [done|by intros ? [=]]. }
  intros _ h3 s3 Hh3. apply does_ret. intros s _. rewrite !executions_app, Hh1, Hh2, Hh3. split; [done|].
  by intros ? [= <-].
Qed.

Lemma reserve_all_does digest res l : forall P,
  does P (reserve_all (R := R) digest res l) (fun r h s => executions h = [] /\ forall gs, r = Ok gs -> map fst gs = map snd l).
Proof.
  induction l as [|[m p] l IH]; intros P; [apply does_ret; intros s _; split; [done|]; by intros ? [= <-]|].
  eapply does_bind with (M := fun _ h _ => executions h = []).
  { eapply does_conseq; [apply (does_quiet (fun _ => True))|done|].
    - destruct (rm_approval_id m); [|done]. apply avoids_bind; [apply avoids_perform|done].
    - intros [] h s Hh; [done|]. split; [done|by intros ? [=]]. }
  intros g h1 s1 Hh1. eapply does_bind with (M := fun gs h _ => executions h = [] /\ map fst gs = map snd l).
  { eapply does_conseq; [apply (IH (fun _ => True))|done|].
    intros [gs|e] h s [Hh H]; [split; [done|by apply H]|].
    rewrite executions_app, Hh1, Hh. split; [done|by intros ? [=]]. }
  intros gs h2 s2 [Hh2 Hgs]. apply does_ret. intros s _. rewrite !executions_app, Hh1, Hh2. split; [done|].
  intros ? [= <-]. simpl. by rewrite Hgs.
Qed.

Lemma reserve_approvals_does P digest res members plans : List.length members = List.length plans ->
  does P (reserve_approvals (R := R) bs digest res members plans) (fun r h s => executions h = [] /\
    forall plans', r = Ok plans' -> Forall2 approved_from plans plans').
Proof.
  intros Hlen. eapply does_bind with (M := fun r h _ => executions h = [] /\ forall gs, r = Ok gs -> map fst gs = plans).
  { apply does_attempt. eapply does_conseq; [apply (reserve_all_does digest res (zip members plans) (fun _ => True))|done|].
    intros [gs|e] h s [Hh H].
    - split; [done|]. intros ? [= <-]. rewrite (H gs eq_refl). apply snd_zip. lia.
    - destruct (is_exception e); (split; [done|by intros ? [=]]). }
  intros [gs|e] h1 s1 [Hh1 H1].
  - specialize (H1 gs eq_refl). eapply does_conseq;
      [apply (does_map (approve_member bs) (fun x p => approved_from (fst x) p) gs (fun x P => approve_member_does P x) (fun _ => True))|done|].
    intros r h s [Hh H]. rewrite executions_app, Hh1, Hh. split; [done|]. intros plans' Hr.
    rewrite <- H1. apply Forall2_fmap_l. by apply H.
  - eapply does_bind with (M := fun _ h _ => executions h = []).
    { eapply does_conseq; [apply (does_quiet (fun _ => True)), quiet_release|done|]. intros [] h s Hh; [done|].
      rewrite executions_app, Hh1, Hh. split; [done|by intros ? [=]]. }
    intros _ h2 s2 Hh2. apply does_raise. intros s _. rewrite !executions_app, Hh1, Hh2.
    split; [done|by intros ? [=]].
Qed.

(** ** Carrying out a stored bundle *)

Definition due_of (rq : BundleCommitRequest) (plans : list Plan) (now : datetime) : list entry :=
  List.filter (fun x => is_due now (entry_member x)) (entries (rq_members rq) plans).
Definition future_of (rq : BundleCommitRequest) (plans : list Plan) (now : datetime) : list entry :=
  List.filter (fun x => negb (is_due now (entry_member x))) (entries (rq_members rq) plans).

(** The commit gave up before anything was due. *)
Definition given_up (b : BundleCommit) (r : result exn BundleCommit) (h : happened) (s : S) : Prop :=
  executions h = [] /\ forall b', r = Ok b' -> same_bundle b b' /\ bc_status b' = BC_FAILED /\ stored b' s.

(** The members were carried out: in a state where every plan was executable
    and is the plan of its member, before the approvals were consumed and
    anything was executed. *)
Definition carried_out (rq : BundleCommitRequest) (b : BundleCommit) (r : result exn BundleCommit)
    (h : happened) (s : S) : Prop :=
  exists plans h0 s1 s1' h1, h = h0 ++ Acted s1 s1' :: h1 /\ executions h0 = [] /\
    Forall2 member_checked (rq_members rq) plans /\
    Forall (fun p => assert_executable (cm_service s1) (cm_now s1) p None = Ok tt) plans /\
    settled b plans (due_of rq plans (cm_now s1)) (future_of rq plans (cm_now s1)) r (executions h) s /\
    (executions h <> [] -> approvals_consumed b h1).

Lemma given_up_does P (b : BundleCommit) e :
  does P (finish_failure (R := R) b e false false false) (fun r h s => given_up b r h s).
Proof.
  eapply does_conseq; [apply (finish_failure_does (fun _ => True))|done|].
  intros r h s [Hh H]. split; [done|]. intros b' Hb. destruct (H b' Hb) as (? & ? & ?).
  split; [by apply rewritten_same|done].
Qed.

Lemma given_up_after b r h1 h s : executions h1 = [] -> given_up b r h s -> given_up b r (h1 ++ h) s.
Proof. intros Hh1 [Hh H]. split; [|done]. by rewrite executions_app, Hh1. Qed.

Lemma carried_out_after rq b r h1 h s : executions h1 = [] -> carried_out rq b r h s -> carried_out rq b r (h1 ++ h) s.
Proof.
  intros Hh1 (plans & h0 & s1 & s1' & h2 & -> & Hh0 & H1 & H2 & H3 & H4). exists plans, (h1 ++ h0), s1, s1', h2.
  split; [by rewrite <- app_assoc|]. split; [by rewrite executions_app, Hh1|]. by rewrite (executions_app h1), Hh1.
Qed.

Lemma filter_all {A} (f : A -> bool) l : List.filter (fun x => negb (f x)) l = [] -> List.filter f l = l.
Proof. induction l as [|x l IH]; simpl; [done|]. destruct (f x); simpl; [|done]. intros H. by rewrite IH. Qed.

Lemma all_due rq plans now : List.length (rq_members rq) = List.length plans -> future_of rq plans now = [] ->
  map entry_plan (due_of rq plans now) = plans /\
  forall i, (i < List.length (rq_members rq))%nat -> i ∈ map entry_index (due_of rq plans now).
Proof.
  intros Hl Hf. unfold due_of. rewrite (filter_all _ _ Hf). split; [by apply entries_plans|].
  intros i Hi. assert (is_Some (entries (rq_members rq) plans !! i)) as [x Hx].
  { apply lookup_lt_is_Some. unfold entries. rewrite length_imap, length_zip_with. lia. }
  change (map entry_index) with (fmap (M := list) entry_index). apply list_elem_of_fmap.
  exists x. split; [by rewrite (entries_indexes _ _ _ _ Hx)|]. by eapply list_elem_of_lookup_2.
Qed.

(** The two ways to carry out the members. *)
Lemma members_do P rq plans (b : BundleCommit) now :
  List.length (rq_members rq) = List.length plans -> List.length (bc_members b) = List.length (rq_members rq) ->
  executed_exactly b [] ->
  does P (if bool_decide (due_of rq plans now = []) then commit_future b (future_of rq plans now)
          else commit_due bs rq plans b (due_of rq plans now) (future_of rq plans now) : C BundleCommit)
    (fun r h s => settled b plans (due_of rq plans now) (future_of rq plans now) r (executions h) s /\
       (executions h <> [] -> approvals_consumed b h)).
Proof.
  intros Hl Hb Hn. case_bool_decide as Hd.
  - rewrite Hd. eapply does_conseq; [apply (commit_future_does (fun _ => True) b plans)|done|].
    intros r h s [Hh H]. by rewrite Hh.
  - apply commit_due_does; try done.
    + apply filter_entries_NoDup, entries_NoDup.
    + apply Forall_forall. intros x Hx. rewrite Hb. apply (entries_bounded _ plans).
      apply list_elem_of_In in Hx. apply filter_In in Hx as [Hx _]. by apply list_elem_of_In.
    + rewrite Hb. by apply all_due.
Qed.

Lemma checked_approved members plans plans' : Forall2 member_checked members plans ->
  Forall2 approved_from plans plans' -> Forall2 member_checked members plans'.
Proof.
  intros H. revert plans'. induction H as [|m p members plans [Hv He] _ IH]; intros plans'; inversion 1 as [|? p' ? ? [Hv' He']];
    subst; constructor; [split; congruence|by apply IH].
Qed.

Lemma carry_out_does P rq plans (b : BundleCommit) : Forall2 member_checked (rq_members rq) plans ->
  List.length (bc_members b) = List.length (rq_members rq) -> executed_exactly b [] ->
  does P (carry_out (R := R) bs rq plans b) (fun r h s => given_up b r h s \/ carried_out rq b r h s).
Proof.
  intros Hck Hb Hn. pose proof (Forall2_length _ _ _ Hck) as Hlen.
  eapply does_bind with (M := fun r h _ => executions h = [] /\ forall plans', r = Ok plans' -> Forall2 approved_from plans plans').
  { apply does_attempt. eapply does_conseq; [apply (reserve_approvals_does (fun _ => True) _ _ _ _ Hlen)|done|].
    intros [ps|e] h s [Hh H]; [split; [done|]; intros ? [= <-]; by apply H|].
    destruct (is_exception e); [split; [done|by intros ? [=]]|]. left. split; [done|by intros ? [=]]. }
  intros [plans'|e] h1 s1 [Hh1 H1].
  2: { eapply does_conseq; [apply (given_up_does (fun _ => True))|done|]. intros r h s H. left. by apply given_up_after. }
  specialize (H1 plans' eq_refl).
  assert (Forall2 member_checked (rq_members rq) plans') as Hck'.
  { by eapply checked_approved. }
  assert (List.length (rq_members rq) = List.length plans') as Hlen' by (by eapply Forall2_length).
  eapply does_bind with (M := fun r h s => executions h = [] /\ (r = Ok tt ->
    Forall (fun p => assert_executable (cm_service s) (cm_now s) p None = Ok tt) plans')).
  { apply does_attempt, does_perform. intros s _. simpl. destruct (result_iter _ plans') as [[]|e] eqn:Ex.
    - split; [done|]. intros _. by eapply result_iter_ok.
    - destruct (is_exception e); [split; [done|by intros [=]]|]. left.
      split; [by rewrite executions_app, Hh1|by intros ? [=]]. }
  intros [[]|e] h2 s2 [Hh2 H2].
  2: { eapply does_conseq; [apply (given_up_does (fun _ => True))|done|]. intros r h s H. left.
       by apply given_up_after, given_up_after. }
  specialize (H2 eq_refl). apply does_look. intros ? ->.
  eapply does_conseq; [apply (members_do (fun _ => True) rq plans' b (cm_now s2) Hlen' Hb Hn)|done|].
  intros r h s [Hset Hcons]. right. apply carried_out_after, carried_out_after; [done|done|].
  by exists plans', [], s2, s2, h.
Qed.

(** ** [commit] *)

Context (uuid4_hex : nat -> string).

(** A look at the table found this bundle under the digest of the request. *)
Definition found (rq : BundleCommitRequest) (o : option BundleCommit) (h : happened) : Prop :=
  exists s s', Acted s s' ∈ h /\ get_by_digest (cm_bundles s) (rq_bundle_digest rq) = o.

Definition turned_away (rq : BundleCommitRequest) (r : result exn BundleCommit) (h : happened) : Prop :=
  executions h = [] /\ forall b, r = Ok b -> found rq (Some b) h.

Definition admitted_request (rq : BundleCommitRequest) (h : happened) : Prop :=
  rq_bundle_digest rq = bundle_approval_digest (rq_scenario_id rq) (rq_members rq) /\
  predecessors_earlier [] (rq_members rq) = true /\ found rq None h.

Definition commit_result (rq : BundleCommitRequest) (r : result exn BundleCommit) (h : happened) (s : S) : Prop :=
  turned_away rq r h \/
  exists b, bc_bundle_digest b = rq_bundle_digest rq /\ admitted_request rq h /\
    (given_up b r h s \/ carried_out rq b r h s).

Lemma new_members members ms : result_map new_member members = Ok ms ->
  List.length ms = List.length members /\ Forall (fun m => bm_status m = BM_PENDING) ms.
Proof.
  rewrite result_map_ok. induction 1 as [|m y members ms Hm _ [IH1 IH2]]; [by split|]. split; [simpl; by rewrite IH1|].
  constructor; [|done]. apply result_bind_ok in Hm as (? & _ & (? & _ & [= <-])%result_bind_ok). done.
Qed.

Lemma new_bundle_ok (s : S) rq plans id res b : new_bundle s rq plans id res = Ok b ->
  bc_bundle_digest b = rq_bundle_digest rq /\ List.length (bc_members b) = List.length (rq_members rq) /\
  executed_exactly b [].
Proof.
  unfold new_bundle. destruct plans as [|p plans]; [done|].
  intros (ms & [Hl Hp]%new_members & [= <-])%result_bind_ok. split_and!; [done..|].
  intros i. split; [|by intros ?%not_elem_of_nil]. intros (m & Hm & Hs). simpl in Hm.
  pose proof (Forall_lookup_1 _ _ _ _ Hp Hm). simpl in *. congruence.
Qed.

Lemma find_bundle_does P rq :
  does P (find_bundle (R := R) (rq_bundle_digest rq)) (fun r h s => executions h = [] /\ forall o, r = Ok o -> found rq o h).
Proof.
  apply does_storage; [split; [done|by intros ? [=]]|]. intros s. simpl. split; [done|]. intros o [= <-].
  exists s, s. split; [|done]. apply list_elem_of_further, list_elem_of_here.
Qed.

Lemma found_app rq o h1 h2 : found rq o h2 -> found rq o (h1 ++ h2).
Proof. intros (s & s' & ? & ?). exists s, s'. split; [apply elem_of_app; by right|done]. Qed.
Lemma found_before rq o h1 h2 : found rq o h1 -> found rq o (h1 ++ h2).
Proof. intros (s & s' & ? & ?). exists s, s'. split; [apply elem_of_app; by left|done]. Qed.

Lemma reject_does P c e : does P (reject_when c e) (fun r h _ => executions (R := R) h = [] /\ forall u, r = Ok u -> c = false).
Proof.
  destruct c; [apply does_raise|apply does_ret]; intros s _; (split; [done|]); [by intros ? [=]|done].
Qed.

(** A step of [prepare] that executes nothing. *)
Lemma does_then {A B} (c : C A) (f : A -> C B) (Q1 : A -> Prop) (Q : B -> Prop) P :
  does P c (fun r h _ => executions h = [] /\ forall a, r = Ok a -> Q1 a) ->
  (forall a, Q1 a -> does (fun _ => True) (f a) (fun r h _ => executions h = [] /\ forall b, r = Ok b -> Q b)) ->
  does P (c ≫= f) (fun r h _ => executions h = [] /\ forall b, r = Ok b -> Q b).
Proof.
  intros Hc Hf. eapply does_bind with (M := fun a h _ => executions h = [] /\ Q1 a).
  { eapply does_conseq; [exact Hc|done|]. intros [a|e] h s [Hh H]; (split; [done|]); [by apply H|by intros ? [=]]. }
  intros a h1 s1 [Hh1 Ha]. eapply does_conseq; [by apply (Hf a)|done|].
  intros r h s [Hh H]. by rewrite executions_app, Hh1, Hh.
Qed.

Lemma quiet_does {A} P (c : C A) : quiet c -> does P c (fun r h _ => executions h = [] /\ forall a, r = Ok a -> True).
Proof. intros H. eapply does_conseq; [by apply (does_quiet (fun _ => True))|done|]. done. Qed.

Definition prepared (rq : BundleCommitRequest) (x : BundleCommit * list Plan) : Prop :=
  bc_bundle_digest (fst x) = rq_bundle_digest rq /\
  List.length (bc_members (fst x)) = List.length (rq_members rq) /\ executed_exactly (fst x) [] /\
  Forall2 member_checked (rq_members rq) (snd x) /\ predecessors_earlier [] (rq_members rq) = true.

Lemma prepare_does P rq : does P (prepare (R := R) uuid4_hex bs rq)
  (fun r h _ => executions h = [] /\ forall x, r = Ok x -> prepared rq x).
Proof.
  eapply does_then; [apply (does_map _ member_checked); intros m P'; apply preflight_does|intros plans Hck].
  eapply does_then; [apply reject_does|intros _ _].
  eapply does_then; [apply reject_does|intros _ Hp%negb_false_iff].
  eapply does_then; [apply quiet_does, avoids_perform|intros id _].
  eapply does_then; [apply quiet_does, avoids_perform|intros res _].
  eapply does_then; [apply (inspect_does _ _ (fun b => bc_bundle_digest b = rq_bundle_digest rq /\
    List.length (bc_members b) = List.length (rq_members rq) /\ executed_exactly b []));
    intros s b; apply new_bundle_ok|intros b (H1 & H2 & H3)].
  apply does_ret. intros s _. split; [done|]. by intros x [= <-].
Qed.

Lemma turned_away_after rq r h1 h2 : executions h1 = [] -> turned_away rq r h2 -> turned_away rq r (h1 ++ h2).
Proof.
  intros Hh1 [Hh H]. split; [by rewrite executions_app, Hh1|]. intros b Hb. by apply found_app, H.
Qed.
Lemma turned_away_error rq e h : executions h = [] -> turned_away rq (Err e) h.
Proof. intros Hh. split; [done|by intros ? [=]]. Qed.

(** The bundle is new: it is stored and carried out, or another one was
    stored first. *)
Lemma store_new_does P rq (b : BundleCommit) plans : prepared rq (b, plans) ->
  does P (saved ← coro_attempt (store_bundle b);
          match saved with
          | Ok b => carry_out bs rq plans b
          | Err e =>
              existing ← find_bundle (rq_bundle_digest rq);
              match existing with Some b => mret b | None => Raise e end
          end : C BundleCommit)
    (fun r h s => turned_away rq r h \/
       exists b, bc_bundle_digest b = rq_bundle_digest rq /\ (given_up b r h s \/ carried_out rq b r h s)).
Proof.
  intros (Hd & Hl & Hx & Hck & _). simpl in Hd, Hl, Hx, Hck.
  eapply does_bind with (M := fun r h _ => executions h = [] /\ forall b1, r = Ok b1 -> rewritten b b1).
  { apply does_attempt. eapply does_conseq; [apply (store_bundle_does (fun _ => True))|done|].
    intros [b1|e] h s [Hh H]; [split; [done|]; intros ? [= <-]; by apply H|].
    destruct (is_exception e); [split; [done|by intros ? [=]]|]. left. by apply turned_away_error. }
  intros [b1|e] h1 s1 [Hh1 H1].
  - specialize (H1 b1 eq_refl).
    eapply does_conseq; [apply (carry_out_does (fun _ => True) rq plans b1 Hck)|done|].
    + by rewrite (rw_members _ _ H1).
    + intros i. rewrite (rewritten_executed _ _ i H1). apply Hx.
    + intros r h s Hr. right. exists b1. split; [by rewrite (rw_digest _ _ H1)|].
      destruct Hr as [Hr|Hr]; [left; by apply given_up_after|right; by apply carried_out_after].
  - eapply does_bind with (M := fun o h _ => executions h = [] /\ found rq o h).
    { eapply does_conseq; [apply (find_bundle_does (fun _ => True))|done|].
      intros [o|e'] h s [Hh H]; [split; [done|by apply H]|]. left. apply turned_away_error.
      by rewrite executions_app, Hh1. }
    intros [b2|] h2 s2 [Hh2 H2]; [apply does_ret|apply does_raise]; intros s _; left; apply turned_away_after;
      try done; rewrite app_nil_r; [|by apply turned_away_error].
    split; [done|]. by intros ? [= <-].
Qed.

Lemma commit_does P rq : does P (commit (R := R) uuid4_hex bs rq) (fun r h s => commit_result rq r h s).
Proof.
  eapply does_bind with (M := fun _ h _ => executions h = [] /\
    rq_bundle_digest rq = bundle_approval_digest (rq_scenario_id rq) (rq_members rq)).
  { eapply does_conseq; [apply (reject_does (fun _ => True))|done|].
    intros [u|e] h s [Hh H]; [split; [done|]|left; by apply turned_away_error].
    specialize (H u eq_refl). by apply negb_false_iff, String.eqb_eq in H. }
  intros _ h1 s1 [Hh1 Hdig]. eapply does_bind with (M := fun o h _ => executions h = [] /\ found rq o h).
  { eapply does_conseq; [apply (find_bundle_does (fun _ => True))|done|].
    intros [o|e] h s [Hh H]; [split; [done|by apply H]|].
    left. apply turned_away_error. by rewrite executions_app, Hh1. }
  intros [b0|] h2 s2 [Hh2 Hf].
  { apply does_ret. intros s _. left. apply turned_away_after; [done|]. rewrite app_nil_r. split; [done|].
    by intros ? [= <-]. }
  eapply does_bind with (M := fun x h _ => executions h = [] /\ prepared rq x).
  { eapply does_conseq; [apply (prepare_does (fun _ => True))|done|].
    intros [x|e] h s [Hh H]; [split; [done|by apply H]|].
    left. apply turned_away_error. by rewrite !executions_app, Hh1, Hh2. }
  intros [b plans] h3 s3 [Hh3 Hp].
  eapply does_conseq; [apply (store_new_does (fun _ => True) rq b plans Hp)|done|].
  intros r h s [Hr|(b1 & Hd & Hr)]; [left; by do 3 (apply turned_away_after; [done|])|]. right. exists b1.
  split; [done|]. split; [split; [done|split; [apply Hp|by apply found_app, found_before]]|].
  destruct Hr as [Hr|Hr]; [left; by do 3 (apply given_up_after; [done|])|right; by do 3 (apply carried_out_after; [done|])].
Qed.

Lemma commit_run (o : oracle S commit_call) n s rq :
  commit_result rq (fst (fst (run o (commit uuid4_hex bs rq) n s)))
    (history_of o (commit uuid4_hex bs rq) n s) (snd (run o (commit uuid4_hex bs rq) n s)).
Proof.
  pose proof (wph_sound (fun _ _ => True) o (commit uuid4_hex bs rq) (fun _ _ _ _ => I) _ n [] s
    (commit_does (fun _ => True) rq [] s I)) as (l & Hl & H).
  simpl in Hl. by subst l.
Qed.

Lemma commit_decided (o : oracle S commit_call) n s rq :
  let h := history_of o (commit uuid4_hex bs rq) n s in
  executions h = [] \/ exists b, bc_bundle_digest b = rq_bundle_digest rq /\ admitted_request rq h /\
    carried_out rq b (fst (fst (run o (commit uuid4_hex bs rq) n s))) h (snd (run o (commit uuid4_hex bs rq) n s)).
Proof.
  destruct (commit_run o n s rq) as [[H _]|(b & Hb & Ha & [[H _]|H])]; [by left..|]. right. by exists b.
Qed.

(** C19: Whatever the storage and the executor answer and whatever others do
    meanwhile: a commit that asks the executor for anything asks for members
    of the request it was given, whose digest is the digest of its members,
    whose predecessors come earlier and whose bundle was not stored before.
    Before the first execution there was a state in which every plan was
    executable, being the plan with the digest and the time of its member, and
    after it, still before the first execution, a step that consumed the
    approvals reserved for the bundle in the ledger.  The members asked for are
    the first of those due, in their order, each with a capability for this
    bundle and plan and each after the members before it were confirmed. *)
Theorem bundle_execution_gated (o : oracle S commit_call) n s rq :
  let h := history_of o (commit uuid4_hex bs rq) n s in
  executions h <> [] ->
  admitted_request rq h /\
  exists b plans h0 s1 s1' h1 s2 s2' h2, bc_bundle_digest b = rq_bundle_digest rq /\
    h = h0 ++ Acted s1 s1' :: h1 ++ Acted s2 s2' :: h2 /\ executions h0 = [] /\ executions h1 = [] /\
    Forall2 member_checked (rq_members rq) plans /\
    Forall (fun p => assert_executable (cm_service s1) (cm_now s1) p None = Ok tt) plans /\
    commit_reservation (reservation_of b) [] (cm_approvals s2) = (Ok tt, cm_approvals s2') /\
    carried b (due_of rq plans (cm_now s1)) (executions h).
Proof.
  intros h Hx. destruct (commit_decided o n s rq) as
    [H|(b & Hb & Ha & plans & h0 & s1 & s1' & h1 & Hh & H0 & H2 & H3 & [H4 _] & H5)]; [done|].
  split; [done|]. destruct (H5 Hx) as (k & s2 & s2' & h2 & -> & Hk & Hc).
  exists b, plans, h0, s1, s1', k, s2, s2', h2. by split_and!.
Qed.

(** What the status of an answered bundle says of the executions. *)
Definition truthful (rq : BundleCommitRequest) (b : BundleCommit) (h : happened) (s : S) : Prop :=
  match bc_status b with
  | BC_COMPLETED => Forall confirmed (executions h) /\
      Forall2 member_checked (rq_members rq) (map ex_plan (executions h)) /\
      Forall (fun m => bm_status m = BM_EXECUTED) (bc_members b)
  | BC_SCHEDULED => Forall confirmed (executions h) /\
      exists plans s1 s1', Acted s1 s1' ∈ h /\ Forall2 member_checked (rq_members rq) plans /\
        map ex_plan (executions h) = map entry_plan (due_of rq plans (cm_now s1)) /\
        Forall (fun x => row_pending (entry_plan x) (cm_scheduled s)) (future_of rq plans (cm_now s1))
  | BC_PARTIALLY_COMMITTED => Exists confirmed (executions h)
  | BC_FAILED | BC_UNKNOWN => ~ Exists confirmed (executions h)
  | _ => False
  end.

Lemma carried_truthful rq b b' h s : carried_out rq b (Ok b') h s ->
  same_bundle b b' /\ truthful rq b' h s /\ (od_mem (bc_id b') (cm_bundles s) = true -> stored b' s).
Proof.
  intros (plans & h0 & s1 & s1' & h1 & Hh & _ & H2 & _ & [_ Hans] & _). destruct (Hans b' eq_refl) as (Hs & Hf & Hk).
  split; [done|]. split; [|done]. revert Hf. unfold status_fits, truthful.
  destruct (bc_status b'); try done.
  - intros (Hc & -> & He). done.
  - intros (Hc & Hm & He). split; [done|]. exists plans, s1, s1'. split; [|done].
    rewrite Hh. apply elem_of_app. right. apply list_elem_of_here.
Qed.

Lemma given_up_truthful rq b b' h s : given_up b (Ok b') h s ->
  same_bundle b b' /\ truthful rq b' h s /\ (od_mem (bc_id b') (cm_bundles s) = true -> stored b' s).
Proof.
  intros [Hx H]. destruct (H b' eq_refl) as (Hs & Hf & Hk). split; [done|]. split; [|done].
  unfold truthful. rewrite Hf, Hx. by intros ?%Exists_nil.
Qed.

(** C20: A commit that answers a bundle either found it stored under the digest
    of the request and executed nothing, or carried the request out: the
    bundle has the digest and the members of the request, the row of its id,
    if there is one, is the answer, and the status says what happened -
    completed only if every member of the request was executed and confirmed,
    scheduled only if the due members were and the others wait as pending
    rows, partially committed only if some member was confirmed, failed or
    unknown only if none was. *)
Theorem bundle_commit_truthful (o : oracle S commit_call) n s rq b :
  let h := history_of o (commit uuid4_hex bs rq) n s in
  let s' := snd (run o (commit uuid4_hex bs rq) n s) in
  fst (fst (run o (commit uuid4_hex bs rq) n s)) = Ok b ->
  (executions h = [] /\ found rq (Some b) h) \/
  (bc_bundle_digest b = rq_bundle_digest rq /\ truthful rq b h s' /\
   (od_mem (bc_id b) (cm_bundles s') = true -> stored b s')).
Proof.
  intros h s' Hr. pose proof (commit_run o n s rq) as H. rewrite Hr in H.
  destruct H as [[Hx Hf]|(b0 & Hd & _ & [H|H])]; [left; split; [done|by apply Hf]|right..].
  - apply given_up_truthful with (rq := rq) in H as (Hs & ? & ?). by rewrite (sb_digest _ _ Hs).
  - apply carried_truthful in H as (Hs & ? & ?). by rewrite (sb_digest _ _ Hs).
Qed.
End Outcomes.

(** ** Witnesses *)

#[local] Existing Instance example_canonical.

Lemma lamp_executes :
  match executions (history_of (hearth_oracle confirm) lamp_commit 0 lamp_hearth) with [] => false | _ => true end = true.
Proof. vm_compute. reflexivity. Qed.

Lemma lamp_answers :
  match fst (fst (run (hearth_oracle confirm) lamp_commit 0 lamp_hearth)) with
  | Ok b => match bc_status b with BC_SCHEDULED => true | _ => false end
  | Err _ => false
  end = true.
Proof. vm_compute. reflexivity. Qed.

Lemma bundle_execution_gated_witness :
  let h := history_of (hearth_oracle confirm) lamp_commit 0 lamp_hearth in
  admitted_request lamp_request h /\
  exists b plans h0 s1 s1' h1 s2 s2' h2, bc_bundle_digest b = rq_bundle_digest lamp_request /\
    h = h0 ++ Acted s1 s1' :: h1 ++ Acted s2 s2' :: h2 /\ executions h0 = [] /\ executions h1 = [] /\
    Forall2 member_checked (rq_members lamp_request) plans /\
    Forall (fun p => assert_executable (cm_service s1) (cm_now s1) p None = Ok tt) plans /\
    commit_reservation (reservation_of b) [] (cm_approvals s2) = (Ok tt, cm_approvals s2') /\
    carried b (due_of lamp_request plans (cm_now s1)) (executions h).
Proof.
  apply (bundle_execution_gated lamp_service lamp_uuid (hearth_oracle confirm) 0 lamp_hearth lamp_request).
  intros H. pose proof lamp_executes as Hx. unfold lamp_commit in Hx. rewrite H in Hx. discriminate Hx.
Defined.

Lemma bundle_commit_truthful_witness : exists b,
  bc_status b = BC_SCHEDULED /\
  let h := history_of (hearth_oracle confirm) lamp_commit 0 lamp_hearth in
  let s' := snd (run (hearth_oracle confirm) lamp_commit 0 lamp_hearth) in
  (executions h = [] /\ found lamp_request (Some b) h) \/
  (bc_bundle_digest b = rq_bundle_digest lamp_request /\ truthful lamp_request b h s' /\
   (od_mem (bc_id b) (cm_bundles s') = true -> stored b s')).
Proof.
  pose proof lamp_answers as Hx.
  destruct (fst (fst (run (hearth_oracle confirm) lamp_commit 0 lamp_hearth))) as [b|e] eqn:E; [|discriminate Hx].
  exists b. split; [destruct (bc_status b); (reflexivity || discriminate Hx)|].
  apply (bundle_commit_truthful lamp_service lamp_uuid (hearth_oracle confirm) 0 lamp_hearth lamp_request b E).
Defined.
