(* ===== verification/RecoveryOutcomes.v ===== *)
(** * What a recovery concludes (application/bundle_commit.py)

    The status a recovered bundle takes from its members, the evidence the
    members take theirs from, and that nothing is executed again. *)

From S2P Require Import Prelude.
From S2P Require Import Values.
From S2P Require Import Models.
From S2P Require Import Digests.
From S2P Require Import ApprovalStore.
From S2P Require Import PlanService.
From S2P Require Import PlanRecords.
From S2P Require Import Coroutines.
From S2P Require Import ScheduleRecords.
From S2P Require Import BundleRecords.
From S2P Require Import Scheduler.
From S2P Require Import CommitService.
From S2P Require Import CommitRecovery.
From S2P Require Import CommitSteps.
From S2P Require Import CommitOutcomes.
From S2P Require Import LampSchedule.
From S2P Require Import LampCommit.

(** ** The status of a bundle *)

Definition any_in (statuses : list BundleMemberCommitStatus) (l : list BundleMemberCommit) : bool :=
  existsb (fun m => bool_decide (bm_status m ∈ statuses)) l.
Definition all_in (statuses : list BundleMemberCommitStatus) (l : list BundleMemberCommit) : bool :=
  forallb (fun m => bool_decide (bm_status m ∈ statuses)) l.

(** The status, from the statuses of the members alone. *)
Definition status_of_members (l : list BundleMemberCommit) : BundleCommitStatus :=
  let some := any_in [BM_EXECUTED; BM_SCHEDULED] l in
  if any_in [BM_UNKNOWN] l then if some then BC_PARTIALLY_COMMITTED else BC_UNKNOWN
  else if any_in [BM_MISSED] l then if all_in [BM_MISSED] l then BC_MISSED else BC_PARTIALLY_COMMITTED
  else if any_in [BM_FAILED; BM_DEPENDENCY_FAILED] l then if some then BC_PARTIALLY_COMMITTED else BC_FAILED
  else if all_in [BM_SCHEDULED] l then BC_SCHEDULED else BC_COMPLETED.

(** The loop counts what the members it returns show. *)
Record counts (t : tally) (l : list BundleMemberCommit) (t' : tally) : Prop := {
  co_committed : tl_committed t' =
    (tl_committed t + length (filter (fun m => bm_status m ∈ [BM_EXECUTED; BM_SCHEDULED]) l))%nat;
  co_unknown : tl_has_unknown t' = tl_has_unknown t || any_in [BM_UNKNOWN] l;
  co_missed : tl_has_missed t' = tl_has_missed t || any_in [BM_MISSED] l;
  co_failed : tl_has_failed t' = tl_has_failed t || any_in [BM_FAILED; BM_DEPENDENCY_FAILED] l;
  co_scheduled : tl_all_scheduled t' = tl_all_scheduled t && all_in [BM_SCHEDULED] l;
  co_decided : Forall (fun m => bm_status m ∉ [BM_PENDING]) l
}.

Lemma recover_member_counts o m t : counts t [fst (recover_member o m t)] (snd (recover_member o m t)).
Proof.
  destruct o as [sched plan]. unfold recover_member. case_bool_decide as Hd; simpl.
  - split; simpl; rewrite ?Hd, ?orb_false_r, ?orb_true_r, ?andb_false_r, ?filter_cons, ?Hd; simpl; try done; try lia.
    repeat constructor. rewrite Hd. by apply (bool_decide_unpack _).
  - destruct sched as [[q []]|]; [..|destruct plan as [p|]; simpl; [destruct (pl_status p)|]]; simpl;
      (split; simpl; [lia|by rewrite ?orb_false_r, ?orb_true_r, ?andb_false_r, ?andb_true_r..|
       repeat constructor; by apply (bool_decide_unpack _)]).
Qed.

Lemma counts_cons t1 t2 t3 m l : counts t1 [m] t2 -> counts t2 l t3 -> counts t1 (m :: l) t3.
Proof.
  intros [C1 C2 C3 C4 C5 C6] [D1 D2 D3 D4 D5 D6]. split.
  - rewrite D1, C1, (filter_cons _ m l), (filter_cons _ m []). destruct (decide _); simpl; lia.
  - rewrite D2, C2. simpl. by rewrite orb_false_r, orb_assoc.
  - rewrite D3, C3. simpl. by rewrite orb_false_r, orb_assoc.
  - rewrite D4, C4. simpl. by rewrite orb_false_r, orb_assoc.
  - rewrite D5, C5. simpl. by rewrite andb_true_r, andb_assoc.
  - apply Forall_cons in C6 as [? _]. by constructor.
Qed.

Lemma recover_members_counts seen l : forall t,
  counts t (fst (recover_members seen l t)) (snd (recover_members seen l t)).
Proof.
  induction l as [|m l IH]; intros t; simpl.
  { split; simpl; [lia|by rewrite ?orb_false_r, ?andb_true_r..|constructor]. }
  pose proof (recover_member_counts (seen (bm_plan_id m)) m t) as H.
  destruct (recover_member _ m t) as [m' t1]. specialize (IH t1).
  destruct (recover_members seen l t1) as [l' t2]. by eapply counts_cons.
Qed.

Lemma some_committed l :
  negb (Nat.eqb (length (filter (fun m => bm_status m ∈ [BM_EXECUTED; BM_SCHEDULED]) l)) 0)
  = any_in [BM_EXECUTED; BM_SCHEDULED] l.
Proof.
  induction l as [|m l IH]; [done|]. rewrite filter_cons. unfold any_in in *. simpl.
  case_bool_decide as H; [by rewrite decide_True|by rewrite decide_False].
Qed.

Lemma all_missed l : forallb (fun m => bool_decide (bm_status m = BM_MISSED)) l = all_in [BM_MISSED] l.
Proof.
  unfold all_in. induction l as [|m l IH]; [done|]. simpl. rewrite IH. f_equal.
  apply bool_decide_ext. by rewrite list_elem_of_singleton.
Qed.

Lemma all_committed l : Forall (fun m => bm_status m ∉ [BM_PENDING]) l -> any_in [BM_UNKNOWN] l = false ->
  any_in [BM_MISSED] l = false -> any_in [BM_FAILED; BM_DEPENDENCY_FAILED] l = false ->
  length (filter (fun m => bm_status m ∈ [BM_EXECUTED; BM_SCHEDULED]) l) = length l.
Proof.
  unfold any_in. induction 1 as [|m l Hm _ IH]; simpl; [done|].
  intros [H1 ?]%orb_false_iff [H2 ?]%orb_false_iff [H3 ?]%orb_false_iff.
  rewrite filter_cons, decide_True; [simpl; by rewrite IH|].
  apply bool_decide_eq_false in H1, H2, H3. rewrite !elem_of_cons in *.
  destruct (bm_status m); naive_solver.
Qed.

Lemma recovered_status_of_members l t : counts nothing_seen l t -> recovered_status l t = status_of_members l.
Proof.
  intros [C1 C2 C3 C4 C5 C6]. simpl in *. unfold recovered_status, status_of_members.
  rewrite C1, C2, C3, C4, C5, some_committed, all_missed.
  destruct (any_in [BM_UNKNOWN] l) eqn:E1, (any_in [BM_MISSED] l) eqn:E2,
    (any_in [BM_FAILED; BM_DEPENDENCY_FAILED] l) eqn:E3; try done.
  rewrite all_committed by done. by rewrite Nat.eqb_refl.
Qed.

(** The branches of the body of the loop. *)
Ltac member_cases o m :=
  unfold recover_member; destruct (bool_decide (bm_status m = BM_DEPENDENCY_FAILED)) eqn:Ed; simpl;
  [by rewrite ?Ed|destruct o as [[[? []]|] [p|]]; simpl; try done; by destruct (pl_status p)].

Lemma recover_member_again o m t1 t2 :
  fst (recover_member o (fst (recover_member o m t1)) t2) = fst (recover_member o m t2).
Proof.
  member_cases o m.
Qed.
Lemma recover_member_tally o m t1 t2 :
  snd (recover_member o (fst (recover_member o m t1)) t2) = snd (recover_member o m t2).
Proof.
  member_cases o m.
Qed.
Lemma recover_member_plan o m t : bm_plan_id (fst (recover_member o m t)) = bm_plan_id m.
Proof.
  unfold recover_member. case_bool_decide as Hd; simpl; [done|].
  destruct o as [[[q []]|] [p|]]; simpl; try done; by destruct (pl_status p).
Qed.

Lemma recover_members_again seen l : forall t1 t2,
  recover_members seen (fst (recover_members seen l t1)) t2 = recover_members seen l t2.
Proof.
  induction l as [|m l IH]; intros t1 t2; simpl; [done|].
  pose proof (recover_member_again (seen (bm_plan_id m)) m t1 t2) as Ha.
  pose proof (recover_member_tally (seen (bm_plan_id m)) m t1 t2) as Ht.
  pose proof (recover_member_plan (seen (bm_plan_id m)) m t1) as Hp.
  destruct (recover_member _ m t1) as [m1 u1]. destruct (recover_member _ m t2) as [m2 u2].
  specialize (IH u1 u2). destruct (recover_members seen l u1) as [l1 v1]. simpl in *. rewrite Hp.
  destruct (recover_member _ m1 t2) as [m3 u3]. simpl in *. subst m3 u3. by rewrite IH.
Qed.

Lemma recovery_status_spec (seen : string -> observation) (b : BundleCommit) :
  bc_status (recovered seen b) = status_of_members (bc_members (recovered seen b)) /\
  recovered seen (recovered seen b) = recovered seen b.
Proof.
  unfold recovered. pose proof (recover_members_counts seen (bc_members b) nothing_seen) as Hc.
  pose proof (recover_members_again seen (bc_members b) nothing_seen nothing_seen) as Ha.
  destruct (recover_members seen (bc_members b) nothing_seen) as [l t]. simpl in *.
  rewrite Ha. split; [by apply recovered_status_of_members|done].
Qed.

(** C22: The status a recovery gives a bundle, which it counts together while it
    walks over the members, is the one the statuses of the recovered members
    determine; and recovering a recovered bundle from the same evidence
    changes nothing. *)
Theorem recovery_status_exact (seen : string -> observation) (b : BundleCommit) :
  bc_status (recovered seen b) = status_of_members (bc_members (recovered seen b)) /\
  recovered seen (recovered seen b) = recovered seen b.
Proof. apply recovery_status_spec. Qed.

(** ** The reservations of a bundle *)






(** ** Recovering one bundle *)

Section Outcomes.
Context {R : Type} `{CJ : Canonical} `{!PlanRecordPort R}.
Context (br : BundleRecoveryService).
Abbreviation S := (Committing (R := R)).
Abbreviation C := (coro S commit_call).
Abbreviation happened := (list (happening S commit_call)).


















End Outcomes.

(** ** Witness *)

#[local] Existing Instance example_canonical.



