(* ===== verification/Authority.v ===== *)
(** * Who may do what (application/authority.py)

    [AuthorityPolicy]: the authority of a verified principal against one
    deployment, and the binding of a submitted plan to it, with the guards of
    mcp/auth.py and mcp/domotics_server.py that ask it.
    The audit log is output and left out; the length of a text is its number
    of bytes. *)

From S2P Require Import Prelude.
From S2P Require Import Values.
From S2P Require Import Models.
From S2P Require Import Registry.
From S2P Require Import Digests.
From S2P Require Import ApprovalStore.

(** ** Operations *)

Definition read_operations : list string :=
  ["discover_devices"; "get_state"; "get_history"; "get_energy_context"; "list"; "inspect"; "preview";
   "get_household_preferences"].
Definition plan_operations : list string :=
  ["prepare_command"; "prepare_plan"; "validate_command"; "validate_plan"].
Definition resident_consent_operations : list string :=
  ["review_consent"; "approve_consent"; "revoke_consent"].
Definition operator_operations : list string :=
  ["request_approval"; "execute"; "schedule"; "cancel"; "reschedule"; "standing_automation"; "execute_plan";
   "schedule_plan"; "cancel_scheduled_plan"; "reschedule_plan"; "commit_or_schedule_bundle";
   "schedule_recurring_plan"; "cancel_recurring_schedule"; "create_local_automation_rule";
   "update_local_automation_rule"; "set_local_automation_status"; "set_household_preference";
   "delete_household_preference"].
Definition preference_admin_operations : list string :=
  ["get_household_preference_history"; "restore_household_preference"; "erase_household_preference"].
Definition preference_operations : list string :=
  preference_admin_operations ++
  ["get_household_preferences"; "set_household_preference"; "delete_household_preference"].

(** ** Authority from the claims of a token *)

Definition roles_from_scopes (scopes : list string) : list PrincipalRole :=
  if bool_decide ("*" ∈ scopes) then [ROLE_OWNER]
  else if bool_decide ("mutate" ∈ scopes) || bool_decide ("home:write" ∈ scopes) || bool_decide ("manage" ∈ scopes)
  then [ROLE_OPERATOR]
  else if bool_decide ("plan" ∈ scopes) || bool_decide ("home:plan" ∈ scopes) then [ROLE_PLANNER]
  else [ROLE_VIEWER].

(** [str_strip_whitespace] *)
Definition stripped (s : string) : string := strip is_space s.

Definition length_in (lo hi : nat) (s : string) : bool :=
  Nat.leb lo (String.length s) && Nat.leb (String.length s) hi.

(** [AuthorityContext(...)]: the fields and their bounds, then the validator. *)
Definition new_authority (a : AuthorityContext) : result exn AuthorityContext :=
  let a := mkAuthorityContext (stripped (au_tenant_id a)) (stripped (au_household_id a))
    (map stripped (au_household_ids a)) (stripped (au_principal_id a)) (au_roles a) (map stripped (au_area_ids a))
    (map stripped (au_device_ids a)) (map stripped (au_capabilities a)) (map stripped (au_operations a)) in
  raise_if (negb (forallb (length_in 1 200) [au_tenant_id a; au_household_id a; au_principal_id a]))
    (ValueError "text too short or too long") ≫= fun _ =>
  raise_if (Nat.ltb 100 (List.length (au_household_ids a)) || Nat.ltb 5 (List.length (au_roles a)) ||
            Nat.ltb 200 (List.length (au_area_ids a)) || Nat.ltb 500 (List.length (au_device_ids a)) ||
            Nat.ltb 200 (List.length (au_capabilities a)) || Nat.ltb 100 (List.length (au_operations a)))
    (ValueError "list too long") ≫= fun _ =>
  validate_authority a ≫= fun _ => Ok a.

Definition text_field (d : list (string * json)) (k default : string) : result exn string :=
  match od_get k d with
  | None => Ok default
  | Some (JStr s) => Ok s
  | Some _ => Err (ValueError "string expected")
  end.
Definition json_text (j : json) : result exn string :=
  match j with JStr s => Ok s | _ => Err (ValueError "string expected") end.
Definition list_field (d : list (string * json)) (k : string) (default : list string) : result exn (list string) :=
  match od_get k d with
  | None => Ok default
  | Some (JList l) => result_map json_text l
  | Some _ => Err (ValueError "list expected")
  end.
Definition role_of_text (s : string) : result exn PrincipalRole :=
  match find_first (fun r => String.eqb (PrincipalRole_value r) s)
          [ROLE_VIEWER; ROLE_PLANNER; ROLE_OPERATOR; ROLE_OWNER; ROLE_SERVICE] with
  | Some r => Ok r
  | None => Err (ValueError "unknown role")
  end.

Definition authority_fields : list string :=
  ["tenant_id"; "household_id"; "household_ids"; "principal_id"; "roles"; "area_ids"; "device_ids";
   "capabilities"; "operations"].

(** [AuthorityContext.model_validate] *)
Definition authority_of_json (d : list (string * json)) : result exn AuthorityContext :=
  raise_if (existsb (fun kv => negb (bool_decide (fst kv ∈ authority_fields))) d)
    (ValueError "extra fields not permitted") ≫= fun _ =>
  tenant ← text_field d "tenant_id" "default";
  household ← text_field d "household_id" "default";
  households ← list_field d "household_ids" ["default"];
  principal ← text_field d "principal_id" "system";
  roles ← list_field d "roles" ["service"] ≫= result_map role_of_text;
  areas ← list_field d "area_ids" [];
  device_ids ← list_field d "device_ids" [];
  capabilities ← list_field d "capabilities" [];
  operations ← list_field d "operations" [];
  new_authority (mkAuthorityContext tenant household households principal roles areas device_ids capabilities operations).

Record AccessToken := mkAccessToken {
  tk_client_id : string;
  tk_scopes : list string;
  tk_claims : list (string * json)
}.

(** A claim that does not validate is passed over. *)
Definition authority_from_token_claims (t : AccessToken) : result exn AuthorityContext :=
  let fallback := new_authority (default_authority <| au_principal_id := tk_client_id t |>
                                                   <| au_roles := roles_from_scopes (tk_scopes t) |>) in
  match od_get "authority" (tk_claims t) with
  | Some (JObj d) =>
      match authority_of_json d with
      | Ok a => Ok a
      | Err e => if bool_decide (e = TypeError) || match e with ValueError _ => true | _ => false end
                 then fallback else Err e
      end
  | _ => fallback
  end.

(** ** [AuthorityPolicy] *)

Record AuthorityPolicy := mkAuthorityPolicy {
  ap_tenant_id : string;
  ap_household_id : string
}.

Definition deny {A} (operation reason : string) : result exn A :=
  Err (DomainError (mkErrorDetail INSUFFICIENT_SCOPE
    (msg "The authenticated principal is not authorized for this target") None None None false
    [("operation", JStr operation); ("reason", JStr reason)])).
Definition deny_if (b : bool) (operation reason : string) : result exn unit :=
  if b then deny operation reason else Ok tt.

(** Nothing is outside an empty scope. *)
Definition outside (scope : list string) (l : list string) : bool :=
  negb (bool_decide (scope = [])) && existsb (fun x => negb (bool_decide (x ∈ scope))) l.

Definition scoped (a : AuthorityContext) : bool :=
  negb (bool_decide (au_area_ids a = []) && bool_decide (au_device_ids a = []) && bool_decide (au_capabilities a = [])).

Definition has_role (a : AuthorityContext) (roles : list PrincipalRole) : bool :=
  existsb (fun r => bool_decide (r ∈ roles)) (au_roles a).

(** The roles an operation is open to. *)
Definition role_allows (a : AuthorityContext) (operation : string) : bool :=
  if bool_decide (operation ∈ resident_consent_operations) then
    has_role a [ROLE_OPERATOR; ROLE_OWNER] && bool_decide (operation ∈ au_operations a)
  else if bool_decide (operation ∈ read_operations) then
    has_role a [ROLE_VIEWER; ROLE_PLANNER; ROLE_OPERATOR; ROLE_OWNER; ROLE_SERVICE]
  else if bool_decide (operation ∈ plan_operations) then
    has_role a [ROLE_PLANNER; ROLE_OPERATOR; ROLE_OWNER; ROLE_SERVICE]
  else if bool_decide (operation ∈ operator_operations) then
    has_role a [ROLE_OPERATOR; ROLE_OWNER; ROLE_SERVICE]
  else if bool_decide (operation ∈ preference_admin_operations) then has_role a [ROLE_OWNER; ROLE_SERVICE]
  else has_role a [ROLE_OWNER; ROLE_SERVICE].
Definition operation_listed (a : AuthorityContext) (operation : string) : bool :=
  bool_decide (au_operations a = []) || bool_decide (operation ∈ au_operations a) ||
  bool_decide ("*" ∈ au_operations a).

Section Policy.
Context (ap : AuthorityPolicy).

Definition local_context : result exn AuthorityContext :=
  if String.eqb (ap_tenant_id ap) "default" && String.eqb (ap_household_id ap) "default" then Ok default_authority
  else new_authority (mkAuthorityContext (ap_tenant_id ap) (ap_household_id ap) [ap_household_id ap] "local"
                        [ROLE_SERVICE] [] [] [] []).

(** [authorize] *)
Definition authorize (a : AuthorityContext) (operation : string) (target_household : option string)
    (area : option string) (device_ids capabilities : list string) : result exn unit :=
  let target := default (ap_household_id ap) target_household in
  deny_if (negb (String.eqb target (ap_household_id ap))) operation "target household is not this deployment" ≫= fun _ =>
  deny_if (negb (String.eqb (au_tenant_id a) (ap_tenant_id ap))) operation "tenant is not authorized" ≫= fun _ =>
  deny_if (negb (bool_decide (target ∈ au_household_ids a))) operation "household is not authorized" ≫= fun _ =>
  deny_if (bool_decide (operation ∈ preference_operations) &&
           (negb (String.eqb (au_household_id a) target) || scoped a))
    operation "preferences require whole-household authority" ≫= fun _ =>
  deny_if (String.eqb operation "manage_connections" && scoped a)
    operation "connection administration requires whole-household authority" ≫= fun _ =>
  deny_if (outside (au_area_ids a) (option_list area)) operation "area is not authorized" ≫= fun _ =>
  deny_if (outside (au_device_ids a) device_ids) operation "device is not authorized" ≫= fun _ =>
  deny_if (outside (au_capabilities a) capabilities) operation "capability is not authorized" ≫= fun _ =>
  deny_if (negb (role_allows a operation && operation_listed a operation))
    operation "role or operation is not authorized".

(** [_narrow_scope] *)
Definition narrow_scope (verified declared : list string) (field operation : string) : result exn (list string) :=
  if bool_decide (declared = []) then Ok verified
  else if bool_decide (verified = []) then Ok declared
  else if String.eqb field "operations" && bool_decide ("*" ∈ verified) then Ok declared
  else
    deny_if (String.eqb field "operations" && bool_decide ("*" ∈ declared))
      operation "operation scope is broader than verified claims" ≫= fun _ =>
    deny_if (existsb (fun x => negb (bool_decide (x ∈ verified))) declared)
      operation (field +:+ " scope is broader than verified claims") ≫= fun _ =>
    Ok declared.

(** The authority a plan is bound to. *)
Definition effective_authority (declared a : AuthorityContext) (operation : string) : result exn AuthorityContext :=
  let legacy := bool_decide (declared = default_authority) in
  deny_if (negb legacy && negb (String.eqb (au_tenant_id declared) (au_tenant_id a)))
    operation "plan tenant is not authorized" ≫= fun _ =>
  areas ← narrow_scope (au_area_ids a) (au_area_ids declared) "area_ids" operation;
  device_ids ← narrow_scope (au_device_ids a) (au_device_ids declared) "device_ids" operation;
  capabilities ← narrow_scope (au_capabilities a) (au_capabilities declared) "capabilities" operation;
  operations ← narrow_scope (au_operations a) (au_operations declared) "operations" operation;
  Ok (a <| au_household_id := if legacy then ap_household_id ap else au_household_id declared |>
        <| au_area_ids := areas |> <| au_device_ids := device_ids |>
        <| au_capabilities := capabilities |> <| au_operations := operations |>).

Definition check_areas (e : AuthorityContext) (p : Plan) (operation : string)
    (device_areas : option (gmap string (option string))) : result exn unit :=
  if bool_decide (au_area_ids e = []) then Ok tt
  else
    match device_areas with
    | None => deny operation "device area is not known"
    | Some areas => result_iter (fun c =>
        deny_if (match areas !! cmd_device_id c with
                 | Some (Some area) => negb (bool_decide (area ∈ au_area_ids e))
                 | _ => true
                 end) operation "area is not authorized") (pl_commands p)
    end.

(** [bind_plan] *)
Definition bind_plan (p : Plan) (a : AuthorityContext) (operation : string)
    (device_areas : option (gmap string (option string))) : result exn Plan :=
  e ← effective_authority (pl_authority p) a operation;
  authorize e operation (Some (au_household_id e)) None (map cmd_device_id (pl_commands p))
    (map cmd_command (pl_commands p)) ≫= fun _ =>
  check_areas e p operation device_areas ≫= fun _ =>
  Ok (p <| pl_authority := e |>).
End Policy.

(** ** The guards of the tools (mcp/domotics_server.py, mcp/auth.py) *)

Definition require_client_scope (token : option AccessToken) (scope : string) : result exn unit :=
  match token with
  | None => Ok tt
  | Some t =>
      if bool_decide (scope ∈ tk_scopes t) || bool_decide ("*" ∈ tk_scopes t) then Ok tt
      else Err (DomainError (mkErrorDetail INSUFFICIENT_SCOPE
             (msg "The authenticated MCP client lacks the required scope") None None None false
             [("required_scope", JStr scope)]))
  end.

(** [current_authority() or policy.local_context()] *)
Definition caller_authority (ap : AuthorityPolicy) (token : option AccessToken) : result exn AuthorityContext :=
  match token with Some t => authority_from_token_claims t | None => local_context ap end.

(** [{device.id: device.area_id for device in registry.devices}] *)
Definition known_areas (r : DeviceRegistry) : gmap string (option string) :=
  list_to_map (rev (map (fun d => (dev_id d, dev_area_id d)) (devices r))).
Definition in_unknown_area (a : AuthorityContext) (r : DeviceRegistry) (id : string) : bool :=
  match known_areas r !! id with
  | Some (Some area) => negb (bool_decide (area ∈ au_area_ids a))
  | _ => true
  end.
Definition area_refused (a : AuthorityContext) (r : DeviceRegistry) (ids : list string) : bool :=
  negb (bool_decide (au_area_ids a = [])) && existsb (in_unknown_area a r) ids.

Definition in_scope_of (scope : list string) (x : option string) : bool :=
  bool_decide (scope = []) || match x with Some x => bool_decide (x ∈ scope) | None => false end.
Definition restrict_capabilities (scope : list string) (d : Device) : Device :=
  d <| dev_capabilities := List.filter (fun c : Capability => bool_decide (cap_name c ∈ scope)) (dev_capabilities d) |>.

Section Tools.
Context (policy : option AuthorityPolicy) (r : DeviceRegistry) (token : option AccessToken).

Definition authorize_mutation (operation : string) : result exn unit :=
  current ← (match token with Some t => Some <$> authority_from_token_claims t | None => Ok None end);
  require_client_scope token "mutate" ≫= fun _ =>
  match policy with
  | None => Ok tt
  | Some ap =>
      a ← (match current with Some a => Ok a | None => local_context ap end);
      authorize ap a operation None None [] []
  end.

Definition authorize_read (operation : string) (area : option string) (device_ids capabilities : list string)
    : result exn unit :=
  match policy with
  | None => Ok tt
  | Some ap =>
      a ← caller_authority ap token;
      (if area_refused a r device_ids then authorize ap a operation None (Some "") [] [] else Ok tt) ≫= fun _ =>
      authorize ap a operation None area device_ids capabilities
  end.

Definition visible_devices : result exn (list Device) :=
  match token with
  | None => Ok (devices r)
  | Some t =>
      a ← authority_from_token_claims t;
      let selected := List.filter (fun d => in_scope_of (au_area_ids a) (dev_area_id d))
                        (List.filter (fun d => in_scope_of (au_device_ids a) (Some (dev_id d))) (devices r)) in
      Ok (if bool_decide (au_capabilities a = []) then selected
          else map (restrict_capabilities (au_capabilities a)) selected)
  end.

Definition bind_request_plan (p : Plan) (operation : string) : result exn Plan :=
  match policy with
  | None => Ok p
  | Some ap =>
      a ← caller_authority ap token;
      authorize ap a operation None None [] [] ≫= fun _ =>
      bind_plan ap p a operation (Some (known_areas r))
  end.

Definition authorize_existing_plan (p : Plan) (operation : string) : result exn unit :=
  a ← caller_authority (default (mkAuthorityPolicy "default" "default") policy) token;
  raise_if (negb (String.eqb (au_tenant_id (pl_authority p)) (au_tenant_id a)))
    (domain_error INSUFFICIENT_SCOPE "Plan tenant is not authorized") ≫= fun _ =>
  match policy with
  | None => Ok tt
  | Some ap =>
      authorize ap a operation (Some (au_household_id (pl_authority p))) None
        (map cmd_device_id (pl_commands p)) (map cmd_command (pl_commands p)) ≫= fun _ =>
      if area_refused a r (map cmd_device_id (pl_commands p))
      then authorize ap a operation None (Some "") [] [] else Ok tt
  end.
End Tools.
