(* ===== verification/Management.v ===== *)
(** * The management interface (management/auth.py, management/api.py, management/rate_limit.py)

    What stands between a request and its handler: [protected], the middleware
    of the management application, with [authenticated], the principal of the
    request ([ManagementPrincipal]) and the [RateLimiter].  The middleware is a
    coroutine that yields while the verifier of tokens and while the handler
    answers.  The handlers, the bounds of a request body, the headers of a
    response and the audit log are left out.  Texts are bytes: [casefold] and
    [strip] are those of ASCII. *)

From S2P Require Import Prelude.
From S2P Require Import Values.
From S2P Require Import Models.
From S2P Require Import Digests.
From S2P Require Import ApprovalStore.
From S2P Require Import Coroutines.
From S2P Require Import Authority.

(** ** Principals *)

Definition read_scope_aliases : list string :=
  ["read"; "home:read"; "plan"; "home:plan"; "mutate"; "home:write"; "manage"; "*"].
Definition manage_scopes : list string := ["manage"; "*"].
Definition explicit_authority_fields : list string :=
  ["tenant_id"; "household_id"; "household_ids"; "principal_id"; "roles"].
Definition read_only_post_paths : list string :=
  ["/api/v1/connections/discovery"; "/api/v1/mqtt/discovery/preview"; "/api/v1/knx/ets/preview";
   "/api/v1/home-assistant/oauth/discover"].

Record ManagementPrincipal := mkManagementPrincipal {
  mp_client_id : string;
  mp_scopes : list string;
  mp_authority : AuthorityContext;
  mp_explicit_authority : bool
}.

Definition explicit_claim (t : AccessToken) : bool :=
  match od_get "authority" (tk_claims t) with
  | Some (JObj d) => forallb (fun k => od_mem k d) explicit_authority_fields
  | _ => false
  end.

(** [ManagementPrincipal.from_access_token] *)
Definition principal_of_token (t : AccessToken) : result exn ManagementPrincipal :=
  (match od_get "authority" (tk_claims t) with
   | None => Ok tt
   | Some raw =>
       raise_if (negb (explicit_claim t)) (ValueError "management authority claims are incomplete") ≫= fun _ =>
       match raw with JObj d => authority_of_json d ≫= fun _ => Ok tt | _ => Err (ValueError "object expected") end
   end) ≫= fun _ =>
  a ← authority_from_token_claims t;
  Ok (mkManagementPrincipal (tk_client_id t) (tk_scopes t) a
        (explicit_claim t && match od_get "management_authority_explicit" (tk_claims t) with
                             | None | Some (JBool true) => true
                             | _ => false
                             end)).

(** [ManagementPrincipal.static] *)
Definition static_principal (a : option AuthorityContext) : result exn ManagementPrincipal :=
  a ← (match a with
       | Some a => Ok a
       | None => new_authority (default_authority <| au_principal_id := "management-static" |>)
       end);
  Ok (mkManagementPrincipal "management-static" ["*"] a true).

Definition principal_allows (p : ManagementPrincipal) (required_scope : string) : bool :=
  if String.eqb required_scope "read" then existsb (fun s => bool_decide (s ∈ read_scope_aliases)) (mp_scopes p)
  else String.eqb required_scope "manage" && mp_explicit_authority p &&
       existsb (fun s => bool_decide (s ∈ manage_scopes)) (mp_scopes p).

Definition upper_ascii (c : ascii) : ascii :=
  let n := Ascii.nat_of_ascii c in
  if Nat.leb 97 n && Nat.leb n 122 then Ascii.ascii_of_nat (n - 32) else c.
Definition upper (s : string) : string :=
  String.string_of_list_ascii (map upper_ascii (String.list_ascii_of_string s)).
Definition ends_with (suffix s : string) : bool :=
  bool_decide (suffix = String.substring (String.length s - String.length suffix) (String.length suffix) s).

Definition required_management_scope (method path : string) : string :=
  let m := upper method in
  if bool_decide (m ∈ ["GET"; "HEAD"; "OPTIONS"]) then "read"
  else if bool_decide (path ∈ read_only_post_paths) then "read"
  else if String.eqb m "POST" && String.prefix "/api/v1/connections/" path && ends_with "/validate" path then "read"
  else "manage".
Definition authority_operation_for_scope (required_scope : string) : string :=
  if String.eqb required_scope "read" then "list" else "manage_connections".


(** Requests that never reach [authenticated]. *)
Definition is_public_management_shell (method path : string) : bool :=
  bool_decide (method ∈ ["GET"; "HEAD"]) && String.eqb path "/".
Definition resident_prefix : string := "/api/v1/resident/decisions/".
Definition resident_posts : list string :=
  ["/api/v1/resident/session"; "/api/v1/resident/reviews"; "/api/v1/resident/decisions"].
Definition has_slash (s : string) : bool :=
  existsb (fun c => Ascii.eqb c "/"%char) (String.list_ascii_of_string s).
Definition is_resident_consent_request (method path : string) : bool :=
  if bool_decide (method ∈ ["GET"; "HEAD"]) then
    let rest := String.substring (String.length resident_prefix) (String.length path) path in
    String.prefix resident_prefix path && negb (is_empty rest) && negb (has_slash rest)
  else String.eqb method "POST" && bool_decide (path ∈ resident_posts).

(** ** [RateLimiter] *)

Record RateLimiter := mkRateLimiter {
  rl_max_requests : Z;
  rl_window_seconds : f64;
  rl_max_keys : Z;
  rl_requests : odict string (list f64)
}.
#[global] Instance RateLimiter_eta : Eta RateLimiter := fun r =>
  mkRateLimiter (rl_max_requests r) (rl_window_seconds r) (rl_max_keys r) (rl_requests r).

Definition new_rate_limiter (max_requests : Z) (window_seconds : f64) (max_keys : Z) : result exn RateLimiter :=
  raise_if ((max_requests <=? 0) || num_le (NFloat window_seconds) (NInt 0) || (max_keys <=? 0))
    (ValueError "rate limit values must be positive") ≫= fun _ =>
  Ok (mkRateLimiter max_requests window_seconds max_keys []).

(** The last request of a key; [float("-inf")] without one. *)
Definition last_request (w : list f64) : num := NFloat (default (SpecFloat.S754_infinity true) (last w)).
Definition oldest_of (x y : string * list f64) : string * list f64 :=
  if num_lt (last_request (snd y)) (last_request (snd x)) then y else x.
Definition oldest_key (d : odict string (list f64)) : option string :=
  match d with [] => None | x :: d => Some (fst (fold_left oldest_of d x)) end.
Definition make_room (max_keys : Z) (d : odict string (list f64)) : odict string (list f64) :=
  if max_keys <=? Z.of_nat (List.length d)
  then match oldest_key d with Some k => od_del k d | None => d end
  else d.

(** [while window and current - window[0] >= self.window_seconds: window.popleft()] *)
Fixpoint expire_window (window_seconds current : f64) (w : list f64) : list f64 :=
  match w with
  | [] => []
  | t :: w' => if num_le (NFloat window_seconds) (NFloat (f64_sub current t)) then expire_window window_seconds current w' else w
  end.

(** [allow] *)
Definition allow (current : f64) (key : string) (l : RateLimiter) : bool * RateLimiter :=
  let requests := match od_get key (rl_requests l) with
                  | Some _ => rl_requests l
                  | None => od_set key [] (make_room (rl_max_keys l) (rl_requests l))
                  end in
  let window := expire_window (rl_window_seconds l) current (default [] (od_get key requests)) in
  if rl_max_requests l <=? Z.of_nat (List.length window)
  then (false, l <| rl_requests := od_set key window requests |>)
  else (true, l <| rl_requests := od_set key (window ++ [current]) requests |>).

(** ** The interface *)

(** A request as the middleware reads it: the [Origin] header as [urlparse]
    takes it apart, its scheme and its network location. *)
Record management_request := mkRequest {
  mr_method : string;
  mr_path : string;
  mr_client_host : option string;
  mr_authorization : option string;
  mr_origin : option (string * string);
  mr_host : option string
}.

(** [auth_verifier], [authority_policy] and the digest of the static token. *)
Record ManagementInterface := mkManagementInterface {
  mi_verifier : bool;
  mi_policy : option AuthorityPolicy;
  mi_token_digest : option string
}.

Inductive management_call : Type -> Type :=
  | ask_verify (token : string) : management_call (option AccessToken)
  | ask_handler (p : option ManagementPrincipal) : management_call Z.

(** The clock ([time.monotonic]) and the limiter. *)
Record Managing := mkManaging {
  mg_monotonic : f64;
  mg_limiter : RateLimiter
}.
#[global] Instance Managing_eta : Eta Managing := fun r => mkManaging (mg_monotonic r) (mg_limiter r).

Section Interface.
Context `{CJ : Canonical}.
Abbreviation C := (coro Managing management_call).

(** [ManagementAuth]; [loopback] is [is_loopback_host] of the host. *)
Definition new_management_auth (loopback : bool) (token : option string) (tls_enabled external_auth : bool)
    : result exn (option string) :=
  raise_if (match token with Some t => is_empty t | None => false end)
    (ValueError "management authentication token must be non-empty") ≫= fun _ =>
  raise_if (negb loopback && negb (opt_bool token) && negb external_auth)
    (ValueError "non-loopback management requires authentication") ≫= fun _ =>
  raise_if (negb loopback && negb tls_enabled)
    (ValueError "non-loopback management requires HTTPS") ≫= fun _ =>
  Ok (sha256_hex <$> token).

(** What [create_management_app] checks and builds of it. *)
Definition new_management_interface (loopback : bool) (token : option string) (tls_enabled verifier : bool)
    (policy : option AuthorityPolicy) : result exn ManagementInterface :=
  raise_if (verifier && negb (opt_bool policy))
    (ValueError "verified management authentication requires a server authority policy") ≫= fun _ =>
  digest ← new_management_auth loopback token tls_enabled verifier;
  Ok (mkManagementInterface verifier policy digest).

Definition lower_ascii (c : ascii) : ascii :=
  let n := Ascii.nat_of_ascii c in
  if Nat.leb 65 n && Nat.leb n 90 then Ascii.ascii_of_nat (n + 32) else c.
Definition lower (s : string) : string :=
  String.string_of_list_ascii (map lower_ascii (String.list_ascii_of_string s)).

(** [ManagementAuth.authorized] *)
Definition static_authorized (digest header : option string) : bool :=
  match digest, header with
  | None, _ => true
  | Some d, Some h =>
      let token := stripped (String.substring 7 (String.length h) h) in
      String.prefix "bearer " (lower h) && negb (is_empty token) && String.eqb (sha256_hex token) d
  | Some _, None => false
  end.

(** [_bearer_token] *)
Definition bearer_token (header : option string) : option string :=
  match header with
  | None => None
  | Some h =>
      match String.index 0 " " h with
      | None => None
      | Some i =>
          let value := stripped (String.substring (i + 1) (String.length h) h) in
          if String.eqb (lower (String.substring 0 i h)) "bearer" && negb (is_empty value) then Some value else None
      end
  end.

(** [_same_origin] *)
Definition same_origin (rq : management_request) : bool :=
  match mr_origin rq with
  | None => true
  | Some (scheme, netloc) =>
      bool_decide (scheme ∈ ["http"; "https"]) && bool_decide (Some netloc = mr_host rq)
  end.
Definition safe_method (method : string) : bool := bool_decide (method ∈ ["GET"; "HEAD"; "OPTIONS"]).

(** ** The middleware *)

Definition client_key (kind : string) (rq : management_request) : string :=
  kind +:+ default "unknown" (mr_client_host rq).
Definition allowed_now (key : string) : C bool := perform (fun s =>
  let '(b, l) := allow (mg_monotonic s) key (mg_limiter s) in (Ok b, s <| mg_limiter := l |>)).
(** The handler, unless its client asked too often. *)
Definition limited (key : string) (p : option ManagementPrincipal) : C Z :=
  ok ← allowed_now key;
  if ok : bool then await (ask_handler p) else mret 429.

Section Middleware.
Context (mi : ManagementInterface).

(** The principal of a request, or the status of its refusal. *)
Definition identify (rq : management_request) : C (Z + ManagementPrincipal) :=
  if mi_verifier mi then
    verified ← (match bearer_token (mr_authorization rq) with
                | Some token => await (ask_verify token)
                | None => mret None
                end);
    match verified with
    | None => mret (inl 401)
    | Some t =>
        match principal_of_token t with
        | Ok p => mret (inr p)
        | Err e => if bool_decide (e = TypeError) || match e with ValueError _ => true | _ => false end
                   then mret (inl 403) else Raise e
        end
    end
  else if static_authorized (mi_token_digest mi) (mr_authorization rq) then
    p ← of_result (a ← (match mi_policy mi with Some ap => Some <$> local_context ap | None => Ok None end);
                   static_principal a);
    mret (inr p)
  else mret (inl 401).

Definition principal_authorized (p : ManagementPrincipal) (required_scope : string) : bool :=
  principal_allows p required_scope &&
  match mi_policy mi with
  | Some ap => is_ok (authorize ap (mp_authority p) (authority_operation_for_scope required_scope) None None [] [])
  | None => true
  end.

Definition authenticated (rq : management_request) : C Z :=
  identified ← identify rq;
  match identified with
  | inl status => mret status
  | inr p =>
      if negb (principal_authorized p (required_management_scope (mr_method rq) (mr_path rq))) then mret 403
      else if negb (safe_method (mr_method rq)) && negb (same_origin rq) then mret 403
      else limited (client_key "authorized:" rq) (Some p)
  end.

Definition protected (rq : management_request) : C Z :=
  if is_public_management_shell (mr_method rq) (mr_path rq) then limited (client_key "public:" rq) None
  else if is_resident_consent_request (mr_method rq) (mr_path rq)
  then limited (client_key "resident-unavailable:" rq) None
  else
    status ← authenticated rq;
    if bool_decide (status ∈ [401; 403]) then
      ok ← allowed_now (client_key "rejected:" rq);
      mret (if ok : bool then status else 429)
    else mret status.
End Middleware.
End Interface.
