(* ===== verification/AuthoritySafety.v ===== *)
(** * What an authority cannot do

    A plan that is bound to a principal can do nothing its principal cannot,
    and what the guards of the tools let through. *)

From S2P Require Import Prelude.
From S2P Require Import Values.
From S2P Require Import Models.
From S2P Require Import Registry.
From S2P Require Import Digests.
From S2P Require Import ApprovalStore.
From S2P Require Import Authority.
From S2P Require Import Management.

(** ** Scopes *)

(** An empty scope is no restriction. *)
Definition permits (scope : list string) (x : string) : Prop := scope = [] \/ x ∈ scope.

Lemma all_inside (scope l : list string) : existsb (fun x => negb (bool_decide (x ∈ scope))) l = false <-> Forall (.∈ scope) l.
Proof.
  induction l as [|x l IH]; simpl; [by split|].
  rewrite orb_false_iff, negb_false_iff, bool_decide_eq_true, IH, Forall_cons. done.
Qed.

Lemma outside_permits scope l : outside scope l = false <-> Forall (permits scope) l.
Proof.
  unfold outside, permits. case_bool_decide as Hs; simpl.
  - split; [|done]. intros _. apply Forall_forall. by left.
  - rewrite all_inside, !Forall_forall. split; intros H x Hx; [right; by apply H|by destruct (H x Hx)].
Qed.

Lemma deny_if_ok b operation reason u : deny_if b operation reason = Ok u <-> b = false.
Proof. destruct b, u; unfold deny_if, deny; split; congruence. Qed.

(** What [authorize] asks. *)
Record allowed (ap : AuthorityPolicy) (a : AuthorityContext) (operation : string) (target area : option string)
    (device_ids capabilities : list string) : Prop := {
  al_here : default (ap_household_id ap) target = ap_household_id ap;
  al_tenant : au_tenant_id a = ap_tenant_id ap;
  al_member : ap_household_id ap ∈ au_household_ids a;
  al_preferences : operation ∈ preference_operations ->
    au_household_id a = ap_household_id ap /\ scoped a = false;
  al_connections : operation = "manage_connections" -> scoped a = false;
  al_area : Forall (permits (au_area_ids a)) (option_list area);
  al_devices : Forall (permits (au_device_ids a)) device_ids;
  al_capabilities : Forall (permits (au_capabilities a)) capabilities;
  al_role : role_allows a operation = true;
  al_listed : operation_listed a operation = true
}.

Lemma authorize_ok ap a operation target area device_ids capabilities :
  authorize ap a operation target area device_ids capabilities = Ok tt <->
  allowed ap a operation target area device_ids capabilities.
Proof.
  unfold authorize. rewrite !bind_unit_ok, !deny_if_ok, !outside_permits, !negb_false_iff, !andb_false_iff,
    !orb_false_iff, !andb_true_iff, !negb_false_iff, !String.eqb_eq, bool_decide_eq_true, bool_decide_eq_false,
    String.eqb_neq.
  split.
  - intros (H1 & H2 & H3 & H4 & H5 & H6 & H7 & H8 & H9 & H10). rewrite H1 in *.
    split; try done; tauto.
  - intros [H1 H2 H3 H4 H5 H6 H7 H8 H9 H10]. rewrite H1 in *. split_and!; try done.
    + destruct (decide (operation ∈ preference_operations)); [right|by left]. by apply H4.
    + destruct (decide (operation = "manage_connections")); [right|by left]. by apply H5.
Qed.

(** ** Binding a plan *)

Record narrowed (verified declared scope : list string) : Prop := {
  na_unrestricted : scope = [] <-> verified = [] /\ declared = [];
  na_permits : forall x, permits scope x -> permits verified x /\ permits declared x
}.

Lemma narrow_scope_spec verified declared field operation scope :
  narrow_scope verified declared field operation = Ok scope ->
  (scope = [] <-> verified = [] /\ declared = []) /\
  (forall x, permits scope x -> permits declared x /\
     (permits verified x \/ (field = "operations" /\ "*" ∈ verified))) /\
  (field = "operations" -> "*" ∈ scope -> verified = [] \/ "*" ∈ verified).
Proof.
  unfold narrow_scope, permits. case_bool_decide as Hd; [|case_bool_decide as Hv].
  - intros [= <-]. subst. split; [tauto|]. split; [tauto|auto].
  - intros [= <-]. subst. split; [tauto|]. split; [tauto|auto].
  - destruct (String.eqb field "operations" && bool_decide ("*" ∈ verified)) eqn:Es.
    + intros [= <-]. apply andb_true_iff in Es as [Hf%String.eqb_eq Hs%bool_decide_eq_true].
      split; [tauto|]. split; [|auto]. intros x Hx. split; [done|]. by right.
    + intros (u & H1 & H)%result_bind_ok. apply result_bind_ok in H as (u2 & H2 & [= <-]).
      apply deny_if_ok in H1, H2. rewrite all_inside, Forall_forall in H2.
      apply andb_false_iff in H1. rewrite String.eqb_neq, bool_decide_eq_false in H1.
      split; [tauto|]. split; [|intros -> Hs; by destruct H1].
      intros x [->|Hx]; [done|]. split; [by right|]. left. right. by apply H2.
Qed.

Lemma narrow_scope_narrowed verified declared field operation scope : field <> "operations" ->
  narrow_scope verified declared field operation = Ok scope -> narrowed verified declared scope.
Proof.
  intros Hf (H1 & H2 & _)%narrow_scope_spec. split; [done|]. intros x (H & [Hv|[? _]])%H2; [done|by destruct Hf].
Qed.

(** The authority [e] a plan with the authority [d] is bound to for [a]. *)
Record bound_authority (ap : AuthorityPolicy) (a d e : AuthorityContext) : Prop := {
  ba_identity : e = a <| au_household_id := au_household_id e |> <| au_area_ids := au_area_ids e |>
    <| au_device_ids := au_device_ids e |> <| au_capabilities := au_capabilities e |>
    <| au_operations := au_operations e |>;
  ba_declared : d <> default_authority ->
    au_tenant_id d = au_tenant_id a /\ au_household_id e = au_household_id d;
  ba_areas : narrowed (au_area_ids a) (au_area_ids d) (au_area_ids e);
  ba_devices : narrowed (au_device_ids a) (au_device_ids d) (au_device_ids e);
  ba_capabilities : narrowed (au_capabilities a) (au_capabilities d) (au_capabilities e);
  ba_operations : forall operation, operation_listed e operation = true ->
    operation_listed a operation = true /\ operation_listed d operation = true
}.

Lemma narrow_declared (verified : list string) d e field operation scope x :
  narrow_scope verified (au_operations d) field operation = Ok scope -> au_operations e = scope ->
  operation_listed e x = true -> operation_listed d x = true.
Proof.
  unfold narrow_scope, operation_listed. case_bool_decide as Hd; [done|]. intros H He.
  assert (scope = au_operations d) as Hs; [|rewrite He, Hs; by rewrite (bool_decide_eq_false_2 _ Hd)].
  case_bool_decide; [by injection H as <-|]. destruct (_ && _); [by injection H as <-|].
  apply result_bind_ok in H as (? & _ & H). by apply result_bind_ok in H as (? & _ & [= <-]).
Qed.

Lemma operations_listed a e d operation scope x :
  narrow_scope (au_operations a) (au_operations d) "operations" operation = Ok scope -> au_operations e = scope ->
  operation_listed e x = true -> operation_listed a x = true /\ operation_listed d x = true.
Proof.
  intros H He Hx. split; [|by eapply narrow_declared]. revert Hx.
  apply narrow_scope_spec in H as (H1 & H2 & H3). unfold operation_listed. rewrite He, !orb_true_iff, !bool_decide_eq_true.
  intros [[Hn|Hx]|Hs].
  - left; left. by apply H1.
  - destruct (H2 x (or_intror Hx)) as [_ [[?|?]|[_ ?]]]; auto.
  - destruct (H3 eq_refl Hs); auto.
Qed.

Lemma effective_authority_bound ap d a operation e :
  effective_authority ap d a operation = Ok e -> bound_authority ap a d e.
Proof.
  unfold effective_authority. intros (u & H0 & H)%result_bind_ok. apply deny_if_ok in H0.
  apply result_bind_ok in H as (areas & H1 & H). apply result_bind_ok in H as (device_ids & H2 & H).
  apply result_bind_ok in H as (capabilities & H3 & H). apply result_bind_ok in H as (operations & H4 & [= <-]).
  split; simpl.
  - done.
  - intros Hd. revert H0. rewrite (bool_decide_eq_false_2 _ Hd). simpl.
    intros H0%negb_false_iff%String.eqb_eq. done.
  - by eapply narrow_scope_narrowed; [|exact H1].
  - by eapply narrow_scope_narrowed; [|exact H2].
  - by eapply narrow_scope_narrowed; [|exact H3].
  - intros x. by eapply operations_listed.
Qed.

Lemma bound_scoped ap a d e : bound_authority ap a d e -> scoped e = false -> scoped a = false.
Proof.
  intros [_ _ [H1 _] [H2 _] [H3 _] _]. unfold scoped. rewrite !negb_false_iff, !andb_true_iff, !bool_decide_eq_true.
  intros [[Ha Hb] Hc]. rewrite H1 in Ha. rewrite H2 in Hb. rewrite H3 in Hc. tauto.
Qed.

Lemma narrowed_forall v d scope l : narrowed v d scope -> Forall (permits scope) l -> Forall (permits v) l.
Proof. intros [_ H] Hl. eapply Forall_impl; [exact Hl|]. intros x Hx. by apply H. Qed.

(** Operations whose rules look at more than the role: they name their
    operation in the authority, or its household. *)
Definition exceptional (operation : string) : Prop :=
  operation ∈ resident_consent_operations \/ operation ∈ preference_operations.

Lemma bound_allowed ap a d e operation target area device_ids capabilities :
  bound_authority ap a d e -> ~ exceptional operation ->
  allowed ap e operation target area device_ids capabilities ->
  allowed ap a operation target area device_ids capabilities.
Proof.
  intros Hb Hx [H1 H2 H3 H4 H5 H6 H7 H8 H9 H10]. pose proof (bound_scoped _ _ _ _ Hb) as Hs.
  destruct Hb as [Hid _ Ha Hd Hc Ho]. rewrite Hid in H2, H3. simpl in H2, H3.
  assert (role_allows a operation = true) as Hrole.
  { revert H9. rewrite Hid. unfold role_allows. simpl. rewrite (bool_decide_eq_false_2 (_ ∈ resident_consent_operations)); [done|].
    intros ?. apply Hx. by left. }
  split; try done.
  - intros Hp. destruct Hx. by right.
  - intros Hm. by apply Hs, H5.
  - by eapply narrowed_forall.
  - by eapply narrowed_forall.
  - by eapply narrowed_forall.
  - by apply Ho.
Qed.

Lemma check_areas_ok e p operation areas : check_areas e p operation areas = Ok tt ->
  au_area_ids e = [] \/ Forall (fun c => exists area, areas ≫= (.!! cmd_device_id c) = Some (Some area) /\ area ∈ au_area_ids e)
    (pl_commands p).
Proof.
  unfold check_areas. case_bool_decide as He; [by left|]. right. destruct areas as [m|]; [|done]. simpl.
  apply result_iter_ok in H. eapply Forall_impl; [exact H|]. intros c Hc. apply deny_if_ok in Hc.
  destruct (m !! cmd_device_id c) as [[area|]|]; [|done..].
  apply negb_false_iff, bool_decide_eq_true in Hc. by exists area.
Qed.

Lemma bind_plan_ok ap p a operation areas p' : bind_plan ap p a operation areas = Ok p' ->
  exists e, p' = p <| pl_authority := e |> /\ bound_authority ap a (pl_authority p) e /\
    allowed ap e operation (Some (au_household_id e)) None (map cmd_device_id (pl_commands p)) (map cmd_command (pl_commands p)) /\
    check_areas e p operation areas = Ok tt.
Proof.
  unfold bind_plan. intros (e & H1%effective_authority_bound & H)%result_bind_ok.
  apply result_bind_ok in H as ([] & H2%authorize_ok & H). apply result_bind_ok in H as ([] & H3 & [= <-]).
  by exists e.
Qed.

(** C24: A plan that is bound to a verified principal cannot broaden what the
    principal may do: its authority is the principal's with the household of
    this deployment, to which the principal belongs, and with every scope
    within both the principal's and the declared one; every command addresses
    a device and asks for a capability within these scopes, in a known area
    within them; and whatever the bound authority is later authorized to do,
    the principal itself is - except for consent and preferences, whose rules
    look at the operations and the household the plan may have declared. *)
Theorem bound_plan_never_broadens ap p a operation areas p' :
  bind_plan ap p a operation areas = Ok p' ->
  let e := pl_authority p' in
  p' = p <| pl_authority := e |> /\ bound_authority ap a (pl_authority p) e /\
  au_tenant_id a = ap_tenant_id ap /\ au_household_id e = ap_household_id ap /\
  ap_household_id ap ∈ au_household_ids a /\
  Forall (fun c => permits (au_device_ids a) (cmd_device_id c) /\ permits (au_capabilities a) (cmd_command c)) (pl_commands p) /\
  (au_area_ids e <> [] -> Forall (fun c => exists area, areas ≫= (.!! cmd_device_id c) = Some (Some area) /\
     area ∈ au_area_ids e) (pl_commands p)) /\
  (forall later target area device_ids capabilities, ~ exceptional later ->
     authorize ap e later target area device_ids capabilities = Ok tt ->
     authorize ap a later target area device_ids capabilities = Ok tt).
Proof.
  intros (e & -> & Hb & Hal & Har)%bind_plan_ok. simpl. destruct Hal as [H1 H2 H3 H4 H5 H6 H7 H8 H9 H10].
  pose proof (ba_identity _ _ _ _ Hb) as Hid. split_and!; try done.
  - rewrite Hid in H2. exact H2.
  - rewrite Hid in H3. exact H3.
  - apply (narrowed_forall _ _ _ _ (ba_devices _ _ _ _ Hb)) in H7.
    apply (narrowed_forall _ _ _ _ (ba_capabilities _ _ _ _ Hb)) in H8.
    rewrite Forall_map in H7, H8. apply Forall_and. by split.
  - intros Hne. by destruct (check_areas_ok _ _ _ _ Har).
  - intros later target area device_ids capabilities Hx. rewrite !authorize_ok. by eapply bound_allowed.
Qed.

(** ** The guards of the tools *)

Lemma new_authority_valid a a' : new_authority a = Ok a' -> validate_authority a' = Ok tt.
Proof.
  unfold new_authority. intros (u1 & _ & H)%result_bind_ok. apply result_bind_ok in H as (u2 & _ & H).
  apply result_bind_ok in H as ([] & Hv & [= <-]). exact Hv.
Qed.

Lemma authority_of_json_valid d a : authority_of_json d = Ok a -> validate_authority a = Ok tt.
Proof.
  unfold authority_of_json. rewrite !result_bind_ok. intros (u & _ & H). revert H.
  do 9 (intros (? & _ & H)%result_bind_ok; revert H). apply new_authority_valid.
Qed.

Lemma caller_authority_valid ap token a : caller_authority ap token = Ok a -> validate_authority a = Ok tt.
Proof.
  destruct token as [t|]; simpl.
  - unfold authority_from_token_claims.
    destruct (od_get "authority" (tk_claims t)) as [[]|]; try apply new_authority_valid.
    destruct (authority_of_json _) eqn:E; [intros [= <-]; by eapply authority_of_json_valid|].
    destruct (_ || _); [apply new_authority_valid|done].
  - unfold local_context. destruct (_ && _); [by intros [= <-]|apply new_authority_valid].
Qed.

Lemma valid_no_blank_area a : validate_authority a = Ok tt -> "" ∉ au_area_ids a.
Proof.
  unfold validate_authority. rewrite bind_unit_ok, result_iter_ok. intros [_ H] Hin.
  do 2 apply Forall_cons in H as [_ H]. apply Forall_cons in H as [H _]. simpl in H.
  apply bind_unit_ok in H as [_ H%raise_if_ok].
  assert (existsb is_blank (au_area_ids a) = true) as Hb; [|congruence].
  apply existsb_exists. exists "". split; [by apply list_elem_of_In|done].
Qed.

Lemma area_denied ap a operation target : validate_authority a = Ok tt -> au_area_ids a <> [] ->
  authorize ap a operation target (Some "") [] [] <> Ok tt.
Proof.
  intros Hv Hne H. apply authorize_ok in H as [_ _ _ _ _ Ha _ _ _ _]. simpl in Ha.
  apply Forall_cons in Ha as [[?|?] _]; [done|]. by eapply valid_no_blank_area.
Qed.

Lemma area_refused_false a r ids : area_refused a r ids = false ->
  au_area_ids a = [] \/ Forall (fun id => exists area, known_areas r !! id = Some (Some area) /\ area ∈ au_area_ids a) ids.
Proof.
  unfold area_refused. case_bool_decide as Ha; [by left|]. simpl. right. revert H.
  induction ids as [|id ids IH]; simpl; [constructor|]. intros [Hi H]%orb_false_iff. constructor; [|by apply IH].
  unfold in_unknown_area in Hi. destruct (known_areas r !! id) as [[area|]|]; [|done..].
  exists area. split; [done|]. by apply negb_false_iff, bool_decide_eq_true in Hi.
Qed.

(** The guard of the tools lets a call on a stored plan through only if the
    caller's own authority reaches it: the tenant and the household are the
    caller's and this deployment's, every command is within the caller's
    devices and capabilities, a caller restricted to areas has every device in
    a known one of them, and the caller's roles and operations allow the
    call. *)
Theorem existing_plan_guarded ap r token p operation :
  authorize_existing_plan (Some ap) r token p operation = Ok tt ->
  exists a, caller_authority ap token = Ok a /\
    au_tenant_id (pl_authority p) = ap_tenant_id ap /\ au_tenant_id a = ap_tenant_id ap /\
    au_household_id (pl_authority p) = ap_household_id ap /\ ap_household_id ap ∈ au_household_ids a /\
    Forall (fun c => permits (au_device_ids a) (cmd_device_id c) /\ permits (au_capabilities a) (cmd_command c) /\
              (au_area_ids a <> [] -> exists area, known_areas r !! cmd_device_id c = Some (Some area) /\
                 area ∈ au_area_ids a)) (pl_commands p) /\
    role_allows a operation = true /\ operation_listed a operation = true.
Proof.
  unfold authorize_existing_plan. simpl. intros (a & Ha & H)%result_bind_ok. exists a. split; [done|].
  apply bind_unit_ok in H as [Ht H]. apply raise_if_ok, negb_false_iff, String.eqb_eq in Ht.
  apply bind_unit_ok in H as [[H1 H2 H3 _ _ _ H7 H8 H9 H10]%authorize_ok H]. simpl in H1.
  rewrite Forall_map in H7, H8.
  assert (au_area_ids a <> [] -> Forall (fun c => exists area, known_areas r !! cmd_device_id c = Some (Some area) /\
    area ∈ au_area_ids a) (pl_commands p)) as Hareas.
  { intros Hne. destruct (area_refused _ _ _) eqn:Er.
    - exfalso. eapply area_denied; [by eapply caller_authority_valid|exact Hne|exact H].
    - apply area_refused_false in Er as [?|Er]; [done|]. by rewrite Forall_map in Er. }
  split_and!; try done; [congruence|]. rewrite Forall_forall in *. intros c Hc.
  split; [by apply H7|]. split; [by apply H8|]. intros Hne. by apply (Hareas Hne).
Qed.

(** ** Examples and witnesses *)

Definition home_policy : AuthorityPolicy := mkAuthorityPolicy "tenant-a" "home-a".
Definition claims_of (roles areas device_ids operations : list string) : list (string * json) :=
  [("authority", JObj [("tenant_id", JStr "tenant-a"); ("household_id", JStr "home-a");
     ("household_ids", JList [JStr "home-a"]); ("principal_id", JStr "anna"); ("roles", JList (map JStr roles));
     ("area_ids", JList (map JStr areas)); ("device_ids", JList (map JStr device_ids));
     ("operations", JList (map JStr operations))])].
Definition anna (roles areas device_ids operations : list string) : AccessToken :=
  mkAccessToken "client-1" ["mutate"; "manage"] (claims_of roles areas device_ids operations).
Definition anna_authority (roles : list PrincipalRole) (areas device_ids operations : list string) : AuthorityContext :=
  mkAuthorityContext "tenant-a" "home-a" ["home-a"] "anna" roles areas device_ids [] operations.
Definition home_plan (a : AuthorityContext) : Plan :=
  mkPlan a "plan-1" "v1" 0 (Some (hours 1)) None None None 0
    [mkCommand "c1" "office.desk-lamp" "turn_on" None None [] SAFE "k1" None []] PS_DRAFT
    None None None None [] None None None.

Example anna_decoded :
  authority_from_token_claims (anna ["operator"] ["office"] ["office.desk-lamp"] [])
    = Ok (anna_authority [ROLE_OPERATOR] ["office"] ["office.desk-lamp"] []).
Proof. vm_compute. reflexivity. Qed.

(** A claim that narrows but does not validate is passed over: the client gets
    the authority of its scopes, an operator of the default household without
    any restriction. *)
Example malformed_claim_widens :
  authority_from_token_claims (anna ["viewer"] [] ["office.desk-lamp"; "office.desk-lamp"] []) =
    Ok (default_authority <| au_principal_id := "client-1" |> <| au_roles := [ROLE_OPERATOR] |>) /\
  principal_of_token (anna ["viewer"] [] ["office.desk-lamp"; "office.desk-lamp"] [])
    = Err (ValueError "device_ids must contain unique values").
Proof. vm_compute. split; reflexivity. Qed.

(** Consent needs its operation in the authority.  An operator whose
    operations are not restricted has none there, but a plan it submits may
    declare one. *)
Definition consenting : AuthorityContext := anna_authority [ROLE_OPERATOR] [] [] ["approve_consent"; "prepare_plan"].
Example declared_consent_bound :
  is_ok (authorize home_policy (anna_authority [ROLE_OPERATOR] [] [] []) "approve_consent" None None [] []) = false /\
  (p ← bind_plan home_policy (home_plan consenting) (anna_authority [ROLE_OPERATOR] [] [] []) "prepare_plan" None;
   authorize home_policy (pl_authority p) "approve_consent" None None [] []) = Ok tt.
Proof. vm_compute. split; reflexivity. Qed.

(** The scope of capabilities holds commands where plans are bound and names of
    capabilities where devices are shown: a principal restricted to the
    command it may give sees a lamp without capabilities. *)
Example capability_scope_differs :
  let t := mkAccessToken "client-1" ["mutate"] [("authority", JObj [("tenant_id", JStr "tenant-a");
     ("household_id", JStr "home-a"); ("household_ids", JList [JStr "home-a"]); ("roles", JList [JStr "operator"]);
     ("capabilities", JList [JStr "turn_on"])])] in
  is_ok (bind_request_plan (Some home_policy) example_registry (Some t) (home_plan default_authority) "prepare_plan") = true /\
  (map dev_capabilities <$> visible_devices example_registry (Some t)) = Ok [[]].
Proof. vm_compute. split; reflexivity. Qed.

Definition office_areas : gmap string (option string) := {["office.desk-lamp" := Some "office"]}.
Definition home_bound : Plan :=
  home_plan (anna_authority [ROLE_OPERATOR] ["office"] ["office.desk-lamp"] []).
Lemma home_plan_bound :
  bind_plan home_policy (home_plan default_authority) (anna_authority [ROLE_OPERATOR] ["office"] ["office.desk-lamp"] [])
    "prepare_plan" (Some office_areas) = Ok home_bound.
Proof. vm_compute. reflexivity. Qed.

Lemma bound_plan_never_broadens_witness :
  let e := pl_authority home_bound in
  let a := anna_authority [ROLE_OPERATOR] ["office"] ["office.desk-lamp"] [] in
  home_bound = (home_plan default_authority) <| pl_authority := e |> /\ bound_authority home_policy a (pl_authority (home_plan default_authority)) e /\
  au_tenant_id a = ap_tenant_id home_policy /\ au_household_id e = ap_household_id home_policy /\
  ap_household_id home_policy ∈ au_household_ids a /\
  Forall (fun c => permits (au_device_ids a) (cmd_device_id c) /\ permits (au_capabilities a) (cmd_command c))
    (pl_commands (home_plan default_authority)) /\
  (au_area_ids e <> [] -> Forall (fun c => exists area, Some office_areas ≫= (.!! cmd_device_id c) = Some (Some area) /\
     area ∈ au_area_ids e) (pl_commands (home_plan default_authority))) /\
  (forall later target area device_ids capabilities, ~ exceptional later ->
     authorize home_policy e later target area device_ids capabilities = Ok tt ->
     authorize home_policy a later target area device_ids capabilities = Ok tt).
Proof.
  exact (bound_plan_never_broadens home_policy (home_plan default_authority) _ "prepare_plan" (Some office_areas)
    home_bound home_plan_bound).
Defined.

Lemma home_plan_guarded :
  authorize_existing_plan (Some home_policy) example_registry (Some (anna ["operator"] ["office"] [] [])) home_bound
    "execute_plan" = Ok tt.
Proof. vm_compute. reflexivity. Qed.

Lemma existing_plan_guarded_witness :
  exists a, caller_authority home_policy (Some (anna ["operator"] ["office"] [] [])) = Ok a /\
    au_tenant_id (pl_authority home_bound) = ap_tenant_id home_policy /\ au_tenant_id a = ap_tenant_id home_policy /\
    au_household_id (pl_authority home_bound) = ap_household_id home_policy /\
    ap_household_id home_policy ∈ au_household_ids a /\
    Forall (fun c => permits (au_device_ids a) (cmd_device_id c) /\ permits (au_capabilities a) (cmd_command c) /\
              (au_area_ids a <> [] -> exists area, known_areas example_registry !! cmd_device_id c = Some (Some area) /\
                 area ∈ au_area_ids a)) (pl_commands home_bound) /\
    role_allows a "execute_plan" = true /\ operation_listed a "execute_plan" = true.
Proof.
  exact (existing_plan_guarded home_policy example_registry (Some (anna ["operator"] ["office"] [] [])) home_bound
    "execute_plan" home_plan_guarded).
Defined.
