(* ===== verification/ManagementSafety.v ===== *)
(** * What the management interface lets through

    [management_gated]: when the middleware hands a request to its handler, and
    with which principal.  [allow_keeps] bounds what the limiter remembers. *)

From S2P Require Import Prelude.
From S2P Require Import Values.
From S2P Require Import Models.
From S2P Require Import Digests.
From S2P Require Import ApprovalStore.
From S2P Require Import Coroutines.
From S2P Require Import Authority.
From S2P Require Import Management.
From S2P Require Import AuthoritySafety.

(** ** Principals *)

Lemma principal_of_token_ok t p : principal_of_token t = Ok p ->
  authority_from_token_claims t = Ok (mp_authority p) /\
  (mp_explicit_authority p = true -> exists d, od_get "authority" (tk_claims t) = Some (JObj d) /\
     explicit_claim t = true /\ authority_of_json d = Ok (mp_authority p)).
Proof.
  unfold principal_of_token. intros (u & H1 & H)%result_bind_ok. apply result_bind_ok in H as (a & H2 & [= <-]).
  split; [done|]. simpl. intros [He _]%andb_true_iff. revert H1 H2 He. unfold authority_from_token_claims, explicit_claim.
  destruct (od_get "authority" (tk_claims t)) as [[| | | | |d]|]; try done.
  intros H1 H2 He. exists d. split; [done|]. split; [done|].
  apply result_bind_ok in H1 as (u1 & _ & H1). apply result_bind_ok in H1 as (a' & H1 & _).
  by rewrite H1 in H2 |- *.
Qed.

Lemma scope_listed (scopes l : list string) : existsb (fun s => bool_decide (s ∈ scopes)) l = true -> Exists (.∈ scopes) l.
Proof.
  intros (s & Hin%list_elem_of_In & Hs%bool_decide_eq_true)%existsb_exists. apply Exists_exists. by exists s.
Qed.

(** ** The limiter *)

Record limited_well (l : RateLimiter) : Prop := {
  lw_keys : NoDup (od_keys (rl_requests l)) /\ Z.of_nat (List.length (rl_requests l)) <= rl_max_keys l;
  lw_windows : forall k w, od_get k (rl_requests l) = Some w -> Z.of_nat (List.length w) <= rl_max_requests l
}.

Lemma expire_length window current w : (List.length (expire_window window current w) <= List.length w)%nat.
Proof. induction w as [|t w IH]; simpl; [done|]. case_match; simpl; lia. Qed.

Lemma oldest_key_elem d k : oldest_key d = Some k -> k ∈ od_keys d.
Proof.
  destruct d as [|x d]; [done|]. simpl. intros [= <-]. unfold od_keys. simpl.
  assert (fold_left oldest_of d x ∈ x :: d) as H.
  { clear. revert x. induction d as [|y d IH]; intros x; simpl; [set_solver|].
    specialize (IH (oldest_of x y)).
    assert (oldest_of x y = x \/ oldest_of x y = y) as Hc by (unfold oldest_of; destruct (num_lt _ _); auto).
    apply elem_of_cons in IH as [IH|IH]; [rewrite IH; destruct Hc as [->| ->]|]; set_solver. }
  apply (list_elem_of_fmap_2 fst) in H. exact H.
Qed.

Lemma od_del_keys (d : odict string (list f64)) k : NoDup (od_keys d) ->
  NoDup (od_keys (od_del k d)) /\ (forall x, x ∈ od_keys (od_del k d) -> x ∈ od_keys d) /\
  (k ∈ od_keys d -> (S (List.length (od_del k d)) <= List.length d)%nat) /\
  (List.length (od_del k d) <= List.length d)%nat.
Proof.
  unfold od_keys, od_del. induction d as [|[k1 w] d IH]; simpl; [set_solver|].
  intros [Hk1 (H1 & H2 & H3 & H4)%IH]%NoDup_cons. case_bool_decide as E; simpl.
  - split; [apply NoDup_cons; split; [intros Hin; by apply Hk1, H2|done]|]. split; [set_solver|].
    split; [|lia]. intros [->|Hk]%elem_of_cons; [done|]. specialize (H3 Hk). lia.
  - split; [done|]. split; [set_solver|]. split; lia.
Qed.

Lemma make_room_ok max_keys d : 0 < max_keys -> NoDup (od_keys d) -> Z.of_nat (List.length d) <= max_keys ->
  NoDup (od_keys (make_room max_keys d)) /\ Z.of_nat (List.length (make_room max_keys d)) < max_keys /\
  forall k w, od_get k (make_room max_keys d) = Some w -> od_get k d = Some w.
Proof.
  intros Hpos Hnd Hl. unfold make_room. destruct (max_keys <=? _) eqn:E; [|apply Z.leb_gt in E; by split_and!].
  destruct (oldest_key d) as [k|] eqn:Ek; [|destruct d; [apply Z.leb_le in E; simpl in E; lia|done]].
  destruct (od_del_keys d k Hnd) as (H1 & _ & H3 & _). specialize (H3 (oldest_key_elem _ _ Ek)).
  split_and!; [done|lia|]. intros k' w. rewrite od_get_del. by case_decide.
Qed.

Lemma od_keys_set_present (d : odict string (list f64)) k v w : od_get k d = Some v -> od_keys (od_set k w d) = od_keys d.
Proof.
  intros H. rewrite od_keys_set. case_decide as Hk; [done|]. destruct Hk. apply od_get_elem in H.
  apply (list_elem_of_fmap_2 fst) in H. exact H.
Qed.

(** What [allow] works on: a table with the key, within the bounds. *)
Lemma with_key_ok key l : 0 < rl_max_requests l -> 0 < rl_max_keys l -> limited_well l ->
  let d := match od_get key (rl_requests l) with
           | Some _ => rl_requests l | None => od_set key [] (make_room (rl_max_keys l) (rl_requests l)) end in
  is_Some (od_get key d) /\ limited_well (l <| rl_requests := d |>).
Proof.
  intros Hr Hk [[H1 H2] H3]. destruct (od_get key (rl_requests l)) as [w|] eqn:E; [by split; [|split]|].
  destruct (make_room_ok _ _ Hk H1 H2) as (H4 & H5 & H6). simpl. rewrite od_get_set_eq. split; [done|].
  split; simpl.
  - split; [by apply od_keys_set_NoDup|]. rewrite <- (length_map fst). change (map fst) with (od_keys (K := string) (V := list f64)).
    rewrite od_keys_set. unfold od_keys. case_decide; rewrite ?length_app, length_map; simpl; lia.
  - intros k w. rewrite od_get_set. case_decide; [intros [= <-]; simpl; lia|]. intros Hw%H6. by apply (H3 k).
Qed.

(** The limiter keeps to its bounds, and a request is let through only if its
    key had fewer than the allowed number left in the window. *)
Lemma allow_keeps current key l : 0 < rl_max_requests l -> 0 < rl_max_keys l -> limited_well l ->
  let '(ok, l') := allow current key l in
  limited_well l' /\ (ok = true -> exists w, od_get key (rl_requests l') = Some (w ++ [current]) /\
    Z.of_nat (List.length w) < rl_max_requests l).
Proof.
  intros Hr Hk Hl. destruct (with_key_ok key l Hr Hk Hl) as [[w0 Hw0] [[H1 H2] H3]]. unfold allow.
  set (d := match od_get key (rl_requests l) with Some _ => _ | None => _ end) in *. simpl in H1, H2, H3.
  rewrite Hw0. simpl. set (w := expire_window _ _ _).
  assert (forall w', Z.of_nat (List.length w') <= rl_max_requests l ->
    limited_well (l <| rl_requests := od_set key w' d |>)) as Hset.
  { intros w' Hw'. split; simpl.
    - rewrite <- (length_map fst). change (map fst) with (od_keys (K := string) (V := list f64)).
      rewrite (od_keys_set_present d key w0 w' Hw0). split; [done|]. unfold od_keys. by rewrite length_map.
    - intros k w''. rewrite od_get_set. case_decide; [by intros [= <-]|apply H3]. }
  pose proof (expire_length (rl_window_seconds l) current w0) as Hlen. specialize (H3 _ _ Hw0). fold w in Hlen.
  destruct (rl_max_requests l <=? _) eqn:E.
  - split; [apply Hset; lia|done].
  - split; [apply Hset; rewrite length_app; simpl; lia|]. intros _. exists w. simpl. rewrite od_get_set_eq.
    split; [done|lia].
Qed.

Section Interface.
Context `{CJ : Canonical} (mi : ManagementInterface).
Abbreviation C := (coro Managing management_call).
Abbreviation happened := (list (happening Managing management_call)).

(** ** What is handed to a handler *)

Definition asked_handler {B} (q : management_call B) : result exn B -> option (option ManagementPrincipal) :=
  match q in management_call B return result exn B -> option (option ManagementPrincipal) with
  | ask_verify _ => fun _ => None
  | ask_handler p => fun _ => Some p
  end.
Definition handled : happened -> list (option ManagementPrincipal) := picked (@asked_handler).

Lemma handled_app l1 l2 : handled (l1 ++ l2) = handled l1 ++ handled l2.
Proof. apply picked_app. Qed.

(** At most one handler is asked, after a stretch with [G]. *)
Definition serves (G : option ManagementPrincipal -> happened -> Prop) (h : happened) : Prop :=
  handled h = [] \/ exists h1 p r h2, h = h1 ++ Asked (ask_handler p) r :: h2 /\
    handled h1 = [] /\ handled h2 = [] /\ G p h1.

Lemma serves_before G k h : handled k = [] -> serves (fun p t => G p (k ++ t)) h -> serves G (k ++ h).
Proof.
  intros Hk [Hh|(h1 & p & r & h2 & -> & H1 & H2 & HG)]; [left; by rewrite handled_app, Hk|].
  right. exists (k ++ h1), p, r, h2. rewrite app_assoc, handled_app, Hk, H1. done.
Qed.
Lemma serves_after G h k : handled k = [] -> serves G h -> serves G (h ++ k).
Proof.
  intros Hk [Hh|(h1 & p & r & h2 & -> & H1 & H2 & HG)]; [left; by rewrite handled_app, Hh|].
  right. exists h1, p, r, (h2 ++ k). rewrite <- app_assoc, handled_app, H2. done.
Qed.
Lemma serves_mono (G G' : option ManagementPrincipal -> happened -> Prop) h :
  (forall p t, G p t -> G' p t) -> serves G h -> serves G' h.
Proof. intros HG [Hh|(h1 & p & r & h2 & -> & H1 & H2 & H)]; [by left|right]. exists h1, p, r, h2. auto. Qed.

Lemma serves_none {A} P (c : C A) G : avoids (@asked_handler) c -> does P c (fun _ h _ => serves G h).
Proof. intros H. eapply does_conseq; [by apply (does_avoids (@asked_handler) P)|done|]. intros r h s Hh. by left. Qed.

(** The limiter let the client through in this step. *)
Definition let_through (key : string) (s s' : Managing) : Prop :=
  allow (mg_monotonic s) key (mg_limiter s) = (true, mg_limiter s').

Lemma allowed_does P key : does P (allowed_now key) (fun r h _ => handled h = [] /\
  (r = Ok true -> exists s s', h = [Acted s s'] /\ let_through key s s')).
Proof.
  apply does_perform. intros s _. split; [done|]. unfold let_through.
  destruct (allow _ _ _) as [b l] eqn:E. simpl. intros [= ->]. exists s, (s <| mg_limiter := l |>).
  split; [done|exact E].
Qed.

Lemma limited_serves P key p : does P (limited key p)
  (fun _ h _ => serves (fun q t => q = p /\ exists s s', t = [Acted s s'] /\ let_through key s s') h).
Proof.
  eapply does_bind with (M := fun ok h _ => handled h = [] /\ (ok = true -> exists s s', h = [Acted s s'] /\ let_through key s s')).
  { eapply (does_conseq (fun _ => True)); [apply allowed_does|done|].
    intros [ok|e] h s [Hh H]; [split; [done|]; intros ->; by apply H|by left]. }
  intros [] h1 s1 [Hh1 H]; [|apply does_ret; intros s _; rewrite app_nil_r; by left].
  apply does_await. intros r s. right. exists h1, p, r, []. split_and!; [done..|]. by apply H.
Qed.

(** ** [authenticated] *)

(** How a principal was identified. *)
Definition identified (rq : management_request) (p : ManagementPrincipal) (h : happened) : Prop :=
  if mi_verifier mi then exists token t, bearer_token (mr_authorization rq) = Some token /\
    Asked (ask_verify token) (Ok (Some t)) ∈ h /\ authority_from_token_claims t = Ok (mp_authority p) /\
    (mp_explicit_authority p = true -> exists d, od_get "authority" (tk_claims t) = Some (JObj d) /\
       explicit_claim t = true /\ authority_of_json d = Ok (mp_authority p))
  else static_authorized (mi_token_digest mi) (mr_authorization rq) = true.

Lemma identified_after rq p h k : identified rq p h -> identified rq p (h ++ k).
Proof.
  unfold identified. destruct (mi_verifier mi); [|done]. intros (token & t & H1 & H2 & H3).
  exists token, t. split; [done|]. split; [apply elem_of_app; by left|done].
Qed.

Lemma identify_does P rq : does P (identify mi rq)
  (fun r h _ => handled h = [] /\ forall p, r = Ok (inr p) -> identified rq p h).
Proof.
  unfold identify, identified. destruct (mi_verifier mi).
  - eapply does_bind with (M := fun v h _ => handled h = [] /\ forall t, v = Some t -> exists token,
      bearer_token (mr_authorization rq) = Some token /\ Asked (ask_verify token) (Ok (Some t)) ∈ h).
    { destruct (bearer_token (mr_authorization rq)) as [token|]; [|by apply does_ret].
      apply does_await. intros [v|e] s; (split; [done|]); [|by intros ? [=]]. intros t ->. exists token.
      split; [done|]. apply list_elem_of_here. }
    intros [t|] h1 s1 [Hh1 H]; [|apply does_ret; intros s _; rewrite app_nil_r; by split].
    destruct (H t eq_refl) as (token & Ht & Hin).
    destruct (principal_of_token t) as [p|e] eqn:Ep.
    + apply does_ret. intros s _. rewrite app_nil_r. split; [done|]. intros q [= <-].
      apply principal_of_token_ok in Ep. by exists token, t.
    + destruct (_ || _); [apply does_ret|apply does_raise]; intros s _; rewrite app_nil_r; by split.
  - destruct (static_authorized _ _); [|by apply does_ret].
    eapply does_bind with (M := fun _ h _ => handled h = []).
    + eapply does_conseq; [apply (does_avoids (@asked_handler) (fun _ => True)), avoids_of_result|done|].
      intros [p|e] h s Hh; [done|]. by split.
    + intros p h1 s1 Hh1. apply does_ret. intros s _. rewrite app_nil_r. by split.
Qed.

(** What the authority of a principal allows under the policy. *)
Definition may_read (ap : AuthorityPolicy) (a : AuthorityContext) : Prop :=
  au_tenant_id a = ap_tenant_id ap /\ ap_household_id ap ∈ au_household_ids a /\
  has_role a [ROLE_VIEWER; ROLE_PLANNER; ROLE_OPERATOR; ROLE_OWNER; ROLE_SERVICE] = true /\
  operation_listed a "list" = true.
Definition may_manage (ap : AuthorityPolicy) (a : AuthorityContext) : Prop :=
  scoped a = false /\ au_tenant_id a = ap_tenant_id ap /\ ap_household_id ap ∈ au_household_ids a /\
  has_role a [ROLE_OWNER; ROLE_SERVICE] = true /\ operation_listed a "manage_connections" = true.

(** A principal that may read, or change something. *)
Definition entitled (scope : string) (p : ManagementPrincipal) : Prop :=
  if String.eqb scope "read" then
    Exists (.∈ read_scope_aliases) (mp_scopes p) /\ forall ap, mi_policy mi = Some ap -> may_read ap (mp_authority p)
  else
    mp_explicit_authority p = true /\ Exists (.∈ manage_scopes) (mp_scopes p) /\
    forall ap, mi_policy mi = Some ap -> may_manage ap (mp_authority p).

Lemma authorized_entitled p scope : principal_authorized mi p scope = true -> entitled scope p.
Proof.
  unfold principal_authorized, entitled, principal_allows, authority_operation_for_scope.
  intros [Hp Ha]%andb_true_iff. destruct (String.eqb scope "read").
  - split; [by apply scope_listed|]. intros ap E. rewrite E in Ha.
    destruct (authorize _ _ _ _ _ _ _) as [[]|] eqn:Ez; [|done]. apply authorize_ok in Ez as [_ H2 H3 _ _ _ _ _ H9 H10].
    by split_and!.
  - apply andb_true_iff in Hp as [[_ He]%andb_true_iff Hs]. split; [done|]. split; [by apply scope_listed|].
    intros ap E. rewrite E in Ha. destruct (authorize _ _ _ _ _ _ _) as [[]|] eqn:Ez; [|done].
    apply authorize_ok in Ez as [_ H2 H3 _ H5 _ _ _ H9 H10]. split_and!; [by apply H5|done..].
Qed.

(** The stretch that cleared a request of a principal. *)
Definition cleared (rq : management_request) (p : option ManagementPrincipal) (h : happened) : Prop :=
  exists q h0 s s', p = Some q /\ h = h0 ++ [Acted s s'] /\ identified rq q h0 /\
    entitled (required_management_scope (mr_method rq) (mr_path rq)) q /\
    (safe_method (mr_method rq) = true \/ same_origin rq = true) /\
    let_through (client_key "authorized:" rq) s s'.

Lemma authenticated_serves P rq : does P (authenticated mi rq) (fun _ h _ => serves (cleared rq) h).
Proof.
  eapply does_bind with (M := fun x h _ => handled h = [] /\ forall p, x = inr p -> identified rq p h).
  { eapply (does_conseq (fun _ => True)); [apply identify_does|done|].
    intros [x|e] h s [Hh H]; [split; [done|]; intros p ->; by apply H|by left]. }
  assert (forall status h1 s1, handled h1 = [] -> does (fun s' => s' = s1) (mret status : C Z)
    (fun _ h _ => serves (cleared rq) (h1 ++ h))) as Hend.
  { intros status h1 s1 Hh1. apply does_ret. intros s _. rewrite app_nil_r. by left. }
  intros [status|q] h1 s1 [Hh1 H]; [by apply Hend|].
  destruct (principal_authorized _ _ _) eqn:Ea; simpl negb; cbn iota; [|by apply Hend].
  destruct (negb (safe_method _) && negb (same_origin rq)) eqn:Eo; [by apply Hend|].
  eapply (does_conseq (fun _ => True)); [apply limited_serves|done|]. intros r h s Hs.
  apply serves_before; [done|]. eapply serves_mono; [|exact Hs]. intros p t (-> & s2 & s3 & -> & Hl).
  exists q, h1, s2, s3. split_and!; [done|done|by apply H|by apply authorized_entitled| |done].
  apply andb_false_iff in Eo as [Eo|Eo]; apply negb_false_iff in Eo; auto.
Qed.

(** Whoever answers the shell of the page, or a resident. *)
Definition open_request (rq : management_request) : bool :=
  is_public_management_shell (mr_method rq) (mr_path rq) || is_resident_consent_request (mr_method rq) (mr_path rq).
Definition admitted_to (rq : management_request) (p : option ManagementPrincipal) (h : happened) : Prop :=
  if open_request rq then p = None /\ exists s s' kind, h = [Acted s s'] /\ let_through (client_key kind rq) s s' /\
    kind ∈ ["public:"; "resident-unavailable:"]
  else cleared rq p h.

Lemma protected_serves P rq : does P (protected mi rq) (fun _ h _ => serves (admitted_to rq) h).
Proof.
  unfold protected, admitted_to, open_request.
  assert (forall kind, kind ∈ ["public:"; "resident-unavailable:"] -> does P (limited (client_key kind rq) None)
    (fun _ h _ => serves (fun p t => p = None /\ exists s s' kind, t = [Acted s s'] /\
       let_through (client_key kind rq) s s' /\ kind ∈ ["public:"; "resident-unavailable:"]) h)) as Hopen.
  { intros kind Hk. eapply (does_conseq (fun _ => True)); [apply limited_serves|done|]. intros r h s.
    apply serves_mono. intros p t (-> & s1 & s2 & -> & Hl). split; [done|]. by exists s1, s2, kind. }
  destruct (is_public_management_shell _ _); [apply Hopen; set_solver|].
  destruct (is_resident_consent_request _ _); [apply Hopen; set_solver|]. cbn [orb].
  eapply does_bind with (M := fun _ h _ => serves (cleared rq) h).
  { eapply (does_conseq (fun _ => True)); [apply authenticated_serves|done|]. by intros [status|e] h s H. }
  intros status h1 s1 H1. case_bool_decide; [|apply does_ret; intros s _; by rewrite app_nil_r].
  eapply does_bind with (M := fun _ h _ => handled h = []).
  { eapply (does_conseq (fun _ => True)); [apply allowed_does|done|].
    intros [ok|e] h s [Hh _]; [done|]. by apply serves_after. }
  intros ok h2 s2 Hh2. apply does_ret. intros s _. rewrite app_nil_r. by apply serves_after.
Qed.

(** C25: Whatever is answered and whatever others do meanwhile, the middleware of
    the management interface hands a request to a handler at most once, right
    after the limiter let its client through.  The request for the page shell
    and the resident's requests (the three POSTs on sessions, reviews and
    decisions, and the receipt of a decision) are handed on without a
    principal, for their handlers to check.  Every other request is handed on
    only with a principal that was identified (by a token the verifier
    accepted, an explicitly granted authority being named and validated in its
    claims, or by the static access) and is entitled: to read with a reading
    scope and, under a policy, a role and the operation in this tenant and
    household; to change anything with an explicitly granted authority and the
    scope to manage and, under a policy, over the whole household, as an owner
    or a service of it whose operations include the administration of
    connections; and a request that is no safe method comes from the same
    origin. *)
Theorem management_gated rq o n s h1 p r h2 :
  history_of o (protected mi rq) n s = h1 ++ Asked (ask_handler p) r :: h2 ->
  handled h1 = [] /\ handled h2 = [] /\ admitted_to rq p h1.
Proof.
  intros E. pose proof (does_sound _ _ o n s (does_conseq (fun _ => True) (fun s' => s' = s) _ _ _
    (protected_serves (fun _ => True) rq) (fun _ _ => I) (fun _ _ _ H => H))) as H. cbv beta in H. rewrite E in H.
  assert (handled (h1 ++ Asked (ask_handler p) r :: h2) = handled h1 ++ p :: handled h2) as Eh by apply handled_app.
  destruct H as [Hn|(k1 & q & r' & k2 & Ek & H1 & H2 & HG)].
  { rewrite Eh in Hn. by apply app_nil in Hn as [_ ?]. }
  apply app_eq_inv in Ek as [([|x k] & -> & Ek)|([|x k] & -> & Ek)].
  - apply (f_equal handled) in Ek. injection Ek as -> E2. rewrite app_nil_r in *. by rewrite E2 in *.
  - injection Ek as <- Ek. rewrite Ek, handled_app in H2. by apply app_nil in H2 as [_ ?].
  - apply (f_equal handled) in Ek. injection Ek as -> E2. rewrite app_nil_r in *. by rewrite E2 in *.
  - injection Ek as <- Ek. rewrite handled_app in H1. by apply app_nil in H1 as [_ ?].
Qed.
End Interface.

(** ** Examples and the witness *)

Section Examples.
#[local] Existing Instance example_canonical.

Definition sixty_seconds : f64 := SpecFloat.S754_finite false (60 * 2 ^ 47) (-47).
Definition fresh_limiter (max_requests : Z) : RateLimiter := mkRateLimiter max_requests sixty_seconds 1024 [].
Definition at_desk (max_requests : Z) : Managing := mkManaging (SpecFloat.S754_zero false) (fresh_limiter max_requests).
Definition home_interface : ManagementInterface := mkManagementInterface true (Some home_policy) None.
Definition desk_request (method path : string) : management_request :=
  mkRequest method path (Some "10.0.0.7") (Some "Bearer t1") (Some ("https", "home.local")) (Some "home.local").

(** The verifier knows the token of the owner, every handler answers 200. *)
Definition desk_oracle : oracle Managing management_call := fun n B q s =>
  match q in management_call B return result exn B * Managing with
  | ask_verify token => (Ok (if String.eqb token "t1" then Some (anna ["owner"] [] [] []) else None), s)
  | ask_handler _ => (Ok 200, s)
  end.
Definition answer (rq : management_request) (s : Managing) : result exn Z * Managing :=
  let '(r, _, s') := run desk_oracle (protected home_interface rq) 0 s in (r, s').

(** The second request of a client that may make one is turned away; so is a
    request from another origin. *)
Example one_request_a_minute :
  let rq := desk_request "POST" "/api/v1/connections" in
  let '(r, s) := answer rq (at_desk 1) in
  r = Ok 200 /\ fst (answer rq s) = Ok 429 /\
  fst (answer (mkRequest "POST" "/api/v1/connections" (Some "10.0.0.7") (Some "Bearer t1") (Some ("https", "evil"))
                 (Some "home.local")) (at_desk 1)) = Ok 403.
Proof. vm_compute. done. Qed.

(** A resident's decision reaches its handler without a principal, though
    [required_management_scope] calls it a request to manage. *)
Example resident_unauthenticated :
  let rq := mkRequest "POST" "/api/v1/resident/decisions" None None None None in
  required_management_scope (mr_method rq) (mr_path rq) = "manage" /\
  handled (history_of desk_oracle (protected home_interface rq) 0 (at_desk 1)) = [None].
Proof. vm_compute. done. Qed.

Definition owner_request : management_request := desk_request "POST" "/api/v1/connections".
Definition owner_history : list (happening Managing management_call) :=
  history_of desk_oracle (protected home_interface owner_request) 0 (at_desk 60).
Definition managing : ManagementPrincipal :=
  mkManagementPrincipal "client-1" ["mutate"; "manage"] (anna_authority [ROLE_OWNER] [] [] []) true.

Lemma management_gated_witness :
  handled (take 2 owner_history) = [] /\ handled (drop 3 owner_history) = [] /\
  admitted_to home_interface owner_request (Some managing) (take 2 owner_history).
Proof.
  assert (history_of desk_oracle (protected home_interface owner_request) 0 (at_desk 60) =
    take 2 owner_history ++ Asked (ask_handler (Some managing)) (Ok 200) :: drop 3 owner_history) as H
    by (vm_compute; reflexivity).
  exact (management_gated home_interface owner_request _ _ _ _ _ _ _ H).
Defined.
End Examples.
