(* ===== verification/Binary64.v ===== *)
(** * Exact binary64 arithmetic and binary32 (struct, float)

    Where the rounding of the Standard Library's [SpecFloat] does nothing: the
    doubles of small integers, products and quotients by one.  And the four
    bytes of a C [float], as [struct.pack] and [struct.unpack] see them. *)

From Stdlib Require Import SpecFloat.
From S2P Require Import Prelude.
From S2P Require Import Values.

(** ** Numbers of digits *)

Definition digits (m : positive) : Z := Zpos (digits2_pos m).

Lemma digits_log2 m : digits m = Z.log2 (Zpos m) + 1.
Proof.
  unfold digits. destruct m as [m|m|]; simpl; [..|done].
  all: change (digits2_pos m) with (Pos.size m); lia.
Qed.

Lemma digits_bounds m : 2 ^ (digits m - 1) <= Zpos m < 2 ^ digits m.
Proof.
  rewrite digits_log2. pose proof (Z.log2_spec (Zpos m) ltac:(lia)).
  replace (Z.log2 (Zpos m) + 1 - 1) with (Z.log2 (Zpos m)) by lia. lia.
Qed.

Lemma digits_unique m d : 0 < d -> 2 ^ (d - 1) <= Zpos m < 2 ^ d -> digits m = d.
Proof.
  intros Hd Hm. rewrite digits_log2. rewrite (Z.log2_unique (Zpos m) (d - 1)); [lia|lia|].
  by replace (Z.succ (d - 1)) with d by lia.
Qed.

Lemma digits_pos m : 0 < digits m.
Proof. done. Qed.

(** [m * 2 ^ k] *)
Definition shifted (m : positive) (k : Z) : positive := Z.to_pos (Zpos m * 2 ^ k).
Lemma shifted_Z m k : 0 <= k -> Zpos (shifted m k) = Zpos m * 2 ^ k.
Proof. intros Hk. unfold shifted. rewrite Z2Pos.id; [done|]. pose proof (Z.pow_pos_nonneg 2 k). lia. Qed.

Lemma digits_shifted m k : 0 <= k -> digits (shifted m k) = digits m + k.
Proof.
  intros Hk. pose proof (digits_pos m). apply digits_unique; [lia|]. rewrite shifted_Z by done.
  replace (digits m + k - 1) with ((digits m - 1) + k) by lia.
  rewrite !Z.pow_add_r by lia. pose proof (digits_bounds m). pose proof (Z.pow_pos_nonneg 2 k). nia.
Qed.

Lemma shifted_0 m : shifted m 0 = m.
Proof. unfold shifted. by rewrite Z.mul_1_r. Qed.
Lemma shifted_succ m k : 0 <= k -> shifted m (Z.succ k) = xO (shifted m k).
Proof.
  intros Hk. apply Pos2Z.inj. rewrite shifted_Z, Z.pow_succ_r by lia.
  rewrite (Pos2Z.inj_xO (shifted m k)), shifted_Z by lia. lia.
Qed.

(** ** Shifts *)

Lemma iter_pos_nat {A} (f : A -> A) n : forall x, @SpecFloat.iter_pos A f n x = Nat.iter (Pos.to_nat n) f x.
Proof.
  induction n as [n IH|n IH|]; intros x; [..|done].
  - cbn [SpecFloat.iter_pos]. rewrite !IH, <- Nat.iter_add, Pos2Nat.inj_xI.
    replace (S (2 * Pos.to_nat n)) with ((Pos.to_nat n + Pos.to_nat n) + 1)%nat by lia.
    by rewrite (Nat.iter_add _ 1).
  - cbn [SpecFloat.iter_pos]. rewrite !IH, <- Nat.iter_add, Pos2Nat.inj_xO.
    by replace (2 * Pos.to_nat n)%nat with (Pos.to_nat n + Pos.to_nat n)%nat by lia.
Qed.

(** The bits shifted out are zero. *)
Lemma shr_shifted m n : Nat.iter n shr_1 (Build_shr_record (Zpos (shifted m (Z.of_nat n))) false false)
  = Build_shr_record (Zpos m) false false.
Proof.
  induction n as [|n IH]; [by rewrite shifted_0|].
  rewrite Nat.iter_succ_r, Nat2Z.inj_succ, shifted_succ by lia. exact IH.
Qed.

Lemma shr_exact m e k : 0 <= k ->
  shr (Build_shr_record (Zpos (shifted m k)) false false) e k = (Build_shr_record (Zpos m) false false, e + k).
Proof.
  intros Hk. destruct k as [|p|p]; simpl; [by rewrite shifted_0, Z.add_0_r| |lia].
  rewrite iter_pos_nat. pose proof (shr_shifted m (Pos.to_nat p)) as H.
  rewrite positive_nat_Z in H. by rewrite H.
Qed.

(** A double in its usual form: 53 digits, and an exponent in range. *)
Definition normal (m : positive) (e : Z) : Prop := digits m = 53 /\ -1074 <= e <= 971.

Lemma fexp_normal m e : normal m e -> fexp prec emax (digits m + e) = e.
Proof. intros [-> He]. unfold fexp, emin, prec, emax. lia. Qed.

Lemma round_exact s m e k : normal m e -> 0 <= k ->
  binary_round_aux prec emax s (Zpos (shifted m k)) (e - k) loc_Exact = S754_finite s m e.
Proof.
  intros Hn Hk. unfold binary_round_aux, shr_fexp. simpl Zdigits2.
  change (Zpos (digits2_pos (shifted m k))) with (digits (shifted m k)). rewrite digits_shifted by done.
  replace (digits m + k + (e - k)) with (digits m + e) by lia. rewrite fexp_normal by done.
  replace (e - (e - k)) with k by lia. simpl shr_record_of_loc. rewrite shr_exact by done.
  replace (e - k + k) with e by lia. simpl. change (Zpos (digits2_pos m)) with (digits m).
  rewrite fexp_normal by done. rewrite Z.sub_diag. simpl.
  destruct Hn as [_ He]. unfold emax, prec. by rewrite (proj2 (Z.leb_le e (1024 - 53))) by lia.
Qed.

Lemma round_normal s m e : normal m e -> binary_round_aux prec emax s (Zpos m) e loc_Exact = S754_finite s m e.
Proof. intros Hn. rewrite <- (round_exact s m e 0) by done. by rewrite shifted_0, Z.sub_0_r. Qed.

(** ** Small mantissas *)

(** The double with the value [m * 2 ^ e], for an [m] of at most 53 digits. *)
Definition widened (s : bool) (m : positive) (e : Z) : f64 :=
  S754_finite s (shifted m (53 - digits m)) (e - (53 - digits m)).

Lemma widened_normal m e : digits m <= 53 -> -1074 <= e - (53 - digits m) <= 971 ->
  normal (shifted m (53 - digits m)) (e - (53 - digits m)).
Proof. intros Hd He. split; [rewrite digits_shifted; lia|done]. Qed.

Lemma iter_xO m p : Pos.iter xO m p = shifted m (Zpos p).
Proof.
  rewrite Pos2Nat.inj_iter, <- positive_nat_Z. induction (Pos.to_nat p) as [|n IH]; [by rewrite shifted_0|].
  rewrite Nat2Z.inj_succ, shifted_succ by lia. simpl. by rewrite IH.
Qed.

Lemma normalize_small (s : bool) m e szero : digits m <= 53 -> -1074 <= e - (53 - digits m) <= 971 ->
  binary_normalize prec emax (if s then Zneg m else Zpos m) e szero = widened s m e.
Proof.
  intros Hd He. pose proof (widened_normal m e Hd He) as Hn.
  assert (binary_round prec emax s m e = widened s m e) as Hr; [|by destruct s].
  unfold binary_round. change (Zpos (digits2_pos m)) with (digits m).
  assert (fexp prec emax (digits m + e) = e - (53 - digits m)) as Hf by (unfold fexp, emin, prec, emax; lia).
  rewrite Hf. unfold shl_align. replace (e - (53 - digits m) - e) with (- (53 - digits m)) by lia.
  unfold widened in *. destruct (53 - digits m) as [|p|p] eqn:Ek; [..|lia].
  - rewrite shifted_0, Z.sub_0_r in *. by apply round_normal.
  - change (- Zpos p) with (Zneg p). cbv iota. rewrite iter_xO. by apply round_normal.
Qed.

(** ** Products, quotients, sums *)

Definition f64_one : f64 := f64_of_Z 1.
Lemma one_normal : f64_one = S754_finite false (shifted 1 52) (-52).
Proof. reflexivity. Qed.

Lemma mul_one s m e : normal m e -> f64_mul (S754_finite s m e) f64_one = S754_finite s m e.
Proof.
  intros Hn. rewrite one_normal. unfold f64_mul. simpl. rewrite xorb_false_r.
  change 4503599627370496%positive with (shifted 1 52).
  replace (m * shifted 1 52)%positive with (shifted m 52) by (apply Pos2Z.inj; rewrite Pos2Z.inj_mul, !shifted_Z; lia).
  apply (round_exact s m e 52); [done|lia].
Qed.

Lemma div_eucl_pair a b : Z.div_eucl a b = (a / b, a mod b).
Proof. unfold Z.div, Z.modulo. by destruct (Z.div_eucl a b). Qed.

Lemma div_one s m e : normal m e -> -1074 < e -> f64_div (S754_finite s m e) f64_one = S754_finite s m e.
Proof.
  intros Hn He. rewrite one_normal. unfold f64_div, SFdiv, SFdiv_core_binary. rewrite xorb_false_r.
  change (Zdigits2 (Zpos m)) with (digits m). change (Zdigits2 (Zpos (shifted 1 52))) with 53.
  rewrite (proj1 Hn).
  replace (Z.min (fexp prec emax (53 + e - (53 + -52))) (e - -52)) with (e - 1)
    by (unfold fexp, emin, prec, emax; destruct Hn; lia).
  replace (e - -52 - (e - 1)) with 53 by lia. cbv iota. rewrite Z.shiftl_mul_pow2, <- (shifted_Z m 53) by lia.
  assert (Zpos (shifted m 53) = Zpos (shifted m 1) * Zpos (shifted 1 52)) as Hm.
  { rewrite !shifted_Z by lia. change 53 with (1 + 52). rewrite Z.pow_add_r by lia. lia. }
  rewrite div_eucl_pair, Hm, Z.div_mul, Z.mod_mul by lia.
  unfold new_location. change (Z.even (Zpos (shifted 1 52))) with true. cbv iota. unfold new_location_even. simpl Z.eqb.
  cbv iota. by apply (round_exact s m e 1).
Qed.

Lemma add_zero s m e : f64_add (S754_finite s m e) (S754_zero false) = S754_finite s m e.
Proof. done. Qed.
Lemma sub_zero s m e : f64_sub (S754_finite s m e) (S754_zero false) = S754_finite s m e.
Proof. done. Qed.

(** ** binary32

    The 32 bits of a C [float]: a sign, 8 bits of a biased exponent, 23 bits of
    a fraction. *)

(** [n / 2 ^ k], to the nearest integer, ties to even. *)
Definition shift_half_even (n k : Z) : Z :=
  let q := n / 2 ^ k in
  match Z.compare (2 * (n mod 2 ^ k)) (2 ^ k) with
  | Lt => q
  | Gt => q + 1
  | Eq => if Z.even q then q else q + 1
  end.

Definition sign_bit (s : bool) : Z := if s then 2 ^ 31 else 0.

(** The magnitude of a finite double in units of the last place of the [float]
    with the exponent [E]; the carry of a rounding up moves into the exponent. *)
Definition float32_magnitude (m : positive) (e : Z) : Z :=
  let E := Z.max (digits m + e - 24) (-149) in
  (E + 149) * 2 ^ 23 +
  (if e <=? E then shift_half_even (Zpos m) (E - e) else Zpos m * 2 ^ (e - E)).

(** [struct.pack(">f", x)]; [None] is its [OverflowError]. *)
Definition pack_float32 (x : f64) : option Z :=
  match x with
  | S754_zero s => Some (sign_bit s)
  | S754_infinity s => Some (sign_bit s + 255 * 2 ^ 23)
  | S754_nan => Some (255 * 2 ^ 23 + 2 ^ 22)
  | S754_finite s m e =>
      let b := float32_magnitude m e in
      if b <? 255 * 2 ^ 23 then Some (sign_bit s + b) else None
  end.

(** [struct.unpack(">f", ...)] of the bits [w] *)
Definition unpack_float32 (w : Z) : f64 :=
  let s := 2 ^ 31 <=? w in
  let ex := (w / 2 ^ 23) mod 2 ^ 8 in
  let fr := w mod 2 ^ 23 in
  let signed (n : Z) : Z := if s then - n else n in
  if ex =? 255 then (if fr =? 0 then S754_infinity s else S754_nan)
  else if ex =? 0 then binary_normalize prec emax (signed fr) (-149) s
  else binary_normalize prec emax (signed (fr + 2 ^ 23)) (ex - 150) s.

Lemma shift_half_even_exact m k : 0 <= k -> shift_half_even (Zpos (shifted m k)) k = Zpos m.
Proof.
  intros Hk. pose proof (Z.pow_pos_nonneg 2 k ltac:(lia) Hk). unfold shift_half_even.
  rewrite shifted_Z, Z.div_mul, Z.mod_mul by lia.
  by rewrite (proj2 (Z.compare_lt_iff (2 * 0) (2 ^ k))) by lia.
Qed.

Lemma shift_half_even_nonneg n k : 0 <= n -> 0 <= k -> 0 <= shift_half_even n k.
Proof.
  intros Hn Hk. pose proof (Z.pow_pos_nonneg 2 k ltac:(lia) Hk). unfold shift_half_even.
  pose proof (Z.div_pos n (2 ^ k) Hn ltac:(lia)). by case_match; [case_match|..]; lia.
Qed.

Lemma magnitude_nonneg m e : 0 <= float32_magnitude m e.
Proof.
  unfold float32_magnitude. set (E := Z.max _ _). assert (-149 <= E) by (unfold E; lia). clearbody E.
  destruct (e <=? E) eqn:He.
  - apply Z.leb_le in He. pose proof (shift_half_even_nonneg (Zpos m) (E - e)). lia.
  - apply Z.leb_gt in He. pose proof (Z.pow_pos_nonneg 2 (e - E)). nia.
Qed.

Lemma pack_bounds x w : pack_float32 x = Some w -> 0 <= w < 2 ^ 32.
Proof.
  destruct x as [s|s| |s m e]; simpl; try (intros [= <-]; destruct s; simpl; lia); [intros [= <-]; lia|].
  destruct (_ <? _) eqn:Hb; [|done]. intros [= <-]. apply Z.ltb_lt in Hb. pose proof (magnitude_nonneg m e).
  destruct s; simpl; lia.
Qed.

(** What a double widened from a [float] packs to. *)
Lemma pack_widened s m e : digits m <= 24 -> -149 <= e <= 104 -> digits m = 24 \/ e = -149 ->
  pack_float32 (widened s m e) = Some (sign_bit s + ((e + 149) * 2 ^ 23 + Zpos m)).
Proof.
  intros Hd He Hn. unfold widened, pack_float32, float32_magnitude.
  rewrite digits_shifted by lia.
  replace (Z.max (digits m + (53 - digits m) + (e - (53 - digits m)) - 24) (-149)) with e by lia.
  rewrite (proj2 (Z.leb_le _ _)) by lia. replace (e - (e - (53 - digits m))) with (53 - digits m) by lia.
  rewrite shift_half_even_exact by lia. pose proof (digits_bounds m) as Hm.
  assert (Zpos m < 2 ^ 24) by (pose proof (Z.pow_le_mono_r 2 (digits m) 24); lia).
  by rewrite (proj2 (Z.ltb_lt _ _)) by lia.
Qed.

Lemma widened_signed (s : bool) n e szero : 0 < n -> digits (Z.to_pos n) <= 53 ->
  -1074 <= e - (53 - digits (Z.to_pos n)) <= 971 ->
  binary_normalize prec emax (if s then - n else n) e szero = widened s (Z.to_pos n) e.
Proof.
  intros Hn Hd He. rewrite <- (normalize_small s _ e szero Hd He). f_equal.
  destruct n as [|n|n]; [lia| |lia]. by destruct s.
Qed.

(** The fields of the bits. *)
Lemma float32_fields w : 0 <= w < 2 ^ 32 ->
  w = sign_bit (2 ^ 31 <=? w) + ((w / 2 ^ 23) mod 2 ^ 8 * 2 ^ 23 + w mod 2 ^ 23).
Proof.
  intros Hw. pose proof (Z_div_mod_eq_full w (2 ^ 23)). pose proof (Z_div_mod_eq_full (w / 2 ^ 23) (2 ^ 8)).
  replace (w / 2 ^ 23 / 2 ^ 8) with (w / 2 ^ 31) in * by (rewrite Z.div_div by lia; done).
  assert (sign_bit (2 ^ 31 <=? w) = w / 2 ^ 31 * 2 ^ 31) as ->; [|lia].
  destruct (2 ^ 31 <=? w) eqn:E; [apply Z.leb_le in E|apply Z.leb_gt in E].
  - assert (w / 2 ^ 31 = 1) as -> by (symmetry; apply (Z.div_unique w (2 ^ 31) 1 (w - 2 ^ 31)); lia). done.
  - rewrite Z.div_small by lia. done.
Qed.

(** The finite patterns, read as a double. *)
Lemma unpack_finite w : 0 <= w < 2 ^ 32 -> (w / 2 ^ 23) mod 2 ^ 8 <> 255 ->
  (exists s, unpack_float32 w = S754_zero s /\ w = sign_bit s) \/
  exists s m e, unpack_float32 w = widened s m e /\ digits m <= 24 /\ -149 <= e <= 104 /\
    (digits m = 24 \/ e = -149) /\ w = sign_bit s + ((e + 149) * 2 ^ 23 + Zpos m).
Proof.
  intros Hw Hx. pose proof (float32_fields w Hw) as Hf. unfold unpack_float32.
  set (s := 2 ^ 31 <=? w) in *. set (ex := (w / 2 ^ 23) mod 2 ^ 8) in *. set (fr := w mod 2 ^ 23) in *.
  assert (0 <= ex < 2 ^ 8) by (apply Z.mod_pos_bound; lia). assert (0 <= fr < 2 ^ 23) by (apply Z.mod_pos_bound; lia).
  rewrite (proj2 (Z.eqb_neq _ _)) by done. destruct (ex =? 0) eqn:E; [apply Z.eqb_eq in E|apply Z.eqb_neq in E].
  - destruct (decide (fr = 0)) as [Hz|Hz].
    + left. exists s. rewrite Hz. split; [by destruct s|lia].
    + right. exists s, (Z.to_pos fr), (-149).
      assert (digits (Z.to_pos fr) <= 23) as Hd.
      { rewrite digits_log2, Z2Pos.id by lia. pose proof (Z.log2_lt_pow2 fr 23). lia. }
      pose proof (digits_pos (Z.to_pos fr)). rewrite widened_signed by lia. rewrite Z2Pos.id by lia.
      split; [done|]. split_and!; lia.
  - right. exists s, (Z.to_pos (fr + 2 ^ 23)), (ex - 150).
    assert (digits (Z.to_pos (fr + 2 ^ 23)) = 24) as Hd.
    { apply digits_unique; rewrite ?Z2Pos.id by lia; lia. }
    rewrite widened_signed by (rewrite ?Hd; lia). rewrite Z2Pos.id by lia.
    split; [done|]. rewrite Hd. split_and!; lia.
Qed.

Lemma pack_unpack w : 0 <= w < 2 ^ 32 -> (w / 2 ^ 23) mod 2 ^ 8 <> 255 -> pack_float32 (unpack_float32 w) = Some w.
Proof.
  intros Hw Hx. destruct (unpack_finite w Hw Hx) as [(s & -> & ->)|(s & m & e & -> & Hd & He & Hn & Hm)]; [done|].
  rewrite pack_widened by done. by rewrite <- Hm.
Qed.

(** Doubles of small integers. *)
Lemma f64_of_Z_small z : z <> 0 -> Z.abs z < 2 ^ 53 -> exists m, Z.abs z = Zpos m /\ digits m <= 53 /\
  f64_of_Z z = widened (z <? 0) m 0.
Proof.
  intros Hz Hb. assert (forall m, Zpos m < 2 ^ 53 -> digits m <= 53) as Hd.
  { intros m Hm. rewrite digits_log2. pose proof (Z.log2_lt_pow2 (Zpos m) 53 ltac:(lia)). lia. }
  unfold f64_of_Z. destruct z as [|m|m]; [done|..]; exists m; simpl in Hb; specialize (Hd m Hb);
    pose proof (digits_pos m); (split; [done|]); (split; [done|]).
  - apply (normalize_small false m 0 false); lia.
  - apply (normalize_small true m 0 false); lia.
Qed.
