(* ===== verification/Modbus.v ===== *)
(** * Modbus points (adapters/modbus/config.py, codec.py, mapper.py)

    A point is an address of a device and the way its registers encode a value:
    16-bit integers or a [float] over two registers, their bytes and words in
    either order, scaled and shifted.  The configuration that is read from a
    file, the codec, and the mapping of points to canonical capabilities. *)

From Stdlib Require Import SpecFloat.
From S2P Require Import Prelude.
From S2P Require Import Values.
From S2P Require Import Models.
From S2P Require Import Registry.
From S2P Require Import Coordination.
From S2P Require Import Binary64.

(** ** Configuration *)

Inductive ModbusArea := COIL | DISCRETE_INPUT | INPUT_REGISTER | HOLDING_REGISTER.
Inductive ModbusDataType := DT_BOOL | DT_UINT16 | DT_INT16 | DT_FLOAT32.
Inductive ByteOrder := BIG | LITTLE.
#[global] Instance ModbusArea_eq_dec : EqDecision ModbusArea.
Proof. solve_decision. Defined.
#[global] Instance ModbusDataType_eq_dec : EqDecision ModbusDataType.
Proof. solve_decision. Defined.
#[global] Instance ByteOrder_eq_dec : EqDecision ByteOrder.
Proof. solve_decision. Defined.

Record ModbusPoint := mkModbusPoint {
  mp_area : ModbusArea;
  mp_address : Z;
  mp_data_type : ModbusDataType;
  mp_byte_order : ByteOrder;
  mp_word_order : ByteOrder;
  mp_scale : f64;
  mp_offset : f64
}.

Definition register_count (p : ModbusPoint) : nat :=
  if bool_decide (mp_data_type p = DT_FLOAT32) then 2 else 1.

Definition bit_area (a : ModbusArea) : bool := bool_decide (a ∈ [COIL; DISCRETE_INPUT]).

Definition validate_point (p : ModbusPoint) : result exn unit :=
  raise_if (negb ((0 <=? mp_address p) && (mp_address p <=? 65535))) (ValueError "address out of range") ≫= fun _ =>
  raise_if (negb (f64_isfinite (mp_scale p)) || num_eq (NFloat (mp_scale p)) (NInt 0))
    (ValueError "Modbus scale must be finite and non-zero") ≫= fun _ =>
  raise_if (negb (f64_isfinite (mp_offset p))) (ValueError "Modbus offset must be finite") ≫= fun _ =>
  raise_if (65536 <? mp_address p + Z.of_nat (register_count p))
    (ValueError "Modbus point exceeds the 16-bit address space") ≫= fun _ =>
  if bool_decide (mp_data_type p = DT_BOOL) then
    raise_if (negb (bit_area (mp_area p))) (ValueError "boolean Modbus points require coil or discrete_input") ≫= fun _ =>
    raise_if (negb (num_eq (NFloat (mp_scale p)) (NInt 1)) || negb (num_eq (NFloat (mp_offset p)) (NInt 0)))
      (ValueError "boolean Modbus points cannot use numeric conversion")
  else raise_if (bit_area (mp_area p)) (ValueError "numeric Modbus points require a register area").

Record ModbusCapabilityBinding := mkBinding {
  mb_name : string;
  mb_state : ModbusPoint;
  mb_command : option ModbusPoint
}.

Definition energy_names : list string :=
  ["battery.soc"; "battery.power"; "battery.capacity"; "ev.soc"; "ev_charging"; "ev.capacity"; "water.flow_rate";
   "water.total_volume"; "thermal.indoor_temperature"; "thermal.hvac_power"].
Definition register_names : list string := "temperature" :: "humidity" :: energy_names.
Definition modbus_names : list string := ["power"; "brightness"; "occupancy"; "ev.connected"] ++ register_names.

Definition boolean_point (p : ModbusPoint) : bool := bool_decide (mp_data_type p = DT_BOOL) && bit_area (mp_area p).
Definition holding_number (p : ModbusPoint) : bool :=
  bool_decide (mp_area p = HOLDING_REGISTER) && negb (bool_decide (mp_data_type p = DT_BOOL)).
Definition writes_to (ok : ModbusPoint -> bool) (o : option ModbusPoint) : bool :=
  match o with Some p => ok p | None => true end.

(** [ModbusCapabilityBinding.validate_profile] *)
Definition validate_binding (b : ModbusCapabilityBinding) : result exn unit :=
  raise_if (negb (bool_decide (mb_name b ∈ modbus_names))) (ValueError "unknown capability") ≫= fun _ =>
  validate_point (mb_state b) ≫= fun _ =>
  (match mb_command b with Some p => validate_point p | None => Ok tt end) ≫= fun _ =>
  if String.eqb (mb_name b) "power" then
    raise_if (negb (boolean_point (mb_state b)))
      (ValueError "power state requires a boolean coil or discrete input") ≫= fun _ =>
    raise_if (negb (writes_to (fun p => bool_decide (mp_data_type p = DT_BOOL) && bool_decide (mp_area p = COIL))
                      (mb_command b)))
      (ValueError "writable power requires a boolean coil command")
  else if String.eqb (mb_name b) "brightness" then
    raise_if (negb (holding_number (mb_state b)))
      (ValueError "brightness state requires a numeric holding register") ≫= fun _ =>
    raise_if (negb (writes_to holding_number (mb_command b)))
      (ValueError "brightness command requires a numeric holding register")
  else if bool_decide (mb_name b ∈ register_names) then
    raise_if (negb (bool_decide (mp_area (mb_state b) ∈ [INPUT_REGISTER; HOLDING_REGISTER])))
      (ValueError "an input or holding register is required") ≫= fun _ =>
    raise_if (bool_decide (mp_data_type (mb_state b) = DT_BOOL)) (ValueError "read-only and numeric") ≫= fun _ =>
    match mb_command b with
    | None => Ok tt
    | Some p =>
        raise_if (negb (bool_decide (mb_name b ∈ ["battery.power"; "ev_charging"; "thermal.hvac_power"])))
          (ValueError "read-only and numeric") ≫= fun _ =>
        raise_if (negb (holding_number p)) (ValueError "the command requires a numeric holding register")
    end
  else
    raise_if (negb (boolean_point (mb_state b))) (ValueError "a boolean coil or discrete input is required") ≫= fun _ =>
    raise_if (opt_bool (mb_command b)) (ValueError "read-only").

Inductive ModbusSemanticType := SEM_LIGHT | SEM_SWITCH | SEM_SENSOR | SEM_ENERGY.
Definition semantic_value (t : ModbusSemanticType) : string :=
  match t with SEM_LIGHT => "light" | SEM_SWITCH => "switch" | SEM_SENSOR => "sensor" | SEM_ENERGY => "energy" end.

Record ModbusEntityConfig := mkModbusEntity {
  me_entity_id : string;
  me_name : string;
  me_area_id : option string;
  me_semantic_type : ModbusSemanticType;
  me_manufacturer : option string;
  me_model : option string;
  me_unit_id : Z;
  me_capabilities : list ModbusCapabilityBinding
}.

Definition allowed_names (t : ModbusSemanticType) : list string :=
  match t with
  | SEM_LIGHT => ["power"; "brightness"]
  | SEM_SWITCH => ["power"]
  | SEM_SENSOR => ["temperature"; "humidity"; "occupancy"]
  | SEM_ENERGY => "ev.connected" :: energy_names
  end.

(** [ModbusEntityConfig.validate_profile] *)
Definition validate_entity (e : ModbusEntityConfig) : result exn unit :=
  raise_if (negb (canonical_id_pattern (me_entity_id e)) || is_empty (me_name e) ||
            match me_area_id e with Some a => negb (canonical_id_pattern a) | None => false end ||
            negb ((1 <=? me_unit_id e) && (me_unit_id e <=? 247)) || bool_decide (me_capabilities e = []))
    (ValueError "invalid entity") ≫= fun _ =>
  result_iter validate_binding (me_capabilities e) ≫= fun _ =>
  raise_if (negb (unique (map mb_name (me_capabilities e)))) (ValueError "duplicate Modbus capability in entity") ≫= fun _ =>
  raise_if (negb (forallb (fun n => bool_decide (n ∈ allowed_names (me_semantic_type e))) (map mb_name (me_capabilities e))))
    (ValueError "entity has unsupported capabilities") ≫= fun _ =>
  raise_if (match me_semantic_type e with
            | SEM_SENSOR => existsb (fun b => opt_bool (mb_command b)) (me_capabilities e)
            | _ => false
            end) (ValueError "sensor entity cannot be writable").

Definition canonical_device_id (e : ModbusEntityConfig) : string :=
  or_else (me_area_id e) "unassigned" +:+ "." +:+ slug (me_name e).

(** A point is read once for all capabilities that share it. *)
Definition point_key (e : ModbusEntityConfig) (p : ModbusPoint) : Z * ModbusArea * Z :=
  (me_unit_id e, mp_area p, mp_address p).
Definition same_codec (p q : ModbusPoint) : bool :=
  bool_decide (mp_data_type p = mp_data_type q) && bool_decide (mp_byte_order p = mp_byte_order q) &&
  bool_decide (mp_word_order p = mp_word_order q) &&
  num_eq (NFloat (mp_scale p)) (NFloat (mp_scale q)) && num_eq (NFloat (mp_offset p)) (NFloat (mp_offset q)).

(** Every later point of a key agrees with the first one. *)
Fixpoint points_agree (seen : odict (Z * ModbusArea * Z) ModbusPoint)
    (l : list (ModbusEntityConfig * ModbusCapabilityBinding)) : bool :=
  match l with
  | [] => true
  | (e, b) :: l =>
      let k := point_key e (mb_state b) in
      match od_get k seen with
      | Some p => same_codec p (mb_state b) && points_agree seen l
      | None => points_agree (od_set k (mb_state b) seen) l
      end
  end.

Definition all_bindings (entities : list ModbusEntityConfig) : list (ModbusEntityConfig * ModbusCapabilityBinding) :=
  flat_map (fun e => map (fun b => (e, b)) (me_capabilities e)) entities.

(** [ModbusMappingDocument.validate_document] *)
Definition validate_document (entities : list ModbusEntityConfig) : result exn unit :=
  raise_if (bool_decide (entities = [])) (ValueError "no entities") ≫= fun _ =>
  result_iter validate_entity entities ≫= fun _ =>
  raise_if (negb (unique (map me_entity_id entities))) (ValueError "duplicate Modbus entity_id") ≫= fun _ =>
  raise_if (negb (unique (map canonical_device_id entities)))
    (ValueError "duplicate derived canonical Modbus identity") ≫= fun _ =>
  raise_if (negb (points_agree [] (all_bindings entities)))
    (ValueError "shared Modbus state point has conflicting codec parameters").

(** ** Codec *)

Inductive RawValue := RBool (b : bool) | RInt (z : Z).
#[global] Instance RawValue_eq_dec : EqDecision RawValue.
Proof. solve_decision. Defined.

(** The two bytes of a register, and a number from them. *)
Definition swap_bytes (order : ByteOrder) (v : Z) : Z :=
  match order with BIG => v | LITTLE => (v mod 256) * 256 + v / 256 end.

(** [_validate_registers] *)
Definition register_of (r : RawValue) : result exn Z :=
  match r with
  | RInt v => raise_if (negb ((0 <=? v) && (v <=? 65535)))
                (ValueError "Modbus register response is outside 0..65535") ≫= fun _ => Ok v
  | RBool _ => Err (ValueError "Modbus register response is outside 0..65535")
  end.

Definition decode_integer (v : Z) (signed : bool) (order : ByteOrder) : Z :=
  let v := swap_bytes order v in
  if signed && (32768 <=? v) then v - 65536 else v.
Definition encode_integer (v : Z) (order : ByteOrder) : Z :=
  swap_bytes order (v mod 65536).

Definition order_words {A} (order : ByteOrder) (l : list A) : list A :=
  match order with BIG => l | LITTLE => rev l end.
Definition decode_float32 (registers : list Z) (p : ModbusPoint) : f64 :=
  match order_words (mp_word_order p) (map (swap_bytes (mp_byte_order p)) registers) with
  | [hi; lo] => unpack_float32 (hi * 65536 + lo)
  | _ => S754_nan
  end.
Definition encode_float32 (raw : f64) (p : ModbusPoint) : result exn (list Z) :=
  match pack_float32 raw with
  | None => Err (ValueError "Modbus float32 command is out of range")
  | Some w => Ok (order_words (mp_word_order p) (map (swap_bytes (mp_byte_order p)) [w / 65536; w mod 65536]))
  end.

Definition f64_is_integer (x : f64) : bool :=
  match x with
  | S754_zero _ => true
  | S754_finite _ m e => (0 <=? e) || bool_decide (Zpos m mod 2 ^ (- e) = 0)
  | _ => false
  end.

(** [raw * scale + offset], a whole number as an [int] for the integer types. *)
Definition scaled_value (p : ModbusPoint) (raw : f64) : result exn scalar :=
  let value := f64_add (f64_mul raw (mp_scale p)) (mp_offset p) in
  raise_if (negb (f64_isfinite value)) (ValueError "Modbus conversion produced a non-finite value") ≫= fun _ =>
  Ok (SNum (if bool_decide (mp_data_type p ∈ [DT_UINT16; DT_INT16]) && f64_is_integer value
            then NInt (f64_trunc value) else NFloat value)).

Definition is_signed (t : ModbusDataType) : bool := bool_decide (t = DT_INT16).

(** [decode_point] *)
Definition decode_point (p : ModbusPoint) (values : list RawValue) : result exn scalar :=
  raise_if (negb (Nat.eqb (List.length values) (register_count p)))
    (ValueError "Modbus response has an unexpected value count") ≫= fun _ =>
  match mp_data_type p, values with
  | DT_BOOL, RBool b :: _ => Ok (SBool b)
  | DT_BOOL, _ => Err (ValueError "Modbus boolean response is not boolean")
  | t, _ =>
      registers ← result_map register_of values;
      scaled_value p
        (if bool_decide (t = DT_FLOAT32) then decode_float32 registers p
         else f64_of_Z (decode_integer (default 0 (head registers)) (is_signed t) (mp_byte_order p)))
  end.

Definition integer_range (t : ModbusDataType) : Z * Z :=
  if is_signed t then (-32768, 32767) else (0, 65535).

(** [encode_point] *)
Definition encode_point (p : ModbusPoint) (value : scalar) : result exn (list RawValue) :=
  match mp_data_type p, value with
  | DT_BOOL, SBool b => Ok [RBool b]
  | DT_BOOL, _ => Err (ValueError "Modbus boolean command requires a boolean")
  | t, SNum n =>
      numeric ← py_float n;
      raise_if (negb (f64_isfinite numeric)) (ValueError "Modbus command must be finite") ≫= fun _ =>
      let raw := f64_div (f64_sub numeric (mp_offset p)) (mp_scale p) in
      raise_if (negb (f64_isfinite raw)) (ValueError "Modbus command conversion produced a non-finite value") ≫= fun _ =>
      if bool_decide (t = DT_FLOAT32) then map RInt <$> encode_float32 raw p
      else
        raise_if (negb (f64_is_integer raw)) (ValueError "Modbus integer command conversion is not integral") ≫= fun _ =>
        let '(lo, hi) := integer_range t in
        raise_if (negb (num_le (NInt lo) (NFloat raw) && num_le (NFloat raw) (NInt hi)))
          (ValueError "Modbus integer command is out of range") ≫= fun _ =>
        Ok [RInt (encode_integer (f64_trunc raw) (mp_byte_order p))]
  | _, _ => Err (ValueError "Modbus numeric command requires a number")
  end.

(** ** Mapping to canonical capabilities (mapper.py) *)

Definition capability_unit (name : string) : option string :=
  if bool_decide (name ∈ ["brightness"; "humidity"]) then Some "%"
  else if bool_decide (name ∈ ["temperature"; "thermal.indoor_temperature"]) then Some "°C"
  else if bool_decide (name ∈ ["battery.soc"; "battery.capacity"; "ev.soc"; "ev.capacity"]) then Some "kWh"
  else if bool_decide (name ∈ ["battery.power"; "ev_charging"; "thermal.hvac_power"]) then Some "kW"
  else if String.eqb name "water.flow_rate" then Some "L/min"
  else if String.eqb name "water.total_volume" then Some "L"
  else None.
Definition capability_kind (name : string) : CapabilityKind :=
  if bool_decide (name ∈ ["power"; "occupancy"; "ev.connected"]) then BOOLEAN
  else if String.eqb name "brightness" then INTEGER else NUMBER.
Definition capability_commands (name : string) : list string :=
  if String.eqb name "power" then ["turn_on"; "turn_off"]
  else if String.eqb name "brightness" then ["set_brightness"]
  else if String.eqb name "battery.power" then ["charge_battery"; "discharge_battery"; "stop_battery"]
  else if String.eqb name "ev_charging" then ["charge_ev"; "stop_ev"]
  else if String.eqb name "thermal.hvac_power" then ["heat_thermostat"; "cool_thermostat"; "stop_thermostat"]
  else [].

(** [ModbusMapper.capability] *)
Definition modbus_capability (b : ModbusCapabilityBinding) : Capability :=
  let percent := bool_decide (mb_name b ∈ ["brightness"; "humidity"]) in
  mkCapability (mb_name b) (capability_kind (mb_name b)) (capability_unit (mb_name b)) true
    (opt_bool (mb_command b)) (if percent then Some (NInt 0) else None) (if percent then Some (NInt 100) else None) []
    (if opt_bool (mb_command b) then capability_commands (mb_name b) else []) [] default_guarantees.

(** [ModbusMapper.entity] *)
Definition modbus_entity (e : ModbusEntityConfig) (available : bool) : SourceEntity :=
  mkSourceEntity (Some (me_entity_id e)) None (Some (me_entity_id e)) None None None None None None
    (Some (or_else (me_area_id e) "unassigned")) (Some (me_name e)) (Some (semantic_value (me_semantic_type e)))
    (Some (semantic_value (me_semantic_type e))) (me_manufacturer e) (me_model e) (Some (JBool available))
    (map modbus_capability (me_capabilities e)) None None None.

Record ModbusSample := mkModbusSample {
  sa_unit_id : Z;
  sa_area : ModbusArea;
  sa_address : Z;
  sa_values : list RawValue;
  sa_observed_at : datetime
}.

Definition decoded_number (v : scalar) : result exn f64 :=
  match v with
  | SNum n => py_float n
  | _ => Err (ValueError "must decode to a number")
  end.

(** The value of [ModbusMapper.decode]. *)
Definition decode_sample (e : ModbusEntityConfig) (b : ModbusCapabilityBinding) (sample : ModbusSample) : result exn scalar :=
  let point := mb_state b in
  raise_if (negb ((sa_unit_id sample =? me_unit_id e) && bool_decide (sa_area sample = mp_area point) &&
                  (sa_address sample =? mp_address point)))
    (ValueError "Modbus sample does not match configured state point") ≫= fun _ =>
  value ← decode_point point (sa_values sample);
  raise_if (bool_decide (mb_name b ∈ ["power"; "occupancy"; "ev.connected"]) &&
            match value with SBool _ => false | _ => true end) (ValueError "must decode to boolean") ≫= fun _ =>
  (if bool_decide (mb_name b ∈ ["brightness"; "humidity"]) then
     x ← decoded_number value;
     raise_if (negb (f64_isfinite x) || negb (num_le (NInt 0) (NFloat x) && num_le (NFloat x) (NInt 100)))
       (ValueError "must be between 0 and 100")
   else Ok tt) ≫= fun _ =>
  value ← (if String.eqb (mb_name b) "brightness" then
             x ← decoded_number value;
             raise_if (negb (f64_is_integer x)) (ValueError "brightness must decode to an integer percentage") ≫= fun _ =>
             Ok (SNum (NInt (f64_trunc x)))
           else Ok value);
  (if bool_decide (mb_name b ∈ energy_names) then
     x ← decoded_number value; raise_if (negb (f64_isfinite x)) (ValueError "must be finite")
   else Ok tt) ≫= fun _ =>
  Ok value.
