(* ===== verification/ModbusAdapter.v ===== *)
(** * The Modbus adapter (adapters/modbus/adapter.py)

    Commands are translated into writes of registers, readings polled from the
    points.  The transport is asked by requests ([modbus_call]); what the
    answers are is up to it, and while it is asked others may act. *)

From Stdlib Require Import SpecFloat.
From S2P Require Import Prelude.
From S2P Require Import Values.
From S2P Require Import Models.
From S2P Require Import Registry.
From S2P Require Import Coordination.
From S2P Require Import Ports.
From S2P Require Import Coroutines.
From S2P Require Import Binary64.
From S2P Require Import Modbus.

(** ** Commands *)

Definition binding_named (e : ModbusEntityConfig) (name : string) : option ModbusCapabilityBinding :=
  find_first (fun b => String.eqb (mb_name b) name) (rev (me_capabilities e)).
Definition command_point (e : ModbusEntityConfig) (name : string) : option ModbusPoint :=
  binding_named e name ≫= mb_command.

(** A positive finite number in an admitted unit; [None] refuses it. *)
Definition positive_value (c : Command) : result exn (option f64) :=
  match cmd_value c with
  | Some (SNum n) =>
      x ← py_float n;
      Ok (if f64_isfinite x && num_gt n (NInt 0) && bool_decide (cmd_unit c ∈ [None; Some "kW"]) then Some x else None)
  | _ => Ok None
  end.
Definition percent_value (c : Command) : result exn (option Z) :=
  if negb (bool_decide (cmd_unit c ∈ [None; Some "%"])) then Ok None
  else
    match cmd_value c with
    | Some (SNum n) =>
        x ← py_float n;
        Ok (if f64_isfinite x && num_le (NInt 0) n && num_le n (NInt 100) && f64_is_integer x
            then Some (match n with NInt z => z | NFloat f => f64_trunc f end) else None)
    | _ => Ok None
    end.
Definition without_value (c : Command) : bool := negb (opt_bool (cmd_value c)) && negb (opt_bool (cmd_unit c)).

Definition encoded_write (p : ModbusPoint) (v : scalar) : result exn (option (ModbusPoint * list RawValue)) :=
  values ← encode_point p v; Ok (Some (p, values)).

(** The commands of a power that flows either way. *)
Definition translate_power (p : ModbusPoint) (c : Command) (stop reverse : string) :
    result exn (option (ModbusPoint * list RawValue)) :=
  if String.eqb (cmd_command c) stop then
    if without_value c then encoded_write p (SNum (NFloat (S754_zero false))) else Ok None
  else
    v ← positive_value c;
    match v with
    | None => Ok None
    | Some x => encoded_write p (SNum (NFloat (if String.eqb (cmd_command c) reverse then SFopp x else x)))
    end.

(** [_translate_command] *)
Definition translate_command (e : ModbusEntityConfig) (c : Command)
    : result exn (option (ModbusPoint * list RawValue)) :=
  let name := cmd_command c in
  if bool_decide (name ∈ ["turn_on"; "turn_off"]) then
    match command_point e "power" with
    | Some p => if without_value c then encoded_write p (SBool (String.eqb name "turn_on")) else Ok None
    | None => Ok None
    end
  else if String.eqb name "set_brightness" then
    match command_point e "brightness" with
    | Some p => v ← percent_value c; match v with Some z => encoded_write p (SNum (NInt z)) | None => Ok None end
    | None => Ok None
    end
  else if bool_decide (name ∈ ["charge_battery"; "discharge_battery"; "stop_battery"]) then
    match command_point e "battery.power" with
    | Some p => translate_power p c "stop_battery" "discharge_battery" | None => Ok None
    end
  else if bool_decide (name ∈ ["charge_ev"; "stop_ev"]) then
    match command_point e "ev_charging" with Some p => translate_power p c "stop_ev" "" | None => Ok None end
  else if bool_decide (name ∈ ["heat_thermostat"; "cool_thermostat"; "stop_thermostat"]) then
    match command_point e "thermal.hvac_power" with
    | Some p => translate_power p c "stop_thermostat" "cool_thermostat" | None => Ok None
    end
  else Ok None.

(** ** The adapter *)

Inductive modbus_call : Type -> Type :=
  | ask_connect : modbus_call unit
  | ask_disconnect : modbus_call unit
  | ask_health : modbus_call bool
  | ask_read (unit_id : Z) (area : ModbusArea) (address : Z) (count : nat) : modbus_call (option ModbusSample)
  | ask_write (unit_id : Z) (area : ModbusArea) (address : Z) (values : list RawValue) : modbus_call unit.

Record point_state := mkPointState {
  pt_value : scalar;
  pt_unit : option string;
  pt_observed_at : datetime;
  pt_received_at : datetime;
  pt_available : bool
}.
#[global] Instance point_state_eta : Eta point_state := fun r =>
  mkPointState (pt_value r) (pt_unit r) (pt_observed_at r) (pt_received_at r) (pt_available r).

Record ModbusAdapter := mkModbusAdapter {
  ma_adapter_id : string;
  ma_mapping : list ModbusEntityConfig
}.
Record ModbusState := mkModbusState {
  ms_now : datetime;
  ms_connected : bool;
  ms_available : bool;
  ms_states : odict (string * string) point_state;
  ms_executed_keys : list string
}.
#[global] Instance ModbusState_eta : Eta ModbusState := fun r =>
  mkModbusState (ms_now r) (ms_connected r) (ms_available r) (ms_states r) (ms_executed_keys r).

Inductive modbus_event :=
  | AvailabilityChanged (available : bool)
  | Diagnostic (entity_id : string)
  | StatesChanged (entity_ids capabilities : list string).

Section Adapter.
Context (a : ModbusAdapter).
Abbreviation C := (coro ModbusState modbus_call).

Definition require_connected : C unit :=
  s ← look; if ms_connected s then mret tt else Raise (OSError "Modbus adapter is not connected").
Definition set_available (b : bool) : C unit := alter_st (fun s => s <| ms_available := b |>).

(** [except (ConnectionError, OSError, TimeoutError)] *)
Definition transport_failed (e : exn) : bool := match e with OSError _ => true | _ => false end.
Definition on_os_error {A} (h : C A) (c : C A) : C A :=
  coro_catch (fun e => if transport_failed e then h else Raise e) c.

Definition modbus_connect : C unit :=
  on_os_error (alter_st (fun s => s <| ms_connected := false |> <| ms_available := false |>) ≫= fun _ =>
               Raise (OSError "Modbus connection failed"))
    (await ask_connect ≫= fun _ =>
     alter_st (fun s => s <| ms_connected := true |>) ≫= fun _ =>
     health ← await ask_health; set_available health).
Definition modbus_disconnect : C unit :=
  await ask_disconnect ≫= fun _ =>
  alter_st (fun s => s <| ms_connected := false |> <| ms_available := false |>).

Definition modbus_source_ref (e : ModbusEntityConfig) : SourceRef :=
  mkSourceRef (ma_adapter_id a) (me_entity_id e) None (Some ("modbus_unit:" +:+ pretty (me_unit_id e))) None.
Definition nack (m : string) : AdapterExecutionAck := mkAck false None (Some m).

(** [execute_source] *)
Definition execute_source (c : Command) (source_entity_id : string) : C AdapterExecutionAck :=
  require_connected ≫= fun _ =>
  match find_first (fun e => String.eqb (me_entity_id e) source_entity_id) (ma_mapping a) with
  | None => mret (nack "Unknown Modbus entity")
  | Some e =>
      s ← look;
      if bool_decide (cmd_idempotency_key c ∈ ms_executed_keys s) then mret (nack "Duplicate idempotency key")
      else
        health ← await ask_health;
        set_available health ≫= fun _ =>
        if negb health then mret (nack "Modbus device is unavailable")
        else
          translated ← of_result (translate_command e c);
          match translated with
          | None => mret (nack "Unsupported Modbus command")
          | Some (p, values) =>
              on_os_error (set_available false ≫= fun _ => Raise (OSError "Modbus command failed"))
                (await (ask_write (me_unit_id e) (mp_area p) (mp_address p) values)) ≫= fun _ =>
              alter_st (fun s => s <| ms_executed_keys := cmd_idempotency_key c :: ms_executed_keys s |>) ≫= fun _ =>
              mret (mkAck true (Some (modbus_source_ref e)) (Some "Modbus command accepted"))
          end
  end.

(** [execute]; a later entity of the same canonical id hides an earlier one. *)
Definition execute_command_on (c : Command) : C AdapterExecutionAck :=
  require_connected ≫= fun _ =>
  match find_first (fun e => String.eqb (canonical_device_id e) (cmd_device_id c)) (rev (ma_mapping a)) with
  | None => mret (nack "Unknown Modbus device")
  | Some e => execute_source c (me_entity_id e)
  end.

(** ** Polling *)

(** [_bindings_by_point], in the order of the configuration. *)
Definition bindings_by_point : odict (Z * ModbusArea * Z) (list (ModbusEntityConfig * ModbusCapabilityBinding)) :=
  fold_left (fun d '(e, b) =>
    let k := point_key e (mb_state b) in od_set k (default [] (od_get k d) ++ [(e, b)]) d)
    (all_bindings (ma_mapping a)) [].

Record polled := mkPolled {
  po_events : list modbus_event;
  po_entities : list string;
  po_capabilities : list string
}.

Definition state_key (x : ModbusEntityConfig * ModbusCapabilityBinding) : string * string :=
  (me_entity_id (fst x), mb_name (snd x)).

(** One capability of a point that was read; the names are those that
    changed. *)
Definition decode_binding (sample : ModbusSample) (x : ModbusEntityConfig * ModbusCapabilityBinding)
    (changed : list (string * string)) : C (list (string * string)) :=
  value ← of_result (decode_sample (fst x) (snd x) sample);
  s ← look;
  let previous := od_get (state_key x) (ms_states s) in
  alter_st (fun s => s <| ms_states := od_set (state_key x)
    (mkPointState value (capability_unit (mb_name (snd x))) (sa_observed_at sample) (ms_now s) true) (ms_states s) |>)
    ≫= fun _ =>
  mret (if match previous with Some p => negb (scalar_eqb (pt_value p) value) || negb (pt_available p) | None => true end
        then changed ++ [state_key x] else changed).

Fixpoint decode_bindings (sample : ModbusSample) (l : list (ModbusEntityConfig * ModbusCapabilityBinding))
    (changed : list (string * string)) : coro ModbusState modbus_call (list (string * string) * option exn) :=
  match l with
  | [] => mret (changed, None)
  | x :: l =>
      r ← coro_catch (fun e => Ret (inr e)) (c ← decode_binding sample x changed; mret (inl c));
      match r with
      | inl changed => decode_bindings sample l changed
      | inr e => mret (changed, Some e)
      end
  end.

(** What [_poll] catches. *)
Definition poll_error (e : exn) : bool := match e with OSError _ | ValueError _ => true | _ => false end.

Definition unavailable_points (l : list (ModbusEntityConfig * ModbusCapabilityBinding)) : C unit :=
  alter_st (fun s => s <| ms_states :=
    fold_left (fun d x => match od_get (state_key x) d with
                          | Some p => od_set (state_key x) (p <| pt_available := false |>) d
                          | None => d
                          end) l (ms_states s) |>).

(** One point; [wanted] are the entities asked for. *)
Definition poll_point (wanted : option (list string))
    (kb : (Z * ModbusArea * Z) * list (ModbusEntityConfig * ModbusCapabilityBinding))
    (events : list modbus_event) (changed : list (string * string))
    : C (list modbus_event * list (string * string)) :=
  let '((unit_id, area, address), bindings) := kb in
  let selected := List.filter (fun x => match wanted with
                                        | Some ids => bool_decide (me_entity_id (fst x) ∈ ids)
                                        | None => true
                                        end) bindings in
  match selected with
  | [] => mret (events, changed)
  | x :: _ =>
      sample ← coro_catch (fun e => Ret (inr e))
                 (o ← await (ask_read unit_id area address (register_count (mb_state (snd x)))); mret (inl o));
      '(changed, error) ←
        (match sample with
         | inl (Some sample) => decode_bindings sample selected changed
         | inl None => mret (changed, Some (ValueError "Modbus point returned no value"))
         | inr e => mret (changed, Some e)
         end);
      match error with
      | None => mret (events, changed)
      | Some e =>
          if poll_error e then
            unavailable_points selected ≫= fun _ => mret (events ++ [Diagnostic (me_entity_id (fst x))], changed)
          else Raise e
      end
  end.

Fixpoint poll_points (wanted : option (list string))
    (l : list ((Z * ModbusArea * Z) * list (ModbusEntityConfig * ModbusCapabilityBinding)))
    (events : list modbus_event) (changed : list (string * string))
    : coro ModbusState modbus_call (list modbus_event * list (string * string)) :=
  match l with
  | [] => mret (events, changed)
  | kb :: l => '(events, changed) ← poll_point wanted kb events changed; poll_points wanted l events changed
  end.

Definition sorted_names (l : list string) : list string := isort String.leb (dedup l).

(** [_poll] *)
Definition poll_all (wanted : option (list string)) : C (list modbus_event) :=
  available ← await ask_health;
  s ← look;
  (if bool_decide (available = ms_available s) then mret tt else set_available available) ≫= fun _ =>
  let events := if bool_decide (available = ms_available s) then [] else [AvailabilityChanged available] in
  if negb (available : bool) then mret events
  else
    '(events, changed) ← poll_points wanted bindings_by_point events [];
    mret (if bool_decide (changed = []) then events
          else events ++ [StatesChanged (sorted_names (map fst changed)) (sorted_names (map snd changed))]).

(** ** Readings *)

Definition key_leb (x y : (string * string) * point_state) : bool :=
  let '((a1, b1), _) := x in
  let '((a2, b2), _) := y in
  if String.eqb a1 a2 then String.leb b1 b2 else String.leb a1 a2.

Definition modbus_snapshot (s : ModbusState) (x : (string * string) * point_state) : list StateSnapshot :=
  let '((entity_id, capability), p) := x in
  match find_first (fun e => String.eqb (me_entity_id e) entity_id) (ma_mapping a) with
  | None => []
  | Some e =>
      let live := pt_available p && ms_available s in
      [mkStateSnapshot default_authority (canonical_device_id e) capability
         (if live then Some (pt_value p) else None) (pt_unit p) (pt_observed_at p) (pt_received_at p)
         (if live then CURRENT else UNAVAILABLE) (modbus_source_ref e) None]
  end.

(** [read_state], of the entities the references name. *)
Definition modbus_read_state (wanted : list string) : C (list StateSnapshot) :=
  require_connected ≫= fun _ =>
  (if bool_decide (wanted = []) then mret [] else poll_all (Some wanted)) ≫= fun _ =>
  s ← look;
  mret (flat_map (modbus_snapshot s)
          (isort key_leb (List.filter (fun x => bool_decide (fst (fst x) ∈ wanted)) (ms_states s)))).

(** [discover]: the entities of the snapshot. *)
Definition modbus_discover : C (list SourceEntity) :=
  require_connected ≫= fun _ =>
  poll_all None ≫= fun _ =>
  s ← look;
  mret (map (fun e => modbus_entity e (ms_available s)) (ma_mapping a)).

Definition modbus_health : C bool :=
  s ← look; if ms_connected s then await ask_health else mret false.
End Adapter.
