(* ===== verification/ModbusSafety.v ===== *)
(** * Registers and values agree (adapters/modbus/)

    What is read from registers is written back unchanged, what is written fits
    the registers of the point, and a command is one write of its own point. *)

From Stdlib Require Import SpecFloat.
From S2P Require Import Prelude.
From S2P Require Import Values.
From S2P Require Import Models.
From S2P Require Import Registry.
From S2P Require Import Coordination.
From S2P Require Import ApprovalStore.
From S2P Require Import Ports.
From S2P Require Import Coroutines.
From S2P Require Import Binary64.
From S2P Require Import Modbus.
From S2P Require Import ModbusAdapter.

(** ** Registers *)

Definition in_register (v : Z) : Prop := 0 <= v < 65536.

Lemma swap_bytes_bounds order v : in_register v -> in_register (swap_bytes order v).
Proof.
  unfold in_register. destruct order; simpl; [done|]. intros Hv.
  pose proof (Z.mod_pos_bound v 256). pose proof (Z.div_lt_upper_bound v 256 256). pose proof (Z.div_pos v 256). lia.
Qed.

Lemma swap_bytes_twice order v : in_register v -> swap_bytes order (swap_bytes order v) = v.
Proof.
  unfold in_register. destruct order; simpl; [done|]. intros Hv.
  pose proof (Z.div_lt_upper_bound v 256 256). pose proof (Z.div_pos v 256).
  assert ((v mod 256 * 256 + v / 256) mod 256 = v / 256) as -> by (rewrite Z.add_comm, Z.mod_add, Z.mod_small; lia).
  assert ((v mod 256 * 256 + v / 256) / 256 = v mod 256) as -> by (rewrite Z.div_add_l, Z.div_small; lia).
  pose proof (Z_div_mod_eq_full v 256). lia.
Qed.

Lemma map_swap_twice order l : Forall in_register l -> map (swap_bytes order) (map (swap_bytes order) l) = l.
Proof. induction 1 as [|v l Hv _ IH]; simpl; [done|]. by rewrite swap_bytes_twice, IH. Qed.

Lemma registers_of values l : result_map register_of values = Ok l -> values = map RInt l /\ Forall in_register l.
Proof.
  rewrite result_map_ok. induction 1 as [|r v values l Hr _ [-> IH]]; [done|].
  destruct r as [|z]; [done|]. simpl in Hr. apply result_bind_ok in Hr as (u & Hb%raise_if_ok & [= <-]).
  apply negb_false_iff, andb_true_iff in Hb as [H1%Z.leb_le H2%Z.leb_le].
  split; [done|]. constructor; [unfold in_register; lia|done].
Qed.

Lemma registers_back l : Forall in_register l -> result_map register_of (map RInt l) = Ok l.
Proof.
  intros H. apply result_map_ok, Forall2_fmap_l, Forall_Forall2_diag. eapply Forall_impl; [exact H|].
  intros v [H1 H2]. simpl. by rewrite (proj2 (Z.leb_le 0 v)), (proj2 (Z.leb_le v 65535)) by lia.
Qed.

(** ** 16-bit integers *)

Definition in_range (t : ModbusDataType) (z : Z) : Prop := fst (integer_range t) <= z <= snd (integer_range t).

Lemma decode_integer_range t order v : in_register v -> in_range t (decode_integer v (is_signed t) order).
Proof.
  intros Hv. apply (swap_bytes_bounds order) in Hv. unfold in_range, integer_range, decode_integer, in_register in *.
  destruct (is_signed t); simpl; [|lia]. destruct (Z.leb_spec 32768 (swap_bytes order v)); lia.
Qed.

Lemma encode_decode_integer t order v : in_register v ->
  encode_integer (decode_integer v (is_signed t) order) order = v.
Proof.
  intros Hv. pose proof (swap_bytes_bounds order v Hv) as Hs. unfold encode_integer, decode_integer.
  transitivity (swap_bytes order (swap_bytes order v)); [f_equal|by apply swap_bytes_twice]. unfold in_register in Hs.
  destruct (is_signed t && (32768 <=? swap_bytes order v)); [|by rewrite Z.mod_small by lia].
  rewrite <- (Z.mod_add _ 1), Z.mod_small by lia. lia.
Qed.

Lemma decode_encode_integer t order z : in_range t z ->
  decode_integer (encode_integer z order) (is_signed t) order = z.
Proof.
  unfold in_range, integer_range, decode_integer, encode_integer. intros Hz.
  assert (in_register (z mod 65536)) by (unfold in_register; apply Z.mod_pos_bound; lia).
  rewrite swap_bytes_twice by done. destruct (is_signed t); simpl in *; [|by rewrite Z.mod_small by lia].
  destruct (decide (0 <= z)).
  - rewrite Z.mod_small by lia. by rewrite (proj2 (Z.leb_gt 32768 z)) by lia.
  - rewrite <- (Z.mod_add z 1), Z.mod_small by lia. rewrite (proj2 (Z.leb_le 32768 _)) by lia. lia.
Qed.

Lemma encode_integer_register z order : in_register (encode_integer z order).
Proof. apply swap_bytes_bounds. unfold in_register. apply Z.mod_pos_bound. lia. Qed.

(** ** The default conversion: scale 1, offset 0 *)

Definition plain_point (p : ModbusPoint) : Prop := mp_scale p = f64_one /\ mp_offset p = S754_zero false.

(** A double that the default conversion leaves alone, in both directions. *)
Record kept (x : f64) : Prop := {
  ke_finite : f64_isfinite x = true;
  ke_decoded : f64_add (f64_mul x f64_one) (S754_zero false) = x;
  ke_encoded : f64_div (f64_sub x (S754_zero false)) f64_one = x
}.

Lemma normal_kept s m e : normal m e -> -1074 < e -> kept (S754_finite s m e).
Proof. intros Hn He. split; [done|by rewrite mul_one|by rewrite sub_zero, div_one]. Qed.

Lemma widened_kept s m e : digits m <= 53 -> -1074 < e - (53 - digits m) <= 971 -> kept (widened s m e).
Proof. intros Hd He. apply normal_kept; [apply widened_normal; lia|lia]. Qed.

Lemma small_kept z : Z.abs z < 2 ^ 53 -> kept (f64_of_Z z).
Proof.
  intros Hz. destruct (decide (z = 0)) as [->|Hne]; [by split|].
  destruct (f64_of_Z_small z Hne Hz) as (m & _ & Hd & ->). pose proof (digits_pos m). apply widened_kept; lia.
Qed.

(** The value of [f64_of_Z z] is [z]. *)
Record whole (x : f64) (z : Z) : Prop := {
  wh_integer : f64_is_integer x = true;
  wh_trunc : f64_trunc x = z;
  wh_above : forall a, num_le (NInt a) (NFloat x) = (a <=? z);
  wh_below : forall a, num_le (NFloat x) (NInt a) = (z <=? a)
}.

Lemma num_le_compare a b z1 z2 : num_compare a b = Some (Z.compare z1 z2) -> num_le a b = (z1 <=? z2).
Proof. unfold num_le, Z.leb. intros ->. by destruct (z1 ?= z2). Qed.

Lemma dyadic_whole_l z k a : 0 <= k -> dyadic_compare a 0 (z * 2 ^ k) (- k) = Z.compare a z.
Proof.
  intros Hk. unfold dyadic_compare. rewrite Z.min_r by lia. replace (0 - - k) with k by lia.
  rewrite Z.sub_diag, Z.mul_1_r. symmetry. apply Zmult_compare_compat_r.
  pose proof (Z.pow_pos_nonneg 2 k). lia.
Qed.
Lemma dyadic_whole_r z k a : 0 <= k -> dyadic_compare (z * 2 ^ k) (- k) a 0 = Z.compare z a.
Proof.
  intros Hk. unfold dyadic_compare. rewrite Z.min_l by lia. replace (0 - - k) with k by lia.
  rewrite Z.sub_diag, Z.mul_1_r. symmetry. apply Zmult_compare_compat_r.
  pose proof (Z.pow_pos_nonneg 2 k). lia.
Qed.

Lemma ext_widened s m : digits m <= 53 ->
  ext_of (NFloat (widened s m 0)) = EDyadic ((if s then Zneg m else Zpos m) * 2 ^ (53 - digits m)) (- (53 - digits m)).
Proof.
  intros Hd. unfold widened, ext_of. rewrite Z.sub_0_l. f_equal. destruct s.
  - rewrite <- Pos2Z.opp_pos, shifted_Z by lia. rewrite <- Pos2Z.opp_pos. lia.
  - by rewrite shifted_Z by lia.
Qed.

Lemma small_whole z : Z.abs z < 2 ^ 53 -> whole (f64_of_Z z) z.
Proof.
  intros Hz. destruct (decide (z = 0)) as [->|Hne].
  { split; try done; intros b; apply num_le_compare; by rewrite <- ?(dyadic_whole_l 0 0), <- ?(dyadic_whole_r 0 0). }
  destruct (f64_of_Z_small z Hne Hz) as (m & Hm & Hd & ->). pose proof (ext_widened (z <? 0) m Hd) as Hx.
  assert ((if z <? 0 then Zneg m else Zpos m) = z) as Hs by (destruct (Z.ltb_spec z 0); lia).
  rewrite Hs in Hx. set (k := 53 - digits m) in *. assert (0 <= k) as Hk by lia.
  split; [| |intros b; apply num_le_compare; unfold num_compare; rewrite Hx; simpl; f_equal..].
  - unfold widened, f64_is_integer. fold k. rewrite shifted_Z by done. replace (- (0 - k)) with k by lia.
    rewrite Z.mod_mul by (pose proof (Z.pow_pos_nonneg 2 k); lia). apply orb_true_r.
  - unfold widened, f64_trunc. fold k. assert ((if z <? 0 then Zneg (shifted m k) else Zpos (shifted m k)) = z * 2 ^ k) as ->.
    { rewrite <- Hs at 2. destruct (z <? 0); [rewrite <- !Pos2Z.opp_pos|]; rewrite shifted_Z by done; lia. }
    replace (- (0 - k)) with k by lia. destruct (Z.leb_spec 0 (0 - k)).
    + assert (k = 0) as -> by lia. simpl. lia.
    + apply Z.quot_mul. pose proof (Z.pow_pos_nonneg 2 k). lia.
  - by apply dyadic_whole_l.
  - by apply dyadic_whole_r.
Qed.

Lemma in_range_small t z : in_range t z -> Z.abs z < 2 ^ 53.
Proof. unfold in_range, integer_range. destruct (is_signed t); simpl; lia. Qed.

Lemma scaled_plain p x : plain_point p -> kept x ->
  scaled_value p x = Ok (SNum (if bool_decide (mp_data_type p ∈ [DT_UINT16; DT_INT16]) && f64_is_integer x
                               then NInt (f64_trunc x) else NFloat x)).
Proof. intros [Hs Ho] [Hf Hd _]. unfold scaled_value. rewrite Hs, Ho, Hd, Hf. done. Qed.

(** Encoding a number: the raw double, for the default conversion. *)
Lemma encode_plain_int p n z : plain_point p -> bool_decide (mp_data_type p ∈ [DT_UINT16; DT_INT16]) = true ->
  to_float n = Some (f64_of_Z z) -> in_range (mp_data_type p) z ->
  encode_point p (SNum n) = Ok [RInt (encode_integer z (mp_byte_order p))].
Proof.
  intros [Hs Ho] Ht Hn Hz. pose proof (small_kept z (in_range_small _ _ Hz)) as [Hf _ He].
  pose proof (small_whole z (in_range_small _ _ Hz)) as [Hi Htr Ha Hb].
  unfold in_range in Hz. unfold encode_point, py_float. rewrite Hn. simpl. rewrite Hf, Hs, Ho, He, Hf. simpl.
  destruct (mp_data_type p); try done; simpl; rewrite Hi, Htr, Ha, Hb; simpl in *;
    rewrite !(proj2 (Z.leb_le _ _)) by lia; done.
Qed.

Lemma int_roundtrip p values v : plain_point p -> bool_decide (mp_data_type p ∈ [DT_UINT16; DT_INT16]) = true ->
  decode_point p values = Ok v -> encode_point p v = Ok values.
Proof.
  intros Hp Ht H. unfold decode_point in H. apply result_bind_ok in H as (u & Hc%raise_if_ok & H).
  apply negb_false_iff, Nat.eqb_eq in Hc.
  assert (exists registers, result_map register_of values = Ok registers /\
    scaled_value p (f64_of_Z (decode_integer (default 0 (head registers)) (is_signed (mp_data_type p)) (mp_byte_order p))) = Ok v)
    as (registers & Hr & Hv).
  { destruct (mp_data_type p); try done; apply result_bind_ok in H as (l & H1 & H2); by exists l. }
  apply registers_of in Hr as [-> Hr]. rewrite length_map in Hc. unfold register_count in Hc.
  assert (bool_decide (mp_data_type p = DT_FLOAT32) = false) as Hf by by destruct (mp_data_type p).
  rewrite Hf in Hc. destruct registers as [|r [|]]; try done. apply Forall_cons in Hr as [Hr _]. simpl in Hv.
  set (z := decode_integer r (is_signed (mp_data_type p)) (mp_byte_order p)) in *.
  assert (in_range (mp_data_type p) z) as Hz by by apply decode_integer_range.
  pose proof (small_whole z (in_range_small _ _ Hz)) as [Hi Htr _ _].
  rewrite scaled_plain in Hv by (try apply small_kept; try eapply in_range_small; eassumption).
  rewrite Ht, Hi, Htr in Hv. simpl in Hv. injection Hv as <-.
  rewrite (encode_plain_int p (NInt z) z Hp Ht); [|simpl; by rewrite (ke_finite _ (small_kept z (in_range_small _ _ Hz)))|done].
  unfold z. by rewrite encode_decode_integer.
Qed.

(** ** 32-bit floats *)

Lemma order_words_twice {A} order (l : list A) : order_words order (order_words order l) = l.
Proof. destruct order; simpl; [done|apply rev_involutive]. Qed.

(** The bits of two registers. *)
Lemma float32_bits p r1 r2 : in_register r1 -> in_register r2 -> exists w, 0 <= w < 2 ^ 32 /\
  decode_float32 [r1; r2] p = unpack_float32 w /\
  order_words (mp_word_order p) (map (swap_bytes (mp_byte_order p)) [w / 65536; w mod 65536]) = [r1; r2].
Proof.
  intros H1 H2. pose proof (swap_bytes_bounds (mp_byte_order p) _ H1) as B1.
  pose proof (swap_bytes_bounds (mp_byte_order p) _ H2) as B2. unfold in_register in *. unfold decode_float32.
  assert (forall a b, 0 <= a < 65536 -> 0 <= b < 65536 -> (a * 65536 + b) / 65536 = a /\ (a * 65536 + b) mod 65536 = b) as Hw.
  { intros a b Ha Hb. split; [rewrite Z.div_add_l, Z.div_small; lia|rewrite Z.add_comm, Z.mod_add, Z.mod_small; lia]. }
  destruct (mp_word_order p); simpl.
  - exists (swap_bytes (mp_byte_order p) r1 * 65536 + swap_bytes (mp_byte_order p) r2).
    destruct (Hw _ _ B1 B2) as [-> ->]. rewrite !swap_bytes_twice by done. split; [lia|done].
  - exists (swap_bytes (mp_byte_order p) r2 * 65536 + swap_bytes (mp_byte_order p) r1).
    destruct (Hw _ _ B2 B1) as [-> ->]. rewrite !swap_bytes_twice by done. split; [lia|done].
Qed.

Lemma unpack_special w : (w / 2 ^ 23) mod 2 ^ 8 = 255 -> f64_isfinite (unpack_float32 w) = false.
Proof. unfold unpack_float32. intros ->. simpl. by destruct (_ =? 0). Qed.

Lemma nonfinite_scaled p x : plain_point p -> f64_isfinite x = false -> is_ok (scaled_value p x) = false.
Proof. intros [Hs Ho]. unfold scaled_value. rewrite Hs, Ho. by destruct x as [|[]| |]. Qed.

Lemma encode_plain_float p x w : plain_point p -> mp_data_type p = DT_FLOAT32 -> kept x -> pack_float32 x = Some w ->
  encode_point p (SNum (NFloat x)) =
    Ok (map RInt (order_words (mp_word_order p) (map (swap_bytes (mp_byte_order p)) [w / 65536; w mod 65536]))).
Proof.
  intros [Hs Ho] Ht [Hf _ He] Hw. unfold encode_point, py_float. rewrite Ht. simpl. rewrite Hf, Hs, Ho, He, Hf. simpl.
  unfold encode_float32. by rewrite Hw.
Qed.

Lemma float_roundtrip p r1 r2 v : plain_point p -> mp_data_type p = DT_FLOAT32 -> in_register r1 -> in_register r2 ->
  decode_float32 [r1; r2] p <> S754_zero true -> scaled_value p (decode_float32 [r1; r2] p) = Ok v ->
  encode_point p v = Ok [RInt r1; RInt r2].
Proof.
  intros Hp Ht H1 H2 Hz Hv. destruct (float32_bits p r1 r2 H1 H2) as (w & Hw & Hd & Hr). rewrite Hd in Hz, Hv.
  destruct (decide ((w / 2 ^ 23) mod 2 ^ 8 = 255)) as [Hx|Hx].
  { pose proof (nonfinite_scaled p _ Hp (unpack_special w Hx)) as Hn. by rewrite Hv in Hn. }
  pose proof (pack_unpack w Hw Hx) as Hpack.
  assert (kept (unpack_float32 w)) as Hk.
  { destruct (unpack_finite w Hw Hx) as [(s & Hs & _)|(s & m & e & -> & Hd2 & He & _)].
    - rewrite Hs in *. by destruct s.
    - pose proof (digits_pos m). apply widened_kept; lia. }
  rewrite scaled_plain in Hv by done. rewrite Ht in Hv. simpl in Hv. injection Hv as <-.
  rewrite (encode_plain_float p _ w Hp Ht Hk Hpack). by rewrite Hr.
Qed.

(** The registers hold a negative zero. *)
Definition negative_zero (p : ModbusPoint) (values : list RawValue) : Prop :=
  mp_data_type p = DT_FLOAT32 /\ exists registers, values = map RInt registers /\ decode_float32 registers p = S754_zero true.

(** C26: Without a conversion a value that was decoded from a point is encoded to
    the very values it was decoded from, for every type of data and both orders
    of bytes and words - apart from the float that is a negative zero, whose
    sign the addition of the offset loses. *)
Theorem decoded_value_written_back p values v : plain_point p -> decode_point p values = Ok v ->
  encode_point p v = Ok values \/ negative_zero p values.
Proof.
  intros Hp H. destruct (mp_data_type p) eqn:Ht.
  - left. unfold decode_point in H. rewrite Ht in H. apply result_bind_ok in H as (u & Hc%raise_if_ok & H).
    apply negb_false_iff, Nat.eqb_eq in Hc. unfold register_count in Hc. rewrite Ht in Hc.
    destruct values as [|[b|z] [|]]; try done. injection H as <-. unfold encode_point. by rewrite Ht.
  - left. apply (int_roundtrip p); [done|by rewrite Ht|done].
  - left. apply (int_roundtrip p); [done|by rewrite Ht|done].
  - unfold decode_point in H. rewrite Ht in H. apply result_bind_ok in H as (u & Hc%raise_if_ok & H).
    apply negb_false_iff, Nat.eqb_eq in Hc. unfold register_count in Hc. rewrite Ht in Hc.
    apply result_bind_ok in H as (registers & [-> Hr]%registers_of & H). simpl in H.
    rewrite length_map in Hc. destruct registers as [|r1 [|r2 [|]]]; try done.
    apply Forall_cons in Hr as [H1 Hr]. apply Forall_cons in Hr as [H2 _].
    destruct (decide (decode_float32 [r1; r2] p = S754_zero true)) as [Hz|Hz].
    + right. split; [done|]. by exists [r1; r2].
    + left. by apply float_roundtrip.
Qed.

(** ** What is written *)

(** The values fit the point: one boolean, or as many 16-bit registers as the
    point has. *)
Definition fits (p : ModbusPoint) (values : list RawValue) : Prop :=
  if bool_decide (mp_data_type p = DT_BOOL) then exists b, values = [RBool b]
  else List.length values = register_count p /\ exists registers, values = map RInt registers /\ Forall in_register registers.

Lemma order_words_Forall {A} (P : A -> Prop) order l : Forall P l -> Forall P (order_words order l).
Proof. destruct order; simpl; [done|apply Forall_rev]. Qed.

Lemma encode_float32_fits raw p l : encode_float32 raw p = Ok l -> List.length l = 2%nat /\ Forall in_register l.
Proof.
  unfold encode_float32. destruct (pack_float32 raw) as [w|] eqn:Hw; [|done]. apply pack_bounds in Hw. intros [= <-].
  assert (Forall in_register (map (swap_bytes (mp_byte_order p)) [w / 65536; w mod 65536])) as Hf.
  { simpl. constructor; [|constructor; [|done]]; apply swap_bytes_bounds; unfold in_register;
      [pose proof (Z.div_lt_upper_bound w 65536 65536); pose proof (Z.div_pos w 65536); lia|
       apply Z.mod_pos_bound; lia]. }
  split; [by destruct (mp_word_order p)|by apply order_words_Forall].
Qed.

Lemma encode_point_fits p v values : encode_point p v = Ok values -> fits p values.
Proof.
  unfold encode_point, fits, register_count. destruct (mp_data_type p) eqn:Ht; simpl.
  - destruct v as [b| |]; [|done..]. intros [= <-]. by exists b.
  - destruct v as [|n|]; [done| |done]. intros (x & _ & H)%result_bind_ok.
    do 4 (apply result_bind_ok in H as (? & _ & H)). injection H as <-. split; [done|].
    eexists [_]. split; [done|]. constructor; [apply encode_integer_register|done].
  - destruct v as [|n|]; [done| |done]. intros (x & _ & H)%result_bind_ok.
    do 4 (apply result_bind_ok in H as (? & _ & H)). injection H as <-. split; [done|].
    eexists [_]. split; [done|]. constructor; [apply encode_integer_register|done].
  - destruct v as [|n|]; [done| |done]. intros (x & _ & H)%result_bind_ok.
    do 2 (apply result_bind_ok in H as (? & _ & H)). destruct (encode_float32 _ _) as [l|] eqn:E; [|done].
    injection H as <-. apply encode_float32_fits in E as [Hl Hf]. rewrite length_map. split; [done|]. by exists l.
Qed.

(** A write of a command: the command point of a capability of the entity. *)
Definition is_command_point (e : ModbusEntityConfig) (p : ModbusPoint) : Prop :=
  exists b, b ∈ me_capabilities e /\ mb_command b = Some p.

Lemma command_point_of e name p : command_point e name = Some p -> is_command_point e p.
Proof.
  unfold command_point, binding_named. intros (b & Hb & Hp)%bind_Some. exists b. split; [|done].
  apply find_first_some in Hb as [Hb _]. apply list_elem_of_In, in_rev in Hb. by apply list_elem_of_In.
Qed.

Lemma encoded_write_ok p v x : encoded_write p v = Ok (Some x) -> fst x = p /\ encode_point p v = Ok (snd x).
Proof. unfold encoded_write. intros (values & H & [= <-])%result_bind_ok. done. Qed.

Lemma translate_power_ok p c stop reverse x : translate_power p c stop reverse = Ok (Some x) ->
  fst x = p /\ exists v, encode_point p v = Ok (snd x).
Proof.
  unfold translate_power. destruct (String.eqb _ stop).
  - destruct (without_value c); [|done]. intros [? ?]%encoded_write_ok. eauto.
  - intros ([y|] & _ & H)%result_bind_ok; [|done]. apply encoded_write_ok in H as [? ?]. eauto.
Qed.

Lemma translate_command_ok e c x : translate_command e c = Ok (Some x) ->
  is_command_point e (fst x) /\ exists v, encode_point (fst x) v = Ok (snd x).
Proof.
  assert (forall name p, command_point e name = Some p -> fst x = p /\ (exists v, encode_point p v = Ok (snd x)) ->
    is_command_point e (fst x) /\ exists v, encode_point (fst x) v = Ok (snd x)) as Hk.
  { intros name p Hp [-> ?]. split; [by eapply command_point_of|done]. }
  unfold translate_command. repeat case_match; try done; intros Hx;
    try (eapply Hk; [eassumption|by eapply translate_power_ok]).
  - eapply Hk; [eassumption|]. apply encoded_write_ok in Hx as [? ?]. eauto.
  - apply result_bind_ok in Hx as ([z|] & _ & Hx); [|done]. eapply Hk; [eassumption|].
    apply encoded_write_ok in Hx as [? ?]. eauto.
Qed.

(** The command point of a validated entity can be written. *)
Definition writable_point (p : ModbusPoint) : Prop :=
  (mp_area p = COIL /\ mp_data_type p = DT_BOOL \/ mp_area p = HOLDING_REGISTER /\ mp_data_type p <> DT_BOOL) /\
  0 <= mp_address p /\ mp_address p + Z.of_nat (register_count p) <= 65536.

Lemma validate_point_bounds p : validate_point p = Ok tt ->
  0 <= mp_address p /\ mp_address p + Z.of_nat (register_count p) <= 65536.
Proof.
  unfold validate_point. rewrite !bind_unit_ok, !raise_if_ok. intros (H1 & _ & _ & H4 & _).
  apply negb_false_iff, andb_true_iff in H1 as [H1%Z.leb_le _]. apply Z.ltb_ge in H4. lia.
Qed.

Lemma holding_number_ok p : holding_number p = true -> mp_area p = HOLDING_REGISTER /\ mp_data_type p <> DT_BOOL.
Proof.
  unfold holding_number. rewrite andb_true_iff, negb_true_iff, bool_decide_eq_true, bool_decide_eq_false. done.
Qed.

Lemma validate_binding_writable b p : validate_binding b = Ok tt -> mb_command b = Some p -> writable_point p.
Proof.
  unfold validate_binding. intros H Hp. rewrite Hp in H. apply bind_unit_ok in H as [_ H].
  apply bind_unit_ok in H as [_ H]. apply bind_unit_ok in H as [Hv H]. apply validate_point_bounds in Hv.
  split; [|done]. revert H. destruct (String.eqb _ "power").
  { rewrite bind_unit_ok, !raise_if_ok. intros [_ H]. apply negb_false_iff, andb_true_iff in H.
    rewrite !bool_decide_eq_true in H. left. tauto. }
  destruct (String.eqb _ "brightness").
  { rewrite bind_unit_ok, !raise_if_ok. intros [_ H%negb_false_iff]. right. by apply holding_number_ok. }
  case_bool_decide as Hn.
  - rewrite !bind_unit_ok, !raise_if_ok. intros (_ & _ & _ & H%negb_false_iff). right. by apply holding_number_ok.
  - by rewrite bind_unit_ok, !raise_if_ok; intros [_ ?].
Qed.

Lemma command_point_writable e p : validate_entity e = Ok tt -> is_command_point e p -> writable_point p.
Proof.
  unfold validate_entity. rewrite !bind_unit_ok, result_iter_ok. intros (_ & H & _) (b & Hb & Hp).
  rewrite Forall_forall in H. eapply validate_binding_writable; [by apply H|done].
Qed.

(** ** One command of the adapter *)

Record register_write := mkRegisterWrite {
  rg_unit_id : Z;
  rg_area : ModbusArea;
  rg_address : Z;
  rg_values : list RawValue;
  rg_answer : result exn unit
}.
Definition asked_write {B} (q : modbus_call B) : result exn B -> option register_write :=
  match q in modbus_call B return result exn B -> option register_write with
  | ask_write u area address values => fun r => Some (mkRegisterWrite u area address values r)
  | _ => fun _ => None
  end.
Definition writes (l : list (happening ModbusState modbus_call)) : list register_write :=
  omap (fun x => match x with Acted _ _ => None | Asked q r => asked_write q r end) l.

(** What became of a command: at most one write, of its own point. *)
Definition commanded (a : ModbusAdapter) (c : Command) (id : string) (s : ModbusState)
    (r : result exn AdapterExecutionAck) (h : list (happening ModbusState modbus_call)) (s' : ModbusState) : Prop :=
  (writes h = [] /\ forall k, r = Ok k -> ack_accepted k = false) \/
  exists e p values answer, e ∈ ma_mapping a /\ me_entity_id e = id /\
    translate_command e c = Ok (Some (p, values)) /\
    writes h = [mkRegisterWrite (me_unit_id e) (mp_area p) (mp_address p) values answer] /\
    cmd_idempotency_key c ∉ ms_executed_keys s /\
    (forall k, r = Ok k -> ack_accepted k = true /\ answer = Ok tt) /\
    (answer = Ok tt -> exists k, r = Ok k /\ cmd_idempotency_key c ∈ ms_executed_keys s').

Lemma execute_source_commanded a c id (o : oracle ModbusState modbus_call) n s :
  commanded a c id s (fst (fst (run o (execute_source a c id) n s))) (history_of o (execute_source a c id) n s)
    (snd (run o (execute_source a c id) n s)).
Proof.
  unfold execute_source, require_connected. simpl. destruct (ms_connected s); simpl; [|by left].
  destruct (find_first _ (ma_mapping a)) as [e|] eqn:He; simpl; [|left; split; [done|by intros k [= <-]]].
  apply find_first_some in He as [He Hid%String.eqb_eq].
  case_bool_decide as Hk; simpl; [left; split; [done|by intros k [= <-]]|].
  destruct (o n bool ask_health s) as [[health|e1] s1]; simpl; [|by left].
  destruct health; simpl; [|left; split; [done|by intros k [= <-]]].
  destruct (translate_command e c) as [[[p values]|]|e1] eqn:Ht; simpl; [|left; split; [done|by intros k [= <-]]|by left].
  destruct (o _ unit _ _) as [answer s2] eqn:Ho. right. exists e, p, values, answer.
  destruct answer as [[]|e1]; simpl.
  - rewrite ?Ho. simpl. split_and!; try done.
    + intros k [= <-]. done.
    + intros _. eexists. split; [done|]. apply list_elem_of_here.
  - destruct (transport_failed e1); simpl; rewrite ?Ho; simpl; split_and!; done.
Qed.

(** C27: A command that a Modbus adapter with a validated configuration executes is
    at most one write: to the command point of a capability of the entity that
    was named, a coil with one boolean or holding registers with as many 16-bit
    values as the point has, within the address space of the device, the very
    translation of the command, and only for a key that was not executed
    before; the adapter accepts exactly when the write was answered, and then
    remembers the key. *)
Theorem command_written_once a c id (o : oracle ModbusState modbus_call) n s :
  result_iter validate_entity (ma_mapping a) = Ok tt ->
  let h := history_of o (execute_source a c id) n s in
  commanded a c id s (fst (fst (run o (execute_source a c id) n s))) h (snd (run o (execute_source a c id) n s)) /\
  Forall (fun w => exists e p, e ∈ ma_mapping a /\ me_entity_id e = id /\ is_command_point e p /\ writable_point p /\
    rg_unit_id w = me_unit_id e /\ rg_area w = mp_area p /\ rg_address w = mp_address p /\ fits p (rg_values w)) (writes h).
Proof.
  intros Hv h. pose proof (execute_source_commanded a c id o n s) as H. split; [exact H|].
  destruct H as [[Hw _]|(e & p & values & answer & He & Hid & Ht & Hw & _)]; fold h in Hw; rewrite Hw; [done|].
  apply translate_command_ok in Ht as [Hp (v & Hf%encode_point_fits)]. simpl in Hp, Hf.
  constructor; [|done]. exists e, p. simpl. split_and!; try done.
  apply (command_point_writable e); [|done]. apply result_iter_ok in Hv. rewrite Forall_forall in Hv. by apply Hv.
Qed.

(** ** Examples and witnesses *)

Definition desk_point (area : ModbusArea) (t : ModbusDataType) (address : Z) : ModbusPoint :=
  mkModbusPoint area address t BIG BIG f64_one (S754_zero false).
Definition desk_light : ModbusEntityConfig :=
  mkModbusEntity "desk.lamp" "Desk Lamp" (Some "office") SEM_LIGHT None None 7
    [mkBinding "power" (desk_point COIL DT_BOOL 0) (Some (desk_point COIL DT_BOOL 0));
     mkBinding "brightness" (desk_point HOLDING_REGISTER DT_UINT16 4) (Some (desk_point HOLDING_REGISTER DT_UINT16 5))].
Definition desk_adapter : ModbusAdapter := mkModbusAdapter "modbus" [desk_light].
Definition desk_state : ModbusState := mkModbusState 0 true true [] [].
Definition desk_command (name : string) (value : option scalar) : Command :=
  mkCommand "c1" "office.desk-lamp" name value None [] SAFE "k1" None [].
Definition desk_bus : oracle ModbusState modbus_call := fun n B q s =>
  match q in modbus_call B return result exn B * ModbusState with
  | ask_connect | ask_disconnect => (Ok tt, s)
  | ask_health => (Ok true, s)
  | ask_read u area address count => (Ok (Some (mkModbusSample u area address [RInt 55] 0)), s)
  | ask_write _ _ _ _ => (Ok tt, s)
  end.

Example desk_validated : validate_document [desk_light] = Ok tt.
Proof. vm_compute. reflexivity. Qed.

Example desk_dimmed :
  writes (history_of desk_bus (execute_command_on desk_adapter (desk_command "set_brightness" (Some (SNum (NInt 40))))) 0 desk_state)
    = [mkRegisterWrite 7 HOLDING_REGISTER 5 [RInt 40] (Ok tt)].
Proof. vm_compute. reflexivity. Qed.

(** A meter in tenths: the register 3 is read as 0.30000000000000004; neither
    this value nor 0.3 can be written, since the quotient by the double 0.1 is
    not a whole number. *)
Definition tenth : f64 := S754_finite false 7205759403792794 (-56).
Definition tenths_point : ModbusPoint := mkModbusPoint HOLDING_REGISTER 10 DT_UINT16 BIG BIG tenth (S754_zero false).
Example tenths_not_written_back :
  decode_point tenths_point [RInt 3] = Ok (SNum (NFloat (S754_finite false 5404319552844596 (-54)))) /\
  encode_point tenths_point (SNum (NFloat (S754_finite false 5404319552844596 (-54))))
    = Err (ValueError "Modbus integer command conversion is not integral") /\
  encode_point tenths_point (SNum (NFloat (S754_finite false 5404319552844595 (-54))))
    = Err (ValueError "Modbus integer command conversion is not integral").
Proof. vm_compute. done. Qed.

Lemma decoded_value_written_back_witness :
  let p := mkModbusPoint HOLDING_REGISTER 10 DT_FLOAT32 LITTLE LITTLE f64_one (S754_zero false) in
  exists v, decode_point p [RInt 0; RInt 49473] = Ok v /\
    (encode_point p v = Ok [RInt 0; RInt 49473] \/ negative_zero p [RInt 0; RInt 49473]).
Proof.
  assert (exists v, decode_point (mkModbusPoint HOLDING_REGISTER 10 DT_FLOAT32 LITTLE LITTLE f64_one (S754_zero false))
    [RInt 0; RInt 49473] = Ok v) as [v Hv] by (eexists; vm_compute; reflexivity).
  exists v. split; [exact Hv|].
  apply (decoded_value_written_back _ _ v); [split; reflexivity|exact Hv].
Defined.

Lemma command_written_once_witness :
  let c := desk_command "set_brightness" (Some (SNum (NInt 40))) in
  let h := history_of desk_bus (execute_source desk_adapter c "desk.lamp") 0 desk_state in
  commanded desk_adapter c "desk.lamp" desk_state (fst (fst (run desk_bus (execute_source desk_adapter c "desk.lamp") 0 desk_state))) h
    (snd (run desk_bus (execute_source desk_adapter c "desk.lamp") 0 desk_state)) /\
  Forall (fun w => exists e p, e ∈ ma_mapping desk_adapter /\ me_entity_id e = "desk.lamp" /\ is_command_point e p /\
    writable_point p /\ rg_unit_id w = me_unit_id e /\ rg_area w = mp_area p /\ rg_address w = mp_address p /\
    fits p (rg_values w)) (writes h).
Proof.
  apply (command_written_once desk_adapter _ "desk.lamp" desk_bus 0 desk_state).
  vm_compute. reflexivity.
Defined.
