(* ===== verification/Automation.v ===== *)
(** * Rules of local automation (domain/automation.py, persistence/repositories.py)

    The records of a rule and their validators, and [AutomationRuleRepository]:
    the table [automation_rules].  A payload is the value its JSON text decodes
    to; the column [updated_at] is never read and left out.  A [time] is the
    microseconds since midnight and has no zone of its own. *)

From S2P Require Import Prelude.
From S2P Require Import Values.
From S2P Require Import Models.
From S2P Require Import Digests.
From S2P Require Import ApprovalStore.
From S2P Require Import PlanService.
From S2P Require Import Preflight.
From S2P Require Import PlanRecords.
From S2P Require Import Projection.
From S2P Require Import Zones.
From S2P Require Import Scheduler.

(** ** The records *)

Inductive AutomationRuleStatus := AR_DISABLED | AR_ENABLED | AR_EXPIRED.
#[global] Instance AutomationRuleStatus_eq_dec : EqDecision AutomationRuleStatus.
Proof. solve_decision. Defined.

Inductive TriggerType := T_STATE_CHANGED | T_TIME.
#[global] Instance TriggerType_eq_dec : EqDecision TriggerType.
Proof. solve_decision. Defined.
Definition TriggerType_value (t : TriggerType) : string :=
  match t with T_STATE_CHANGED => "state_changed" | T_TIME => "time" end.

Record AutomationTrigger := mkTrigger {
  tr_type : TriggerType;
  tr_device_id : option string;
  tr_capability : option string;
  tr_expected : option scalar;
  tr_time_of_day : option Z;
  tr_timezone : option string
}.

Record AutomationCondition := mkCondition {
  ac_device_id : string;
  ac_capability : string;
  ac_negated : bool;  (* the operator: 'not_equals' or 'equals' *)
  ac_expected : option scalar
}.

Record AutomationConsent := mkConsent {
  co_authority : AuthorityContext;
  co_approval_id : string;
  co_principal_id : string;
  co_scope : string;
  co_rule_digest : string;
  co_approved_at : datetime;
  co_expires_at : datetime
}.
#[global] Instance AutomationConsent_eta : Eta AutomationConsent := fun r =>
  mkConsent (co_authority r) (co_approval_id r) (co_principal_id r) (co_scope r) (co_rule_digest r)
    (co_approved_at r) (co_expires_at r).

Record AutomationRule := mkAutomationRule {
  ar_authority : AuthorityContext;
  ar_schema_version : string;
  ar_id : string;
  ar_name : string;
  ar_trigger : AutomationTrigger;
  ar_conditions : list AutomationCondition;
  ar_plan_template : Plan;
  ar_scope : string;
  ar_cooldown_seconds : Z;
  ar_expires_at : option datetime;
  ar_status : AutomationRuleStatus;
  ar_definition_digest : option string
}.
#[global] Instance AutomationRule_eta : Eta AutomationRule := fun r =>
  mkAutomationRule (ar_authority r) (ar_schema_version r) (ar_id r) (ar_name r) (ar_trigger r)
    (ar_conditions r) (ar_plan_template r) (ar_scope r) (ar_cooldown_seconds r) (ar_expires_at r)
    (ar_status r) (ar_definition_digest r).

Record AutomationEvent := mkAutomationEvent {
  ev_id : string;
  ev_type : TriggerType;
  ev_occurred_at : datetime;
  ev_target_rule_id : option string;
  ev_device_id : option string;
  ev_capability : option string;
  ev_value : option scalar
}.
#[global] Instance AutomationEvent_eta : Eta AutomationEvent := fun r =>
  mkAutomationEvent (ev_id r) (ev_type r) (ev_occurred_at r) (ev_target_rule_id r) (ev_device_id r)
    (ev_capability r) (ev_value r).

Record AutomationEvaluation := mkEvaluation {
  ae_rule_id : string;
  ae_event_id : string;
  ae_status : string;
  ae_reason : string;
  ae_plan_id : option string;
  ae_observed_at : datetime
}.

(** A rule as it is read, and a row of [automation_rules]. *)
Record AutomationRuleRecord := mkRuleRecord {
  re_rule : AutomationRule;
  re_consent : AutomationConsent;
  re_last_event_id : option string;
  re_last_fired_at : option datetime
}.

Record automation_row := mkAutomationRow {
  aw_rule : AutomationRule;
  aw_consent : AutomationConsent;
  aw_status : AutomationRuleStatus;
  aw_last_event_id : option string;
  aw_last_fired_at : option datetime
}.
#[global] Instance automation_row_eta : Eta automation_row := fun r =>
  mkAutomationRow (aw_rule r) (aw_consent r) (aw_status r) (aw_last_event_id r) (aw_last_fired_at r).
Abbreviation automation_rules := (odict string automation_row).

(** ** Validators *)

Definition empty_opt (o : option string) : bool := match o with Some s => is_empty s | None => false end.
Definition long_text (n : nat) (s : string) : bool := is_empty s || Nat.ltb n (String.length s).

Definition is_lower_hex (c : ascii) : bool :=
  let n := nat_of_ascii c in (Nat.leb 48 n && Nat.leb n 57) || (Nat.leb 97 n && Nat.leb n 102).
(** [^sha256:[0-9a-f]{64}$] *)
Definition sha256_pattern (s : string) : bool :=
  String.prefix "sha256:" s && Nat.eqb (String.length s) 71 &&
  forallb is_lower_hex (drop 7 (String.list_ascii_of_string s)).

Section Rules.
Context `{CJ : Canonical} `{RN : Rendering} `{PY : Interpreter}.

(** [validate_shape], after the constraints of the fields. *)
Definition validate_trigger (t : AutomationTrigger) : result exn unit :=
  raise_if (empty_opt (tr_device_id t) || empty_opt (tr_capability t) || empty_opt (tr_timezone t))
    (ValueError "String should have at least 1 character") ≫= fun _ =>
  match tr_type t with
  | T_STATE_CHANGED =>
      raise_if (negb (opt_bool (tr_device_id t)) || negb (opt_bool (tr_capability t)))
        (ValueError "state_changed trigger requires device_id and capability") ≫= fun _ =>
      raise_if (opt_bool (tr_time_of_day t) || opt_bool (tr_timezone t))
        (ValueError "state_changed trigger cannot declare a clock schedule")
  | T_TIME =>
      match tr_time_of_day t, tr_timezone t with
      | Some _, Some tz =>
          match zone_info tz with
          | Ok _ => raise_if (opt_bool (tr_device_id t) || opt_bool (tr_capability t) || opt_bool (tr_expected t))
                      (ValueError "time trigger cannot declare state match fields")
          | Err KeyError => Err (ValueError "time trigger timezone is unknown")
          | Err e => Err e
          end
      | _, _ => Err (ValueError "time trigger requires time_of_day and timezone")
      end
  end.

Definition validate_condition (c : AutomationCondition) : result exn unit :=
  raise_if (is_empty (ac_device_id c) || is_empty (ac_capability c))
    (ValueError "String should have at least 1 character").

(** [validate_window] of a consent; an instant is aware. *)
Definition validate_consent (c : AutomationConsent) : result exn unit :=
  validate_authority (co_authority c) ≫= fun _ =>
  raise_if (is_empty (co_approval_id c) || is_empty (co_principal_id c) || long_text 200 (co_scope c) ||
            negb (sha256_pattern (co_rule_digest c)))
    (ValueError "invalid automation consent") ≫= fun _ =>
  raise_if (co_expires_at c <=? co_approved_at c)
    (ValueError "automation consent must expire after approval").

Definition trigger_dump (t : AutomationTrigger) : json :=
  JObj [("type", JStr (TriggerType_value (tr_type t))); ("device_id", json_opt_str (tr_device_id t));
        ("capability", json_opt_str (tr_capability t));
        ("expected", json_of_opt json_of_scalar (tr_expected t));
        ("time_of_day", json_opt_str (json_time <$> tr_time_of_day t));
        ("timezone", json_opt_str (tr_timezone t))].
Definition condition_dump (c : AutomationCondition) : json :=
  JObj [("device_id", JStr (ac_device_id c)); ("capability", JStr (ac_capability c));
        ("operator", JStr (if ac_negated c then "not_equals" else "equals"));
        ("expected", json_of_opt json_of_scalar (ac_expected c))].

Definition automation_rule_digest (r : AutomationRule) : string :=
  digest_ascii (JObj
    [("authority", authority_dump (ar_authority r)); ("schema_version", JStr (ar_schema_version r));
     ("id", JStr (ar_id r)); ("name", JStr (ar_name r)); ("trigger", trigger_dump (ar_trigger r));
     ("conditions", JList (map condition_dump (ar_conditions r))); ("scope", JStr (ar_scope r));
     ("cooldown_seconds", json_int (ar_cooldown_seconds r));
     ("expires_at", json_opt_str (json_instant <$> ar_expires_at r));
     ("plan_template", JObj [("schema_version", JStr (pl_schema_version (ar_plan_template r)));
                             ("commands", JList (map command_dump (pl_commands (ar_plan_template r))))])]).

(** [select_contract_version]: a rule without one takes the version of its
    template. *)
Definition select_contract_version (schema_version : option string) (template : Plan) : string :=
  default (pl_schema_version template) schema_version.

Definition is_draft_template (p : Plan) : bool :=
  negb (opt_bool (pl_execute_at p)) && negb (opt_bool (pl_approval p)) && negb (opt_bool (pl_execution p))
  && negb (opt_bool (pl_validation p)) && bool_decide (pl_status p = PS_DRAFT).

(** [validate_template] *)
Definition validate_template (r : AutomationRule) : result exn AutomationRule :=
  let template := ar_plan_template r in
  raise_if (negb (String.eqb (ar_schema_version r) (pl_schema_version template)))
    (ValueError "automation rule schema_version does not match its plan template") ≫= fun _ =>
  raise_if (Nat.ltb 10 (List.length (pl_commands template)))
    (ValueError "automation action plan is limited to 10 commands") ≫= fun _ =>
  raise_if (negb (is_draft_template template))
    (ValueError "automation plan_template must be an unvalidated draft") ≫= fun _ =>
  let expected := automation_rule_digest r in
  match ar_definition_digest r with
  | None => Ok (r <| ar_definition_digest := Some expected |>)
  | Some d => raise_if (negb (String.eqb d expected))
                (ValueError "automation rule definition_digest does not match definition") ≫= fun _ => Ok r
  end.

(** [AutomationRule(...)] *)
Definition new_rule (r : AutomationRule) : result exn AutomationRule :=
  validate_authority (ar_authority r) ≫= fun _ =>
  raise_if (long_text 200 (ar_id r) || long_text 200 (ar_name r) || long_text 200 (ar_scope r) ||
            Nat.ltb 4 (List.length (ar_conditions r)) ||
            (ar_cooldown_seconds r <? 0) || (86400 <? ar_cooldown_seconds r) ||
            match ar_definition_digest r with Some d => negb (sha256_pattern d) | None => false end)
    (ValueError "invalid automation rule") ≫= fun _ =>
  validate_trigger (ar_trigger r) ≫= fun _ =>
  result_iter validate_condition (ar_conditions r) ≫= fun _ =>
  model_validate (ar_plan_template r) ≫= fun _ =>
  validate_template r.

(** [AutomationEvent(...)] with [validate_event] *)
Definition validate_event (e : AutomationEvent) : result exn unit :=
  raise_if (long_text 200 (ev_id e) ||
            match ev_target_rule_id e with Some id => long_text 200 id | None => false end ||
            empty_opt (ev_device_id e) || empty_opt (ev_capability e))
    (ValueError "invalid automation event") ≫= fun _ =>
  match ev_type e with
  | T_STATE_CHANGED =>
      raise_if (negb (opt_bool (ev_device_id e)) || negb (opt_bool (ev_capability e)))
        (ValueError "state_changed event requires device_id and capability") ≫= fun _ =>
      raise_if (opt_bool (ev_target_rule_id e))
        (ValueError "state_changed event cannot target an automation rule")
  | T_TIME =>
      raise_if (negb (opt_bool (ev_target_rule_id e))) (ValueError "time event requires target_rule_id")
  end.

(** ** [AutomationRuleRepository] *)

Definition read_active_rule (payload : AutomationRule) : result exn AutomationRule :=
  match new_rule payload with
  | Err (ValueError _) => Err (compatibility_error (ar_id payload) PS_DRAFT)
  | r => r
  end.

Definition read_row (row : automation_row) : result exn AutomationRuleRecord :=
  rule ← read_active_rule (aw_rule row);
  validate_consent (aw_consent row) ≫= fun _ =>
  Ok (mkRuleRecord (rule <| ar_status := aw_status row |>) (aw_consent row)
        (aw_last_event_id row) (aw_last_fired_at row)).

Definition get_rule (t : automation_rules) (id : string) : result exn (option AutomationRuleRecord) :=
  match od_get id t with
  | None => Ok None
  | Some row => Some <$> read_row row
  end.

(** Rows of another contract version are skipped. *)
Definition compatible_row (row : automation_row) : result exn (option AutomationRuleRecord) :=
  match read_row row with
  | Ok r => Ok (Some r)
  | Err (DomainError _) => Ok None
  | Err e => Err e
  end.
Definition list_rules (t : automation_rules) : result exn (list AutomationRuleRecord) :=
  rows ← result_map (fun '(_, row) => compatible_row row) (isort (fun a b => String.leb (fst a) (fst b)) t);
  Ok (flat_map option_list rows).

(** What [save] and [update] ask of a consent. *)
Definition assert_stored_consent (r : AutomationRule) (c : AutomationConsent) : result exn unit :=
  raise_if (negb (bool_decide (Some (co_rule_digest c) = ar_definition_digest r)) ||
            negb (String.eqb (co_scope c) (ar_scope r)))
    (ValueError "automation consent does not match rule definition or scope") ≫= fun _ =>
  raise_if (negb (String.eqb (au_tenant_id (co_authority c)) (au_tenant_id (ar_authority r))) ||
            negb (String.eqb (au_household_id (co_authority c)) (au_household_id (ar_authority r))))
    (ValueError "automation consent does not match rule authority context").

(** A rule that is there keeps its claims. *)
Definition save_rule (r : AutomationRule) (c : AutomationConsent) : stm automation_rules exn unit :=
  lift (assert_stored_consent r c) ≫= fun _ =>
  modify (fun t => match od_get (ar_id r) t with
    | Some row => od_set (ar_id r) (row <| aw_rule := r |> <| aw_consent := c |> <| aw_status := ar_status r |>) t
    | None => od_set (ar_id r) (mkAutomationRow r c (ar_status r) None None) t
    end).

Definition update_rule (r : AutomationRule) (c : AutomationConsent)
    (expected_definition_digest expected_approval_id : string) : stm automation_rules exn bool :=
  lift (assert_stored_consent r c) ≫= fun _ =>
  t ← get_st;
  match od_get (ar_id r) t with
  | Some row =>
      if bool_decide (ar_definition_digest (aw_rule row) = Some expected_definition_digest) &&
         String.eqb (co_approval_id (aw_consent row)) expected_approval_id
      then put_st (od_set (ar_id r) (mkAutomationRow r c (ar_status r) None None) t) ≫= fun _ => mret true
      else mret false
  | None => mret false
  end.

Definition set_rule_status (id : string) (status : AutomationRuleStatus) : stm automation_rules exn bool :=
  t ← get_st;
  match od_get id t with
  | Some row => put_st (od_set id (row <| aw_status := status |>) t) ≫= fun _ => mret true
  | None => mret false
  end.

(** [(now - last).total_seconds() < cooldown] *)
Definition cooling (cooldown : Z) (now : datetime) (last : option datetime) : bool :=
  match last with
  | Some t => num_lt (NFloat (total_seconds (now - t))) (NInt cooldown)
  | None => false
  end.

(** May the event fire the rule of the record? *)
Definition claimable (r : AutomationRuleRecord) (event_id : string) (now : datetime) (cooldown : option Z)
    : bool :=
  bool_decide (ar_status (re_rule r) = AR_ENABLED) &&
  negb (bool_decide (re_last_event_id r = Some event_id)) &&
  negb (cooling (default (ar_cooldown_seconds (re_rule r)) cooldown) now (re_last_fired_at r)).

(** The [UPDATE] of [claim_event]: the row still stands as it was read. *)
Definition unclaimed (r : AutomationRuleRecord) (row : automation_row) : bool :=
  bool_decide (aw_status row = AR_ENABLED) &&
  bool_decide (aw_last_event_id row = re_last_event_id r) &&
  bool_decide (aw_last_fired_at row = re_last_fired_at r).

Definition take_claim (r : AutomationRuleRecord) (rule_id event_id : string) (now : datetime)
    : stm automation_rules exn bool :=
  t ← get_st;
  match od_get rule_id t with
  | Some row =>
      if unclaimed r row
      then put_st (od_set rule_id (row <| aw_last_event_id := Some event_id |>
                                       <| aw_last_fired_at := Some now |>) t) ≫= fun _ => mret true
      else mret false
  | None => mret false
  end.

(** [race]: what others do between the [SELECT] and the [UPDATE]. *)
Definition claim_event (race : automation_rules -> automation_rules) (rule_id event_id : string)
    (now : datetime) (cooldown : option Z) : stm automation_rules exn bool :=
  t ← get_st;
  record ← lift (get_rule t rule_id);
  match record with
  | None => mret false
  | Some r =>
      if claimable r event_id now cooldown
      then modify race ≫= fun _ => take_claim r rule_id event_id now
      else mret false
  end.
End Rules.

(** ** Claims *)

Section Claims.
Context `{CJ : Canonical} `{RN : Rendering} `{PY : Interpreter}.

(** What a claim is: the event that fired a rule, when, and the cooldown it
    had to respect. *)
Record claim := mkClaim { cl_event : string; cl_at : datetime; cl_cooldown : Z }.

(** The calls of the repository that change the table; a claim names the
    record it was decided on. *)
Inductive rule_op :=
  | O_save (r : AutomationRule) (c : AutomationConsent)
  | O_update (r : AutomationRule) (c : AutomationConsent) (expected_definition_digest expected_approval_id : string)
  | O_set_status (id : string) (status : AutomationRuleStatus)
  | O_claim (record : AutomationRuleRecord) (id event_id : string) (now : datetime).

Definition op_table (op : rule_op) (t : automation_rules) : automation_rules :=
  match op with
  | O_save r c => snd (save_rule r c t)
  | O_update r c d a => snd (update_rule r c d a t)
  | O_set_status id s => snd (set_rule_status id s t)
  | O_claim record id e now => if claimable record e now None then snd (take_claim record id e now t) else t
  end.
Definition run_rule_ops (ops : list rule_op) (t : automation_rules) : automation_rules :=
  fold_left (fun t op => op_table op t) ops t.

(** The claims of rule [id], in order; an update of the rule starts anew. *)
Definition claim_made (id : string) (op : rule_op) (t : automation_rules) : option claim :=
  match op with
  | O_claim record id' e now =>
      if String.eqb id' id && claimable record e now None &&
         match fst (take_claim record id' e now t) with Ok b => b | Err _ => false end
      then Some (mkClaim e now (ar_cooldown_seconds (re_rule record))) else None
  | _ => None
  end.
Definition updates (id : string) (op : rule_op) : bool :=
  match op with O_update r _ _ _ => String.eqb (ar_id r) id | _ => false end.

Fixpoint claims_of (id : string) (ops : list rule_op) (t : automation_rules) : list claim :=
  match ops with
  | [] => []
  | op :: ops => option_list (claim_made id op t) ++ claims_of id ops (op_table op t)
  end.

(** A claim may follow what the row remembers, or another claim. *)
Definition may_follow (last_event : option string) (last_at : option datetime) (c : claim) : Prop :=
  Some (cl_event c) <> last_event /\ cooling (cl_cooldown c) (cl_at c) last_at = false.
Fixpoint spaced (last_event : option string) (last_at : option datetime) (l : list claim) : Prop :=
  match l with
  | [] => True
  | c :: l => may_follow last_event last_at c /\ spaced (Some (cl_event c)) (Some (cl_at c)) l
  end.

(** What the row of a rule remembers of its claims. *)
Definition remembered (id : string) (t : automation_rules) : option string * option datetime :=
  match od_get id t with
  | Some row => (aw_last_event_id row, aw_last_fired_at row)
  | None => (None, None)
  end.

Lemma take_claim_cases record id e now t :
  (exists row, od_get id t = Some row /\ unclaimed record row = true /\
     take_claim record id e now t =
       (Ok true, od_set id (row <| aw_last_event_id := Some e |> <| aw_last_fired_at := Some now |>) t)) \/
  take_claim record id e now t = (Ok false, t).
Proof.
  unfold take_claim. run_stm. destruct (od_get id t) as [row|]; [|by right].
  destruct (unclaimed record row) eqn:E; [left; exists row; auto|by right].
Qed.

Lemma remembered_set_ne id id' row t : id <> id' -> remembered id (od_set id' row t) = remembered id t.
Proof. intros H. unfold remembered. by rewrite od_get_set_ne. Qed.
Lemma remembered_set id row t :
  remembered id (od_set id row t) = (aw_last_event_id row, aw_last_fired_at row).
Proof. unfold remembered. by rewrite od_get_set_eq. Qed.

(** Nothing but a claim and an update changes what a row remembers. *)
Lemma remembered_step id op t : updates id op = false -> claim_made id op t = None ->
  remembered id (op_table op t) = remembered id t.
Proof.
  destruct op as [r c|r c d a|i s|record i e now]; simpl; intros Hu Hc.
  - unfold save_rule. run_stm. destruct (assert_stored_consent r c) as [[]|?]; simpl; [|done].
    destruct (decide (ar_id r = id)) as [->|Hne].
    + unfold remembered at 2. by destruct (od_get id t); rewrite remembered_set.
    + by destruct (od_get (ar_id r) t); rewrite remembered_set_ne.
  - apply String.eqb_neq in Hu. unfold update_rule. run_stm. destruct (assert_stored_consent r c) as [[]|?]; simpl; [|done].
    destruct (od_get (ar_id r) t); [|done]. case_match; [|done]. simpl. by rewrite remembered_set_ne.
  - unfold set_rule_status. run_stm. destruct (od_get i t) as [row|] eqn:Ei; [|done]. simpl.
    destruct (decide (i = id)) as [->|Hne]; [|by rewrite remembered_set_ne].
    rewrite remembered_set. unfold remembered. by rewrite Ei.
  - destruct (claimable record e now None) eqn:Ec; [|done].
    destruct (take_claim_cases record i e now t) as [(row & Hr & _ & Ht)|Ht]; rewrite Ht in *; simpl in *; [|done].
    destruct (decide (i = id)) as [->|Hne]; [|by rewrite remembered_set_ne].
    by rewrite String.eqb_refl in Hc.
Qed.

(** A claim was not made for the event the row remembers, and not before the
    cooldown was over. *)
Lemma claim_made_follows id op t c : claim_made id op t = Some c ->
  may_follow (fst (remembered id t)) (snd (remembered id t)) c /\
  remembered id (op_table op t) = (Some (cl_event c), Some (cl_at c)).
Proof.
  destruct op as [| | |record i e now]; simpl; [done..|].
  destruct (String.eqb_spec i id) as [->|]; simpl; [|done].
  destruct (claimable record e now None) eqn:Ec; simpl; [|done].
  destruct (take_claim_cases record id e now t) as [(row & Hr & Hu & ->)| ->]; simpl; [|done].
  intros [= <-]. unfold claimable, unclaimed in *. destruct_ands. simpl in *.
  unfold remembered at 1 2. rewrite Hr, remembered_set. simpl. split; [|done].
  unfold may_follow. simpl. split; congruence.
Qed.

Lemma claims_spaced_from id ops t : forallb (fun op => negb (updates id op)) ops = true ->
  spaced (fst (remembered id t)) (snd (remembered id t)) (claims_of id ops t).
Proof.
  revert t. induction ops as [|op ops IH]; intros t; simpl; [done|].
  intros [Hu%negb_true_iff Hall]%andb_true_iff. specialize (IH (op_table op t) Hall).
  destruct (claim_made id op t) as [c|] eqn:Ec; simpl.
  - apply claim_made_follows in Ec as [Hf Hr]. rewrite Hr in IH. by split.
  - by rewrite (remembered_step id op t Hu Ec) in IH.
Qed.

(** A call of [claim_event] with others between its two transactions is a
    history of such operations. *)
Lemma claim_event_op others id e now t : exists ops, snd (claim_event (run_rule_ops others) id e now None t) =
  run_rule_ops ops t /\ (ops = [] \/ exists record, ops = others ++ [O_claim record id e now] /\
    get_rule t id = Ok (Some record) /\ claimable record e now None = true).
Proof.
  unfold claim_event. run_stm. destruct (get_rule t id) as [[record|]|x]; simpl; [|exists []; auto..].
  destruct (claimable record e now None) eqn:Ec; simpl; [|exists []; auto].
  exists (others ++ [O_claim record id e now]). unfold run_rule_ops at 2. rewrite fold_left_app. simpl.
  rewrite Ec. split; [done|]. right. by exists record.
Qed.

(** The answer [True] means that the claim was made. *)
Lemma claim_event_true race id e now t t' : claim_event race id e now None t = (Ok true, t') ->
  exists record row, get_rule t id = Ok (Some record) /\ claimable record e now None = true /\
    od_get id (race t) = Some row /\ unclaimed record row = true /\
    od_get id t' = Some (row <| aw_last_event_id := Some e |> <| aw_last_fired_at := Some now |>).
Proof.
  unfold claim_event. run_stm. destruct (get_rule t id) as [[record|]|x]; simpl; try done.
  destruct (claimable record e now None) eqn:Ec; simpl; [|done].
  destruct (take_claim_cases record id e now (race t)) as [(row & Hr & Hu & ->)| ->]; [|done].
  intros [= <-]. exists record, row. by rewrite od_get_set_eq.
Qed.

(** C35: Over any history of calls of the repository, with others between the
    two transactions of a claim, and without an update of the rule: each claim
    of a rule is for another event than the claim before it, and the cooldown
    the rule had when the claim was decided on was over since then (in seconds,
    as [total_seconds] measures them); the first one follows what the row
    remembered at the beginning. *)
Theorem claims_spaced id ops t : (forall op, op ∈ ops -> updates id op = false) ->
  spaced (fst (remembered id t)) (snd (remembered id t)) (claims_of id ops t).
Proof.
  intros H. apply claims_spaced_from, forallb_forall. intros op Hop.
  apply negb_true_iff, H. by apply list_elem_of_In.
Qed.
End Claims.

(** ** Witnesses: a rule with a cooldown of a minute *)

Definition example_rule : AutomationRule :=
  mkAutomationRule default_authority "v2" "r1" "lamp"
    (mkTrigger T_STATE_CHANGED (Some "hall") (Some "motion") (Some (SBool true)) None None) []
    (example_draft "turn_on") "lamp" 60 None AR_ENABLED None.
Definition example_consent : AutomationConsent :=
  mkConsent default_authority "a1" "alice" "lamp" "sha256:r1" 0 (hours 1).
Definition example_rule_table : automation_rules :=
  [("r1", mkAutomationRow example_rule example_consent AR_ENABLED None None)].
Definition example_record (last : option (string * datetime)) : AutomationRuleRecord :=
  mkRuleRecord example_rule example_consent (fst <$> last) (snd <$> last).
(** The second claim comes too early, the third is for the event of the first,
    the fourth was decided before the first was made. *)
Definition example_claims : list rule_op :=
  [O_claim (example_record None) "r1" "e1" 0;
   O_claim (example_record (Some ("e1", 0))) "r1" "e2" (seconds 59);
   O_claim (example_record (Some ("e1", 0))) "r1" "e1" (seconds 61);
   O_claim (example_record None) "r1" "e2" (seconds 61);
   O_set_status "r1" AR_ENABLED;
   O_claim (example_record (Some ("e1", 0))) "r1" "e2" (seconds 61)].

Lemma claims_spaced_witness :
  spaced None None [mkClaim "e1" 0 60; mkClaim "e2" (seconds 61) 60].
Proof.
  assert (forall op, op ∈ example_claims -> updates "r1" op = false) as H.
  { intros op Hop. repeat (apply elem_of_cons in Hop as [->|Hop]; [reflexivity|]). by apply not_elem_of_nil in Hop. }
  exact (claims_spaced "r1" example_claims example_rule_table H).
Defined.
