(* ===== verification/LocalAutomation.v ===== *)
(** * Local automation (application/local_automation.py)

    [LocalAutomationEngine]: an event is compared with every stored rule; a
    rule that it fires claims the event, and a plan of its commands is
    validated and executed.  The methods are coroutines that yield at every
    call of a repository ([ask_rules]; the answer may be an exception) and
    while the executor runs a plan ([ask_run]).  The audit log is output and
    left out. *)

From S2P Require Import Prelude.
From S2P Require Import Values.
From S2P Require Import Models.
From S2P Require Import StateStore.
From S2P Require Import Digests.
From S2P Require Import ApprovalStore.
From S2P Require Import PlanService.
From S2P Require Import PlanRecords.
From S2P Require Import Coroutines.
From S2P Require Import Projection.
From S2P Require Import Recurrence.
From S2P Require Import Zones.
From S2P Require Import Scheduler.
From S2P Require Import CommitService.
From S2P Require Import Automation.

(** Of the interpreter: [utc.strftime("%Y-%m-%dT%H:%M")] of an instant, [str]
    of a [datetime] in the zone it carries and of an exception. *)
Class EventTexts := {
  minute_text : datetime -> string;
  datetime_text : datetime -> option string -> string;
  exn_str : exn -> string
}.

(** What the engine reads of a [StateChangedEvent]; [sce_value] is any decoded
    value. *)
Record StateChangedEvent := mkStateChangedEvent {
  sce_source_adapter_id : option string;
  sce_occurred_at : option datetime;
  sce_occurred_tz : option string;
  sce_external_id : option string;
  sce_device_id : option string;
  sce_capability : option string;
  sce_value : json;
  sce_available : option bool;
  sce_source_cursor : option SourceCursor
}.

Record LocalAutomationEngine := mkEngine {
  le_plan_repository : bool;
  le_state_store : bool;
  le_stale_after : timedelta  (* of the state store *)
}.

Inductive automation_call : Type -> Type :=
  | ask_rules : automation_call unit
  | ask_run (p : Plan) : automation_call (list ExecutionOutcome).

Section Engine.
Context {R : Type}.

(** The clock, the tables and the plan service, which holds the state store. *)
Record Automating := mkAutomating {
  am_now : datetime;
  am_rules : automation_rules;
  am_records : R;
  am_service : PlanService
}.
#[global] Instance Automating_eta : Eta Automating := fun r =>
  mkAutomating (am_now r) (am_rules r) (am_records r) (am_service r).

Abbreviation C := (coro Automating automation_call).

Definition rules_call {A} (m : stm automation_rules exn A) : C A :=
  await ask_rules ≫= fun _ =>
  perform (fun s => let '(r, t) := m (am_rules s) in (r, s <| am_rules := t |>)).
Definition records_call {A} (m : stm R exn A) : C A :=
  await ask_rules ≫= fun _ =>
  perform (fun s => let '(r, t) := m (am_records s) in (r, s <| am_records := t |>)).
Definition now_ : C datetime := inspect (fun s => Ok (am_now s)).

Section Methods.
Context `{CJ : Canonical} `{RN : Rendering} `{PY : Interpreter} `{TX : EventTexts} `{!PlanRecordPort R}.
Context (le : LocalAutomationEngine).
(** What other hosts do to the table while an event is claimed. *)
Context (race : automation_rules -> automation_rules).

(** ** Rules and consents *)

(** [_assert_template_contract] *)
Definition assert_template_contract (s : PlanService) (r : AutomationRule) : result exn unit :=
  match ps_deployment_id s with
  | Some d =>
      raise_if (negb (bool_decide (pl_deployment_id (ar_plan_template r) = Some d)) ||
                negb (String.eqb (ar_schema_version r) "v2"))
        (DomainError (mkErrorDetail PLAN_IDENTITY_CONFLICT
           (msg "Automation rule requires explicit revalidation and consent") None None None false
           [("reason", JStr "revalidation_required")]))
  | None => Ok tt
  end.

(** The authority of a rule or a consent, under the consenting principal. *)
Definition with_principal (c : AutomationConsent) (a : AuthorityContext) : AuthorityContext :=
  a <| au_principal_id := co_principal_id c |>.
Definition same_authority (r : AutomationRule) (c : AutomationConsent) : bool :=
  bool_decide (with_principal c (co_authority c) = with_principal c (ar_authority r)).

(** [_assert_consent] *)
Definition assert_consent (r : AutomationRule) (c : AutomationConsent) : result exn unit :=
  raise_if (negb (String.eqb (co_rule_digest c) (automation_rule_digest r)) ||
            negb (String.eqb (co_scope c) (ar_scope r)))
    (ValueError "automation consent does not match rule") ≫= fun _ =>
  raise_if (negb (same_authority r c)) (ValueError "automation consent authority does not match rule").

(** [_consent_is_current] *)
Definition consent_is_current (now : datetime) (r : AutomationRule) (c : AutomationConsent) : bool :=
  (now <? co_expires_at c) && bool_decide (Some (co_rule_digest c) = ar_definition_digest r) &&
  String.eqb (co_scope c) (ar_scope r) && same_authority r c.

Definition assert_live (c : AutomationConsent) : C unit :=
  now ← now_;
  reject_when (co_expires_at c <=? now) (ValueError "automation consent has expired").

Definition register (r : AutomationRule) (c : AutomationConsent) : C AutomationRule :=
  inspect (fun s => assert_template_contract (am_service s) r) ≫= fun _ =>
  inspect (fun _ => assert_consent r c) ≫= fun _ =>
  assert_live c ≫= fun _ =>
  rules_call (save_rule r c) ≫= fun _ => mret r.

Definition stored_rule (id : string) : C (option AutomationRuleRecord) :=
  rules_call (fun t => (get_rule t id, t)).

Definition update (r : AutomationRule) (c : AutomationConsent) : C AutomationRule :=
  inspect (fun s => assert_template_contract (am_service s) r) ≫= fun _ =>
  record ← stored_rule (ar_id r);
  match record with
  | None => Raise (ValueError "automation rule does not exist")
  | Some old =>
      inspect (fun _ => assert_consent r c) ≫= fun _ =>
      assert_live c ≫= fun _ =>
      let previous := co_approval_id (re_consent old) in
      reject_when (String.eqb (co_approval_id c) previous)
        (ValueError "automation rule update requires a fresh approval") ≫= fun _ =>
      match ar_definition_digest (re_rule old) with
      | None => Raise (ValueError "stored automation rule has no definition digest")
      | Some digest =>
          updated ← rules_call (update_rule r c digest previous);
          reject_when (negb updated) (ValueError "automation rule update lost its target") ≫= fun _ =>
          mret r
      end
  end.

Definition set_status (id : string) (status : AutomationRuleStatus) : C bool :=
  record ← stored_rule id;
  match record with
  | None => mret false
  | Some r =>
      expired ← (if bool_decide (status = AR_ENABLED) then
                   inspect (fun _ => assert_consent (re_rule r) (re_consent r)) ≫= fun _ =>
                   now ← now_;
                   mret (co_expires_at (re_consent r) <=? now)
                 else mret false);
      if expired : bool then rules_call (set_rule_status id AR_EXPIRED) ≫= fun _ => mret false
      else rules_call (set_rule_status id status)
  end.

(** [list_rules] of the engine *)
Definition all_rules : C (list AutomationRuleRecord) := rules_call (fun t => (list_rules t, t)).

(** ** What an event is compared with *)

Definition hour_minute (wall : Z) : Z * Z := ((wall / hours 1) mod 24, (wall / minutes 1) mod 60).

(** The clock in the zone shows the hour and the minute. *)
Definition shows_time (tz : string) (time_of_day : Z) (t : datetime) : result exn bool :=
  z ← zone_info tz;
  local ← to_zone z t;
  Ok (bool_decide (hour_minute (lt_wall local) = hour_minute time_of_day)).

(** [_matches_trigger] *)
Definition matches_trigger (r : AutomationRule) (e : AutomationEvent) : result exn bool :=
  let t := ar_trigger r in
  match tr_type t with
  | T_TIME =>
      match tr_time_of_day t, tr_timezone t with
      | Some time_of_day, Some tz =>
          if bool_decide (ev_type e = T_TIME) && bool_decide (ev_target_rule_id e = Some (ar_id r))
          then shows_time tz time_of_day (ev_occurred_at e) else Ok false
      | _, _ => Ok false
      end
  | T_STATE_CHANGED =>
      Ok (bool_decide (ev_type e = T_STATE_CHANGED) && bool_decide (tr_device_id t = ev_device_id e) &&
          bool_decide (tr_capability t = ev_capability e) &&
          match tr_expected t with None => true | Some _ => opt_scalar_eqb (tr_expected t) (ev_value e) end)
  end.

Definition time_event_id (rule_id : string) (t : datetime) : string :=
  "time:" +:+ rule_id +:+ ":" +:+ minute_text t.
Definition normalize_time_event (r : AutomationRule) (e : AutomationEvent) : AutomationEvent :=
  match ev_type e with
  | T_TIME => e <| ev_id := time_event_id (ar_id r) (ev_occurred_at e) |>
  | T_STATE_CHANGED => e
  end.

(** The value a condition looks at, if there is a current one. *)
Definition condition_value (s : Automating) (e : AutomationEvent) (c : AutomationCondition)
    : option (option scalar) :=
  if bool_decide (Some (ac_device_id c) = ev_device_id e) && bool_decide (Some (ac_capability c) = ev_capability e)
  then Some (ev_value e)
  else if le_state_store le then
    match StateStore.get (ps_state_store (am_service s)) (ac_device_id c) (ac_capability c) with
    | None => None
    | Some snapshot =>
        let effective := effective_snapshot (le_stale_after le) (am_now s) snapshot in
        if bool_decide (ss_status effective = CURRENT) then Some (ss_value effective) else None
    end
  else None.

Definition condition_met (s : Automating) (e : AutomationEvent) (c : AutomationCondition) : bool :=
  match condition_value s e c with
  | None => false
  | Some v => xorb (ac_negated c) (opt_scalar_eqb v (ac_expected c))
  end.

(** [_conditions_match] *)
Definition conditions_match (s : Automating) (l : list AutomationCondition) (e : AutomationEvent) : bool :=
  forallb (condition_met s e) l.
(** ** Evaluations *)

Definition report (r : AutomationRule) (e : AutomationEvent) (status reason : string)
    (plan_id : option string) : C AutomationEvaluation :=
  now ← now_;
  let cut := String.substring 0 200 reason in
  reject_when (is_empty cut) (ValueError "String should have at least 1 character") ≫= fun _ =>
  mret (mkEvaluation (ar_id r) (ev_id e) status cut plan_id now).

Fixpoint strip_left (l : list ascii) : list ascii :=
  match l with [] => [] | c :: l' => if is_space c then strip_left l' else l end.
Definition strip (s : string) : string :=
  String.string_of_list_ascii
    (rev (strip_left (rev (strip_left (String.list_ascii_of_string s))))).
Definition one_line (s : string) : string :=
  String.string_of_list_ascii
    (map (fun c => if Ascii.eqb c "010"%char then " "%char else c) (String.list_ascii_of_string s)).

(** [_safe_reason] *)
Definition safe_reason (e : exn) : string :=
  let cut := String.substring 0 200 (one_line (strip (exn_str e))) in
  if is_empty cut then "execution_failed" else cut.

(** [except (DomainError, ValueError, RuntimeError)] *)
Definition is_reported (e : exn) : bool :=
  match e with
  | DomainError _ | ValueError _ | RuntimeError _ | LeaseUnavailable _ | FencingViolation _
  | QueueClosed | QueueOverloaded => true
  | _ => false
  end.

(** ** Executing a claimed event ([_execute_claimed]) *)

Definition claimed_plan_id (r : AutomationRule) (e : AutomationEvent) : string :=
  "automation:" +:+ ar_id r +:+ ":" +:+ ev_id e.

Definition rule_digest (r : AutomationRule) : string :=
  match ar_definition_digest r with
  | Some d => if is_empty d then automation_rule_digest r else d
  | None => automation_rule_digest r
  end.

Definition claimed_command (r : AutomationRule) (e : AutomationEvent) (index : nat) (c : Command) : Command :=
  c <| cmd_idempotency_key :=
    occurrence_idempotency_key (au_household_id (ar_authority r)) (ar_id r) (rule_digest r)
      (ev_id e) (cmd_id c) (Z.of_nat index) |>.

(** The plan of an event, validated as things are now. *)
Definition claimed_plan (s : PlanService) (now : datetime) (r : AutomationRule) (c : AutomationConsent)
    (e : AutomationEvent) : result exn Plan :=
  p ← create_plan s now (claimed_plan_id r e) (imap (claimed_command r e) (pl_commands (ar_plan_template r)))
        (ar_expires_at r) None;
  validate s now (p <| pl_authority := with_principal c (ar_authority r) |>
                    <| pl_agent_request_id := Some (co_principal_id c) |>).

(** The status and the reason. *)
Definition run_claimed (r : AutomationRule) (c : AutomationConsent) (e : AutomationEvent)
    : C (string * string) :=
  validated ← inspect (fun s => claimed_plan (am_service s) (am_now s) r c e);
  (if le_plan_repository le then records_call (port_save_plan validated) else mret tt) ≫= fun _ =>
  if bool_decide (pl_status validated = PS_READY) then
    outcomes ← await (ask_run validated);
    mret (project_execution_summary outcomes)
  else mret ("blocked", if bool_decide (pl_status validated = PS_REQUIRES_CONFIRMATION)
                        then "confirmation_required" else "plan_validation_failed").

Definition execute_claimed (r : AutomationRule) (c : AutomationConsent) (e : AutomationEvent)
    : C AutomationEvaluation :=
  result ← coro_catch (fun x => if is_reported x then mret ("unknown", safe_reason x) else Raise x)
             (run_claimed r c e);
  report r e (fst result) (snd result) (Some (claimed_plan_id r e)).

(** ** Events ([handle_event]) *)

Definition stale_after : timedelta := if le_state_store le then le_stale_after le else minutes 5.
Definition event_stale (now : datetime) (e : AutomationEvent) : bool :=
  (now <? ev_occurred_at e) || (stale_after <? now - ev_occurred_at e).
Definition rule_over (now : datetime) (r : AutomationRule) : bool :=
  match ar_expires_at r with Some t => t <=? now | None => false end.

(** The claim, and the execution of what was claimed. *)
Definition claim_and_execute (r : AutomationRuleRecord) (e : AutomationEvent) : C AutomationEvaluation :=
  let rule := re_rule r in
  claim_at ← now_;
  claimed ← rules_call (claim_event race (ar_id rule) (ev_id e) claim_at None);
  if claimed : bool then execute_claimed rule (re_consent r) e
  else if bool_decide (re_last_event_id r = Some (ev_id e))
  then report rule e "duplicate" "duplicate_event" None
  else report rule e "cooldown" "cooldown_active" None.

(** A rule whose trigger the event matches. *)
Definition fire (r : AutomationRuleRecord) (e : AutomationEvent) : C AutomationEvaluation :=
  let rule := re_rule r in
  s ← look;
  match assert_template_contract (am_service s) rule with
  | Err (DomainError _) => report rule e "blocked" "revalidation_required" None
  | Err x => Raise x
  | Ok _ =>
      let e := normalize_time_event rule e in
      if negb (conditions_match s (ar_conditions rule) e)
      then report rule e "skipped" "condition_not_met" None
      else if negb (consent_is_current (am_now s) rule (re_consent r))
      then report rule e "blocked" "consent_invalid" None
      else claim_and_execute r e
  end.

Definition evaluated (c : C AutomationEvaluation) : C (option AutomationEvaluation) :=
  x ← c; mret (Some x).

Definition consider (e : AutomationEvent) (r : AutomationRuleRecord) : C (option AutomationEvaluation) :=
  let rule := re_rule r in
  if bool_decide (ev_type e = T_TIME) && negb (bool_decide (ev_target_rule_id e = Some (ar_id rule)))
  then mret None
  else if negb (bool_decide (ar_status rule = AR_ENABLED)) then mret None
  else
    handled_at ← now_;
    if event_stale handled_at e then evaluated (report rule e "skipped" "event_stale" None)
    else if rule_over handled_at rule then
      rules_call (set_rule_status (ar_id rule) AR_EXPIRED) ≫= fun _ =>
      evaluated (report rule e "expired" "rule_expired" None)
    else
      matched ← inspect (fun _ => matches_trigger rule e);
      if matched : bool then evaluated (fire r e) else mret None.

Definition handle_event (e : AutomationEvent) : C (list AutomationEvaluation) :=
  inspect (fun _ => validate_event e) ≫= fun _ =>
  records ← all_rules;
  coro_collect (consider e) records.

(** [_source_event_id] *)
Definition str_opt (o : option string) : string := default "None" o.
Definition source_event_id (e : StateChangedEvent) : string :=
  match sce_source_cursor e with
  | Some cu => cu_source_id cu +:+ ":" +:+ cu_stream_id cu +:+ ":" +:+ cu_epoch cu +:+ ":" +:+ pretty (cu_sequence cu)
  | None => str_opt (sce_source_adapter_id e) +:+ ":" +:+ str_opt (sce_external_id e) +:+ ":" +:+
            str_opt ((fun t => datetime_text t (sce_occurred_tz e)) <$> sce_occurred_at e)
  end.

Definition scalar_of_json (j : json) : result exn scalar :=
  match j with
  | JBool b => Ok (SBool b)
  | JNum n => Ok (SNum n)
  | JStr s => Ok (SStr s)
  | _ => Err (ValueError "Input should be a valid scalar")
  end.

Definition handle_state_event (e : StateChangedEvent) : C (list AutomationEvaluation) :=
  match sce_occurred_at e, sce_device_id e, sce_capability e with
  | Some t, Some device, Some capability =>
      if bool_decide (sce_available e = Some false) || bool_decide (sce_value e = JNull) then mret []
      else
        value ← of_result (scalar_of_json (sce_value e));
        let event := mkAutomationEvent (source_event_id e) T_STATE_CHANGED t None (Some device)
                       (Some capability) (Some value) in
        of_result (validate_event event) ≫= fun _ => handle_event event
  | _, _, _ => mret []
  end.

(** The event of a rule whose time it is. *)
Definition time_event (current : datetime) (r : AutomationRuleRecord) : C (list AutomationEvaluation) :=
  let rule := re_rule r in
  match ar_status rule, tr_type (ar_trigger rule), tr_time_of_day (ar_trigger rule), tr_timezone (ar_trigger rule) with
  | AR_ENABLED, T_TIME, Some time_of_day, Some tz =>
      due ← of_result (shows_time tz time_of_day current);
      if due : bool then
        let event := mkAutomationEvent (time_event_id (ar_id rule) current) T_TIME current
                       (Some (ar_id rule)) None None None in
        of_result (validate_event event) ≫= fun _ => handle_event event
      else mret []
  | _, _, _, _ => mret []
  end.

Definition evaluate_time (now : option datetime) : C (list AutomationEvaluation) :=
  t ← now_;
  records ← all_rules;
  evaluations ← coro_map (time_event (default t now)) records;
  mret (List.concat evaluations).
End Methods.
End Engine.
