(* ===== verification/LocalAutomationSafety.v ===== *)
(** * What local automation executes (application/local_automation.py)

    [runs] are the plans an engine asked the executor for, [gates] what a rule
    went through before one of them; [automation_execution_gated] is about
    events of any origin, whatever is answered and whatever others do
    meanwhile.  A lamp at a motion sensor serves for the examples. *)

From S2P Require Import Prelude.
From S2P Require Import Values.
From S2P Require Import Models.
From S2P Require Import Policy.
From S2P Require Import Registry.
From S2P Require Import StateStore.
From S2P Require Import Digests.
From S2P Require Import ApprovalStore.
From S2P Require Import PlanService.
From S2P Require Import PlanRecords.
From S2P Require Import Coroutines.
From S2P Require Import Projection.
From S2P Require Import Recurrence.
From S2P Require Import Zones.
From S2P Require Import Scheduler.
From S2P Require Import CommitService.
From S2P Require Import Automation.
From S2P Require Import LocalAutomation.

Section Gates.
Context {R : Type} `{CJ : Canonical} `{RN : Rendering} `{PY : Interpreter} `{TX : EventTexts}.
Context `{!PlanRecordPort R} (le : LocalAutomationEngine) (race : automation_rules -> automation_rules).
Abbreviation S := (Automating (R := R)).
Abbreviation C := (coro S automation_call).
Abbreviation happened := (list (happening S automation_call)).

Definition asked_run {B} (q : automation_call B) : result exn B -> option (Plan * result exn (list ExecutionOutcome)) :=
  match q in automation_call B return result exn B -> option (Plan * result exn (list ExecutionOutcome)) with
  | ask_rules => fun _ => None
  | ask_run p => fun r => Some (p, r)
  end.
Definition runs : happened -> list (Plan * result exn (list ExecutionOutcome)) := picked (@asked_run).

Lemma runs_app l1 l2 : runs (l1 ++ l2) = runs l1 ++ runs l2.
Proof. apply picked_app. Qed.

Lemma in_order_acted (P : S -> S -> Prop) Ps s s' (h : happened) :
  P s s' -> in_order Ps h -> in_order (did P :: Ps) (Acted s s' :: h).
Proof. intros HP H. by exists [], (Acted s s'), h. Qed.
Lemma in_order_later x P Ps (h : happened) : in_order (P :: Ps) h -> in_order (P :: Ps) (x :: h).
Proof. apply (in_order_before _ [x]). Qed.

(** ** Gates *)

(** The contract, the conditions and the consent of a rule. *)
Definition fits (rule : AutomationRule) (consent : AutomationConsent) (e : AutomationEvent) (s : S) : Prop :=
  assert_template_contract (am_service s) rule = Ok tt /\
  conditions_match le s (ar_conditions rule) e = true /\
  consent_is_current (am_now s) rule consent = true.

(** The event was claimed from the table by this step. *)
Definition claims_event (r : AutomationRule) (e : AutomationEvent) (claim_at : datetime) (s s' : S) : Prop :=
  claim_event race (ar_id r) (ev_id e) claim_at None (am_rules s) = (Ok true, am_rules s').
Definition planned (r : AutomationRule) (c : AutomationConsent) (e : AutomationEvent) (p : Plan) (s : S) : Prop :=
  claimed_plan (am_service s) (am_now s) r c e = Ok p.

(** The plan of an event: the commands of the rule in their order, up to a unit
    that validation filled in, each under the key of the household, the rule,
    its digest, the event, the command and its place; for the consenting
    principal. *)
Record plan_of_event (r : AutomationRule) (c : AutomationConsent) (e : AutomationEvent) (p : Plan) : Prop := {
  pe_id : pl_id p = "automation:" +:+ ar_id r +:+ ":" +:+ ev_id e;
  pe_authority : pl_authority p = (ar_authority r) <| au_principal_id := co_principal_id c |>;
  pe_ready : pl_status p = PS_READY;
  pe_size : List.length (pl_commands p) = List.length (pl_commands (ar_plan_template r));
  pe_commands : forall i x, pl_commands p !! i = Some x -> exists t u,
    pl_commands (ar_plan_template r) !! i = Some t /\
    x = t <| cmd_idempotency_key := occurrence_idempotency_key (au_household_id (ar_authority r)) (ar_id r)
               (rule_digest r) (ev_id e) (cmd_id t) (Z.of_nat i) |> <| cmd_unit := u |>
}.

Definition gates (e : AutomationEvent) (r : AutomationRuleRecord) (p : Plan) (h : happened) : Prop :=
  let rule := re_rule r in
  let event := normalize_time_event rule e in
  ar_status rule = AR_ENABLED /\ matches_trigger rule e = Ok true /\ plan_of_event rule (re_consent r) event p /\
  exists claim_at, in_order
    [saw (fun s => event_stale le (am_now s) e = false /\ rule_over (am_now s) rule = false);
     saw (fits rule (re_consent r) event);
     saw (fun s => am_now s = claim_at);
     did (claims_event rule event claim_at);
     saw (planned rule (re_consent r) event p)] h.

(** At most one run, after [G]. *)
Definition once (G : Plan -> happened -> Prop) (h : happened) : Prop :=
  runs h = [] \/ exists tail p a rest, h = tail ++ Asked (ask_run p) a :: rest /\
    runs tail = [] /\ runs rest = [] /\ G p tail.

Lemma once_pre (G : Plan -> happened -> Prop) l h :
  runs l = [] -> once (fun p t => G p (l ++ t)) h -> once G (l ++ h).
Proof.
  intros Hl [Hh|(t & p & a & rest & -> & Ht & Hr & HG)]; [left; by rewrite runs_app, Hl|].
  right. exists (l ++ t), p, a, rest. rewrite app_assoc, runs_app, Hl, Ht. done.
Qed.
Lemma once_post G h l : runs l = [] -> once G h -> once G (h ++ l).
Proof.
  intros Hl [Hh|(t & p & a & rest & -> & Ht & Hr & HG)]; [left; by rewrite runs_app, Hh|].
  right. exists t, p, a, (rest ++ l). rewrite <- app_assoc, runs_app, Hr. done.
Qed.
Lemma once_mono (G G' : Plan -> happened -> Prop) h : (forall p t, G p t -> G' p t) -> once G h -> once G' h.
Proof. intros H [Hh|(t & p & a & rest & -> & Ht & Hr & HG)]; [by left|]. right. exists t, p, a, rest. auto. Qed.

Lemma does_once {A} P (c : C A) G : avoids (@asked_run) c -> does P c (fun _ h _ => once G h).
Proof. intros H. eapply does_conseq; [by apply (does_avoids (@asked_run) P)|done|]. intros r h s Hh. by left. Qed.

(** A step without a run, with the fact [M] it established. *)
Lemma once_bind {A B} P (c : C A) (f : A -> C B) (M : A -> happened -> S -> Prop) G :
  does P c (fun r h s => runs h = [] /\ match r with Ok a => M a h s | Err _ => True end) ->
  (forall a l s, M a l s -> does (fun s' => s' = s) (f a) (fun _ h _ => once (fun p t => G p (l ++ t)) h)) ->
  does P (c ≫= f) (fun _ h _ => once G h).
Proof.
  intros Hc Hf. eapply does_bind with (M := fun a h s => runs h = [] /\ M a h s).
  { eapply does_conseq; [exact Hc|done|]. intros [a|e] h s [Hh HM]; [done|by left]. }
  intros a l s [Hl HM]. eapply does_conseq; [by apply Hf|done|]. intros r h s' Hh. by apply once_pre.
Qed.

(** A step after which nothing is run. *)
Lemma once_then {A B} P (c : C A) (f : A -> C B) G : does P c (fun _ h _ => once G h) ->
  (forall a, avoids (@asked_run) (f a)) -> does P (c ≫= f) (fun _ h _ => once G h).
Proof.
  intros Hc Hf. eapply does_bind with (M := fun _ h _ => once G h).
  { eapply does_conseq; [exact Hc|done|]. by intros [a|e] h s Hh. }
  intros a l s Hl. eapply does_conseq; [apply (does_avoids (@asked_run) (fun _ => True) _ (Hf a))|done|].
  intros r h s' Hh. by apply once_post.
Qed.

Lemma once_catch {A} P (c : C A) f G : does P c (fun _ h _ => once G h) ->
  (forall e, avoids (@asked_run) (f e)) -> does P (coro_catch f c) (fun _ h _ => once G h).
Proof.
  intros Hc Hf. eapply does_catch with (M := fun _ h _ => once G h).
  { eapply does_conseq; [exact Hc|done|]. by intros [a|e] h s Hh. }
  intros e l s Hl. eapply does_conseq; [apply (does_avoids (@asked_run) (fun _ => True) _ (Hf e))|done|].
  intros r h s' Hh. by apply once_post.
Qed.

(** ** The steps *)

Lemma step_perform {A} P (m : stm S exn A) : does P (perform m)
  (fun r h s' => runs h = [] /\ match r with
     | Ok a => exists s, h = [Acted s s'] /\ m s = (Ok a, s') | Err _ => True end).
Proof.
  apply does_perform. intros s _. split; [done|]. destruct (m s) as [[a|e] s'] eqn:E; simpl; [|done].
  by exists s.
Qed.

Lemma step_inspect {A} P (f : S -> result exn A) : does P (inspect f)
  (fun r h s' => runs h = [] /\ match r with
     | Ok a => h = [Acted s' s'] /\ f s' = Ok a | Err _ => True end).
Proof.
  eapply does_conseq; [apply step_perform|done|]. intros [a|e] h s' [Hr H]; (split; [done|]); [|done].
  destruct H as (s & -> & [= Hf <-]). done.
Qed.

Lemma step_now P : does P now_ (fun r h s' => runs h = [] /\ match r with
  | Ok t => h = [Acted s' s'] /\ t = am_now s' | Err _ => True end).
Proof.
  eapply does_conseq; [apply step_inspect|done|]. intros [a|e] h s' [Hr H]; (split; [done|]); [|done].
  by destruct H as [-> [= ->]].
Qed.

Lemma step_rules {A} P (m : stm automation_rules exn A) : does P (rules_call m)
  (fun r h _ => runs h = [] /\ match r with
     | Ok a => exists s s1, h = [Asked ask_rules (Ok tt); Acted s s1] /\ m (am_rules s) = (Ok a, am_rules s1)
     | Err _ => True end).
Proof.
  intros h s _. simpl. intros [[]|e] s' _; simpl; [|by exists [Asked ask_rules (Err e)]].
  destruct (m (am_rules s')) as [[a|e] t] eqn:E; simpl; rewrite <- app_assoc; eexists; (split; [done|]);
    (split; [done|]); [|done]. by exists s', (s' <| am_rules := t |>).
Qed.

Lemma avoids_await_rules : avoids (@asked_run) (S := S) (await ask_rules).
Proof. split; [done|]. intros r. apply avoids_of_result. Qed.
Lemma avoids_rules {A} (m : stm automation_rules exn A) : avoids (@asked_run) (rules_call (R := R) m).
Proof. apply avoids_bind; [apply avoids_await_rules|]. intros _. apply avoids_perform. Qed.
Lemma avoids_records {A} (m : stm R exn A) : avoids (@asked_run) (records_call m).
Proof. apply avoids_bind; [apply avoids_await_rules|]. intros _. apply avoids_perform. Qed.
Lemma avoids_report r e st reason id : avoids (@asked_run) (report (R := R) r e st reason id).
Proof.
  apply avoids_bind; [apply avoids_inspect|]. intros t. apply avoids_bind; [apply avoids_reject|]. done.
Qed.

Lemma step_avoids {A} P (c : C A) : avoids (@asked_run) c ->
  does P c (fun r h _ => runs h = [] /\ match r with Ok _ => True | Err _ => True end).
Proof.
  intros H. eapply does_conseq; [by apply (does_avoids (@asked_run) P)|done|].
  by intros [a|e] h s Hh.
Qed.

Lemma once_run P p (G : Plan -> happened -> Prop) : G p [] -> does P (await (ask_run p)) (fun _ h _ => once G h).
Proof.
  intros HG h s _. simpl. intros r s' _.
  assert (once G [Asked (ask_run p) r]) as H by (right; by exists [], p, r, []).
  destruct r; simpl; by exists [Asked (ask_run p) (Ok a)] || by exists [Asked (ask_run p) (Err e)].
Qed.

(** ** The methods *)

Lemma claimed_commands (s : PlanService) commands normalized : result_map (normalize_command s) commands = Ok normalized ->
  Forall2 normalizes commands normalized.
Proof.
  rewrite result_map_ok. induction 1 as [|c c' l l' Hc _ IH]; constructor; [|done].
  unfold normalize_command in Hc. apply result_bind_ok in Hc as (v & Hv & Hc).
  destruct (cv_errors v) eqn:E; [|done]. injection Hc as <-.
  by destruct (validate_command_semantics_cleared _ _ _ Hv E) as (? & ? & _ & Hn & _).
Qed.

Lemma claimed_plan_of_event s now r c e p : claimed_plan s now r c e = Ok p -> pl_status p = PS_READY ->
  plan_of_event r c e p.
Proof.
  unfold claimed_plan. intros (q & Hq & Hv)%result_bind_ok Hr. apply validate_ok in Hv as (acc & Hv).
  unfold create_plan in Hq. apply result_bind_ok in Hq as (normalized & Hn & Hq).
  apply result_bind_ok in Hq as (u & _ & [= <-]). apply claimed_commands in Hn.
  assert (va_errors acc = []) as Herr.
  { pose proof (vd_status _ _ _ _ _ Hv) as Hst. rewrite Hr in Hst. by case_bool_decide. }
  destruct (vd_bound _ _ _ _ _ Hv) as (b & Hb & Hc).
  assert (pl_commands b = normalized) as Hb'.
  { by destruct (bind_definition_ok _ _ _ Hb) as (_ & _ & [->|(d & _ & ->)] & _). }
  destruct (validate_commands_clean _ _ _ _ Hc Herr) as [_ [run Hrun]].
  destruct (clean_run_outputs _ _ _ _ _ Hrun) as (E1 & _ & Hn2 & _). simpl in E1.
  rewrite <- E1, <- (vd_commands _ _ _ _ _ Hv), Hb' in Hn2.
  split; [apply Hv|exact (vd_authority _ _ _ _ _ Hv)|done| |].
  - apply Forall2_length in Hn, Hn2. rewrite length_imap in Hn. congruence.
  - intros i x Hx. destruct (Forall2_lookup_r _ _ _ _ _ Hn2 Hx) as (y & Hy & [u2 ->]).
    destruct (Forall2_lookup_r _ _ _ _ _ Hn Hy) as (z & Hz & [u1 ->]).
    rewrite list_lookup_imap in Hz. apply fmap_Some in Hz as (t & Ht & ->). by exists t, u2.
Qed.

Lemma run_claimed_once P r c e : does P (run_claimed le r c e)
  (fun _ h _ => once (fun p t => plan_of_event r c e p /\ in_order [saw (planned r c e p)] t) h).
Proof.
  eapply once_bind; [apply step_inspect|]. intros p l s [-> Hp]. cbn beta.
  eapply once_bind; [apply step_avoids; destruct (le_plan_repository le); [apply avoids_records|done]|].
  intros [] l s' _. cbn beta. case_bool_decide as Hr; [|apply does_once; by case_bool_decide].
  apply once_then; [|by intros a].
  apply once_run. split; [by eapply claimed_plan_of_event|]. by apply in_order_acted.
Qed.

Lemma execute_claimed_once P r c e : does P (execute_claimed le r c e)
  (fun _ h _ => once (fun p t => plan_of_event r c e p /\ in_order [saw (planned r c e p)] t) h).
Proof.
  apply once_then; [|intros [st reason]; apply avoids_report].
  apply once_catch; [apply run_claimed_once|]. intros x. by destruct (is_reported x).
Qed.

Lemma claim_once P r e : does P (claim_and_execute le race r e)
  (fun _ h _ => once (fun p t => plan_of_event (re_rule r) (re_consent r) e p /\ exists claim_at,
    in_order [saw (fun s => am_now s = claim_at); did (claims_event (re_rule r) e claim_at);
              saw (planned (re_rule r) (re_consent r) e p)] t) h).
Proof.
  eapply once_bind; [apply step_now|]. intros t l s [-> ->]. cbn beta.
  eapply once_bind; [apply step_rules|]. intros claimed l s' (s1 & s2 & -> & Hc). cbn beta.
  destruct claimed; [|apply does_once; case_bool_decide; apply avoids_report].
  eapply does_conseq; [apply (execute_claimed_once (fun _ => True))|done|]. intros x h s3 Hh.
  eapply once_mono; [|exact Hh]. intros p t [Hr Ht]. split; [done|]. exists (am_now s).
  apply in_order_acted; [done|]. apply in_order_later, in_order_acted; done.
Qed.

Lemma fire_once P r e : does P (fire le race r e)
  (fun _ h _ => let event := normalize_time_event (re_rule r) e in
    once (fun p t => plan_of_event (re_rule r) (re_consent r) event p /\ exists claim_at,
      in_order [saw (fits (re_rule r) (re_consent r) event); saw (fun s => am_now s = claim_at);
                did (claims_event (re_rule r) event claim_at);
                saw (planned (re_rule r) (re_consent r) event p)] t) h).
Proof.
  eapply does_look. intros s0 _. cbn zeta.
  destruct (assert_template_contract (am_service s0) (re_rule r)) as [[]|x] eqn:Ec.
  2: { eapply does_conseq; [apply (step_avoids (fun _ => True)); destruct x; by try apply avoids_report|done|].
       intros a h s [Hh _]. by left. }
  set (event := normalize_time_event (re_rule r) e).
  destruct (conditions_match le s0 (ar_conditions (re_rule r)) event) eqn:Em; simpl negb; cbn iota.
  2: { eapply does_conseq; [apply (step_avoids (fun _ => True)), avoids_report|done|]. intros a h s [Hh _]. by left. }
  destruct (consent_is_current (am_now s0) (re_rule r) (re_consent r)) eqn:Eu; simpl negb; cbn iota.
  2: { eapply does_conseq; [apply (step_avoids (fun _ => True)), avoids_report|done|]. intros a h s [Hh _]. by left. }
  eapply does_conseq; [apply (claim_once (fun _ => True))|done|]. intros x h s Hh.
  apply (once_pre _ [Acted s0 s0]); [done|]. eapply once_mono; [|exact Hh].
  intros p t (Hr & claim_at & Ht). split; [done|]. exists claim_at. by apply in_order_acted.
Qed.

Lemma consider_once P e r : does P (consider le race e r) (fun _ h _ => once (gates e r) h).
Proof.
  unfold consider. destruct (_ && _); [by apply does_once|].
  case_bool_decide as Hen; simpl negb; cbn iota; [|by apply does_once].
  eapply once_bind; [apply step_now|]. intros t l s [-> ->]. cbn beta.
  destruct (event_stale le (am_now s) e) eqn:Es; [apply does_once, avoids_bind; [apply avoids_report|done]|].
  destruct (rule_over (am_now s) (re_rule r)) eqn:Eo.
  { apply does_once, avoids_bind; [apply avoids_rules|]. intros _. apply avoids_bind; [apply avoids_report|done]. }
  eapply once_bind; [apply step_inspect|]. intros matched l s' [-> Hm]. cbn beta.
  destruct matched; [|by apply does_once]. apply once_then; [|done].
  eapply does_conseq; [apply (fire_once (fun _ => True))|done|]. intros x h s2 Hh. simpl in Hh.
  eapply once_mono; [|exact Hh]. intros p t (Hr & claim_at & Ht). split_and!; [done..|]. exists claim_at.
  apply in_order_acted; [done|]. by apply in_order_later.
Qed.

(** ** Whole histories *)

(** [G] of the history before every run, and of what came since the run
    before. *)
Definition gated (G : happened -> Plan -> happened -> Prop) (h : happened) : Prop :=
  forall h1 p a h2, h = h1 ++ Asked (ask_run p) a :: h2 ->
  exists h0 tail, h1 = h0 ++ tail /\ runs tail = [] /\ G h1 p tail.

Lemma runs_run p a h : runs (Asked (ask_run p) a :: h) = (p, a) :: runs h.
Proof. done. Qed.

Lemma runs_nothing_gated G h : runs h = [] -> gated G h.
Proof. intros Hh h1 p a h2 ->. rewrite runs_app, runs_run in Hh. by destruct (runs h1). Qed.

Lemma gated_pre (G : happened -> Plan -> happened -> Prop) l h :
  runs l = [] -> gated (fun h1 => G (l ++ h1)) h -> gated G (l ++ h).
Proof.
  intros Hl Hg h1 p a h2 [(k & -> & Hk)|(k & -> & Hk)]%app_eq_inv.
  - destruct k as [|x k].
    + destruct (Hg [] p a h2 (eq_sym Hk)) as (h0 & tail & Hn & Ht & HG). symmetry in Hn.
      apply app_nil in Hn as [-> ->]. rewrite !app_nil_r in HG. exists h1, []. by rewrite app_nil_r.
    + injection Hk as <- ->. rewrite runs_app, runs_run in Hl. by destruct (runs h1).
  - destruct (Hg k p a h2 Hk) as (h0 & tail & -> & Ht & HG). exists (l ++ h0), tail. by rewrite app_assoc in *.
Qed.

Lemma gated_app (G : happened -> Plan -> happened -> Prop) l h :
  (forall k h1 p t, G h1 p t -> G (k ++ h1) p t) -> gated G l -> gated G h -> gated G (l ++ h).
Proof.
  intros HG Hl Hh h1 p a h2 [(k & -> & Hk)|(k & -> & Hk)]%app_eq_inv.
  - destruct k as [|x k].
    + destruct (Hh [] p a h2 (eq_sym Hk)) as (h0 & tail & Hn & Ht & H). symmetry in Hn.
      apply app_nil in Hn as [-> ->]. exists h1, []. rewrite app_nil_r. split_and!; [done..|].
      rewrite <- (app_nil_r h1). by apply HG.
    + injection Hk as <- ->. by apply (Hl h1 p a k).
  - destruct (Hh k p a h2 Hk) as (h0 & tail & -> & Ht & H). exists (l ++ h0), tail.
    rewrite app_assoc. split_and!; [done..|]. rewrite <- app_assoc. by apply HG.
Qed.

Lemma once_gated (G : Plan -> happened -> Prop) h : once G h -> gated (fun _ => G) h.
Proof.
  intros [Hh|(tail & p & a & rest & -> & Ht & Hr & HG)]; [by apply runs_nothing_gated|].
  intros h1 p' a' h2 [(k & -> & Hk)|(k & -> & Hk)]%app_eq_inv.
  - destruct k as [|x k].
    + apply (f_equal runs) in Hk. rewrite !runs_run in Hk. injection Hk as -> _ _. rewrite app_nil_r in *.
      by exists [], h1.
    + injection Hk as <- ->. rewrite runs_app, runs_run in Ht. by destruct (runs h1).
  - destruct k as [|x k].
    + apply (f_equal runs) in Hk. rewrite !runs_run in Hk. injection Hk as <- _ _. rewrite app_nil_r in *.
      by exists [], tail.
    + injection Hk as <- ->. rewrite runs_app, runs_run in Hr. by destruct (runs k).
Qed.

(** A loop whose rounds are gated. *)
Lemma gated_collect {A B} (f : A -> C (option B)) (G : happened -> Plan -> happened -> Prop) l :
  (forall k h1 p t, G h1 p t -> G (k ++ h1) p t) ->
  (forall x, x ∈ l -> does (fun _ => True) (f x) (fun _ h _ => gated G h)) ->
  does (fun _ => True) (coro_collect f l) (fun _ h _ => gated G h).
Proof.
  intros HG. induction l as [|x l IH]; intros Hf; [apply does_ret; intros; by apply runs_nothing_gated|].
  simpl. eapply (does_bind _ _ _ (fun _ h _ => gated G h)).
  { eapply does_conseq; [apply Hf; left|done|]. by intros [a|e] h s Hh. }
  intros y h1 s1 H1. eapply (does_bind _ _ _ (fun _ h _ => gated G (h1 ++ h))).
  - eapply does_conseq; [apply IH; intros z Hz; apply Hf; by right|done|].
    intros [a|e] h s Hh; by apply gated_app.
  - intros ys h2 s2 H2. apply does_ret. intros s ->. by rewrite app_nil_r.
Qed.

Lemma gated_map {A B} (f : A -> C B) (G : happened -> Plan -> happened -> Prop) l :
  (forall k h1 p t, G h1 p t -> G (k ++ h1) p t) ->
  (forall x, does (fun _ => True) (f x) (fun _ h _ => gated G h)) ->
  does (fun _ => True) (coro_map f l) (fun _ h _ => gated G h).
Proof.
  intros HG Hf. induction l as [|x l IH]; [apply does_ret; intros; by apply runs_nothing_gated|].
  simpl. eapply (does_bind _ _ _ (fun _ h _ => gated G h)).
  { eapply does_conseq; [apply Hf|done|]. by intros [a|e] h s Hh. }
  intros y h1 s1 H1. eapply (does_bind _ _ _ (fun _ h _ => gated G (h1 ++ h))).
  - eapply does_conseq; [apply IH|done|]. intros [a|e] h s Hh; by apply gated_app.
  - intros ys h2 s2 H2. apply does_ret. intros s ->. by rewrite app_nil_r.
Qed.

(** The rule was read from the table before. *)
Definition listed (r : AutomationRuleRecord) (h : happened) : Prop :=
  exists s s' l, Acted s s' ∈ h /\ list_rules (am_rules s) = Ok l /\ r ∈ l.

Definition fired (h1 : happened) (p : Plan) (tail : happened) : Prop :=
  exists e r, listed r h1 /\ gates e r p tail.

Lemma fired_after k h1 p t : fired h1 p t -> fired (k ++ h1) p t.
Proof.
  intros (e & r & (s & s' & l & Hs & Hl & Hr) & Hg). exists e, r. split; [|done].
  exists s, s', l. split; [|done]. apply elem_of_app. by right.
Qed.

(** A step without a run before gated ones. *)
Lemma gated_bind {A B} P (c : C A) (f : A -> C B) (M : A -> happened -> S -> Prop) G :
  does P c (fun r h s => runs h = [] /\ match r with Ok a => M a h s | Err _ => True end) ->
  (forall a l s, M a l s -> does (fun s' => s' = s) (f a) (fun _ h _ => gated (fun h1 => G (l ++ h1)) h)) ->
  does P (c ≫= f) (fun _ h _ => gated G h).
Proof.
  intros Hc Hf. eapply does_bind with (M := fun a h s => runs h = [] /\ M a h s).
  { eapply does_conseq; [exact Hc|done|]. intros [a|e] h s [Hh HM]; [done|by apply runs_nothing_gated]. }
  intros a l s [Hl HM]. eapply does_conseq; [by apply Hf|done|]. intros r h s' Hh. by apply gated_pre.
Qed.

Lemma gated_mono (G G' : happened -> Plan -> happened -> Prop) h :
  (forall h1 p t, G h1 p t -> G' h1 p t) -> gated G h -> gated G' h.
Proof.
  intros H Hg h1 p a h2 E. destruct (Hg h1 p a h2 E) as (h0 & tail & Ht). destruct_ands. exists h0, tail. auto.
Qed.

Lemma handle_event_gated e : does (fun _ => True) (handle_event le race e) (fun _ h _ => gated fired h).
Proof.
  eapply gated_bind; [apply step_avoids, avoids_inspect|]. intros [] l0 s0 _.
  eapply gated_bind; [apply step_rules|]. intros records l s (s1 & s2 & -> & Hl). injection Hl as Hl _.
  eapply does_conseq; [apply (gated_collect _ (fun _ p t => exists r, r ∈ records /\ gates e r p t)); [done|]|done|].
  - intros r Hr. eapply does_conseq; [apply (consider_once (fun _ => True))|done|]. intros x h s' Hh.
    apply (gated_mono (fun _ => gates e r)); [|by apply once_gated]. intros h1 p t Hg. by exists r.
  - intros x h s' Hh. eapply gated_mono; [|exact Hh]. intros h1 p t (r & Hr & Hg). exists e, r.
    split; [|done]. exists s1, s2, records. split; [|done]. set_solver.
Qed.

(** ** Events of any origin *)

Inductive automation_entry :=
  | Of_state (e : StateChangedEvent)
  | Of_time (now : option datetime)
  | Of_event (e : AutomationEvent).
Definition automate (x : automation_entry) : C (list AutomationEvaluation) :=
  match x with
  | Of_state e => handle_state_event le race e
  | Of_time now => evaluate_time le race now
  | Of_event e => handle_event le race e
  end.

Lemma gated_handle P {A} (r : result exn A) e :
  does P (of_result r ≫= fun _ => handle_event le race e) (fun _ h _ => gated fired h).
Proof.
  eapply gated_bind; [apply step_avoids, avoids_of_result|]. intros x l s _.
  eapply does_conseq; [apply handle_event_gated|done|]. intros y h s' Hh.
  eapply gated_mono; [|exact Hh]. intros h1 p t. apply fired_after.
Qed.

Lemma automate_gated x : does (fun _ => True) (automate x) (fun _ h _ => gated fired h).
Proof.
  assert (forall A (a : A), does (fun _ => True) (mret a : C A) (fun _ h _ => gated fired h)) as Hret
    by (intros A a; apply does_ret; intros; by apply runs_nothing_gated).
  destruct x as [e|now|e]; simpl; [| |apply handle_event_gated].
  - unfold handle_state_event. destruct (sce_occurred_at e); [|apply Hret].
    destruct (sce_device_id e); [|apply Hret]. destruct (sce_capability e); [|apply Hret].
    case_match; [apply Hret|]. destruct (scalar_of_json (sce_value e)); [apply gated_handle|].
    apply does_raise. intros. by apply runs_nothing_gated.
  - eapply gated_bind; [apply step_now|]. intros t l s _.
    eapply gated_bind; [apply step_rules|]. intros records l' s' _.
    eapply (does_bind _ _ _ (fun _ h _ => gated fired h)) with (Q := fun _ h _ => gated _ h).
    + eapply does_conseq; [apply (gated_map (time_event le race (default t now)) fired); [apply fired_after|]|done|].
      * intros r. unfold time_event. do 2 (case_match; try apply Hret).
        do 2 (case_match; [|apply Hret]). destruct (shows_time _ _ _) as [[]|x]; simpl; [apply gated_handle|apply Hret|].
        apply does_raise. intros. by apply runs_nothing_gated.
      * intros [y|x] h s2 Hh; [done|]. eapply gated_mono; [|exact Hh]. intros h1 p t0 Hf. by do 2 apply fired_after.
    + intros y h s2 Hh. apply does_ret. intros s3 _. rewrite app_nil_r. eapply gated_mono; [|exact Hh].
      intros h1 p t0 Hf. by do 2 apply fired_after.
Qed.

(** ** Reports *)

(** What an execution of a plan is reported as: it was blocked before it ran,
    it ran once and answered, or something failed, perhaps the run. *)
Definition run_told (id : string) (status : string) (rs : list (Plan * result exn (list ExecutionOutcome))) : Prop :=
  (status = "blocked" /\ rs = []) \/
  (exists p outcomes, rs = [(p, Ok outcomes)] /\ pl_id p = id /\
     status = fst (project_execution_summary outcomes) /\
     (status = "executed" <-> outcomes <> [] /\ Forall (fun o => eo_status o = ES_CONFIRMED_SUCCESS) outcomes)) \/
  (status = "unknown" /\ (rs = [] \/ exists p x, rs = [(p, Err x)] /\ pl_id p = id)).

(** One evaluation, of the stretch it was made in: without a plan nothing ran;
    with a plan its event was claimed from the table for its rule, and then it
    ran as reported. *)
Definition told_one (ev : AutomationEvaluation) (h : happened) : Prop :=
  match ae_plan_id ev with
  | None => runs h = [] /\ ae_status ev <> "executed"
  | Some id => exists r e claim_at h0 s s' h1, h = h0 ++ Acted s s' :: h1 /\ runs h0 = [] /\
      claims_event r e claim_at s s' /\ id = claimed_plan_id r e /\ ae_rule_id ev = ar_id r /\
      ae_event_id ev = ev_id e /\ run_told id (ae_status ev) (runs h1)
  end.

(** The evaluations, each of a stretch of its own, and nothing else ran. *)
Inductive told : list AutomationEvaluation -> happened -> Prop :=
  | told_none h : runs h = [] -> told [] h
  | told_cons ev evs h1 h2 : told_one ev h1 -> told evs h2 -> told (ev :: evs) (h1 ++ h2).

Lemma told_one_before ev k h : runs k = [] -> told_one ev h -> told_one ev (k ++ h).
Proof.
  unfold told_one. intros Hk H. destruct (ae_plan_id ev) as [id|]; [|by rewrite runs_app, Hk].
  destruct H as (r & e & t & h0 & s & s' & h1 & -> & H0 & H). exists r, e, t, (k ++ h0), s, s', h1.
  by rewrite <- app_assoc, runs_app, Hk, H0.
Qed.
Lemma told_before evs k h : runs k = [] -> told evs h -> told evs (k ++ h).
Proof.
  intros Hk [h' Hh|ev evs' h1 h2 H1 H2]; [constructor; by rewrite runs_app, Hk|].
  rewrite app_assoc. constructor; [by apply told_one_before|done].
Qed.
Lemma told_app evs1 h1 evs2 h2 : told evs1 h1 -> told evs2 h2 -> told (evs1 ++ evs2) (h1 ++ h2).
Proof.
  intros H1 H2. induction H1 as [h Hh|ev evs k1 k2 Hk _ IH]; simpl; [by apply told_before|].
  rewrite <- app_assoc. by constructor.
Qed.
Lemma told_single ev h : told_one ev h -> told [ev] h.
Proof. intros H. rewrite <- (app_nil_r h). by repeat constructor. Qed.

Lemma report_does P r e st reason id : does P (report r e st reason id)
  (fun res h _ => runs h = [] /\ match res with Ok ev => ae_status ev = st /\ ae_plan_id ev = id /\
     ae_rule_id ev = ar_id r /\ ae_event_id ev = ev_id e | Err _ => True end).
Proof.
  eapply (does_bind _ _ _ (fun _ h _ => runs h = [])).
  { eapply does_conseq; [apply step_now|done|]. intros [t|x] h s [Hh _]; [done|by split]. }
  intros t l s Hl. cbn zeta. destruct (is_empty _); simpl.
  - apply does_raise. intros s' _. by rewrite runs_app, Hl.
  - apply does_ret. intros s' _. by rewrite runs_app, Hl.
Qed.

Lemma claimed_plan_identity s now r c e p : claimed_plan s now r c e = Ok p -> pl_id p = claimed_plan_id r e.
Proof.
  unfold claimed_plan. intros (q & Hq & Hv)%result_bind_ok. apply validate_ok in Hv as (acc & Hv).
  rewrite (vd_id _ _ _ _ _ Hv). unfold create_plan in Hq. ok_inv. by subst.
Qed.

(** What [run_claimed] answers, given the runs it made. *)
Definition claimed_result (id : string) (res : result exn (string * string))
    (rs : list (Plan * result exn (list ExecutionOutcome))) : Prop :=
  match res with
  | Ok x => run_told id (fst x) rs
  | Err _ => rs = [] \/ exists p x, rs = [(p, Err x)] /\ pl_id p = id
  end.

Lemma run_claimed_does P r c e :
  does P (run_claimed le r c e) (fun res h _ => claimed_result (claimed_plan_id r e) res (runs h)).
Proof.
  eapply (does_bind _ _ _ (fun p h _ => runs h = [] /\ pl_id p = claimed_plan_id r e)).
  { eapply does_conseq; [apply step_inspect|done|]. intros [p|x] h s [Hh H]; simpl; [|by left].
    destruct H as [_ H]. split; [done|]. by eapply claimed_plan_identity. }
  intros p l s [Hl Hp]. eapply (does_bind _ _ _ (fun _ h _ => runs h = [])).
  { eapply does_conseq; [apply (step_avoids (fun _ => True))|done|].
    - destruct (le_plan_repository le); [apply avoids_records|done].
    - intros [[]|x] h s' [Hh _]; [done|]. simpl. rewrite runs_app, Hl, Hh. by left. }
  intros [] l2 s2 Hl2. case_bool_decide as Hr.
  - intros h s' _. simpl. intros [outcomes|x] s3 _; simpl; eexists; (split; [done|]); simpl;
      rewrite !runs_app, Hl, Hl2; simpl; right; [left|by exists p, x].
    exists p, outcomes. split_and!; [done..|apply projection_executed].
  - apply does_ret. intros s' _. simpl. rewrite !runs_app, Hl, Hl2. by left.
Qed.

(** The report of an event that was claimed. *)
Definition told_claimed (r : AutomationRule) (e : AutomationEvent) (ev : AutomationEvaluation) (h : happened) : Prop :=
  ae_plan_id ev = Some (claimed_plan_id r e) /\ ae_rule_id ev = ar_id r /\ ae_event_id ev = ev_id e /\
  run_told (claimed_plan_id r e) (ae_status ev) (runs h).

Lemma execute_claimed_does P r c e : does P (execute_claimed le r c e)
  (fun res h _ => match res with Ok ev => told_claimed r e ev h | Err _ => True end).
Proof.
  eapply (does_bind _ _ _ (fun x h _ => run_told (claimed_plan_id r e) (fst x) (runs h))).
  - eapply (does_catch _ _ _ (fun _ h _ => runs h = [] \/
      exists p x, runs h = [(p, Err x)] /\ pl_id p = claimed_plan_id r e)).
    + eapply does_conseq; [apply run_claimed_does|done|]. by intros [x|x] h s H.
    + intros x l s Hl. destruct (is_reported x); [|by apply does_raise]. apply does_ret. intros s' _.
      rewrite app_nil_r. right. right. by split.
  - intros x l s Hx. eapply does_conseq; [apply (report_does (fun _ => True))|done|].
    intros [ev|y] h s' [Hh Hev]; [|done]. destruct Hev as (Est & Eid & Er & Ee).
    split; [done|]. split; [done|]. split; [done|]. by rewrite Est, runs_app, Hh, app_nil_r.
Qed.

(** A method whose answer is told as [f] says. *)
Definition tells {A} (f : A -> list AutomationEvaluation) (c : C A) : Prop :=
  does (fun _ => True) c (fun res h _ => match res with Ok a => told (f a) h | Err _ => True end).
Abbreviation one := (fun ev : AutomationEvaluation => [ev]).

Lemma tells_conseq P {A} f (c : C A) : tells f c ->
  does P c (fun res h _ => match res with Ok a => told (f a) h | Err _ => True end).
Proof. intros H. by eapply does_conseq. Qed.

(** After a step without a run. *)
Lemma tells_after {A B} f (c : C A) (g : A -> C B) : avoids (@asked_run) c -> (forall a, tells f (g a)) ->
  tells f (c ≫= g).
Proof.
  intros Hc Hg. eapply (does_bind _ _ _ (fun _ h _ => runs h = [])).
  { eapply does_conseq; [by apply (step_avoids (fun _ => True))|done|]. by intros [a|e] h s [Hh _]. }
  intros a l s Hl. eapply does_conseq; [apply (Hg a)|done|]. intros [b|e] h s' H; [|done]. by apply told_before.
Qed.
Lemma tells_map {A B} f g (c : C A) (k : A -> B) : tells f c -> (forall a, g (k a) = f a) ->
  tells g (c ≫= fun a => mret (k a)).
Proof.
  intros Hc Hk. eapply (does_bind _ _ _ (fun a h _ => told (f a) h)).
  { eapply does_conseq; [exact Hc|done|]. by intros [a|e] h s H. }
  intros a l s Hl. apply does_ret. intros s' _. by rewrite app_nil_r, Hk.
Qed.
Lemma tells_report r e st reason : st <> "executed" -> tells one (report r e st reason None).
Proof.
  intros H. eapply does_conseq; [apply (report_does (fun _ => True))|done|]. intros [ev|x] h s [Hh Hev]; [|done].
  destruct Hev as (<- & Hid & _). apply told_single. unfold told_one. by rewrite Hid.
Qed.
Lemma tells_nothing {A} f (a : A) : f a = [] -> tells f (mret a).
Proof. intros H. apply does_ret. intros s _. rewrite H. by constructor. Qed.

Lemma claim_tells r e : tells one (claim_and_execute le race r e).
Proof.
  unfold claim_and_execute. apply tells_after; [apply avoids_inspect|]. intros claim_at.
  eapply does_bind with (M := fun claimed h _ => runs h = [] /\ exists s s1,
    h = [Asked ask_rules (Ok tt); Acted s s1] /\
    claim_event race (ar_id (re_rule r)) (ev_id e) claim_at None (am_rules s) = (Ok claimed, am_rules s1)).
  { eapply (does_conseq (fun _ => True)); [apply step_rules|done|]. by intros [b|x] h s [Hh H]. }
  intros [] l s [Hl (s1 & s2 & -> & Hc)].
  - eapply does_conseq; [apply (execute_claimed_does (fun _ => True))|done|]. intros [ev|x] h s' H; [|done].
    destruct H as (Hid & Hr & He & Ht). apply told_single. unfold told_one. rewrite Hid.
    by exists (re_rule r), e, claim_at, [Asked ask_rules (Ok tt)], s1, s2, h.
  - eapply does_conseq with (P := fun _ => True); [case_bool_decide; by apply (tells_report (re_rule r) e)|done|].
    intros [ev|x] h s' H; [|done]. by apply told_before.
Qed.

Lemma consider_tells e r : tells option_list (consider le race e r).
Proof.
  unfold consider. destruct (_ && _); [by apply tells_nothing|].
  case_bool_decide; simpl negb; cbn iota; [|by apply tells_nothing].
  apply tells_after; [apply avoids_inspect|]. intros t.
  destruct (event_stale le t e); [by eapply tells_map; [apply tells_report|]|].
  destruct (rule_over t (re_rule r)).
  { apply tells_after; [apply avoids_rules|]. intros _. by eapply tells_map; [apply tells_report|]. }
  apply tells_after; [apply avoids_inspect|]. intros []; [|by apply tells_nothing].
  eapply (tells_map one); [|done]. unfold fire. apply tells_after; [done|]. intros s.
  destruct (assert_template_contract _ _) as [[]|[]]; try (by apply does_raise); [|by apply tells_report].
  cbn zeta. destruct (negb _); [by apply tells_report|]. destruct (negb _); [by apply tells_report|].
  apply claim_tells.
Qed.

Lemma tells_collect {A} (f : A -> C (option AutomationEvaluation)) l : (forall x, tells option_list (f x)) ->
  tells id (coro_collect f l).
Proof.
  intros Hf. induction l as [|x l IH]; [by apply tells_nothing|].
  simpl. eapply (does_bind _ _ _ (fun y h _ => told (option_list y) h)).
  { eapply does_conseq; [apply Hf|done|]. by intros [a|e] h s Hh. }
  intros y h1 s1 H1. eapply (does_bind _ _ _ (fun ys h _ => told ys h)).
  - eapply does_conseq; [apply IH|done|]. by intros [a|e] h s Hh.
  - intros ys h2 s2 H2. apply does_ret. intros s ->. rewrite app_nil_r. by apply told_app.
Qed.

Lemma tells_maps {A} (f : A -> C (list AutomationEvaluation)) l : (forall x, tells id (f x)) ->
  tells (@List.concat _) (coro_map f l).
Proof.
  intros Hf. induction l as [|x l IH]; [by apply tells_nothing|].
  simpl. eapply (does_bind _ _ _ (fun y h _ => told y h)).
  { eapply does_conseq; [apply Hf|done|]. by intros [a|e] h s Hh. }
  intros y h1 s1 H1. eapply (does_bind _ _ _ (fun ys h _ => told (List.concat ys) h)).
  - eapply does_conseq; [apply IH|done|]. by intros [a|e] h s Hh.
  - intros ys h2 s2 H2. apply does_ret. intros s ->. rewrite app_nil_r. by apply told_app.
Qed.

Lemma handle_event_tells e : tells id (handle_event le race e).
Proof.
  apply tells_after; [apply avoids_inspect|]. intros [].
  apply tells_after; [apply avoids_rules|]. intros records. apply tells_collect. intros r. apply consider_tells.
Qed.

Lemma automate_tells x : tells id (automate x).
Proof.
  assert (forall A (r : result exn A) e, tells id (of_result r ≫= fun _ => handle_event le race e)) as Hhandle.
  { intros A r e. apply tells_after; [apply avoids_of_result|]. intros _. apply handle_event_tells. }
  destruct x as [e|now|e]; simpl; [| |apply handle_event_tells].
  - unfold handle_state_event. do 3 (case_match; [|by apply tells_nothing]).
    case_match; [by apply tells_nothing|]. destruct (scalar_of_json (sce_value e)); [apply Hhandle|by apply does_raise].
  - apply tells_after; [apply avoids_inspect|]. intros t. apply tells_after; [apply avoids_rules|].
    intros records. apply (tells_map (@List.concat _) id); [|done]. apply tells_maps. intros r. unfold time_event.
    do 2 (case_match; try by apply tells_nothing). do 2 (case_match; [|by apply tells_nothing]).
    destruct (shows_time _ _ _) as [[]|x]; simpl; [apply Hhandle|by apply tells_nothing|by apply does_raise].
Qed.

(** C33: Whatever is answered and whatever others do meanwhile, local automation
    asks the executor for a plan only through its gates, for events of any
    origin.  The rule was read as enabled from the table and its trigger
    matches; the plan has the commands of the rule in their order, for the
    consenting principal, each under the key of the household, the rule, its
    digest, the event, the command and its place, and is READY.  Since the run
    before, in this order: the event was neither ahead of the clock nor stale
    and the rule not over; its contract was the deployment's, its conditions
    held and its consent was alive and matched it; the event was claimed from
    the table; and validation as things were made the plan. *)
Theorem automation_execution_gated x o n s h1 p a h2 :
  history_of o (automate x) n s = h1 ++ Asked (ask_run p) a :: h2 ->
  exists e r h0 tail, h1 = h0 ++ tail /\ runs tail = [] /\ listed r h1 /\ gates e r p tail.
Proof.
  intros H. pose proof (does_sound (automate x) (fun _ h _ => gated fired h) o n s) as Hg. simpl in Hg.
  destruct (Hg (does_conseq _ _ _ _ _ (automate_gated x) (fun _ _ => I) (fun _ _ _ H => H)) h1 p a h2 H)
    as (h0 & tail & -> & Ht & e & r & Hl & Hr).
  by exists e, r, h0, tail.
Qed.

(** C34: What local automation reports is what happened: if it answers, its
    history falls into a stretch for each evaluation, in their order, and
    whatever ran is in one of them.  An evaluation without a plan ran nothing
    and does not say executed.  One with a plan names the plan of its rule and
    event; the event was claimed for the rule from the table before anything of
    its stretch ran; and then the plan was blocked and ran nothing, or ran once
    and is reported with the status its outcomes have (executed exactly if
    there are outcomes and all are confirmed successes), or is reported as
    unknown since something failed, at most one run that failed. *)
Theorem automation_report_truthful x o n s evs :
  fst (fst (run o (automate x) n s)) = Ok evs -> told evs (history_of o (automate x) n s).
Proof.
  intros H. pose proof (does_sound (automate x)
    (fun res h _ => match res with Ok a => told (id a) h | Err _ => True end) o n s
    (tells_conseq _ _ _ (automate_tells x))) as Ht.
  by rewrite H in Ht.
Qed.
End Gates.

(** ** A lamp at a motion sensor

    The executor is the oracle: it confirms every command, and [during] is what
    others do while it works. *)

(** A rendering of JSON and a hash the kernel can compute. *)
Fixpoint show_json (j : json) : string :=
  match j with
  | JNull => "null"
  | JBool b => if b then "true" else "false"
  | JNum (NInt z) => pretty z
  | JNum (NFloat f) => "float"
  | JStr s => "<" +:+ s +:+ ">"
  | JList l => "[" +:+ String.concat "," (map show_json l) +:+ "]"
  | JObj l => "{" +:+ String.concat "," (map (fun '(k, v) => k +:+ ":" +:+ show_json v) l) +:+ "}"
  end.
Fixpoint hex_digits (n : nat) (z : Z) : string :=
  match n with
  | O => ""
  | S n => let d := Z.land z 15 in
      String (ascii_of_nat (Z.to_nat (if d <? 10 then 48 + d else 87 + d))) (hex_digits n (Z.shiftr z 4))
  end.
Definition toy_hash (s : string) : string :=
  hex_digits 64 (fold_left (fun h c => Z.land (h * 257 + Z.of_nat (nat_of_ascii c)) (Z.ones 256))
                   (String.list_ascii_of_string s) 1).
Definition motion_canonical : Canonical := Build_Canonical show_json show_json toy_hash pretty (fun t _ => pretty t).
Definition motion_rendering : Rendering :=
  {| json_instant t := pretty t; json_time t := pretty t; render_message _ := "message" |}.
Definition motion_interpreter : Interpreter :=
  {| fromisoformat _ := None; zone_info := some_zones; set_order l := l; json_str _ := "json";
     token_urlsafe n := "token" |}.
Definition motion_texts : EventTexts :=
  {| minute_text t := pretty (t / minutes 1); datetime_text t _ := pretty t; exn_str _ := "error" |}.
#[local] Existing Instance motion_canonical.
#[local] Existing Instance motion_rendering.
#[local] Existing Instance motion_interpreter.
#[local] Existing Instance motion_texts.
Definition motion_records : PlanRecordPort plans := plans_port (Some "home-1").
#[local] Existing Instance motion_records.
Abbreviation Motion := (Automating (R := plans)).

Definition on_motion : AutomationTrigger :=
  mkTrigger T_STATE_CHANGED (Some "hall") (Some "motion") (Some (SBool true)) None None.
Definition lamp_rule (id command : string) (trigger : AutomationTrigger) : AutomationRule :=
  let r := mkAutomationRule default_authority "v2" id "lamp" trigger
    [mkCondition "desk" "power" false (Some (SBool true))] (example_draft command) "lamp at the desk" 0
    None AR_ENABLED None in
  match new_rule r with Ok r => r | Err _ => r end.
Definition lamp_consent (approval : string) (r : AutomationRule) : AutomationConsent :=
  mkConsent default_authority approval "alice" (ar_scope r) (automation_rule_digest r) 0 (hours 1).
Definition lamp_row (r : AutomationRule) : automation_row :=
  mkAutomationRow r (lamp_consent "a1" r) AR_ENABLED None None.

Definition motion_home (now : datetime) (rules : list AutomationRule) : Motion :=
  mkAutomating now (map (fun r => (ar_id r, lamp_row r)) rules) ∅ example_service.
Definition lamp_engine : LocalAutomationEngine := mkEngine true true (minutes 5).
Definition calm : automation_rules -> automation_rules := fun t => t.

Definition motion_event (seq : Z) : StateChangedEvent :=
  mkStateChangedEvent (Some "zigbee") (Some (seconds 59)) None (Some "sensor") (Some "hall") (Some "motion")
    (JBool true) (Some true) (Some (mkSourceCursor "zigbee" "events" "e1" seq false)).

Definition motion_outcomes (p : Plan) : list ExecutionOutcome :=
  map (fun c => mkExecutionOutcome default_authority (pl_id p) (cmd_id c) "attempt-1" None
                  ES_CONFIRMED_SUCCESS None None None None 0) (pl_commands p).
Definition motion_oracle (during : Motion -> Motion) : oracle Motion automation_call :=
  fun n B q s =>
    match q in automation_call B return result exn B * Motion with
    | ask_rules => (Ok tt, s)
    | ask_run p =>
        (Ok (motion_outcomes p), during (s <| am_records := <[pl_id p := mkPlanRow PS_COMPLETED
           (p <| pl_status := PS_COMPLETED |> <| pl_execution := Some (motion_outcomes p) |>)]> (am_records s) |>))
    end.
Definition motion_run {A} (during : Motion -> Motion) (c : coro Motion automation_call A) (s : Motion)
    : result exn A * Motion :=
  let '(r, _, s') := run (motion_oracle during) c 0 s in (r, s').
Definition statuses (r : result exn (list AutomationEvaluation)) : list (string * string * string) :=
  match r with Ok evs => map (fun ev => (ae_rule_id ev, ae_status ev, ae_reason ev)) evs | Err _ => [] end.
Definition sense (seq : Z) : coro Motion automation_call (list AutomationEvaluation) :=
  handle_state_event lamp_engine calm (motion_event seq).

Definition at_home : Motion := motion_home (minutes 1) [lamp_rule "r1" "turn_on" on_motion].

(** The lamp goes on once for an event. *)
Example motion_fires :
  let '(r, s) := motion_run id (sense 7) at_home in
  statuses r = [("r1", "executed", "plan_executed")] /\
  statuses (fst (motion_run id (sense 7) s)) = [("r1", "duplicate", "duplicate_event")].
Proof. vm_compute. done. Qed.

(** ** Edges *)

(** The table remembers the last event of a rule only: after another event the
    first one is claimed again.  What the executor is asked for is then up to
    the record of the plan. *)
Example event_claimed_again :
  let s1 := snd (motion_run id (sense 7) at_home) in
  let s2 := snd (motion_run id (sense 8) s1) in
  fst (claim_event calm "r1" "zigbee:events:e1:7" (minutes 2) None (am_rules s1)) = Ok false /\
  fst (claim_event calm "r1" "zigbee:events:e1:7" (minutes 2) None (am_rules s2)) = Ok true /\
  statuses (fst (motion_run id (sense 7) s2)) = [("r1", "unknown", "error")].
Proof. vm_compute. done. Qed.

(** Two rules fire on the motion.  While the plan of the first is executed, the
    second is replaced: its new version, under a fresh consent, waits for the
    motion to end.  The version that was replaced is executed all the same,
    under the approval that is no longer there. *)
Definition two_rules : Motion :=
  motion_home (minutes 1) [lamp_rule "r1" "turn_on" on_motion; lamp_rule "r2" "turn_on" on_motion].
Definition off_motion : AutomationTrigger :=
  mkTrigger T_STATE_CHANGED (Some "hall") (Some "motion") (Some (SBool false)) None None.
Definition replacement : AutomationRule := lamp_rule "r2" "turn_on" off_motion.
Definition replace_second (s : Motion) : Motion :=
  snd (motion_run id (LocalAutomation.update replacement (lamp_consent "a2" replacement)) s).
Example superseded_rule_executed :
  let '(r, s) := motion_run replace_second (sense 7) two_rules in
  statuses r = [("r1", "executed", "plan_executed"); ("r2", "executed", "plan_executed")] /\
  (tr_expected ∘ ar_trigger ∘ aw_rule <$> od_get "r2" (am_rules s)) = Some (Some (SBool false)) /\
  (co_approval_id ∘ aw_consent <$> od_get "r2" (am_rules s)) = Some "a2".
Proof. vm_compute. done. Qed.

(** A rule that is disabled meanwhile is not executed, but is reported as
    cooling down. *)
Definition disable_second (s : Motion) : Motion := snd (motion_run id (set_status "r2" AR_DISABLED) s).
Example disabled_reported_as_cooldown :
  statuses (fst (motion_run disable_second (sense 7) two_rules)) =
    [("r1", "executed", "plan_executed"); ("r2", "cooldown", "cooldown_active")].
Proof. vm_compute. done. Qed.

(** A rule for 02:30 in Madrid: on the night the clock goes back it fires
    twice, on the night the clock goes forward not at all. *)
Definition half_past_two : AutomationTrigger :=
  mkTrigger T_TIME None None None (Some (minutes 150)) (Some "Europe/Madrid").
Definition night_home (t : datetime) : Motion :=
  let r := lamp_rule "n" "turn_on" half_past_two in
  let r := r <| ar_conditions := [] |> <| ar_definition_digest := None |> in
  let r := match new_rule r with Ok r => r | Err _ => r end in
  mkAutomating t [("n", mkAutomationRow r ((lamp_consent "a1" r) <| co_expires_at := t + hours 9 |>) AR_ENABLED None None)]
    ∅ example_service.
Definition tick (t : datetime) (s : Motion) : result exn (list AutomationEvaluation) * Motion :=
  motion_run id (evaluate_time lamp_engine calm None) (s <| am_now := t |>).
Definition executed_at (t : datetime) (s : Motion) : bool :=
  bool_decide (statuses (fst (tick t s)) = [("n", "executed", "plan_executed")]).
Example fired_twice_in_fold :
  let first := seconds (1792890000 - 1800) in
  let second := seconds (1792890000 + 1800) in
  let s := night_home first in
  executed_at first s = true /\ executed_at second (snd (tick first s)) = true.
Proof. vm_compute. done. Qed.
Example skipped_in_gap :
  forallb (fun k => match shows_time "Europe/Madrid" (minutes 150) (seconds (1774742400 + 60 * Z.of_nat k)) with
                    | Ok b => negb b | Err _ => false end) (seq 0 240) = true.
Proof. vm_compute. done. Qed.

(** ** Witnesses *)

Definition motion_entry : coro Motion automation_call (list AutomationEvaluation) :=
  automate lamp_engine calm (Of_state (motion_event 7)).
Definition motion_sensed : list (happening Motion automation_call) :=
  history_of (motion_oracle id) motion_entry 0 at_home.
Definition motion_plan : Plan := List.hd (example_draft "") (map fst (runs motion_sensed)).
Definition ok_or {A} (a : A) (r : result exn A) : A := match r with Ok b => b | Err _ => a end.
Definition motion_reports : list AutomationEvaluation :=
  ok_or [] (fst (fst (run (motion_oracle id) motion_entry 0 at_home))).

Lemma automation_execution_gated_witness :
  exists e r h0 tail, take 12 motion_sensed = h0 ++ tail /\ runs tail = [] /\
    listed r (take 12 motion_sensed) /\ gates lamp_engine calm e r motion_plan tail.
Proof.
  assert (history_of (motion_oracle id) (automate lamp_engine calm (Of_state (motion_event 7))) 0 at_home =
    take 12 motion_sensed ++ Asked (ask_run motion_plan) (Ok (motion_outcomes motion_plan)) :: drop 13 motion_sensed)
    as H by (vm_compute; reflexivity).
  exact (automation_execution_gated lamp_engine calm _ _ _ _ _ _ _ _ H).
Defined.

Lemma automation_report_truthful_witness :
  map ae_status motion_reports = ["executed"] /\ told calm motion_reports motion_sensed.
Proof.
  assert (fst (fst (run (motion_oracle id) (automate lamp_engine calm (Of_state (motion_event 7))) 0 at_home)) =
    Ok motion_reports) as H by (vm_compute; reflexivity).
  split; [vm_compute; reflexivity|]. exact (automation_report_truthful lamp_engine calm _ _ _ _ _ H).
Defined.
