(* ===== verification/Preferences.v ===== *)
(** * Household preferences (domain/household_preferences.py)

    The contracts of the preferences of a household and their validators.  A
    UUID is its canonical text.  The variants of [Preference] are told apart by
    the constructor of the value, which fixes the key and the unit. *)

From S2P Require Import Prelude.
From S2P Require Import Values.
From S2P Require Import Models.
From S2P Require Import Digests.
From S2P Require Import ApprovalStore.
From S2P Require Import PlanService.
From S2P Require Import Projection.
From S2P Require Import Zones.
From S2P Require Import Scheduler.
From S2P Require Import Automation.

(** ** Keys, targets and provenance *)

Inductive PreferenceKey := K_RUN_WINDOW | K_TEMPERATURE | K_MINIMUM_SOC | K_DEVICE_USE.
#[global] Instance PreferenceKey_eq_dec : EqDecision PreferenceKey.
Proof. solve_decision. Defined.
Definition PreferenceKey_value (k : PreferenceKey) : string :=
  match k with
  | K_RUN_WINDOW => "schedule.preferred_run_window" | K_TEMPERATURE => "comfort.temperature_target"
  | K_MINIMUM_SOC => "energy.minimum_soc" | K_DEVICE_USE => "energy.device_use_allowed"
  end.

Inductive Operation := OP_SET | OP_DELETE | OP_RESTORE | OP_ERASE.
#[global] Instance Operation_eq_dec : EqDecision Operation.
Proof. solve_decision. Defined.
Definition Operation_value (op : Operation) : string :=
  match op with OP_SET => "set" | OP_DELETE => "delete" | OP_RESTORE => "restore" | OP_ERASE => "erase" end.

Record PreferenceVersion := mkPreferenceVersion { pver_generation : string; pver_revision : Z }.
#[global] Instance PreferenceVersion_eta : Eta PreferenceVersion := fun r =>
  mkPreferenceVersion (pver_generation r) (pver_revision r).
#[global] Instance PreferenceVersion_eq_dec : EqDecision PreferenceVersion.
Proof. solve_decision. Defined.

Inductive TargetKind := TK_DEVICE | TK_AREA.
#[global] Instance TargetKind_eq_dec : EqDecision TargetKind.
Proof. solve_decision. Defined.
Definition TargetKind_value (k : TargetKind) : string := match k with TK_DEVICE => "device" | TK_AREA => "area" end.

Record PreferenceTarget := mkPreferenceTarget {
  pt_kind : TargetKind;
  pt_id : option string;
  pt_alias : option string
}.
#[global] Instance PreferenceTarget_eq_dec : EqDecision PreferenceTarget.
Proof. solve_decision. Defined.

Definition long_opt (n : nat) (o : option string) : bool :=
  match o with Some s => long_text n s | None => false end.

(** [exactly_one_identity] *)
Definition validate_target (t : PreferenceTarget) : result exn unit :=
  raise_if (long_opt 200 (pt_id t) || long_opt 100 (pt_alias t)) (ValueError "invalid preference target") ≫= fun _ =>
  raise_if (Bool.eqb (opt_bool (pt_id t)) (opt_bool (pt_alias t)))
    (ValueError "target requires exactly one id or alias").

Inductive SourceKind := SK_USER_REQUEST | SK_MANUAL | SK_IMPORT.
Definition SourceKind_value (k : SourceKind) : string :=
  match k with SK_USER_REQUEST => "user_request" | SK_MANUAL => "manual" | SK_IMPORT => "import" end.

Record PreferenceProvenanceInput := mkProvenanceInput {
  pi_source_kind : SourceKind;
  pi_source_ref : option string
}.

(** [^[A-Za-z0-9._:-]+$] *)
Definition is_token_char (c : ascii) : bool :=
  let n := nat_of_ascii c in
  (Nat.leb 48 n && Nat.leb n 58) || (Nat.leb 65 n && Nat.leb n 90) || (Nat.leb 97 n && Nat.leb n 122)
  || Nat.eqb n 45 || Nat.eqb n 46 || Nat.eqb n 95.
Definition token_text (s : string) : bool :=
  negb (long_text 128 s) && forallb is_token_char (String.list_ascii_of_string s).

Definition validate_provenance (p : PreferenceProvenanceInput) : result exn unit :=
  raise_if (match pi_source_ref p with Some s => negb (token_text s) | None => false end)
    (ValueError "invalid source_ref").

Record PreferenceProvenance := mkProvenance {
  pp_input : PreferenceProvenanceInput;
  pp_updated_by : string;
  pp_recorded_at : datetime
}.

(** ** Validity *)

(** A [datetime] as it is given: its instant and its offset. *)
Record given_time := mkGiven { gt_instant : datetime; gt_offset : timedelta }.

(** After validation the instants are in UTC. *)
Record PreferenceValidity := mkValidity {
  vl_valid_from : datetime;
  vl_valid_until : option datetime;
  vl_timezone : string
}.

(** Given with another offset than that of UTC it is the clock of the zone. *)
Definition check_occurrence (z : Zone) (g : given_time) : result exn unit :=
  if gt_offset g =? 0 then Ok tt
  else
    local ← to_zone z (gt_instant g);
    raise_if (negb (lt_wall local - gt_instant g =? gt_offset g) ||
              negb (lt_wall local =? gt_instant g + gt_offset g))
      (ValueError "datetime does not match timezone/offset").

(** [validate_instants] *)
Definition new_validity `{PY : Interpreter} (from : given_time) (until : option given_time) (timezone : string)
    : result exn PreferenceValidity :=
  raise_if (long_text 100 timezone) (ValueError "invalid timezone") ≫= fun _ =>
  z ← match zone_info timezone with
      | Err KeyError | Err (ValueError _) => Err (ValueError "timezone must be an IANA zone")
      | r => r
      end;
  check_occurrence z from ≫= fun _ =>
  (match until with Some u => check_occurrence z u | None => Ok tt end) ≫= fun _ =>
  raise_if (match until with Some u => gt_instant u <=? gt_instant from | None => false end)
    (ValueError "valid_until must be after valid_from") ≫= fun _ =>
  Ok (mkValidity (gt_instant from) (gt_instant <$> until) timezone).

(** ** Values *)

Record RunWindow := mkRunWindow {
  rw_weekdays : list Z;
  rw_start : string;
  rw_end : string;
  rw_overnight : bool
}.

Definition is_digit (lo hi : nat) (c : ascii) : bool :=
  let n := nat_of_ascii c in Nat.leb (48 + lo) n && Nat.leb n (48 + hi).
(** [^(?:[01][0-9]|2[0-3]):[0-5][0-9]$] *)
Definition clock_text (s : string) : bool :=
  match String.list_ascii_of_string s with
  | [h1; h2; c; m1; m2] =>
      ((is_digit 0 1 h1 && is_digit 0 9 h2) || (is_digit 2 2 h1 && is_digit 0 3 h2)) &&
      Ascii.eqb c ":"%char && is_digit 0 5 m1 && is_digit 0 9 m2
  | _ => false
  end.

(** [coherent_window] *)
Definition validate_run_window (w : RunWindow) : result exn unit :=
  raise_if (bool_decide (rw_weekdays w = []) || Nat.ltb 7 (List.length (rw_weekdays w)) ||
            existsb (fun d => (d <? 1) || (7 <? d)) (rw_weekdays w) ||
            negb (clock_text (rw_start w)) || negb (clock_text (rw_end w)))
    (ValueError "invalid run window") ≫= fun _ =>
  raise_if (negb (bool_decide (NoDup (rw_weekdays w)))) (ValueError "weekdays must be unique") ≫= fun _ =>
  raise_if (String.eqb (rw_start w) (rw_end w) ||
            negb (Bool.eqb (rw_overnight w) (String.ltb (rw_end w) (rw_start w))))
    (ValueError "overnight must describe the explicit window").

Inductive preference_value :=
  | V_window (w : RunWindow)
  | V_temperature (n : num)
  | V_soc (percent : Z)
  | V_use (allowed : bool).

Record Preference := mkPreference {
  pf_validity : PreferenceValidity;
  pf_target : PreferenceTarget;
  pf_provenance : PreferenceProvenanceInput;
  pf_value : preference_value
}.
#[global] Instance Preference_eta : Eta Preference := fun r =>
  mkPreference (pf_validity r) (pf_target r) (pf_provenance r) (pf_value r).

Definition pf_key (p : Preference) : PreferenceKey :=
  match pf_value p with
  | V_window _ => K_RUN_WINDOW | V_temperature _ => K_TEMPERATURE
  | V_soc _ => K_MINIMUM_SOC | V_use _ => K_DEVICE_USE
  end.
Definition key_unit (k : PreferenceKey) : string :=
  match k with
  | K_RUN_WINDOW => "local_time" | K_TEMPERATURE => "degC" | K_MINIMUM_SOC => "percent"
  | K_DEVICE_USE => "dimensionless"
  end.

Definition validate_preference_value (v : preference_value) : result exn unit :=
  match v with
  | V_window w => validate_run_window w
  | V_temperature n => raise_if (negb (num_le (NInt 5) n && num_le n (NInt 35))) (ValueError "invalid temperature")
  | V_soc z => raise_if ((z <? 0) || (100 <? z)) (ValueError "invalid percentage")
  | V_use _ => Ok tt
  end.

(** All but a temperature are of a device. *)
Definition validate_preference (p : Preference) : result exn unit :=
  validate_target (pf_target p) ≫= fun _ =>
  validate_provenance (pf_provenance p) ≫= fun _ =>
  validate_preference_value (pf_value p) ≫= fun _ =>
  raise_if (negb (bool_decide (pf_key p = K_TEMPERATURE)) && negb (bool_decide (pt_kind (pf_target p) = TK_DEVICE)))
    (ValueError "Input should be 'device'").

(** ** Requests *)

(** What every request that changes something names. *)
Record request_head := mkHead { rh_expected_version : PreferenceVersion; rh_idempotency_key : string }.

Inductive preference_request :=
  | PreferenceMutation (h : request_head) (p : Preference)
  | PreferenceSlotMutation (h : request_head) (preference_id : string)
  | PreferenceRestore (h : request_head) (preference_id : string) (v : PreferenceValidity)
      (source_revision : Z) (provenance : PreferenceProvenanceInput).

Definition head_of_request (rq : preference_request) : request_head :=
  match rq with
  | PreferenceMutation h _ | PreferenceSlotMutation h _ | PreferenceRestore h _ _ _ _ => h
  end.

Definition validate_request (rq : preference_request) : result exn unit :=
  let h := head_of_request rq in
  raise_if ((pver_revision (rh_expected_version h) <? 0) || negb (token_text (rh_idempotency_key h)))
    (ValueError "invalid preference request") ≫= fun _ =>
  match rq with
  | PreferenceMutation _ p => validate_preference p
  | PreferenceSlotMutation _ _ => Ok tt
  | PreferenceRestore _ _ _ revision provenance =>
      raise_if (revision <? 1) (ValueError "invalid source_revision") ≫= fun _ =>
      validate_provenance provenance
  end.

(** ** Records *)

Record HouseholdPreference := mkSlot {
  hp_preference_id : string;
  hp_key : PreferenceKey;
  hp_target : PreferenceTarget;
  hp_preference : option Preference;
  hp_provenance : option PreferenceProvenance;
  hp_version : PreferenceVersion;
  hp_updated_at : datetime;
  hp_deleted : bool;
  hp_erased : bool
}.
#[global] Instance HouseholdPreference_eta : Eta HouseholdPreference := fun r =>
  mkSlot (hp_preference_id r) (hp_key r) (hp_target r) (hp_preference r) (hp_provenance r) (hp_version r)
    (hp_updated_at r) (hp_deleted r) (hp_erased r).

Record PreferenceHistoryEntry := mkHistoryEntry {
  he_version : PreferenceVersion;
  he_operation : Operation;
  he_preference_id : string;
  he_snapshot : option HouseholdPreference;
  he_actor : string;
  he_recorded_at : datetime;
  he_source_revision : option Z
}.
#[global] Instance PreferenceHistoryEntry_eta : Eta PreferenceHistoryEntry := fun r =>
  mkHistoryEntry (he_version r) (he_operation r) (he_preference_id r) (he_snapshot r) (he_actor r)
    (he_recorded_at r) (he_source_revision r).

Record PreferenceResult := mkPreferenceResult {
  pr_version : PreferenceVersion;
  pr_operation : Operation;
  pr_preference : option HouseholdPreference;
  pr_backups_may_retain_data : bool
}.
#[global] Instance PreferenceResult_eta : Eta PreferenceResult := fun r =>
  mkPreferenceResult (pr_version r) (pr_operation r) (pr_preference r) (pr_backups_may_retain_data r).

(** ** The fingerprint of a request *)

Section Fingerprint.
Context `{CJ : Canonical} `{RN : Rendering}.

Definition version_dump (v : PreferenceVersion) : json :=
  JObj [("generation", JStr (pver_generation v)); ("revision", json_int (pver_revision v))].
Definition target_dump (t : PreferenceTarget) : json :=
  JObj [("kind", JStr (TargetKind_value (pt_kind t))); ("id", json_opt_str (pt_id t));
        ("alias", json_opt_str (pt_alias t))].
Definition provenance_dump (p : PreferenceProvenanceInput) : json :=
  JObj [("source_kind", JStr (SourceKind_value (pi_source_kind p))); ("source_ref", json_opt_str (pi_source_ref p))].
Definition validity_entries (v : PreferenceValidity) : list (string * json) :=
  [("valid_from", JStr (json_instant (vl_valid_from v)));
   ("valid_until", json_opt_str (json_instant <$> vl_valid_until v)); ("timezone", JStr (vl_timezone v))].
Definition value_dump (v : preference_value) : json :=
  match v with
  | V_window w => JObj [("weekdays", JList (map json_int (rw_weekdays w))); ("start", JStr (rw_start w));
                        ("end", JStr (rw_end w)); ("overnight", JBool (rw_overnight w))]
  | V_temperature n => JNum n
  | V_soc z => json_int z
  | V_use b => JBool b
  end.
Definition preference_dump (p : Preference) : json :=
  JObj (validity_entries (pf_validity p) ++
    [("target", target_dump (pf_target p)); ("provenance", provenance_dump (pf_provenance p));
     ("key", JStr (PreferenceKey_value (pf_key p))); ("value", value_dump (pf_value p));
     ("unit", JStr (key_unit (pf_key p)))]).

Definition head_entries (h : request_head) : list (string * json) :=
  [("schema_version", JStr "v1"); ("expected_version", version_dump (rh_expected_version h));
   ("idempotency_key", JStr (rh_idempotency_key h))].
Definition request_dump (rq : preference_request) : json :=
  JObj match rq with
  | PreferenceMutation h p => head_entries h ++ [("preference", preference_dump p)]
  | PreferenceSlotMutation h id => head_entries h ++ [("preference_id", JStr id)]
  | PreferenceRestore h id v revision provenance =>
      head_entries h ++ [("preference_id", JStr id)] ++ validity_entries v ++
      [("source_revision", json_int revision); ("provenance", provenance_dump provenance)]
  end.

(** [_fingerprint] *)
Definition request_fingerprint (op : Operation) (rq : preference_request) : string :=
  sha256_hex (Operation_value op +:+ ":" +:+ dumps_ascii (request_dump rq)).
End Fingerprint.
