(* ===== verification/PreferenceStore.v ===== *)
(** * The store of household preferences (persistence/household_preferences.py)

    [HouseholdPreferenceRepository] over the four tables, for the rows of its
    scope (one tenant and household); a payload is the value its JSON text
    decodes to, an identifier drawn at random an argument.  A mutation is one
    transaction: it compares the version the caller expects with the head,
    changes one slot, files the change in the history and keeps its answer as
    the receipt of the request.

    [mutate_ok] says what a mutation that succeeds has done; what callers may
    rely on is in PreferenceSafety.v. *)

From S2P Require Import Prelude.
From S2P Require Import Values.
From S2P Require Import Models.
From S2P Require Import Digests.
From S2P Require Import ApprovalStore.
From S2P Require Import Admission.
From S2P Require Import PlanService.
From S2P Require Import Projection.
From S2P Require Import Scheduler.
From S2P Require Import Automation.
From S2P Require Import Preferences.

(** ** The tables *)

(** The columns [key], [target_kind] and [target_id] of a slot. *)
Record slot_row := mkSlotRow {
  sl_key : PreferenceKey;
  sl_kind : TargetKind;
  sl_target_id : string;
  sl_payload : HouseholdPreference
}.
#[global] Instance slot_row_eta : Eta slot_row := fun r =>
  mkSlotRow (sl_key r) (sl_kind r) (sl_target_id r) (sl_payload r).

Record history_row := mkHistoryRow { hr_preference_id : string; hr_payload : PreferenceHistoryEntry }.

Record request_row := mkRequestRow {
  qr_fingerprint : string;
  qr_preference_id : string;
  qr_response : PreferenceResult
}.

(** Slots by id, history by revision, receipts by generation, principal and
    idempotency key. *)
Record preference_tables := mkTables {
  tb_head : option PreferenceVersion;
  tb_slots : gmap string slot_row;
  tb_history : gmap Z history_row;
  tb_requests : gmap (string * string * string) request_row
}.
#[global] Instance preference_tables_eta : Eta preference_tables := fun r =>
  mkTables (tb_head r) (tb_slots r) (tb_history r) (tb_requests r).

Definition no_preferences : preference_tables := mkTables None ∅ ∅ ∅.

(** [except BaseException: rollback] *)
Definition transaction {A} (m : stm preference_tables exn A) : stm preference_tables exn A := fun t =>
  match m t with
  | (Ok a, t') => (Ok a, t')
  | (Err e, _) => (Err e, t)
  end.

Section Repository.
Context `{CJ : Canonical} `{RN : Rendering}.

Definition bootstrap (generation : string) : stm preference_tables exn unit :=
  modify (fun t => match tb_head t with
                   | Some _ => t
                   | None => t <| tb_head := Some (mkPreferenceVersion generation 0) |>
                   end).

(** [rotate_restored_preference_generations] *)
Definition rotate_generation (generation : string) (t : preference_tables) : preference_tables :=
  t <| tb_head := (fun v => mkPreferenceVersion generation (pver_revision v)) <$> tb_head t |>.

(** ** Reading *)

Definition profile_unavailable : exn := domain_error SOURCE_UNAVAILABLE "Preference profile is unavailable".
Definition history_unavailable : exn := domain_error HISTORY_UNAVAILABLE "Preference is unavailable".

(** [_head] *)
Definition profile_head (t : preference_tables) : result exn PreferenceVersion :=
  match tb_head t with Some v => Ok v | None => Err profile_unavailable end.

Definition snapshot (t : preference_tables) : result exn (PreferenceVersion * list HouseholdPreference) :=
  head ← profile_head t;
  Ok (head, map (fun x => sl_payload (snd x))
       (isort (fun a b => String.leb (fst a) (fst b)) (map_to_list (tb_slots t)))).

(** [_conflict] *)
Definition preference_conflict (v : PreferenceVersion) : exn :=
  refusal PREFERENCE_CONFLICT "Preference version changed" [("current_version", version_dump v)].

Definition request_key (rq : preference_request) (principal : string) : string * string * string :=
  let h := head_of_request rq in
  (pver_generation (rh_expected_version h), principal, rh_idempotency_key h).

(** [_receipt] *)
Definition receipt (t : preference_tables) (rq : preference_request) (principal fingerprint : string)
    : result exn (option PreferenceResult) :=
  match tb_requests t !! request_key rq principal with
  | None => Ok None
  | Some row =>
      if String.eqb (qr_fingerprint row) fingerprint then Ok (Some (qr_response row))
      else Err (domain_error IDEMPOTENCY_CONFLICT "Idempotency key has different content")
  end.

(** The head, if the request is of its generation. *)
Definition current_head (t : preference_tables) (rq : preference_request) : result exn PreferenceVersion :=
  head ← profile_head t;
  raise_if (negb (String.eqb (pver_generation head) (pver_generation (rh_expected_version (head_of_request rq)))))
    (preference_conflict head) ≫= fun _ => Ok head.

Definition replay (rq : preference_request) (principal fingerprint : string) (t : preference_tables)
    : result exn (option PreferenceResult) :=
  current_head t rq ≫= fun _ => receipt t rq principal fingerprint.

Definition history_source (t : preference_tables) (preference_id : string) (revision : Z)
    : option PreferenceHistoryEntry :=
  match tb_history t !! revision with
  | Some row => if String.eqb (hr_preference_id row) preference_id then Some (hr_payload row) else None
  | None => None
  end.

Definition history_page (t : preference_tables) (after_revision : Z) (limit : nat) (preference_id : option string)
    : result exn (PreferenceVersion * list PreferenceHistoryEntry) :=
  head ← profile_head t;
  let rows := List.filter (fun '(revision, row) => (after_revision <? revision) &&
      match preference_id with Some id => String.eqb (hr_preference_id row) id | None => true end)
    (isort (fun a b => fst a <=? fst b) (map_to_list (tb_history t))) in
  Ok (head, map (fun x => hr_payload (snd x)) (take (Nat.min limit 101) rows)).

(** ** Writing *)

Definition same_place (k : PreferenceKey) (kind : TargetKind) (id : string) (row : slot_row) : bool :=
  bool_decide (sl_key row = k) && bool_decide (sl_kind row = kind) && String.eqb (sl_target_id row) id.
Definition slot_at (t : preference_tables) (k : PreferenceKey) (kind : TargetKind) (id : option string)
    : option HouseholdPreference :=
  match id with
  | Some id => (fun x => sl_payload (snd x)) <$>
      find_first (fun x => same_place k kind id (snd x)) (map_to_list (tb_slots t))
  | None => None
  end.

(** [_write_slot]; a row that is there keeps its columns. *)
Definition write_slot (slot : HouseholdPreference) : stm preference_tables exn unit :=
  t ← get_st;
  let id := hp_preference_id slot in
  match tb_slots t !! id, pt_id (hp_target slot) with
  | _, None => raise IntegrityError
  | Some row, Some _ => put_st (t <| tb_slots := <[id := row <| sl_payload := slot |>]> (tb_slots t) |>)
  | None, Some target_id =>
      if opt_bool (slot_at t (hp_key slot) (pt_kind (hp_target slot)) (Some target_id)) then raise IntegrityError
      else put_st (t <| tb_slots := <[id := mkSlotRow (hp_key slot) (pt_kind (hp_target slot)) target_id slot]>
                                      (tb_slots t) |>)
  end.

(** [_erase_retained] *)
Definition erase_history (preference_id : string) (row : history_row) : history_row :=
  if String.eqb (hr_preference_id row) preference_id
  then mkHistoryRow preference_id ((hr_payload row) <| he_snapshot := None |>) else row.
Definition erase_request (preference_id : string) (row : request_row) : request_row :=
  if String.eqb (qr_preference_id row) preference_id
  then mkRequestRow (qr_fingerprint row) preference_id ((qr_response row) <| pr_preference := None |>) else row.
Definition erase_retained (preference_id : string) (t : preference_tables) : preference_tables :=
  t <| tb_history := erase_history preference_id <$> tb_history t |>
    <| tb_requests := erase_request preference_id <$> tb_requests t |>.

(** [PreferenceProvenance(...)] *)
Definition new_provenance (p : PreferenceProvenanceInput) (principal : string) (now : datetime)
    : result exn PreferenceProvenance :=
  raise_if (long_text 200 principal) (ValueError "invalid updated_by") ≫= fun _ => Ok (mkProvenance p principal now).

(** The slot [set] writes. *)
Definition set_slot (t : preference_tables) (fresh : string) (p : Preference) (principal : string) (now : datetime)
    (version : PreferenceVersion) : result exn HouseholdPreference :=
  validate_target (pf_target p) ≫= fun _ =>
  provenance ← new_provenance (pf_provenance p) principal now;
  Ok (mkSlot (match slot_at t (pf_key p) (pt_kind (pf_target p)) (pt_id (pf_target p)) with
              | Some old => hp_preference_id old | None => fresh end)
        (pf_key p) (pf_target p) (Some p) (Some provenance) version now false false).

(** The preference of an entry of the history. *)
Definition retained (source : option PreferenceHistoryEntry) : option Preference :=
  match source with
  | Some entry => match he_snapshot entry with Some slot => hp_preference slot | None => None end
  | None => None
  end.

Definition restored_slot (t : preference_tables) (slot : HouseholdPreference) (id : string) (v : PreferenceValidity)
    (source_revision : Z) (provenance : PreferenceProvenanceInput) (principal : string) (now : datetime)
    : result exn HouseholdPreference :=
  match retained (history_source t id source_revision) with
  | None => Err (domain_error HISTORY_UNAVAILABLE "History is unavailable")
  | Some p =>
      filed ← new_provenance provenance principal now;
      Ok (slot <| hp_preference := Some (p <| pf_validity := v |> <| pf_provenance := provenance |>) |>
               <| hp_deleted := false |> <| hp_erased := false |> <| hp_provenance := Some filed |>)
  end.

(** The new slot of a mutation; [erase] also empties what is retained. *)
Definition next_slot (op : Operation) (rq : preference_request) (principal : string) (now : datetime)
    (fresh : string) (version : PreferenceVersion) : stm preference_tables exn HouseholdPreference :=
  t ← get_st;
  match op, rq with
  | OP_SET, PreferenceMutation _ p => lift (set_slot t fresh p principal now version)
  | OP_SET, _ | _, PreferenceMutation _ _ => raise AssertionError
  | _, PreferenceSlotMutation _ id | _, PreferenceRestore _ id _ _ _ =>
      match tb_slots t !! id with
      | None => raise history_unavailable
      | Some row =>
          let slot := sl_payload row in
          slot ← (match op, rq with
            | OP_RESTORE, PreferenceRestore _ _ v revision provenance =>
                lift (restored_slot t slot id v revision provenance principal now)
            | OP_RESTORE, _ => raise AssertionError
            | OP_ERASE, _ =>
                modify (erase_retained (hp_preference_id slot)) ≫= fun _ =>
                mret (slot <| hp_deleted := true |> <| hp_preference := None |> <| hp_provenance := None |>
                           <| hp_erased := true |>)
            | _, _ => mret (slot <| hp_deleted := true |>)
            end);
          mret (slot <| hp_version := version |> <| hp_updated_at := now |>)
      end
  end.

Definition source_of (rq : preference_request) : option Z :=
  match rq with PreferenceRestore _ _ _ revision _ => Some revision | _ => None end.

(** [INSERT INTO household_preference_history] *)
Definition file_history (op : Operation) (rq : preference_request) (principal : string) (now : datetime)
    (version : PreferenceVersion) (slot : HouseholdPreference) : stm preference_tables exn unit :=
  lift (raise_if (long_text 200 principal) (ValueError "invalid actor")) ≫= fun _ =>
  t ← get_st;
  let revision := pver_revision version in
  let entry := mkHistoryEntry version op (hp_preference_id slot)
    (if bool_decide (op = OP_ERASE) then None else Some slot) principal now (source_of rq) in
  if opt_bool (tb_history t !! revision) || (revision <=? 0) then raise IntegrityError
  else put_st (t <| tb_history := <[revision := mkHistoryRow (hp_preference_id slot) entry]> (tb_history t) |>).

Definition mutation_result (op : Operation) (version : PreferenceVersion) (slot : HouseholdPreference)
    : PreferenceResult :=
  mkPreferenceResult version op (if bool_decide (op = OP_ERASE) then None else Some slot) (bool_decide (op = OP_ERASE)).

(** [INSERT INTO household_preference_requests] *)
Definition file_request (rq : preference_request) (principal fingerprint : string) (slot : HouseholdPreference)
    (r : PreferenceResult) : stm preference_tables exn unit :=
  t ← get_st;
  let k := (pver_generation (pr_version r), principal, rh_idempotency_key (head_of_request rq)) in
  if opt_bool (tb_requests t !! k) then raise IntegrityError
  else put_st (t <| tb_requests := <[k := mkRequestRow fingerprint (hp_preference_id slot) r]> (tb_requests t) |>).

(** What a mutation does once it is its turn. *)
Definition apply_mutation (op : Operation) (rq : preference_request) (principal fingerprint : string)
    (now : datetime) (fresh : string) (head : PreferenceVersion) : stm preference_tables exn PreferenceResult :=
  let version := mkPreferenceVersion (pver_generation head)
    (pver_revision (rh_expected_version (head_of_request rq)) + 1) in
  slot ← next_slot op rq principal now fresh version;
  write_slot slot ≫= fun _ =>
  file_history op rq principal now version slot ≫= fun _ =>
  let r := mutation_result op version slot in
  file_request rq principal fingerprint slot r ≫= fun _ =>
  mret r.

(** [fingerprint or ...] *)
Definition digest_of (op : Operation) (rq : preference_request) (fingerprint : option string) : string :=
  match fingerprint with
  | Some f => if is_empty f then request_fingerprint op rq else f
  | None => request_fingerprint op rq
  end.

Definition mutate (op : Operation) (rq : preference_request) (principal : string) (now : datetime)
    (fingerprint : option string) (fresh : string) : stm preference_tables exn PreferenceResult :=
  let digest := digest_of op rq fingerprint in
  transaction (
    t ← get_st;
    head ← lift (current_head t rq);
    known ← lift (receipt t rq principal digest);
    match known with
    | Some r => mret r
    | None =>
        if pver_revision head =? pver_revision (rh_expected_version (head_of_request rq)) then
          put_st (t <| tb_head := Some (head <| pver_revision := pver_revision head + 1 |>) |>) ≫= fun _ =>
          apply_mutation op rq principal digest now fresh head
        else
          again ← lift (receipt t rq principal digest);
          match again with
          | Some r => mret r
          | None => raise (preference_conflict head)
          end
    end).

(** ** What a mutation does *)

Lemma transaction_ok {A} (m : stm preference_tables exn A) t a t' :
  transaction m t = (Ok a, t') <-> m t = (Ok a, t').
Proof. unfold transaction. by destruct (m t) as [[b|e] t1]. Qed.
Lemma transaction_err {A} (m : stm preference_tables exn A) t e t' : transaction m t = (Err e, t') -> t' = t.
Proof. unfold transaction. destruct (m t) as [[b|x] t1]; [done|]. by intros [= _ <-]. Qed.

Definition request_preference_id (rq : preference_request) : option string :=
  match rq with
  | PreferenceMutation _ _ => None
  | PreferenceSlotMutation _ id | PreferenceRestore _ id _ _ _ => Some id
  end.

(** A slot of a given operation, before its version is written. *)
Definition slot_change (op : Operation) (rq : preference_request) (principal : string) (now : datetime)
    (t : preference_tables) (old slot : HouseholdPreference) : Prop :=
  match op with
  | OP_SET => False
  | OP_DELETE => slot = old <| hp_deleted := true |>
  | OP_ERASE => slot = old <| hp_deleted := true |> <| hp_preference := None |> <| hp_provenance := None |>
                           <| hp_erased := true |>
  | OP_RESTORE => exists h id v revision provenance, rq = PreferenceRestore h id v revision provenance /\
      restored_slot t old id v revision provenance principal now = Ok slot
  end.

Definition after_erase (op : Operation) (id : string) (t : preference_tables) : preference_tables :=
  if bool_decide (op = OP_ERASE) then erase_retained id t else t.

Lemma next_slot_ok op rq principal now fresh version t slot t1 :
  next_slot op rq principal now fresh version t = (Ok slot, t1) ->
  (op = OP_SET /\ exists h p, rq = PreferenceMutation h p /\ set_slot t fresh p principal now version = Ok slot /\ t1 = t) \/
  (op <> OP_SET /\ exists id row changed, request_preference_id rq = Some id /\ tb_slots t !! id = Some row /\
     slot_change op rq principal now t (sl_payload row) changed /\
     slot = changed <| hp_version := version |> <| hp_updated_at := now |> /\
     t1 = after_erase op (hp_preference_id (sl_payload row)) t).
Proof.
  unfold next_slot. rewrite stm_bind_get. intros H. destruct (decide (op = OP_SET)) as [->|Hop].
  - left. destruct rq as [h p|h id|h id v k pr]; [|done..]. apply lift_ok in H as [Hs ->]. split; [done|].
    by exists h, p.
  - right. split; [done|]. destruct rq as [h p|h id|h id v k pr]; [by destruct op| |];
      (destruct (tb_slots t !! id) as [row|] eqn:Er; [|by destruct op]);
      destruct op; try done; apply stm_bind_ok in H as (changed & t2 & Hc & H); hnf in H; try discriminate Hc;
      injection H as <- <-; exists id, row, changed; (split; [done|]); (split; [done|]).
    4: { apply lift_ok in Hc as [Hc ->]. split; [|done]. by exists h, id, v, k, pr. }
    all: hnf in Hc; injection Hc as <- <-; done.
Qed.

Lemma write_slot_ok slot t t' u : write_slot slot t = (Ok u, t') ->
  exists target_id row, pt_id (hp_target slot) = Some target_id /\ sl_payload row = slot /\
    t' = t <| tb_slots := <[hp_preference_id slot := row]> (tb_slots t) |> /\
    ((exists old, tb_slots t !! hp_preference_id slot = Some old /\ row = old <| sl_payload := slot |>) \/
     (tb_slots t !! hp_preference_id slot = None /\
      slot_at t (hp_key slot) (pt_kind (hp_target slot)) (Some target_id) = None /\
      row = mkSlotRow (hp_key slot) (pt_kind (hp_target slot)) target_id slot)).
Proof.
  unfold write_slot. rewrite stm_bind_get. destruct (tb_slots t !! _) as [old|] eqn:Eo;
    destruct (pt_id (hp_target slot)) as [tid|]; try done.
  - intros [= <- <-]. exists tid, (old <| sl_payload := slot |>). split_and!; try done. left. by exists old.
  - destruct (slot_at _ _ _ _) eqn:Ea; simpl; [done|]. intros [= <- <-].
    exists tid, (mkSlotRow (hp_key slot) (pt_kind (hp_target slot)) tid slot). split_and!; try done. by right.
Qed.

(** The tables after the slot, the history and the receipt were written. *)
Definition filed (op : Operation) (rq : preference_request) (principal fingerprint : string) (now : datetime)
    (version : PreferenceVersion) (slot : HouseholdPreference) (row : slot_row) (t : preference_tables)
    : preference_tables :=
  mkTables (tb_head t) (<[hp_preference_id slot := row]> (tb_slots t))
    (<[pver_revision version := mkHistoryRow (hp_preference_id slot)
        (mkHistoryEntry version op (hp_preference_id slot) (if bool_decide (op = OP_ERASE) then None else Some slot)
           principal now (source_of rq))]> (tb_history t))
    (<[(pver_generation version, principal, rh_idempotency_key (head_of_request rq)) :=
        mkRequestRow fingerprint (hp_preference_id slot) (mutation_result op version slot)]> (tb_requests t)).

Definition next_version (rq : preference_request) : PreferenceVersion :=
  let v := rh_expected_version (head_of_request rq) in mkPreferenceVersion (pver_generation v) (pver_revision v + 1).

(** A mutation that took effect. *)
Record mutated (op : Operation) (rq : preference_request) (principal digest : string) (now : datetime)
    (fresh : string) (t : preference_tables) (slot : HouseholdPreference) (row : slot_row) (t' : preference_tables)
    : Prop := {
  mu_head : tb_head t = Some (rh_expected_version (head_of_request rq));
  mu_unknown : tb_requests t !! request_key rq principal = None;
  mu_principal : long_text 200 principal = false;
  mu_slot : exists t1,
    next_slot op rq principal now fresh (next_version rq) (t <| tb_head := Some (next_version rq) |>) = (Ok slot, t1) /\
    (exists u, write_slot slot t1 = (Ok u, t1 <| tb_slots := <[hp_preference_id slot := row]> (tb_slots t1) |>)) /\
    tb_history t1 !! pver_revision (next_version rq) = None /\ 0 < pver_revision (next_version rq) /\
    t' = filed op rq principal digest now (next_version rq) slot row t1
}.

Lemma current_head_ok t rq head : current_head t rq = Ok head <->
  tb_head t = Some head /\ pver_generation head = pver_generation (rh_expected_version (head_of_request rq)).
Proof.
  unfold current_head, profile_head. rewrite result_bind_ok. split.
  - intros (h & Hh & H). destruct (tb_head t) as [h'|]; [|done]. injection Hh as ->. ok_inv. subst.
    split; [done|]. match goal with H : negb _ = false |- _ => by apply negb_false_iff, String.eqb_eq in H end.
  - intros [-> Hg]. exists head. split; [done|]. by rewrite Hg, String.eqb_refl.
Qed.

Lemma receipt_ok t rq principal digest o : receipt t rq principal digest = Ok o <->
  match o with
  | None => tb_requests t !! request_key rq principal = None
  | Some r => exists row, tb_requests t !! request_key rq principal = Some row /\
                qr_fingerprint row = digest /\ qr_response row = r
  end.
Proof.
  unfold receipt. destruct (tb_requests t !! _) as [row|] eqn:E; simpl.
  - destruct (String.eqb_spec (qr_fingerprint row) digest) as [Hd|Hd].
    + split; [intros [= <-]; by exists row|]. destruct o; [|done]. by intros (? & [= <-] & _ & ->).
    + split; [done|]. destruct o; [|done]. by intros (? & [= <-] & ? & _).
  - split; [by intros [= <-]|]. destruct o; [|done]. by intros (? & ? & _).
Qed.

Lemma version_eq (v w : PreferenceVersion) : pver_generation v = pver_generation w ->
  pver_revision v = pver_revision w -> v = w.
Proof. destruct v, w. simpl. congruence. Qed.

Lemma mutate_ok op rq principal now fp fresh t r t' :
  mutate op rq principal now fp fresh t = (Ok r, t') ->
  (t' = t /\ exists head row, tb_head t = Some head /\
     pver_generation head = pver_generation (rh_expected_version (head_of_request rq)) /\
     tb_requests t !! request_key rq principal = Some row /\ qr_fingerprint row = digest_of op rq fp /\
     qr_response row = r) \/
  (exists slot row, mutated op rq principal (digest_of op rq fp) now fresh t slot row t' /\
     r = mutation_result op (next_version rq) slot).
Proof.
  unfold mutate. rewrite transaction_ok, stm_bind_get, stm_bind_lift.
  destruct (current_head t rq) as [head|] eqn:Eh; [|done]. apply current_head_ok in Eh as [Hh Hg].
  rewrite stm_bind_lift. destruct (receipt t rq principal _) as [[known|]|] eqn:Er; [| |done].
  - intros [= <- <-]. left. split; [done|]. apply receipt_ok in Er as (row & Hrow & Hf & Hr).
    by exists head, row.
  - apply receipt_ok in Er as Hun. destruct (Z.eqb_spec (pver_revision head)
      (pver_revision (rh_expected_version (head_of_request rq)))) as [Hrev|Hrev].
    2: { done. }
    intros H. right. apply stm_bind_ok in H as ([] & t0 & [= <-] & H). unfold apply_mutation in H.
    assert (head = rh_expected_version (head_of_request rq)) as -> by (by apply version_eq).
    apply stm_bind_ok in H as (slot & t1 & Hs & H). apply stm_bind_ok in H as ([] & t2 & Hw & H).
    apply stm_bind_ok in H as ([] & t3 & Hf & H). apply stm_bind_ok in H as ([] & t4 & Hq & [= <- <-]).
    pose proof (write_slot_ok _ _ _ _ Hw) as (tid & row & _ & _ & -> & _).
    unfold file_history in Hf. apply stm_bind_ok in Hf as ([] & ? & [Hp ->]%lift_ok & Hf).
    apply raise_if_ok in Hp. rewrite stm_bind_get in Hf. cbn [tb_history] in Hf.
    match type of Hf with context [tb_history ?x !! ?k] => destruct (tb_history x !! k) eqn:Ehist; simpl in Hf; [done|] end.
    destruct (_ <=? 0) eqn:E0 in Hf; [done|]. injection Hf as <-.
    unfold file_request in Hq. rewrite stm_bind_get in Hq. cbn [tb_requests] in Hq.
    destruct (tb_requests _ !! _) eqn:Ereq in Hq; simpl in Hq; [done|]. injection Hq as <-.
    exists slot, row. split; [|done]. split; try done.
    exists t1. cbn zeta. split; [exact Hs|]. split; [by exists tt|]. split; [exact Ehist|]. split; [|done].
    simpl in *. lia.
Qed.
End Repository.
