(* ===== verification/PreferenceSafety.v ===== *)
(** * What the store of household preferences keeps

    [store_ok] is the well-formedness of the four tables, which every operation
    of the repository preserves: the history has one entry per revision, each
    row fits the slot it belongs to, the slot is what the last of its entries
    filed, a receipt is the answer its entry was filed with, and nothing of an
    erased slot is retained. *)

From S2P Require Import Prelude.
From S2P Require Import Values.
From S2P Require Import Models.
From S2P Require Import Digests.
From S2P Require Import ApprovalStore.
From S2P Require Import Admission.
From S2P Require Import PlanService.
From S2P Require Import Projection.
From S2P Require Import Zones.
From S2P Require Import Scheduler.
From S2P Require Import Automation.
From S2P Require Import Preferences.
From S2P Require Import PreferenceStore.

(** ** Well-formed tables *)

(** What the columns of a slot say. *)
Definition place : Type := PreferenceKey * TargetKind * string.
Definition place_of (row : slot_row) : place := (sl_key row, sl_kind row, sl_target_id row).
Definition place_target (pl : place) : PreferenceTarget := mkPreferenceTarget pl.1.2 (Some pl.2) None.

(** A preference is for the place, and passes the validators. *)
Definition preference_fits (pl : place) (p : Preference) : Prop :=
  pf_key p = pl.1.1 /\ pf_target p = place_target pl /\ validate_preference p = Ok tt.

(** A slot without a preference is one that was erased. *)
Record fits (id : string) (pl : place) (s : HouseholdPreference) : Prop := {
  fit_id : hp_preference_id s = id;
  fit_key : hp_key s = pl.1.1;
  fit_target : hp_target s = place_target pl;
  fit_preference : forall p, hp_preference s = Some p -> preference_fits pl p;
  fit_erased : hp_erased s = negb (opt_bool (hp_preference s));
  fit_deleted : hp_erased s = true -> hp_deleted s = true
}.

(** The slot is what its last entry filed. *)
Record slot_ok (t : preference_tables) (id : string) (row : slot_row) : Prop := {
  slot_fits : fits id (place_of row) (sl_payload row);
  slot_filed : exists h, tb_history t !! pver_revision (hp_version (sl_payload row)) = Some h /\
    hr_preference_id h = id /\ he_version (hr_payload h) = hp_version (sl_payload row) /\
    (he_snapshot (hr_payload h) = Some (sl_payload row) \/
     he_snapshot (hr_payload h) = None /\ hp_erased (sl_payload row) = true)
}.

Record entry_ok (t : preference_tables) (revision : Z) (h : history_row) : Prop := {
  entry_revision : pver_revision (he_version (hr_payload h)) = revision;
  entry_id : he_preference_id (hr_payload h) = hr_preference_id h;
  entry_slot : exists row, tb_slots t !! hr_preference_id h = Some row /\
    revision <= pver_revision (hp_version (sl_payload row)) /\
    (forall s, he_snapshot (hr_payload h) = Some s -> fits (hr_preference_id h) (place_of row) s) /\
    (hp_erased (sl_payload row) = true -> retained (Some (hr_payload h)) = None)
}.

(** A receipt of a principal, under its generation. *)
Definition answers (h : PreferenceHistoryEntry) (generation principal : string) (r : PreferenceResult) : Prop :=
  pr_version r = he_version h /\ pr_operation r = he_operation h /\ pr_preference r = he_snapshot h /\
  pr_backups_may_retain_data r = bool_decide (he_operation h = OP_ERASE) /\
  pver_generation (he_version h) = generation /\ he_actor h = principal.
Definition receipt_filed (t : preference_tables) (k : string * string * string) (q : request_row) : Prop :=
  exists h, tb_history t !! pver_revision (pr_version (qr_response q)) = Some h /\
    hr_preference_id h = qr_preference_id q /\ answers (hr_payload h) k.1.1 k.1.2 (qr_response q).

Definition revision_of (t : preference_tables) : Z :=
  match tb_head t with Some v => pver_revision v | None => 0 end.

Record store_ok (t : preference_tables) : Prop := {
  st_revision : 0 <= revision_of t;
  st_history : forall revision, is_Some (tb_history t !! revision) <-> 0 < revision <= revision_of t;
  st_slots : forall id row, tb_slots t !! id = Some row -> slot_ok t id row;
  st_places : forall id id' row row', tb_slots t !! id = Some row -> tb_slots t !! id' = Some row' ->
    place_of row = place_of row' -> id = id';
  st_entries : forall revision h, tb_history t !! revision = Some h -> entry_ok t revision h;
  st_receipts : forall k q, tb_requests t !! k = Some q -> receipt_filed t k q
}.

Arguments fit_id {_ _ _} _.
Arguments fit_preference {_ _ _} _ {_} _.
Arguments slot_fits {_ _ _} _.
Arguments slot_filed {_ _ _} _.
Arguments entry_slot {_ _ _} _.
Arguments st_slots {_} _ {_ _} _.
Arguments st_entries {_} _ {_ _} _.
Arguments st_receipts {_} _ {_ _} _.
Arguments st_history {_} _ _.
Arguments st_revision {_} _.

Lemma no_preferences_ok : store_ok no_preferences.
Proof. split; try done. intros revision. split; [by intros []|unfold revision_of; simpl; lia]. Qed.

Section Preserved.
Context `{CJ : Canonical} `{RN : Rendering}.

(** ** Slots *)

Lemma slot_at_some t k kind id old : slot_at t k kind id = Some old ->
  exists tid i row, id = Some tid /\ tb_slots t !! i = Some row /\ place_of row = (k, kind, tid) /\ sl_payload row = old.
Proof.
  unfold slot_at. destruct id as [tid|]; [|done]. destruct (find_first _ _) as [[i row]|] eqn:E; [|done].
  intros [= <-]. apply find_first_some in E as [Hin Hp]. apply elem_of_map_to_list in Hin.
  unfold same_place in Hp. simpl in Hp. destruct_ands.
  match goal with H : String.eqb _ _ = true |- _ => apply String.eqb_eq in H end. exists tid, i, row. split_and!; try done. unfold place_of. congruence.
Qed.

Lemma slot_at_none t k kind tid : slot_at t k kind (Some tid) = None ->
  forall i row, tb_slots t !! i = Some row -> place_of row <> (k, kind, tid).
Proof.
  unfold slot_at. destruct (find_first _ _) as [|] eqn:E; [done|]. intros _ i row Hrow [= H1 H2 H3].
  apply elem_of_map_to_list, list_elem_of_In in Hrow.
  pose proof (List.find_none _ _ E _ Hrow) as H. unfold same_place in H. simpl in H.
  rewrite !bool_decide_true, H3, String.eqb_refl in H by done. done.
Qed.

(** What a mutation writes fits, and takes no other slot's place. *)
Record lands (op : Operation) (version : PreferenceVersion) (t : preference_tables) (slot : HouseholdPreference)
    (row : slot_row) : Prop := {
  la_fits : fits (hp_preference_id slot) (place_of row) slot;
  la_payload : sl_payload row = slot;
  la_version : hp_version slot = version;
  la_erase : op = OP_ERASE -> hp_erased slot = true;
  la_row : match tb_slots t !! hp_preference_id slot with
           | Some old => place_of old = place_of row /\
               (hp_erased slot = true -> op = OP_ERASE \/ hp_erased (sl_payload old) = true)
           | None => hp_erased slot = false /\
               forall i other, tb_slots t !! i = Some other -> place_of other <> place_of row
           end
}.

Arguments la_fits {_ _ _ _ _} _.
Arguments la_payload {_ _ _ _ _} _.
Arguments la_version {_ _ _ _ _} _.
Arguments la_erase {_ _ _ _ _} _ _.
Arguments la_row {_ _ _ _ _} _.

Lemma target_place (t : PreferenceTarget) tid : validate_target t = Ok tt -> pt_id t = Some tid ->
  t = mkPreferenceTarget (pt_kind t) (Some tid) None.
Proof.
  unfold validate_target. intros H Hid. ok_inv. rewrite Hid in *. destruct t as [k i [a|]]; simpl in *; [done|].
  by subst.
Qed.

Lemma set_slot_fits t fresh p principal now version slot tid : validate_preference p = Ok tt ->
  set_slot t fresh p principal now version = Ok slot -> pt_id (pf_target p) = Some tid ->
  fits (hp_preference_id slot) (pf_key p, pt_kind (pf_target p), tid) slot /\ hp_erased slot = false /\
  hp_target slot = pf_target p /\ hp_key slot = pf_key p /\ hp_version slot = version /\
  hp_preference_id slot = match slot_at t (pf_key p) (pt_kind (pf_target p)) (Some tid) with
                          | Some old => hp_preference_id old | None => fresh end.
Proof.
  intros Hp Hs Htid. unfold set_slot in Hs. ok_inv. subst slot. simpl. rewrite Htid. split_and!; try done.
  assert (pf_target p = place_target (pf_key p, pt_kind (pf_target p), tid)) as Ht by (by apply target_place).
  split; try done. simpl. by intros ? [= <-].
Qed.

Lemma set_lands t t0 t' fresh p principal now version slot row u :
  store_ok t -> tb_slots t0 = tb_slots t -> validate_preference p = Ok tt -> tb_slots t !! fresh = None ->
  set_slot t fresh p principal now version = Ok slot ->
  write_slot slot t0 = (Ok u, t') -> tb_slots t' !! hp_preference_id slot = Some row ->
  lands OP_SET version t slot row.
Proof.
  intros Hok Htb Hp Hfresh Hs Hw Hrow. apply write_slot_ok in Hw as (tid & w & Htid & Hpay & -> & Hw).
  simpl in Hrow. rewrite lookup_insert_eq in Hrow. injection Hrow as ->. rewrite Htb in Hw.
  replace (slot_at t0) with (slot_at t) in Hw by (unfold slot_at; by rewrite Htb).
  assert (pt_id (pf_target p) = Some tid) as Hid.
  { rewrite <- Htid. unfold set_slot in Hs. by ok_inv; subst slot. }
  destruct (set_slot_fits _ _ _ _ _ _ _ _ Hp Hs Hid) as (Hfit & Her & Ht & Hk & Hv & Hi).
  rewrite Ht, Hk in Hw.
  destruct (slot_at t (pf_key p) _ _) as [old|] eqn:Ea.
  - apply slot_at_some in Ea as (? & i & r & [= <-] & Hr & Hpl & <-).
    assert (hp_preference_id slot = i) as Hii by (rewrite Hi; apply (slot_fits (st_slots Hok Hr))).
    destruct Hw as [(o & Ho & ->)|(_ & Hn & _)]; [|congruence].
    assert (o = r) as -> by congruence. split; try done.
    + change (place_of _) with (place_of r). by rewrite Hpl.
    + rewrite Ho, Her. done.
  - destruct Hw as [(o & Ho & _)|(Hn & _ & ->)]; [congruence|]. split; try done.
    rewrite Hn. split; [done|]. by apply slot_at_none.
Qed.

(** The preference of an entry fits the place of its slot. *)
Lemma retained_fits t id row revision p : store_ok t -> tb_slots t !! id = Some row ->
  retained (history_source t id revision) = Some p -> preference_fits (place_of row) p.
Proof.
  intros Hok Hrow. unfold history_source. destruct (tb_history t !! revision) as [h|] eqn:Eh; [|done].
  destruct (String.eqb_spec (hr_preference_id h) id) as [<-|]; [|done]. simpl.
  destruct (he_snapshot (hr_payload h)) as [s|] eqn:Es; [|done]. intros Hp.
  destruct (entry_slot (st_entries Hok Eh)) as (row' & Hrow' & _ & Hf & _).
  replace row with row' by congruence. by apply (fit_preference (Hf _ Es)).
Qed.

Lemma slot_change_fits op rq principal now t id row slot : store_ok t -> validate_request rq = Ok tt ->
  request_preference_id rq = Some id -> tb_slots t !! id = Some row ->
  slot_change op rq principal now t (sl_payload row) slot ->
  fits id (place_of row) slot /\ (op = OP_ERASE -> hp_erased slot = true) /\
  (hp_erased slot = true -> op = OP_ERASE \/ hp_erased (sl_payload row) = true).
Proof.
  intros Hok Hv Hid Hrow Hc. pose proof (slot_fits (st_slots Hok Hrow)) as Hf.
  destruct op; [done| | |].
  - simpl in Hc. subst slot. split; [|split; [done|by right]]. by destruct Hf; split.
  - destruct Hc as (h & id' & v & revision & provenance & -> & Hc). injection Hid as ->.
    unfold restored_slot in Hc. destruct (retained _) as [p|] eqn:Ep; [|done]. ok_inv. subst slot. simpl.
    apply (retained_fits _ _ _ _ _ Hok Hrow) in Ep as (Hk & Ht & Hp).
    split; [|done]. destruct Hf; split; try done. intros q [= <-]. split_and!; try done.
    unfold validate_preference, validate_request in *. simpl in *. ok_inv.
    repeat match goal with u : unit |- _ => destruct u end.
    rewrite !result_bind_ok. exists tt. split; [done|]. apply result_bind_ok. exists tt. split; [done|].
    apply result_bind_ok. exists tt. split; [done|]. by apply raise_if_ok.
  - simpl in Hc. subst slot. split; [|split; [done|by left]]. by destruct Hf; split.
Qed.

Lemma change_lands op rq principal now t t0 t' id old changed version slot row u :
  store_ok t -> tb_slots t0 = tb_slots t -> validate_request rq = Ok tt ->
  request_preference_id rq = Some id -> tb_slots t !! id = Some old ->
  slot_change op rq principal now t (sl_payload old) changed ->
  slot = changed <| hp_version := version |> <| hp_updated_at := now |> ->
  write_slot slot t0 = (Ok u, t') -> tb_slots t' !! hp_preference_id slot = Some row ->
  lands op version t slot row /\ hp_preference_id slot = id.
Proof.
  intros Hok Htb Hv Hid Hold Hc -> Hw Hrow. pose proof (slot_change_fits _ _ _ _ _ _ _ _ Hok Hv Hid Hold Hc) as (Hf & Ho & He).
  simpl in *. pose proof (fit_id Hf) as Hi. rewrite Hi in *. split; [|done].
  apply write_slot_ok in Hw as (tid & w & Htid & Hpay & -> & Hw). simpl in *.
  rewrite ?Hi, Htb in Hw. rewrite ?Hi, lookup_insert_eq in Hrow. injection Hrow as ->.
  destruct Hw as [(o & Ho' & ->)|[Hn _]]; [|congruence]. assert (o = old) as -> by congruence.
  split; simpl; rewrite ?Hi, ?Hold; try done. by destruct Hf; split.
Qed.

Lemma mutated_lands op rq principal digest now fresh t slot row t' :
  store_ok t -> validate_request rq = Ok tt -> tb_slots t !! fresh = None ->
  mutated op rq principal digest now fresh t slot row t' ->
  lands op (next_version rq) t slot row /\ pver_revision (next_version rq) = revision_of t + 1 /\
  t' = filed op rq principal digest now (next_version rq) slot row
         (after_erase op (hp_preference_id slot) (t <| tb_head := Some (next_version rq) |>)).
Proof.
  intros Hok Hv Hfresh [Hhead _ _ (t1 & Hn & (u & Hw) & _ & _ & ->)].
  assert (pver_revision (next_version rq) = revision_of t + 1) as Hrev by (by unfold revision_of; rewrite Hhead).
  pose proof (lookup_insert_eq (tb_slots t1) (hp_preference_id slot) row) as Hrow.
  apply next_slot_ok in Hn as [(-> & h & p & -> & Hs & ->)|(Hop & id & old & changed & Hid & Hold & Hc & Hslot & ->)].
  - split; [|done]. refine (set_lands t _ _ fresh p principal now _ _ _ _ Hok _ _ Hfresh Hs Hw Hrow); [done|].
    unfold validate_request in Hv. simpl in Hv. by ok_inv.
  - assert (tb_slots (after_erase op (hp_preference_id (sl_payload old)) (t <| tb_head := Some (next_version rq) |>))
      = tb_slots t) as Htb by (unfold after_erase; by case_bool_decide).
    destruct (change_lands _ _ _ _ t _ _ _ _ _ _ _ _ _ Hok Htb Hv Hid Hold Hc Hslot Hw Hrow) as [Hl Hi].
    split; [done|]. split; [done|]. rewrite Hi. by rewrite (fit_id (slot_fits (st_slots Hok Hold))).
Qed.

(** ** What an erasure leaves *)

Definition entry_after (op : Operation) (id : string) (h : history_row) : history_row :=
  if bool_decide (op = OP_ERASE) then erase_history id h else h.
Definition request_after (op : Operation) (id : string) (q : request_row) : request_row :=
  if bool_decide (op = OP_ERASE) then erase_request id q else q.

Lemma after_history op id t revision :
  tb_history (after_erase op id t) !! revision = entry_after op id <$> tb_history t !! revision.
Proof.
  unfold after_erase, entry_after. case_bool_decide; simpl; [apply lookup_fmap|]. by destruct (tb_history t !! _).
Qed.
Lemma after_requests op id t k : tb_requests (after_erase op id t) !! k = request_after op id <$> tb_requests t !! k.
Proof.
  unfold after_erase, request_after. case_bool_decide; simpl; [apply lookup_fmap|]. by destruct (tb_requests t !! _).
Qed.
Lemma after_slots op id t : tb_slots (after_erase op id t) = tb_slots t.
Proof. unfold after_erase. by case_bool_decide. Qed.

Lemma entry_after_same op id h : hr_preference_id (entry_after op id h) = hr_preference_id h /\
  he_version (hr_payload (entry_after op id h)) = he_version (hr_payload h) /\
  he_operation (hr_payload (entry_after op id h)) = he_operation (hr_payload h) /\
  he_preference_id (hr_payload (entry_after op id h)) = he_preference_id (hr_payload h) /\
  he_actor (hr_payload (entry_after op id h)) = he_actor (hr_payload h).
Proof.
  unfold entry_after, erase_history. case_bool_decide; [|done].
  by destruct (String.eqb_spec (hr_preference_id h) id) as [<-|].
Qed.
Lemma entry_after_other op id h : hr_preference_id h <> id -> entry_after op id h = h.
Proof.
  intros Hne. unfold entry_after, erase_history. case_bool_decide; [|done]. by apply String.eqb_neq in Hne as ->.
Qed.
Lemma entry_after_snapshot op id h s : he_snapshot (hr_payload (entry_after op id h)) = Some s ->
  he_snapshot (hr_payload h) = Some s /\ (op = OP_ERASE -> hr_preference_id h <> id).
Proof.
  unfold entry_after, erase_history. case_bool_decide; [|done].
  destruct (String.eqb_spec (hr_preference_id h) id) as [|]; [done|]. done.
Qed.
Lemma entry_after_retained op id h : retained (Some (hr_payload h)) = None ->
  retained (Some (hr_payload (entry_after op id h))) = None.
Proof.
  simpl. destruct (he_snapshot (hr_payload (entry_after op id h))) as [s|] eqn:Es; [|done].
  apply entry_after_snapshot in Es as [-> _]. done.
Qed.

Lemma answers_after op h g p q : hr_preference_id h = qr_preference_id q -> answers (hr_payload h) g p (qr_response q) ->
  forall id, answers (hr_payload (entry_after op id h)) g p (qr_response (request_after op id q)) /\
    hr_preference_id (entry_after op id h) = qr_preference_id (request_after op id q) /\
    pr_version (qr_response (request_after op id q)) = pr_version (qr_response q).
Proof.
  intros Hid Ha id. unfold entry_after, request_after. case_bool_decide; [|done].
  unfold erase_history, erase_request. rewrite Hid. unfold answers in *. destruct_ands.
  destruct (String.eqb_spec (qr_preference_id q) id); simpl; split_and!; congruence.
Qed.

(** ** What is filed keeps the tables well formed *)

Section Filed.
Context (op : Operation) (rq : preference_request) (principal digest : string) (now : datetime)
  (version : PreferenceVersion) (slot : HouseholdPreference) (row : slot_row) (t : preference_tables)
  (Hok : store_ok t) (Hlands : lands op version t slot row) (Hversion : pver_revision version = revision_of t + 1).
Let id := hp_preference_id slot.
Let after := filed op rq principal digest now version slot row (after_erase op id (t <| tb_head := Some version |>)).

Lemma filed_slot id' : tb_slots after !! id' = if decide (id = id') then Some row else tb_slots t !! id'.
Proof.
  unfold after, filed. simpl. rewrite after_slots. destruct (decide _) as [<-|]; [apply lookup_insert_eq|].
  by rewrite lookup_insert_ne.
Qed.
Lemma filed_history revision : revision <= revision_of t ->
  tb_history after !! revision = entry_after op id <$> tb_history t !! revision.
Proof. intros Hle. unfold after, filed. simpl. rewrite lookup_insert_ne by lia. by rewrite after_history. Qed.
Lemma filed_entry : tb_history after !! pver_revision version = Some (mkHistoryRow id
  (mkHistoryEntry version op id (if bool_decide (op = OP_ERASE) then None else Some slot) principal now (source_of rq))).
Proof. unfold after, filed. simpl. apply lookup_insert_eq. Qed.

Lemma filed_domain revision : is_Some (tb_history after !! revision) <-> 0 < revision <= revision_of after.
Proof.
  assert (revision_of after = revision_of t + 1) as -> by (unfold after, after_erase; by case_bool_decide).
  pose proof (st_revision Hok) as H0. destruct (decide (revision = revision_of t + 1)) as [->|Hne].
  - rewrite <- Hversion, filed_entry. split; [lia|done].
  - destruct (decide (revision <= revision_of t)).
    + rewrite filed_history, fmap_is_Some, (st_history Hok) by done. lia.
    + unfold after, filed. simpl. rewrite lookup_insert_ne, after_history, fmap_is_Some by lia. simpl.
      rewrite (st_history Hok). lia.
Qed.

Lemma entry_below revision h : tb_history t !! revision = Some h -> revision <= revision_of t.
Proof. intros H. assert (is_Some (tb_history t !! revision)) as Hs by by exists h. apply (st_history Hok) in Hs. lia. Qed.

Lemma filed_slots id' row' : tb_slots after !! id' = Some row' -> slot_ok after id' row'.
Proof.
  rewrite filed_slot. destruct (decide (id = id')) as [<-|Hne].
  - intros [= <-]. pose proof (la_payload Hlands) as Hpay. split; rewrite Hpay; [apply (la_fits Hlands)|].
    rewrite (la_version Hlands), filed_entry. eexists. split_and!; try done.
    simpl. case_bool_decide; [|by left]. right. split; [done|]. by apply (la_erase Hlands).
  - intros Hrow. destruct (st_slots Hok Hrow) as [Hf (h & Hh & Hid & Hv & Hs)]. split; [done|].
    exists h. rewrite filed_history by (by eapply entry_below). rewrite Hh. simpl.
    rewrite entry_after_other by congruence. done.
Qed.

Lemma filed_places i j r r' : tb_slots after !! i = Some r -> tb_slots after !! j = Some r' ->
  place_of r = place_of r' -> i = j.
Proof.
  pose proof (la_row Hlands) as Hl. rewrite !filed_slot. fold id in Hl.
  destruct (decide (id = i)) as [<-|Hi], (decide (id = j)) as [<-|Hj]; intros Hr Hr' Heq; try done.
  - injection Hr as <-. destruct (tb_slots t !! id) as [old|] eqn:Eo.
    + apply (st_places _ Hok _ _ _ _ Eo Hr'). destruct Hl. congruence.
    + destruct Hl as [_ Hl]. by destruct (Hl _ _ Hr').
  - injection Hr' as <-. destruct (tb_slots t !! id) as [old|] eqn:Eo.
    + apply (st_places _ Hok _ _ _ _ Hr Eo). destruct Hl. congruence.
    + destruct Hl as [_ Hl]. by destruct (Hl _ _ Hr).
  - by apply (st_places _ Hok _ _ _ _ Hr Hr').
Qed.

(** The erasure of a slot that is erased: its new row says so, or its old one did. *)
Lemma filed_erased h old : tb_slots t !! hr_preference_id h = Some old -> hr_preference_id h = id ->
  (hp_erased (sl_payload old) = true -> retained (Some (hr_payload h)) = None) ->
  hp_erased slot = true -> retained (Some (hr_payload (entry_after op id h))) = None.
Proof.
  intros Hold Hid Hre He. pose proof (la_row Hlands) as Hl. fold id in Hl. rewrite <- Hid, Hold in Hl.
  destruct Hl as [_ [Hop|Ho]%(fun H => H He)]; [|by apply entry_after_retained, Hre].
  simpl. destruct (he_snapshot (hr_payload (entry_after op id h))) eqn:Es; [|done].
  apply entry_after_snapshot in Es as [_ Hn]. by destruct (Hn Hop).
Qed.

Lemma filed_entries revision h : tb_history after !! revision = Some h -> entry_ok after revision h.
Proof.
  intros H. destruct (decide (revision = pver_revision version)) as [->|Hne].
  - rewrite filed_entry in H. injection H as <-. split; try done. exists row. simpl. rewrite filed_slot, decide_True by done.
    rewrite (la_payload Hlands), (la_version Hlands). split_and!; try done.
    + intros s. case_bool_decide; [done|]. intros [= <-]. apply (la_fits Hlands).
    + case_bool_decide; [done|]. intros He. rewrite (fit_erased _ _ _ (la_fits Hlands)) in He.
      by destruct (hp_preference slot).
  - assert (is_Some (tb_history after !! revision)) as Hs by (by exists h).
    apply filed_domain in Hs. assert (revision <= revision_of t) as Hle.
    { assert (revision_of after = revision_of t + 1) as E by (unfold after, after_erase; by case_bool_decide). lia. }
    rewrite filed_history in H by done. apply fmap_Some in H as (h0 & H0 & ->).
    destruct (st_entries Hok H0) as [Hr Hi (old & Hold & Hlast & Hf & Hre)].
    destruct (entry_after_same op id h0) as (E1 & E2 & _ & E4 & _). split; [congruence..|]. rewrite E1, filed_slot.
    destruct (decide (id = hr_preference_id h0)) as [Heq|Hne'].
    + exists row. rewrite (la_payload Hlands), (la_version Hlands). split_and!; [done|lia| |by eapply filed_erased].
      pose proof (la_row Hlands) as Hl. fold id in Hl. rewrite Heq, Hold in Hl. destruct Hl as [<- _].
      intros s [Hs' _]%entry_after_snapshot. by apply Hf.
    + exists old. split_and!; try done; [intros s [Hs' _]%entry_after_snapshot; by apply Hf|].
      intros He. by apply entry_after_retained, Hre.
Qed.

Lemma filed_receipts k q : tb_requests after !! k = Some q -> receipt_filed after k q.
Proof.
  intros Hq. unfold after, filed in Hq. simpl in Hq. revert Hq.
  destruct (decide (k = (pver_generation version, principal, rh_idempotency_key (head_of_request rq)))) as [->|Hne].
  - rewrite lookup_insert_eq. intros [= <-]. eexists. split; [apply filed_entry|]. done.
  - rewrite lookup_insert_ne, after_requests by done. intros (q0 & Hq & ->)%fmap_Some.
    destruct (st_receipts Hok Hq) as (h & Hh & Hid & Ha).
    destruct (answers_after op _ _ _ _ Hid Ha id) as (Ha' & Hid' & Hv).
    exists (entry_after op id h). rewrite Hv, filed_history by (by eapply entry_below). by rewrite Hh.
Qed.

Lemma filed_ok : store_ok after.
Proof.
  split.
  - assert (revision_of after = revision_of t + 1) as -> by (unfold after, after_erase; by case_bool_decide).
    pose proof (st_revision Hok). lia.
  - apply filed_domain.
  - apply filed_slots.
  - apply filed_places.
  - apply filed_entries.
  - apply filed_receipts.
Qed.
End Filed.

(** ** Every operation keeps them well formed *)

Lemma mutate_keeps op rq principal now fp fresh t r t' :
  store_ok t -> validate_request rq = Ok tt -> tb_slots t !! fresh = None ->
  mutate op rq principal now fp fresh t = (r, t') -> store_ok t'.
Proof.
  intros Hok Hv Hfresh H. destruct r as [r|e]; [|by apply transaction_err in H as ->].
  apply mutate_ok in H as [[-> _]|(slot & row & Hm & _)]; [done|].
  apply mutated_lands in Hm as (Hl & Hrev & ->); [by apply filed_ok|done..].
Qed.

(** One call of the repository: at the start, after a backup was restored, or
    for a request, at a time and with the identifier drawn for it. *)
Inductive store_call :=
  | C_bootstrap (generation : string)
  | C_rotate (generation : string)
  | C_mutate (op : Operation) (rq : preference_request) (principal : string) (now : datetime)
      (fingerprint : option string) (fresh : string).
Definition call_store (c : store_call) (t : preference_tables) : preference_tables :=
  match c with
  | C_bootstrap g => snd (bootstrap g t)
  | C_rotate g => rotate_generation g t
  | C_mutate op rq principal now fp fresh => snd (mutate op rq principal now fp fresh t)
  end.
(** A request was validated, and an identifier is drawn once. *)
Definition call_fits (c : store_call) (t : preference_tables) : Prop :=
  match c with
  | C_mutate _ rq _ _ _ fresh => validate_request rq = Ok tt /\ tb_slots t !! fresh = None
  | _ => True
  end.
Fixpoint calls_fit (cs : list store_call) (t : preference_tables) : Prop :=
  match cs with
  | [] => True
  | c :: cs => call_fits c t /\ calls_fit cs (call_store c t)
  end.
Definition call_all (cs : list store_call) (t : preference_tables) : preference_tables :=
  fold_left (fun t c => call_store c t) cs t.

Lemma head_keeps t v : store_ok t -> pver_revision v = revision_of t -> store_ok (t <| tb_head := Some v |>).
Proof. intros [H1 H2 H3 H4 H5 H6] Hv. split; unfold revision_of in *; simpl; rewrite ?Hv; try done; intros; by firstorder. Qed.

Lemma call_keeps c t : store_ok t -> call_fits c t -> store_ok (call_store c t).
Proof.
  intros Hok Hc. destruct c as [g|g|op rq principal now fp fresh]; simpl.
  - destruct (tb_head t) eqn:Eh; [done|]. apply head_keeps; [done|]. unfold revision_of. by rewrite Eh.
  - unfold rotate_generation. destruct (tb_head t) as [v|] eqn:Eh; simpl.
    + apply head_keeps; [done|]. unfold revision_of. by rewrite Eh.
    + destruct t. simpl in *. by subst.
  - destruct Hc as [Hv Hf]. destruct (mutate op rq principal now fp fresh t) as [r t'] eqn:E.
    by apply mutate_keeps in E.
Qed.

Lemma calls_keep cs : forall t, store_ok t -> calls_fit cs t -> store_ok (call_all cs t).
Proof.
  unfold call_all. induction cs as [|c cs IH]; intros t Hok; [done|]. intros [Hc Hcs]. simpl.
  apply IH; [by apply call_keeps|done].
Qed.

Lemma calls_fit_take n : forall cs t, calls_fit cs t -> calls_fit (take n cs) t.
Proof.
  induction n as [|n IH]; intros [|c cs] t; try done. intros [Hc Hcs]. split; [done|by apply IH].
Qed.

(** ** What later calls leave of a receipt *)

(** A receipt may lose the preference of its answer, and nothing else. *)
Definition kept_receipt (q q' : request_row) : Prop :=
  qr_fingerprint q' = qr_fingerprint q /\ qr_preference_id q' = qr_preference_id q /\
  (qr_response q' = qr_response q \/ qr_response q' = (qr_response q) <| pr_preference := None |>).
Definition generation_of (t : preference_tables) : option string := pver_generation <$> tb_head t.

#[global] Instance kept_receipt_preorder : PreOrder kept_receipt.
Proof.
  split; [intros q; split_and!; auto|]. intros q q' q'' (E1 & E2 & E3) (F1 & F2 & F3). split_and!; [congruence..|].
  destruct E3 as [E3|E3], F3 as [F3|F3]; rewrite F3, E3; auto.
Qed.

Definition receipts_kept (t t' : preference_tables) : Prop :=
  forall k q, tb_requests t !! k = Some q -> exists q', tb_requests t' !! k = Some q' /\ kept_receipt q q'.
#[global] Instance receipts_kept_preorder : PreOrder receipts_kept.
Proof.
  split; [intros t k q H; exists q; split; [done|reflexivity]|].
  intros t t' t'' H H' k q Hq. apply H in Hq as (q' & Hq & Hk). apply H' in Hq as (q'' & Hq & Hk').
  exists q''. split; [done|]. by etransitivity.
Qed.

Lemma receipts_same t t' : tb_requests t' = tb_requests t -> receipts_kept t t'.
Proof. intros E k q Hq. exists q. rewrite E. split; [done|reflexivity]. Qed.
Lemma request_after_kept op id q : kept_receipt q (request_after op id q).
Proof.
  unfold request_after, erase_request. case_bool_decide; [|reflexivity].
  destruct (String.eqb_spec (qr_preference_id q) id) as [<-|]; [|reflexivity]. split_and!; auto.
Qed.

Lemma mutate_keeps_receipts op rq principal now fp fresh t r t' :
  store_ok t -> validate_request rq = Ok tt -> tb_slots t !! fresh = None ->
  mutate op rq principal now fp fresh t = (r, t') -> receipts_kept t t' /\ generation_of t' = generation_of t.
Proof.
  intros Hok Hv Hfresh H. destruct r as [r|e]; [|by apply transaction_err in H as ->].
  apply mutate_ok in H as [[-> _]|(slot & row & Hm & _)]; [done|]. pose proof Hm as [Hh Hun _ _].
  apply mutated_lands in Hm as (_ & _ & ->); [|done..]. split.
  - intros k q Hq. eexists. split; [|apply (request_after_kept op (hp_preference_id slot))].
    simpl. rewrite lookup_insert_ne, after_requests; [simpl; by rewrite Hq|]. intros <-. unfold request_key in Hun. congruence.
  - unfold generation_of. rewrite Hh. unfold after_erase. by case_bool_decide.
Qed.

Definition rotates (c : store_call) : bool := match c with C_rotate _ => true | _ => false end.

Lemma call_keeps_receipts c t : store_ok t -> call_fits c t ->
  receipts_kept t (call_store c t) /\ (rotates c = false -> is_Some (tb_head t) ->
    generation_of (call_store c t) = generation_of t).
Proof.
  intros Hok Hc. destruct c as [g|g|op rq principal now fp fresh]; simpl.
  - destruct (tb_head t) as [v|] eqn:Eh; [done|]. split; [by apply receipts_same|]. by intros _ [].
  - split; [by apply receipts_same|done].
  - destruct Hc as [Hv Hf]. destruct (mutate op rq principal now fp fresh t) as [r t'] eqn:E.
    by apply mutate_keeps_receipts in E as [? ?].
Qed.

Lemma calls_keep_receipts cs : forall t, store_ok t -> calls_fit cs t -> forallb (fun c => negb (rotates c)) cs = true ->
  is_Some (tb_head t) -> receipts_kept t (call_all cs t) /\ generation_of (call_all cs t) = generation_of t.
Proof.
  unfold call_all. induction cs as [|c cs IH]; intros t Hok; simpl; [done|].
  intros [Hc Hcs] [Hr Hrs]%andb_true_iff Hh. apply negb_true_iff in Hr.
  destruct (call_keeps_receipts c t Hok Hc) as [Hk Hg]. specialize (Hg Hr Hh).
  destruct (IH _ (call_keeps _ _ Hok Hc) Hcs Hrs) as [Hk' Hg'].
  { unfold generation_of in Hg. destruct Hh as [v Hv]. rewrite Hv in Hg. by apply fmap_Some in Hg as (w & -> & _). }
  split; [by etransitivity|congruence].
Qed.

Lemma next_slot_head op rq principal now fresh version t slot t1 :
  next_slot op rq principal now fresh version t = (Ok slot, t1) -> tb_head t1 = tb_head t.
Proof.
  intros [(_ & ? & ? & _ & _ & ->)|(_ & ? & ? & ? & _ & _ & _ & _ & ->)]%next_slot_ok; [done|].
  unfold after_erase. by case_bool_decide.
Qed.

Lemma mutate_answered op rq principal now fp fresh t r t' : mutate op rq principal now fp fresh t = (Ok r, t') ->
  generation_of t' = Some (pver_generation (rh_expected_version (head_of_request rq))) /\
  exists q, tb_requests t' !! request_key rq principal = Some q /\ qr_fingerprint q = digest_of op rq fp /\ qr_response q = r.
Proof.
  intros [(-> & head & q & Hh & Hg & Hq)|(slot & row & [Hh _ _ (t1 & Hn & _ & _ & _ & ->)] & ->)]%mutate_ok.
  - split; [|by exists q]. unfold generation_of. by rewrite Hh, <- Hg.
  - split; [|eexists; split; [apply lookup_insert_eq|done]].
    apply next_slot_head in Hn. unfold generation_of, filed. simpl in *. by rewrite Hn.
Qed.

Lemma mutate_replayed op rq principal now fp fresh t q :
  generation_of t = Some (pver_generation (rh_expected_version (head_of_request rq))) ->
  tb_requests t !! request_key rq principal = Some q -> qr_fingerprint q = digest_of op rq fp ->
  mutate op rq principal now fp fresh t = (Ok (qr_response q), t).
Proof.
  intros (head & Hh & Hg)%fmap_Some Hq Hf. unfold mutate. apply transaction_ok.
  rewrite stm_bind_get, stm_bind_lift. replace (current_head t rq) with (Ok (E := exn) head).
  2: { symmetry. by apply current_head_ok. }
  rewrite stm_bind_lift. replace (receipt t rq principal _) with (Ok (E := exn) (Some (qr_response q))); [done|].
  symmetry. apply receipt_ok. by exists q.
Qed.

(** ** What an erasure leaves *)

(** Every erasure of the history emptied what was filed for the slot before. *)
Definition erasures_ok (t : preference_tables) : Prop :=
  forall revision e, tb_history t !! revision = Some e -> he_operation (hr_payload e) = OP_ERASE ->
  forall revision' h, tb_history t !! revision' = Some h -> hr_preference_id h = hr_preference_id e ->
    revision' <= revision -> he_snapshot (hr_payload h) = None.

Lemma filed_erasures op rq principal digest now version slot row t :
  store_ok t -> lands op version t slot row -> pver_revision version = revision_of t + 1 -> erasures_ok t ->
  erasures_ok (filed op rq principal digest now version slot row
    (after_erase op (hp_preference_id slot) (t <| tb_head := Some version |>))).
Proof.
  intros Hok Hl Hv He. set (t' := filed _ _ _ _ _ _ _ _ _).
  assert (forall k h, k <> pver_revision version -> tb_history t' !! k = Some h ->
    exists h0, tb_history t !! k = Some h0 /\ h = entry_after op (hp_preference_id slot) h0) as Hold.
  { intros k h Hk Hh. unfold t', filed in Hh. simpl in Hh. rewrite lookup_insert_ne, after_history in Hh by done.
    apply fmap_Some in Hh as (h0 & H0 & ->). by exists h0. }
  assert (tb_history t' !! pver_revision version = _) as Hnew by apply lookup_insert_eq.
  intros k e Hke Hop k' h Hkh Hid Hle. destruct (decide (k' = pver_revision version)) as [->|Hk'].
  - assert (k = pver_revision version) as ->.
    { destruct (decide (k = pver_revision version)) as [|Hk]; [done|].
      apply Hold in Hke as (e0 & He0 & _); [|done]. apply entry_below in He0; [lia|done]. }
    rewrite Hnew in Hke, Hkh. injection Hke as <-. injection Hkh as <-. simpl in *. by rewrite bool_decide_true.
  - apply Hold in Hkh as (h0 & Hh0 & ->); [|done]. destruct (he_snapshot _) eqn:Es; [|done].
    apply entry_after_snapshot in Es as [Es Hn]. destruct (entry_after_same op (hp_preference_id slot) h0) as (E & _).
    rewrite E in Hid. destruct (decide (k = pver_revision version)) as [->|Hk].
    + rewrite Hnew in Hke. injection Hke as <-. simpl in *. by destruct (Hn Hop).
    + apply Hold in Hke as (e0 & He0 & ->); [|done].
      destruct (entry_after_same op (hp_preference_id slot) e0) as (E1 & _ & E3 & _).
      rewrite (He _ _ He0 ltac:(congruence) _ _ Hh0 ltac:(congruence) Hle) in Es. done.
Qed.

Lemma call_keeps_erasures c t : store_ok t -> call_fits c t -> erasures_ok t -> erasures_ok (call_store c t).
Proof.
  intros Hok Hc He. destruct c as [g|g|op rq principal now fp fresh]; simpl.
  - by destruct (tb_head t).
  - done.
  - destruct Hc as [Hv Hf]. destruct (mutate op rq principal now fp fresh t) as [[r|e] t'] eqn:E; simpl.
    2: { by apply transaction_err in E as ->. }
    apply mutate_ok in E as [[-> _]|(slot & row & Hm & _)]; [done|].
    apply mutated_lands in Hm as (Hl & Hrev & ->); [by apply filed_erasures|done..].
Qed.

Lemma calls_keep_erasures cs : forall t, store_ok t -> calls_fit cs t -> erasures_ok t -> erasures_ok (call_all cs t).
Proof.
  unfold call_all. induction cs as [|c cs IH]; intros t Hok; [done|]. intros [Hc Hcs] He. simpl.
  apply IH; [by apply call_keeps|done|by apply call_keeps_erasures].
Qed.

(** A restore takes effect only from an entry that still has its preference. *)
Lemma restored_from op rq principal digest now fresh t slot row t' h id v revision provenance :
  mutated op rq principal digest now fresh t slot row t' -> op = OP_RESTORE ->
  rq = PreferenceRestore h id v revision provenance ->
  exists e s, tb_history t !! revision = Some e /\ hr_preference_id e = id /\ he_snapshot (hr_payload e) = Some s.
Proof.
  intros [_ _ _ (t1 & Hn & _)] -> ->.
  apply next_slot_ok in Hn as [[? _]|(_ & id' & old & changed & [= <-] & _ & Hc & _)]; [done|].
  destruct Hc as (? & ? & ? & ? & ? & [= <- <- <- <- <-] & Hc).
  unfold restored_slot, history_source, retained in Hc. simpl in Hc.
  destruct (tb_history t !! revision) as [e|]; [|done].
  destruct (String.eqb_spec (hr_preference_id e) id) as [<-|]; [|done].
  destruct (he_snapshot (hr_payload e)) as [s|] eqn:Es; [|done]. by exists e, s.
Qed.

(** ** The properties *)

(** C36: Over any history of the repository - its bootstrap, validated requests
    whose new slots draw unused identifiers, restored backups - the tables stay
    well formed: the history has exactly one entry per revision up to the head,
    every slot, every entry and every restorable preference fits the key and
    the target of its slot and passes the validators, each slot is what the
    last of its entries filed, no two slots share a key and target, each receipt
    is the answer its entry was filed with, to that principal and generation,
    and an erased slot has nothing left to restore. *)
Theorem preferences_well_formed cs : calls_fit cs no_preferences -> store_ok (call_all cs no_preferences).
Proof. apply calls_keep, no_preferences_ok. Qed.

(** C37: A mutation answers with an error and changes nothing; or repeats the
    receipt of the same request and changes nothing; or was asked for against
    the current head, which it moves by one: it files one entry of the history
    under the new version and the receipt of its answer, changes the slot of
    that entry only, and touches earlier entries only to erase their content. *)
Theorem mutation_serialised op rq principal now fp fresh t r t' :
  store_ok t -> validate_request rq = Ok tt -> tb_slots t !! fresh = None ->
  mutate op rq principal now fp fresh t = (r, t') ->
  match r with
  | Err _ => t' = t
  | Ok r =>
      (t' = t /\ exists q, tb_requests t !! request_key rq principal = Some q /\
         qr_fingerprint q = digest_of op rq fp /\ qr_response q = r) \/
      (tb_head t = Some (rh_expected_version (head_of_request rq)) /\ tb_head t' = Some (next_version rq) /\
       tb_requests t !! request_key rq principal = None /\
       exists id e slot, tb_history t' !! pver_revision (next_version rq) = Some (mkHistoryRow id e) /\
         tb_requests t' !! request_key rq principal = Some (mkRequestRow (digest_of op rq fp) id r) /\
         he_operation e = op /\ he_recorded_at e = now /\ answers e (pver_generation (next_version rq)) principal r /\
         sl_payload <$> tb_slots t' !! id = Some slot /\ hp_version slot = next_version rq /\
         (forall id', id' <> id -> tb_slots t' !! id' = tb_slots t !! id') /\
         (forall revision, revision <= revision_of t ->
            tb_history t' !! revision = entry_after op id <$> tb_history t !! revision))
  end.
Proof.
  intros Hok Hv Hf H. destruct r as [r|e]; [|by apply transaction_err in H].
  apply mutate_ok in H as [(-> & head & q & _ & _ & Hq)|(slot & row & Hm & ->)]; [left; eauto|].
  right. pose proof Hm as [Hh Hun _ _]. apply mutated_lands in Hm as (Hl & Hrev & ->); [|done..].
  split; [done|]. split; [unfold after_erase; by case_bool_decide|]. split; [done|].
  exists (hp_preference_id slot), (mkHistoryEntry (next_version rq) op (hp_preference_id slot)
    (if bool_decide (op = OP_ERASE) then None else Some slot) principal now (source_of rq)), slot.
  split; [apply lookup_insert_eq|]. split; [apply lookup_insert_eq|]. split_and!; try done.
  - simpl. rewrite lookup_insert_eq. simpl. by rewrite (la_payload Hl).
  - apply (la_version Hl).
  - intros id' Hne. rewrite filed_slot. by rewrite decide_False.
  - intros revision Hle. by apply filed_history.
Qed.

(** C38: A request is applied at most once.  After it succeeded, and whatever the
    repository did since (short of a restored backup), repeating it - at any
    time, with the same fingerprint - gives the answer of the first time and
    changes nothing; only the preference of the answer may be gone, erased. *)
Theorem request_applied_once op rq principal now fp fresh t r t' cs :
  store_ok t -> validate_request rq = Ok tt -> tb_slots t !! fresh = None ->
  mutate op rq principal now fp fresh t = (Ok r, t') ->
  calls_fit cs t' -> forallb (fun c => negb (rotates c)) cs = true ->
  exists r', (r' = r \/ r' = r <| pr_preference := None |>) /\
    forall later drawn, mutate op rq principal later fp drawn (call_all cs t') = (Ok r', call_all cs t').
Proof.
  intros Hok Hv Hf H Hcs Hrot. pose proof (mutate_keeps _ _ _ _ _ _ _ _ _ Hok Hv Hf H) as Hok'.
  apply mutate_answered in H as (Hg & q & Hq & Hfp & <-).
  assert (is_Some (tb_head t')) as Hh by (by apply fmap_Some in Hg as (w & -> & _)).
  destruct (calls_keep_receipts cs t' Hok' Hcs Hrot Hh) as [Hk Hg'].
  apply Hk in Hq as (q' & Hq' & Hf' & _ & Hr). exists (qr_response q'). split; [done|]. intros later drawn.
  apply mutate_replayed; congruence.
Qed.

(** C39: An erasure is final.  Over any history of the repository, once the
    history has the erasure of a slot, nothing filed for the slot up to then has
    a preference in it - no entry of the history, no receipt - and no restore
    from such an entry ever takes effect. *)
Theorem erasure_final cs revision e : calls_fit cs no_preferences ->
  let t := call_all cs no_preferences in
  tb_history t !! revision = Some e -> he_operation (hr_payload e) = OP_ERASE ->
  (forall revision' h, tb_history t !! revision' = Some h -> hr_preference_id h = hr_preference_id e ->
     revision' <= revision -> he_snapshot (hr_payload h) = None) /\
  (forall k q, tb_requests t !! k = Some q -> qr_preference_id q = hr_preference_id e ->
     pver_revision (pr_version (qr_response q)) <= revision -> pr_preference (qr_response q) = None) /\
  (forall h v source provenance principal now fp fresh, source <= revision ->
     snd (mutate OP_RESTORE (PreferenceRestore h (hr_preference_id e) v source provenance) principal now fp fresh t) = t).
Proof.
  intros Hcs t He Hop. assert (store_ok t) as Hok by (apply calls_keep; [apply no_preferences_ok|done]).
  assert (erasures_ok t) as Her by (apply calls_keep_erasures; [apply no_preferences_ok|done|by intros ? ?]).
  split; [intros k h Hh Hid Hle; by apply (Her _ _ He Hop _ _ Hh)|]. split.
  - intros k q Hq Hid Hle. destruct (st_receipts Hok Hq) as (h & Hh & Hi & (_ & _ & -> & _)).
    by apply (Her _ _ He Hop _ _ Hh); [congruence|].
  - intros h v source provenance principal now fp fresh Hle.
    destruct (mutate _ _ _ _ _ _ _) as [[r|x] t'] eqn:E; [|by apply transaction_err in E].
    apply mutate_ok in E as [[-> _]|(slot & row & Hm & _)]; [done|].
    destruct (restored_from _ _ _ _ _ _ _ _ _ _ _ _ _ _ _ Hm eq_refl eq_refl) as (e0 & s & H0 & Hid & Hs).
    by rewrite (Her _ _ He Hop _ _ H0 Hid Hle) in Hs.
Qed.
End Preserved.

(** ** Witnesses: whether the washer may be used *)

#[local] Existing Instance example_canonical.
Definition washer_rendering : Rendering :=
  {| json_instant t := pretty t; json_time t := pretty t; render_message _ := "message" |}.
#[local] Existing Instance washer_rendering.

Definition washer_validity : PreferenceValidity := mkValidity 0 None "UTC".
Definition washer_allowed (allowed : bool) : Preference :=
  mkPreference washer_validity (mkPreferenceTarget TK_DEVICE (Some "washer") None) (mkProvenanceInput SK_MANUAL None)
    (V_use allowed).
Definition washer_head (revision : Z) (key : string) : request_head := mkHead (mkPreferenceVersion "g" revision) key.
Definition allow_washer : preference_request := PreferenceMutation (washer_head 0 "k1") (washer_allowed true).
Definition forget_washer : preference_request := PreferenceSlotMutation (washer_head 1 "k2") "p1".
Definition allow_again : preference_request :=
  PreferenceRestore (washer_head 2 "k3") "p1" washer_validity 1 (mkProvenanceInput SK_MANUAL None).
Definition washer_calls : list store_call :=
  [C_bootstrap "g"; C_mutate OP_SET allow_washer "alice" 5 None "p1";
   C_mutate OP_SET allow_washer "alice" 6 None "p2"; C_mutate OP_ERASE forget_washer "alice" 7 None "p3";
   C_mutate OP_RESTORE allow_again "alice" 8 None "p4"].
Definition washer_tables (n : nat) : preference_tables := call_all (take n washer_calls) no_preferences.

Lemma washer_fits : calls_fit washer_calls no_preferences.
Proof. vm_compute. repeat split. Qed.
Lemma washer_ok n : store_ok (washer_tables n).
Proof. apply calls_keep; [apply no_preferences_ok|]. apply calls_fit_take, washer_fits. Qed.

Lemma preferences_well_formed_witness : store_ok (washer_tables 5).
Proof. exact (preferences_well_formed washer_calls washer_fits). Defined.

(** The slot and the answer of the first request. *)
Definition washer_slot : HouseholdPreference :=
  mkSlot "p1" K_DEVICE_USE (mkPreferenceTarget TK_DEVICE (Some "washer") None) (Some (washer_allowed true))
    (Some (mkProvenance (mkProvenanceInput SK_MANUAL None) "alice" 5)) (mkPreferenceVersion "g" 1) 5 false false.
Definition allow_result : PreferenceResult := mkPreferenceResult (mkPreferenceVersion "g" 1) OP_SET (Some washer_slot) false.

Lemma allow_washer_done :
  mutate OP_SET allow_washer "alice" 5 None "p1" (washer_tables 1) = (Ok allow_result, washer_tables 2).
Proof. vm_compute. reflexivity. Qed.

Lemma mutation_serialised_witness :
  tb_head (washer_tables 2) = Some (mkPreferenceVersion "g" 1) /\ sl_payload <$> tb_slots (washer_tables 2) !! "p1" = Some washer_slot.
Proof.
  assert (validate_request allow_washer = Ok tt) as Hv by (vm_compute; reflexivity).
  assert (tb_slots (washer_tables 1) !! "p1" = None) as Hf by (vm_compute; reflexivity).
  destruct (mutation_serialised _ _ _ _ _ _ _ _ _ (washer_ok 1) Hv Hf allow_washer_done) as [[E _]|(_ & Hh & _)].
  - apply (f_equal revision_of) in E. vm_compute in E. discriminate E.
  - split; [exact Hh|vm_compute; reflexivity].
Defined.

(** Repeated after the erasure, the request answers without the preference. *)
Lemma request_applied_once_witness : exists r',
  (r' = allow_result \/ r' = allow_result <| pr_preference := None |>) /\
  forall later drawn, mutate OP_SET allow_washer "alice" later None drawn (washer_tables 5) = (Ok r', washer_tables 5).
Proof.
  assert (validate_request allow_washer = Ok tt) as Hv by (vm_compute; reflexivity).
  assert (tb_slots (washer_tables 1) !! "p1" = None) as Hf by (vm_compute; reflexivity).
  assert (calls_fit (drop 2 washer_calls) (washer_tables 2)) as Hc by (vm_compute; repeat split).
  assert (forallb (fun c => negb (rotates c)) (drop 2 washer_calls) = true) as Hr by reflexivity.
  exact (request_applied_once _ _ _ _ _ _ _ _ _ _ (washer_ok 1) Hv Hf allow_washer_done Hc Hr).
Defined.

Definition washer_erasure : history_row :=
  mkHistoryRow "p1" (mkHistoryEntry (mkPreferenceVersion "g" 2) OP_ERASE "p1" None "alice" 7 None).
Lemma erasure_final_witness :
  snd (mutate OP_RESTORE allow_again "alice" 8 None "p4" (washer_tables 5)) = washer_tables 5.
Proof.
  assert (tb_history (washer_tables 5) !! 2 = Some washer_erasure) as He by (vm_compute; reflexivity).
  destruct (erasure_final washer_calls 2 washer_erasure washer_fits He eq_refl) as (_ & _ & H).
  apply H. lia.
Defined.
