(* ===== verification/Discovery.v ===== *)
(** * Discovery (application/discovery_service.py)

    [DiscoveryService]: the inventory of the adapters into the registry, their
    readings into the state store, and the loss and return of a source into
    both.  The adapter answers the requests of the service; waiting for its
    lock, for the adapter, for the durable writer of the store or for a
    repository, others may act.  The audit log is output. *)

From S2P Require Import Prelude.
From S2P Require Import Values.
From S2P Require Import Models.
From S2P Require Import StateStore.
From S2P Require Import Registry.
From S2P Require Import Digests.
From S2P Require Import Ports.
From S2P Require Import Coroutines.
From S2P Require Import Recurrence.
From S2P Require Import Zones.
From S2P Require Import Scheduler.

(** The orders in which Python iterates over a set: some order of its elements. *)
Class SetOrder := {
  key_set_order : list key -> list key;
  string_set_order : list string -> list string;
  key_set_order_perm l : key_set_order l ≡ₚ l;
  string_set_order_perm l : string_set_order l ≡ₚ l
}.

(** ** What an adapter reports *)

(** A timestamp of a source: a text, or a [datetime] that may be naive. *)
Inductive source_time := ST_text (s : string) | ST_datetime (t : datetime) (aware : bool).

(** One of [source_states], by the keys the service reads; [available] is the
    truth of its value. *)
Record RawState := mkRawState {
  rs_entity_id : option string;
  rs_source_adapter_id : option string;
  rs_capability : option string;
  rs_value : option scalar;
  rs_unit : option string;
  rs_status : option string;
  rs_available : bool;
  rs_observed_at : option source_time;
  rs_received_at : option source_time
}.

(** runtime/composite_adapter.py *)
Record EntityReadResult := mkReadResult {
  er_ref : SourceRef;
  er_snapshot : option StateSnapshot;
  er_status : string;
  er_error_code : option string;
  er_error_message : option string;
  er_snapshots : list StateSnapshot
}.
(** [__post_init__] *)
Definition new_read_result (ref : SourceRef) (snapshot : option StateSnapshot) (status : string)
    (error_code error_message : option string) (snapshots : list StateSnapshot) : EntityReadResult :=
  mkReadResult ref snapshot status error_code error_message
    (match snapshots with [] => option_list snapshot | _ => snapshots end).

Record AdapterHealth := mkAdapterHealth {
  ah_connected : bool;
  ah_components : option (list (string * bool))
}.

(** ** The service *)

(** What the adapter offers ([dy_children]: the adapters of a composite) and
    which repositories there are. *)
Record DiscoveryService := mkDiscovery {
  dy_adapter_id : string;
  dy_children : option (list string);
  dy_detailed : bool;
  dy_excluding : bool;
  dy_device_repository : bool;
  dy_state_repository : bool;
  dy_metadata_repository : bool
}.

Record DiscoveryResult := mkDiscoveryResult {
  dr_devices : list Device;
  dr_areas : list Area;
  dr_states : list StateSnapshot;
  dr_runtime_revision : string
}.

(** The clock, the shared registry and store, the tables of the repositories,
    and the results of the last read. *)
Record Discovering := mkDiscovering {
  dg_now : datetime;
  dg_registry : DeviceRegistry;
  dg_store : StateStore;
  dg_devices : odict string Device;
  dg_states : odict key StateSnapshot;
  dg_metadata : option StateStoreMetadata;
  dg_last_results : list EntityReadResult
}.
#[global] Instance Discovering_eta : Eta Discovering := fun r =>
  mkDiscovering (dg_now r) (dg_registry r) (dg_store r) (dg_devices r) (dg_states r) (dg_metadata r)
    (dg_last_results r).

Inductive discovery_call : Type -> Type :=
  | ask_lock : discovery_call unit
  | ask_discover (excluded : list string) : discovery_call (AdapterSnapshot * list RawState)
  | ask_read (refs : list SourceRef) : discovery_call (list StateSnapshot)
  | ask_read_detailed (refs : list SourceRef) : discovery_call (list EntityReadResult)
  | ask_writer : discovery_call PersistOutcome
  | ask_repository : discovery_call unit.

Abbreviation D := (coro Discovering discovery_call).

Definition on_registry {A} (m : stm DeviceRegistry exn A) : D A :=
  perform (fun s => let '(r, g) := m (dg_registry s) in (r, s <| dg_registry := g |>)).
Definition on_store {A} (m : stm StateStore exn A) : D A :=
  perform (fun s => let '(r, g) := m (dg_store s) in (r, s <| dg_store := g |>)).
(** A mutation of the store; its writer says how it went. *)
Definition write {A} (m : PersistOutcome -> stm StateStore exn A) : D A :=
  io ← await ask_writer; on_store (m io).
Definition repository_call (u : Discovering -> Discovering) : D unit :=
  await ask_repository ≫= fun _ => alter_st u.

Section Service.
Context `{CJ : Canonical} `{PY : Interpreter} `{SO : SetOrder}.
Context (dy : DiscoveryService).

(** [_inventory_fingerprint] *)
Definition registry_fingerprint (r : DeviceRegistry) : string := inventory_fingerprint (devices r) (routes_for r).
(** [_configured_adapter_ids] *)
Definition configured_adapter_ids : list string :=
  match dy_children dy with
  | Some (c :: l) => c :: l
  | _ => [dy_adapter_id dy]
  end.

Definition mark_source (adapter : string) (external : option string) (available : bool) : D bool :=
  on_registry (fun r => let '(changed, r) := mark_source_availability adapter external available r in (Ok changed, r)).

(** ** Saving readings *)

(** [_save_state_snapshots_unlocked] *)
Definition canonical_snapshot (r : DeviceRegistry) (s : StateSnapshot) : option StateSnapshot :=
  (fun id => s <| ss_device_id := id |>) <$>
    canonical_id_for_source r (sr_adapter_id (ss_source_ref s)) (sr_external_id (ss_source_ref s)).
Definition save_snapshots_unlocked (l : list StateSnapshot) : D (list StateSnapshot) :=
  s ← look;
  let normalized := omap (canonical_snapshot (dg_registry s)) l in
  (if bool_decide (normalized = []) then mret tt else write (fun io => save_many key_set_order io normalized)) ≫= fun _ =>
  mret normalized.

Definition save_state_snapshots (l : list StateSnapshot) : D (list StateSnapshot) :=
  await ask_lock ≫= fun _ => save_snapshots_unlocked l.

(** ** A changed inventory *)

Definition save_device (d : Device) : D unit :=
  repository_call (fun s => s <| dg_devices := od_set (dev_id d) d (dg_devices s) |>).
Definition save_devices : D unit := s ← look; coro_iter save_device (devices (dg_registry s)).
Definition save_metadata : D unit :=
  m ← inspect (fun s => Ok (export_metadata (dg_store s)));
  repository_call (fun s => s <| dg_metadata := Some m |>).

(** [_record_inventory_mutation_unlocked] *)
Definition record_inventory_mutation : D unit :=
  s ← look;
  let fingerprint := registry_fingerprint (dg_registry s) in
  if bool_decide (sc_inventory_fingerprint (st_data (dg_store s)) = Some fingerprint) then mret tt
  else
    on_store (modify (fun t => record_inventory_fingerprint fingerprint (begin_revision t))) ≫= fun _ =>
    (if dy_device_repository dy then save_devices else mret tt) ≫= fun _ =>
    s ← look;
    if st_persistence_bound (dg_store s) then write persist_metadata
    else if dy_metadata_repository dy then
      coro_catch (fun e => on_store (modify rollback_metadata_mutation) ≫= fun _ => Raise e) save_metadata ≫= fun _ =>
      on_store (modify confirm_metadata_persisted)
    else mret tt.

(** ** The loss and the return of a source *)

Definition refs_of (p : SourceRef -> bool) (r : DeviceRegistry) : list SourceRef :=
  List.filter p (flat_map dev_source_refs (devices r)).
Definition ref_of_source (adapter : string) (external : option string) (ref : SourceRef) : bool :=
  String.eqb (sr_adapter_id ref) adapter &&
  match external with Some e => String.eqb (sr_external_id ref) e | None => true end.

(** An external id nobody knows stands for the whole source. *)
Definition scope_of (adapter : string) (external : option string) (r : DeviceRegistry) : option string :=
  if bool_decide (refs_of (ref_of_source adapter external) r = []) then None else external.

Definition source_lost (adapter : string) (external : option string) : D (bool * list StateSnapshot) :=
  changed ← mark_source adapter external false;
  l ← write (@mark_source_unavailable key_set_order adapter external);
  mret (changed, l).
Definition source_returned (adapter : string) (external : option string) (refs : list SourceRef)
    : D (bool * list StateSnapshot) :=
  l ← await (ask_read refs);
  changed ← mark_source adapter external true;
  saved ← save_snapshots_unlocked l;
  mret (changed, saved).

Definition apply_source_availability (adapter : string) (external : option string) (available : bool)
    : D (list StateSnapshot) :=
  await ask_lock ≫= fun _ =>
  s ← look;
  let refs := refs_of (ref_of_source adapter external) (dg_registry s) in
  let scope := scope_of adapter external (dg_registry s) in
  if available && bool_decide (refs = []) then mret []
  else
    r ← (if available then source_returned adapter scope refs else source_lost adapter scope);
    (if fst r : bool then record_inventory_mutation else mret tt) ≫= fun _ =>
    mret (snd r).

(** ** Polling *)

Definition read_succeeded (r : EntityReadResult) : bool := bool_decide (er_status r ∈ ["success"; "stale"]).
(** The last reading of each reference, where an adapter has no detailed read. *)
Definition read_result_of (l : list StateSnapshot) (ref : SourceRef) : EntityReadResult :=
  match find_first (fun x => bool_decide (ref_key (ss_source_ref x) = ref_key ref)) (rev l) with
  | Some x => new_read_result ref (Some x) "success" None None []
  | None => new_read_result ref None "unavailable" (Some "state_missing")
              (Some "Source adapter returned no state for reference") []
  end.
Definition read_results (refs : list SourceRef) : D (list EntityReadResult) :=
  if dy_detailed dy then await (ask_read_detailed refs)
  else l ← await (ask_read refs); mret (map (read_result_of l) refs).

Definition degrade (r : EntityReadResult) : D unit :=
  if read_succeeded r then mret tt
  else
    write (@mark_source_unavailable key_set_order (sr_adapter_id (er_ref r)) (Some (sr_external_id (er_ref r)))) ≫= fun _ =>
    mret tt.

Definition refresh_state (excluded : list string) : D (list StateSnapshot) :=
  await ask_lock ≫= fun _ =>
  s ← look;
  let refs := refs_of (fun ref => negb (bool_decide (sr_adapter_id ref ∈ excluded))) (dg_registry s) in
  if bool_decide (refs = []) then mret []
  else
    results ← read_results refs;
    alter_st (fun s => s <| dg_last_results := results |>) ≫= fun _ =>
    coro_iter degrade results ≫= fun _ =>
    save_snapshots_unlocked (flat_map er_snapshots results).

(** ** Readings of a discovery *)

(** [_source_timestamp] *)
Definition source_timestamp (t : option source_time) (fallback : datetime) : datetime :=
  match t with
  | Some (ST_text s) => match fromisoformat s with Some (t, true) => t | _ => fallback end
  | Some (ST_datetime t true) => t
  | _ => fallback
  end.

Definition state_status_of (s : string) : option StateStatus :=
  find_first (fun x => String.eqb (StateStatus_value x) s) [CURRENT; STALE; UNAVAILABLE; INVALID].
Definition raw_status (raw : RawState) : StateStatus :=
  match rs_status raw with
  | Some s => default INVALID (state_status_of s)
  | None => if rs_available raw then CURRENT else UNAVAILABLE
  end.

(** [raw_state["..."]] *)
Definition required (o : option string) : result exn string :=
  match o with Some s => Ok s | None => Err KeyError end.

Definition raw_snapshot (adapter external device : string) (received_at : datetime) (raw : RawState)
    : result exn StateSnapshot :=
  let status := raw_status raw in
  let observed_at := source_timestamp (rs_observed_at raw) received_at in
  capability ← required (rs_capability raw);
  let s := mkStateSnapshot default_authority device capability
             (if bool_decide (status = CURRENT) then rs_value raw else None) (rs_unit raw) observed_at
             (Z.max (source_timestamp (rs_received_at raw) received_at) observed_at) status
             (mkSourceRef adapter external None None None) None in
  validate_snapshot s ≫= fun _ => Ok s.

(** Another source said otherwise just before: neither is believed. *)
Definition contradicts (previous : option StateSnapshot) (s : StateSnapshot) : bool :=
  match previous with
  | Some p => negb (bool_decide (ss_source_ref p = ss_source_ref s)) && negb (same_visible p (ss_value s, ss_status s))
  | None => false
  end.

(** One of [source_states]; [seen] is what this discovery said so far. *)
Definition record_state (received_at : datetime) (seen : odict key StateSnapshot) (raw : RawState)
    : D (option StateSnapshot) :=
  external ← of_result (required (rs_entity_id raw));
  let adapter := default (dy_adapter_id dy) (rs_source_adapter_id raw) in
  s ← look;
  match canonical_id_for_source (dg_registry s) adapter external with
  | None => mret None
  | Some device =>
      x ← of_result (raw_snapshot adapter external device received_at raw);
      let x := if contradicts (od_get (snap_key x) seen) x then invalidate x else x in
      write (fun io => save key_set_order io x) ≫= fun _ => mret (Some x)
  end.

Fixpoint record_all (received_at : datetime) (seen : odict key StateSnapshot) (l : list RawState)
    : D (list StateSnapshot) :=
  match l with
  | [] => mret []
  | raw :: l =>
      o ← record_state received_at seen raw;
      let seen := match o with Some x => od_set (snap_key x) x seen | None => seen end in
      rest ← record_all received_at seen l;
      mret (option_list o ++ rest)
  end.

(** [_record_states] *)
Definition record_states (l : list RawState) : D (list StateSnapshot) :=
  received_at ← inspect (fun s => Ok (dg_now s));
  record_all received_at [] l.

(** ** A discovery *)

Definition failed_sources (snapshot : AdapterSnapshot) : list string :=
  map (fun u => default (dy_adapter_id dy) (us_adapter_id u))
    (List.filter us_failure (as_unsupported_sources snapshot)).

(** [prune_capabilities] *)
Definition stale_capabilities (d : Device) (t : StateStore) : list string :=
  map snd (List.filter
    (fun k => String.eqb (fst k) (dev_id d) && negb (bool_decide (snd k ∈ map cap_name (dev_capabilities d))))
    (od_keys (sc_snapshots (st_data t)))).
Definition prune_device (d : Device) : D unit :=
  s ← look;
  coro_iter (fun capability => write (fun io => delete_capability io (dev_id d) capability) ≫= fun _ => mret tt)
    (stale_capabilities d (dg_store s)).

Definition forget_device (id : string) : D unit :=
  repository_call (fun s => s <| dg_devices := od_del id (dg_devices s) |>) ≫= fun _ =>
  s ← look;
  (if st_persistence_bound (dg_store s) then mret tt
   else repository_call (fun s => s <| dg_states := List.filter (fun '(k, _) => negb (String.eqb (fst k) id)) (dg_states s) |>))
  ≫= fun _ =>
  write (fun io => delete_device io id).

Definition save_state (x : StateSnapshot) : D unit :=
  repository_call (fun s => s <| dg_states := od_set (snap_key x) x (dg_states s) |>).

(** What the repositories keep of the inventory. *)
Definition persist_inventory : D unit :=
  if negb (dy_device_repository dy && dy_state_repository dy) then mret tt
  else
    s ← look;
    await ask_repository ≫= fun _ =>
    persisted ← inspect (fun s => Ok (od_keys (dg_devices s)));
    let current := map dev_id (devices (dg_registry s)) in
    coro_iter forget_device
      (string_set_order (List.filter (fun id => negb (bool_decide (id ∈ current))) persisted)) ≫= fun _ =>
    save_devices ≫= fun _ =>
    s ← look;
    if st_persistence_bound (dg_store s) then write persist_metadata
    else
      coro_iter save_state (all (dg_store s)) ≫= fun _ =>
      s ← look;
      if st_persistence_bound (dg_store s) then write persist_metadata
      else if dy_metadata_repository dy then save_metadata else mret tt.

Definition new_revision (before after : string) (t : StateStore) : StateStore :=
  record_inventory_fingerprint after (if String.eqb after before then t else begin_revision t).

Definition discovered (excluded : list string) : D (AdapterSnapshot * list RawState) :=
  await (ask_discover (if dy_excluding dy then excluded else [])).

(** The inventory of a snapshot. *)
Definition take_inventory (snapshot : AdapterSnapshot) : D (list Device * list Area) :=
  coro_iter (fun adapter => mark_source adapter None false ≫= fun _ => mret tt) (failed_sources snapshot) ≫= fun _ =>
  r ← on_registry (apply_discovery snapshot (dy_adapter_id dy) (Some configured_adapter_ids));
  on_registry (fun g => let '(_, g) := drain_diagnostics g in (Ok tt, g)) ≫= fun _ =>
  mret r.

(** [_refresh_unlocked] *)
Definition refresh_unlocked (excluded : list string) : D DiscoveryResult :=
  found ← discovered excluded;
  s ← look;
  let before := match sc_inventory_fingerprint (st_data (dg_store s)) with
                | Some f => if is_empty f then registry_fingerprint (dg_registry s) else f
                | None => registry_fingerprint (dg_registry s)
                end in
  inventory ← take_inventory (fst found);
  coro_iter prune_device (fst inventory) ≫= fun _ =>
  s ← look;
  on_store (modify (new_revision before (registry_fingerprint (dg_registry s)))) ≫= fun _ =>
  states ← record_states (snd found);
  s ← look;
  persist_inventory ≫= fun _ =>
  mret (mkDiscoveryResult (fst inventory) (snd inventory) states (runtime_revision (dg_store s))).

Definition refresh (excluded : list string) : D DiscoveryResult :=
  await ask_lock ≫= fun _ => refresh_unlocked excluded.
End Service.
