(* ===== verification/Refreshing.v ===== *)
(** * Refreshes and events (application/state_refresher.py, event_consumer.py)

    The two tasks that keep the store alive: [RuntimeStateRefresher] polls the
    sources that have no authoritative event stream, [RuntimeEventConsumer]
    applies the events of the others.  Both go through the discovery service,
    whose requests are theirs ([of_discovery]). *)

From Stdlib Require Import SpecFloat.
From S2P Require Import Prelude.
From S2P Require Import Values.
From S2P Require Import Models.
From S2P Require Import StateStore.
From S2P Require Import Registry.
From S2P Require Import Digests.
From S2P Require Import Coroutines.
From S2P Require Import Preflight.
From S2P Require Import Recurrence.
From S2P Require Import Zones.
From S2P Require Import Scheduler.
From S2P Require Import LocalAutomation.
From S2P Require Import Discovery.

(** ** Events *)

(** An entry of the evidence of an event: no object, or the fields of a
    snapshot that is not validated yet. *)
Inductive raw_evidence := RE_other | RE_state (s : StateSnapshot).
(** [payload.get("states")] *)
Inductive state_evidence := SE_none | SE_other | SE_list (l : list raw_evidence).

(** [payload.get("source_adapter_id")] is [payload_adapter]. *)
Inductive SourceEvent :=
  | EV_state (e : StateChangedEvent) (unit_ : option string) (states : state_evidence) (payload_adapter : option string)
  | EV_availability (source_adapter_id : option string) (occurred_at : option datetime) (external_id : option string)
      (available : option bool) (payload_adapter : option string)
  | EV_membership (occurred_at : option datetime)
  | EV_metadata (occurred_at : option datetime)
  | EV_diagnostic (source_adapter_id : option string) (occurred_at : option datetime) (external_id code : option string).

Definition event_occurred_at (e : SourceEvent) : option datetime :=
  match e with
  | EV_state e _ _ _ => sce_occurred_at e
  | EV_availability _ t _ _ _ | EV_membership t | EV_metadata t | EV_diagnostic _ t _ _ => t
  end.

(** ** The two tasks *)

(** What the adapter says of itself, and what the runtime was built with. *)
Record Refresher := mkRefresher {
  rn_discovery : DiscoveryService;
  rn_interval_seconds : num;
  rn_inventory_refresh_interval_seconds : num;
  rn_declared_event_sources : option (list string);
  rn_state_events_are_authoritative : bool;
  rn_static_inventory_adapter_ids : list string;
  rn_retention_maintenance : bool;
  rn_automation_handler : bool
}.

Definition not_positive (n : num) : bool := num_le n (NInt 0).
(** [RuntimeStateRefresher(...)] *)
Definition new_refresher (dy : DiscoveryService) (interval : num) (inventory_interval : option num)
    (event_sources : option (list string)) (authoritative : bool) (static_ids : list string)
    (retention automation : bool) : result exn Refresher :=
  raise_if (not_positive interval) (ValueError "state refresh interval must be positive") ≫= fun _ =>
  raise_if (match inventory_interval with Some i => not_positive i | None => false end)
    (ValueError "inventory refresh interval must be positive") ≫= fun _ =>
  Ok (mkRefresher dy interval (default interval inventory_interval) event_sources authoritative static_ids
        retention automation).

(** [event_driven_state_adapter_ids] *)
Definition event_driven_ids (rn : Refresher) : list string :=
  match rn_declared_event_sources rn with
  | Some l => l
  | None => if rn_state_events_are_authoritative rn then [dy_adapter_id (rn_discovery rn)] else []
  end.
(** [configured_adapter_ids] of the refresher *)
Definition configured_ids (rn : Refresher) : list string :=
  default [dy_adapter_id (rn_discovery rn)] (dy_children (rn_discovery rn)).
Definition minus (l k : list string) : list string := List.filter (fun x => negb (bool_decide (x ∈ k))) l.

Record Refreshing := mkRefreshing {
  rf_discovery : Discovering;
  rf_refresher_alive : bool;
  rf_refreshes : Z;
  rf_last_refresh_at : option datetime;
  rf_last_inventory_refresh_at : datetime;
  rf_last_error : option string;
  rf_consumer_alive : bool;
  rf_events_applied : Z;
  rf_last_event_at : option datetime;
  rf_last_event_lag_seconds : option f64
}.
#[global] Instance Refreshing_eta : Eta Refreshing := fun r =>
  mkRefreshing (rf_discovery r) (rf_refresher_alive r) (rf_refreshes r) (rf_last_refresh_at r)
    (rf_last_inventory_refresh_at r) (rf_last_error r) (rf_consumer_alive r) (rf_events_applied r)
    (rf_last_event_at r) (rf_last_event_lag_seconds r).

(** [ask_event] is answered by [None] when the stream has ended. *)
Inductive refresh_call : Type -> Type :=
  | of_discovery {B} (q : discovery_call B) : refresh_call B
  | ask_health : refresh_call AdapterHealth
  | ask_connect : refresh_call unit
  | ask_retention : refresh_call Z
  | ask_sleep (seconds : num) : refresh_call unit
  | ask_event : refresh_call (option SourceEvent)
  | ask_automation (e : StateChangedEvent) : refresh_call unit.

Abbreviation F := (coro Refreshing refresh_call).

Definition discovery {A} (c : D A) : F A := zoom rf_discovery (fun d s => s <| rf_discovery := d |>) (@of_discovery) c.
Definition now_of : F datetime := inspect (fun s => Ok (dg_now (rf_discovery s))).

Section Tasks.
Context `{CJ : Canonical} `{PY : Interpreter} `{SO : SetOrder} `{TX : EventTexts}.
Context (rn : Refresher).
Let dy := rn_discovery rn.

Definition source_down (source : string) : F unit :=
  discovery (apply_source_availability dy source None false) ≫= fun _ => mret tt.
(** [{str(error)[:200]}] *)
Definition failure_text (e : exn) : string := String.substring 0 200 (exn_str e).

(** ** [RuntimeStateRefresher] *)

Definition inventory_refresh_due : F bool :=
  now ← now_of;
  inspect (fun s => Ok (num_le (rn_inventory_refresh_interval_seconds rn)
                          (NFloat (total_seconds (now - rf_last_inventory_refresh_at s))))).

Definition refresh_polled_state : F (list StateSnapshot) := discovery (refresh_state dy (event_driven_ids rn)).

Definition refresh_static_state : F (list StateSnapshot) :=
  let pollable := minus (rn_static_inventory_adapter_ids rn) (event_driven_ids rn) in
  if bool_decide (pollable = []) then mret []
  else discovery (refresh_state dy (minus (configured_ids rn) pollable)).

Definition refresh_inventory : F (option DiscoveryResult) :=
  let static_ids := rn_static_inventory_adapter_ids rn in
  if bool_decide (static_ids = []) then r ← discovery (refresh dy []); mret (Some r)
  else if bool_decide (minus (configured_ids rn) static_ids = []) then mret None
  else r ← discovery (refresh dy static_ids); mret (Some r).

Definition disconnected (l : list (string * bool)) : list string := map fst (List.filter (fun c => negb (snd c)) l).

(** [_mark_disconnected_sources] *)
Definition mark_disconnected_sources : F unit :=
  health ← coro_attempt (await ask_health);
  match health with
  | Err _ => mret tt
  | Ok h => coro_iter source_down
      (dedup match ah_components h with
             | None => if ah_connected h then [] else [dy_adapter_id dy]
             | Some l => disconnected l
             end)
  end.

(** [_mark_sources_unavailable] *)
Definition mark_sources_unavailable : F unit :=
  health ← coro_attempt (await ask_health);
  let more := match health with Ok h => default [] (disconnected <$> ah_components h) | Err _ => [] end in
  coro_attempt (coro_iter source_down (dedup (dy_adapter_id dy :: more))) ≫= fun _ => mret tt.

(** One awaited step of the [try]; [got] is what [states] is if it fails. *)
Definition then_else {A} (got : list StateSnapshot) (c : F A) (k : A -> F (list StateSnapshot * option exn))
    : F (list StateSnapshot * option exn) :=
  r ← coro_attempt c;
  match r with Ok a => k a | Err e => mret (got, Some e) end.

Definition read_sources : F (list StateSnapshot * option exn) :=
  due ← inventory_refresh_due;
  if due : bool then
    then_else [] refresh_inventory (fun o =>
      let got := match o with Some r => dr_states r | None => [] end in
      then_else got refresh_static_state (fun l =>
        now ← now_of;
        alter_st (fun s => s <| rf_last_inventory_refresh_at := now |>) ≫= fun _ =>
        then_else (got ++ l) mark_disconnected_sources (fun _ => mret (got ++ l, None))))
  else
    then_else [] refresh_polled_state (fun got =>
      then_else got mark_disconnected_sources (fun _ => mret (got, None))).

Definition run_retention_maintenance : F unit :=
  if rn_retention_maintenance rn then coro_attempt (await ask_retention) ≫= fun _ => mret tt else mret tt.

Definition refresh_once : F (list StateSnapshot) :=
  r ← read_sources;
  (match snd r with
   | Some e =>
       alter_st (fun s => s <| rf_last_error := Some (failure_text e) |>) ≫= fun _ => mark_sources_unavailable
   | None => alter_st (fun s => s <| rf_last_error := None |> <| rf_refreshes := rf_refreshes s + 1 |>)
   end) ≫= fun _ =>
  run_retention_maintenance ≫= fun _ =>
  now ← now_of;
  alter_st (fun s => s <| rf_last_refresh_at := Some now |>) ≫= fun _ =>
  mret (fst r).

(** [run], for [n] rounds of its loop. *)
Definition refresher_run (n : nat) : F unit :=
  alter_st (fun s => s <| rf_refresher_alive := true |>) ≫= fun _ =>
  coro_catch (fun e => alter_st (fun s => s <| rf_refresher_alive := false |>) ≫= fun _ => Raise e)
    (coro_iter (fun _ => refresh_once ≫= fun _ => await (ask_sleep (rn_interval_seconds rn))) (repeat tt n) ≫= fun _ =>
     Raise OutOfFuel).

(** ** [RuntimeEventConsumer] *)

(** [_event_snapshots]: the evidence an event carries, for canonical devices. *)
Definition evidence_snapshot (r : DeviceRegistry) (adapter : string) (cursor : option SourceCursor)
    (x : raw_evidence) : result exn (option StateSnapshot) :=
  match x with
  | RE_other => Err (ValueError "state event evidence entries must be objects")
  | RE_state s =>
      let s := match ss_source_cursor s with None => s <| ss_source_cursor := cursor |> | Some _ => s end in
      validate_snapshot s ≫= fun _ =>
      raise_if (negb (String.eqb (sr_adapter_id (ss_source_ref s)) adapter))
        (ValueError "state event source adapter does not match evidence") ≫= fun _ =>
      Ok ((fun id => s <| ss_device_id := id |>) <$> canonical_id_for_source r adapter (sr_external_id (ss_source_ref s)))
  end.
Definition event_snapshots (r : DeviceRegistry) (adapter : string) (cursor : option SourceCursor)
    (states : state_evidence) : result exn (option (list StateSnapshot)) :=
  match states with
  | SE_none => Ok None
  | SE_other => Err (ValueError "state event evidence must be a list")
  | SE_list l => found ← result_map (evidence_snapshot r adapter cursor) l; Ok (Some (flat_map option_list found))
  end.

(** [event.source_adapter_id or event.payload.get(...)] *)
Definition event_source (source payload_adapter : option string) : string :=
  or_else source (default (dy_adapter_id dy) payload_adapter).

(** [_apply_state_only] *)
Definition apply_state_only (e : StateChangedEvent) (states : state_evidence) (payload_adapter : option string)
    : F (list StateSnapshot) :=
  let source := event_source (sce_source_adapter_id e) payload_adapter in
  s ← look;
  match event_snapshots (dg_registry (rf_discovery s)) source (sce_source_cursor e) states with
  | Err (ValueError _) | Err TypeError => source_down source ≫= fun _ => mret []
  | Err x => Raise x
  | Ok (Some l) => discovery (save_state_snapshots l)
  | Ok None =>
      if bool_decide (source ∈ event_driven_ids rn) then mret []
      else
        let refs := refs_of (ref_of_source source (sce_external_id e)) (dg_registry (rf_discovery s)) in
        if bool_decide (refs = []) then mret []
        else
          l ← discovery (await (ask_read refs));
          discovery (save_state_snapshots (match sce_capability e with
            | Some c => List.filter (fun x => String.eqb (ss_capability x) c) l
            | None => l
            end))
  end.

(** [_automation_events]; the instants of a reading are shown in UTC. *)
Definition automation_event (e : StateChangedEvent) (x : StateSnapshot) : StateChangedEvent :=
  mkStateChangedEvent (Some (sr_adapter_id (ss_source_ref x)))
    (Some (default (ss_observed_at x) (sce_occurred_at e)))
    (match sce_occurred_at e with Some _ => sce_occurred_tz e | None => None end)
    (Some (sr_external_id (ss_source_ref x))) (Some (ss_device_id x)) (Some (ss_capability x))
    (json_of_opt json_of_scalar (ss_value x)) (sce_available e) (sce_source_cursor e).
Definition automation_events (e : StateChangedEvent) (l : list StateSnapshot) : list StateChangedEvent :=
  match sce_device_id e, sce_capability e with
  | Some _, Some _ => [e]
  | _, _ => map (automation_event e) (List.filter is_current l)
  end.

Definition unless_lost (f : F unit) (c : F unit) : F unit :=
  coro_catch (fun e => match e with OSError _ => f | _ => Raise e end) c.

(** [_apply_event] *)
Definition note_event (e : SourceEvent) : F unit :=
  now ← now_of;
  alter_st (fun s => s <| rf_events_applied := rf_events_applied s + 1 |>
    <| rf_last_event_at := event_occurred_at e |>
    <| rf_last_event_lag_seconds := (fun t => lateness_of (now - t)) <$> event_occurred_at e |>).
Definition apply_event (e : SourceEvent) : F unit :=
  note_event e ≫= fun _ =>
  match e with
  | EV_state e _ states payload_adapter =>
      l ← apply_state_only e states payload_adapter;
      if rn_automation_handler rn then coro_iter (fun x => await (ask_automation x)) (automation_events e l) else mret tt
  | EV_availability source _ external available payload_adapter =>
      discovery (apply_source_availability dy (event_source source payload_adapter) external
        (bool_decide (available = Some true))) ≫= fun _ => mret tt
  | EV_membership _ | EV_metadata _ => discovery (refresh dy []) ≫= fun _ => mret tt
  | EV_diagnostic source _ external code =>
      let source := or_else source (dy_adapter_id dy) in
      if bool_decide (code = Some "source_unavailable") then
        discovery (apply_source_availability dy source external false) ≫= fun _ => mret tt
      else if bool_decide (code = Some "source_reconnected") then
        unless_lost (mret tt) (discovery (apply_source_availability dy source external true) ≫= fun _ => mret tt)
      else mret tt
  end.

Definition consume_once : F (option SourceEvent) :=
  r ← coro_catch (fun e => match e with
        | OSError _ => source_down (dy_adapter_id dy) ≫= fun _ => mret None
        | _ => Raise e end) (await ask_event);
  match r with
  | None => mret None
  | Some e =>
      coro_catch (fun x => match x with
          | OSError _ => source_down (dy_adapter_id dy) ≫= fun _ => mret None
          | _ => Raise x end)
        (apply_event e ≫= fun _ => mret (Some e))
  end.

(** [_mark_source_unavailable] *)
Definition mark_unavailable : F unit :=
  coro_attempt (coro_iter source_down
    (dedup (dy_adapter_id dy :: default [] (dy_children dy)))) ≫= fun _ => mret tt.

Definition degraded (h : AdapterHealth) : bool :=
  negb (ah_connected h) || match ah_components h with Some l => existsb (fun c => negb (snd c)) l | None => false end.

(** [async for event in self.adapter.subscribe_events()], for [n] events. *)
Fixpoint follow_stream (n : nat) : F unit :=
  match n with
  | O => Raise OutOfFuel
  | Datatypes.S n =>
      e ← await ask_event;
      match e with
      | None => mark_unavailable
      | Some e =>
          r ← coro_attempt (apply_event e);
          match r with Ok _ => follow_stream n | Err _ => mark_unavailable end
      end
  end.

(** [min(delay * 2, max_reconnect_delay)] *)
Definition doubled (delay most : f64) : f64 :=
  let d := f64_mul delay (f64_of_Z 2) in if num_lt (NFloat most) (NFloat d) then most else d.

(** The part of a round before the stream; [false] means to try again later. *)
Definition connected_round : F bool :=
  h ← coro_attempt (await ask_health);
  match h with
  | Err _ => mark_unavailable ≫= fun _ => mret false
  | Ok h =>
      if degraded h then
        coro_iter source_down (disconnected (default [] (ah_components h))) ≫= fun _ =>
        r ← coro_attempt (await ask_connect ≫= fun _ => discovery (refresh dy []));
        match r with Ok _ => mret true | Err _ => mark_unavailable ≫= fun _ => mret false end
      else mret true
  end.

(** A round of [run]: its answer is the delay of the next one. *)
Definition consumer_round (events : nat) (reconnect_delay max_delay delay : f64) : F f64 :=
  ok ← connected_round;
  let delay := if ok : bool then reconnect_delay else delay in
  (if ok then
     r ← coro_attempt (follow_stream events);
     match r with Ok _ => mret tt | Err OutOfFuel => Raise OutOfFuel | Err _ => mark_unavailable end
   else mret tt) ≫= fun _ =>
  await (ask_sleep (NFloat delay)) ≫= fun _ =>
  mret (doubled delay max_delay).

Fixpoint consumer_rounds (n events : nat) (reconnect_delay max_delay delay : f64) : F unit :=
  match n with
  | O => Raise OutOfFuel
  | Datatypes.S n => consumer_round events reconnect_delay max_delay delay ≫= consumer_rounds n events reconnect_delay max_delay
  end.

(** [run], for [n] rounds of its loop and [events] events of a stream. *)
Definition consumer_run (n events : nat) (reconnect_delay max_delay : f64) : F unit :=
  alter_st (fun s => s <| rf_consumer_alive := true |>) ≫= fun _ =>
  coro_catch (fun e => alter_st (fun s => s <| rf_consumer_alive := false |>) ≫= fun _ => Raise e)
    (consumer_rounds n events reconnect_delay max_delay reconnect_delay).
End Tasks.
