(* ===== verification/RefreshSafety.v ===== *)
(** * What refreshes and events promise

    Sources with an authoritative event stream are never polled; a source that
    is lost is closed in the registry and in the store; a refresh never takes
    its task down. *)

From S2P Require Import Prelude.
From S2P Require Import Values.
From S2P Require Import Models.
From S2P Require Import StateStore.
From S2P Require Import Registry.
From S2P Require Import Digests.
From S2P Require Import Ports.
From S2P Require Import Coroutines.
From S2P Require Import Recurrence.
From S2P Require Import Zones.
From S2P Require Import Preflight.
From S2P Require Import Scheduler.
From S2P Require Import LocalAutomation.
From S2P Require Import Discovery.
From S2P Require Import Refreshing.

(** ** Physical reads

    [reads_bad]: a request that reads a reference in [bad], or a discovery if
    those count. *)
Section Reads.
Context (bad : SourceRef -> bool) (discoveries : bool).

Definition reads_bad (B : Type) (q : discovery_call B) (_ : result exn B) : option unit :=
  match q with
  | ask_read refs | ask_read_detailed refs => if existsb bad refs then Some tt else None
  | ask_discover _ => if discoveries then Some tt else None
  | _ => None
  end.
Definition asks_bad (B : Type) (q : refresh_call B) : result exn B -> option unit :=
  match q with
  | of_discovery q => reads_bad _ q
  | _ => fun _ => None
  end.

Abbreviation spares := (avoids (S := Discovering) reads_bad).

Lemma spares_on_store {A} (m : stm StateStore exn A) : spares (on_store m).
Proof. apply avoids_perform. Qed.
Lemma spares_on_registry {A} (m : stm DeviceRegistry exn A) : spares (on_registry m).
Proof. apply avoids_perform. Qed.
Lemma spares_await {B} (q : discovery_call B) : (forall r, reads_bad B q r = None) -> spares (await q).
Proof. intros H. split; [exact H|]. apply avoids_of_result. Qed.
Lemma spares_write {A} (m : PersistOutcome -> stm StateStore exn A) : spares (write m).
Proof. apply avoids_bind; [by apply spares_await|]. intros io. apply spares_on_store. Qed.
Lemma spares_repository u : spares (repository_call u).
Proof. apply avoids_bind; [by apply spares_await|]. intros _. done. Qed.

Section Discoveries.
Context `{CJ : Canonical} `{PY : Interpreter} `{SO : SetOrder} (dy : DiscoveryService).

Lemma spares_save_unlocked l : spares (save_snapshots_unlocked l).
Proof.
  apply avoids_look. intros s. apply avoids_bind; [|done]. apply avoids_if; [done|]. apply spares_write.
Qed.
Lemma spares_save l : spares (save_state_snapshots l).
Proof. apply avoids_bind; [by apply spares_await|]. intros _. apply spares_save_unlocked. Qed.

Lemma spares_save_devices : spares save_devices.
Proof. apply avoids_look. intros s. apply avoids_iter. intros d. apply spares_repository. Qed.
Lemma spares_save_metadata : spares save_metadata.
Proof. apply avoids_bind; [apply avoids_inspect|]. intros m. apply spares_repository. Qed.

Lemma spares_record_inventory : spares (record_inventory_mutation dy).
Proof.
  apply avoids_look. intros s. apply avoids_if; [done|]. apply avoids_bind; [apply spares_on_store|]. intros _.
  apply avoids_bind; [apply avoids_if; [apply spares_save_devices|done]|]. intros _. apply avoids_look. intros s'.
  apply avoids_if; [apply spares_write|]. apply avoids_if; [|done].
  apply avoids_bind; [|intros _; apply spares_on_store]. apply avoids_catch; [apply spares_save_metadata|].
  intros e. apply avoids_bind; [apply spares_on_store|done].
Qed.

Lemma spares_lost adapter external : spares (source_lost adapter external).
Proof. apply avoids_bind; [apply spares_on_registry|]. intros c. apply avoids_bind; [apply spares_write|done]. Qed.

Lemma spares_unavailable adapter external : spares (apply_source_availability dy adapter external false).
Proof.
  apply avoids_bind; [by apply spares_await|]. intros _. apply avoids_look. intros s.
  cbn [andb]. apply avoids_bind; [apply spares_lost|]. intros r.
  apply avoids_bind; [|done]. apply avoids_if; [apply spares_record_inventory|done].
Qed.

Lemma spares_read_results refs : existsb bad refs = false -> spares (read_results dy refs).
Proof.
  intros H. unfold read_results. apply avoids_if; [apply spares_await; simpl; by rewrite H|].
  apply avoids_bind; [apply spares_await; simpl; by rewrite H|done].
Qed.

Lemma refs_of_spared (excluded : list string) r : (forall ref, bad ref = true -> sr_adapter_id ref ∈ excluded) ->
  existsb bad (refs_of (fun ref => negb (bool_decide (sr_adapter_id ref ∈ excluded))) r) = false.
Proof.
  intros H. apply not_true_is_false. intros (ref & Hin & Hb)%existsb_exists.
  apply filter_In in Hin as [_ Hn]. rewrite bool_decide_true in Hn by (by apply H). done.
Qed.

Lemma spares_refresh_state (excluded : list string) : (forall ref, bad ref = true -> sr_adapter_id ref ∈ excluded) ->
  spares (refresh_state dy excluded).
Proof.
  intros H. apply avoids_bind; [by apply spares_await|]. intros _. apply avoids_look. intros s.
  apply avoids_if; [done|]. apply avoids_bind; [by apply spares_read_results, refs_of_spared|]. intros results.
  apply avoids_bind; [done|]. intros _. apply avoids_bind; [|intros _; apply spares_save_unlocked].
  apply avoids_iter. intros x. apply avoids_if; [done|]. apply avoids_bind; [apply spares_write|done].
Qed.

(** *** A discovery reads no reference *)

Lemma spares_record_state received_at seen raw : spares (record_state dy received_at seen raw).
Proof.
  apply avoids_bind; [apply avoids_of_result|]. intros external. apply avoids_look. intros s.
  destruct (canonical_id_for_source _ _ _); [|done]. apply avoids_bind; [apply avoids_of_result|]. intros x.
  apply avoids_bind; [apply spares_write|done].
Qed.
Lemma spares_record_all received_at l : forall seen, spares (record_all dy received_at seen l).
Proof.
  induction l as [|raw l IH]; intros seen; [done|]. apply avoids_bind; [apply spares_record_state|]. intros o.
  apply avoids_bind; [apply IH|done].
Qed.

Lemma spares_persist_inventory : spares (persist_inventory dy).
Proof.
  apply avoids_if; [done|]. apply avoids_look. intros s. apply avoids_bind; [by apply spares_await|]. intros _.
  apply avoids_bind; [apply avoids_inspect|]. intros persisted. apply avoids_bind.
  { apply avoids_iter. intros id. apply avoids_bind; [apply spares_repository|]. intros _. apply avoids_look. intros s1.
    apply avoids_bind; [apply avoids_if; [done|apply spares_repository]|]. intros _. apply spares_write. }
  intros _. apply avoids_bind; [apply spares_save_devices|]. intros _. apply avoids_look. intros s2.
  apply avoids_if; [apply spares_write|]. apply avoids_bind; [apply avoids_iter; intros x; apply spares_repository|].
  intros _. apply avoids_look. intros s3. apply avoids_if; [apply spares_write|].
  apply avoids_if; [apply spares_save_metadata|done].
Qed.

Lemma spares_take_inventory snapshot : spares (take_inventory dy snapshot).
Proof.
  apply avoids_bind; [apply avoids_iter; intros a; apply avoids_bind; [apply spares_on_registry|done]|]. intros _.
  apply avoids_bind; [apply spares_on_registry|]. intros r. by apply avoids_bind; [apply spares_on_registry|].
Qed.

Lemma spares_refresh excluded : discoveries = false -> spares (refresh dy excluded).
Proof.
  intros Hd. apply avoids_bind; [by apply spares_await|]. intros _.
  apply avoids_bind; [apply spares_await; simpl; by rewrite Hd|]. intros found. apply avoids_look. intros s.
  apply avoids_bind; [apply spares_take_inventory|]. intros inventory. apply avoids_bind.
  { apply avoids_iter. intros d. apply avoids_look. intros s1. apply avoids_iter. intros c.
    by apply avoids_bind; [apply spares_write|]. }
  intros _. apply avoids_look. intros s2. apply avoids_bind; [apply spares_on_store|]. intros _.
  apply avoids_bind; [apply avoids_bind; [apply avoids_inspect|]; intros t; apply spares_record_all|]. intros states.
  apply avoids_look. intros s3. by apply avoids_bind; [apply spares_persist_inventory|].
Qed.
End Discoveries.

(** *** The two tasks *)

Section Tasks.
Context `{CJ : Canonical} `{PY : Interpreter} `{SO : SetOrder} `{TX : EventTexts} (rn : Refresher).
Abbreviation spared := (avoids (S := Refreshing) asks_bad).

Lemma spared_discovery {A} (c : D A) : spares c -> spared (discovery c).
Proof. by apply avoids_zoom. Qed.
Lemma spared_await {B} (q : refresh_call B) : (forall r, asks_bad B q r = None) -> spared (await q).
Proof. intros H. split; [exact H|]. apply avoids_of_result. Qed.
Lemma spared_down source : spared (source_down rn source).
Proof. apply avoids_bind; [|done]. apply spared_discovery, spares_unavailable. Qed.
Lemma spared_down_all l : spared (coro_iter (source_down rn) l).
Proof. apply avoids_iter. apply spared_down. Qed.
Lemma spared_then {A} got (c : F A) k : spared c -> (forall a, spared (k a)) -> spared (then_else got c k).
Proof. intros Hc Hk. apply avoids_bind; [by apply avoids_attempt|]. by intros [a|e]. Qed.

Lemma spared_state_only e states payload :
  states <> SE_none \/ event_source rn (sce_source_adapter_id e) payload ∈ event_driven_ids rn ->
  spared (apply_state_only rn e states payload).
Proof.
  intros Hs. apply avoids_look. intros s. destruct (event_snapshots _ _ _ _) as [[l|]|x] eqn:Ee.
  - apply spared_discovery, spares_save.
  - destruct Hs as [Hs|Hs]; [|by rewrite bool_decide_true].
    destruct states; [done..|]. simpl in Ee. by destruct (result_map _ _).
  - destruct x; try done; by apply avoids_bind; [apply spared_down|].
Qed.

Lemma spared_mark_disconnected : spared (mark_disconnected_sources rn).
Proof.
  apply avoids_bind; [by apply avoids_attempt, spared_await|]. intros [h|e]; [apply spared_down_all|done].
Qed.
Lemma spared_mark_sources : spared (mark_sources_unavailable rn).
Proof.
  apply avoids_bind; [by apply avoids_attempt, spared_await|]. intros health.
  apply avoids_bind; [apply avoids_attempt, spared_down_all|done].
Qed.

Lemma spared_refresh_once : discoveries = false ->
  (forall ref, bad ref = true -> sr_adapter_id ref ∈ event_driven_ids rn) ->
  (forall a, a ∈ event_driven_ids rn -> a ∈ configured_ids rn) -> spared (refresh_once rn).
Proof.
  intros Hd Hbad Hin. assert (spared (refresh_static_state rn)) as Hstatic.
  { apply avoids_if; [done|]. apply spared_discovery, spares_refresh_state. intros ref Hb%Hbad.
    unfold minus. rewrite !elem_of_filter_list. split; [by apply Hin|]. apply negb_true_iff, bool_decide_eq_false.
    intros [_ Hn]%elem_of_filter_list. by rewrite bool_decide_true in Hn. }
  assert (spared (refresh_inventory rn)) as Hinventory.
  { apply avoids_if; [|apply avoids_if; [done|]]; (apply avoids_bind; [by apply spared_discovery, spares_refresh|done]). }
  assert (spared (refresh_polled_state rn)) as Hpolled by (by apply spared_discovery, spares_refresh_state).
  apply avoids_bind.
  - apply avoids_bind; [apply avoids_bind; [apply avoids_inspect|intros now; apply avoids_inspect]|]. intros due.
    apply avoids_if; (apply spared_then; [done|]).
    + intros o. apply spared_then; [done|]. intros l. apply avoids_bind; [apply avoids_inspect|]. intros now.
      apply avoids_bind; [done|]. intros _. apply spared_then; [apply spared_mark_disconnected|done].
    + intros got. apply spared_then; [apply spared_mark_disconnected|done].
  - intros r. apply avoids_bind.
    { destruct (snd r); [|done]. apply avoids_bind; [done|]. intros _. apply spared_mark_sources. }
    intros _. apply avoids_bind; [apply avoids_if; [|done]; apply avoids_bind; [by apply avoids_attempt, spared_await|done]|].
    intros _. by apply avoids_bind; [apply avoids_inspect|].
Qed.

Lemma spared_state_event e unit_ states payload :
  states <> SE_none \/ event_source rn (sce_source_adapter_id e) payload ∈ event_driven_ids rn ->
  spared (apply_event rn (EV_state e unit_ states payload)).
Proof.
  intros Hs. apply avoids_bind; [apply avoids_bind; [apply avoids_inspect|done]|]. intros _.
  apply avoids_bind; [by apply spared_state_only|]. intros l. apply avoids_if; [|done].
  apply avoids_iter. intros x. by apply spared_await.
Qed.
End Tasks.
End Reads.

(** *** What was read *)

Definition read_refs (B : Type) (q : refresh_call B) (_ : result exn B) : option (list SourceRef) :=
  match q with
  | of_discovery (ask_read refs) | of_discovery (ask_read_detailed refs) => Some refs
  | _ => None
  end.
Definition discovers (B : Type) (q : refresh_call B) (_ : result exn B) : option unit :=
  match q with of_discovery (ask_discover _) => Some tt | _ => None end.
Definition refs_read (h : list (happening Refreshing refresh_call)) : list SourceRef := concat (picked read_refs h).
Definition discoveries_made (h : list (happening Refreshing refresh_call)) : list unit := picked discovers h.

Lemma read_refs_spared bad d h : picked (asks_bad bad d) h = [] ->
  (forall ref, ref ∈ refs_read h -> bad ref = false) /\ (d = true -> discoveries_made h = []).
Proof.
  unfold refs_read, discoveries_made, picked. induction h as [|x h IH]; simpl; [by split; [intros ? ?%not_elem_of_nil|]|].
  destruct x as [s|B q r]; simpl; [done|].
  destruct q as [B q| | | | | |]; simpl; try done. destruct q; simpl; try done.
  - destruct d; [done|]. intros [H1 _]%IH. by split.
  - destruct (existsb bad refs) eqn:E; [done|]. intros [H1 H2]%IH. split; [|done].
    intros ref [Hin|Hin]%elem_of_app; [|by apply H1]. destruct (bad ref) eqn:Eb; [|done].
    rewrite <- not_true_iff_false, existsb_exists in E. destruct E. exists ref. by rewrite <- list_elem_of_In.
  - destruct (existsb bad refs) eqn:E; [done|]. intros [H1 H2]%IH. split; [|done].
    intros ref [Hin|Hin]%elem_of_app; [|by apply H1]. destruct (bad ref) eqn:Eb; [|done].
    rewrite <- not_true_iff_false, existsb_exists in E. destruct E. exists ref. by rewrite <- list_elem_of_In.
Qed.

Section Promises.
Context `{CJ : Canonical} `{PY : Interpreter} `{SO : SetOrder} `{TX : EventTexts} (rn : Refresher).

(** C31: A source with an authoritative event stream is never polled.  Whatever
    is answered and whatever others do meanwhile: a state event of such a
    source, and any state event that carries its evidence, is applied without a
    read or a discovery, malformed evidence included; and a periodic refresh
    reads no reference of such a source, as long as it is one of the configured
    ones. *)
Theorem event_sources_never_polled o n s :
  (forall e unit_ states payload,
     states <> SE_none \/ event_source rn (sce_source_adapter_id e) payload ∈ event_driven_ids rn ->
     let h := history_of o (apply_event rn (EV_state e unit_ states payload)) n s in
     refs_read h = [] /\ discoveries_made h = []) /\
  ((forall a, a ∈ event_driven_ids rn -> a ∈ configured_ids rn) ->
   forall ref, ref ∈ refs_read (history_of o (refresh_once rn) n s) -> sr_adapter_id ref ∉ event_driven_ids rn).
Proof.
  split.
  - intros e unit_ states payload Hs h.
    destruct (read_refs_spared (fun _ => true) true h) as [Hr Hd].
    { by apply avoids_history, spared_state_event. }
    split; [|by apply Hd]. destruct (refs_read h) as [|ref l]; [done|]. by discriminate (Hr ref (list_elem_of_here _ _)).
  - intros Hin ref Href.
    destruct (read_refs_spared (fun ref => bool_decide (sr_adapter_id ref ∈ event_driven_ids rn)) false
      (history_of o (refresh_once rn) n s)) as [Hr _].
    { apply avoids_history, spared_refresh_once; [done| |done]. intros ref'. apply bool_decide_eq_true. }
    by apply Hr, bool_decide_eq_false in Href.
Qed.

(** ** A refresh always comes back *)

Definition calm {A} (c : F A) : Prop :=
  does (fun _ => True) c (fun r _ _ => match r with Ok _ => True | Err e => e = CancelledError end).

Lemma does_any {A} P (c : F A) : does P c (fun _ _ _ => True).
Proof.
  intros h s _. assert (forall h', wph (fun _ _ => True) c (fun _ h2 _ => exists l, h2 = h' ++ l /\ True) h' s) as H; [|apply H].
  intros h'. assert (forall l s, wph (fun _ _ => True) c (fun _ h2 _ => exists l', h2 = h' ++ l' /\ True) (h' ++ l) s) as H.
  { induction c as [a|e|u k IH|B q k IH]; intros l s'; simpl; [by exists l..| |].
    - rewrite <- app_assoc. apply IH.
    - intros r s2 _. rewrite <- app_assoc. apply IH. }
  specialize (H [] s). by rewrite app_nil_r in H.
Qed.

Lemma calm_attempt {A} (c : F A) : calm (coro_attempt c).
Proof.
  apply does_attempt. eapply does_conseq; [apply (does_any (fun _ => True) c)|done|]. intros [a|e] l s _; [done|].
  unfold is_exception. by case_bool_decide.
Qed.
Lemma calm_bind {A B} (c : F A) (f : A -> F B) : calm c -> (forall a, calm (f a)) -> calm (c ≫= f).
Proof.
  intros Hc Hf. eapply does_bind with (M := fun _ _ _ => True).
  - eapply does_conseq; [exact Hc|done|]. by intros [a|e].
  - intros a l1 s1 _. eapply does_conseq; [apply Hf|done|]. done.
Qed.
Lemma calm_ret {A} (a : A) : calm (mret a).
Proof. by apply does_ret. Qed.
Lemma calm_alter u : calm (alter_st u).
Proof. intros h s _. simpl. eexists. by split. Qed.
Lemma calm_inspect {A} (f : Refreshing -> A) : calm (inspect (fun s => Ok (f s))).
Proof. by apply does_perform. Qed.
Lemma calm_if {A} (b : bool) (c d : F A) : calm c -> calm d -> calm (if b then c else d).
Proof. by destruct b. Qed.

Lemma calm_then {A} got (c : F A) k : (forall a, calm (k a)) -> calm (then_else got c k).
Proof. intros Hk. apply calm_bind; [apply calm_attempt|]. intros [a|e]; [done|apply calm_ret]. Qed.
Lemma calm_now : calm now_of.
Proof. apply calm_inspect. Qed.

Lemma calm_mark_sources : calm (mark_sources_unavailable rn).
Proof.
  apply calm_bind; [apply calm_attempt|]. intros health. apply calm_bind; [apply calm_attempt|]. intros _. apply calm_ret.
Qed.

Lemma calm_read_sources : calm (read_sources rn).
Proof.
  apply calm_bind; [apply calm_bind; [apply calm_now|]; intros now; apply calm_inspect|]. intros due.
  apply calm_if; apply calm_then.
  - intros o. apply calm_then. intros l. apply calm_bind; [apply calm_now|]. intros now.
    apply calm_bind; [apply calm_alter|]. intros _. apply calm_then. intros _. apply calm_ret.
  - intros got. apply calm_then. intros _. apply calm_ret.
Qed.

(** Until the time of the refresh is noted. *)
Lemma refresh_once_does : does (fun _ => True) (refresh_once rn) (fun r _ s =>
  match r with Ok _ => rf_last_refresh_at s = Some (dg_now (rf_discovery s)) | Err e => e = CancelledError end).
Proof.
  eapply does_bind with (M := fun _ _ _ => True).
  { eapply does_conseq; [apply calm_read_sources|done|]. by intros [a|e]. }
  intros r l1 s1 _. eapply does_bind with (M := fun _ _ _ => True).
  { eapply (does_conseq (fun _ => True)); [|done|].
    - instantiate (1 := fun r _ _ => match r with Ok _ => True | Err e => e = CancelledError end).
      destruct (snd r); [|apply calm_alter]. apply calm_bind; [apply calm_alter|]. intros _. apply calm_mark_sources.
    - by intros [a|e]. }
  intros u l2 s2 _. eapply does_bind with (M := fun _ _ _ => True).
  { eapply (does_conseq (fun _ => True)); [|done|].
    - instantiate (1 := fun r _ _ => match r with Ok _ => True | Err e => e = CancelledError end).
      apply calm_if; [|apply calm_ret]. apply calm_bind; [apply calm_attempt|]. intros _. apply calm_ret.
    - by intros [a|e]. }
  intros u2 l3 s3 _. intros h s Hs. simpl. eexists. rewrite <- !app_assoc. split; [reflexivity|done].
Qed.

(** C32: A refresh always comes back: whatever the adapter, the repositories, the
    durable writer, the retention maintenance and the marking of unavailable
    sources answer, [refresh_once] raises nothing but a cancellation, and it has
    noted the time of the refresh. *)
Theorem refresh_comes_back o n s :
  match fst (fst (run o (refresh_once rn) n s)) with
  | Ok _ => let s' := snd (run o (refresh_once rn) n s) in rf_last_refresh_at s' = Some (dg_now (rf_discovery s'))
  | Err e => e = CancelledError
  end.
Proof.
  apply (does_sound (refresh_once rn) (fun r _ s => match r with
    | Ok _ => rf_last_refresh_at s = Some (dg_now (rf_discovery s)) | Err e => e = CancelledError end)).
  eapply does_conseq; [apply refresh_once_does|done|done].
Qed.
End Promises.

(** ** A lost source is closed *)

(** No command resolves to a route of the source. *)
Definition closed_routes (adapter : string) (external : option string) (r : DeviceRegistry) : Prop :=
  forall device command rt, rr_route (resolve_command_route r device command) = Some rt ->
    route_of_source adapter external rt = false.
(** No observation of the source counts. *)
Definition closed_store (adapter : string) (external : option string) (t : StateStore) : Prop :=
  forall sk x, (sk, x) ∈ (sc_source_snapshots (st_data t) : list (source_key * StateSnapshot)) ->
    source_owned adapter external sk x = false.

(** The step from [t] to [t'] puts the source out: every key that had a live
    observation of it gets a fresh version and is resolved again, to an
    observation of another source if its reading is [CURRENT], and to
    [UNAVAILABLE] if the source was its only one. *)
Definition put_out (adapter : string) (external : option string) (t t' : StateStore) : Prop :=
  forall k, loses adapter external (st_data t) k -> exists v,
    visible (st_data t') k = Some v /\ sc_version_counter (st_data t) < version_of (st_data t') k /\
    (ss_status v = CURRENT -> exists sk,
       (sk, v) ∈ (sc_source_snapshots (st_data t) : list (source_key * StateSnapshot)) /\
       fst sk = k /\ source_owned adapter external sk v = false) /\
    ((forall sk x, (sk, x) ∈ (sc_source_snapshots (st_data t) : list (source_key * StateSnapshot)) ->
        fst sk = k -> source_owned adapter external sk x = true) -> ss_status v = UNAVAILABLE).

Lemma owned_scope adapter external sk x :
  source_owned adapter external sk x = true -> source_owned adapter None sk x = true.
Proof.
  unfold source_owned. intros [[-> _]%andb_true_iff ->]%andb_true_iff. done.
Qed.
Lemma put_out_scope adapter external t t' : put_out adapter None t t' -> put_out adapter external t t'.
Proof.
  intros H k (sk & x & Hin & Hk & Ho%owned_scope). destruct (H k) as (v & Hv & Hn & Hc & Ha); [by exists sk, x|].
  exists v. split; [done|]. split; [done|]. split.
  - intros (sk' & ? & ? & Ho')%Hc. exists sk'. split; [done|]. split; [done|].
    destruct (source_owned adapter external sk' v) eqn:E; [|done]. apply owned_scope in E. congruence.
  - intros Hall. apply Ha. intros sk' x' Hin' Hk'. by eapply owned_scope, Hall.
Qed.
Lemma mark_puts_out `{SO : SetOrder} adapter external io t out t' :
  mark_source_unavailable key_set_order adapter external io t = (Ok out, t') -> put_out adapter external t t'.
Proof.
  intros H k Hk.
  destruct (proj1 (source_loss_never_current key_set_order key_set_order_perm adapter external io t t' out H) k Hk)
    as (v & Hv & _ & Hn & Hc & Ha).
  by exists v.
Qed.

Lemma closed_routes_scope adapter external r : closed_routes adapter None r -> closed_routes adapter external r.
Proof.
  intros H device command rt Hr. apply H in Hr. unfold route_of_source in *.
  by destruct (String.eqb (sr_adapter_id (rt_source_ref rt)) adapter).
Qed.
Lemma closed_store_scope adapter external t : closed_store adapter None t -> closed_store adapter external t.
Proof.
  intros H sk x Hin. apply H in Hin. unfold source_owned in *. simpl in Hin. rewrite andb_true_r in Hin.
  destruct (String.eqb _ adapter); [|done]. simpl in *. by rewrite Hin, andb_false_r.
Qed.

Lemma mark_closes_store `{SO : SetOrder} adapter external io t out t' :
  mark_source_unavailable key_set_order adapter external io t = (Ok out, t') -> closed_store adapter external t'.
Proof.
  unfold mark_source_unavailable. rewrite stm_bind_get. set (c := st_data t).
  intros ([c' out'] & t1 & Hr & Hc)%stm_bind_ok. apply lift_ok in Hr as [Hr ->].
  apply stm_bind_ok in Hc as (u & t2 & Hc & [= _ <-]). simpl in Hc.
  assert (st_data t2 = c') as Ht.
  { unfold commit_candidate in Hc. destruct (_ && _); [done|]. by destruct io; injection Hc as _ <-. }
  apply (resolve_keys_spec key_set_order key_set_order_perm) in Hr as (E & _). intros sk x. rewrite Ht, E. simpl.
  rewrite elem_of_update_sources. intros (y & _ & ->). destruct (source_owned adapter external sk y) eqn:Eo; [|done].
  unfold source_owned. simpl. by rewrite andb_false_r.
Qed.

Section Loss.
Context `{CJ : Canonical} `{PY : Interpreter} `{SO : SetOrder} (dy : DiscoveryService).
Context (adapter : string) (external : option string).

(** Others do not bring the source back. *)
Definition nobody_returns (s s' : Discovering) : Prop :=
  (closed_routes adapter external (dg_registry s) -> closed_routes adapter external (dg_registry s')) /\
  (closed_store adapter external (dg_store s) -> closed_store adapter external (dg_store s')).

Definition routes_closed (s : Discovering) : Prop := closed_routes adapter external (dg_registry s).
Definition closed (s : Discovering) : Prop := routes_closed s /\ closed_store adapter external (dg_store s).

Lemma routes_stable s s' : routes_closed s -> nobody_returns s s' -> routes_closed s'.
Proof. intros H [Hr _]. by apply Hr. Qed.
Lemma closed_stable s s' : closed s -> nobody_returns s s' -> closed s'.
Proof. intros [H1 H2] [Hr Hs]. split; [by apply Hr|by apply Hs]. Qed.

Lemma closed_on_store {A} (m : stm StateStore exn A) :
  (forall t, sc_source_snapshots (st_data (snd (m t))) = sc_source_snapshots (st_data t)) ->
  stays nobody_returns closed (on_store m).
Proof.
  intros Hm. apply stays_perform. intros s [H1 H2]. pose proof (Hm (dg_store s)) as E.
  destruct (m (dg_store s)) as [r t]. simpl in *. split; [done|]. unfold closed_store in *. simpl. by rewrite E.
Qed.

Lemma closed_repository u : (forall s, dg_registry (u s) = dg_registry s /\ dg_store (u s) = dg_store s) ->
  stays nobody_returns closed (repository_call u).
Proof.
  intros Hu. apply stays_bind; [apply stays_await, closed_stable|]. intros _. apply stays_alter. intros s [H1 H2].
  unfold closed, routes_closed. destruct (Hu s) as [-> ->]. done.
Qed.

Lemma rollback_keeps_sources t :
  sc_source_snapshots (st_data (rollback_metadata_mutation t)) = sc_source_snapshots (st_data t).
Proof. unfold rollback_metadata_mutation. by destruct (st_pending_metadata_before t) as [[? ?]|]. Qed.
Lemma persist_keeps_sources io t :
  sc_source_snapshots (st_data (snd (persist_metadata io t))) = sc_source_snapshots (st_data t).
Proof.
  unfold persist_metadata. destruct (st_persistence_bound t); [|done]. destruct io; try done.
  simpl. by rewrite rollback_keeps_sources.
Qed.
Lemma revision_keeps_sources f t :
  sc_source_snapshots (st_data (record_inventory_fingerprint f (begin_revision t))) = sc_source_snapshots (st_data t).
Proof.
  unfold record_inventory_fingerprint, begin_revision, remember_metadata_before_mutation.
  by repeat (simpl; case_match).
Qed.

Lemma record_inventory_closed : stays nobody_returns closed (record_inventory_mutation dy).
Proof.
  apply stays_look. intros s. apply stays_if; [apply stays_ret|].
  apply stays_bind; [apply closed_on_store; intros t; apply revision_keeps_sources|]. intros _.
  apply stays_bind.
  { apply stays_if; [|apply stays_ret]. apply stays_look. intros s1. apply stays_iter. intros d. by apply closed_repository. }
  intros _. apply stays_look. intros s2. apply stays_if.
  { apply stays_bind; [apply stays_await, closed_stable|]. intros io. apply closed_on_store, persist_keeps_sources. }
  apply stays_if; [|apply stays_ret]. apply stays_bind.
  - apply stays_catch.
    + apply stays_bind; [|intros m; by apply closed_repository]. by apply stays_perform.
    + intros e. apply stays_bind; [apply closed_on_store; intros t; apply rollback_keeps_sources|intros _; apply stays_raise].
  - intros _. by apply closed_on_store.
Qed.

(** Marking the routes closes them, marking the store closes it. *)
Lemma mark_source_closes scope h s :
  (forall r, closed_routes adapter scope r -> closed_routes adapter external r) ->
  wph nobody_returns (mark_source adapter scope false) (fun r _ s => routes_closed s /\ exists c, r = Ok c) h s.
Proof.
  intros Hsc. simpl. destruct (mark_source_availability adapter scope false (dg_registry s)) as [changed r] eqn:E.
  simpl. split; [|by eexists]. apply Hsc. intros device command rt.
  pose proof (proj1 (source_loss_disables_routes adapter scope (dg_registry s))) as H. rewrite E in H. apply H.
Qed.

Lemma scope_closes s : (forall r, closed_routes adapter (scope_of adapter external (dg_registry s)) r ->
    closed_routes adapter external r) /\
  (forall t, closed_store adapter (scope_of adapter external (dg_registry s)) t -> closed_store adapter external t).
Proof.
  unfold scope_of. case_bool_decide; [|done]. split; intros ?; [apply closed_routes_scope|apply closed_store_scope].
Qed.

(** One of the steps of [h] put the source out of the store. *)
Definition put_out_in (h : list (happening Discovering discovery_call)) : Prop :=
  exists h1 s1 s2 h2, h = h1 ++ Acted s1 s2 :: h2 /\ put_out adapter external (dg_store s1) (dg_store s2).
Lemma put_out_later h l : put_out_in h -> put_out_in (h ++ l).
Proof.
  intros (h1 & s1 & s2 & h2 & -> & H). exists h1, s1, s2, (h2 ++ l). by rewrite <- app_assoc.
Qed.
Definition lost_at_end (r : result exn (list StateSnapshot)) (h : list (happening Discovering discovery_call))
    (s : Discovering) : Prop :=
  match r with Ok _ => closed s /\ put_out_in h | Err _ => routes_closed s end.

Lemma scope_puts_out s t t' : put_out adapter (scope_of adapter external (dg_registry s)) t t' -> put_out adapter external t t'.
Proof. unfold scope_of. case_bool_decide; [apply put_out_scope|done]. Qed.

Lemma source_lost_closes s0 h s :
  wph nobody_returns (source_lost adapter (scope_of adapter external (dg_registry s0)))
    (fun r h s => match r with Ok _ => closed s /\ put_out_in h | Err _ => routes_closed s end) h s.
Proof.
  destruct (scope_closes s0) as [Hr Hs]. unfold source_lost. apply wph_bind.
  eapply wph_mono; [|by apply mark_source_closes]. intros r h1 s1 [H1 [c ->]]. apply wph_bind. unfold write.
  apply wph_bind. intros io s2 H2. pose proof (routes_stable _ _ H1 H2) as H3.
  destruct io as [io|e]; simpl; [|done].
  destruct (mark_source_unavailable key_set_order adapter _ io (dg_store s2)) as [[out|e] t] eqn:E; simpl; [|done].
  split; [split; [done|]; by eapply Hs, mark_closes_store|]. eexists _, s2, _, []. split; [reflexivity|].
  simpl. by eapply scope_puts_out, mark_puts_out.
Qed.

Lemma lose_source_closes s0 h s :
  wph nobody_returns
    (r ← source_lost adapter (scope_of adapter external (dg_registry s0));
     (if fst r : bool then record_inventory_mutation dy else mret tt) ≫= fun _ => mret (snd r)) lost_at_end h s.
Proof.
  apply wph_bind. eapply wph_mono; [|apply source_lost_closes]. intros [a|e] h2 s2 H2; [|done]. destruct H2 as [H2 Hp].
  apply wph_bind. eapply wph_mono with (Φ := fun _ h s => closed s /\ exists l, h = h2 ++ l).
  { intros [[]|e] h' s3 [H3 [l ->]]; [|apply H3]. split; [done|by apply put_out_later]. }
  apply wph_extends. apply (stays_if nobody_returns closed); [apply record_inventory_closed|apply stays_ret|done].
Qed.

(** C30: A lost source is closed.  Once [apply_source_availability] reports a
    source (or one of its entities; the whole source if nobody knows it) as
    unavailable, no command resolves to a route of it and no observation of it
    in the store counts, and one step of the call put it out: every key with a
    live observation of it got a fresh version and a reading that is, if it is
    still [CURRENT], an observation of another source, and [UNAVAILABLE] if it
    had no other.  That is so whatever is answered and whatever others do meanwhile
    short of bringing the source back; and if the call fails, by an error of
    the durable writer or a cancellation, the routes are closed already, unless
    it never got its turn. *)
Theorem lost_source_closed o n s :
  (forall n B q s, nobody_returns s (snd (o n B q s))) ->
  let c := apply_source_availability dy adapter external false in
  match fst (fst (run o c n s)) with
  | Ok _ => closed (snd (run o c n s)) /\ put_out_in (history_of o c n s)
  | Err e => routes_closed (snd (run o c n s)) \/ history_of o c n s = [Asked ask_lock (Err e)]
  end.
Proof.
  intros Ho c.
  apply (wph_sound nobody_returns o c Ho (fun r h s => match r with
    | Ok _ => closed s /\ put_out_in h | Err e => routes_closed s \/ h = [Asked ask_lock (Err e)] end) n [] s).
  intros [[]|e] s1 _; [|by right].
  refine (wph_mono _ _ _ _ _ _ _ (lose_source_closes s1 _ s1)). intros [a|e] h s2 H2; [done|by left].
Qed.
End Loss.

(** ** One home: a lamp that reports its changes, a meter that is polled *)

Definition home_canonical : Canonical :=
  Build_Canonical (fun _ => "json") (fun _ => "json") (fun s => s) pretty (fun t _ => pretty t).
Definition home_interpreter : Interpreter :=
  {| fromisoformat _ := None; zone_info _ := Err KeyError; set_order l := l; json_str _ := "json"; token_urlsafe _ := "token" |}.
Definition home_orders : SetOrder := Build_SetOrder (fun l => l) (fun l => l) (fun l => reflexivity l) (fun l => reflexivity l).
Definition home_texts : EventTexts := {| minute_text t := pretty t; datetime_text t _ := pretty t; exn_str _ := "error" |}.
#[local] Existing Instance home_canonical.
#[local] Existing Instance home_interpreter.
#[local] Existing Instance home_orders.
#[local] Existing Instance home_texts.

Definition home_entity (adapter entity name : string) : SourceEntity :=
  mkSourceEntity (Some entity) None None None None None None None None (Some "office")
    (Some name) (Some "light") (Some "light") None None None [example_capability] (Some adapter) None None.
Definition home_registry : DeviceRegistry :=
  Eval vm_compute in
    snd (apply_discovery (mkAdapterSnapshot [] [home_entity "ha" "light.desk" "Desk Lamp"; home_entity "mb" "meter.1" "Meter"] [])
           "composite" (Some ["ha"; "mb"]) empty_registry).
Definition home_reading (device capability adapter entity : string) : StateSnapshot :=
  mkStateSnapshot default_authority device capability (Some (SBool true)) None 10 10 CURRENT
    (mkSourceRef adapter entity None None None) None.
Definition lamp_reading : StateSnapshot := home_reading "office.desk-lamp" "power" "ha" "light.desk".
Definition meter_reading : StateSnapshot := home_reading "office.meter" "power" "mb" "meter.1".
Definition home_store (bound : bool) : StateStore :=
  snd (save_many id Persisted [lamp_reading; meter_reading] (empty_store <| st_persistence_bound := bound |>)).
Definition home_state (bound : bool) : Discovering :=
  mkDiscovering (seconds 60) home_registry (home_store bound) [] [] None [].
Definition home_tasks (bound : bool) : Refreshing :=
  mkRefreshing (home_state bound) false 0 None 0 None false 0 None None.

Definition home_discovery : DiscoveryService := mkDiscovery "composite" (Some ["ha"; "mb"]) true true false false false.
Definition home_refresher : Refresher :=
  mkRefresher home_discovery (NInt 30) (NInt 300) (Some ["ha"]) false ["ha"; "mb"] false false.

(** What the adapter, the writer and the health check answer. *)
Record answers := mkAnswers {
  an_read : result exn (list StateSnapshot);
  an_detailed : result exn (list EntityReadResult);
  an_writer : result exn PersistOutcome;
  an_health : result exn AdapterHealth
}.
Definition answer_discovery (a : answers) {B} (q : discovery_call B) : result exn B :=
  match q with
  | ask_lock => Ok tt
  | ask_discover _ => Ok (mkAdapterSnapshot [] [] [], [])
  | ask_read _ => an_read a
  | ask_read_detailed _ => an_detailed a
  | ask_writer => an_writer a
  | ask_repository => Ok tt
  end.
Definition home_oracle (a : answers) : oracle Discovering discovery_call := fun _ B q s => (answer_discovery a q, s).
Definition task_oracle (a : answers) : oracle Refreshing refresh_call := fun _ B q s =>
  (match q in refresh_call B return result exn B with
   | of_discovery q => answer_discovery a q
   | ask_health => an_health a
   | ask_connect => Ok tt
   | ask_retention => Ok 0
   | ask_sleep _ => Ok tt
   | ask_event => Ok None
   | ask_automation _ => Ok tt
   end, s).
Definition all_well : AdapterHealth := mkAdapterHealth true (Some [("ha", true); ("mb", true)]).
Definition good_answers : answers :=
  mkAnswers (Ok [meter_reading])
    (Ok [new_read_result (ss_source_ref meter_reading) (Some meter_reading) "success" None None []])
    (Ok Persisted) (Ok all_well).

(** The lamp is lost. *)
Lemma lost_source_closed_witness :
  closed "ha" None (snd (run (home_oracle good_answers) (apply_source_availability home_discovery "ha" None false) 0
                           (home_state true))) /\
  put_out_in "ha" None (history_of (home_oracle good_answers) (apply_source_availability home_discovery "ha" None false) 0
                           (home_state true)).
Proof.
  assert (forall n B q s, nobody_returns "ha" None s (snd (home_oracle good_answers n B q s))) as H by (intros; split; done).
  assert (is_ok (fst (fst (run (home_oracle good_answers)
    (apply_source_availability home_discovery "ha" None false) 0 (home_state true)))) = true) as Hok by (vm_compute; reflexivity).
  pose proof (lost_source_closed home_discovery "ha" None (home_oracle good_answers) 0 (home_state true) H) as Hc.
  cbv zeta in Hc. revert Hok Hc.
  destruct (fst (fst (run (home_oracle good_answers) (apply_source_availability home_discovery "ha" None false) 0 (home_state true))));
    [by intros _ Hc|by intros Hok].
Defined.

(** The refresh reads the meter, and only the meter. *)
Lemma event_sources_never_polled_witness :
  refs_read (history_of (task_oracle good_answers) (refresh_once home_refresher) 0 (home_tasks true)) <> [] /\
  forall ref, ref ∈ refs_read (history_of (task_oracle good_answers) (refresh_once home_refresher) 0 (home_tasks true)) ->
    sr_adapter_id ref ∉ ["ha"].
Proof.
  split; [vm_compute; discriminate|].
  assert (forall a, a ∈ event_driven_ids home_refresher -> a ∈ configured_ids home_refresher) as H.
  { intros a Ha. apply list_elem_of_singleton in Ha as ->. apply list_elem_of_here. }
  exact (proj2 (event_sources_never_polled home_refresher (task_oracle good_answers) 0 (home_tasks true)) H).
Defined.

(** *** Edges *)

(** Without a detailed read the readings of an entity are told apart by the
    entity only: of a lamp that answers its power and its brightness the store
    gets the brightness. *)
Definition lamp_brightness : StateSnapshot := home_reading "office.desk-lamp" "brightness" "ha" "light.desk".
Definition lamp_discovery : DiscoveryService := mkDiscovery "ha" None false false false false false.
Definition both_read : answers := mkAnswers (Ok [lamp_reading; lamp_brightness]) (Ok []) (Ok Persisted) (Ok all_well).
Example first_capability_dropped :
  let '(r, _, s) := run (home_oracle both_read) (refresh_state lamp_discovery ["mb"]) 0
                      (mkDiscovering (seconds 60) home_registry empty_store [] [] None []) in
  map ss_capability match r with Ok l => l | Err _ => [] end = ["brightness"] /\
  od_keys (sc_snapshots (st_data (dg_store s))) = [("office.desk-lamp", "brightness")].
Proof. vm_compute. done. Qed.

(** A refresh of several adapters that fails while all of them say they are
    connected marks nothing: the composite itself has no references. *)
Definition polling_refresher : Refresher :=
  mkRefresher home_discovery (NInt 30) (NInt 300) (Some ["ha"]) false [] false false.
Definition read_fails : answers := mkAnswers (Ok []) (Err (ValueError "malformed reading")) (Ok Persisted) (Ok all_well).
Example failed_refresh_unmarked :
  let s := snd (run (task_oracle read_fails) (refresh_once polling_refresher) 0 (home_tasks true)) in
  rf_last_error s = Some "error" /\
  (ss_status <$> od_values (sc_snapshots (st_data (dg_store (rf_discovery s))))) = [CURRENT; CURRENT].
Proof. vm_compute. done. Qed.

(** The components a health check reports as lost are marked outside of any
    [try]: a failing write of the store ends the task of the consumer. *)
Definition writer_fails : answers :=
  mkAnswers (Ok []) (Ok []) (Ok PersistFailed) (Ok (mkAdapterHealth true (Some [("ha", false); ("mb", true)]))).
Example consumer_taken_down :
  let '(r, _, s) := run (task_oracle writer_fails) (consumer_run home_refresher 5 5 (f64_of_Z 1) (f64_of_Z 60)) 0 (home_tasks true) in
  r = Err PersistenceError /\ rf_consumer_alive s = false /\ rf_events_applied s = 0.
Proof. vm_compute. done. Qed.
